(* ===== verification/_CoqProject ===== *)
-Q . S2P
Prelude.v
GoStr.v
NetIP.v
NetIPText.v
Sni.v
ProxyProto.v
Rules.v
Cache.v
Nonce.v
Limit.v
Ring.v
Tables.v
Pool.v
Linger.v
Relay.v
CertNames.v
Config.v
Listeners.v
Prog.v
Password.v
Http.v
Redirect.v
Handle.v
Sharing.v
Redirects.v
ServeConfig.v
RuleBuild.v
StaticFiles.v
ReverseProxy.v
Oidc.v
Yaml.v
OidcConfig.v
ConfigLoad.v
Sections.v
SectionEdits.v
Saves.v
OidcEdit.v
OidcRead.v
Console.v
WebSocket.v
Flows.v
Serve.v
Certs.v
CertJobs.v
Dial.v
Rotate.v
Logs.v
CAConfig.v
LocalCA.v
