(* ===== verification/Prelude.v ===== *)
(** * A verification development of tlsproxy

    tlsproxy is a TLS proxy written in Go. It accepts TCP connections on the
    ports of its listeners, reads the server name out of each ClientHello
    without decrypting anything, routes it by the rules of the configuration
    and either relays the bytes to an upstream or ends TLS itself and relays
    plain text, or serves HTTP: static folders, reverse proxies, behind
    passwords or an identity provider. It keeps its certificates with an ACME
    certificate authority or a local one, and a console changes the
    configuration while it runs.

    The files translate that program's Go code into definitions that evaluate,
    and prove what it promises about them. File and function names below are
    those under [src/]. A definition has the name of the function it
    translates wherever Rocq allows it.

    ** Conventions

    - A Go integer is a [Z] with its range where the range matters ([i64] of
      [Limit] wraps a 64-bit one); a byte is a [Z] below 256, a string or a
      slice of bytes a [list Z] ([bytes], below). [float64] is the Standard
      Library's [spec_float] at 53 bits of precision. Times and durations are
      nanoseconds.
    - A struct is a [Record], an enumeration an [Inductive]; a map is a
      stdpp [gmap]. Where Go ranges over a map, the order is a parameter or
      the theorem is stated for every order.
    - A fallible function returns [res E A], with one constructor of [E] for
      each [return ..., err], sequenced by the notation [let!].
    - Code that calls out, or that others run beside, is a program of [Prog]:
      its calls one at a time, what each answers left open. Any number of
      programs then interleave call by call.
    - What is not under [src/] is a parameter of a Section or an answer of a
      call: the network, the disk, the clock, DNS, the certificate authority,
      JSON, YAML, X.509, [net/http], the key derivations and ciphers. Where a
      theorem needs something of one, a named hypothesis says what its
      documentation says, and the theorem's witness instantiates it.

    ** The parts, and where each is

    The text of a connection:
    - [GoStr], [NetIP], [NetIPText], [Http]: what the proxy uses of [strings],
      [strconv], [net/netip], [net], [net/http], [net/url] and [path];
    - [Sni]: [sni.go], [readHello] of [proxy.go];
    - [ProxyProto]: [proxy_protocol.go].

    Routing:
    - [Rules]: patterns, priorities, captures, decisions ([config.go]);
    - [Cache]: the CLOCK cache and the route cache ([cache.go]);
    - [CertNames]: names of local certificates ([localca.go], [config.go]).

    What connections share:
    - [Nonce] ([nonce.go]), [Limit] ([limit.go]), [Ring] and [Tables]
      ([lockfree.go], [stats.go]), [Pool] ([pool.go]).

    A connection's life:
    - [Linger] ([linger.go]), [Relay] ([proxy.go] from [relay] on);
    - [Prog]: programs as calls, and how any number of them interleave;
    - [Handle]: [acceptLoop], [handle], [terminate] of [proxy.go], [serveHere]
      of [serve.go], as programs over the state of [Cache], [Nonce], [Ring],
      [Pool] and [Tables];
    - [Sharing]: any number of those at once;
    - [Redirects]: what the clients of a redirect listener are answered
      ([handleRedirect] of [redirect.go], a program of [Handle] too);
    - [Dial] ([dial.go]): the cache of addresses, and the race between the
      two families of a name's addresses.

    The configuration:
    - [Config]: its data, the value of each key, the checks of the listeners
      ([config.go], [console_config.go], [rotate.go]);
    - [ServeConfig] ([serve_config.go]), [RuleBuild] ([buildRule] and what it
      calls in [config.go]), [OidcConfig] ([oidc_config.go]);
    - [Yaml], [ConfigLoad]: the walk of the file ([config_yaml.go]),
      [LoadConfig], the console's rule ([console_config.go]);
    - [Listeners]: a reload's effect on the open ports ([listeners.go]).

    What the proxy serves itself:
    - [Redirect] ([redirect.go]), [StaticFiles] ([serve.go],
      [serve_listing.go]), [ReverseProxy] ([serve.go], [identity.go]);
    - [Password] ([password.go]), [Oidc] ([oidc.go]);
    - [Serve]: a request from its connection to its route ([serve.go]).

    Certificates:
    - [Certs], [CertJobs]: the certificate manager ([certs.go]) and everybody
      who uses it at once;
    - [CAConfig] ([caconfig.go]), [LocalCA] ([localca.go]): a local CA's
      settings, its certificates and everybody who uses it at once.

    Logging:
    - [Logs] ([logx.go]): the lines' way through the queue to the files;
    - [Rotate] ([rotate.go]): writing, rotating and compressing the files.

    The console:
    - [Console]: what it checks of every request, sign-ins and sessions
      ([console.go]), the order its rules page lists ([console_rules.go]);
    - [Sections], [SectionEdits] ([sections.go]): the edits of the file's tree,
      one rule, listener or basic_auth group at a time;
    - [Saves]: any number of saves of the file at once, beside other programs
      ([console.go], [console_rules.go], [console_auth.go]);
    - [OidcEdit], [OidcRead] ([console_oidc.go]): the changes to the OpenID
      Connect items, the files of their secrets, and the items read back;
    - [Flows] ([flows.go], [stats.go]): the log of connections and what a page
      that opens is told of them; the counters a reload keeps;
    - [WebSocket] ([websocket.go]): the frames of the socket its pages watch.

    They meet like this. [ConfigLoad] yields the [Config] record, whose rules
    are those of [Rules], made by [RuleBuild]; [Handle] accepts for a
    [Listener] of it, reads with [ProxyProto] and [Sni], routes through
    [Cache] with [Rules.Route], claims and releases in [Tables], [Limit] and
    [Pool], then runs [Relay] or hands the connection to [Serve]. [Serve]
    decides with [Rules], [Password] and [Oidc] and answers with [StaticFiles]
    or [ReverseProxy]. [Certs] reads the same [Config] and answers the
    handshakes. [Saves] edits the file's text with [Sections] and keeps what
    [ConfigLoad] accepts. [Pool] uses its queue through the class [QueueLaws],
    which [Ring] implements; [Linger] its reader through [MoverLaws].

    ** What is proved

    - Reading the stream (C1, C5, C6): the incremental reader answers what the
      parser says of the bytes, for every way of cutting the stream into reads;
      PROXY headers round trip; detection loses no byte.
    - Routing (C7, C13): the most specific rule wins, and the cache changes
      nothing.
    - Data structures (C12, C15, C17, C19, C21): each against its abstract
      specification (map, queue, exact counts, rate), under any interleaving of
      atomic actions where the code is lock-free.
    - A connection (C8, C25, C27, C31, C32, C34, C35): what it delivers, why it
      ends, that nothing leaks, that limits hold, that it dials only
      where it was routed, under any interleaving of connections; that a dial
      ends and closes the connections it does not return; that a redirect
      listener's answers are those of its requests, in their order.
    - The configuration (C23, C28, C29, C30): whatever loads can be run, and a
      reload makes the ports match it.
    - Serving (C16, C22, C37, C40): no forged identity, no file outside
      the folder, no guarded route without credentials or a completed sign-in.
    - Certificates (C2, C11, C33; C3, C9 of the local CAs): no order nobody
      approved, jobs exclusive and bounded, no deadlock; a handshake gets a
      certificate of its name that is not due and that the CA in place signed,
      and renewing the CA takes none away.
    - Logging (C18, C24): no line is lost silently, written twice, out of
      order or to the wrong file; no rotation loses or cuts one whatever
      fails.
    - The console (C4, C10, C14, C20, C26, C36, C38, C39): nobody is let in without
      a session of the password in force, sign-ins are spaced out after five
      wrong passwords; an edit changes what it names and nothing else, and an
      item written is read back as what was said; saves replace only the
      version they were made from; a change refused leaves every file as it
      was; a page of the flow log misses no connection.
      ([Console.listed_as_tried] and [SectionEdits.edit_listener_exact] belong
      here too.)

    ** Fuel and bounds

    Recursion that is not structural takes fuel, and each such function has a
    lemma that the fuel given is enough, so that no theorem holds because a
    function ran out: [Ring.ring_size] by doublings, [Cache.sweep] by twice
    the slots, [Sni.read_loop] and [ProxyProto]'s loops by the bytes they may
    read, [Rules.expand_go] by the length of the text. The programs of [Prog]
    need none: a loop is a list walked or a bounded number of turns, and
    [CertJobs.users_end] and [Sharing] count the calls left.

    ** Idealisations

    - Case mapping and white space are those of ASCII; the texts classified
      (host names, header names, keywords) are ASCII.
    - The 64-bit positions of the queue and identifiers of connections do not
      wrap: they count operations.
    - A critical section of a mutex is one step; what it reads from the disk
      is answered before it. Atomic loads, stores and compare-and-swaps are
      one step each, in the order of the program (Go's memory model makes
      them sequentially consistent).
    - In [Oidc], AES-GCM opens only what it sealed (hypothesis [honest]); in
      [Password], what is remembered by its SHA-256 is who it was made for
      (injective on what is compared).
    - [Certs]'s [applyMu] is a call that waits: a program blocked on it takes
      no step until it is free ([Prog.step_while]).
    - In [LocalCA] what is done under a name's lock is one step, which reads
      the clock and the settings once; keys, certificates and their signatures
      are values with the relations the theorems state. In [Rotate] a system
      call fails when an oracle says so, and gzip is a function with an
      inverse.
    - [Logs] takes the queue as [Ring] shows it to be, and what is done under
      [logMu] or [flushMu] as the steps written there. [Dial] reads the clock
      once per attempt; the time of the race is the order of its events.
    - [Console] reads the clock once per critical section. In [Saves] removing
      an old backup does not fail. [Sections] leaves out how a node is written:
      its style, its comments, the lines of what is added.
    - In [Flows] a view of a connection is taken in one step, and going through
      the table finds at least those there all along ([Tables]: a slot does not
      move); the events of a page are those put into its queue, which drops
      the oldest when the page is slow.
    - Log lines are left out, except what a connection leaves in the flow log.

    ** Not modelled

    [main.go], [signal_*.go], [splice_*.go], [sync_directory_*.go]: the
    command line and system calls. Of [console*.go], the JSON its pages show,
    the pages of the certificate authorities, the discovery of a provider;
    [config_tree.go], [config_keys.go]: what the editor shows of a file.
    Of [flows.go] the snapshots after the first and the batches of a page's
    messages, of [stats.go] the text of the reports. Of [logx.go], sizes and durations as text. Of [localca.go], making
    a CA and pruning what it put aside; of [caconfig.go], its settings written
    out. [oidc_check.go]. Third-party code under [vendor/] and
    the pages under [static/]. *)

From stdpp Require Export base gmap list strings sorting.
From Stdlib Require Export ZArith Lia.
From Stdlib Require Import Ascii.

Global Open Scope Z_scope.

(** * Results

    A fallible Go function returns a value or one of an enumerated set of
    errors: one constructor per [return ..., err] of the source. *)

Inductive res (E A : Type) : Type :=
| Ok (a : A)
| Err (e : E).
Arguments Ok {E A} a.
Arguments Err {E A} e.

#[export] Instance res_eq_dec `{EqDecision E, EqDecision A} : EqDecision (res E A).
Proof. solve_decision. Defined.

Definition is_ok {E A} (r : res E A) : bool :=
  match r with Ok _ => true | Err _ => false end.

Declare Scope go_scope.
Delimit Scope go_scope with go.

Notation "'let!' p ':=' c 'in' k" :=
  (match c with Ok p => k | Err e => Err e end)
  (at level 10, p pattern, c at level 100, k at level 200,
   format "'[v' 'let!'  p  ':='  c  'in' '/' k ']'") : go_scope.

(** [guard! b else e in k]: Go's [if b { return e }] written positively. *)
Notation "'guard!' b 'else' e 'in' k" :=
  (if (b : bool) then k else Err e)
  (at level 10, b at level 100, e at level 100, k at level 200,
   format "'[v' 'guard!'  b  'else'  e  'in' '/' k ']'") : go_scope.

Global Open Scope go_scope.

(** * Bytes

    A Go [string] and a Go [[]byte] are both lists of byte values. *)

Abbreviation bytes := (list Z).

Definition byte_ok (b : Z) : Prop := 0 <= b < 256.
Abbreviation bytes_ok := (Forall byte_ok).

#[export] Instance byte_ok_dec b : Decision (byte_ok b).
Proof. unfold byte_ok. apply _. Defined.

(** A string literal of the source as its bytes. *)
Fixpoint lit (s : string) : bytes :=
  match s with
  | EmptyString => []
  | String c s' => Z.of_nat (nat_of_ascii c) :: lit s'
  end.

(** [len] is Go's built-in, an [int]. *)
Definition len {A} (l : list A) : Z := Z.of_nat (length l).

(** [ch "x"] is the byte constant ['x']. *)
Definition ch (s : string) : Z := default 0 (head (lit s)).

(** * Machine integers *)

Definition u8 (n : Z) : Z := n mod 2 ^ 8.
Definition u16 (n : Z) : Z := n mod 2 ^ 16.
Definition u32 (n : Z) : Z := n mod 2 ^ 32.
Definition u64 (n : Z) : Z := n mod 2 ^ 64.

(** [int(b[0])<<8 | int(b[1])] *)
Definition be16 (b0 b1 : Z) : Z := Z.lor (Z.shiftl b0 8) b1.
(** [binary.BigEndian.AppendUint16(nil, n)] *)
Definition put_be16 (n : Z) : bytes := [u8 (Z.shiftr n 8); u8 n].

Lemma be16_arith b0 b1 : byte_ok b1 → be16 b0 b1 = b0 * 256 + b1.
Proof.
  intros Hb. unfold be16.
  rewrite Z.shiftl_mul_pow2 by lia. rewrite <- Z.add_nocarry_lor; [done|].
  apply Z.bits_inj'; intros i Hi. rewrite Z.land_spec, Z.bits_0.
  destruct (decide (i < 8)).
  - rewrite Z.mul_pow2_bits_low by lia. done.
  - rewrite (Z.bits_above_log2 b1 i), andb_false_r; [done|unfold byte_ok in Hb; lia|].
    unfold byte_ok in Hb. destruct (decide (b1 = 0)) as [->|]; [cbn; lia|].
    assert (Z.log2 b1 < 8); [|lia]. apply Z.log2_lt_pow2; lia.
Qed.

Lemma be16_range b0 b1 : byte_ok b0 → byte_ok b1 → 0 <= be16 b0 b1 < 65536.
Proof. intros H0 H1. rewrite be16_arith by done. unfold byte_ok in *. lia. Qed.

Lemma be16_put n : 0 <= n < 65536 →
  be16 (u8 (Z.shiftr n 8)) (u8 n) = n.
Proof.
  intros Hn. rewrite be16_arith by (unfold byte_ok, u8; apply Z.mod_pos_bound; lia).
  unfold u8. rewrite Z.shiftr_div_pow2 by lia.
  change (2 ^ 8) with 256.
  rewrite (Z.mod_small (n / 256)); [pose proof (Z.div_mod n 256); lia|].
  split; [apply Z.div_pos; lia|apply Z.div_lt_upper_bound; lia].
Qed.

Lemma put_be16_ok n : bytes_ok (put_be16 n).
Proof. repeat constructor; unfold byte_ok, u8; apply Z.mod_pos_bound; lia. Qed.

(** * Lists *)

Lemma len_nonneg {A} (l : list A) : 0 <= len l.
Proof. unfold len; lia. Qed.
Lemma len_nil {A} : len (@nil A) = 0. Proof. done. Qed.
Lemma len_cons {A} (x : A) l : len (x :: l) = 1 + len l.
Proof. unfold len; cbn [length]; lia. Qed.
Lemma len_app {A} (l k : list A) : len (l ++ k) = len l + len k.
Proof. unfold len; rewrite length_app; lia. Qed.
Lemma len_nil_inv {A} (l : list A) : len l = 0 → l = [].
Proof. unfold len; destruct l; cbn [length]; [done|lia]. Qed.
Lemma len_take {A} (l : list A) n : 0 <= n <= len l → len (take (Z.to_nat n) l) = n.
Proof. unfold len. intros ?. rewrite length_take. lia. Qed.
Lemma len_drop {A} (l : list A) n : 0 <= n <= len l → len (drop (Z.to_nat n) l) = len l - n.
Proof. unfold len. intros ?. rewrite length_drop. lia. Qed.

Create Rewrite HintDb len.
Lemma len_put_be16 n : len (put_be16 n) = 2.
Proof. done. Qed.

#[export] Hint Rewrite @len_nil @len_cons @len_app len_put_be16 : len.

Lemma take_len_app {A} (l k : list A) : take (Z.to_nat (len l)) (l ++ k) = l.
Proof. unfold len. rewrite Nat2Z.id. apply take_app_length. Qed.
Lemma drop_len_app {A} (l k : list A) : drop (Z.to_nat (len l)) (l ++ k) = k.
Proof. unfold len. rewrite Nat2Z.id. apply drop_app_length. Qed.

(** [slices.Contains] *)
Definition contains {A} `{EqDecision A} (l : list A) (x : A) : bool := bool_decide (x ∈ l).

Lemma Forall_take_le {A} (P : A → Prop) n l : Forall P l → Forall P (take n l).
Proof. apply Forall_take. Qed.

Create HintDb go.
#[export] Hint Resolve len_nonneg put_be16_ok Forall_take Forall_drop : go.

(** * Automation *)



(** Split the conjunctions, existentials and [Ok]/[Err] equations of the
    context and close what is contradictory. *)
Ltac go_simp :=
  repeat match goal with
  | H : _ ∧ _ |- _ => destruct H
  | H : ∃ _, _ |- _ => destruct H
  | H : Ok _ = Ok _ |- _ => injection H as H; try subst
  | H : Err _ = Err _ |- _ => injection H as H; try subst
  | H : Ok _ = Err _ |- _ => discriminate H
  | H : Err _ = Ok _ |- _ => discriminate H
  | H : Some _ = Some _ |- _ => injection H as H; try subst
  | H : Some _ = None |- _ => discriminate H
  | H : None = Some _ |- _ => discriminate H
  | H : (_, _) = (_, _) |- _ => injection H as H; try subst
  end.

(** Case analysis on the innermost scrutinee of a [match] or [if] in [H]. *)
Ltac go_case H :=
  match type of H with
  | context [match ?x with _ => _ end] =>
      lazymatch x with
      | context [match _ with _ => _ end] => fail
      | _ => let E := fresh "E" in destruct x eqn:E
      end
  end.

(** Boolean tests of the code as propositions. *)
Ltac bool_prop :=
  repeat match goal with
  | H : (_ && _)%bool = true |- _ => apply andb_true_iff in H as [??]
  | H : (_ || _)%bool = false |- _ => apply orb_false_iff in H as [??]
  | H : (_ || _)%bool = true |- _ => apply orb_true_iff in H
  | H : (_ && _)%bool = false |- _ => apply andb_false_iff in H
  | H : negb _ = true |- _ => apply negb_true_iff in H
  | H : negb _ = false |- _ => apply negb_false_iff in H
  | H : (_ <? _) = true |- _ => apply Z.ltb_lt in H
  | H : (_ <? _) = false |- _ => apply Z.ltb_ge in H
  | H : (_ <=? _) = true |- _ => apply Z.leb_le in H
  | H : (_ <=? _) = false |- _ => apply Z.leb_gt in H
  | H : (_ =? _) = true |- _ => apply Z.eqb_eq in H
  | H : (_ =? _) = false |- _ => apply Z.eqb_neq in H
  | H : bool_decide _ = true |- _ => apply bool_decide_eq_true in H
  | H : bool_decide _ = false |- _ => apply bool_decide_eq_false in H
  end.

(** Length arithmetic: normalise [len] and finish with [lia]. *)
Ltac len_lia := autorewrite with len in *; unfold len in *;
  rewrite ?length_take, ?length_drop in *; lia.

(** * Stable sorting

    [sort.SliceStable]: there is one stable result, and insertion gives it.
    [less] is Go's comparison. *)

Section StableSort.
Context {A : Type} (less : A → A → bool).

Fixpoint insert_stable (x : A) (l : list A) : list A :=
  match l with
  | [] => [x]
  | y :: l' => if less y x then y :: insert_stable x l' else x :: l
  end.
Definition stable_sort (l : list A) : list A := foldr insert_stable [] l.

Lemma insert_stable_perm x l : insert_stable x l ≡ₚ x :: l.
Proof.
  induction l as [|y l IH]; cbn; [done|]. destruct (less y x); [|done].
  by rewrite IH, Permutation_swap.
Qed.

Lemma stable_sort_perm l : stable_sort l ≡ₚ l.
Proof. induction l as [|x l IH]; cbn; [done|]. by rewrite insert_stable_perm, IH. Qed.

Lemma elem_of_stable_sort x l : x ∈ stable_sort l ↔ x ∈ l.
Proof. by rewrite stable_sort_perm. Qed.

(** Whoever comes first in the sorted list is not beaten by who comes later,
    and between equals the input's order decides. *)
Definition before (l : list A) (x y : A) : Prop := ∃ i j : nat, (i < j)%nat ∧ l !! i = Some x ∧ l !! j = Some y.

Lemma before_cons l z x y : before (z :: l) x y ↔ (x = z ∧ y ∈ l) ∨ before l x y.
Proof.
  unfold before. split.
  - intros (i & j & Hij & Hi & Hj). destruct j as [|j]; [lia|]. destruct i as [|i]; cbn in *.
    + left. injection Hi as ->. split; [done|]. by eapply list_elem_of_lookup_2.
    + right. exists i, j. split; [lia|done].
  - intros [[-> Hy]|(i & j & Hij & Hi & Hj)].
    + apply list_elem_of_lookup in Hy as [j Hj]. exists 0%nat, (S j). split; [lia|done].
    + exists (S i), (S j). split; [lia|done].
Qed.

Hypothesis less_trans : ∀ x y z, less x y = false → less y z = false → less x z = false.
Hypothesis less_asym : ∀ x y, less x y = true → less y x = false.

Lemma insert_stable_before x l u v :
  (∀ a b, before l a b → less b a = false) →
  before (insert_stable x l) u v → less v u = false.
Proof using less_trans less_asym.
  induction l as [|y l IH]; cbn; intros Hl Hb.
  - apply before_cons in Hb as [[_ H]|(i & j & _ & H & _)]; [by apply not_elem_of_nil in H|done].
  - assert (∀ a b, before l a b → less b a = false) as Hl' by (intros a b H; apply Hl, before_cons; by right).
    destruct (less y x) eqn:E.
    + apply before_cons in Hb as [[-> Hv]|Hb]; [|by apply IH].
      rewrite insert_stable_perm in Hv. apply elem_of_cons in Hv as [->|Hv]; [by apply less_asym|].
      apply Hl, before_cons. by left.
    + apply before_cons in Hb as [[-> Hv]|Hb]; [|by apply Hl].
      apply elem_of_cons in Hv as [->|Hv]; [done|].
      apply (less_trans v y x); [|done]. apply Hl, before_cons. by left.
Qed.

Lemma stable_sort_before l u v : before (stable_sort l) u v → less v u = false.
Proof using less_trans less_asym.
  revert u v. induction l as [|x l IH]; cbn; intros u v.
  - intros (i & j & _ & H & _). done.
  - intros Hb. by eapply insert_stable_before.
Qed.

Lemma insert_stable_stable x l l0 u v : l ≡ₚ l0 →
  (∀ a b, before l a b → less a b = true ∨ before l0 a b) →
  before (insert_stable x l) u v → less u v = true ∨ before (x :: l0) u v.
Proof.
  intros Hp Hl Hb. assert (∀ a b, before l a b → less a b = true ∨ before (x :: l0) a b) as Hl2.
  { intros a b [?|?]%Hl; [by left|]. right. apply before_cons. by right. }
  assert (∀ w, w ∈ l → before (x :: l0) x w) as Hx.
  { intros w Hw. apply before_cons. left. by rewrite <- Hp. }
  clear Hp Hl. revert Hb. induction l as [|y l IH]; cbn.
  - intros [[_ H]|(i & j & _ & H & _)]%before_cons; [by apply not_elem_of_nil in H|done].
  - destruct (less y x) eqn:E; intros [[-> Hv]|Hb]%before_cons.
    + rewrite insert_stable_perm in Hv. apply elem_of_cons in Hv as [->|Hv]; [by left|].
      apply Hl2, before_cons. by left.
    + apply IH; [..|done].
      * intros a b H. apply Hl2, before_cons. by right.
      * intros w Hw. apply Hx. by right.
    + right. by apply Hx.
    + by apply Hl2.
Qed.

Lemma stable_sort_stable l u v : before (stable_sort l) u v → less u v = true ∨ before l u v.
Proof.
  revert u v. induction l as [|x l IH]; cbn; intros u v Hb; [by right|].
  eapply insert_stable_stable; [apply stable_sort_perm|apply IH|done].
Qed.
End StableSort.

(** A sorted list is its own sort. *)
Lemma stable_sort_id {A} (less : A → A → bool) l : (∀ u v, before l u v → less v u = false) → stable_sort less l = l.
Proof.
  induction l as [|x l IH]; intros Hl; [done|]. change (insert_stable less x (stable_sort less l) = x :: l). rewrite IH by (intros u v H; apply Hl, before_cons; by right).
  destruct l as [|y l]; [done|]. cbn. rewrite Hl; [done|]. apply before_cons. left. split; [done|by left].
Qed.

(** A comparison that is transitive and total, given as a less. *)
Class StrictTotal {A} (less : A → A → bool) := {
  less_asymm x y : less x y = true → less y x = false;
  less_transitive x y z : less x y = true → less y z = true → less x z = true;
  less_total x y : less x y = false → less y x = false → x = y;
}.

Lemma less_neg_trans {A} (less : A → A → bool) `{!StrictTotal less} x y z :
  less x y = false → less y z = false → less x z = false.
Proof.
  intros Hxy Hyz. destruct (less x z) eqn:E; [|done]. destruct (less z y) eqn:Ezy.
  - by rewrite (less_transitive x z y) in Hxy.
  - rewrite (less_total y z) in Hxy by done. congruence.
Qed.

Lemma stable_sort_sorted {A} (less : A → A → bool) `{!StrictTotal less} l u v :
  before (stable_sort less l) u v → less v u = false.
Proof. apply stable_sort_before; [apply less_neg_trans; apply _|apply less_asymm]. Qed.

(** [slices.Compact] *)
Fixpoint compact {A} `{EqDecision A} (l : list A) : list A :=
  match l with
  | x :: l' => match l' with [] => [x] | y :: _ => if decide (x = y) then compact l' else x :: compact l' end
  | [] => []
  end.

Section Compact.
Context {A : Type} `{EqDecision A}.
Implicit Types l : list A.

Lemma compact_cons x l : compact (x :: l) = match head l with Some y => if decide (x = y) then compact l else x :: compact l | None => [x] end.
Proof. by destruct l. Qed.

Lemma elem_of_compact x l : x ∈ compact l ↔ x ∈ l.
Proof.
  induction l as [|y l IH]; [done|]. rewrite compact_cons. destruct l as [|z l]; [done|]. cbn [head].
  destruct (decide (y = z)) as [->|]; rewrite ?elem_of_cons, IH, !elem_of_cons; tauto.
Qed.

Lemma head_compact l : head (compact l) = head l.
Proof.
  induction l as [|y l IH]; [done|]. rewrite compact_cons. destruct l as [|z l]; [done|]. cbn [head].
  destruct (decide (y = z)) as [->|]; [exact IH|done].
Qed.

Lemma compact_compact l : compact (compact l) = compact l.
Proof.
  induction l as [|y l IH]; [done|]. rewrite compact_cons. destruct l as [|z l]; [done|]. cbn [head].
  destruct (decide (y = z)) as [->|]; [done|]. rewrite compact_cons, head_compact. cbn [head]. by rewrite decide_False, IH.
Qed.

Lemma before_compact l u v : before (compact l) u v → before l u v.
Proof.
  induction l as [|y l IH]; [done|]. rewrite compact_cons. destruct l as [|z l].
  { done. }
  cbn [head]. destruct (decide (y = z)) as [->|]; rewrite !before_cons; [intros H; right; by apply before_cons, IH|].
  intros [[-> Hv]|H]; [left; split; [done|by rewrite elem_of_compact in Hv]|right; by apply before_cons, IH].
Qed.
End Compact.

(** * Searching *)

(** The first element [find] takes comes before the others it would take. *)
Lemma find_some_before {A} (f : A → bool) l x : find f l = Some x →
  x ∈ l ∧ f x = true ∧ ∀ y, y ∈ l → y ≠ x → f y = true → before l x y.
Proof.
  induction l as [|z l IH]; cbn; [done|]. destruct (f z) eqn:E.
  - injection 1 as <-. split; [left|]. split; [done|]. intros y [->|Hy]%elem_of_cons Hne _; [done|]. apply before_cons. by left.
  - intros (H1 & H2 & H3)%IH. split; [by right|]. split; [done|].
    intros y [->|Hy]%elem_of_cons Hne Hf; [congruence|]. apply before_cons. right. by apply H3.
Qed.

(** Elements with one key in a list without duplicate keys are one. *)
Lemma NoDup_fmap_elem {A B} (f : A → B) l x y : NoDup (f <$> l) → x ∈ l → y ∈ l → f x = f y → x = y.
Proof.
  intros Hnd [i Hi]%list_elem_of_lookup [j Hj]%list_elem_of_lookup Heq.
  assert (i = j) as ->; [|congruence]. eapply NoDup_lookup; [apply Hnd| |]; rewrite list_lookup_fmap; [by rewrite Hi|rewrite Hj; cbn; by rewrite Heq].
Qed.

(** What a list of pairs says of an element of the second. *)
Lemma Forall2_elem_r {A B} (P : A → B → Prop) l k y : Forall2 P l k → y ∈ k → ∃ x, x ∈ l ∧ P x y.
Proof.
  induction 1 as [|a b l k Hab _ IH]; [by intros ?%not_elem_of_nil|].
  intros [->|Hy]%elem_of_cons; [exists a; split; [left|done]|]. destruct (IH Hy) as (x & ? & ?). exists x. split; [by right|done].
Qed.

(** * Sequences of steps *)

(** [steps R] is finite iteration of a step relation (stdpp's [rtc]); an
    invariant that every step preserves holds wherever it leads. *)
Lemma rtc_invariant {A} (R : relation A) (I : A → Prop) x y :
  (∀ a b, I a → R a b → I b) → rtc R x y → I x → I y.
Proof. intros Hstep. induction 1; eauto. Qed.
