(* ===== verification/GoStr.v ===== *)
(** GoStr: the parts of Go's [strings] and [strconv] packages that the proxy
    uses, on bytes.  Case mapping and white space are those of ASCII: the
    texts the proxy classifies (host names, header fields, configuration
    words) are ASCII, and bytes above 127 are left as they are. *)

From S2P Require Import Prelude.

(** * Characters *)

Definition is_digit (b : Z) : bool := (48 <=? b) && (b <=? 57).
Definition is_upper (b : Z) : bool := (65 <=? b) && (b <=? 90).
Definition is_lower (b : Z) : bool := (97 <=? b) && (b <=? 122).
Definition is_space (b : Z) : bool := ((9 <=? b) && (b <=? 13)) || (b =? 32).
Definition lower (b : Z) : Z := if is_upper b then b + 32 else b.

(** * package strings *)

Fixpoint has_prefix (s p : bytes) {struct p} : bool :=
  match p, s with
  | [], _ => true
  | _ :: _, [] => false
  | x :: p', y :: s' => (x =? y) && has_prefix s' p'
  end.

Definition has_suffix (s p : bytes) : bool := has_prefix (reverse s) (reverse p).

(** [strings.CutPrefix] *)
Definition cut_prefix (s p : bytes) : bytes * bool :=
  if has_prefix s p then (drop (length p) s, true) else (s, false).
Definition trim_prefix (s p : bytes) : bytes := (cut_prefix s p).1.
Definition trim_suffix (s p : bytes) : bytes :=
  if has_suffix s p then take (length s - length p) s else s.

Definition to_lower (s : bytes) : bytes := lower <$> s.
Definition equal_fold (s t : bytes) : bool := bool_decide (to_lower s = to_lower t).

(** [strings.IndexByte]: [None] is Go's [-1]. *)
Fixpoint index_by (p : Z → bool) (s : bytes) : option nat :=
  match s with
  | [] => None
  | b :: s' => if p b then Some O else S <$> index_by p s'
  end.
Definition index_byte (s : bytes) (c : Z) : option nat := index_by (Z.eqb c) s.

Fixpoint contains_str (s p : bytes) : bool :=
  has_prefix s p || match s with [] => false | _ :: s' => contains_str s' p end.

Definition contains_any (s chars : bytes) : bool :=
  existsb (fun b => contains chars b) s.

Definition count_byte (s : bytes) (c : Z) : nat :=
  length (filter (fun b => b = c) s).

(** [strings.Split] with a one-byte separator: never empty. *)
Fixpoint split_byte (s : bytes) (c : Z) : list bytes :=
  match s with
  | [] => [[]]
  | b :: s' =>
      let rest := split_byte s' c in
      if b =? c then [] :: rest
      else match rest with
           | [] => [[b]]
           | w :: ws => (b :: w) :: ws
           end
  end.

(** [strings.Join] *)
Fixpoint join (sep : bytes) (l : list bytes) : bytes :=
  match l with
  | [] => []
  | [w] => w
  | w :: l' => w ++ sep ++ join sep l'
  end.

(** Go's [<] on strings. *)
Fixpoint str_less (s t : bytes) : bool :=
  match s, t with
  | _, [] => false
  | [], _ :: _ => true
  | a :: s', b :: t' => (a <? b) || ((a =? b) && str_less s' t')
  end.

(** [strings.FieldsFunc]: the maximal runs of bytes outside [p]. *)
Definition fields_func (p : Z → bool) (s : bytes) : list bytes :=
  filter (fun w => w <> []) (split_byte ((fun b => if p b then 256 else b) <$> s) 256).

Fixpoint drop_while (p : Z → bool) (s : bytes) : bytes :=
  match s with
  | [] => []
  | b :: s' => if p b then drop_while p s' else s
  end.

(** [strings.TrimFunc] *)
Definition trim_func (p : Z → bool) (s : bytes) : bytes :=
  reverse (drop_while p (reverse (drop_while p s))).
Definition trim_space : bytes → bytes := trim_func is_space.
Definition trim (s cutset : bytes) : bytes := trim_func (contains cutset) s.

(** [strings.ReplaceAll s `\c` [d]] for a two-byte [old] whose bytes differ. *)
Fixpoint replace_all2 (s : bytes) (o1 o2 : Z) (new : bytes) : bytes :=
  match s with
  | [] => []
  | b :: s' =>
      match s' with
      | b' :: s'' =>
          if (b =? o1) && (b' =? o2) then new ++ replace_all2 s'' o1 o2 new
          else b :: replace_all2 s' o1 o2 new
      | [] => [b]
      end
  end.

(** [strings.ReplaceAll] deleting one byte. *)
Definition remove_byte (s : bytes) (c : Z) : bytes := filter (fun b => b <> c) s.

(** * package strconv *)

Fixpoint digits_go (fuel : nat) (n : Z) (acc : bytes) : bytes :=
  match fuel with
  | O => acc
  | S fuel' =>
      let acc' := (48 + n mod 10) :: acc in
      if n <? 10 then acc' else digits_go fuel' (n / 10) acc'
  end.

(** [strconv.Itoa] of a nonnegative number: one digit per step, and a number
    has no more decimal digits than bits. *)
Definition utoa (n : Z) : bytes := digits_go (S (Z.to_nat (Z.log2 n))) n [].
Definition itoa (n : Z) : bytes := if n <? 0 then ch "-" :: utoa (- n) else utoa n.

Fixpoint digits_value (s : bytes) (acc : Z) : option Z :=
  match s with
  | [] => Some acc
  | b :: s' => if is_digit b then digits_value s' (acc * 10 + (b - 48)) else None
  end.

(** [strconv.ParseUint(s, 10, bits)] *)
Definition parse_uint (s : bytes) (bits : Z) : option Z :=
  match s with
  | [] => None
  | _ => match digits_value s 0 with
         | Some n => if n <? 2 ^ bits then Some n else None
         | None => None
         end
  end.

(** [strconv.ParseInt(s, 10, 64)], and [strconv.Atoi]: a sign is allowed. *)
Definition parse_int (s : bytes) : option Z :=
  let (neg, body) :=
    match s with
    | b :: s' => if b =? 45 then (true, s') else if b =? 43 then (false, s') else (false, s)
    | [] => (false, [])
    end in
  match parse_uint body 64 with
  | Some n => if neg then (if n <=? 2 ^ 63 then Some (- n) else None)
              else (if n <? 2 ^ 63 then Some n else None)
  | None => None
  end.
Definition atoi : bytes → option Z := parse_int.

(** * Lemmas *)

Lemma has_prefix_spec s p : has_prefix s p = true ↔ ∃ k, s = p ++ k.
Proof.
  revert s; induction p as [|x p IH]; intros s; cbn; [split; eauto|].
  destruct s as [|y s]; [naive_solver|].
  rewrite andb_true_iff, Z.eqb_eq, IH. split.
  - intros [-> [k ->]]. eauto.
  - intros [k [= -> ->]]. eauto.
Qed.

Lemma has_prefix_app p k : has_prefix (p ++ k) p = true.
Proof. apply has_prefix_spec; eauto. Qed.

Lemma cut_prefix_app p k : cut_prefix (p ++ k) p = (k, true).
Proof. unfold cut_prefix. rewrite has_prefix_app, drop_app_length. done. Qed.

Lemma lower_idem b : lower (lower b) = lower b.
Proof. unfold lower, is_upper. repeat case_match; bool_prop; lia. Qed.

Lemma to_lower_idem s : to_lower (to_lower s) = to_lower s.
Proof. unfold to_lower. rewrite <- list_fmap_compose. apply list_fmap_ext. intros; apply lower_idem. Qed.

Lemma length_to_lower s : length (to_lower s) = length s.
Proof. apply length_fmap. Qed.

Lemma to_lower_app s t : to_lower (s ++ t) = to_lower s ++ to_lower t.
Proof. apply fmap_app. Qed.

Lemma equal_fold_spec s t : equal_fold s t = true ↔ to_lower s = to_lower t.
Proof. apply bool_decide_eq_true. Qed.

Lemma split_byte_nonempty s c : split_byte s c ≠ [].
Proof. destruct s; cbn; [done|]. repeat case_match; done. Qed.

(** Splitting and joining are inverse. *)
Lemma join_split s c : join [c] (split_byte s c) = s.
Proof.
  induction s as [|b s IH]; [done|]. cbn [split_byte].
  pose proof (split_byte_nonempty s c) as Hne.
  destruct (split_byte s c) as [|w ws] eqn:E; [done|].
  destruct (Z.eqb_spec b c) as [->|]; cbn in IH |- *; [by rewrite IH|].
  destruct ws; cbn in IH |- *; by rewrite <- IH.
Qed.

Lemma split_byte_no_sep s c : Forall (fun w => c ∉ w) (split_byte s c).
Proof.
  induction s as [|b s IH]; cbn; [repeat constructor; set_solver|].
  destruct (Z.eqb_spec b c) as [->|]; [constructor; [set_solver|done]|].
  destruct (split_byte s c) as [|w ws]; [repeat constructor; set_solver|].
  inversion IH; subst. constructor; [set_solver|done].
Qed.

Lemma split_join_cons w c s : c ∉ w → split_byte (w ++ c :: s) c = w :: split_byte s c.
Proof.
  induction w as [|b w IH]; cbn; intros Hc; [by rewrite Z.eqb_refl|].
  rewrite IH by set_solver. destruct (Z.eqb_spec b c) as [->|]; [set_solver|done].
Qed.

Lemma split_byte_none w c : c ∉ w → split_byte w c = [w].
Proof.
  induction w as [|b w IH]; cbn; intros Hc; [done|].
  rewrite IH by set_solver. destruct (Z.eqb_spec b c) as [->|]; [set_solver|done].
Qed.

Lemma index_by_spec p s i : index_by p s = Some i ↔
  (∃ b, s !! i = Some b ∧ p b = true) ∧ Forall (fun b => p b = false) (take i s).
Proof.
  revert i; induction s as [|b s IH]; intros i; cbn.
  - rewrite lookup_nil. naive_solver.
  - destruct (p b) eqn:E.
    + split.
      * intros [= <-]. cbn. eauto.
      * intros [[c [Hi Hc]] Hf]. destruct i; [done|]. cbn in Hf. inversion Hf; congruence.
    + destruct i as [|i]; cbn.
      * split; [destruct (index_by p s); done|]. intros [[c [[= <-] Hc]] _]. congruence.
      * rewrite fmap_Some. split.
        -- intros (j & Hj & [= <-]). apply IH in Hj as [? ?]. split; [done|]. by constructor.
        -- intros [Hb Hf]. inversion Hf; subst. exists i. split; [by apply IH|done].
Qed.

Lemma index_by_None p s : index_by p s = None ↔ Forall (fun b => p b = false) s.
Proof.
  induction s as [|b s IH]; cbn; [by split|].
  destruct (p b) eqn:E.
  - split; [done|]. intros H; inversion H; congruence.
  - rewrite fmap_None, IH. split; [by constructor|by inversion 1].
Qed.

(** ** Decimal numbers *)

Lemma digits_value_app s t acc :
  digits_value (s ++ t) acc =
  match digits_value s acc with Some a => digits_value t a | None => None end.
Proof. revert acc; induction s as [|b s IH]; intros acc; cbn; [done|]. destruct (is_digit b); auto. Qed.

Lemma digit_ok n : 0 <= n → is_digit (48 + n mod 10) = true.
Proof. intros ?. unfold is_digit. pose proof (Z.mod_pos_bound n 10). rewrite andb_true_iff, !Z.leb_le. lia. Qed.

Lemma digits_go_spec fuel n acc : 0 <= n < 2 ^ Z.of_nat fuel →
  ∃ ds, digits_go fuel n acc = ds ++ acc ∧ Forall (fun b => is_digit b = true) ds
        ∧ (fuel ≠ O → ds ≠ []) ∧ ∀ a k, digits_value (ds ++ k) a =
          digits_value k (a * 10 ^ len ds + n).
Proof.
  revert n acc; induction fuel as [|fuel IH]; intros n acc Hn.
  - exists []. cbn in Hn. assert (n = 0) as -> by lia. cbn. repeat split; try done.
    intros a k. rewrite Z.mul_1_r, Z.add_0_r. done.
  - cbn [digits_go]. destruct (Z.ltb_spec n 10) as [Hlt|Hge].
    + exists [48 + n mod 10]. rewrite Z.mod_small by lia.
      assert (is_digit (48 + n) = true) as Hd by (unfold is_digit; rewrite andb_true_iff, !Z.leb_le; lia).
      repeat split; [by repeat constructor|done|]. intros a k. cbn [app digits_value]. rewrite Hd.
      f_equal. unfold len; cbn. lia.
    + destruct (IH (n / 10) ((48 + n mod 10) :: acc)) as (ds & -> & Hds & _ & Hv).
      { rewrite Nat2Z.inj_succ, Z.pow_succ_r in Hn by lia. split; [apply Z.div_pos; lia|].
        apply Z.div_lt_upper_bound; lia. }
      exists (ds ++ [48 + n mod 10]). rewrite <- app_assoc. split; [done|].
      split; [|split].
      * apply Forall_app. split; [done|]. constructor; [|done]. apply digit_ok; lia.
      * intros _. destruct ds; done.
      * intros a k. rewrite <- app_assoc, Hv. cbn [app digits_value].
        rewrite (digit_ok n) by lia. f_equal.
        rewrite len_app, len_cons, len_nil, Z.pow_add_r by (try lia; apply len_nonneg).
        pose proof (Z.div_mod n 10). lia.
Qed.

Lemma utoa_bound n : 0 <= n → n < 2 ^ Z.of_nat (S (Z.to_nat (Z.log2 n))).
Proof.
  intros Hn. rewrite Nat2Z.inj_succ, Z2Nat.id by apply Z.log2_nonneg.
  destruct (decide (n = 0)) as [->|]; [cbn; lia|]. apply Z.log2_spec; lia.
Qed.

Lemma utoa_spec n : 0 <= n →
  utoa n ≠ [] ∧ Forall (fun b => is_digit b = true) (utoa n) ∧ digits_value (utoa n) 0 = Some n.
Proof.
  intros Hn. destruct (digits_go_spec (S (Z.to_nat (Z.log2 n))) n []) as (ds & E & Hf & Hne & Hv).
  { pose proof (utoa_bound n). lia. }
  unfold utoa. rewrite E, app_nil_r. split; [by apply Hne|]. split; [done|].
  specialize (Hv 0 []). rewrite app_nil_r in Hv. rewrite Hv. done.
Qed.

Lemma itoa_digits n : 0 <= n → Forall (fun b => is_digit b = true) (itoa n).
Proof. intros ?. unfold itoa. destruct (Z.ltb_spec n 0); [lia|]. by apply utoa_spec. Qed.

Lemma digits_go_length k fuel n acc : 0 <= n < 10 ^ Z.of_nat (S k) →
  (length (digits_go fuel n acc) <= length acc + S k)%nat.
Proof.
  revert fuel n acc; induction k as [|k IH]; intros fuel n acc Hn; destruct fuel as [|fuel]; cbn [digits_go]; try lia.
  - destruct (Z.ltb_spec n 10); [cbn [length]; lia|]. change (10 ^ Z.of_nat 1) with 10 in Hn. lia.
  - destruct (Z.ltb_spec n 10); [cbn [length]; lia|].
    eapply Nat.le_trans; [apply IH|cbn [length]; lia].
    rewrite (Nat2Z.inj_succ (S k)), Z.pow_succ_r in Hn by lia.
    split; [apply Z.div_pos; lia|apply Z.div_lt_upper_bound; lia].
Qed.

Lemma itoa_length k n : 0 <= n < 10 ^ Z.of_nat (S k) → (length (itoa n) <= S k)%nat.
Proof.
  intros Hn. unfold itoa, utoa. destruct (Z.ltb_spec n 0); [lia|].
  by apply (digits_go_length k).
Qed.

Lemma parse_uint_itoa n bits : 0 <= n < 2 ^ bits → parse_uint (itoa n) bits = Some n.
Proof.
  intros Hn. unfold itoa. destruct (Z.ltb_spec n 0); [lia|].
  destruct (utoa_spec n) as (Hne & _ & Hv); [lia|].
  unfold parse_uint. destruct (utoa n); [done|]. rewrite Hv.
  destruct (Z.ltb_spec n (2 ^ bits)); [done|lia].
Qed.

(** [strconv.Atoi] reads back what [strconv.Itoa] writes. *)
Lemma atoi_itoa n : 0 <= n < 2 ^ 63 → atoi (itoa n) = Some n.
Proof.
  intros Hn. unfold atoi, parse_int.
  pose proof (itoa_digits n ltac:(lia)) as Hd.
  pose proof (parse_uint_itoa n 64 ltac:(lia)) as Hp.
  destruct (itoa n) as [|b s] eqn:E; [discriminate|].
  inversion Hd as [|? ? Hb]; subst. unfold is_digit in Hb. bool_prop.
  destruct (Z.eqb_spec b 45); [lia|]. destruct (Z.eqb_spec b 43); [lia|].
  rewrite Hp. destruct (Z.ltb_spec n (2 ^ 63)); [done|lia].
Qed.

Example atoi_plus : atoi (lit "+80") = Some 80. Proof. vm_compute. reflexivity. Qed.
Example itoa_zero : itoa 0 = lit "0". Proof. vm_compute. reflexivity. Qed.
Example itoa_neg : itoa (-120) = lit "-120". Proof. vm_compute. reflexivity. Qed.
Example split_ex : split_byte (lit "a..b") (ch ".") = [lit "a"; []; lit "b"].
Proof. vm_compute. reflexivity. Qed.
Example fields_ex : fields_func (fun b => (b =? 59) || (b =? 44)) (lit ";a,,b") = [lit "a"; lit "b"].
Proof. vm_compute. reflexivity. Qed.
