(* ===== verification/NetIP.v ===== *)
(** NetIP: the parts of Go's [net/netip] and [net] packages that the proxy
    uses: addresses with their textual forms, and prefixes.  An IPv4 address
    holds its 4 bytes, an IPv6 address its 16 bytes and its zone. *)

From S2P Require Import Prelude GoStr.

(** * Addresses *)

Inductive addr : Type :=
| AddrZero                          (* the zero netip.Addr, "invalid IP" *)
| Addr4 (b : bytes)                 (* 4 bytes *)
| Addr6 (b : bytes) (zone : bytes). (* 16 bytes *)

#[export] Instance addr_eq_dec : EqDecision addr.
Proof. solve_decision. Defined.

Definition addr_ok (a : addr) : Prop :=
  match a with
  | AddrZero => True
  | Addr4 b => length b = 4%nat ∧ bytes_ok b
  | Addr6 b _ => length b = 16%nat ∧ bytes_ok b
  end.

Definition is_valid (a : addr) : bool := match a with AddrZero => false | _ => true end.
Definition is4 (a : addr) : bool := match a with Addr4 _ => true | _ => false end.
Definition is6 (a : addr) : bool := match a with Addr6 _ _ => true | _ => false end.
Definition zone (a : addr) : bytes := match a with Addr6 _ z => z | _ => [] end.
Definition with_zone (a : addr) (z : bytes) : addr :=
  match a with Addr6 b _ => Addr6 b z | _ => a end.

Definition v4in6_prefix : bytes := [0;0;0;0;0;0;0;0;0;0;255;255].
Definition is4in6 (a : addr) : bool :=
  match a with Addr6 b _ => bool_decide (take 12 b = v4in6_prefix) | _ => false end.

(** [Unmap] drops the IPv4-mapped prefix (and with it the zone). *)
Definition unmap (a : addr) : addr :=
  match a with
  | Addr6 b _ => if is4in6 a then Addr4 (drop 12 b) else a
  | _ => a
  end.

(** [AddrFromSlice]: the zero Addr for any other length. *)
Definition addr_from_slice (b : bytes) : option addr :=
  if (length b =? 4)%nat then Some (Addr4 b)
  else if (length b =? 16)%nat then Some (Addr6 b [])
  else None.
Definition addr_from16 (b : bytes) : addr := Addr6 b [].

Definition as16 (a : addr) : bytes :=
  match a with
  | AddrZero => replicate 16 0
  | Addr4 b => v4in6_prefix ++ b
  | Addr6 b _ => b
  end.
Definition as_slice (a : addr) : bytes :=
  match a with AddrZero => [] | Addr4 b => b | Addr6 b _ => b end.

Definition is_unspecified (a : addr) : bool :=
  match a with
  | AddrZero => false
  | Addr4 b => bool_decide (b = [0;0;0;0])
  | Addr6 b z => bool_decide (b = replicate 16 0) && bool_decide (z = [])
  end.

(** * Text: [ParseAddr] *)

(** [parseIPv4Fields]: the loop over the text, with the fields so far (newest
    first), the value and digits of the current one, and whether the previous
    byte was a dot. *)
Fixpoint parse_ipv4_go (s : bytes) (fields : bytes) (pos : nat) (val : Z) (digs : nat)
    (first : bool) : option bytes :=
  match s with
  | [] => if (pos <? 3)%nat then None else Some (reverse (val :: fields))
  | c :: s' =>
      if is_digit c then
        if (digs =? 1)%nat && (val =? 0) then None (* leading zero *)
        else let v := val * 10 + (c - 48) in
             if 255 <? v then None
             else parse_ipv4_go s' fields pos v (S digs) false
      else if c =? 46 then
        (* ".1.2.3", "1.2.3." and "1..2.3" *)
        if first || (length s' =? 0)%nat || (digs =? 0)%nat then None
        else if (pos =? 3)%nat then None
        else parse_ipv4_go s' (val :: fields) (S pos) 0 O false
      else None
  end.

Definition parse_ipv4_fields (s : bytes) : option bytes :=
  match s with [] => None | _ => parse_ipv4_go s [] 0 0 0 true end.

Definition hex_val (c : Z) : option Z :=
  if is_digit c then Some (c - 48)
  else if (97 <=? c) && (c <=? 102) then Some (c - 97 + 10)
  else if (65 <=? c) && (c <=? 70) then Some (c - 65 + 10)
  else None.

(** One group of hexadecimal digits: its value, how many digits it has and
    what follows; [None] for more than four digits. *)
Fixpoint hex_group (s : bytes) (acc : Z) (off : nat) : option (Z * nat * bytes) :=
  match s with
  | [] => Some (acc, off, [])
  | c :: s' =>
      match hex_val c with
      | None => Some (acc, off, s)
      | Some v => if (3 <? off)%nat then None else hex_group s' (Z.shiftl acc 4 + v) (S off)
      end
  end.

(** The loop of [parseIPv6]: [ip] is what is filled in so far, [ell] where
    the [::] stands. *)
Fixpoint parse_ipv6_go (fuel : nat) (s : bytes) (ip : bytes) (ell : option nat)
    : option (bytes * option nat * bytes) :=
  if (16 <=? length ip)%nat then Some (ip, ell, s) else
  match fuel with
  | O => None
  | S fuel' =>
      match hex_group s 0 O with
      | None => None
      | Some (_, O, _) => None (* each colon-separated field must have a digit *)
      | Some (acc, _, rest) =>
          match rest with
          | 46 :: _ => (* embedded IPv4 *)
              if match ell with None => negb (length ip =? 12)%nat | Some _ => false end then None
              else if (16 <? length ip + 4)%nat then None
              else match parse_ipv4_fields s with
                   | Some f => Some (ip ++ f, ell, [])
                   | None => None
                   end
          | _ =>
              let ip' := ip ++ [Z.shiftr acc 8; u8 acc] in
              match rest with
              | [] => Some (ip', ell, [])
              | 58 :: [] => None
              | 58 :: 58 :: s' =>
                  match ell with
                  | Some _ => None (* multiple :: *)
                  | None =>
                      match s' with
                      | [] => Some (ip', Some (length ip'), [])
                      | _ => parse_ipv6_go fuel' s' ip' (Some (length ip'))
                      end
                  end
              | 58 :: s' => parse_ipv6_go fuel' s' ip' ell
              | _ => None
              end
          end
      end
  end.

(** What the loop left: the ellipsis is expanded to fill 16 bytes. *)
Definition parse_ipv6_finish (z : bytes) (r : option (bytes * option nat * bytes)) : option addr :=
  match r with
  | Some (ip, ell, rest) =>
      if (length rest =? 0)%nat then
        if (length ip <? 16)%nat then
          match ell with
          | None => None (* too short *)
          | Some e => Some (Addr6 (take e ip ++ replicate (16 - length ip) 0 ++ drop e ip) z)
          end
        else match ell with
             | Some _ => None (* the :: must expand to at least one field *)
             | None => Some (Addr6 ip z)
             end
      else None
  | None => None
  end.

Definition parse_ipv6_body (s : bytes) (z : bytes) : option addr :=
  match s with
  | 58 :: 58 :: [] => Some (Addr6 (replicate 16 0) z)
  | 58 :: 58 :: s' => parse_ipv6_finish z (parse_ipv6_go 9 s' [] (Some O))
  | _ => parse_ipv6_finish z (parse_ipv6_go 9 s [] None)
  end.

Definition parse_ipv6 (s : bytes) : option addr :=
  match index_byte s 37 with
  | None => parse_ipv6_body s []
  | Some i => match drop (S i) s with
              | [] => None (* zone must be a non-empty string *)
              | z => parse_ipv6_body (take i s) z
              end
  end.

(** [ParseAddr] looks at the first '.', ':' or '%'. *)
Fixpoint addr_kind (s : bytes) : option Z :=
  match s with
  | [] => None
  | c :: s' => if (c =? 46) || (c =? 58) || (c =? 37) then Some c else addr_kind s'
  end.

Definition parse_addr (s : bytes) : option addr :=
  match addr_kind s with
  | Some 46 => Addr4 <$> parse_ipv4_fields s
  | Some 58 => parse_ipv6 s
  | _ => None
  end.

(** * Text: [String] *)

Definition hex_digit (n : Z) : Z := if n <? 10 then 48 + n else 87 + n.

(** A 16-bit field in hexadecimal, without leading zeros. *)
Definition hex_field (n : Z) : bytes :=
  (if 0xfff <? n then [hex_digit (Z.shiftr n 12)] else []) ++
  (if 0xff <? n then [hex_digit (Z.land (Z.shiftr n 8) 15)] else []) ++
  (if 0xf <? n then [hex_digit (Z.land (Z.shiftr n 4) 15)] else []) ++
  [hex_digit (Z.land n 15)].

Fixpoint fields16 (b : bytes) : list Z :=
  match b with
  | h :: l :: b' => be16 h l :: fields16 b'
  | _ => []
  end.

(** The length of the run of zero fields at the front. *)
Fixpoint zero_run (f : list Z) : nat :=
  match f with 0 :: f' => S (zero_run f') | _ => O end.

(** The first longest run of at least two zero fields: start and length. *)
Fixpoint best_run (i : nat) (f : list Z) (best : nat * nat) : nat * nat :=
  match f with
  | [] => best
  | _ :: f' =>
      let n := zero_run f in
      best_run (S i) f' (if (2 <=? n)%nat && (best.2 <? n)%nat then (i, n) else best)
  end.

Definition string4 (b : bytes) : bytes := join [46] (itoa <$> b).

Definition string6 (b : bytes) : bytes :=
  let f := fields16 b in
  let (start, n) := best_run 0 f (O, O) in
  if (n =? 0)%nat then join [58] (hex_field <$> f)
  else join [58] (hex_field <$> take start f) ++ [58; 58] ++ join [58] (hex_field <$> drop (start + n) f).

Definition addr_string (a : addr) : bytes :=
  match a with
  | AddrZero => lit "invalid IP"
  | Addr4 b => string4 b
  | Addr6 b z =>
      (if is4in6 a then lit "::ffff:" ++ string4 (drop 12 b) else string6 b) ++
      match z with [] => [] | _ => 37 :: z end
  end.

(** * Prefixes *)

Record prefix := Prefix { p_addr : addr; p_bits : Z }.
#[export] Instance prefix_eq_dec : EqDecision prefix.
Proof. solve_decision. Defined.

Definition be_value (b : bytes) : Z := fold_left (fun acc x => acc * 256 + x) b 0.
Definition bit_len (a : addr) : Z := match a with AddrZero => 0 | Addr4 _ => 32 | Addr6 _ _ => 128 end.

(** [Prefix.Contains]: same family, no zone, and the first [bits] bits agree. *)
Definition prefix_contains (p : prefix) (ip : addr) : bool :=
  let shift := bit_len (p_addr p) - p_bits p in
  bool_decide (zone ip = []) &&
  match p_addr p, ip with
  | Addr4 b, Addr4 c | Addr6 b _, Addr6 c _ =>
      Z.shiftr (be_value b) shift =? Z.shiftr (be_value c) shift
  | _, _ => false
  end.

(** [net.JoinHostPort] *)
Definition join_host_port (host port : bytes) : bytes :=
  if contains host (ch ":") then ch "[" :: host ++ lit "]:" ++ port
  else host ++ ch ":" :: port.

(** * Examples against the documentation of [net/netip] *)

Definition parse_ex (s : string) := parse_addr (lit s).
Example parse_addr_ex1 : parse_ex "192.168.140.255" = Some (Addr4 [192;168;140;255]). Proof. vm_compute. reflexivity. Qed.
Example parse_addr_ex2 : parse_ex "1.2.3.04" = None. Proof. vm_compute. reflexivity. Qed.
Example parse_addr_ex3 : parse_ex "1..2.3" = None. Proof. vm_compute. reflexivity. Qed.
Example parse_addr_ex4 : parse_ex "::ffff:192.0.2.1" = Some (Addr6 (v4in6_prefix ++ [192;0;2;1]) []). Proof. vm_compute. reflexivity. Qed.
Example parse_addr_ex5 : parse_ex "fe80::1%em0" = Some (Addr6 [254;128;0;0;0;0;0;0;0;0;0;0;0;0;0;1] (lit "em0")). Proof. vm_compute. reflexivity. Qed.
Example parse_addr_ex6 : parse_ex "1:2:3:4:5:6:7:8:9" = None. Proof. vm_compute. reflexivity. Qed.
Example parse_addr_ex7 : parse_ex "::" = Some (Addr6 (replicate 16 0) []). Proof. vm_compute. reflexivity. Qed.
Example parse_addr_ex8 : parse_ex "1::2::3" = None. Proof. vm_compute. reflexivity. Qed.
Example parse_addr_ex9 : parse_ex "1:2:3:4:5:6:7::" = Some (Addr6 [0;1;0;2;0;3;0;4;0;5;0;6;0;7;0;0] []). Proof. vm_compute. reflexivity. Qed.
Example parse_addr_ex10 : parse_ex "1:2:3:4:5:6:7:8::" = None. Proof. vm_compute. reflexivity. Qed.
Definition string_ex (s : string) := addr_string <$> parse_ex s.
Example addr_string_ex1 : string_ex "2001:db8:0:0:1:0:0:1" = Some (lit "2001:db8::1:0:0:1"). Proof. vm_compute. reflexivity. Qed.
Example addr_string_ex2 : string_ex "0:0:1::" = Some (lit "0:0:1::"). Proof. vm_compute. reflexivity. Qed.
Example addr_string_ex3 : string_ex "::ffff:10.0.0.1" = Some (lit "::ffff:10.0.0.1"). Proof. vm_compute. reflexivity. Qed.
Example addr_string_ex4 : string_ex "fe80::ABCD%en0" = Some (lit "fe80::abcd%en0"). Proof. vm_compute. reflexivity. Qed.
