(* ===== verification/NetIPText.v ===== *)
(** NetIPText: what [netip.Addr.String] writes, [netip.ParseAddr] reads back;
    and what [ParseAddr] takes. *)

From S2P Require Import Prelude GoStr NetIP.

(** * [ParseAddr] reads back what [String] writes *)

(** The bytes [String] writes, zones apart. *)
Definition hex_char (c : Z) : bool := is_digit c || ((97 <=? c) && (c <=? 102)).
Definition addr_char (c : Z) : bool := hex_char c || (c =? 46) || (c =? 58).

Lemma forall_256 (P : Z → Prop) : Forall P (seqZ 0 256) → ∀ n, byte_ok n → P n.
Proof. intros H n Hn. eapply (proj1 (Forall_forall _ _)) in H; [done|]. apply elem_of_seqZ. unfold byte_ok in Hn. lia. Qed.

Ltac bytes_cases :=
  match goal with |- ∀ n, byte_ok n → @?P n => apply (forall_256 P) end;
  cbv [seqZ seq fmap list_fmap Z.to_nat Pos.to_nat Pos.iter_op Nat.add];
  repeat (constructor; [intros; reflexivity|]); constructor.

Lemma parse_ipv4_itoa : ∀ n, byte_ok n → ∀ k fields pos first,
  parse_ipv4_go (itoa n ++ k) fields pos 0 0 first = parse_ipv4_go k fields pos n (length (itoa n)) false.
Proof. bytes_cases. Qed.

Lemma forallb_256 (f : Z → bool) : forallb f (seqZ 0 256) = true → ∀ n, byte_ok n → f n = true.
Proof. intros H. apply forall_256. apply Forall_forall. intros n Hn. rewrite forallb_forall in H. apply H. by apply list_elem_of_In. Qed.

Lemma itoa_length_byte n : byte_ok n → (length (itoa n) =? 0)%nat = false.
Proof.
  intros Hn. apply negb_true_iff.
  apply (forallb_256 (fun n => negb (length (itoa n) =? 0)%nat)); [vm_compute; reflexivity|done].
Qed.

Definition not_hex_head (k : bytes) : bool :=
  match k with c :: _ => match hex_val c with None => true | Some _ => false end | [] => true end.

Lemma hex_group_stop k acc off : not_hex_head k = true → hex_group k acc off = Some (acc, off, k).
Proof. destruct k as [|c k]; cbn; [done|]. by destruct (hex_val c). Qed.


Lemma hex_group_itoa : ∀ n, byte_ok n → ∀ k, ∃ acc off,
  hex_group (itoa n ++ 46 :: k) 0 0 = Some (acc, S off, 46 :: k).
Proof.
  match goal with |- ∀ n, byte_ok n → @?P n => apply (forall_256 P) end.
  cbn -[itoa hex_group]. repeat (constructor; [intros k; do 2 eexists; reflexivity|]). constructor.
Qed.

Lemma itoa_addr_char : ∀ n, byte_ok n → forallb addr_char (itoa n) = true.
Proof. apply (forallb_256 (fun n => forallb addr_char (itoa n))). vm_compute. reflexivity. Qed.

Lemma hex_digit_val : ∀ n, 0 <= n < 16 → hex_val (hex_digit n) = Some n ∧ hex_char (hex_digit n) = true.
Proof.
  intros n Hn. assert (Forall (fun n => hex_val (hex_digit n) = Some n ∧ hex_char (hex_digit n) = true) (seqZ 0 16)) as H.
  { repeat (constructor; [done|]). constructor. }
  eapply (proj1 (Forall_forall _ _)) in H; [done|]. apply elem_of_seqZ. lia.
Qed.

(** ** IPv4 *)

Lemma string4_eq a b c d :
  string4 [a; b; c; d] = itoa a ++ 46 :: itoa b ++ 46 :: itoa c ++ 46 :: itoa d.
Proof. done. Qed.

Lemma parse_ipv4_dot k fields pos val digs : (length k =? 0)%nat = false → (digs =? 0)%nat = false → (pos =? 3)%nat = false →
  parse_ipv4_go (46 :: k) fields pos val digs false = parse_ipv4_go k (val :: fields) (S pos) 0 0 false.
Proof. intros Hk Hd Hp. cbn -[length]. by rewrite Hk, Hd, Hp. Qed.

Lemma length_app_0 (l k : bytes) : (length l =? 0)%nat = false → (length (l ++ k) =? 0)%nat = false.
Proof. by destruct l. Qed.

Lemma parse_ipv4_string b : length b = 4%nat → bytes_ok b → parse_ipv4_fields (string4 b) = Some b.
Proof.
  intros Hl Hb. destruct b as [|a [|b [|c [|d [|]]]]]; try done.
  rewrite !Forall_cons in Hb. destruct Hb as (Ha&Hb&Hc&Hd&_).
  pose proof (itoa_length_byte a Ha). pose proof (itoa_length_byte b Hb).
  pose proof (itoa_length_byte c Hc). pose proof (itoa_length_byte d Hd).
  rewrite string4_eq. transitivity (parse_ipv4_go (itoa a ++ 46 :: itoa b ++ 46 :: itoa c ++ 46 :: itoa d) [] 0 0 0 true).
  { by destruct (itoa a). }
  rewrite parse_ipv4_itoa by done. rewrite parse_ipv4_dot by auto using length_app_0.
  rewrite parse_ipv4_itoa by done. rewrite parse_ipv4_dot by auto using length_app_0.
  rewrite parse_ipv4_itoa by done. rewrite parse_ipv4_dot by auto using length_app_0.
  rewrite <- (app_nil_r (itoa d)), parse_ipv4_itoa by done. done.
Qed.

Lemma string4_chars b : length b = 4%nat → bytes_ok b → forallb addr_char (string4 b) = true.
Proof.
  intros Hl Hb. destruct b as [|a [|b [|c [|d [|]]]]]; try done.
  rewrite !Forall_cons in Hb. destruct Hb as (Ha&Hb&Hc&Hd&_).
  rewrite string4_eq. repeat (rewrite forallb_app || cbn [forallb]).
  by rewrite !itoa_addr_char by done.
Qed.

(** ** IPv6 *)

Lemma hex_group_digit d s acc off : 0 <= d < 16 → (off <= 3)%nat →
  hex_group (hex_digit d :: s) acc off = hex_group s (acc * 16 + d) (S off).
Proof.
  intros Hd Ho. cbn [hex_group]. destruct (hex_digit_val d Hd) as [-> _].
  destruct (Nat.ltb_spec 3 off); [lia|]. by rewrite Z.shiftl_mul_pow2 by lia.
Qed.

Definition u16_ok (n : Z) : Prop := 0 <= n < 65536.

(** The four hexadecimal digits of a field. *)
Lemma field_digits n : u16_ok n → ∃ a b c d, n = ((a * 16 + b) * 16 + c) * 16 + d ∧
  0 <= a < 16 ∧ 0 <= b < 16 ∧ 0 <= c < 16 ∧ 0 <= d < 16 ∧
  Z.shiftr n 12 = a ∧ Z.land (Z.shiftr n 8) 15 = b ∧ Z.land (Z.shiftr n 4) 15 = c ∧ Z.land n 15 = d.
Proof.
  unfold u16_ok. intros Hn.
  exists (n / 4096), (n / 256 mod 16), (n / 16 mod 16), (n mod 16).
  rewrite !Z.shiftr_div_pow2 by lia.
  change 15 with (Z.ones 4). rewrite !Z.land_ones by lia.
  change (2 ^ 12) with 4096. change (2 ^ 8) with 256. change (2 ^ 4) with 16.
  split; [|repeat split; (done || lia || (apply Z.mod_pos_bound; lia) || (Z.to_euclidean_division_equations; lia))].
  Z.to_euclidean_division_equations; lia.
Qed.

Lemma hex_field_spec n k : u16_ok n → not_hex_head k = true →
  ∃ off, hex_group (hex_field n ++ k) 0 0 = Some (n, S off, k) ∧ forallb hex_char (hex_field n) = true
         ∧ (length (hex_field n) <= 4)%nat.
Proof.
  intros Hn Hk. destruct (field_digits n Hn) as (a&b&c&d&E&Ha&Hb&Hc&Hd&Ea&Eb&Ec&Ed).
  unfold hex_field. rewrite Ea, Eb, Ec, Ed.
  pose proof (proj2 (hex_digit_val a Ha)) as Ca. pose proof (proj2 (hex_digit_val b Hb)) as Cb.
  pose proof (proj2 (hex_digit_val c Hc)) as Cc. pose proof (proj2 (hex_digit_val d Hd)) as Cd.
  destruct (Z.ltb_spec 0xfff n), (Z.ltb_spec 0xff n), (Z.ltb_spec 0xf n); try lia; cbn [app].
  all: eexists; split; [|cbn [forallb length]; rewrite ?Ca, ?Cb, ?Cc, ?Cd; split; [done|lia]].
  all: rewrite !hex_group_digit by lia; rewrite hex_group_stop by done; do 3 f_equal; lia.
Qed.

Definition field_bytes (n : Z) : bytes := [Z.shiftr n 8; u8 n].
Definition bytes16 (fs : list Z) : bytes := concat (field_bytes <$> fs).
Definition colons (fs : list Z) : bytes := join [58] (hex_field <$> fs).

Lemma length_bytes16 fs : length (bytes16 fs) = (2 * length fs)%nat.
Proof. unfold bytes16. induction fs; cbn in *; lia. Qed.

Lemma bytes16_app f g : bytes16 (f ++ g) = bytes16 f ++ bytes16 g.
Proof. unfold bytes16. by rewrite fmap_app, concat_app. Qed.

Lemma parse_ipv6_last fuel n ip ell : u16_ok n → (length ip < 16)%nat →
  parse_ipv6_go (S fuel) (hex_field n) ip ell = Some (ip ++ field_bytes n, ell, []).
Proof.
  intros Hn Hip. destruct (hex_field_spec n [] Hn eq_refl) as (off & H & _). rewrite app_nil_r in H.
  cbn [parse_ipv6_go]. destruct (Nat.leb_spec 16 (length ip)); [lia|]. by rewrite H.
Qed.

Lemma parse_ipv6_next fuel n ip ell c s : u16_ok n → (length ip < 16)%nat → c ≠ 58 →
  parse_ipv6_go (S fuel) (hex_field n ++ 58 :: c :: s) ip ell =
  parse_ipv6_go fuel (c :: s) (ip ++ field_bytes n) ell.
Proof.
  intros Hn Hip Hc. destruct (hex_field_spec n (58 :: c :: s) Hn eq_refl) as (off & H & _).
  cbn [parse_ipv6_go]. destruct (Nat.leb_spec 16 (length ip)); [lia|]. rewrite H.
  destruct (decide (c = 58)); [done|]. by repeat (case_match; try done).
Qed.

Lemma parse_ipv6_ellipsis fuel n ip s : u16_ok n → (length ip < 16)%nat →
  parse_ipv6_go (S fuel) (hex_field n ++ 58 :: 58 :: s) ip None =
  match s with
  | [] => Some (ip ++ field_bytes n, Some (length (ip ++ field_bytes n)), [])
  | _ => parse_ipv6_go fuel s (ip ++ field_bytes n) (Some (length (ip ++ field_bytes n)))
  end.
Proof.
  intros Hn Hip. destruct (hex_field_spec n (58 :: 58 :: s) Hn eq_refl) as (off & H & _).
  cbn [parse_ipv6_go]. destruct (Nat.leb_spec 16 (length ip)); [lia|]. by rewrite H.
Qed.

Lemma hex_field_head n : u16_ok n → ∃ c s, hex_field n = c :: s ∧ c ≠ 58.
Proof.
  intros Hn. destruct (hex_field_spec n [] Hn eq_refl) as (off & H & _ & _). rewrite app_nil_r in H.
  destruct (hex_field n) as [|c s]; [done|]. exists c, s. split; [done|]. intros ->. done.
Qed.

Lemma colons_cons n fs : fs ≠ [] → colons (n :: fs) = hex_field n ++ 58 :: colons fs.
Proof. by destruct fs. Qed.

Lemma colons_head n fs : u16_ok n → ∃ c s, colons (n :: fs) = c :: s ∧ c ≠ 58.
Proof.
  intros Hn. destruct (hex_field_head n Hn) as (c & s & E & Hc).
  destruct fs; unfold colons; cbn; rewrite E; cbn; eauto.
Qed.

(** The fields up to the end of the text. *)
Lemma parse_ipv6_tail fs fuel ip ell : fs ≠ [] → Forall u16_ok fs →
  (length ip + 2 * length fs <= 16)%nat → (length fs <= fuel)%nat →
  parse_ipv6_go fuel (colons fs) ip ell = Some (ip ++ bytes16 fs, ell, []).
Proof.
  revert fuel ip. induction fs as [|n fs IH]; [done|]. intros fuel ip _ Hf Hl Hfuel.
  apply Forall_cons in Hf as [Hn Hf]. cbn [length] in *. destruct fuel as [|fuel]; [lia|].
  destruct fs as [|m fs].
  - unfold colons, bytes16. cbn [fmap list_fmap join concat]. rewrite app_nil_r. apply parse_ipv6_last; [done|lia].
  - rewrite colons_cons by done.
    destruct (colons_head m fs) as (c & s & E & Hc); [by inversion Hf|].
    rewrite E, parse_ipv6_next by (done || lia). rewrite <- E.
    rewrite IH; [|done|done|rewrite length_app; cbn [length field_bytes] in *; lia|cbn [length] in *; lia].
    rewrite <- app_assoc. done.
Qed.

(** The fields in front of the [::]. *)
Lemma parse_ipv6_front fs fuel ip s : fs ≠ [] → Forall u16_ok fs →
  (length ip + 2 * length fs <= 16)%nat → (length fs <= fuel)%nat →
  parse_ipv6_go fuel (colons fs ++ 58 :: 58 :: s) ip None =
  match s with
  | [] => Some (ip ++ bytes16 fs, Some (length (ip ++ bytes16 fs)), [])
  | _ => parse_ipv6_go (fuel - length fs) s (ip ++ bytes16 fs) (Some (length (ip ++ bytes16 fs)))
  end.
Proof.
  revert fuel ip. induction fs as [|n fs IH]; [done|]. intros fuel ip _ Hf Hl Hfuel.
  apply Forall_cons in Hf as [Hn Hf]. cbn [length] in *. destruct fuel as [|fuel]; [lia|].
  destruct fs as [|m fs].
  - unfold colons, bytes16. cbn [fmap list_fmap join concat length]. rewrite app_nil_r.
    rewrite parse_ipv6_ellipsis by (done || lia). by replace (S fuel - 1)%nat with fuel by lia.
  - rewrite colons_cons, <- app_assoc by done.
    destruct (colons_head m fs) as (c & t & E & Hc); [by inversion Hf|].
    cbn [app]. rewrite E. cbn [app]. rewrite parse_ipv6_next by (done || lia).
    change (c :: t ++ 58 :: 58 :: s) with ((c :: t) ++ 58 :: 58 :: s). rewrite <- E.
    rewrite IH; [|done|done|rewrite length_app; cbn [length field_bytes] in *; lia|cbn [length] in *; lia].
    rewrite <- !app_assoc. done.
Qed.

Lemma bytes16_fields b : bytes_ok b → Nat.Even (length b) → bytes16 (fields16 b) = b.
Proof.
  intros Hb [n Hn]. revert b Hb Hn. induction n as [|n IH]; intros b Hb Hn.
  - by destruct b.
  - destruct b as [|h [|l b]]; [cbn in Hn; lia..|]. rewrite !Forall_cons in Hb. destruct Hb as (Hh & Hl & Hb).
    cbn in Hn. unfold bytes16 in *. cbn [fields16 fmap list_fmap concat app field_bytes].
    rewrite IH by (done || lia). rewrite be16_arith by done. unfold u8, byte_ok in *.
    rewrite Z.shiftr_div_pow2 by lia. change (2 ^ 8) with 256.
    f_equal; [|f_equal]; Z.to_euclidean_division_equations; lia.
Qed.

Lemma fields16_ok b : bytes_ok b → Forall u16_ok (fields16 b).
Proof.
  revert b. fix IH 1. intros b Hb. destruct b as [|h [|l b]]; [constructor..|].
  cbn. rewrite !Forall_cons in Hb. destruct Hb as (Hh & Hl & Hb). constructor; [by apply be16_range|by apply IH].
Qed.

Lemma zero_run_spec f : take (zero_run f) f = replicate (zero_run f) 0 ∧ (zero_run f <= length f)%nat.
Proof.
  induction f as [|n f [IH1 IH2]]; [done|]. cbn. destruct n; cbn; [|split; [done|lia]..].
  rewrite IH1. split; [done|lia].
Qed.

(** The run of zero fields that [::] replaces. *)
Definition run_ok (f : list Z) (r : nat * nat) : Prop :=
  r.2 = O ∨ (2 <= r.2 ∧ r.1 + r.2 <= length f)%nat ∧ take r.2 (drop r.1 f) = replicate r.2 0.

Lemma best_run_spec f g best : run_ok (f ++ g) best → run_ok (f ++ g) (best_run (length f) g best).
Proof.
  revert f best. induction g as [|n g IH]; intros f best Hb; [done|].
  cbn [best_run]. specialize (IH (f ++ [n])). rewrite <- app_assoc, length_app, Nat.add_comm in IH. apply IH.
  destruct (_ && _) eqn:E; [|done]. apply andb_true_iff in E as [E _]. apply Nat.leb_le in E.
  right. cbn [fst snd]. destruct (zero_run_spec (n :: g)) as [H1 H2].
  rewrite length_app, drop_app_length. split; [cbn [app]; lia|done].
Qed.

Lemma best_run_ok f : run_ok f (best_run 0 f (O, O)).
Proof. apply (best_run_spec [] f). by left. Qed.

Lemma parse_ipv6_body_other c s z : c ≠ 58 →
  parse_ipv6_body (c :: s) z = parse_ipv6_finish z (parse_ipv6_go 9 (c :: s) [] None).
Proof. intros Hc. unfold parse_ipv6_body. by repeat (case_match; try done). Qed.

Lemma parse_ipv6_body_ellipsis c s z :
  parse_ipv6_body (58 :: 58 :: c :: s) z = parse_ipv6_finish z (parse_ipv6_go 9 (c :: s) [] (Some O)).
Proof. done. Qed.

Lemma bytes16_zeros n : bytes16 (replicate n 0) = replicate (2 * n) 0.
Proof.
  induction n as [|n IH]; [done|]. replace (2 * S n)%nat with (S (S (2 * n))) by lia.
  cbn [replicate]. rewrite <- IH. done.
Qed.

Lemma length_fields16 b : length b = 16%nat → length (fields16 b) = 8%nat.
Proof. intros H. do 16 (destruct b as [|? b]; [done|]). by destruct b. Qed.

Lemma finish_ellipsis front n tail z : (length front + n + length tail = 8)%nat → (2 <= n)%nat →
  parse_ipv6_finish z (Some (bytes16 front ++ bytes16 tail, Some (length (bytes16 front)), [])) =
  Some (Addr6 (bytes16 (front ++ replicate n 0 ++ tail)) z).
Proof.
  intros Hl Hn. unfold parse_ipv6_finish. cbn [length Nat.eqb].
  rewrite length_app, !length_bytes16. destruct (Nat.ltb_spec (2 * length front + 2 * length tail) 16); [|lia].
  rewrite <- (length_bytes16 front) at 1 3. rewrite take_app_length, drop_app_length.
  rewrite !bytes16_app, bytes16_zeros. do 5 f_equal. lia.
Qed.

Lemma parse_ipv6_string b : length b = 16%nat → bytes_ok b →
  parse_ipv6_body (string6 b) [] = Some (Addr6 b []).
Proof.
  intros Hl Hb. pose proof (fields16_ok b Hb) as Hf. pose proof (length_fields16 b Hl) as Hlf.
  rewrite <- (bytes16_fields b Hb) at 2 by (exists 8%nat; lia).
  unfold string6. set (f := fields16 b) in *. pose proof (best_run_ok f) as Hr.
  destruct (best_run 0 f (O, O)) as [start n]. unfold run_ok in Hr. cbn [fst snd] in Hr.
  destruct (Nat.eqb_spec n 0) as [->|Hn].
  { change (join [58] (hex_field <$> f)) with (colons f).
    destruct f as [|m f]; [done|]. destruct (colons_head m f) as (c & s & E & Hc); [by inversion Hf|].
    rewrite E, parse_ipv6_body_other, <- E by done.
    rewrite parse_ipv6_tail by (done || cbn [length] in *; lia).
    unfold parse_ipv6_finish. cbn [length Nat.eqb app]. rewrite length_bytes16, Hlf. done. }
  destruct Hr as [|[[H2 Hlen] Hz]]; [done|].
  change (join [58] (hex_field <$> ?g)) with (colons g).
  assert (f = take start f ++ replicate n 0 ++ drop (start + n) f) as Ef.
  { rewrite <- Hz, <- drop_drop. by rewrite !take_drop. }
  assert (length (take start f) + n + length (drop (start + n) f) = 8)%nat as Hsum.
  { rewrite length_take, length_drop. lia. }
  pose proof (Forall_take u16_ok start f Hf) as Hft. pose proof (Forall_drop u16_ok (start + n) f Hf) as Hfd.
  set (front := take start f) in *. set (tail := drop (start + n) f) in *. rewrite Ef. clearbody front tail.
  rewrite <- finish_ellipsis by done. clear Ef Hz Hlf.
  destruct front as [|m front].
  - cbn [colons fmap list_fmap join app]. destruct tail as [|t tail].
    + assert (n = 8%nat) as -> by (cbn in Hsum; lia). done.
    + destruct (colons_head t tail) as (c & s & E & Hc); [by inversion Hfd|].
      change (colons [] ++ [58; 58] ++ colons (t :: tail)) with (58 :: 58 :: colons (t :: tail)).
      rewrite E, parse_ipv6_body_ellipsis, <- E, parse_ipv6_tail by (done || cbn [length] in *; lia). done.
  - destruct (colons_head m front) as (c & s & E & Hc); [by inversion Hft|].
    rewrite E. cbn [app]. rewrite parse_ipv6_body_other by done.
    change (c :: s ++ 58 :: 58 :: colons tail) with ((c :: s) ++ 58 :: 58 :: colons tail). rewrite <- E.
    rewrite parse_ipv6_front by (done || cbn [length] in *; lia). cbn [app].
    destruct tail as [|t tail].
    + cbn [colons fmap list_fmap join]. unfold bytes16 at 3. cbn. by rewrite app_nil_r.
    + destruct (colons_head t tail) as (c' & s' & E' & Hc'); [by inversion Hfd|].
      rewrite E', <- E', parse_ipv6_tail; [done|done|done|rewrite length_bytes16; cbn [length] in *; lia|cbn [length] in *; lia].
Qed.

Lemma parse_ipv6_embedded fuel s ip e acc off k f : hex_group s 0 0 = Some (acc, S off, 46 :: k) →
  parse_ipv4_fields s = Some f → (length ip + 4 <= 16)%nat →
  parse_ipv6_go (S fuel) s ip (Some e) = Some (ip ++ f, Some e, []).
Proof.
  intros Hg Hp Hl. cbn [parse_ipv6_go]. destruct (Nat.leb_spec 16 (length ip)); [lia|].
  rewrite Hg, Hp. by destruct (Nat.ltb_spec 16 (length ip + 4)); [lia|].
Qed.

Lemma parse_ipv6_mapped b : length b = 4%nat → bytes_ok b →
  parse_ipv6_body (lit "::ffff:" ++ string4 b) [] = Some (Addr6 (v4in6_prefix ++ b) []).
Proof.
  intros Hl Hb. pose proof (parse_ipv4_string b Hl Hb) as Hp.
  assert (∃ c s, string4 b = c :: s ∧ c ≠ 58 ∧ ∃ acc off k, hex_group (c :: s) 0 0 = Some (acc, S off, 46 :: k))
    as (c & s & E & Hc & acc & off & k & Hg).
  { destruct b as [|x [|y [|z [|w [|]]]]]; try done. rewrite string4_eq.
    apply Forall_cons in Hb as [Hx _]. pose proof (itoa_digits x) as Hd.
    destruct (hex_group_itoa x Hx (itoa y ++ 46 :: itoa z ++ 46 :: itoa w)) as (acc & off & Hg).
    pose proof (itoa_length_byte x Hx). destruct (itoa x) as [|c s]; [done|]. cbn [app] in *.
    do 2 eexists. split; [done|]. split; [|eauto].
    unfold byte_ok in Hx. intros ->. specialize (Hd ltac:(lia)). by inversion Hd. }
  rewrite E in *. change (lit "::ffff:" ++ c :: s) with (58 :: 58 :: 102 :: 102 :: 102 :: 102 :: 58 :: c :: s).
  rewrite parse_ipv6_body_ellipsis.
  change (102 :: 102 :: 102 :: 102 :: 58 :: c :: s) with (hex_field 65535 ++ 58 :: c :: s).
  rewrite parse_ipv6_next by (done || (unfold u16_ok; lia) || (cbn; lia)).
  rewrite (parse_ipv6_embedded _ _ _ _ acc off k b) by (done || (cbn; lia)).
  cbn. rewrite Hl. done.
Qed.

(** ** Every address *)

Lemma addr_kind_skip s k : forallb hex_char s = true → addr_kind (s ++ k) = addr_kind k.
Proof.
  induction s as [|c s IH]; [done|]. cbn [forallb app addr_kind]. intros [Hc Hs]%andb_true_iff.
  unfold hex_char, is_digit in Hc. rewrite orb_true_iff, !andb_true_iff, !Z.leb_le in Hc.
  destruct (Z.eqb_spec c 46), (Z.eqb_spec c 58), (Z.eqb_spec c 37); try lia. by apply IH.
Qed.

Lemma hex_field_chars n : u16_ok n → forallb hex_char (hex_field n) = true.
Proof. intros Hn. by destruct (hex_field_spec n [] Hn eq_refl) as (off & _ & H & _). Qed.

Lemma hex_addr_char s : forallb hex_char s = true → forallb addr_char s = true.
Proof.
  rewrite !forallb_forall. intros H c Hc. unfold addr_char. by rewrite (H c Hc).
Qed.

Lemma addr_char_spec c : addr_char c = true → 46 <= c <= 102 ∧ c ≠ 47.
Proof.
  unfold addr_char, hex_char, is_digit. rewrite !orb_true_iff, !andb_true_iff, !Z.leb_le, !Z.eqb_eq. lia.
Qed.

Lemma colons_chars f : Forall u16_ok f → forallb addr_char (colons f) = true ∧
  (length (colons f) + 1 <= 5 * length f + (match f with [] => 1 | _ => 0 end))%nat.
Proof.
  induction 1 as [|n f Hn Hf [IH1 IH2]]; [split; [done|cbn; lia]|].
  pose proof (hex_addr_char _ (hex_field_chars n Hn)) as Hc.
  destruct (hex_field_spec n [] Hn eq_refl) as (off & _ & _ & Hl4).
  destruct f as [|m f].
  - unfold colons. cbn [fmap list_fmap join length]. split; [done|lia].
  - rewrite colons_cons, forallb_app, length_app by done. cbn [forallb length] in *. rewrite Hc, IH1. split; [done|lia].
Qed.

Lemma string6_text b : length b = 16%nat → bytes_ok b →
  addr_kind (string6 b) = Some 58 ∧ forallb addr_char (string6 b) = true ∧ (length (string6 b) <= 39)%nat.
Proof.
  intros Hl Hb. pose proof (fields16_ok b Hb) as Hf. pose proof (length_fields16 b Hl) as Hlf.
  unfold string6. set (f := fields16 b) in *. pose proof (best_run_ok f) as Hr.
  destruct (best_run 0 f (O, O)) as [start n]. unfold run_ok in Hr. cbn [fst snd] in Hr.
  change (join [58] (hex_field <$> ?g)) with (colons g).
  destruct (Nat.eqb_spec n 0) as [->|Hn].
  - destruct (colons_chars f Hf) as [H1 H2]. rewrite Hlf in H2.
    destruct f as [|n [|m f]]; try done. split; [|split; [done|lia]].
    rewrite colons_cons, addr_kind_skip by (done || apply hex_field_chars; by inversion Hf). done.
  - destruct Hr as [|[[H2 Hlen] _]]; [done|].
    destruct (colons_chars (take start f)) as [A1 A2]; [by apply Forall_take|].
    destruct (colons_chars (drop (start + n) f)) as [B1 B2]; [by apply Forall_drop|].
    rewrite !forallb_app, A1, B1, !length_app. rewrite length_take in A2. rewrite length_drop in B2. split; [|split; [done|]].
    + pose proof (Forall_take u16_ok start f Hf) as Hft. destruct (take start f) as [|m [|m' g]]; [done| |].
      * unfold colons. cbn [fmap list_fmap join]. rewrite addr_kind_skip by (apply hex_field_chars; by inversion Hft). done.
      * rewrite colons_cons, <- app_assoc, addr_kind_skip by (done || apply hex_field_chars; by inversion Hft). done.
    + cbn [length] in *. destruct (take start f), (drop (start + n) f); lia.
Qed.

Lemma index_byte_addr s c : forallb addr_char s = true → c < 46 → index_byte s c = None.
Proof.
  intros Hs Hc. apply index_by_None, Forall_forall. intros d Hd. apply Z.eqb_neq.
  rewrite forallb_forall in Hs. apply list_elem_of_In, Hs, addr_char_spec in Hd. lia.
Qed.

Lemma itoa_byte n : byte_ok n → forallb hex_char (itoa n) = true ∧ (length (itoa n) <= 3)%nat.
Proof.
  intros Hn. rewrite <- Nat.leb_le, <- andb_true_iff.
  apply (forallb_256 (fun n => forallb hex_char (itoa n) && (length (itoa n) <=? 3)%nat)); [vm_compute; reflexivity|done].
Qed.

Lemma string4_text b : length b = 4%nat → bytes_ok b →
  addr_kind (string4 b) = Some 46 ∧ forallb addr_char (string4 b) = true ∧ (length (string4 b) <= 15)%nat.
Proof.
  intros Hl Hb. split; [|split; [by apply string4_chars|]];
    (destruct b as [|x [|y [|z [|w [|]]]]]; try done); rewrite string4_eq;
    rewrite !Forall_cons in Hb; destruct Hb as (Hx&Hy&Hz&Hw&_).
  - rewrite addr_kind_skip by (by apply itoa_byte). done.
  - pose proof (itoa_byte x Hx). pose proof (itoa_byte y Hy). pose proof (itoa_byte z Hz). pose proof (itoa_byte w Hw).
    repeat (rewrite length_app || cbn [length]). lia.
Qed.

(** [ParseAddr] inverts [String] on every address without a zone, and the
    text is one word of at most 39 bytes. *)
Lemma addr_text a : addr_ok a → is_valid a = true → zone a = [] →
  parse_addr (addr_string a) = Some a ∧ forallb addr_char (addr_string a) = true
  ∧ (length (addr_string a) <= 39)%nat.
Proof.
  intros Hok Hv Hz. destruct a as [|b|b z]; [done| |]; destruct Hok as [Hl Hb].
  - cbn [addr_string]. destruct (string4_text b Hl Hb) as (H1 & H2 & H3). split; [|split; [done|lia]].
    unfold parse_addr. rewrite H1, parse_ipv4_string by done. done.
  - cbn in Hz. subst z. cbn [addr_string]. rewrite app_nil_r. destruct (is4in6 _) eqn:E.
    + apply bool_decide_eq_true in E.
      destruct (string4_text (drop 12 b)) as (H1 & H2 & H3); [rewrite length_drop; lia|by apply Forall_drop|].
      assert (forallb addr_char (lit "::ffff:" ++ string4 (drop 12 b)) = true) as Hc by (by rewrite forallb_app, H2).
      split; [|split; [done|rewrite length_app; cbn [length lit]; lia]].
      unfold parse_addr, parse_ipv6. rewrite index_byte_addr by (done || lia).
      change (addr_kind (lit "::ffff:" ++ string4 (drop 12 b))) with (Some 58). cbn iota.
      rewrite parse_ipv6_mapped by (first [by rewrite length_drop, Hl | by apply Forall_drop]).
      rewrite <- E, take_drop. done.
    + destruct (string6_text b Hl Hb) as (H1 & H2 & H3). split; [|done].
      unfold parse_addr, parse_ipv6. rewrite H1, index_byte_addr by (done || lia). by apply parse_ipv6_string.
Qed.

(** * What [ParseAddr] reads *)

(** The bytes of an address without a zone. *)

Definition read_char (b : Z) : bool := bool_decide (is_Some (hex_val b)) || (b =? 58) || (b =? 46).
Abbreviation read_chars := (forallb read_char).

Lemma hex_val_read c v : hex_val c = Some v → read_char c = true.
Proof. intros H. unfold read_char. by rewrite H. Qed.

Lemma read_char_range b : read_char b = ((48 <=? b) && (b <=? 57)) || ((97 <=? b) && (b <=? 102)) || ((65 <=? b) && (b <=? 70)) || (b =? 58) || (b =? 46).
Proof.
  unfold read_char, hex_val, is_digit. destruct (_ && _); [done|]. do 2 (destruct (_ && _); [done|]). done.
Qed.

Lemma ipv4_chars s fields pos val digs first r : parse_ipv4_go s fields pos val digs first = Some r → read_chars s = true.
Proof.
  revert fields pos val digs first. induction s as [|c s IH]; intros fields pos val digs first; [done|]. cbn [parse_ipv4_go forallb].
  destruct (is_digit c) eqn:Ed.
  - destruct (_ && _); [done|]. destruct (255 <? _); [done|]. intros ->%IH. unfold read_char, hex_val. by rewrite Ed.
  - destruct (Z.eqb_spec c 46) as [->|]; [|done]. do 2 (case_match; [done|]). by intros ->%IH.
Qed.

Lemma hex_group_chars s acc off acc' off' k : hex_group s acc off = Some (acc', off', k) → ∃ h, s = h ++ k ∧ read_chars h = true.
Proof.
  revert acc off. induction s as [|c s IH]; intros acc off; cbn [hex_group]; [intros [= _ _ <-]; by exists []|].
  destruct (hex_val c) as [v|] eqn:Ev; [|intros [= _ _ <-]; by exists []].
  case_match; [done|]. intros (h & -> & Hh)%IH. exists (c :: h). cbn. by rewrite (hex_val_read _ _ Ev).
Qed.

Lemma ipv6_go_chars fuel s ip ell ip' ell' : parse_ipv6_go fuel s ip ell = Some (ip', ell', []) → read_chars s = true.
Proof.
  revert s ip ell. induction fuel as [|fuel IH]; intros s ip ell; cbn [parse_ipv6_go]; (case_match; [by intros [= _ _ ->]|]); [done|]. rename H into Hlen.
  destruct (hex_group s 0 0) as [[[acc [|off]] k]|] eqn:Eg; [done| |done]. apply hex_group_chars in Eg as (h & -> & Hh).
  intros H. rewrite forallb_app, Hh. cbn [andb]. clear Hh.
  destruct k as [|c k]; [done|]. destruct (Z.eqb_spec c 46) as [->|H46].
  { do 2 (case_match; [done|]). destruct (parse_ipv4_fields _) as [f|] eqn:Ef; [|done]. unfold parse_ipv4_fields in Ef.
    destruct (h ++ 46 :: k) eqn:Eh; [done|]. rewrite <- Eh in Ef. apply ipv4_chars in Ef. rewrite forallb_app in Ef. by apply andb_true_iff in Ef as []. }
  destruct (Z.eqb_spec c 58) as [->|H58]; [|exfalso; destruct c as [|c|c]; [discriminate H| |discriminate H]; do 6 (destruct c as [c|c|]; try discriminate H); done].
  cbn [forallb]. change (read_char 58) with true. cbn [andb].
  destruct k as [|c k]; [done|]. destruct (Z.eqb_spec c 58) as [->|Hc].
  - destruct ell; [done|]. cbn [forallb]. change (read_char 58) with true. cbn [andb]. destruct k; [done|]. by apply IH in H.
  - apply (IH _ (ip ++ [Z.shiftr acc 8; u8 acc]) ell). rewrite <- H. destruct c as [|c|c]; [done| |done]. repeat (destruct c as [c|c|]; try done).
Qed.

Lemma parse_addr_chars s a : parse_addr s = Some a → is6 a = true → zone a = [] → read_chars s = true.
Proof.
  unfold parse_addr. intros H H6 Hz.
  assert (parse_ipv6 s = Some a) as Hp.
  { destruct (addr_kind s) as [c|]; [|done]. destruct c as [|c|c]; [done| |done]. do 6 (destruct c as [c|c|]; try done). destruct (parse_ipv4_fields s); [injection H as <-|]; done. }
  clear H. unfold parse_ipv6 in Hp. destruct (index_byte s 37) as [i|] eqn:Ei.
  { destruct (drop (S i) s) as [|z zs]; [done|]. exfalso. revert Hp. unfold parse_ipv6_body, parse_ipv6_finish. repeat case_match; intros [= <-]; done. }
  assert (∀ fuel t ip ell, parse_ipv6_finish [] (parse_ipv6_go fuel t ip ell) = Some a → read_chars t = true) as Hf.
  { intros fuel t ip ell. unfold parse_ipv6_finish. destruct (parse_ipv6_go _ _ _ _) as [[[ip' ell'] [|]]|] eqn:E; [|done..]. intros _. by eapply ipv6_go_chars. }
  unfold parse_ipv6_body in Hp. destruct s as [|c s]; [done|].
  destruct (Z.eqb_spec c 58) as [->|]; [|eapply Hf; rewrite <- Hp; destruct c as [|c|c]; [done| |done]; repeat (destruct c as [c|c|]; try done)].
  destruct s as [|c s]; [by apply Hf in Hp|]. destruct (Z.eqb_spec c 58) as [->|].
  - destruct s; [done|]. by apply Hf in Hp.
  - eapply Hf. rewrite <- Hp. destruct c as [|c|c]; [done| |done]. repeat (destruct c as [c|c|]; try done).
Qed.

(** It is an address. *)
Lemma ipv4_go_ok s fields pos val digs first r : parse_ipv4_go s fields pos val digs first = Some r →
  length fields = pos → (pos <= 3)%nat → bytes_ok fields → byte_ok val → length r = 4%nat ∧ bytes_ok r.
Proof.
  revert fields pos val digs first. induction s as [|c s IH]; intros fields pos val digs first; cbn [parse_ipv4_go].
  - destruct (Nat.ltb_spec pos 3); [done|]. intros [= <-] Hl Hp Hf Hv. rewrite length_reverse. cbn [length]. split; [lia|]. apply Forall_reverse. by constructor.
  - destruct (is_digit c) eqn:Ed.
    + destruct (_ && _); [done|]. destruct (Z.ltb_spec 255 (val * 10 + (c - 48))); [done|]. intros H0 Hl Hp Hf Hv. eapply IH; [exact H0|done..|].
      unfold is_digit in Ed. unfold byte_ok in *. lia.
    + destruct (c =? 46); [|done]. destruct (_ || _); [done|]. destruct (Nat.eqb_spec pos 3); [done|]. intros H0 Hl Hp Hf Hv. eapply IH; [exact H0|cbn; lia|lia|by constructor|done].
Qed.

Lemma ipv4_fields_ok s r : parse_ipv4_fields s = Some r → length r = 4%nat ∧ bytes_ok r.
Proof. unfold parse_ipv4_fields. destruct s; [done|]. intros H. eapply ipv4_go_ok; [exact H|done|lia|constructor|done]. Qed.

Lemma hex_group_ok s acc off acc' off' k : hex_group s acc off = Some (acc', off', k) → (off <= 4)%nat → 0 <= acc < 16 ^ Z.of_nat off → 0 <= acc' < 65536.
Proof.
  revert acc off. induction s as [|c s IH]; intros acc off; cbn [hex_group].
  - intros [= <- _ _] Ho Ha. assert (16 ^ Z.of_nat off <= 16 ^ 4) by (apply Z.pow_le_mono_r; lia). lia.
  - destruct (hex_val c) as [v|] eqn:Ev.
    + destruct (Nat.ltb_spec 3 off); [done|]. intros H0 Ho Ha. eapply IH; [exact H0|lia|]. rewrite Z.shiftl_mul_pow2 by lia.
      rewrite Nat2Z.inj_succ, Z.pow_succ_r by lia. unfold hex_val, is_digit in Ev. repeat case_match; simplify_eq; bool_prop; lia.
    + intros [= <- _ _] Ho Ha. assert (16 ^ Z.of_nat off <= 16 ^ 4) by (apply Z.pow_le_mono_r; lia). lia.
Qed.

Lemma ipv6_go_ok fuel s ip ell ip' ell' k : parse_ipv6_go fuel s ip ell = Some (ip', ell', k) →
  bytes_ok ip → (∃ n, length ip = 2 * n)%nat → (length ip <= 16)%nat → (∀ e, ell = Some e → e <= length ip)%nat →
  bytes_ok ip' ∧ (length ip' <= 16)%nat ∧ (∀ e, ell' = Some e → e <= length ip')%nat.
Proof.
  revert s ip ell. induction fuel as [|fuel IH]; intros s ip ell; cbn [parse_ipv6_go]; destruct (Nat.leb_spec 16 (length ip)); try done; [by intros [= <- <- _]..|].
  destruct (hex_group s 0 0) as [[[acc [|off]] r]|] eqn:Eg; [done| |done]. apply hex_group_ok in Eg; [|lia|cbn; lia].
  intros H0 Hb [n Hn] Hl He.
  set (jp := ip ++ [Z.shiftr acc 8; u8 acc]) in *.
  assert (bytes_ok jp) as Hjb.
  { apply Forall_app; split; [done|]. unfold byte_ok, u8. repeat constructor; rewrite ?Z.shiftr_div_pow2 by lia; change (2 ^ 8) with 256 in *; pose proof (Z.mod_pos_bound acc 256); try lia; try (apply Z.div_pos; lia); try (apply Z.div_lt_upper_bound; lia). }
  assert (length jp = 2 + length ip)%nat as Hjl by (unfold jp; rewrite length_app; cbn; lia).
  assert (∃ m, length jp = 2 * m)%nat as Hje by (exists (S n); lia).
  assert (∀ e, ell = Some e → e <= length jp)%nat as Hjell by (intros e Ee; specialize (He e Ee); lia).
  destruct r as [|c r]; [injection H0 as <- <- _; split_and!; [done|lia|done]|].
  destruct (Z.eqb_spec c 46) as [->|H46].
  { destruct (match ell with None => _ | Some _ => false end); [done|]. destruct (Nat.ltb_spec 16 (length ip + 4)); [done|].
    destruct (parse_ipv4_fields s) as [f|] eqn:Ef; [|done]. apply ipv4_fields_ok in Ef as [Hf1 Hf2]. injection H0 as <- <- _.
    rewrite length_app. split_and!; [by apply Forall_app|lia|intros e Ee; specialize (He e Ee); lia]. }
  destruct (Z.eqb_spec c 58) as [->|H58]; [|exfalso; destruct c as [|c|c]; [discriminate H0| |discriminate H0]; do 6 (destruct c as [c|c|]; try discriminate H0); done].
  destruct r as [|c r]; [done|]. destruct (Z.eqb_spec c 58) as [->|Hc].
  - destruct ell; [done|]. destruct r as [|d r]; [injection H0 as <- <- _; split_and!; [done|lia|intros e [= <-]; cbn; lia]|].
    eapply IH; [exact H0|done|done|lia|intros e [= <-]; cbn; lia].
  - eapply (IH (c :: r) jp ell); [|done|done|lia|done]. rewrite <- H0. destruct c as [|c|c]; [done| |done]. repeat (destruct c as [c|c|]; try done).
Qed.

Lemma parse_addr_ok s a : parse_addr s = Some a → addr_ok a ∧ is_valid a = true.
Proof.
  unfold parse_addr. intros H.
  assert ((∃ f, parse_ipv4_fields s = Some f ∧ a = Addr4 f) ∨ parse_ipv6 s = Some a) as [(f & Hf & ->)|Hp].
  { destruct (addr_kind s) as [c|]; [|done]. destruct c as [|c|c]; [done| |done]. do 6 (destruct c as [c|c|]; try done); [|by right].
    left. destruct (parse_ipv4_fields s) as [f|]; [|done]. injection H as <-. eauto. }
  { apply ipv4_fields_ok in Hf. by split. }
  clear H. assert (∀ z fuel t ip ell, parse_ipv6_finish z (parse_ipv6_go fuel t ip ell) = Some a →
    bytes_ok ip → (∃ n, length ip = 2 * n)%nat → (length ip <= 16)%nat → (∀ e, ell = Some e → e <= length ip)%nat → addr_ok a ∧ is_valid a = true) as Hf.
  { intros z fuel t ip ell H H1 H2 H3 H4. destruct (parse_ipv6_go fuel t ip ell) as [[[ip' ell'] k]|] eqn:E; [|done].
    apply ipv6_go_ok in E as (Hb & Hl & He); [|done..]. unfold parse_ipv6_finish in H. destruct (length k =? 0)%nat; [|done].
    destruct (Nat.ltb_spec (length ip') 16); [destruct ell' as [e|]; [|done]|destruct ell'; [done|]]; injection H as <-; split; try done; split; try lia; try done.
    - specialize (He e eq_refl). rewrite !length_app, length_take, length_drop, length_replicate. lia.
    - apply Forall_app; split; [by apply Forall_take|]. apply Forall_app; split; [by apply Forall_replicate|by apply Forall_drop]. }
  assert (∀ t z, parse_ipv6_body t z = Some a → addr_ok a ∧ is_valid a = true) as Hbody.
  { intros t z H. unfold parse_ipv6_body in H.
    assert (∀ t, parse_ipv6_finish z (parse_ipv6_go 9 t [] None) = Some a → addr_ok a ∧ is_valid a = true) as H1.
    { intros t' Ht. eapply Hf; [exact Ht|constructor|by exists 0%nat|cbn; lia|done]. }
    assert (∀ t, parse_ipv6_finish z (parse_ipv6_go 9 t [] (Some O)) = Some a → addr_ok a ∧ is_valid a = true) as H2.
    { intros t' Ht. eapply Hf; [exact Ht|constructor|by exists 0%nat|cbn; lia|intros e [= <-]; cbn; lia]. }
    destruct t as [|c t]; [by eapply H1|]. destruct (Z.eqb_spec c 58) as [->|]; [|eapply H1; rewrite <- H; destruct c as [|c|c]; [done| |done]; repeat (destruct c as [c|c|]; try done)].
    destruct t as [|c t]; [by eapply H1|]. destruct (Z.eqb_spec c 58) as [->|].
    - destruct t; [injection H as <-; split; [|done]; split; [done|apply (bool_decide_unpack _); by vm_compute]|]. by eapply H2.
    - eapply H1. rewrite <- H. destruct c as [|c|c]; [done| |done]. repeat (destruct c as [c|c|]; try done). }
  unfold parse_ipv6 in Hp. destruct (index_byte s 37) as [i|]; [|by eapply Hbody].
  destruct (drop (S i) s); [done|]. by eapply Hbody.
Qed.
