(* ===== verification/Sni.v ===== *)
(** Sni: the ClientHello parser ([sni.go]) and the incremental reader in front
    of it ([readHello] of [proxy.go]). *)

From S2P Require Import Prelude GoStr NetIP.

Definition maxClientHello : Z := 64 * 1024.
Definition maxClientHelloRecords : nat := 32.

(** The errors of [parseHello]; [NeedMore] is [errNeedMore]. *)
Inductive hello_err : Type :=
| NeedMore
| NotHandshake (typ : Z)          (* not a TLS handshake record *)
| NotClientHello (typ : Z)        (* first handshake message is not ClientHello *)
| TooLarge                        (* ClientHello too large *)
| TooManyRecords                  (* spans more than maxClientHelloRecords *)
| BadVersion (major minor : Z)    (* unsupported TLS record version *)
| EmptyRecord
| Truncated
| BadSNI (name : bytes).          (* invalid SNI host name *)

#[export] Instance hello_err_eq_dec : EqDecision hello_err.
Proof. solve_decision. Defined.

(** [helloInfo] *)
Record helloInfo := HelloInfo {
  SNI : bytes;          (* lowercased; [] if absent *)
  SNIIP : addr;         (* an IP address sent as the server name *)
  ALPN : list bytes;
  Digest : Z;
}.
#[export] Instance helloInfo_eq_dec : EqDecision helloInfo.
Proof. solve_decision. Defined.

Definition offers (h : helloInfo) (proto : bytes) : bool :=
  existsb (fun p => bool_decide (p = proto)) (ALPN h).

(** [isHostChar] ([config.go]) *)
Definition isHostChar (b : Z) : bool :=
  ((97 <=? b) && (b <=? 122)) || ((65 <=? b) && (b <=? 90)) || ((48 <=? b) && (b <=? 57))
  || (b =? 46) || (b =? 45) || (b =? 95).

(** * The cursor *)

Record cursor := Cursor { c_b : bytes; c_bad : bool }.

(** [c.take(n)]; a negative [n] never occurs: it is one or two bytes read. *)
Definition take_n (n : Z) (c : cursor) : bytes * cursor :=
  if c_bad c || (len (c_b c) <? n) then ([], Cursor (c_b c) true)
  else (take (Z.to_nat n) (c_b c), Cursor (drop (Z.to_nat n) (c_b c)) (c_bad c)).

Definition c_u8 (c : cursor) : Z * cursor :=
  match take_n 1 c with
  | (b0 :: _, c') => (b0, c')
  | ([], c') => (0, c')
  end.
Definition c_u16 (c : cursor) : Z * cursor :=
  match take_n 2 c with
  | (b0 :: b1 :: _, c') => (be16 b0 b1, c')
  | (_, c') => (0, c')
  end.
Definition vec8 (c : cursor) : bytes * cursor := let (n, c') := c_u8 c in take_n n c'.
Definition vec16 (c : cursor) : bytes * cursor := let (n, c') := c_u16 c in take_n n c'.

(** * The extensions *)

(** The loop over the entries of a server_name list.  Each turn takes at
    least three bytes or sets [bad], so [length (c_b names)] turns are
    enough; [sni_loop_fuel] proves it. *)
Fixpoint sni_loop (fuel : nat) (names : cursor) (info : helloInfo) : res hello_err (helloInfo * cursor) :=
  match fuel with
  | O => Ok (info, names)
  | S fuel' =>
      if len (c_b names) =? 0 then Ok (info, names) else
      let (nameType, c1) := c_u8 names in
      let (name, c2) := vec16 c1 in
      if c_bad c2 then Ok (info, c2) (* break *)
      else if negb (nameType =? 0) then sni_loop fuel' c2 info (* continue *)
      else if (len name =? 0) || (253 <? len name) then Err (BadSNI name)
      else
        let host_name :=
          if forallb isHostChar name
          then Ok (HelloInfo (to_lower name) (SNIIP info) (ALPN info) (Digest info), c2)
          else Err (BadSNI name) in
        match parse_addr name with
        | Some ip =>
            if bool_decide (zone ip = [])
            then Ok (HelloInfo (SNI info) (unmap ip) (ALPN info) (Digest info), c2)
            else host_name
        | None => host_name
        end
  end.

(** The loop over the protocols of an ALPN list. *)
Fixpoint alpn_loop (fuel : nat) (protos : cursor) (acc : list bytes) : list bytes * cursor :=
  match fuel with
  | O => (acc, protos)
  | S fuel' =>
      if len (c_b protos) =? 0 then (acc, protos) else
      let (p, c') := vec8 protos in
      if c_bad c' then (acc, c') else alpn_loop fuel' c' (acc ++ [p])
  end.

(** One extension: [case 0] and [case 16] of the switch. *)
Definition ext_server_name (data : bytes) (info : helloInfo) : res hello_err helloInfo :=
  let (nb, list_c) := vec16 (Cursor data false) in
  let names := Cursor nb false in
  let! (info', names') :=
    if c_bad list_c then Ok (info, names) else sni_loop (length nb) names info in
  if c_bad list_c || c_bad names' then Err Truncated else Ok info'.

Definition ext_alpn (data : bytes) (info : helloInfo) : res hello_err helloInfo :=
  let (pb, list_c) := vec16 (Cursor data false) in
  let protos := Cursor pb false in
  let (alpn, protos') :=
    if c_bad list_c then (ALPN info, protos) else alpn_loop (length pb) protos (ALPN info) in
  if c_bad list_c || c_bad protos' then Err Truncated
  else Ok (HelloInfo (SNI info) (SNIIP info) alpn (Digest info)).

(** The loop over the extensions; each takes at least four bytes. *)
Fixpoint ext_loop (fuel : nat) (exts : cursor) (seenSNI : bool) (info : helloInfo)
    : res hello_err helloInfo :=
  match fuel with
  | O => Ok info
  | S fuel' =>
      if len (c_b exts) =? 0 then Ok info else
      let (typ, c1) := c_u16 exts in
      let (data, c2) := vec16 c1 in
      if c_bad c2 then Err Truncated
      else if typ =? 0 then
        if seenSNI then ext_loop fuel' c2 seenSNI info
        else let! info' := ext_server_name data info in ext_loop fuel' c2 true info'
      else if typ =? 16 then
        let! info' := ext_alpn data info in ext_loop fuel' c2 seenSNI info'
      else ext_loop fuel' c2 seenSNI info
  end.

Definition no_info : helloInfo := HelloInfo [] AddrZero [] 0.

(** [parseExtensions] *)
Definition parseExtensions (body : bytes) : res hello_err helloInfo :=
  let (_, c) := take_n 2 (Cursor body false) in  (* legacy_version *)
  let (_, c) := take_n 32 c in                   (* random *)
  let (_, c) := vec8 c in                        (* session_id *)
  let (_, c) := vec16 c in                       (* cipher_suites *)
  let (_, c) := vec8 c in                        (* compression_methods *)
  if c_bad c then Err Truncated
  else if len (c_b c) =? 0 then Ok no_info       (* no extensions at all *)
  else
    let (eb, c) := vec16 c in
    if c_bad c then Err Truncated
    else ext_loop (length eb) (Cursor eb false) false no_info.

(** * The records *)

Section Hello.
(** [maphash.Bytes(helloSeed, _)]: the process's keyed 64-bit hash. *)
Context (hash : bytes → Z).

(** The test at the top of [parseHello]'s loop: a handshake message that is
    complete, or that can never be a ClientHello. *)
Definition handshake_done (handshake : bytes) : option (res hello_err helloInfo) :=
  match handshake with
  | t :: l2 :: l1 :: l0 :: body =>
      if negb (t =? 1) then Some (Err (NotClientHello t))
      else
        let msgLen := Z.lor (Z.lor (Z.shiftl l2 16) (Z.shiftl l1 8)) l0 in
        if maxClientHello <? 4 + msgLen then Some (Err TooLarge)
        else if 4 + msgLen <=? len handshake then
          Some (let! info := parseExtensions (take (Z.to_nat msgLen) body) in
                Ok (HelloInfo (SNI info) (SNIIP info) (ALPN info)
                      (hash (take (Z.to_nat (4 + msgLen)) handshake))))
        else None
  | _ => None
  end.

(** [parseHello]'s loop.  [left] is [maxClientHelloRecords - records], and
    [consumed] is [len(data) - len(rest)]. *)
Fixpoint parse_records (left : nat) (handshake rest : bytes) (consumed : Z) : res hello_err helloInfo :=
  match handshake_done handshake with
  | Some r => r
  | None =>
      match rest with
      | r0 :: r1 :: r2 :: r3 :: r4 :: tl =>
          if negb (r0 =? 0x16) then Err (NotHandshake r0) else
          match left with
          | O => Err TooManyRecords
          | S left' =>
              if negb (r1 =? 3) then Err (BadVersion r1 r2) else
              let n := be16 r3 r4 in
              if n =? 0 then Err EmptyRecord
              else if maxClientHello <? consumed + 5 + n then Err TooLarge
              else if len rest <? 5 + n then Err NeedMore
              else parse_records left' (handshake ++ take (Z.to_nat n) tl)
                     (drop (Z.to_nat n) tl) (consumed + 5 + n)
          end
      | r0 :: _ => if negb (r0 =? 0x16) then Err (NotHandshake r0) else Err NeedMore
      | [] => Err NeedMore
      end
  end.

Definition parseHello (data : bytes) : res hello_err helloInfo :=
  parse_records maxClientHelloRecords [] data 0.

(** [parseClientHello] *)
Definition parseClientHello (data : bytes) : res hello_err bytes :=
  let! h := parseHello data in Ok (SNI h).

(** * Reading: [readHello]

    A connection delivers segments; a [Read] into a buffer with [room] bytes
    left takes what fits of the next one.  A segment may come with the error
    that ends the stream; after the last one the peer has closed. *)

Inductive read_err := ReadEOF | ReadTimeout | ReadOther (code : Z).
Definition conn := list (bytes * option read_err).

Definition conn_read (room : Z) (c : conn) : bytes * option read_err * conn :=
  match c with
  | [] => ([], Some ReadEOF, [])
  | (b, e) :: c' =>
      if len b <=? room then (b, e, c')
      else (take (Z.to_nat room) b, None, (drop (Z.to_nat room) b, e) :: c')
  end.

Inductive read_out :=
| RParse (r : res hello_err helloInfo)
| RClosed                    (* closed before ClientHello was complete *)
| RIO (e : read_err)
| RBufferFull.               (* "ClientHello too large", from the buffer's growth *)

(** The framing state kept across reads: [header] holds its first
    [headerBytes] bytes, [helloBytes] is -1 until they are four. *)
Record scan := Scan {
  scanAt : Z; s_left : nat; handshakeBytes : Z; header : bytes; helloBytes : Z;
}.
Definition scan_start : scan := Scan 0 maxClientHelloRecords 0 [] (-1).

(** Completing the four header bytes from a record's payload; once they are
    there, the message's type and length are known. *)
Definition scan_header (st : scan) (payload : bytes) : res hello_err (bytes * Z) :=
  if (length (header st) <? 4)%nat then
    let header' := header st ++ take (4 - length (header st)) payload in
    match header' with
    | [t; l2; l1; l0] =>
        if negb (t =? 1) then Err (NotClientHello t)
        else let hb := 4 + Z.shiftl l2 16 + Z.shiftl l1 8 + l0 in
             if maxClientHello <? hb then Err TooLarge else Ok (header', hb)
    | _ => Ok (header', helloBytes st)
    end
  else Ok (header st, helloBytes st).

(** The inner loop: the records that are complete in [data].  [Some r] returns
    from [readHello], [None] waits for more. *)
Fixpoint scan_records (left : nat) (st : scan) (data : bytes) : scan * option (res hello_err helloInfo) :=
  match drop (Z.to_nat (scanAt st)) data with
  | r0 :: r1 :: r2 :: r3 :: r4 :: tl =>
      if negb (r0 =? 0x16) then (st, Some (Err (NotHandshake r0))) else
      match left with
      | O => (st, Some (Err TooManyRecords))
      | S left' =>
          if negb (r1 =? 3) then (st, Some (Err (BadVersion r1 r2))) else
          let recordBytes := be16 r3 r4 in
          let recordEnd := scanAt st + 5 + recordBytes in
          if recordBytes =? 0 then (st, Some (Err EmptyRecord))
          else if maxClientHello <? recordEnd then (st, Some (Err TooLarge))
          else if len data <? recordEnd then (st, None)
          else
            let payload := take (Z.to_nat recordBytes) tl in
            match scan_header st payload with
            | Err e => (st, Some (Err e))
            | Ok (header', hb) =>
                let hs := handshakeBytes st + recordBytes in
                if (0 <=? hb) && (hb <=? hs) then (st, Some (parseHello data))
                else scan_records left' (Scan recordEnd left' hs header' hb) data
            end
      end
  | r0 :: _ => if negb (r0 =? 0x16) then (st, Some (Err (NotHandshake r0))) else (st, None)
  | [] => (st, None)
  end.

(** The outer loop: grow the buffer when it is full, read, scan. *)
Fixpoint read_loop (fuel : nat) (cap : Z) (st : scan) (data : bytes) (c : conn) : read_out * bytes :=
  match fuel with
  | O => (RBufferFull, data)
  | S fuel' =>
      if (len data =? cap) && (maxClientHello + 16 <? cap) then (RBufferFull, data) else
      let cap := if len data =? cap then 2 * cap + 4096 else cap in
      let '(chunk, rerr, c') := conn_read (cap - len data) c in
      let data := data ++ chunk in
      let '(st, done) := if 0 <? len chunk then scan_records (s_left st) st data else (st, None) in
      match done with
      | Some r => (RParse r, data)
      | None =>
          match rerr with
          | Some ReadEOF => (RClosed, data)
          | Some e => (RIO e, data)
          | None => read_loop fuel' cap st data c'
          end
      end
  end.

(** Every turn takes a segment or at least one of its bytes. *)
Definition conn_size (c : conn) : nat := sum_list_with (fun s => S (length s.1)) c.

(** [readHello] with a pooled buffer of [cap] bytes: the outcome and the bytes
    read so far. *)
Definition readHello (cap : Z) (c : conn) : read_out * bytes :=
  read_loop (S (conn_size c)) cap scan_start [] c.

End Hello.

(** * The loops end by themselves: more fuel changes nothing *)

Lemma take_n_cases n c :
  (c_bad (take_n n c).2 = true ∧ (take_n n c).1 = [])
  ∨ (c_bad c = false ∧ n <= len (c_b c) ∧ c_bad (take_n n c).2 = false
     ∧ (take_n n c).1 = take (Z.to_nat n) (c_b c) ∧ c_b (take_n n c).2 = drop (Z.to_nat n) (c_b c)).
Proof.
  unfold take_n. destruct (c_bad c) eqn:E; cbn; [by left|].
  destruct (Z.ltb_spec (len (c_b c)) n); cbn; [by left|]. right; repeat split; done.
Qed.

Lemma take_n_length n c : (length (c_b (take_n n c).2) <= length (c_b c))%nat.
Proof. unfold take_n. case_match; cbn; rewrite ?length_drop; lia. Qed.

Lemma c_u8_cases c :
  (c_bad (c_u8 c).2 = true ∧ (c_u8 c).1 = 0) ∨
  (c_bad c = false ∧ c_b c = (c_u8 c).1 :: c_b (c_u8 c).2 ∧ c_bad (c_u8 c).2 = false).
Proof.
  unfold c_u8. destruct (take_n_cases 1 c) as [[Hb He]|(H1&H2&H3&H4&H5)];
    destruct (take_n 1 c) as [t [b' bad']] eqn:E; cbn in *; subst; [by left|right].
  destruct (c_b c) as [|x l]; [len_lia|]. done.
Qed.

Lemma c_u16_cases c :
  (c_bad (c_u16 c).2 = true ∧ (c_u16 c).1 = 0) ∨
  (c_bad c = false ∧ (∃ x y, c_b c = x :: y :: c_b (c_u16 c).2 ∧ (c_u16 c).1 = be16 x y) ∧ c_bad (c_u16 c).2 = false).
Proof.
  unfold c_u16. destruct (take_n_cases 2 c) as [[Hb He]|(H1&H2&H3&H4&H5)];
    destruct (take_n 2 c) as [t [b' bad']] eqn:E; cbn in *; subst; [by left|right].
  destruct (c_b c) as [|x [|y l]]; [len_lia..|]. split; [done|]. split; [|done]. by exists x, y.
Qed.

(** A length-prefixed vector consumes its prefix and its body. *)
Lemma vec8_cases c :
  c_bad (vec8 c).2 = true ∨
  (c_bad c = false ∧ c_bad (vec8 c).2 = false ∧ ∃ n,
     c_b c = n :: (vec8 c).1 ++ c_b (vec8 c).2 ∧ len (vec8 c).1 = Z.max 0 n).
Proof.
  unfold vec8. destruct (c_u8_cases c) as [[Hb He]|(H1&H2&H3)]; destruct (c_u8 c) as [n c1]; cbn in *.
  - left. unfold take_n. rewrite Hb. done.
  - destruct (take_n_cases n c1) as [[Hb He]|(G1&G2&G3&G4&G5)]; [by left|right].
    repeat split; [done..|]. exists n. rewrite H2, G4, G5, take_drop. split; [done|len_lia].
Qed.

Lemma vec16_cases c :
  c_bad (vec16 c).2 = true ∨
  (c_bad c = false ∧ c_bad (vec16 c).2 = false ∧ ∃ x y,
     c_b c = x :: y :: (vec16 c).1 ++ c_b (vec16 c).2 ∧ len (vec16 c).1 = Z.max 0 (be16 x y)).
Proof.
  unfold vec16. destruct (c_u16_cases c) as [[Hb He]|(H1&(x&y&H2&Hn)&H3)]; destruct (c_u16 c) as [n c1]; cbn in *.
  - left. unfold take_n. rewrite Hb. done.
  - destruct (take_n_cases n c1) as [[Hb He]|(G1&G2&G3&G4&G5)]; [by left|right].
    repeat split; [done..|]. exists x, y. rewrite H2, G4, G5, take_drop. split; [done|len_lia].
Qed.

Lemma vec8_bad c : c_bad c = true → c_bad (vec8 c).2 = true.
Proof. intros H. destruct (vec8_cases c) as [?|(?&_)]; congruence. Qed.
Lemma vec16_bad c : c_bad c = true → c_bad (vec16 c).2 = true.
Proof. intros H. destruct (vec16_cases c) as [?|(?&_)]; congruence. Qed.

Lemma sni_loop_fuel f1 f2 names info :
  (length (c_b names) <= f1)%nat → (length (c_b names) <= f2)%nat →
  sni_loop f1 names info = sni_loop f2 names info.
Proof.
  revert f2 names info; induction f1 as [|f1 IH]; intros f2 names info H1 H2.
  - destruct (c_b names) eqn:E; [|cbn in H1; lia]. destruct f2; cbn; [done|]. rewrite E. done.
  - destruct f2 as [|f2].
    { destruct (c_b names) eqn:E; [|cbn in H2; lia]. cbn. rewrite E. done. }
    cbn [sni_loop]. destruct (len (c_b names) =? 0) eqn:E0; [done|].
    pose proof (c_u8_cases names) as Hu8. destruct (c_u8 names) as [t c1].
    pose proof (vec16_cases c1) as Hv. destruct (vec16 c1) as [name c2]; cbn in Hu8, Hv.
    destruct (c_bad c2) eqn:Eb; [done|].
    destruct (negb (t =? 0)); [|done]. apply IH.
    all: destruct Hv as [|(B1&_&x&y&Hc1&_)]; [congruence|].
    all: destruct Hu8 as [[? _]|(_&Hn&_)]; [congruence|].
    all: rewrite Hn, Hc1 in *; cbn in *; rewrite ?length_app in *; lia.
Qed.

Lemma alpn_loop_fuel f1 f2 protos acc :
  (length (c_b protos) <= f1)%nat → (length (c_b protos) <= f2)%nat →
  alpn_loop f1 protos acc = alpn_loop f2 protos acc.
Proof.
  revert f2 protos acc; induction f1 as [|f1 IH]; intros f2 protos acc H1 H2.
  - destruct (c_b protos) eqn:E; [|cbn in H1; lia]. destruct f2; cbn; [done|]. rewrite E. done.
  - destruct f2 as [|f2].
    { destruct (c_b protos) eqn:E; [|cbn in H2; lia]. cbn. rewrite E. done. }
    cbn [alpn_loop]. destruct (len (c_b protos) =? 0) eqn:E0; [done|].
    pose proof (vec8_cases protos) as Hv. destruct (vec8 protos) as [p c2]; cbn in Hv.
    destruct (c_bad c2) eqn:Eb; [done|]. apply IH.
    all: destruct Hv as [|(B1&_&n&Hc1&_)]; [congruence|].
    all: rewrite Hc1 in *; cbn in *; rewrite ?length_app in *; lia.
Qed.

Lemma ext_loop_fuel f1 f2 exts seen info :
  (length (c_b exts) <= f1)%nat → (length (c_b exts) <= f2)%nat →
  ext_loop f1 exts seen info = ext_loop f2 exts seen info.
Proof.
  revert f2 exts seen info; induction f1 as [|f1 IH]; intros f2 exts seen info H1 H2.
  - destruct (c_b exts) eqn:E; [|cbn in H1; lia]. destruct f2; cbn; [done|]. rewrite E. done.
  - destruct f2 as [|f2].
    { destruct (c_b exts) eqn:E; [|cbn in H2; lia]. cbn. rewrite E. done. }
    cbn [ext_loop]. destruct (len (c_b exts) =? 0) eqn:E0; [done|].
    pose proof (c_u16_cases exts) as Hu. destruct (c_u16 exts) as [t c1].
    pose proof (vec16_cases c1) as Hv. destruct (vec16 c1) as [d c2]; cbn in Hu, Hv.
    destruct (c_bad c2) eqn:Eb; [done|].
    destruct Hv as [|(B1&_&x&y&Hc1&_)]; [congruence|].
    destruct Hu as [[? _]|(_&(x'&y'&Hn&_)&_)]; [congruence|].
    rewrite Hn, Hc1 in *; cbn in H1, H2; rewrite ?length_app in *.
    assert (length (c_b c2) <= f1)%nat by lia. assert (length (c_b c2) <= f2)%nat by lia.
    repeat (case_match; try done); by apply IH.
Qed.

(** * What the parser returns *)

Lemma is_digit_lower c : is_digit (lower c) = is_digit c.
Proof.
  unfold lower. destruct (is_upper c) eqn:E; [|done].
  unfold is_upper in E. bool_prop. unfold is_digit.
  destruct (Z.leb_spec 48 (c + 32)), (Z.leb_spec (c + 32) 57), (Z.leb_spec 48 c), (Z.leb_spec c 57); try done; lia.
Qed.

Lemma lower_digit c : is_digit c = true → lower c = c.
Proof. unfold is_digit, lower, is_upper. intros H. bool_prop. case_match; bool_prop; lia. Qed.

Lemma lower_eqb c d : d < 65 → (lower c =? d) = (c =? d).
Proof.
  intros Hd. unfold lower, is_upper.
  destruct (Z.leb_spec 65 c), (Z.leb_spec c 90); cbn; try done.
  destruct (Z.eqb_spec (c + 32) d), (Z.eqb_spec c d); done || lia.
Qed.

Lemma parse_ipv4_go_lower s fields pos val digs first :
  parse_ipv4_go (to_lower s) fields pos val digs first = parse_ipv4_go s fields pos val digs first.
Proof.
  revert fields pos val digs first; induction s as [|c s IH]; intros; [done|].
  change (to_lower (c :: s)) with (lower c :: to_lower s). cbn [parse_ipv4_go].
  rewrite is_digit_lower, lower_eqb, length_to_lower by lia.
  destruct (is_digit c) eqn:E; [rewrite lower_digit by done|]; repeat (case_match; [done|]); auto;
  repeat case_match; auto.
Qed.

Lemma addr_kind_lower s : addr_kind (to_lower s) = addr_kind s.
Proof.
  induction s as [|c s IH]; [done|].
  change (to_lower (c :: s)) with (lower c :: to_lower s). cbn [addr_kind].
  rewrite !lower_eqb, IH by lia. destruct ((c =? 46) || (c =? 58) || (c =? 37)) eqn:E; [|done].
  f_equal. assert (c < 65) by (rewrite !orb_true_iff, !Z.eqb_eq in E; lia).
  unfold lower, is_upper. destruct (Z.leb_spec 65 c); [lia|done].
Qed.

Lemma host_char_kind s : Forall (fun b => isHostChar b = true) s → addr_kind s = None ∨ addr_kind s = Some 46.
Proof.
  induction 1 as [|c s Hc _ IH]; [by left|]. cbn.
  assert (c ≠ 58 ∧ c ≠ 37) as [H1 H2] by (split; intros ->; vm_compute in Hc; done).
  apply Z.eqb_neq in H1, H2. rewrite H1, H2. destruct (Z.eqb_spec c 46) as [->|]; cbn; auto.
Qed.

(** A name of host characters that is not an address has no zone to hide
    behind, and lowercasing does not make it one. *)
Lemma host_addr_lower s : Forall (fun b => isHostChar b = true) s →
  parse_addr (to_lower s) = parse_addr s ∧ ∀ ip, parse_addr s = Some ip → zone ip = [].
Proof.
  intros Hs. unfold parse_addr. rewrite addr_kind_lower.
  destruct (host_char_kind s Hs) as [-> | ->]; [done|].
  unfold parse_ipv4_fields. split.
  - destruct s as [|c s]; [done|].
    change (to_lower (c :: s)) with (lower c :: to_lower s).
    change (lower c :: to_lower s) with (to_lower (c :: s)).
    rewrite <- (parse_ipv4_go_lower (c :: s)). done.
  - intros ip H. apply fmap_Some in H as (b & _ & ->). done.
Qed.

Definition sni_char (b : Z) : Prop := isHostChar b = true ∧ is_upper b = false.

Definition sni_valid (s : bytes) : Prop :=
  1 <= len s <= 253 ∧ Forall sni_char s ∧ parse_addr s = None.

(** What holds of the server name in a parsed ClientHello. *)
Definition info_ok (info : helloInfo) : Prop :=
  (SNI info = [] ∨ (sni_valid (SNI info) ∧ SNIIP info = AddrZero)) ∧
  zone (SNIIP info) = [] ∧ is4in6 (SNIIP info) = false.

Lemma sni_char_lower b : isHostChar b = true → sni_char (lower b).
Proof.
  intros H. unfold sni_char, lower, isHostChar, is_upper in *.
  rewrite !orb_true_iff, !andb_true_iff, !Z.leb_le, !Z.eqb_eq in H.
  destruct (Z.leb_spec 65 b), (Z.leb_spec b 90); cbn;
    rewrite ?orb_true_iff, ?andb_true_iff, ?andb_false_iff, ?Z.leb_le, ?Z.leb_gt, ?Z.eqb_eq; lia.
Qed.

Lemma unmap_ok ip : zone ip = [] → zone (unmap ip) = [] ∧ is4in6 (unmap ip) = false.
Proof.
  intros Hz. unfold unmap. destruct ip as [|b|b z]; [done..|].
  destruct (is4in6 (Addr6 b z)) eqn:E; done.
Qed.

Lemma sni_loop_ok fuel names info r : SNI info = [] → SNIIP info = AddrZero →
  sni_loop fuel names info = Ok r → info_ok r.1.
Proof.
  intros HS HI. revert names; induction fuel as [|fuel IH]; intros names; cbn [sni_loop].
  { intros [= <-]. unfold info_ok; cbn. rewrite HS, HI. repeat split; auto. }
  destruct (len (c_b names) =? 0).
  { intros [= <-]. unfold info_ok; cbn. rewrite HS, HI. repeat split; auto. }
  destruct (c_u8 names) as [t c1], (vec16 c1) as [name c2].
  destruct (c_bad c2). { intros [= <-]. unfold info_ok; cbn. rewrite HS, HI. repeat split; auto. }
  destruct (negb (t =? 0)); [apply IH|].
  destruct ((len name =? 0) || (253 <? len name)) eqn:Elen; [done|].
  destruct (forallb isHostChar name) eqn:Eh.
  - assert (Forall (fun b => isHostChar b = true) name) as Hh
      by (apply Forall_forall; intros x Hx; rewrite forallb_forall in Eh; apply Eh, list_elem_of_In, Hx).
    destruct (host_addr_lower name Hh) as [Hl Hz]. destruct (parse_addr name) as [ip|] eqn:Ep.
    + rewrite (Hz ip eq_refl). cbn. intros [= <-]. unfold info_ok; cbn. split; [auto|by apply unmap_ok, Hz].
    + intros [= <-]. unfold info_ok; cbn. rewrite HI. split; [right; split; [|done]|done].
      split; [|split].
      * bool_prop. unfold len in *. rewrite length_to_lower. lia.
      * apply Forall_fmap. eapply Forall_impl; [exact Hh|]. intros b Hb. by apply sni_char_lower.
      * done.
  - destruct (parse_addr name) as [ip|]; [|done].
    destruct (bool_decide (zone ip = [])) eqn:Ez; [|done]. bool_prop.
    intros [= <-]. unfold info_ok; cbn. split; [auto|by apply unmap_ok].
Qed.

Lemma ext_loop_ok fuel exts seen info info' :
  info_ok info → (seen = false → SNI info = [] ∧ SNIIP info = AddrZero) →
  ext_loop fuel exts seen info = Ok info' → info_ok info'.
Proof.
  revert exts seen info; induction fuel as [|fuel IH]; intros exts seen info Hok Hseen; cbn [ext_loop].
  { congruence. }
  destruct (len (c_b exts) =? 0); [congruence|].
  destruct (c_u16 exts) as [t c1], (vec16 c1) as [d c2]. destruct (c_bad c2); [done|].
  destruct (t =? 0); [destruct seen; [by apply IH|]|destruct (t =? 16); [|by apply IH]].
  - unfold ext_server_name. destruct (vec16 (Cursor d false)) as [nb lc].
    destruct (Hseen eq_refl) as [HS HI].
    destruct (c_bad lc) eqn:Eb; cbn; [done|].
    destruct (sni_loop _ _ _) as [[i2 n2]|] eqn:El; cbn; [|done].
    destruct (c_bad n2); [done|]. apply (sni_loop_ok _ _ _ _ HS HI) in El. by apply IH.
  - unfold ext_alpn. destruct (vec16 (Cursor d false)) as [pb lc].
    destruct (if c_bad lc then _ else _) as [alpn p']. destruct (c_bad lc || c_bad p'); [done|].
    apply IH; [done|]. cbn. auto.
Qed.

Lemma parseExtensions_ok body info : parseExtensions body = Ok info → info_ok info.
Proof.
  assert (info_ok no_info) as H0 by (unfold info_ok; cbn; repeat split; auto).
  unfold parseExtensions. intros H. repeat (go_case H; try done); go_simp; try done.
  all: try congruence. all: eapply ext_loop_ok in H; eauto.
Qed.

(** ** The loop over the records *)

Section HelloFacts.
Context (hash : bytes → Z).

Lemma handshake_done_ok hs info : handshake_done hash hs = Some (Ok info) → info_ok info.
Proof.
  unfold handshake_done. intros H. repeat (go_case H; try done); go_simp; try done.
  all: match goal with E : parseExtensions _ = Ok _ |- _ => apply parseExtensions_ok in E end; done.
Qed.

Lemma parse_records_ok left hs rest n info :
  parse_records hash left hs rest n = Ok info → info_ok info.
Proof.
  revert hs rest n; induction left as [|left IH]; intros hs rest n H; cbn [parse_records] in H.
  all: destruct (handshake_done hash hs) as [r|] eqn:Ed; [subst r; by eapply handshake_done_ok|].
  all: repeat (go_case H; try done); eauto.
Qed.

(** A verdict does not depend on the bytes that come after it. *)
Lemma parse_records_app left hs rest n more :
  parse_records hash left hs rest n ≠ Err NeedMore →
  parse_records hash left hs (rest ++ more) n = parse_records hash left hs rest n.
Proof.
  revert hs rest n; induction left as [|left IH]; intros hs rest n H; cbn [parse_records] in *.
  all: destruct (handshake_done hash hs) as [r|]; [done|].
  all: destruct rest as [|r0 [|r1 [|r2 [|r3 [|r4 tl]]]]]; cbn [app]; [done|..].
  all: destruct (negb (r0 =? 22)) eqn:E0; [by repeat case_match|]; try done.
  destruct (negb (r1 =? 3)); [done|]. destruct (be16 r3 r4 =? 0) eqn:En; [done|].
  destruct (maxClientHello <? n + 5 + be16 r3 r4) eqn:Em; [done|].
  destruct (len (r0 :: r1 :: r2 :: r3 :: r4 :: tl) <? 5 + be16 r3 r4) eqn:El; [done|].
  destruct (Z.ltb_spec (len (r0 :: r1 :: r2 :: r3 :: r4 :: tl ++ more)) (5 + be16 r3 r4)); [bool_prop; len_lia|].
  bool_prop. rewrite take_app_le, drop_app_le by len_lia. by apply IH.
Qed.

Lemma sni_loop_more fuel names info : sni_loop fuel names info ≠ Err NeedMore.
Proof.
  revert names info; induction fuel as [|fuel IH]; intros names info; cbn [sni_loop]; [done|].
  repeat (case_match; try done); auto.
Qed.

Lemma ext_loop_more fuel exts seen info : ext_loop fuel exts seen info ≠ Err NeedMore.
Proof.
  revert exts seen info; induction fuel as [|fuel IH]; intros exts seen info; cbn [ext_loop]; [done|].
  destruct (len (c_b exts) =? 0); [done|].
  destruct (c_u16 exts) as [t c1], (vec16 c1) as [d c2]. destruct (c_bad c2); [done|].
  destruct (t =? 0); [destruct seen; [done|]|destruct (t =? 16); [|done]].
  - unfold ext_server_name. destruct (vec16 _) as [nb lc]. destruct (c_bad lc); cbn; [done|].
    pose proof (sni_loop_more (length nb) (Cursor nb false) info).
    destruct (sni_loop _ _ _) as [[i n]|e]; cbn; [destruct (c_bad n); done|congruence].
  - unfold ext_alpn. destruct (vec16 _) as [pb lc]. destruct (if c_bad lc then _ else _) as [alpn p'].
    destruct (c_bad lc || c_bad p'); done.
Qed.

Lemma parseExtensions_more body : parseExtensions body ≠ Err NeedMore.
Proof. unfold parseExtensions. repeat (case_match; try done). apply ext_loop_more. Qed.

(** A handshake message that is settled is never short of bytes. *)
Lemma handshake_done_more hs : handshake_done hash hs ≠ Some (Err NeedMore).
Proof.
  unfold handshake_done. repeat (case_match; try done).
  intros [= ->]. by eapply parseExtensions_more.
Qed.

(** ** The incremental reader *)

Definition msg_len (hs : bytes) : Z :=
  match hs with
  | _ :: l2 :: l1 :: l0 :: _ => 4 + Z.shiftl l2 16 + Z.shiftl l1 8 + l0
  | _ => -1
  end.

Lemma lor_shift_add a b k : 0 <= k → 0 <= b < 2 ^ k → Z.lor (Z.shiftl a k) b = Z.shiftl a k + b.
Proof.
  intros Hk Hb. rewrite Z.shiftl_mul_pow2 by lia. rewrite <- Z.add_nocarry_lor; [done|].
  apply Z.bits_inj'; intros i Hi. rewrite Z.land_spec, Z.bits_0.
  destruct (decide (i < k)).
  - rewrite Z.mul_pow2_bits_low by lia. done.
  - destruct (decide (b = 0)) as [->|]; [by rewrite Z.bits_0, andb_false_r|].
    rewrite (Z.bits_above_log2 b i), andb_false_r; [done|lia|].
    assert (Z.log2 b < k); [|lia]. apply Z.log2_lt_pow2; lia.
Qed.

Lemma be24_add l2 l1 l0 : byte_ok l1 → byte_ok l0 →
  Z.lor (Z.lor (Z.shiftl l2 16) (Z.shiftl l1 8)) l0 = Z.shiftl l2 16 + Z.shiftl l1 8 + l0.
Proof.
  unfold byte_ok. intros H1 H0. rewrite <- Z.lor_assoc, (lor_shift_add l1 l0 8) by lia.
  rewrite (lor_shift_add l2) by (rewrite ?Z.shiftl_mul_pow2 by lia; lia). lia.
Qed.

(** [handshake_done] in the terms the scanner keeps. *)
Lemma handshake_done_unfold t l2 l1 l0 body : bytes_ok (t :: l2 :: l1 :: l0 :: body) →
  handshake_done hash (t :: l2 :: l1 :: l0 :: body) =
  let hs := t :: l2 :: l1 :: l0 :: body in
  if negb (t =? 1) then Some (Err (NotClientHello t))
  else if maxClientHello <? msg_len hs then Some (Err TooLarge)
  else if msg_len hs <=? len hs then
    Some (let! info := parseExtensions (take (Z.to_nat (msg_len hs - 4)) body) in
          Ok (HelloInfo (SNI info) (SNIIP info) (ALPN info) (hash (take (Z.to_nat (msg_len hs)) hs))))
  else None.
Proof.
  intros Hb. apply Forall_cons in Hb as [Ht Hb]. apply Forall_cons in Hb as [H2 Hb].
  apply Forall_cons in Hb as [H1 Hb]. apply Forall_cons in Hb as [H0 Hb].
  unfold handshake_done, msg_len. rewrite be24_add by done.
  replace (4 + (Z.shiftl l2 16 + Z.shiftl l1 8 + l0)) with (4 + Z.shiftl l2 16 + Z.shiftl l1 8 + l0) by lia.
  replace (4 + Z.shiftl l2 16 + Z.shiftl l1 8 + l0 - 4) with (Z.shiftl l2 16 + Z.shiftl l1 8 + l0) by lia.
  done.
Qed.

(** The scanner's state stands for a state of [parse_records]: [hs] is the
    handshake message gathered so far, and parsing anything that starts with
    the bytes read comes to this state. *)
Definition scan_inv (st : scan) (data : bytes) : Prop := ∃ hs,
  bytes_ok hs ∧ header st = take 4 hs ∧ handshakeBytes st = len hs ∧ helloBytes st = msg_len hs ∧
  handshake_done hash hs = None ∧ 0 <= scanAt st <= len data ∧ scanAt st <= maxClientHello ∧
  ∀ more, parseHello hash (data ++ more) =
    parse_records hash (s_left st) hs (drop (Z.to_nat (scanAt st)) (data ++ more)) (scanAt st).

Lemma scan_inv_start data : scan_inv scan_start data.
Proof.
  exists []. cbn. repeat split; try done; try (unfold maxClientHello; lia). apply len_nonneg.
Qed.

Lemma scan_inv_app st data more : scan_inv st data → scan_inv st (data ++ more).
Proof.
  intros (hs & ? & ? & ? & ? & ? & ? & ? & Hp). exists hs. repeat split; try done; try len_lia.
  intros m. rewrite <- app_assoc. apply Hp.
Qed.

Lemma msg_len_app hs payload : (4 <= length hs)%nat → msg_len (hs ++ payload) = msg_len hs.
Proof. destruct hs as [|a [|b [|c [|d l]]]]; cbn; intros; try lia; done. Qed.

Lemma msg_len_short hs : (length hs < 4)%nat → msg_len hs = -1.
Proof. destruct hs as [|a [|b [|c [|d l]]]]; cbn; intros; try lia; done. Qed.

Lemma handshake_done_short hs : (length hs < 4)%nat → handshake_done hash hs = None.
Proof. destruct hs as [|a [|b [|c [|d l]]]]; cbn [length]; intros; try lia; done. Qed.

Lemma msg_len_nonneg hs : bytes_ok hs → (4 <= length hs)%nat → 0 <= msg_len hs.
Proof.
  destruct hs as [|a [|b [|c [|d l]]]]; cbn [length]; intros Hb ?; try lia.
  apply Forall_cons in Hb as [? Hb]. apply Forall_cons in Hb as [? Hb].
  apply Forall_cons in Hb as [? Hb]. apply Forall_cons in Hb as [? Hb].
  unfold byte_ok, msg_len in *. rewrite !Z.shiftl_mul_pow2 by lia. lia.
Qed.

Lemma handshake_done_pass t l2 l1 l0 l : let hs := t :: l2 :: l1 :: l0 :: l in
  bytes_ok hs → t = 1 → msg_len hs <= maxClientHello →
  if (0 <=? msg_len hs) && (msg_len hs <=? len hs)
  then ∃ r, handshake_done hash hs = Some r else handshake_done hash hs = None.
Proof.
  intros hs Hb -> Hm. pose proof (msg_len_nonneg hs Hb ltac:(unfold hs; cbn; lia)).
  unfold hs in *. rewrite handshake_done_unfold by done. cbn zeta.
  destruct (Z.leb_spec 0 (msg_len (1 :: l2 :: l1 :: l0 :: l))); [|lia]. cbn [negb Z.eqb Pos.eqb andb].
  destruct (Z.ltb_spec maxClientHello (msg_len (1 :: l2 :: l1 :: l0 :: l))); [lia|].
  destruct (msg_len _ <=? len _); eauto.
Qed.

Lemma scan_header_spec st hs payload :
  bytes_ok (hs ++ payload) → handshake_done hash hs = None →
  header st = take 4 hs → helloBytes st = msg_len hs →
  match scan_header st payload with
  | Err e => handshake_done hash (hs ++ payload) = Some (Err e)
  | Ok (h', hb) => h' = take 4 (hs ++ payload) ∧ hb = msg_len (hs ++ payload) ∧
      if (0 <=? hb) && (hb <=? len (hs ++ payload))
      then ∃ r, handshake_done hash (hs ++ payload) = Some r
      else handshake_done hash (hs ++ payload) = None
  end.
Proof.
  intros Hb Hd Hh Hl. unfold scan_header. rewrite Hh, length_take.
  destruct (Nat.ltb_spec (4 `min` length hs) 4) as [Hs|Hs].
  - assert (length hs < 4)%nat as Hlt by lia.
    replace (4 - 4 `min` length hs)%nat with (4 - length hs)%nat by lia. rewrite <- take_app.
    destruct (take 4 (hs ++ payload)) as [|t [|l2 [|l1 [|l0 l]]]] eqn:Et.
    1-4: assert (length (hs ++ payload) < 4)%nat as Hs'
           by (apply (f_equal length) in Et; rewrite length_take in Et; cbn [length] in Et; lia).
    1-4: rewrite Hl, !msg_len_short by done; cbn; split; [done|]; split; [done|by apply handshake_done_short].
    assert (∃ k, hs ++ payload = t :: l2 :: l1 :: l0 :: k ∧ l = []) as (k & Ek & ->).
    { destruct (hs ++ payload) as [|? [|? [|? [|? k]]]]; try done. injection Et as -> -> -> -> <-.
      destruct k; eauto. }
    rewrite Ek in *. destruct (Z.eqb_spec t 1) as [Ht|Ht]; cbn [negb].
    + destruct (Z.ltb_spec maxClientHello (4 + Z.shiftl l2 16 + Z.shiftl l1 8 + l0)) as [Hm|Hm].
      * rewrite handshake_done_unfold by done. cbn zeta. subst t. cbn [negb Z.eqb Pos.eqb].
        change (msg_len (1 :: l2 :: l1 :: l0 :: k)) with (4 + Z.shiftl l2 16 + Z.shiftl l1 8 + l0).
        destruct (Z.ltb_spec maxClientHello (4 + Z.shiftl l2 16 + Z.shiftl l1 8 + l0)); [done|lia].
      * split; [done|]. split; [done|]. by apply handshake_done_pass.
    + rewrite handshake_done_unfold by done. cbn zeta. by destruct (Z.eqb_spec t 1).
  - assert (4 <= length hs)%nat as Hlt by lia.
    assert (bytes_ok hs) as Hbh by (apply Forall_app in Hb; tauto).
    rewrite Hl. split; [by rewrite take_app_le|]. split; [by rewrite msg_len_app|].
    rewrite <- (msg_len_app hs payload) by done.
    destruct hs as [|t [|l2 [|l1 [|l0 l]]]]; cbn [length] in Hlt; try lia.
    cbn [app] in *. rewrite handshake_done_unfold in Hd by done. cbn zeta in Hd.
    destruct (Z.eqb_spec t 1) as [->|]; cbn [negb] in Hd; [|done].
    apply handshake_done_pass; [done..|].
    change (msg_len (1 :: l2 :: l1 :: l0 :: l ++ payload)) with (msg_len (1 :: l2 :: l1 :: l0 :: l)).
    destruct (Z.ltb_spec maxClientHello (msg_len (1 :: l2 :: l1 :: l0 :: l))); [done|lia].
Qed.

(** The bytes from [scanAt] on, with more to come. *)
Lemma drop_scan (data more : bytes) n : 0 <= n <= len data →
  drop (Z.to_nat n) (data ++ more) = drop (Z.to_nat n) data ++ more.
Proof. intros. apply drop_app_le. len_lia. Qed.

(** One complete record is consumed. *)
Lemma parse_records_step left hs r2 r3 r4 tl c :
  handshake_done hash hs = None → be16 r3 r4 ≠ 0 → c + 5 + be16 r3 r4 <= maxClientHello →
  0 <= be16 r3 r4 <= len tl →
  parse_records hash (S left) hs (22 :: 3 :: r2 :: r3 :: r4 :: tl) c =
  parse_records hash left (hs ++ take (Z.to_nat (be16 r3 r4)) tl) (drop (Z.to_nat (be16 r3 r4)) tl)
    (c + 5 + be16 r3 r4).
Proof.
  intros Hd Hn Hm Hl. cbn [parse_records]. rewrite Hd. cbn [negb Z.eqb Pos.eqb].
  destruct (Z.eqb_spec (be16 r3 r4) 0); [done|].
  destruct (Z.ltb_spec maxClientHello (c + 5 + be16 r3 r4)); [lia|].
  destruct (Z.ltb_spec (len (22 :: 3 :: r2 :: r3 :: r4 :: tl)) (5 + be16 r3 r4)); [len_lia|done].
Qed.

(** What one call of the inner loop achieves: a verdict, which is the
    parser's, or more bytes are needed and the parser agrees; then the bytes
    held are fewer than the largest ClientHello and one record header. *)
Lemma scan_records_spec left st data st' out :
  bytes_ok data → scan_inv st data → left = s_left st →
  scan_records hash left st data = (st', out) →
  match out with
  | Some r => parseHello hash data = r ∧ r ≠ Err NeedMore
  | None => scan_inv st' data ∧ parseHello hash data = Err NeedMore ∧ len data < maxClientHello + 5
  end.
Proof.
  intros Hb. revert st st' out; induction left as [|left IH];
    intros st st' out (hs & Hbs & Hh & Hn & Hl & Hd & Hat & Hmax & Hp) Hleft Hscan;
    cbn [scan_records] in Hscan; rewrite <- Hleft in Hp.
  all: assert (scan_inv st data) as Hinv by (exists hs; rewrite <- Hleft; done).
  all: pose proof (Hp []) as Hp0; rewrite app_nil_r in Hp0.
  all: assert (len (drop (Z.to_nat (scanAt st)) data) = len data - scanAt st) as Hlen by (by apply len_drop).
  all: assert (bytes_ok (drop (Z.to_nat (scanAt st)) data)) as Hbd by (by apply Forall_drop).
  all: destruct (drop (Z.to_nat (scanAt st)) data) as [|r0 [|r1 [|r2 [|r3 [|r4 tl]]]]] eqn:Ed;
    cbn [parse_records] in Hp0; rewrite Hd in Hp0.
  all: try (injection Hscan as <- <-; split; [done|]; split; [done|]; len_lia).
  all: destruct (Z.eqb_spec r0 22) as [->|]; cbn [negb] in *; [|by injection Hscan as <- <-].
  all: try (injection Hscan as <- <-; split; [done|]; split; [done|]; len_lia).
  1: by injection Hscan as <- <-.
  destruct (Z.eqb_spec r1 3) as [->|]; cbn [negb] in *; [|by injection Hscan as <- <-].
  set (n := be16 r3 r4) in *.
  destruct (Z.eqb_spec n 0) as [|Hn0]; [by injection Hscan as <- <-|].
  destruct (Z.ltb_spec maxClientHello (scanAt st + 5 + n)); [by injection Hscan as <- <-|].
  assert (0 <= n) as Hnpos.
  { apply Forall_cons in Hbd as [_ Hbd]. apply Forall_cons in Hbd as [_ Hbd].
    apply Forall_cons in Hbd as [_ Hbd]. apply Forall_cons in Hbd as [? Hbd].
    apply Forall_cons in Hbd as [? Hbd]. by apply be16_range. }
  destruct (Z.ltb_spec (len data) (scanAt st + 5 + n)).
  { injection Hscan as <- <-. destruct (Z.ltb_spec (len (22 :: 3 :: r2 :: r3 :: r4 :: tl)) (5 + n)); [|lia].
    split; [done|]. split; [done|]. lia. }
  destruct (Z.ltb_spec (len (22 :: 3 :: r2 :: r3 :: r4 :: tl)) (5 + n)); [lia|].
  set (payload := take (Z.to_nat n) tl) in *.
  assert (bytes_ok (hs ++ payload)) as Hbp.
  { apply Forall_app; split; [done|]. apply Forall_take. by do 5 apply Forall_cons in Hbd as [_ Hbd]. }
  assert (len payload = n) as Hpl by (apply len_take; len_lia).
  pose proof (scan_header_spec st hs payload Hbp Hd Hh Hl) as Hstep.
  destruct (scan_header st payload) as [[h' hb]|e].
  2:{ injection Hscan as <- <-. split; [|by intros [= ->]; eapply handshake_done_more].
      rewrite Hp0. destruct left; cbn [parse_records]; by rewrite Hstep. }
  destruct Hstep as (-> & -> & Hstep).
  assert (len (hs ++ payload) = handshakeBytes st + n) as Hlp by (rewrite len_app; lia).
  rewrite <- Hlp in Hscan.
  destruct ((0 <=? msg_len (hs ++ payload)) && (msg_len (hs ++ payload) <=? len (hs ++ payload))).
  - injection Hscan as <- <-. destruct Hstep as [r Hr]. split; [done|].
    rewrite Hp0. destruct left; cbn [parse_records]; rewrite Hr; intros ->; by eapply handshake_done_more.
  - eapply IH in Hscan; [exact Hscan| |done].
    exists (hs ++ payload). cbn [header handshakeBytes helloBytes scanAt s_left].
    split; [done|]. do 3 (split; [done|]). split; [done|]. split; [lia|]. split; [lia|].
    intros more. rewrite (Hp more). rewrite !drop_scan by lia. rewrite Ed. cbn [app].
    assert (drop (Z.to_nat (scanAt st + 5 + n)) data = drop (Z.to_nat n) tl) as ->.
    { replace (Z.to_nat (scanAt st + 5 + n)) with (Z.to_nat (scanAt st) + (5 + Z.to_nat n))%nat by lia.
      rewrite <- drop_drop, Ed. done. }
    fold n. rewrite parse_records_step by (done || len_lia).
    unfold payload. rewrite take_app_le, drop_app_le by len_lia. done.
Qed.


(** All the bytes a connection delivers. *)
Definition conn_bytes (c : conn) : bytes := concat (fst <$> c).

Lemma conn_read_spec room c : 0 < room →
  let '(b, e, c') := conn_read room c in
  conn_bytes c = b ++ conn_bytes c' ∧ len b <= room ∧
  (e = None → (conn_size c' < conn_size c)%nat).
Proof.
  intros Hr. destruct c as [|[b e] c]; cbn; [repeat split; done || unfold len; cbn; lia|].
  destruct (Z.leb_spec (len b) room).
  - split; [done|]. split; [done|]. intros _. unfold conn_size; cbn. lia.
  - unfold conn_bytes, conn_size; cbn. rewrite app_assoc, take_drop. split; [done|].
    split; [rewrite len_take; lia|]. intros _. rewrite length_drop. unfold len in *. lia.
Qed.

(** What was read is a prefix of what the connection delivers. *)
Lemma read_loop_prefix fuel cap st data c : (read_loop hash fuel cap st data c).2 `prefix_of` data ++ conn_bytes c.
Proof.
  revert cap st data c; induction fuel as [|fuel IH]; intros cap st data c; cbn [read_loop]; [by apply prefix_app_r|].
  destruct (_ && _); [by apply prefix_app_r|].
  match goal with |- context [conn_read ?room c] => assert (conn_bytes c = (conn_read room c).1.1 ++ conn_bytes (conn_read room c).2) as Hc;
    [|destruct (conn_read room c) as [[chunk rerr] c']; cbn in Hc] end.
  { destruct c as [|[b e] c]; [done|]. cbn. destruct (_ <=? _); [done|]. cbn. unfold conn_bytes. cbn. by rewrite app_assoc, take_drop. }
  rewrite Hc, app_assoc. assert (data ++ chunk `prefix_of` (data ++ chunk) ++ conn_bytes c') as Hpre by (by apply prefix_app_r).
  destruct (if 0 <? len chunk then _ else _) as [st' [r|]]; [done|].
  by destruct rerr as [[| |]|].
Qed.

Definition read_spec (all : bytes) (o : read_out) (data : bytes) : Prop :=
  data `prefix_of` all ∧
  match o with
  | RParse r => parseHello hash data = r ∧ r ≠ Err NeedMore
  | RClosed | RIO _ => parseHello hash data = Err NeedMore
  | RBufferFull => False
  end.

(** A read, whether or not it brought anything. *)
Lemma scan_chunk_spec st data chunk :
  bytes_ok (data ++ chunk) → scan_inv st data → parseHello hash data = Err NeedMore →
  len data < maxClientHello + 5 →
  match (if 0 <? len chunk then scan_records hash (s_left st) st (data ++ chunk) else (st, None)) with
  | (_, Some r) => parseHello hash (data ++ chunk) = r ∧ r ≠ Err NeedMore
  | (st', None) => scan_inv st' (data ++ chunk) ∧ parseHello hash (data ++ chunk) = Err NeedMore ∧
                   len (data ++ chunk) < maxClientHello + 5
  end.
Proof.
  intros Hb Hinv Hmore Hlen. destruct (Z.ltb_spec 0 (len chunk)) as [Hc|Hc].
  - destruct (scan_records hash (s_left st) st (data ++ chunk)) as [st' done] eqn:Es.
    apply scan_records_spec in Es; [|done|by apply scan_inv_app|done]. by destruct done.
  - assert (chunk = []) as -> by (apply len_nil_inv; pose proof (len_nonneg chunk); lia).
    by rewrite app_nil_r.
Qed.

Lemma read_loop_spec fuel cap st data c :
  bytes_ok (data ++ conn_bytes c) → scan_inv st data → parseHello hash data = Err NeedMore →
  len data < maxClientHello + 5 → len data <= cap → 0 <= cap → (conn_size c < fuel)%nat →
  let '(o, data') := read_loop hash fuel cap st data c in
  read_spec (data ++ conn_bytes c) o data'.
Proof.
  revert cap st data c; induction fuel as [|fuel IH]; intros cap st data c Hb Hinv Hmore Hlen Hcap Hpos Hfuel;
    [lia|]. cbn [read_loop].
  destruct (Z.eqb_spec (len data) cap) as [Heq|Hne]; cbn [andb];
    [destruct (Z.ltb_spec (maxClientHello + 16) cap); [lia|]|].
  all: match goal with |- context [conn_read ?room ?k] =>
    assert (0 < room) as Hroom0 by lia; pose proof (conn_read_spec room k Hroom0) as Hr;
    destruct (conn_read room k) as [[chunk rerr] c'] end.
  all: destruct Hr as (Hc & Hroom & Hsize); rewrite Hc, app_assoc in Hb |- *.
  all: assert (bytes_ok (data ++ chunk)) as Hbd by (apply Forall_app in Hb; tauto).
  all: assert (data ++ chunk `prefix_of` (data ++ chunk) ++ conn_bytes c') as Hpre by (by apply prefix_app_r).
  all: pose proof (scan_chunk_spec st data chunk Hbd Hinv Hmore Hlen) as Hs.
  all: destruct (if 0 <? len chunk then _ else _) as [st' [r|]]; [done|].
  all: destruct Hs as (Hinv' & Hmore' & Hlen').
  all: destruct rerr as [[| |]|]; try done.
  all: apply IH; try done; try (specialize (Hsize eq_refl); lia); try (rewrite ?len_app in *; lia).
Qed.
End HelloFacts.

(** * A reference encoder of ClientHellos *)

Definition put_vec8 (b : bytes) : bytes := len b :: b.
Definition put_vec16 (b : bytes) : bytes := put_be16 (len b) ++ b.
Definition put_ext (e : Z * bytes) : bytes := put_be16 e.1 ++ put_vec16 e.2.
Definition sni_ext (name : bytes) : Z * bytes := (0, put_vec16 (0 :: put_vec16 name)).
Definition alpn_ext (protos : list bytes) : Z * bytes := (16, put_vec16 (concat (put_vec8 <$> protos))).

(** The body of a ClientHello (RFC 8446, 4.1.2). *)
Definition hello_body (version random sid ciphers comps : bytes) (exts : list (Z * bytes)) : bytes :=
  version ++ random ++ put_vec8 sid ++ put_vec16 ciphers ++ put_vec8 comps ++
  put_vec16 (concat (put_ext <$> exts)).
Definition hello_msg (body : bytes) : bytes :=
  1 :: u8 (Z.shiftr (len body) 16) :: u8 (Z.shiftr (len body) 8) :: u8 (len body) :: body.
(** One TLS record around a piece of the handshake message. *)
Definition tls_record (b : bytes) : bytes := [22; 3; 1] ++ put_vec16 b.

Lemma u8_ok n : byte_ok (u8 n).
Proof. unfold byte_ok, u8. apply Z.mod_pos_bound; lia. Qed.

Lemma take_n_app b k : take_n (len b) (Cursor (b ++ k) false) = (b, Cursor k false).
Proof.
  unfold take_n; cbn [c_bad c_b orb].
  destruct (Z.ltb_spec (len (b ++ k)) (len b)); [len_lia|]. by rewrite take_len_app, drop_len_app.
Qed.

Lemma c_u8_cons x k : c_u8 (Cursor (x :: k) false) = (x, Cursor k false).
Proof. unfold c_u8. change (x :: k) with ([x] ++ k). by rewrite (take_n_app [x]). Qed.

Lemma vec8_put b k : vec8 (Cursor (put_vec8 b ++ k) false) = (b, Cursor k false).
Proof.
  unfold vec8, put_vec8. cbn [app]. rewrite c_u8_cons. apply take_n_app.
Qed.

Lemma c_u16_put n k : 0 <= n < 65536 → c_u16 (Cursor (put_be16 n ++ k) false) = (n, Cursor k false).
Proof.
  intros Hn. unfold c_u16. change 2 with (len (put_be16 n)). rewrite take_n_app. cbn.
  by rewrite be16_put.
Qed.

Lemma vec16_put b k : len b < 65536 → vec16 (Cursor (put_vec16 b ++ k) false) = (b, Cursor k false).
Proof.
  intros Hb. unfold vec16, put_vec16. rewrite <- app_assoc, c_u16_put by (pose proof (len_nonneg b); lia).
  apply take_n_app.
Qed.

Lemma alpn_loop_put protos acc fuel : (length (concat (put_vec8 <$> protos)) <= fuel)%nat →
  alpn_loop fuel (Cursor (concat (put_vec8 <$> protos)) false) acc = (acc ++ protos, Cursor [] false).
Proof.
  revert acc fuel; induction protos as [|p ps IH]; intros acc fuel Hf; cbn.
  - rewrite app_nil_r. by destruct fuel.
  - cbn [fmap list_fmap concat] in Hf. unfold put_vec8 in Hf at 1. cbn [app length] in Hf.
    destruct fuel as [|fuel]; [lia|]. cbn [alpn_loop c_b].
    change (len p :: p ++ concat (put_vec8 <$> ps)) with (put_vec8 p ++ concat (put_vec8 <$> ps)).
    rewrite vec8_put. cbn [c_bad]. rewrite IH by (rewrite length_app in Hf; lia).
    by rewrite <- app_assoc.
Qed.

Lemma ext_loop_put e exts fuel seen info : 0 <= e.1 < 65536 → len e.2 < 65536 →
  ext_loop (S fuel) (Cursor (put_ext e ++ exts) false) seen info =
  if e.1 =? 0 then
    if seen then ext_loop fuel (Cursor exts false) seen info
    else let! i := ext_server_name e.2 info in ext_loop fuel (Cursor exts false) true i
  else if e.1 =? 16 then
    let! i := ext_alpn e.2 info in ext_loop fuel (Cursor exts false) seen i
  else ext_loop fuel (Cursor exts false) seen info.
Proof.
  intros Ht Hd. cbn [ext_loop c_b].
  unfold put_ext. rewrite <- app_assoc.
  destruct (Z.eqb_spec (len (put_be16 e.1 ++ put_vec16 e.2 ++ exts)) 0) as [H0|_].
  { len_lia. }
  rewrite c_u16_put, vec16_put by done. done.
Qed.

Definition host_name (name : bytes) : Prop :=
  1 <= len name <= 253 ∧ Forall (fun b => isHostChar b = true) name ∧ parse_addr name = None.

Lemma ext_server_name_put name info : host_name name →
  ext_server_name (put_vec16 (0 :: put_vec16 name)) info =
  Ok (HelloInfo (to_lower name) (SNIIP info) (ALPN info) (Digest info)).
Proof.
  intros ([Hl1 Hl2] & Hc & Ha). unfold ext_server_name.
  rewrite <- (app_nil_r (put_vec16 (0 :: put_vec16 name))), vec16_put
    by (unfold put_vec16; len_lia).
  cbn [c_bad length sni_loop c_b].
  destruct (Z.eqb_spec (len (0 :: put_vec16 name)) 0) as [H0|_]; [len_lia|].
  rewrite c_u8_cons. rewrite <- (app_nil_r (put_vec16 name)), vec16_put by lia.
  cbn [c_bad negb Z.eqb]. rewrite Ha.
  destruct (Z.eqb_spec (len name) 0); [lia|]. destruct (Z.ltb_spec 253 (len name)); [lia|]. cbn [orb].
  assert (forallb isHostChar name = true) as ->.
  { apply forallb_forall. intros x Hx. apply list_elem_of_In in Hx. by eapply Forall_forall in Hc. }
  done.
Qed.

Lemma ext_alpn_put protos info : len (concat (put_vec8 <$> protos)) < 65536 →
  ext_alpn (put_vec16 (concat (put_vec8 <$> protos))) info =
  Ok (HelloInfo (SNI info) (SNIIP info) (ALPN info ++ protos) (Digest info)).
Proof.
  intros Hl. unfold ext_alpn. rewrite <- (app_nil_r (put_vec16 _)), vec16_put by done.
  cbn [c_bad]. rewrite alpn_loop_put by done. done.
Qed.

(** Extensions the parser does not look at. *)
Definition ext_other (e : Z * bytes) : Prop :=
  0 <= e.1 < 65536 ∧ e.1 ≠ 0 ∧ e.1 ≠ 16 ∧ len e.2 < 65536.

Lemma ext_loop_others others exts fuel seen info : Forall ext_other others →
  ext_loop (length others + fuel) (Cursor (concat (put_ext <$> others) ++ exts) false) seen info =
  ext_loop fuel (Cursor exts false) seen info.
Proof.
  induction 1 as [|e es (Ht & H0 & H16 & Hl) _ IH]; [done|].
  cbn [length Nat.add fmap list_fmap concat]. rewrite <- app_assoc, ext_loop_put by done.
  destruct (Z.eqb_spec e.1 0); [done|]. destruct (Z.eqb_spec e.1 16); [done|]. apply IH.
Qed.

Lemma put_ext_length e : (4 <= length (put_ext e))%nat.
Proof. unfold put_ext, put_vec16. rewrite !length_app. cbn. lia. Qed.
Lemma put_exts_length es : (length es <= length (concat (put_ext <$> es)))%nat.
Proof.
  induction es as [|e es IH]; cbn; [lia|]. rewrite length_app. pose proof (put_ext_length e). lia.
Qed.

Record hello_fields := HelloFields {
  hf_version : bytes; hf_random : bytes; hf_sid : bytes; hf_ciphers : bytes; hf_comps : bytes;
  hf_others : list (Z * bytes);
}.
Definition hello_of (f : hello_fields) (name : bytes) (protos : list bytes) : bytes :=
  hello_body (hf_version f) (hf_random f) (hf_sid f) (hf_ciphers f) (hf_comps f)
    (hf_others f ++ [sni_ext name; alpn_ext protos]).
Definition hello_fields_ok (f : hello_fields) : Prop :=
  len (hf_version f) = 2 ∧ len (hf_random f) = 32 ∧ len (hf_ciphers f) < 65536 ∧
  Forall ext_other (hf_others f).

Lemma parseExtensions_hello f name protos :
  hello_fields_ok f → host_name name → len (hello_of f name protos) < 65536 →
  parseExtensions (hello_of f name protos) = Ok (HelloInfo (to_lower name) AddrZero protos 0).
Proof.
  intros (Hv & Hr & Hc & Ho) Hname Hlen. unfold parseExtensions, hello_of, hello_body in *.
  set (es := hf_others f ++ [sni_ext name; alpn_ext protos]) in *.
  assert (len (concat (put_ext <$> es)) < 65536 - 40) as Hes.
  { unfold put_vec8, put_vec16 in Hlen. len_lia. }
  rewrite <- Hv, take_n_app, <- Hr, take_n_app, vec8_put, vec16_put, vec8_put by done.
  cbn [c_bad c_b]. destruct (Z.eqb_spec (len (put_vec16 (concat (put_ext <$> es)))) 0) as [H0|_].
  { unfold put_vec16 in H0. len_lia. }
  rewrite <- (app_nil_r (put_vec16 _)), vec16_put by lia. cbn [c_bad].
  assert (len (sni_ext name).2 < 65536 ∧ len (alpn_ext protos).2 < 65536) as [Hs Ha].
  { unfold es in Hes. rewrite fmap_app, concat_app in Hes. cbn [fmap list_fmap concat] in Hes.
    unfold put_ext in Hes. rewrite !app_nil_r, !len_app in Hes. unfold put_vec16 in Hes.
    rewrite !len_app in Hes. unfold len in *. lia. }
  rewrite (ext_loop_fuel _ (length (hf_others f) + S (S (length (concat (put_ext <$> es)))))) by (cbn; lia).
  generalize (length (concat (put_ext <$> es))) as n; intros n.
  unfold es. rewrite fmap_app, concat_app, ext_loop_others by done. cbn [fmap list_fmap concat].
  rewrite ext_loop_put by (cbn; lia || done). cbn [sni_ext fst snd Z.eqb].
  rewrite ext_server_name_put by done.
  rewrite ext_loop_put by (cbn; lia || done). cbn [alpn_ext fst snd Z.eqb].
  rewrite ext_alpn_put by (unfold alpn_ext, put_vec16 in Ha; cbn [snd] in Ha; len_lia).
  by destruct n.
Qed.

(** ** Framing the message in records *)

Section Framing.
Context (hash : bytes → Z).

Definition frames (frags : list bytes) : bytes := concat (tls_record <$> frags).

Lemma hello_msg_be24 (body : bytes) : len body < 2 ^ 24 →
  Z.lor (Z.lor (Z.shiftl (u8 (Z.shiftr (len body) 16)) 16) (Z.shiftl (u8 (Z.shiftr (len body) 8)) 8))
    (u8 (len body)) = len body.
Proof.
  intros Hl. pose proof (len_nonneg body). rewrite be24_add by apply u8_ok.
  unfold u8. rewrite !Z.shiftl_mul_pow2, !Z.shiftr_div_pow2 by lia.
  change (2 ^ 16) with (256 * 256). change (2 ^ 8) with 256. change (2 ^ 24) with (256 * 256 * 256) in Hl.
  rewrite <- (Z.div_div (len body) 256 256) by lia.
  set (n := len body) in *. set (q := n / 256). set (r := q / 256).
  assert (0 <= r < 256) as Hr.
  { unfold r, q. split; [apply Z.div_pos; [apply Z.div_pos; lia|lia]|].
    apply Z.div_lt_upper_bound; [lia|]. apply Z.div_lt_upper_bound; lia. }
  rewrite (Z.mod_small r) by lia.
  pose proof (Z.div_mod n 256). pose proof (Z.div_mod q 256). fold q in H0. fold r in H1. lia.
Qed.

Lemma handshake_done_msg (body : bytes) : len body + 4 <= maxClientHello →
  handshake_done hash (hello_msg body) =
  Some (let! info := parseExtensions body in
        Ok (HelloInfo (SNI info) (SNIIP info) (ALPN info) (hash (hello_msg body)))).
Proof.
  unfold maxClientHello. intros Hl. unfold handshake_done, hello_msg.
  rewrite hello_msg_be24 by lia. cbn [negb Z.eqb Pos.eqb].
  destruct (Z.ltb_spec maxClientHello (4 + len body)); [unfold maxClientHello in *; lia|].
  destruct (Z.leb_spec (4 + len body) (len (1 :: u8 (Z.shiftr (len body) 16) :: u8 (Z.shiftr (len body) 8) :: u8 (len body) :: body))); [|len_lia].
  rewrite (take_ge body) by len_lia. rewrite (take_ge (1 :: _)) by (unfold len; cbn [length]; lia). done.
Qed.

Lemma handshake_done_prefix (body hs k : bytes) : len body + 4 <= maxClientHello →
  hs ++ k = hello_msg body → k ≠ [] → handshake_done hash hs = None.
Proof.
  unfold maxClientHello. intros Hl Heq Hk.
  destruct hs as [|t [|l2 [|l1 [|l0 l]]]]; [done..|].
  unfold hello_msg in Heq. cbn [app] in Heq. injection Heq as -> -> -> -> Hb.
  unfold handshake_done. rewrite hello_msg_be24 by lia. cbn [negb Z.eqb Pos.eqb].
  destruct (Z.ltb_spec maxClientHello (4 + len body)); [unfold maxClientHello in *; lia|].
  match goal with |- context [Z.leb ?a ?b] => destruct (Z.leb_spec a b) as [Hle|] end; [|done].
  rewrite <- Hb in Hle. destruct k; [done|]. len_lia.
Qed.

Lemma parse_frames (body : bytes) frags left hs more c :
  len body + 4 <= maxClientHello → hs ++ concat frags = hello_msg body →
  Forall (fun b => b ≠ []) frags → (length frags <= left)%nat → 0 <= c →
  c + 5 * len frags + len (concat frags) <= maxClientHello →
  parse_records hash left hs (frames frags ++ more) c =
  (let! info := parseExtensions body in
   Ok (HelloInfo (SNI info) (SNIIP info) (ALPN info) (hash (hello_msg body)))).
Proof.
  intros Hl. revert left hs c; induction frags as [|b frags IH]; intros left hs c Heq Hne Hleft Hc Hmax.
  - cbn in Heq. rewrite app_nil_r in Heq. subst hs.
    destruct left; cbn [parse_records]; by rewrite handshake_done_msg.
  - apply Forall_cons in Hne as [Hb Hne]. cbn [length] in Hleft. destruct left as [|left]; [lia|].
    cbn [concat] in Heq, Hmax. rewrite len_cons, len_app in Hmax.
    assert (0 < len b) by (destruct b; [done|len_lia]).
    pose proof (len_nonneg frags). pose proof (len_nonneg (concat frags)).
    assert (len b < 65536) by (unfold maxClientHello in Hmax; lia).
    unfold frames, tls_record, put_vec16. cbn [fmap list_fmap concat app].
    rewrite <- !app_assoc. unfold put_be16. cbn [app].
    rewrite parse_records_step; rewrite ?be16_put by lia; [|by eapply handshake_done_prefix; [done|exact Heq|destruct b]|lia|lia|len_lia].
    rewrite take_len_app, drop_len_app. apply IH; try done; try lia. by rewrite <- app_assoc.
Qed.
End Framing.

(** * Properties *)

(** C1: reading a ClientHello incrementally, however the network cuts it into
    segments and whatever the size of the pooled buffer, gives the verdict of
    the one-shot parser on the bytes read, never a premature or missed one:
    the reader asks for more exactly while the parser does, what it holds is
    a prefix of the stream, and its buffer's size limit is never what ends
    it. *)
Theorem readHello_parseHello hash cap c :
  0 <= cap → bytes_ok (conn_bytes c) →
  let '(o, data) := readHello hash cap c in
  data `prefix_of` conn_bytes c ∧
  match o with
  | RParse r => parseHello hash data = r ∧ r ≠ Err NeedMore
  | RClosed | RIO _ => parseHello hash data = Err NeedMore
  | RBufferFull => False
  end.
Proof.
  intros Hcap Hb. unfold readHello.
  pose proof (read_loop_spec hash (S (conn_size c)) cap scan_start [] c) as H.
  destruct (read_loop _ _ _ _ _ _) as [o data]. cbn [app] in H.
  apply H; try done; [apply scan_inv_start|cbn; lia].
Qed.

(** A verdict of the parser is final: whatever follows the bytes it was
    reached on, it stays the same. *)
Theorem parseHello_stable hash data more :
  parseHello hash data ≠ Err NeedMore → parseHello hash (data ++ more) = parseHello hash data.
Proof. apply parse_records_app. Qed.

(** The server name that routes a connection is absent, or a lowercase
    host name of 1 to 253 bytes that is not an IP address in any spelling; an
    address the client sent as its name is kept apart, unmapped and without a
    zone, and then there is no server name. *)
Theorem parseHello_sni_valid hash data info :
  parseHello hash data = Ok info →
  (SNI info = [] ∨
   (1 <= len (SNI info) <= 253 ∧ Forall sni_char (SNI info) ∧ parse_addr (SNI info) = None
    ∧ SNIIP info = AddrZero)) ∧
  zone (SNIIP info) = [] ∧ is4in6 (SNIIP info) = false.
Proof.
  intros H. apply parse_records_ok in H as ([?|[(?&?&?) ?]] & ? & ?); auto 6.
Qed.

(** However a ClientHello is cut into TLS records (at most 32, none
    empty, 64 KiB in all) and whatever follows it, the parser finds the
    server name, lowercased, the offered protocols in order, and the hash of
    the handshake message alone. *)
Theorem parseHello_fragmented hash f name protos frags more :
  hello_fields_ok f → host_name name →
  concat frags = hello_msg (hello_of f name protos) →
  Forall (fun b => b ≠ []) frags → (length frags <= maxClientHelloRecords)%nat →
  5 * len frags + len (concat frags) <= maxClientHello →
  parseHello hash (frames frags ++ more) =
  Ok (HelloInfo (to_lower name) AddrZero protos (hash (concat frags))).
Proof.
  intros Hf Hn Hc Hne Hr Hm.
  assert (len (hello_of f name protos) + 4 <= maxClientHello).
  { rewrite Hc in Hm. unfold hello_msg in Hm. len_lia. }
  unfold parseHello. rewrite (parse_frames hash (hello_of f name protos)); try done.
  rewrite parseExtensions_hello, Hc; [done..|unfold maxClientHello in *; lia].
Qed.

(** ** Witnesses *)

Definition w_fields : hello_fields :=
  HelloFields [3; 3] (replicate 32 7) [1; 2; 3] [19; 1; 19; 2] [0] [(10, [0; 2; 0; 29])].
Definition w_hello : bytes := hello_msg (hello_of w_fields (lit "Www.Example.com") [lit "h2"; lit "http/1.1"]).
Definition w_frags : list bytes := [take 3 w_hello; take 60 (drop 3 w_hello); drop 63 w_hello].
Definition w_stream : bytes := frames w_frags ++ [23; 3; 3].

Lemma parseHello_fragmented_witness :
  parseHello len w_stream =
  Ok (HelloInfo (lit "www.example.com") AddrZero [lit "h2"; lit "http/1.1"] (len w_hello)).
Proof.
  refine (eq_trans (parseHello_fragmented len w_fields (lit "Www.Example.com") [lit "h2"; lit "http/1.1"]
    w_frags [23; 3; 3] _ _ _ _ _ _) _).
  - repeat split; [repeat constructor; discriminate].
  - unfold host_name. apply (bool_decide_unpack _). vm_compute. reflexivity.
  - vm_compute. reflexivity.
  - apply (bool_decide_unpack _). vm_compute. reflexivity.
  - apply (bool_decide_unpack _). vm_compute. reflexivity.
  - apply Z.leb_le. vm_compute. reflexivity.
  - vm_compute. reflexivity.
Defined.

Lemma readHello_parseHello_witness :
  let c := [(take 2 w_stream, None); (drop 2 w_stream, None)] in
  (readHello len 16 c).1 = RParse (parseHello len (readHello len 16 c).2)
  ∧ (let '(o, data) := readHello len 16 c in
     data `prefix_of` conn_bytes c ∧
     match o with
     | RParse r => parseHello len data = r ∧ r ≠ Err NeedMore
     | RClosed | RIO _ => parseHello len data = Err NeedMore
     | RBufferFull => False
     end).
Proof.
  split; [vm_compute; reflexivity|].
  apply (readHello_parseHello len 16); [lia|].
  apply (bool_decide_unpack _). vm_compute. reflexivity.
Defined.

Lemma parseHello_stable_witness :
  parseHello len (w_stream ++ [1; 2; 3]) = parseHello len w_stream.
Proof. apply (parseHello_stable len w_stream [1; 2; 3]). vm_compute. discriminate. Defined.

Lemma parseHello_sni_valid_witness : ∃ info,
  parseHello len w_stream = Ok info ∧ SNI info = lit "www.example.com" ∧
  (SNI info = [] ∨
   (1 <= len (SNI info) <= 253 ∧ Forall sni_char (SNI info) ∧ parse_addr (SNI info) = None
    ∧ SNIIP info = AddrZero)) ∧ zone (SNIIP info) = [] ∧ is4in6 (SNIIP info) = false.
Proof.
  eexists. split; [vm_compute; reflexivity|]. split; [reflexivity|].
  apply (parseHello_sni_valid len w_stream). vm_compute. reflexivity.
Defined.
