(* ===== verification/ProxyProto.v ===== *)
(** ProxyProto: the PROXY protocol headers ([proxy_protocol.go]), written in
    front of an upstream connection and read in front of an inbound one. *)

From S2P Require Import Prelude GoStr NetIP NetIPText.

Definition proxyV1Prefix : bytes := lit "PROXY ".
Definition proxyV1MaxLen : nat := 108.
Definition proxyV2Sig : bytes := [13; 10; 13; 10; 0; 13; 10] ++ lit "QUIT" ++ [10].

(** * Endpoints

    [net.TCPAddr], and a [net.Addr] that is one or is not. *)

Record TCPAddr := mkTCPAddr { t_IP : bytes; t_Port : Z; t_Zone : bytes }.
#[export] Instance TCPAddr_eq_dec : EqDecision TCPAddr.
Proof. solve_decision. Defined.

Inductive NetAddr := TCP (a : TCPAddr) | OtherAddr.

(** [net.TCPAddrFromAddrPort] *)
Definition tcp_addr_from (a : addr) (port : Z) : TCPAddr := mkTCPAddr (as_slice a) port (zone a).

Inductive pp_err : Type :=
| NotTCP | InvalidEndpoint | UnsupportedVersion (v : Z)   (* proxyProtocolHeader *)
| FirstByte (e : io_err) | Signature (e : io_err)         (* detectProxyProtocol *)
| V1Read (e : io_err) | V1Invalid | V1Source | V1Dest | V1SourcePort | V1DestPort | V1TooLong
| V2Read (e : io_err) | V2Version | V2LocalPayload (e : io_err) | V2Command | V2Family
| V2Short | V2NotStream | V2AddressBlock (e : io_err) | V2Payload (e : io_err)
with io_err : Type := IO_EOF | IO_UnexpectedEOF | IO_Other (code : Z).

#[export] Instance io_err_eq_dec : EqDecision io_err.
Proof. solve_decision. Defined.

(** * Writing *)

(** The endpoints as one family: [proxyProtocolHeader]'s first half. *)
Definition header_endpoints (src dst : NetAddr) : res pp_err (addr * addr * Z * Z) :=
  match src, dst with
  | TCP s, TCP d =>
      match addr_from_slice (t_IP s), addr_from_slice (t_IP d) with
      | Some sip, Some dip =>
          if (t_Port s <? 0) || (65535 <? t_Port s) || (t_Port d <? 0) || (65535 <? t_Port d)
          then Err InvalidEndpoint
          else
            let sip := unmap sip in let dip := unmap dip in
            if eqb (is4 sip) (is4 dip) then Ok (sip, dip, t_Port s, t_Port d)
            else Ok (addr_from16 (as16 sip), addr_from16 (as16 dip), t_Port s, t_Port d)
      | _, _ => Err InvalidEndpoint
      end
  | _, _ => Err NotTCP
  end.

Definition header_v1 (sip dip : addr) (sport dport : Z) : bytes :=
  let family := if is4 sip then lit "TCP4" else lit "TCP6" in
  lit "PROXY " ++ family ++ lit " " ++ addr_string sip ++ lit " " ++ addr_string dip
  ++ lit " " ++ itoa sport ++ lit " " ++ itoa dport ++ [13; 10].

Definition header_v2 (sip dip : addr) (sport dport : Z) : bytes :=
  proxyV2Sig ++ [0x21; if is4 sip then 0x11 else 0x21]
  ++ put_be16 (if is4 sip then 12 else 36) ++ as_slice sip ++ as_slice dip
  ++ put_be16 (u16 sport) ++ put_be16 (u16 dport).

Definition proxyProtocolHeader (version : Z) (src dst : NetAddr) : res pp_err bytes :=
  let! (sip, dip, sport, dport) := header_endpoints src dst in
  if version =? 1 then Ok (header_v1 sip dip sport dport)
  else if version =? 2 then Ok (header_v2 sip dip sport dport)
  else Err (UnsupportedVersion version).

(** The loop of [writeProxyProtocol].  The connection answers each [Write]
    with a count and perhaps an error; [io.Writer] obliges the count to be at
    most the length written, and the bytes taken are appended to [out]. *)
Inductive write_err := HeaderErr (e : pp_err) | ConnErr (code : Z) | ShortWrite | NoAnswer.

Fixpoint write_loop (answers : list (nat * option Z)) (header out : bytes) : bytes * option write_err :=
  match header with
  | [] => (out, None)
  | _ =>
      match answers with
      | [] => (out, Some NoAnswer) (* the connection still blocks *)
      | (n, err) :: answers' =>
          let out' := out ++ take n header in
          match err with
          | Some e => (out', Some (ConnErr e))
          | None => if (n =? 0)%nat then (out', Some ShortWrite)
                    else write_loop answers' (drop n header) out'
          end
      end
  end.

Definition writeProxyProtocol (answers : list (nat * option Z)) (version : Z) (src dst : NetAddr)
    : bytes * option write_err :=
  match proxyProtocolHeader version src dst with
  | Err e => ([], Some (HeaderErr e))
  | Ok header => write_loop answers header []
  end.

(** * Reading

    An inbound connection is the bytes the peer sends and how the stream
    ends: [io.ReadFull] and [io.CopyN] depend on nothing else, since both
    read on until they have their bytes or an error. *)

Record stream := Stream { st_data : bytes; st_end : io_err }.

(** The error when the stream ends after [got] bytes of a [ReadFull]. *)
Definition end_err (got : nat) (e : io_err) : io_err :=
  match e with
  | IO_EOF | IO_UnexpectedEOF => if (got =? 0)%nat then IO_EOF else IO_UnexpectedEOF
  | IO_Other _ => e
  end.

(** [io.ReadFull(conn, b)] with [len(b) = n]: the bytes read either way. *)
Definition read_full (n : nat) (s : stream) : bytes * option io_err * stream :=
  let got := take n (st_data s) in
  if (n <=? length (st_data s))%nat then (got, None, Stream (drop n (st_data s)) (st_end s))
  else (got, Some (end_err (length got) (st_end s)), Stream [] (st_end s)).

(** [io.CopyN(io.Discard, conn, n)] reports [EOF] for a short stream. *)
Definition discard_n (n : nat) (s : stream) : option io_err * stream :=
  if (n <=? length (st_data s))%nat then (None, Stream (drop n (st_data s)) (st_end s))
  else (Some (st_end s), Stream [] (st_end s)).

(** [proxyConn]: what is left of the connection, the bytes to replay, and the
    addresses of the header. *)
Record proxyConn := ProxyConn {
  pc_conn : stream;
  pc_prefix : bytes;
  pc_remote : option TCPAddr;
  pc_local : option TCPAddr;
  pc_version : Z;
}.

(** [Read] into [n] bytes, [RemoteAddr] and [LocalAddr]. *)
Definition proxyConn_Read (conn_read : nat → stream → bytes * option io_err * stream)
    (n : nat) (c : proxyConn) : bytes * option io_err * proxyConn :=
  match pc_prefix c with
  | [] =>
      let '(b, e, s) := conn_read n (pc_conn c) in
      (b, e, ProxyConn s (pc_prefix c) (pc_remote c) (pc_local c) (pc_version c))
  | p => (take n p, None, ProxyConn (pc_conn c) (drop n p) (pc_remote c) (pc_local c) (pc_version c))
  end.
Definition RemoteAddr (socket : TCPAddr) (c : proxyConn) : TCPAddr := default socket (pc_remote c).
Definition LocalAddr (socket : TCPAddr) (c : proxyConn) : TCPAddr := default socket (pc_local c).

Definition addrs := (option TCPAddr * option TCPAddr)%type.

Definition parseProxyPort (s : bytes) : option Z :=
  match atoi s with
  | Some p => if (p <? 0) || (65535 <? p) then None else Some p
  | None => None
  end.

(** A complete v1 line, without its CRLF. *)
Definition parse_v1_line (line : bytes) : res pp_err addrs :=
  let fields := split_byte line (ch " ") in
  let f i := default [] (fields !! i) in
  let proxy := bool_decide (f 0%nat = lit "PROXY") in
  let tcp4 := bool_decide (f 1%nat = lit "TCP4") in
  let tcp6 := bool_decide (f 1%nat = lit "TCP6") in
  let address_ok ip := negb (tcp4 && negb (is4 ip)) && negb (tcp6 && negb (is6 ip)) in
  if (2 <=? length fields)%nat && proxy && bool_decide (f 1%nat = lit "UNKNOWN") then Ok (None, None)
  else if negb (length fields =? 6)%nat || negb proxy || (negb tcp4 && negb tcp6) then Err V1Invalid
  else
    match parse_addr (f 2%nat) with
    | None => Err V1Source
    | Some srcIP => if negb (address_ok srcIP) then Err V1Source else
    match parse_addr (f 3%nat) with
    | None => Err V1Dest
    | Some dstIP => if negb (address_ok dstIP) then Err V1Dest else
    match parseProxyPort (f 4%nat) with
    | None => Err V1SourcePort
    | Some srcPort =>
    match parseProxyPort (f 5%nat) with
    | None => Err V1DestPort
    | Some dstPort =>
        Ok (Some (tcp_addr_from srcIP (u16 srcPort)), Some (tcp_addr_from dstIP (u16 dstPort)))
    end end end end.

Definition ends_crlf (line : bytes) : bool :=
  bool_decide (drop (length line - 2) line = [13; 10]).

(** [readProxyV1]: one byte at a time; [left] is [proxyV1MaxLen - len(line)]. *)
Fixpoint readProxyV1_go (left : nat) (s : stream) (line : bytes) : res pp_err (addrs * stream) :=
  match left with
  | O => Err V1TooLong
  | S left' =>
      let '(b, err, s') := read_full 1 s in
      match err with
      | Some e => Err (V1Read e)
      | None =>
          let line := line ++ b in
          if (2 <=? length line)%nat && ends_crlf line then
            let! a := parse_v1_line (take (length line - 2) line) in Ok (a, s')
          else readProxyV1_go left' s' line
      end
  end.
Definition readProxyV1 (s : stream) (line : bytes) : res pp_err (addrs * stream) :=
  readProxyV1_go (proxyV1MaxLen - length line) s line.

(** The length of a v2 family's address block. *)
Definition v2_need (family : Z) : nat :=
  if family =? 1 then 12 else if family =? 2 then 36 else if family =? 3 then 216 else 0.

Definition be16_at (i : nat) (b : bytes) : Z := be16 (default 0 (b !! i)) (default 0 (b !! S i)).

Definition v2_addresses (family : Z) (address : bytes) : addrs :=
  if family =? 1 then
    (Some (mkTCPAddr (take 4 address) (be16_at 8 address) []),
     Some (mkTCPAddr (take 4 (drop 4 address)) (be16_at 10 address) []))
  else if family =? 2 then
    (Some (mkTCPAddr (take 16 address) (be16_at 32 address) []),
     Some (mkTCPAddr (take 16 (drop 16 address)) (be16_at 34 address) []))
  else (None, None).

Definition readProxyV2 (s : stream) : res pp_err (addrs * stream) :=
  let '(header, err, s) := read_full 4 s in
  match err with
  | Some e => Err (V2Read e)
  | None =>
      let h i := default 0 (header !! i) in
      if negb (Z.shiftr (h 0%nat) 4 =? 2) then Err V2Version else
      let command := Z.land (h 0%nat) 0x0f in
      let length := Z.to_nat (be16 (h 2%nat) (h 3%nat)) in
      if command =? 0 then
        let (err, s) := discard_n length s in
        match err with Some e => Err (V2LocalPayload e) | None => Ok ((None, None), s) end
      else if negb (command =? 1) then Err V2Command else
      let family := Z.shiftr (h 1%nat) 4 in
      let protocol := Z.land (h 1%nat) 0x0f in
      if (3 <? family) || (2 <? protocol) then Err V2Family else
      let need := v2_need family in
      if (length <? need)%nat then Err V2Short
      else if ((family =? 1) || (family =? 2)) && negb (protocol =? 1) then Err V2NotStream else
      let addressBytes := if (36 <? need)%nat then 0%nat else need in
      let '(address, err, s) := read_full addressBytes s in
      match err with
      | Some e => Err (V2AddressBlock e)
      | None =>
          let (err, s) := discard_n (length - addressBytes) s in
          match err with
          | Some e => Err (V2Payload e)
          | None => Ok (v2_addresses family address, s)
          end
      end
  end.

(** [detectProxyProtocol]: an ordinary connection replays what was read; after
    a first byte that starts a signature, the rest of it is awaited. *)
Definition ordinary (prefix : bytes) (s : stream) : res pp_err proxyConn :=
  Ok (ProxyConn s prefix None None 0).

Definition check_signature (first : bytes) (s : stream) (signature : bytes) : res pp_err proxyConn :=
  let '(rest, err, s) := read_full (length signature - 1) s in
  let seen := first ++ rest in
  match err with
  | Some IO_EOF | Some IO_UnexpectedEOF => ordinary seen s
  | Some e => Err (Signature e)
  | None =>
      if negb (bool_decide (seen = signature)) then ordinary seen s
      else
        let v1 := bool_decide (signature = proxyV1Prefix) in
        let! (a, s) := if v1 then readProxyV1 s seen else readProxyV2 s in
        Ok (ProxyConn s [] a.1 a.2 (if v1 then 1 else 2))
  end.

Definition detectProxyProtocol (conn : stream) : res pp_err proxyConn :=
  let '(first, err, s) := read_full 1 conn in
  match err with
  | Some e => Err (FirstByte e)
  | None =>
      if bool_decide (head first = head proxyV1Prefix) then check_signature first s proxyV1Prefix
      else if bool_decide (head first = head proxyV2Sig) then check_signature first s proxyV2Sig
      else ordinary first s
  end.

(** * Reading what was written *)

Lemma read_full_app l k e : read_full (length l) (Stream (l ++ k) e) = (l, None, Stream k e).
Proof.
  unfold read_full. cbn [st_data st_end]. rewrite take_app_length, drop_app_length, length_app.
  by destruct (Nat.leb_spec (length l) (length l + length k)); [|lia].
Qed.

Lemma discard_0 s : discard_n 0 s = (None, s).
Proof. unfold discard_n. destruct s. done. Qed.

(** After a complete signature the version's reader decides. *)
Lemma detect_v1 k e : detectProxyProtocol (Stream (proxyV1Prefix ++ k) e) =
  let! (a, s) := readProxyV1 (Stream k e) proxyV1Prefix in Ok (ProxyConn s [] a.1 a.2 1).
Proof. reflexivity. Qed.
Lemma detect_v2 k e : detectProxyProtocol (Stream (proxyV2Sig ++ k) e) =
  let! (a, s) := readProxyV2 (Stream k e) in Ok (ProxyConn s [] a.1 a.2 2).
Proof. reflexivity. Qed.

Lemma ends_crlf_last line c : ends_crlf (line ++ [c]) = true → c = 10.
Proof.
  unfold ends_crlf. intros H%bool_decide_eq_true.
  pose proof (take_drop (length (line ++ [c]) - 2) (line ++ [c])) as Ht. rewrite H in Ht.
  change [13; 10] with ([13] ++ [10]) in Ht. rewrite app_assoc in Ht. by apply app_inj_tail in Ht as [_ ?].
Qed.

Lemma ends_crlf_yes line : ends_crlf (line ++ [13; 10]) = true.
Proof.
  unfold ends_crlf. rewrite length_app. cbn [length]. replace (length line + 2 - 2)%nat with (length line) by lia.
  rewrite drop_app_length. done.
Qed.

(** The v1 reader stops at the first CRLF, if it comes soon enough. *)
Lemma readProxyV1_line l left line k e : Forall (fun c => c ≠ 10) l → (length l + 2 <= left)%nat →
  readProxyV1_go left (Stream (l ++ 13 :: 10 :: k) e) line =
  (let! a := parse_v1_line (line ++ l) in Ok (a, Stream k e)).
Proof.
  revert left line; induction l as [|c l IH]; intros left line Hl Hleft.
  - destruct left as [|[|left]]; [cbn in Hleft; lia..|]. cbn [app readProxyV1_go].
    change (13 :: 10 :: k) with ([13] ++ 10 :: k). change 1%nat with (length [13]) at 1. rewrite read_full_app.
    destruct (ends_crlf (line ++ [13])) eqn:E; [by apply ends_crlf_last in E|]. rewrite andb_false_r.
    change (10 :: k) with ([10] ++ k). change 1%nat with (length [10]) at 1. rewrite read_full_app.
    rewrite <- app_assoc. cbn [app]. rewrite ends_crlf_yes, length_app. cbn [length].
    destruct (Nat.leb_spec 2 (length line + 2)); [|lia]. cbn [andb].
    replace (length line + 2 - 2)%nat with (length line) by lia. by rewrite take_app_length, app_nil_r.
  - cbn [length] in Hleft. destruct left as [|left]; [lia|]. cbn [app readProxyV1_go].
    change (c :: ?t) with ([c] ++ t) at 1. change 1%nat with (length [c]) at 1. rewrite read_full_app.
    apply Forall_cons in Hl as [Hc Hl].
    destruct (ends_crlf (line ++ [c])) eqn:E; [by apply ends_crlf_last in E|]. rewrite andb_false_r.
    rewrite IH by (done || lia). by rewrite <- app_assoc.
Qed.

Lemma parseProxyPort_itoa p : 0 <= p < 65536 → parseProxyPort (itoa p) = Some p.
Proof.
  intros Hp. unfold parseProxyPort. rewrite atoi_itoa by lia.
  destruct (Z.ltb_spec p 0), (Z.ltb_spec 65535 p); (lia || done).
Qed.

Lemma itoa_plain p c : 0 <= p → c < 48 → Forall (fun d => d ≠ c) (itoa p).
Proof.
  intros Hp Hc. eapply Forall_impl; [apply itoa_digits; lia|]. cbn. unfold is_digit.
  intros d Hd. apply andb_true_iff in Hd. rewrite !Z.leb_le in Hd. lia.
Qed.

Lemma addr_plain a c : addr_ok a → is_valid a = true → zone a = [] → c < 46 → Forall (fun d => d ≠ c) (addr_string a).
Proof.
  intros Hok Hv Hz Hc. destruct (addr_text a Hok Hv Hz) as (_ & H & _). rewrite forallb_forall in H.
  apply Forall_forall. intros d Hd. apply list_elem_of_In, H, addr_char_spec in Hd. lia.
Qed.

Lemma plain_notin (l : bytes) c : Forall (fun d => d ≠ c) l → c ∉ l.
Proof. rewrite Forall_forall. intros H Hc. by apply (H c). Qed.

(** ** The endpoints of a header *)

Definition endpoint_ok (a : NetAddr) : Prop := match a with TCP t => bytes_ok (t_IP t) | OtherAddr => True end.

(** An address without a zone that [header_endpoints] may give. *)
Definition header_addr (a : addr) : Prop := addr_ok a ∧ is_valid a = true ∧ zone a = [].

(** [net.IP.To16] *)
Definition to16 (b : bytes) : bytes := if (length b =? 4)%nat then v4in6_prefix ++ b else b.

Lemma unmap_slice b a : bytes_ok b → addr_from_slice b = Some a →
  header_addr (unmap a) ∧ to16 (as_slice (unmap a)) = to16 b ∧
  header_addr (addr_from16 (as16 (unmap a))) ∧ to16 (as16 (unmap a)) = to16 b.
Proof.
  unfold addr_from_slice, header_addr. intros Hb.
  destruct (Nat.eqb_spec (length b) 4) as [H4|H4]; [|destruct (Nat.eqb_spec (length b) 16) as [H6|]; [|done]]; intros [= <-].
  - assert (to16 (v4in6_prefix ++ b) = to16 b) as Ht.
    { unfold to16. rewrite length_app, H4. done. }
    cbn. rewrite H4. repeat split; try done. by repeat (constructor; [done|]).
  - cbn [unmap]. destruct (is4in6 (Addr6 b [])) eqn:E; [|cbn; by repeat split].
    apply bool_decide_eq_true in E. assert (length (drop 12 b) = 4%nat) as Hd by (rewrite length_drop; lia).
    assert (to16 (drop 12 b) = to16 b) as Ht.
    { unfold to16. rewrite Hd, H6. cbn [Nat.eqb]. rewrite <- E. apply take_drop. }
    assert (as16 (Addr4 (drop 12 b)) = b) as Hb16 by (unfold as16; rewrite <- E; apply take_drop).
    rewrite Hb16. cbn [as_slice addr_ok addr_from16 is_valid zone].
    repeat split; try done. by apply Forall_drop.
Qed.

(** One family, the ports of the endpoints, and their addresses as 16 bytes. *)
Lemma header_endpoints_ok src dst sip dip sp dp : endpoint_ok src → endpoint_ok dst →
  header_endpoints src dst = Ok (sip, dip, sp, dp) →
  ∃ s d, src = TCP s ∧ dst = TCP d ∧ sp = t_Port s ∧ dp = t_Port d ∧ 0 <= sp < 65536 ∧ 0 <= dp < 65536 ∧
    header_addr sip ∧ header_addr dip ∧ is4 sip = is4 dip ∧
    to16 (as_slice sip) = to16 (t_IP s) ∧ to16 (as_slice dip) = to16 (t_IP d).
Proof.
  intros Hs Hd. unfold header_endpoints. destruct src as [s|], dst as [d|]; try done.
  destruct (addr_from_slice (t_IP s)) as [sa|] eqn:Es; [|done].
  destruct (addr_from_slice (t_IP d)) as [da|] eqn:Ed; [|done].
  destruct (unmap_slice _ _ Hs Es) as (S1 & S2 & S3 & S4). destruct (unmap_slice _ _ Hd Ed) as (D1 & D2 & D3 & D4).
  destruct (_ || _) eqn:Ep; [done|]. bool_prop.
  intros Heq. exists s, d. destruct (eqb _ _) eqn:Eq; injection Heq as <- <- <- <-.
  - apply eqb_prop in Eq. repeat split; try done; try lia; try apply S1; apply D1.
  - repeat split; try done; try lia; try apply S3; apply D3.
Qed.

(** ** Version 1 *)

Lemma header_addr_family a : header_addr a → (is4 a = true ∧ is6 a = false) ∨ (is4 a = false ∧ is6 a = true).
Proof. intros (_ & H & _). destruct a; [done|by left|by right]. Qed.

Lemma parse_v1_written sip dip sp dp : header_addr sip → header_addr dip → is4 sip = is4 dip →
  0 <= sp < 65536 → 0 <= dp < 65536 →
  parse_v1_line (proxyV1Prefix ++ (if is4 sip then lit "TCP4" else lit "TCP6") ++ lit " " ++ addr_string sip
    ++ lit " " ++ addr_string dip ++ lit " " ++ itoa sp ++ lit " " ++ itoa dp) =
  Ok (Some (tcp_addr_from sip sp), Some (tcp_addr_from dip dp)).
Proof.
  intros Hs Hd Hf Hsp Hdp.
  assert (split_byte (proxyV1Prefix ++ (if is4 sip then lit "TCP4" else lit "TCP6") ++ lit " " ++ addr_string sip
    ++ lit " " ++ addr_string dip ++ lit " " ++ itoa sp ++ lit " " ++ itoa dp) 32
    = [lit "PROXY"; if is4 sip then lit "TCP4" else lit "TCP6"; addr_string sip; addr_string dip; itoa sp; itoa dp]) as E.
  { change proxyV1Prefix with (lit "PROXY" ++ [32]). change (lit " ") with [32]. rewrite <- app_assoc. cbn [app].
    rewrite split_join_cons by (apply (bool_decide_unpack _); done).
    rewrite split_join_cons by (destruct (is4 sip); apply (bool_decide_unpack _); done).
    destruct Hs as (?&?&?), Hd as (?&?&?).
    rewrite !split_join_cons by (apply plain_notin; (apply addr_plain || apply itoa_plain); (done || lia)).
    by rewrite split_byte_none by (apply plain_notin; apply itoa_plain; lia). }
  unfold parse_v1_line. change (ch " ") with 32. rewrite E.
  cbn -[addr_string itoa parse_addr lit parseProxyPort tcp_addr_from u16 is4 is6 bool_decide].
  destruct (addr_text sip) as [Ps _]; [apply Hs..|]. destruct (addr_text dip) as [Pd _]; [apply Hd..|].
  rewrite Ps, Pd, !parseProxyPort_itoa by done.
  pose proof (header_addr_family sip Hs) as Fs. pose proof (header_addr_family dip Hd) as Fd.
  unfold u16. rewrite !Z.mod_small by lia.
  destruct Fs as [[F1 F2]|[F1 F2]], Fd as [[G1 G2]|[G1 G2]]; try congruence; rewrite F1, F2, G1, G2; reflexivity.
Qed.

Lemma detect_written_v1 sip dip sp dp rest e : header_addr sip → header_addr dip → is4 sip = is4 dip →
  0 <= sp < 65536 → 0 <= dp < 65536 →
  detectProxyProtocol (Stream (header_v1 sip dip sp dp ++ rest) e) =
  Ok (ProxyConn (Stream rest e) [] (Some (tcp_addr_from sip sp)) (Some (tcp_addr_from dip dp)) 1).
Proof.
  intros Hs Hd Hf Hsp Hdp. unfold header_v1. rewrite <- app_assoc. change (lit "PROXY ") with proxyV1Prefix.
  rewrite detect_v1. unfold readProxyV1.
  set (l := (if is4 sip then lit "TCP4" else lit "TCP6") ++ lit " " ++ addr_string sip
    ++ lit " " ++ addr_string dip ++ lit " " ++ itoa sp ++ lit " " ++ itoa dp).
  replace (((if is4 sip then lit "TCP4" else lit "TCP6") ++ lit " " ++ addr_string sip
    ++ lit " " ++ addr_string dip ++ lit " " ++ itoa sp ++ lit " " ++ itoa dp ++ [13; 10]) ++ rest)
    with (l ++ 13 :: 10 :: rest) by (unfold l; rewrite <- !app_assoc; done).
  rewrite readProxyV1_line.
  - unfold l. rewrite parse_v1_written by done. done.
  - unfold l. rewrite !Forall_app. destruct Hs as (?&?&?), Hd as (?&?&?).
    repeat split; try (apply addr_plain || apply itoa_plain); try (done || lia).
    1: destruct (is4 sip). all: by repeat constructor.
  - unfold l. rewrite !length_app. destruct (addr_text sip) as (_&_&?); [apply Hs..|].
    destruct (addr_text dip) as (_&_&?); [apply Hd..|].
    pose proof (itoa_length 4 sp ltac:(lia)). pose proof (itoa_length 4 dp ltac:(lia)).
    change (length (lit " ")) with 1%nat. change (length proxyV1Prefix) with 6%nat. unfold proxyV1MaxLen.
    assert (length (if is4 sip then lit "TCP4" else lit "TCP6") = 4%nat) as -> by (destruct (is4 sip); done). lia.
Qed.

(** ** Version 2 *)

Lemma readProxyV2_inet (v6 : bool) n address rest e :
  n = (if v6 then 36 else 12) → length address = Z.to_nat n →
  readProxyV2 (Stream ([0x21; if v6 then 0x21 else 0x11] ++ put_be16 n ++ address ++ rest) e) =
  Ok (v2_addresses (if v6 then 2 else 1) address, Stream rest e).
Proof.
  intros Hn Hl. rewrite app_assoc. unfold readProxyV2.
  change 4%nat with (length ([0x21; if v6 then 0x21 else 0x11] ++ put_be16 n)). rewrite read_full_app.
  assert (be16 (u8 (Z.shiftr n 8)) (u8 n) = n) as Hbe by (apply be16_put; destruct v6; lia).
  unfold put_be16. revert Hbe. generalize (u8 (Z.shiftr n 8)) (u8 n). intros hi lo Hbe.
  destruct v6; cbn -[be16 read_full discard_n v2_addresses]; rewrite Hbe, Hn; rewrite Hn in Hl.
  - change (Z.shiftr 33 4) with 2. change (Z.land 33 15) with 1. change (Z.to_nat 36) with 36%nat in *.
    cbn -[read_full discard_n v2_addresses]. rewrite <- Hl, read_full_app. cbn -[discard_n v2_addresses].
    by rewrite discard_0.
  - change (Z.shiftr 33 4) with 2. change (Z.shiftr 17 4) with 1. change (Z.land 17 15) with 1.
    change (Z.land 33 15) with 1. change (Z.to_nat 12) with 12%nat in *.
    cbn -[read_full discard_n v2_addresses]. rewrite <- Hl, read_full_app. cbn -[discard_n v2_addresses].
    by rewrite discard_0.
Qed.

Lemma be16_at_put a b n k : 0 <= n < 65536 → length a = b → be16_at b (a ++ put_be16 n ++ k) = n.
Proof.
  intros Hn <-. unfold be16_at, put_be16. cbn [app]. rewrite list_lookup_middle by done.
  change (a ++ ?x :: ?y :: k) with (a ++ [x] ++ y :: k). rewrite app_assoc, list_lookup_middle by (rewrite length_app; cbn; lia).
  cbn [default]. by apply be16_put.
Qed.

Lemma detect_written_v2 sip dip sp dp rest e : header_addr sip → header_addr dip → is4 sip = is4 dip →
  0 <= sp < 65536 → 0 <= dp < 65536 →
  detectProxyProtocol (Stream (header_v2 sip dip sp dp ++ rest) e) =
  Ok (ProxyConn (Stream rest e) [] (Some (tcp_addr_from sip sp)) (Some (tcp_addr_from dip dp)) 2).
Proof.
  intros (Hs & Hsv & Hsz) (Hd & Hdv & Hdz) Hf Hsp Hdp. unfold header_v2, u16. rewrite !Z.mod_small by lia.
  rewrite <- app_assoc, detect_v2.
  set (address := as_slice sip ++ as_slice dip ++ put_be16 sp ++ put_be16 dp).
  match goal with |- context [readProxyV2 (Stream ?d e)] => replace d
    with ([0x21; if negb (is4 sip) then 0x21 else 0x11] ++ put_be16 (if negb (is4 sip) then 36 else 12) ++ address ++ rest)
    by (unfold address; rewrite <- !app_assoc; destruct (is4 sip); done) end.
  assert (∃ n, length (as_slice sip) = n ∧ length (as_slice dip) = n ∧ n = if is4 sip then 4%nat else 16%nat) as (n & Ls & Ld & En).
  { destruct sip, dip; try done; cbn in *; destruct Hs, Hd; eauto. }
  rewrite readProxyV2_inet; [|done|unfold address; rewrite !length_app, Ls, Ld, En; destruct (is4 sip); done].
  unfold v2_addresses, tcp_addr_from. rewrite Hsz, Hdz.
  assert (take n address = as_slice sip) as Ht by (unfold address; rewrite <- Ls; apply take_app_length).
  assert (drop n address = as_slice dip ++ put_be16 sp ++ put_be16 dp) as Hdr by (unfold address; rewrite <- Ls; apply drop_app_length).
  assert (take n (drop n address) = as_slice dip) as Htd by (rewrite Hdr, <- Ld; apply take_app_length).
  assert (be16_at (2 * n) address = sp) as Hb1.
  { unfold address. rewrite app_assoc. apply be16_at_put; [lia|rewrite length_app; lia]. }
  assert (be16_at (2 * n + 2) address = dp) as Hb2.
  { unfold address. rewrite !app_assoc, <- (app_nil_r (_ ++ put_be16 dp)), <- app_assoc.
    apply be16_at_put; [lia|rewrite !length_app; cbn [length put_be16]; lia]. }
  destruct (is4 sip); cbn [negb Z.eqb Pos.eqb]; clear Ls Ld; subst n; cbn [Nat.mul Nat.add] in *;
    rewrite Ht, Htd, Hb1, Hb2; done.
Qed.

(** * What the readers consume *)

Lemma read_full_cases n s b r s' : read_full n s = (b, r, s') →
  st_data s = b ++ st_data s' ∧ st_end s' = st_end s ∧
  match r with
  | None => length b = n
  | Some e => (length b < n)%nat ∧ st_data s' = [] ∧ e = end_err (length b) (st_end s)
  end.
Proof.
  unfold read_full. destruct (Nat.leb_spec n (length (st_data s))); intros [= <- <- <-]; cbn.
  - rewrite take_drop, length_take. repeat split; lia.
  - rewrite app_nil_r, take_ge by lia. done.
Qed.

Lemma discard_cases n s r s' : discard_n n s = (r, s') →
  ∃ b, st_data s = b ++ st_data s' ∧ st_end s' = st_end s.
Proof.
  unfold discard_n. destruct (_ <=? _)%nat; intros [= <- <-]; cbn.
  - exists (take n (st_data s)). by rewrite take_drop.
  - exists (st_data s). by rewrite app_nil_r.
Qed.

Lemma readProxyV1_consumes left s line a s' : readProxyV1_go left s line = Ok (a, s') →
  ∃ b, st_data s = b ++ st_data s' ∧ st_end s' = st_end s ∧ (length b <= left)%nat ∧ ends_crlf (line ++ b) = true.
Proof.
  revert s line; induction left as [|left IH]; intros s line; cbn [readProxyV1_go]; [done|].
  destruct (read_full 1 s) as [[b r] s1] eqn:E. apply read_full_cases in E as (E1 & E2 & E3).
  destruct r; [done|]. destruct (_ && _) eqn:Ec.
  - destruct (parse_v1_line _); [|done]. intros [= <- <-]. bool_prop. exists b. repeat split; [done..|lia|done].
  - intros (b' & H1 & H2 & H3 & H4)%IH. exists (b ++ b').
    rewrite E1, H1, <- !app_assoc, length_app. rewrite <- app_assoc in H4. repeat split; [congruence|lia|done].
Qed.

Lemma readProxyV2_consumes s a s' : readProxyV2 s = Ok (a, s') →
  ∃ b, st_data s = b ++ st_data s' ∧ st_end s' = st_end s.
Proof.
  unfold readProxyV2. destruct (read_full 4 s) as [[h r] s1] eqn:E.
  apply read_full_cases in E as (E1 & E2 & _). destruct r; [done|].
  destruct (negb _); [done|]. destruct (Z.land _ _ =? 0).
  { destruct (discard_n _ s1) as [r s2] eqn:Ed. apply discard_cases in Ed as (b & D1 & D2).
    destruct r; [done|]. intros [= <- <-]. exists (h ++ b). rewrite E1, D1, <- app_assoc. split; [done|congruence]. }
  do 4 (match goal with |- context [if ?b then Err _ else _] => destruct b; [done|] end).
  destruct (read_full _ s1) as [[ad r2] s2] eqn:E'. apply read_full_cases in E' as (F1 & F2 & _). destruct r2; [done|].
  destruct (discard_n _ s2) as [r3 s3] eqn:Ed. apply discard_cases in Ed as (b & D1 & D2). destruct r3; [done|].
  intros [= <- <-]. exists (h ++ ad ++ b). rewrite E1, F1, D1, <- !app_assoc. split; [done|congruence].
Qed.

Definition has_signature (b : bytes) : Prop := proxyV1Prefix `prefix_of` b ∨ proxyV2Sig `prefix_of` b.

Lemma prefix_same_length (a b k : bytes) : length a = length b → a `prefix_of` b ++ k → a = b.
Proof.
  intros Hl [k' H]. apply (f_equal (take (length b))) in H.
  rewrite take_app_length in H. rewrite <- Hl in H at 1. by rewrite take_app_length in H.
Qed.

(** The verdict on a stream, and what of it is left. *)
Definition detect_spec (s : stream) (r : res pp_err proxyConn) : Prop :=
  match r with
  | Ok c =>
      st_end (pc_conn c) = st_end s ∧
      ((pc_version c = 0 ∧ pc_prefix c ++ st_data (pc_conn c) = st_data s ∧ ¬ has_signature (st_data s)
        ∧ pc_remote c = None ∧ pc_local c = None) ∨
       (pc_prefix c = [] ∧ ∃ header, st_data s = header ++ st_data (pc_conn c) ∧
         ((pc_version c = 1 ∧ proxyV1Prefix `prefix_of` header ∧ (length header <= proxyV1MaxLen)%nat
           ∧ ends_crlf header = true) ∨
          (pc_version c = 2 ∧ proxyV2Sig `prefix_of` header))))
  | Err _ => st_data s = [] ∨ has_signature (st_data s) ∨ ∃ code, st_end s = IO_Other code
  end.

(** The bytes read so far rule both signatures out. *)
Lemma no_signature first rest k sig : length first = 1%nat → sig = proxyV1Prefix ∨ sig = proxyV2Sig →
  head first = head sig →
  (length (first ++ rest) = length sig ∧ first ++ rest ≠ sig ∨ (length (first ++ rest) < length sig)%nat ∧ k = []) →
  ¬ has_signature (first ++ rest ++ k).
Proof.
  intros Hf Hsig Hh Hc. destruct first as [|c [|]]; [done| |done].
  assert (∀ t, t `prefix_of` [c] ++ rest ++ k → head t = head sig → t = sig → False) as Hnot.
  { intros t Ht _ ->. rewrite app_assoc in Ht. destruct Hc as [[Hl Hne]|[Hl ->]].
    - apply Hne. symmetry. by apply (prefix_same_length _ _ k).
    - rewrite app_nil_r in Ht. apply prefix_length in Ht. lia. }
  intros [H|H]; destruct Hsig as [-> | ->]; try (by eapply Hnot);
    cbn in Hh; injection Hh as ->; destruct H as [k' H]; discriminate H.
Qed.

Lemma check_signature_meets first s s1 sig : sig = proxyV1Prefix ∨ sig = proxyV2Sig →
  length first = 1%nat → head first = head sig → st_data s = first ++ st_data s1 → st_end s1 = st_end s →
  detect_spec s (check_signature first s1 sig).
Proof.
  intros Hsig Hl Hh Hd He. unfold check_signature.
  destruct (read_full _ s1) as [[rest r] s2] eqn:E. apply read_full_cases in E as (E1 & E2 & E3).
  assert (1 <= length sig)%nat as Hs1 by (destruct Hsig as [-> | ->]; cbn; lia).
  assert (st_data s = first ++ rest ++ st_data s2) as Hall by (rewrite Hd, E1; done).
  assert (∀ e, r = Some e → detect_spec s (ordinary (first ++ rest) s2)) as Hshort.
  { intros e ->. destruct E3 as (L & N & _). cbn. split; [congruence|]. left. rewrite Hall, <- app_assoc.
    repeat split; try done. apply (no_signature _ _ _ sig); [done..|]. right. rewrite length_app. split; [lia|done]. }
  destruct r as [[| |code]|]; [by eapply Hshort..| |].
  - destruct E3 as (_ & _ & Hc). cbn. right; right. exists code. rewrite <- He. destruct (st_end s1); cbn in Hc; try (by destruct (_ =? _)%nat); congruence.
  - destruct (bool_decide _) eqn:Eq; cbn [negb].
    + apply bool_decide_eq_true in Eq.
      assert (has_signature (st_data s)) as Hhas.
      { rewrite Hall, app_assoc, Eq. destruct Hsig as [-> | ->]; [left|right]; by exists (st_data s2). }
      destruct (bool_decide (sig = _)) eqn:Ev; [apply bool_decide_eq_true in Ev|apply bool_decide_eq_false in Ev].
      * destruct (readProxyV1 _ _) as [[a s3]|] eqn:R; [|cbn; by right; left]. cbn.
        apply readProxyV1_consumes in R as (b & R1 & R2 & R3 & R4). split; [congruence|]. right. split; [done|].
        exists ((first ++ rest) ++ b). rewrite Hall, R1, <- !app_assoc. split; [done|]. left.
        rewrite app_assoc, Eq, Ev in *. repeat split; [by exists b|rewrite length_app; unfold proxyV1MaxLen in *; cbn in *; lia|done].
      * destruct (readProxyV2 _) as [[a s3]|] eqn:R; [|cbn; by right; left]. cbn.
        apply readProxyV2_consumes in R as (b & R1 & R2). split; [congruence|]. right. split; [done|].
        exists ((first ++ rest) ++ b). rewrite Hall, R1, <- !app_assoc. split; [done|]. right.
        rewrite app_assoc, Eq. destruct Hsig as [|Hsig]; [done|]. rewrite Hsig. split; [done|by exists b].
    + apply bool_decide_eq_false in Eq. cbn. split; [congruence|]. left. rewrite Hall, <- app_assoc.
      repeat split; try done. apply (no_signature _ _ _ sig); [done..|]. left. split; [rewrite length_app; lia|done].
Qed.

Lemma detect_meets s : detect_spec s (detectProxyProtocol s).
Proof.
  unfold detectProxyProtocol. destruct (read_full 1 s) as [[first r] s1] eqn:E.
  apply read_full_cases in E as (E1 & E2 & E3).
  destruct r as [e|].
  { destruct first; [|cbn in E3; lia]. cbn. left. rewrite E1. apply E3. }
  destruct (bool_decide (_ = head proxyV1Prefix)) eqn:H1; [apply bool_decide_eq_true in H1; by apply check_signature_meets; auto|].
  destruct (bool_decide (_ = head proxyV2Sig)) eqn:H2; [apply bool_decide_eq_true in H2; by apply check_signature_meets; auto|].
  apply bool_decide_eq_false in H1, H2. cbn. split; [done|]. left. repeat split; [done|].
  rewrite E1. destruct first as [|c [|]]; [done| |done]. intros [[k H]|[k H]]; injection H as -> _; [by apply H1|by apply H2].
Qed.

(** * Reading on from the connection *)

Definition proxy_stream (c : proxyConn) : bytes := pc_prefix c ++ st_data (pc_conn c).

(** One [Read] of the underlying connection: some of what is there. *)
Definition read_some (n : nat) (s : stream) : bytes * option io_err * stream :=
  match st_data s with
  | [] => ([], Some (st_end s), s)
  | d => (take n d, None, Stream (drop n d) (st_end s))
  end.

(** [k] reads with the given buffer sizes. *)
Fixpoint read_many (sizes : list nat) (c : proxyConn) : bytes * proxyConn :=
  match sizes with
  | [] => ([], c)
  | n :: sizes' =>
      let '(b, _, c') := proxyConn_Read read_some n c in
      let (b', c'') := read_many sizes' c' in (b ++ b', c'')
  end.

Lemma read_many_stream sizes c b c' : read_many sizes c = (b, c') → b ++ proxy_stream c' = proxy_stream c.
Proof.
  revert c b c'; induction sizes as [|n sizes IH]; intros c b c'; cbn [read_many]; [by intros [= <- <-]|].
  destruct (proxyConn_Read read_some n c) as [[b1 r] c1] eqn:E. destruct (read_many sizes c1) as [b2 c2] eqn:E2.
  intros [= <- <-]. rewrite <- app_assoc, (IH _ _ _ E2). unfold proxyConn_Read, read_some, proxy_stream in *.
  destruct (pc_prefix c) as [|x p] eqn:Ep.
  - destruct (st_data (pc_conn c)) as [|y d] eqn:Ed; injection E as <- _ <-; cbn [pc_prefix pc_conn st_data app].
    + by rewrite ?Ep, ?Ed.
    + by rewrite ?Ep, take_drop.
  - injection E as <- _ <-. cbn [pc_prefix pc_conn]. by rewrite app_assoc, take_drop.
Qed.

Lemma write_loop_spec answers header out out' r : write_loop answers header out = (out', r) →
  ∃ k, out' = out ++ k ∧ k `prefix_of` header ∧ (r = None → k = header).
Proof.
  revert header out; induction answers as [|[n err] answers IH]; intros header out; destruct header as [|x header];
    cbn [write_loop]; try (intros [= <- <-]; exists []; rewrite app_nil_r; split; [done|split; [apply prefix_nil|done]]).
  destruct err as [e|]; [|destruct (n =? 0)%nat].
  - intros [= <- <-]. exists (take n (x :: header)). split; [done|split; [apply prefix_take|done]].
  - intros [= <- <-]. exists (take n (x :: header)). split; [done|split; [apply prefix_take|done]].
  - intros (k & H1 & H2 & H3)%IH. exists (take n (x :: header) ++ k). rewrite app_assoc. split; [done|]. split.
    + rewrite <- (take_drop n (x :: header)) at 2. by apply prefix_app.
    + intros ->%H3. apply take_drop.
Qed.

(** * Properties *)

(** C5: a header that was written in full is read back as itself, whatever
    follows it: the version, both ports and both addresses (compared as 16
    bytes, so an IPv4 address and its IPv4-mapped form are the same), and the
    rest of the stream is left untouched.  This covers IPv4 and IPv6 endpoints and
    mixed ones, in both versions. *)
Theorem proxy_header_roundtrip answers v src dst out rest e :
  endpoint_ok src → endpoint_ok dst → writeProxyProtocol answers v src dst = (out, None) →
  ∃ s d r l, src = TCP s ∧ dst = TCP d ∧
    detectProxyProtocol (Stream (out ++ rest) e) = Ok (ProxyConn (Stream rest e) [] (Some r) (Some l) v) ∧
    to16 (t_IP r) = to16 (t_IP s) ∧ t_Port r = t_Port s ∧
    to16 (t_IP l) = to16 (t_IP d) ∧ t_Port l = t_Port d.
Proof.
  intros Hs Hd. unfold writeProxyProtocol, proxyProtocolHeader.
  destruct (header_endpoints src dst) as [[[[sip dip] sp] dp]|] eqn:E; [|done].
  apply header_endpoints_ok in E as (s & d & -> & -> & -> & -> & Hsp & Hdp & As & Ad & Hf & Ts & Td); [|done..].
  intros H. exists s, d, (tcp_addr_from sip (t_Port s)), (tcp_addr_from dip (t_Port d)).
  destruct (Z.eqb_spec v 1) as [->|]; [|destruct (Z.eqb_spec v 2) as [->|]; [|done]];
    apply write_loop_spec in H as (k & -> & _ & ->); [|done| |done]; cbn [app].
  - by rewrite detect_written_v1.
  - by rewrite detect_written_v2.
Qed.


Lemma proxy_header_roundtrip_witness :
  let src := TCP (mkTCPAddr [192; 0; 2; 7] 51000 []) in
  let dst := TCP (mkTCPAddr [32; 1; 13; 184; 0; 0; 0; 0; 0; 0; 0; 0; 0; 0; 0; 1] 443 []) in
  let h := lit "PROXY TCP6 ::ffff:192.0.2.7 2001:db8::1 51000 443" ++ [13; 10] in
  writeProxyProtocol [(10%nat, None); (100%nat, None)] 1 src dst = (h, None) ∧
  ∃ s d r l, src = TCP s ∧ dst = TCP d ∧
    detectProxyProtocol (Stream (h ++ [22; 3; 1]) IO_EOF) = Ok (ProxyConn (Stream [22; 3; 1] IO_EOF) [] (Some r) (Some l) 1) ∧
    to16 (t_IP r) = to16 (t_IP s) ∧ t_Port r = t_Port s ∧
    to16 (t_IP l) = to16 (t_IP d) ∧ t_Port l = t_Port d.
Proof.
  split; [vm_compute; reflexivity|].
  apply (proxy_header_roundtrip [(10%nat, None); (100%nat, None)] 1); [..|vm_compute; reflexivity];
    apply (bool_decide_unpack _); vm_compute; reflexivity.
Defined.
