(* ===== verification/Rules.v ===== *)
(** Rules: what a rule is, its pattern, and how a connection's server name is
    routed ([config.go]: [classify], [prioritise], [RouteExcept], [decide],
    [expand]). *)

From S2P Require Import Prelude GoStr NetIP Sni.
From Stdlib Require Import Floats.SpecFloat.

(** Speeds are [float64], as binary64 values of the Standard Library. *)
Abbreviation float64 := spec_float.

(** * Regular expressions

    The fragment of [regexp] that [classify] writes: literal bytes, the two
    captures of a star, and dot star.  Literals are ASCII. *)

Inductive re_item :=
| RLit (c : Z)      (* c, or \c for a metacharacter *)
| RLabel            (* the capture of one or more bytes other than a dot *)
| RPart             (* the same of any number of them *)
| RAll.             (* any bytes but newlines, not captured *)

#[export] Instance re_item_eq_dec : EqDecision re_item.
Proof. solve_decision. Defined.

(** A compiled expression: [(?i)^(?:items)$], or without the [(?i)]. *)
Record Regexp := mkRegexp { re_text : bytes; re_fold : bool; re_items : list re_item }.

Definition is_meta (c : Z) : bool := contains (92 :: lit ".+*?()|[]{}^$") c.
(** [regexp.QuoteMeta] *)
Definition quote_meta (s : bytes) : bytes := concat ((fun c => if is_meta c then [92; c] else [c]) <$> s).

(** [regexp.Compile] on the fragment. *)
Fixpoint parse_re (s : bytes) : option (list re_item) :=
  match s with
  | [] => Some []
  | 92 :: c :: s' => if is_meta c then cons (RLit c) <$> parse_re s' else None
  | 40 :: 91 :: 94 :: 46 :: 93 :: 43 :: 41 :: s' => cons RLabel <$> parse_re s'
  | 40 :: 91 :: 94 :: 46 :: 93 :: 42 :: 41 :: s' => cons RPart <$> parse_re s'
  | 46 :: 42 :: s' => cons RAll <$> parse_re s'
  | c :: s' => if is_meta c then None else cons (RLit c) <$> parse_re s'
  end.

Definition compile_re (fold : bool) (expr : bytes) : option Regexp :=
  (fun items => mkRegexp ((if fold then lit "(?i)" else []) ++ lit "^(?:" ++ expr ++ lit ")$") fold items)
  <$> parse_re expr.

Definition is_capture (i : re_item) : bool := match i with RLabel | RPart => true | _ => false end.
Definition NumSubexp (re : Regexp) : nat := length (filter (fun i => is_capture i = true) (re_items re)).

Definition char_match (fold : bool) (c d : Z) : bool := if fold then lower c =? lower d else c =? d.

(** Greedy matching with backtracking.  [run ok least k s pos n] matches the
    longest run of [ok] bytes, at least [least] (0 or 1) of them, whose rest
    [k] accepts; [n] bytes of the run are already taken. *)
Fixpoint run {A} (ok : Z → bool) (least : nat) (k : bytes → Z → option A) (s : bytes) (pos : Z) (n : nat) : option A :=
  let here := if (least <=? n)%nat then k s pos else None in
  match s with
  | c :: s' => if ok c then match run ok least k s' (pos + 1) (S n) with Some m => Some m | None => here end else here
  | [] => here
  end.

Fixpoint match_items (fold : bool) (items : list re_item) (s : bytes) (pos : Z) : option (list Z) :=
  match items with
  | [] => if bool_decide (s = []) then Some [] else None
  | RLit c :: items' =>
      match s with
      | d :: s' => if char_match fold c d then match_items fold items' s' (pos + 1) else None
      | [] => None
      end
  | RLabel :: items' =>
      run (fun c => negb (c =? 46)) 1
        (fun s' e => (fun m => pos :: e :: m) <$> match_items fold items' s' e) s pos 0
  | RPart :: items' =>
      run (fun c => negb (c =? 46)) 0
        (fun s' e => (fun m => pos :: e :: m) <$> match_items fold items' s' e) s pos 0
  | RAll :: items' => run (fun c => negb (c =? 10)) 0 (match_items fold items') s pos 0
  end.

(** [FindStringSubmatchIndex]: group 0 is the whole string, both ends being
    anchored. *)
Definition FindStringSubmatchIndex (re : Regexp) (s : bytes) : option (list Z) :=
  (fun m => 0 :: len s :: m) <$> match_items (re_fold re) (re_items re) s 0.
Definition MatchString (re : Regexp) (s : bytes) : bool :=
  match FindStringSubmatchIndex re s with Some _ => true | None => false end.

(** * Rules *)

Definition noSNI : bytes := lit "$no_sni".
Definition anythingElse : bytes := lit "$anything_else".

(** [ruleKind], in the order of its constants. *)
Inductive ruleKind := kindNone | kindLiteral | kindWildcard | kindCatchAll.
#[export] Instance ruleKind_eq_dec : EqDecision ruleKind.
Proof. solve_decision. Defined.
Definition kind_num (k : ruleKind) : Z :=
  match k with kindNone => 0 | kindLiteral => 1 | kindWildcard => 2 | kindCatchAll => 3 end.

(** What [parseTarget] leaves of a URL. *)
Record URL := mkURL { u_Scheme : bytes; u_Host : bytes }.

(** [credential] and [BasicAuth]; [expires] is [None] for never. *)
Record credential := Credential { cr_plain : bytes; cr_hash : bytes; cr_disabled : bool; cr_expires : option Z }.
Record BasicAuth := mkBasicAuth { ba_Name : bytes; ba_Line : Z; ba_Users : gmap bytes credential }.

(** [ServiceRoute]; the OIDC provider that [sr_OIDC] names is not modelled. *)
Record ServiceRoute := mkServiceRoute {
  sr_Key : bytes; sr_Line : Z; sr_Type : bytes; sr_Prefix : bytes;
  sr_Target : option URL; sr_StripPrefix : bool; sr_ForceHost : bytes; sr_TLSVerify : bool;
  sr_BaseDir : bytes; sr_Listing : bool; sr_BasicAuth : bytes; sr_auth : option BasicAuth;
  sr_OIDC : bytes; sr_RequireMFA : bool; sr_RequireGroups : list bytes; sr_RequireRoles : list bytes;
  sr_IdentitySecretFile : bytes; sr_identitySecret : bytes;
}.

(** [Rule]; [fixedCert] is whether one is set. *)
Record Rule := mkRule {
  r_Listener : bytes; r_Line : Z; r_Source : bytes;
  r_Kind : ruleKind; r_literalChars : Z; r_NoSNI : bool; r_Pattern : option Regexp;
  r_Allow : bool; r_TargetHost : bytes; r_TargetPort : Z;
  r_Cert : bytes; r_CertDomains : list bytes; r_certNames : list Regexp;
  r_certIPs : list addr; r_certHosts : list bytes; r_certKey : bytes;
  r_CertValidateScript : bytes; r_CertValidateArgs : list bytes;
  r_UpstreamTLS : bool; r_UpstreamTLSVerify : bool; r_UpstreamSNI : bytes;
  r_Proxy : bool; r_ProxyVersion : Z;
  r_MaxAggregatedSpeed : float64; r_MaxSingleConnectionSpeed : float64;
  r_Routes : list ServiceRoute; r_Console : bool; r_fixedCert : bool;
}.

(** [Rule{}] *)
Definition zero_rule : Rule :=
  mkRule [] 0 [] kindNone 0 false None false [] 0 [] [] [] [] [] [] [] [] false false [] false 0
    (S754_zero false) (S754_zero false) [] false false.

Definition key_sep : bytes := [0].

(** [Rule.Key] *)
Definition Key (r : Rule) : bytes :=
  let pattern :=
    if r_NoSNI r then noSNI
    else if bool_decide (r_Kind r = kindCatchAll) then anythingElse
    else match r_Pattern r with Some re => re_text re | None => [] end in
  r_Listener r ++ key_sep ++ pattern.

Definition implicitDenyKey (listener : bytes) : bytes := listener ++ key_sep ++ anythingElse.

Definition Terminates (r : Rule) : bool := negb (bool_decide (r_Cert r = [])).
(** [Rule.Serves] ([serve_config.go]) *)
Definition Serves (r : Rule) : bool := (0 <? len (r_Routes r)) || r_Console r.

(** * Expanding a target *)

Inductive expand_err :=
| BareReference (digits : bytes) | BareDollar | Unterminated
| UnknownReference (name : bytes) | NoSuchCapture (n : Z).

Definition slice (s : bytes) (i j : Z) : bytes := take (Z.to_nat (j - i)) (drop (Z.to_nat i) s).

(** The reference between [${] and [}]. *)
Definition expand_ref (name input : bytes) (m : list Z) : res expand_err bytes :=
  let name := if bool_decide (name = lit "host") then lit "0" else name in
  match atoi name with
  | None => Err (UnknownReference name)
  | Some n =>
      if (n <? 0) || negb (bool_decide (itoa n = name)) then Err (UnknownReference name)
      else if len m <=? 2 * n + 1 then Err (NoSuchCapture n)
      else
        let at_ i := default 0 (m !! Z.to_nat i) in
        Ok (if 0 <=? at_ (2 * n) then slice input (at_ (2 * n)) (at_ (2 * n + 1)) else [])
  end.

(** [expand]'s loop over [template[i:]]; each turn takes at least a byte. *)
Fixpoint expand_go (fuel : nat) (template input : bytes) (m : list Z) (out : bytes) : res expand_err bytes :=
  match fuel with
  | O => Ok out
  | S fuel' =>
      match template with
      | [] => Ok out
      | c :: tl =>
          if negb (c =? ch "$") then
            let j := default (length template) (index_byte template (ch "$")) in
            expand_go fuel' (drop j template) input m (out ++ take j template)
          else
            match tl with
            | b :: _ =>
                if b =? ch "{" then
                  match index_byte template (ch "}") with
                  | None => Err Unterminated
                  | Some e =>
                      let! text := expand_ref (take (e - 2) (drop 2 template)) input m in
                      expand_go fuel' (drop (S e) template) input m (out ++ text)
                  end
                else
                  let bare := match index_by (fun r => negb (is_digit r)) tl with
                              | Some k => take k tl | None => tl end in
                  if bool_decide (bare = []) then Err BareDollar else Err (BareReference bare)
            | [] => Err BareDollar
            end
      end
  end.
Definition expand (template input : bytes) (m : list Z) : res expand_err bytes :=
  expand_go (length template) template input m [].

(** * Routing one name *)

Inductive decide_err := ExpandErr (e : expand_err) | InvalidHost (line : Z) (host : bytes).

(** [Decision]; the name is stdpp's here. *)
Record RouteDecision := mkDecision {
  d_Allow : bool; d_Host : bytes; d_Port : Z; d_RuleLine : Z; d_Rule : option Rule; d_Err : option decide_err;
}.
(** [Decision{}] *)
Definition no_decision : RouteDecision := mkDecision false [] 0 0 None None.

(** The host a target may be: no colon and host characters only, or an IP
    address. *)
Definition target_host_ok (host : bytes) : bool :=
  negb (bool_decide (host = [])) &&
  (if contains host (ch ":") then match parse_addr host with Some _ => true | None => false end
   else forallb isHostChar host).

(** [Rule.decide] *)
Definition decide_rule (r : Rule) (sni : bytes) (m : list Z) : RouteDecision :=
  if negb (r_Allow r) then mkDecision false [] 0 (r_Line r) (Some r) None
  else if Serves r then mkDecision true [] 0 (r_Line r) (Some r) None
  else
    match expand (r_TargetHost r) sni m with
    | Err e => mkDecision false [] 0 (r_Line r) (Some r) (Some (ExpandErr e))
    | Ok host =>
        if negb (target_host_ok host)
        then mkDecision false [] 0 (r_Line r) (Some r) (Some (InvalidHost (r_Line r) host))
        else mkDecision true host (r_TargetPort r) (r_Line r) (Some r) None
    end.

(** A listener's lookup structures: literal names (and, under a key no name
    can be, the wildcards seen), and the other rules by specificity. *)
Record Routes := mkRoutes { literals : gmap bytes Rule; byPriority : list Rule }.

Section Route.
Context (l : Routes) (sni : bytes) (stopped : bytes → bool).

Fixpoint route_priority (rules : list Rule) : RouteDecision :=
  match rules with
  | [] => no_decision
  | r :: rules' =>
      if stopped (Key r) then route_priority rules'
      else if r_NoSNI r then
        if negb (bool_decide (sni = [])) then route_priority rules' else decide_rule r sni [0; 0]
      else
        match r_Pattern r with
        | Some re => match FindStringSubmatchIndex re sni with
                     | None => route_priority rules'
                     | Some m => decide_rule r sni m
                     end
        | None => route_priority rules' (* only a $no_sni rule has no pattern *)
        end
  end.

(** [RouteExcept] *)
Definition RouteExcept : RouteDecision :=
  match literals l !! sni with
  | Some r => if stopped (Key r) then route_priority (byPriority l) else decide_rule r sni [0; len sni]
  | None => route_priority (byPriority l)
  end.
End Route.

Definition Route (l : Routes) (sni : bytes) : RouteDecision := RouteExcept l sni (fun _ => false).

(** * Classifying a pattern *)

Inductive pattern_help := HelpAlternatives | HelpRegexp | HelpName.
Inductive classify_err :=
| OldNone | OldAny | SpecialDomain | NotHostName (h : pattern_help) | DoubleStar.

Definition patternHelp (pattern : bytes) : pattern_help :=
  if contains pattern (ch "|") then HelpAlternatives
  else if contains_any pattern (lit "()[]{}+?\^$") || contains_str pattern (lit ".*") then HelpRegexp
  else HelpName.

(** [literalName] *)
Definition literalName (pattern : bytes) : bytes :=
  let bare := trim_suffix (trim_prefix pattern (lit "^")) (lit "$") in
  to_lower (replace_all2 bare 92 46 [46]).

(** One label of a wildcard: its expression and literal characters. *)
Definition label_expr (label : bytes) : bytes :=
  if bool_decide (label = lit "*") then lit "([^.]+)"
  else concat ((fun c => if c =? ch "*" then lit "([^.]*)" else quote_meta [c]) <$> label).
Definition label_literals (label : bytes) : Z :=
  if bool_decide (label = lit "*") then 0 else len (filter (fun c => c <> ch "*") label).

Definition classify (pattern : bytes) : res classify_err (ruleKind * bytes * Z) :=
  if bool_decide (pattern = noSNI) then Ok (kindNone, [], 0)
  else if bool_decide (pattern = anythingElse) then Ok (kindCatchAll, lit ".*", 0)
  else if equal_fold pattern (lit "none") then Err OldNone
  else if equal_fold pattern (lit "any")
       || bool_decide (trim_suffix (trim_prefix pattern (lit "^")) (lit "$") = lit ".*") then Err OldAny
  else if has_prefix pattern (lit "$") then Err SpecialDomain
  else
    let name := literalName pattern in
    if negb (forallb (fun c => isHostChar c || (c =? ch "*")) name) then Err (NotHostName (patternHelp pattern))
    else if bool_decide (name = []) || has_prefix name (lit ".") || has_suffix name (lit ".")
            || contains_str name (lit "..") then Err (NotHostName (patternHelp pattern))
    else if negb (contains name (ch "*")) then Ok (kindLiteral, quote_meta name, len name)
    else if contains_str name (lit "**") then Err DoubleStar
    else
      let labels := split_byte name (ch ".") in
      Ok (kindWildcard, join (lit "\.") (label_expr <$> labels),
          foldr Z.add 0 (label_literals <$> labels) + Z.of_nat (count_byte name (ch "."))).

(** * Ordering a listener's rules *)

Inductive prioritise_err :=
| DuplicateName (line prev : Z) (name : bytes)        (* two literals or two wildcards *)
| NeverMatches (line prev : Z).                       (* two $no_sni or two $anything_else *)

Record collecting := mkCollecting {
  c_literals : gmap bytes Rule; c_first : ruleKind → option Rule; c_rules : list Rule;
}.

Definition wildcard_key (r : Rule) : bytes := key_sep ++ literalName (r_Source r).

(** One turn of the first loop of [prioritiseListener]. *)
Definition collect (c : collecting) (r : Rule) : res prioritise_err collecting :=
  match r_Kind r with
  | kindLiteral =>
      let name := literalName (r_Source r) in
      match c_literals c !! name with
      | Some prev => Err (DuplicateName (r_Line r) (r_Line prev) name)
      | None => Ok (mkCollecting (<[name := r]> (c_literals c)) (c_first c) (c_rules c))
      end
  | kindWildcard =>
      match c_literals c !! wildcard_key r with
      | Some prev => Err (DuplicateName (r_Line r) (r_Line prev) (literalName (r_Source r)))
      | None => Ok (mkCollecting (<[wildcard_key r := r]> (c_literals c)) (c_first c) (c_rules c ++ [r]))
      end
  | k =>
      match c_first c k with
      | Some prev => Err (NeverMatches (r_Line r) (r_Line prev))
      | None => Ok (mkCollecting (c_literals c)
                      (fun k' => if decide (k' = k) then Some r else c_first c k') (c_rules c ++ [r]))
      end
  end.

Fixpoint collect_all (c : collecting) (rules : list Rule) : res prioritise_err collecting :=
  match rules with
  | [] => Ok c
  | r :: rules' => let! c' := collect c r in collect_all c' rules'
  end.

(** The comparison of [sort.SliceStable]. *)
Definition more_specific (a b : Rule) : bool :=
  if negb (bool_decide (r_Kind a = r_Kind b)) then kind_num (r_Kind a) <? kind_num (r_Kind b)
  else r_literalChars b <? r_literalChars a.

(** The pairs that the warning about file order lists: a rule and an earlier,
    broader one that would have caught it. *)
Fixpoint first_broader (r : Rule) (before : list Rule) : option Rule :=
  match before with
  | [] => None
  | prev :: before' =>
      if (kind_num (r_Kind r) <? kind_num (r_Kind prev)) &&
         (bool_decide (r_Kind prev = kindCatchAll) ||
          bool_decide (r_Kind r = kindLiteral) &&
          match r_Pattern prev with Some re => MatchString re (literalName (r_Source r)) | None => false end)
      then Some prev else first_broader r before'
  end.
Fixpoint order_warnings (before rules : list Rule) : list (Rule * Rule) :=
  match rules with
  | [] => []
  | r :: rules' =>
      let rest := order_warnings (before ++ [r]) rules' in
      if r_Console r then rest
      else match first_broader r before with Some prev => (r, prev) :: rest | None => rest end
  end.

(** [prioritiseListener] on the rules of [c.Rules] that name the listener. *)
Definition listener_rules (rules : list Rule) (name : bytes) : list Rule :=
  filter (fun r => r_Listener r = name) rules.

Definition prioritiseListener (all : list Rule) (name : bytes) : res prioritise_err (Routes * list (Rule * Rule)) :=
  let rules := listener_rules all name in
  let! c := collect_all (mkCollecting ∅ (fun _ => None) []) rules in
  Ok (mkRoutes (c_literals c) (stable_sort more_specific (c_rules c)), order_warnings [] rules).

(** * What the regular expressions match *)

Lemma run_some {A} ok least (k : bytes → Z → option A) s pos n m :
  run ok least k s pos n = Some m →
  ∃ x s', s = x ++ s' ∧ forallb ok x = true ∧ (least <= n + length x)%nat ∧ k s' (pos + len x) = Some m.
Proof.
  revert pos n; induction s as [|c s IH]; intros pos n; cbn [run].
  - destruct (Nat.leb_spec least n); [|done]. intros Hk. exists [], []. rewrite Z.add_0_r. cbn. repeat split; [lia|done].
  - assert ((if (least <=? n)%nat then k (c :: s) pos else None) = Some m →
      ∃ x s', c :: s = x ++ s' ∧ forallb ok x = true ∧ (least <= n + length x)%nat ∧ k s' (pos + len x) = Some m) as Hhere.
    { destruct (Nat.leb_spec least n); [|done]. intros Hk. exists [], (c :: s). rewrite Z.add_0_r. cbn. repeat split; [lia|done]. }
    destruct (ok c) eqn:Ec; [|exact Hhere].
    destruct (run ok least k s (pos + 1) (S n)) as [m'|] eqn:E; [|exact Hhere].
    intros [= <-]. apply IH in E as (x & s' & -> & Hx & Hl & Hk). exists (c :: x), s'. cbn. rewrite Ec.
    repeat split; [done|lia|]. replace (pos + len (c :: x)) with (pos + 1 + len x) by len_lia. done.
Qed.

Lemma run_none {A} ok least (k : bytes → Z → option A) x s' pos n :
  run ok least k (x ++ s') pos n = None → forallb ok x = true → (least <= n + length x)%nat →
  k s' (pos + len x) = None.
Proof.
  revert pos n; induction x as [|c x IH]; intros pos n H Hx Hl.
  - cbn in Hl. rewrite Z.add_0_r. destruct s' as [|c s']; cbn [app run] in H;
      (destruct (Nat.leb_spec least n); [|lia]); [done|].
    destruct (ok c); [|done]. by destruct (run ok least k s' (pos + 1) (S n)).
  - cbn [app run forallb] in *. apply andb_true_iff in Hx as [Hc Hx]. rewrite Hc in H.
    destruct (run ok least k (x ++ s') (pos + 1) (S n)) eqn:E; [done|].
    apply IH in E; [|done|cbn in Hl; lia]. replace (pos + len (c :: x)) with (pos + 1 + len x) by len_lia. done.
Qed.

Definition not_dot (c : Z) : bool := negb (c =? 46).
Definition not_newline (c : Z) : bool := negb (c =? 10).

(** The language of an expression: [s] is what its items become with these
    texts for the captures. *)
Fixpoint fills (fold : bool) (items : list re_item) (s : bytes) (caps : list bytes) : Prop :=
  match items with
  | [] => s = [] ∧ caps = []
  | RLit c :: items' => ∃ d s', s = d :: s' ∧ char_match fold c d = true ∧ fills fold items' s' caps
  | RLabel :: items' => ∃ x s' caps', s = x ++ s' ∧ caps = x :: caps' ∧ forallb not_dot x = true ∧ x ≠ []
                         ∧ fills fold items' s' caps'
  | RPart :: items' => ∃ x s' caps', s = x ++ s' ∧ caps = x :: caps' ∧ forallb not_dot x = true
                        ∧ fills fold items' s' caps'
  | RAll :: items' => ∃ x s', s = x ++ s' ∧ forallb not_newline x = true ∧ fills fold items' s' caps
  end.

Definition flatten_pairs (ms : list (Z * Z)) : list Z := concat ((fun m => [m.1; m.2]) <$> ms).

(** A submatch's indexes and its text. *)
Definition captured (input x : bytes) (m : Z * Z) : Prop := 0 <= m.1 ∧ slice input m.1 m.2 = x.

Lemma slice_middle pre x s : slice (pre ++ x ++ s) (len pre) (len pre + len x) = x.
Proof.
  unfold slice. rewrite drop_len_app. replace (len pre + len x - len pre) with (len x) by lia. apply take_len_app.
Qed.

Lemma match_items_some fold items pre s m : match_items fold items s (len pre) = Some m →
  ∃ caps ms, fills fold items s caps ∧ m = flatten_pairs ms ∧ Forall2 (captured (pre ++ s)) caps ms.
Proof.
  revert pre s m; induction items as [|i items IH]; intros pre s m; cbn [match_items].
  { destruct (decide (s = [])) as [->|]; [|by rewrite bool_decide_eq_false_2].
    rewrite bool_decide_eq_true_2 by done. intros [= <-]. exists [], []. repeat split. constructor. }
  destruct i as [c| | |].
  - destruct s as [|d s]; [done|]. destruct (char_match fold c d) eqn:Ec; [|done].
    replace (len pre + 1) with (len (pre ++ [d])) by len_lia. intros (caps & ms & Hf & -> & Hc)%IH.
    exists caps, ms. rewrite <- app_assoc in Hc. repeat split; [|done]. exists d, s. done.
  - intros (x & s' & -> & Hx & Hl & Hk)%run_some. cbn beta in Hk. rewrite <- len_app in Hk.
    destruct (match_items _ _ _ _) as [m'|] eqn:E; [|done]. injection Hk as <-.
    apply IH in E as (caps & ms & Hf & -> & Hc). exists (x :: caps), ((len pre, len pre + len x) :: ms).
    rewrite <- app_assoc in Hc. repeat split; [|by rewrite <- len_app|constructor; [|done]].
    + exists x, s', caps. repeat split; try done. destruct x; [cbn in Hl; lia|done].
    + split; [apply len_nonneg|apply slice_middle].
  - intros (x & s' & -> & Hx & Hl & Hk)%run_some. cbn beta in Hk. rewrite <- len_app in Hk.
    destruct (match_items _ _ _ _) as [m'|] eqn:E; [|done]. injection Hk as <-.
    apply IH in E as (caps & ms & Hf & -> & Hc). exists (x :: caps), ((len pre, len pre + len x) :: ms).
    rewrite <- app_assoc in Hc. repeat split; [|by rewrite <- len_app|constructor; [|done]].
    + exists x, s', caps. repeat split; done.
    + split; [apply len_nonneg|apply slice_middle].
  - intros (x & s' & -> & Hx & Hl & Hk)%run_some. cbn beta in Hk. rewrite <- len_app in Hk.
    apply IH in Hk as (caps & ms & Hf & -> & Hc). rewrite <- app_assoc in Hc. exists caps, ms. repeat split; [|done].
    exists x, s'. done.
Qed.

Lemma match_items_none fold items s pos caps : match_items fold items s pos = None → ¬ fills fold items s caps.
Proof.
  revert s pos caps; induction items as [|i items IH]; intros s pos caps; cbn [match_items fills].
  { intros H [-> _]. by rewrite bool_decide_eq_true_2 in H. }
  destruct i as [c| | |].
  - intros H (d & s' & -> & Hc & Hf). rewrite Hc in H. by eapply IH.
  - intros H (x & s' & caps' & -> & -> & Hx & Hne & Hf).
    eapply (run_none _ _ _ x s') in H; [|done|destruct x; [done|cbn; lia]]. cbn beta in H.
    destruct (match_items _ _ _ _) eqn:E; [done|]. by eapply IH.
  - intros H (x & s' & caps' & -> & -> & Hx & Hf).
    eapply (run_none _ _ _ x s') in H; [|done|lia]. cbn beta in H.
    destruct (match_items _ _ _ _) eqn:E; [done|]. by eapply IH.
  - intros H (x & s' & -> & Hx & Hf). eapply (run_none _ _ _ x s') in H; [|done|lia]. by eapply IH.
Qed.

Lemma MatchString_fills re s : MatchString re s = true ↔ ∃ caps, fills (re_fold re) (re_items re) s caps.
Proof.
  unfold MatchString, FindStringSubmatchIndex. destruct (match_items _ _ _ _) as [m|] eqn:E; cbn; split; try done.
  - change 0 with (len (@nil Z)) in E. apply match_items_some in E as (caps & ms & H & _). eauto.
  - intros [caps H]. by apply (match_items_none _ _ _ _ caps) in E.
Qed.

(** ** The expressions [classify] writes *)

Definition star : Z := 42.

Definition label_items (label : bytes) : list re_item :=
  if bool_decide (label = [star]) then [RLabel]
  else (fun c => if c =? star then RPart else RLit c) <$> label.

Fixpoint name_items (labels : list bytes) : list re_item :=
  match labels with
  | [] => []
  | [l] => label_items l
  | l :: labels' => label_items l ++ RLit 46 :: name_items labels'
  end.

Definition pattern_char (c : Z) : bool := isHostChar c || (c =? star).

Lemma host_char_range c : isHostChar c = true ↔ 97 <= c <= 122 ∨ 65 <= c <= 90 ∨ 48 <= c <= 57 ∨ c = 46 ∨ c = 45 ∨ c = 95.
Proof. unfold isHostChar. rewrite !orb_true_iff, !andb_true_iff, !Z.leb_le, !Z.eqb_eq. lia. Qed.

Lemma host_not_meta c : isHostChar c = true → c ≠ 46 → is_meta c = false.
Proof.
  rewrite host_char_range. intros H H46. unfold is_meta, contains. apply bool_decide_eq_false.
  vm_compute (92 :: lit ".+*?()|[]{}^$"). rewrite !elem_of_cons, elem_of_nil. lia.
Qed.

Lemma parse_re_plain c k : is_meta c = false → parse_re (c :: k) = cons (RLit c) <$> parse_re k.
Proof.
  intros H. assert (c ≠ 92 ∧ c ≠ 40 ∧ c ≠ 46) as (H1 & H2 & H3).
  { repeat split; intros ->; done. }
  cbn [parse_re]. rewrite H. by repeat (case_match; try done).
Qed.

Lemma parse_re_meta c k : is_meta c = true → parse_re (92 :: c :: k) = cons (RLit c) <$> parse_re k.
Proof. intros H. cbn [parse_re]. by rewrite H. Qed.

Lemma parse_re_quoted s k : parse_re (quote_meta s ++ k) = app (RLit <$> s) <$> parse_re k.
Proof.
  unfold quote_meta. induction s as [|c s IH]; cbn [fmap list_fmap concat app].
  - by destruct (parse_re k).
  - destruct (is_meta c) eqn:E; cbn [app].
    + rewrite parse_re_meta, IH by done. by destruct (parse_re k).
    + rewrite parse_re_plain, IH by done. by destruct (parse_re k).
Qed.

Lemma parse_re_label l k : parse_re (label_expr l ++ k) = app (label_items l) <$> parse_re k.
Proof.
  unfold label_expr, label_items. change (lit "*") with [star]. destruct (bool_decide _).
  { change (lit "([^.]+)") with [40; 91; 94; 46; 93; 43; 41]. cbn [app parse_re fmap list_fmap]. by destruct (parse_re k). }
  change (ch "*") with star. set (f := fun c => if c =? star then lit "([^.]*)" else quote_meta [c]).
  set (g := fun c => if c =? star then RPart else RLit c).
  induction l as [|c l IH]; [cbn; by destruct (parse_re k)|].
  change (concat (f <$> c :: l)) with (f c ++ concat (f <$> l)). change (g <$> c :: l) with (g c :: (g <$> l)).
  rewrite <- app_assoc. assert (∀ t, parse_re (f c ++ t) = cons (g c) <$> parse_re t) as ->.
  { intros t. unfold f, g. destruct (c =? star); [done|]. rewrite parse_re_quoted. done. }
  rewrite IH. by destruct (parse_re k).
Qed.

Lemma parse_re_name labels : parse_re (join (lit "\.") (label_expr <$> labels)) = Some (name_items labels).
Proof.
  induction labels as [|l labels IH]; [done|]. destruct labels as [|l' labels].
  - cbn. rewrite <- (app_nil_r (label_expr l)), parse_re_label. cbn. by rewrite app_nil_r.
  - change (join (lit "\.") (label_expr <$> l :: l' :: labels))
      with (label_expr l ++ 92 :: 46 :: join (lit "\.") (label_expr <$> l' :: labels)).
    rewrite parse_re_label, parse_re_meta, IH by done. done.
Qed.

(** ** Label by label *)

(** What a star inside a label may stand for: anything. *)
Fixpoint glob (p l : bytes) : bool :=
  match p with
  | [] => bool_decide (l = [])
  | c :: p' =>
      if c =? star
      then (fix any l := glob p' l || match l with [] => false | _ :: l' => any l' end) l
      else match l with d :: l' => (lower c =? lower d) && glob p' l' | [] => false end
  end.

(** A label that is a star alone is one label, never an empty one. *)
Definition label_match (p l : bytes) : bool :=
  if bool_decide (p = [star]) then negb (bool_decide (l = [])) else glob p l.

(** The name with its stars replaced, left to right. *)
Fixpoint fill (name : bytes) (caps : list bytes) : option bytes :=
  match name with
  | [] => if bool_decide (caps = []) then Some [] else None
  | c :: name' =>
      if c =? star then match caps with x :: caps' => app x <$> fill name' caps' | [] => None end
      else cons c <$> fill name' caps
  end.

Lemma fills_app fold i j s caps : fills fold (i ++ j) s caps ↔
  ∃ s1 s2 c1 c2, s = s1 ++ s2 ∧ caps = c1 ++ c2 ∧ fills fold i s1 c1 ∧ fills fold j s2 c2.
Proof.
  revert s caps; induction i as [|x i IH]; intros s caps; cbn [app fills].
  { split.
    - intros H. by exists [], s, [], caps.
    - by intros (s1 & s2 & c1 & c2 & -> & -> & [-> ->] & H). }
  destruct x as [c| | |]; setoid_rewrite IH; split.
  - intros (d & s' & -> & Hc & s1 & s2 & c1 & c2 & -> & -> & H1 & H2). exists (d :: s1), s2, c1, c2. repeat split; eauto.
  - intros (s1 & s2 & c1 & c2 & -> & -> & (d & s' & -> & Hc & H1) & H2). exists d, (s' ++ s2). repeat split; [done|]. by exists s', s2, c1, c2.
  - intros (x & s' & caps' & -> & -> & Hx & Hne & s1 & s2 & c1 & c2 & -> & -> & H1 & H2).
    exists (x ++ s1), s2, (x :: c1), c2. rewrite <- app_assoc. repeat split; [|done]. by exists x, s1, c1.
  - intros (s1 & s2 & c1 & c2 & -> & -> & (x & s' & caps' & -> & -> & Hx & Hne & H1) & H2).
    exists x, (s' ++ s2), (caps' ++ c2). rewrite <- app_assoc. repeat split; try done. by exists s', s2, caps', c2.
  - intros (x & s' & caps' & -> & -> & Hx & s1 & s2 & c1 & c2 & -> & -> & H1 & H2).
    exists (x ++ s1), s2, (x :: c1), c2. rewrite <- app_assoc. repeat split; [|done]. by exists x, s1, c1.
  - intros (s1 & s2 & c1 & c2 & -> & -> & (x & s' & caps' & -> & -> & Hx & H1) & H2).
    exists x, (s' ++ s2), (caps' ++ c2). rewrite <- app_assoc. repeat split; try done. by exists s', s2, caps', c2.
  - intros (x & s' & -> & Hx & s1 & s2 & c1 & c2 & -> & -> & H1 & H2).
    exists (x ++ s1), s2, c1, c2. rewrite <- app_assoc. repeat split; [|done]. by exists x, s1.
  - intros (s1 & s2 & c1 & c2 & -> & -> & (x & s' & -> & Hx & H1) & H2).
    exists x, (s' ++ s2). rewrite <- app_assoc. repeat split; try done. by exists s', s2, c1, c2.
Qed.

Definition plain_items (s : bytes) : list re_item := (fun c => if c =? star then RPart else RLit c) <$> s.

Lemma not_dot_spec (x : bytes) : forallb not_dot x = true ↔ 46 ∉ x.
Proof.
  rewrite forallb_forall. split.
  - intros H Hx. apply list_elem_of_In, H in Hx. done.
  - intros H c Hc. apply list_elem_of_In in Hc. unfold not_dot. destruct (Z.eqb_spec c 46) as [->|]; done.
Qed.

Lemma lower_dot d : lower 46 = lower d → d = 46.
Proof. unfold lower, is_upper. intros H. cbn in H. case_match; bool_prop; lia. Qed.
Lemma lower_not_dot c d : lower c = lower d → c ≠ 46 → d ≠ 46.
Proof. intros H Hc ->. symmetry in H. by apply lower_dot in H. Qed.

Lemma glob_fills p l : 46 ∉ p → (∃ caps, fills true (plain_items p) l caps) ↔ (46 ∉ l) ∧ glob p l = true.
Proof.
  revert l; induction p as [|c p IH]; intros l Hp; cbn [plain_items fmap list_fmap fills glob].
  { rewrite bool_decide_eq_true. split; [intros (caps & -> & _); split; [apply not_elem_of_nil|done]|intros [_ ->]; eauto]. }
  apply not_elem_of_cons in Hp as [Hc Hp]. fold (plain_items p). destruct (c =? star) eqn:Es; cbn [fills].
  - split.
    + intros (caps & x & s' & caps' & -> & -> & Hx & Hf). apply not_dot_spec in Hx.
      assert ((46 ∉ s') ∧ glob p s' = true) as [Hs Hg] by (apply IH; eauto).
      split; [rewrite elem_of_app; tauto|]. clear Hx Hf. induction x as [|d x IHx]; cbn [app].
      * destruct s'; by rewrite Hg.
      * rewrite IHx. apply orb_true_r.
    + intros [Hl Hg]. induction l as [|d l IHl].
      * rewrite orb_false_r in Hg. destruct (proj2 (IH [] Hp)) as [caps Hf]; [done|].
        exists ([] :: caps), [], [], caps. done.
      * apply orb_true_iff in Hg as [Hg|Hg].
        -- destruct (proj2 (IH (d :: l) Hp)) as [caps Hf]; [done|]. exists ([] :: caps), [], (d :: l), caps. done.
        -- apply not_elem_of_cons in Hl as [Hd Hl]. destruct (IHl Hl Hg) as (caps & x & s' & caps' & -> & -> & Hx & Hf).
           exists ((d :: x) :: caps'), (d :: x), s', caps'. repeat split; [|done]. cbn [forallb]. rewrite Hx, andb_true_r.
           unfold not_dot. by destruct (Z.eqb_spec d 46).
  - split.
    + intros (caps & d & s' & -> & Hd & Hf). assert ((46 ∉ s') ∧ glob p s' = true) as [Hs Hg] by (apply IH; eauto).
      unfold char_match in Hd. rewrite Hd, Hg. split; [|done]. apply Z.eqb_eq, lower_not_dot in Hd; [|done]. by apply not_elem_of_cons.
    + destruct l as [|d l]; [by intros [_ ?]|]. intros [Hl [Hd Hg]%andb_true_iff]. apply not_elem_of_cons in Hl as [_ Hl].
      destruct (proj2 (IH l Hp)) as [caps Hf]; [done|]. exists caps, d, l. done.
Qed.

Lemma label_fills p l : 46 ∉ p → (∃ caps, fills true (label_items p) l caps) ↔ (46 ∉ l) ∧ label_match p l = true.
Proof.
  intros Hp. unfold label_items, label_match. destruct (bool_decide (p = [star])); [|by apply glob_fills].
  cbn [fills]. rewrite negb_true_iff, bool_decide_eq_false. split.
  - intros (caps & x & s' & caps' & -> & -> & Hx & Hne & -> & ->). rewrite app_nil_r. by rewrite <- not_dot_spec.
  - intros [Hl Hne]. exists [l], l, [], []. rewrite app_nil_r, not_dot_spec. done.
Qed.

Lemma name_fills labels s : labels ≠ [] → Forall (fun p => 46 ∉ p) labels →
  (∃ caps, fills true (name_items labels) s caps) ↔
  Forall2 (fun p l => label_match p l = true) labels (split_byte s 46).
Proof.
  revert s; induction labels as [|p labels IH]; [done|]. intros s _ [Hp Hps]%Forall_cons.
  destruct labels as [|p' labels].
  - cbn [name_items]. rewrite label_fills by done. split.
    + intros [Hs Hm]. rewrite split_byte_none by done. by repeat constructor.
    + intros H. pose proof (join_split s 46) as Hj. pose proof (split_byte_no_sep s 46) as Hn.
      inversion H as [|? w ? ws Hw Hr E1 E2]; subst. inversion Hr; subst. rewrite <- E2 in *. cbn in Hj. subst w.
      by apply Forall_cons in Hn as [? _].
  - change (name_items (p :: p' :: labels)) with (label_items p ++ RLit 46 :: name_items (p' :: labels)).
    setoid_rewrite fills_app. cbn [fills]. split.
    + intros (caps & s1 & s2 & c1 & c2 & -> & -> & H1 & d & s3 & -> & Hd & H3).
      unfold char_match in Hd. apply Z.eqb_eq, lower_dot in Hd as ->.
      assert ((46 ∉ s1) ∧ label_match p s1 = true) as [Hs1 Hm] by (apply label_fills; eauto).
      rewrite split_join_cons by done. constructor; [done|]. apply IH; [done|done|eauto].
    + intros H. pose proof (join_split s 46) as Hj. pose proof (split_byte_no_sep s 46) as Hn.
      inversion H as [|? w ? ws Hw Hr E1 E2]; subst. inversion Hr as [|? w' ? ws' Hw' Hr' E3 E4]; subst.
      rewrite <- E2 in *. apply Forall_cons in Hn as [Hn _].
      assert (s = w ++ 46 :: join [46] (w' :: ws')) as Es by (by rewrite <- Hj).
      rewrite Es, split_join_cons in E2 by done. injection E2 as E2.
      rewrite E2 in Hr. apply IH in Hr as [c2 H2]; [|done|done].
      assert (∃ c1, fills true (label_items p) w c1) as [c1 H1] by (by apply label_fills).
      exists (c1 ++ c2), w, (46 :: join [46] (w' :: ws')), c1, c2. repeat split; [done|done|].
      by exists 46, (join [46] (w' :: ws')).
Qed.

Lemma fills_weaken labels s caps : fills true (name_items labels) s caps → fills true (plain_items (join [46] labels)) s caps.
Proof.
  assert (∀ p s caps, fills true (label_items p) s caps → fills true (plain_items p) s caps) as Hlabel.
  { intros p t c. unfold label_items. destruct (bool_decide _) eqn:E; [|done]. apply bool_decide_eq_true in E as ->.
    cbn. intros (x & s' & caps' & -> & -> & Hx & _ & -> & ->). by exists x, [], []. }
  revert s caps; induction labels as [|p labels IH]; intros s caps; [done|]. destruct labels as [|p' labels]; [apply Hlabel|].
  change (name_items (p :: p' :: labels)) with (label_items p ++ RLit 46 :: name_items (p' :: labels)).
  change (join [46] (p :: p' :: labels)) with (p ++ [46] ++ join [46] (p' :: labels)).
  unfold plain_items. rewrite !fmap_app, !fills_app. intros (s1 & s2 & c1 & c2 & -> & -> & H1 & d & s3 & -> & Hd & H3).
  exists s1, (d :: s3), c1, c2. repeat split; [by apply Hlabel|]. apply fills_app.
  exists [d], s3, [], c2. repeat split; [by exists d, []|by apply IH].
Qed.

Lemma fills_fill name s caps : fills true (plain_items name) s caps →
  ∃ t, fill name caps = Some t ∧ to_lower t = to_lower s ∧ Forall (fun x => 46 ∉ x) caps.
Proof.
  revert s caps; induction name as [|c name IH]; intros s caps; cbn [plain_items fmap list_fmap fills fill].
  - intros [-> ->]. by exists [].
  - fold (plain_items name). destruct (c =? star); cbn [fills].
    + intros (x & s' & caps' & -> & -> & Hx & (t & -> & Ht & Hc)%IH). exists (x ++ t). rewrite !to_lower_app, Ht.
      repeat split. constructor; [by apply not_dot_spec|done].
    + intros (d & s' & -> & Hd & (t & -> & Ht & Hc)%IH). exists (c :: t). split; [done|]. split; [|done].
      unfold char_match in Hd. cbn [to_lower fmap list_fmap]. apply Z.eqb_eq in Hd. rewrite Hd. f_equal. done.
Qed.

(** ** Submatches by number *)

Lemma lookup_flatten ms (k : nat) p : ms !! k = Some p →
  flatten_pairs ms !! (2 * k)%nat = Some p.1 ∧ flatten_pairs ms !! S (2 * k) = Some p.2.
Proof.
  revert k; induction ms as [|m ms IH]; intros k H; [done|]. destruct k as [|k]; [by injection H as ->|].
  replace (2 * S k)%nat with (S (S (2 * k))) by lia. cbn [flatten_pairs fmap list_fmap concat app]. by apply IH.
Qed.

Lemma length_flatten ms : length (flatten_pairs ms) = (2 * length ms)%nat.
Proof. unfold flatten_pairs. induction ms; cbn in *; lia. Qed.

Lemma expand_ref_lookup (n : nat) input m a b : Z.of_nat n < 2 ^ 63 →
  m !! (2 * n)%nat = Some a → m !! S (2 * n) = Some b → 0 <= a →
  expand_ref (itoa (Z.of_nat n)) input m = Ok (slice input a b).
Proof.
  intros Hn Ha Hb H0. unfold expand_ref.
  destruct (bool_decide (itoa (Z.of_nat n) = lit "host")) eqn:E.
  { apply bool_decide_eq_true in E. pose proof (itoa_digits (Z.of_nat n) ltac:(lia)) as Hd. rewrite E in Hd. by inversion Hd. }
  rewrite atoi_itoa by lia. destruct (Z.ltb_spec (Z.of_nat n) 0); [lia|]. rewrite bool_decide_eq_true_2 by done. cbn [negb orb].
  pose proof (lookup_lt_Some _ _ _ Hb). destruct (Z.leb_spec (len m) (2 * Z.of_nat n + 1)); [len_lia|].
  replace (Z.to_nat (2 * Z.of_nat n)) with (2 * n)%nat by lia.
  replace (Z.to_nat (2 * Z.of_nat n + 1)) with (S (2 * n)) by lia. rewrite Ha, Hb. cbn [from_option]. unfold id.
  destruct (Z.leb_spec 0 a); [done|lia].
Qed.

Lemma expand_one (name input : bytes) m : 125 ∉ name →
  expand (36 :: 123 :: name ++ [125]) input m = expand_ref name input m.
Proof.
  intros Hn. unfold expand. cbn [length expand_go]. change (36 =? ch "$") with true. change (123 =? ch "{") with true.
  cbn [negb]. change (ch "}") with 125.
  assert (index_byte (36 :: 123 :: name ++ [125]) 125 = Some (S (S (length name)))) as ->.
  { apply index_by_spec. split.
    - exists 125. split; [|done]. apply (list_lookup_middle (36 :: 123 :: name)). done.
    - cbn [take]. rewrite take_app_length. constructor; [done|]. constructor; [done|].
      apply Forall_forall. intros d Hd. apply Z.eqb_neq. intros <-. done. }
  cbn [drop]. replace (S (S (length name)) - 2)%nat with (length name) by lia. rewrite drop_0, take_app_length.
  rewrite (drop_ge (name ++ [125])) by (rewrite length_app; cbn [length]; lia). by destruct (expand_ref name input m).
Qed.

(** * What the lookup structures hold *)

(** A rule's pattern as [buildRule] makes it. *)
Definition pattern_ok (r : Rule) : Prop := ∃ expr,
  classify (r_Source r) = Ok (r_Kind r, expr, r_literalChars r) ∧
  r_NoSNI r = bool_decide (r_Kind r = kindNone) ∧
  r_Pattern r = if r_NoSNI r then None else compile_re true expr.

(** Whether a rule, on its own, takes a name. *)
Definition rule_matches (r : Rule) (sni : bytes) : bool :=
  match r_Kind r with
  | kindNone => bool_decide (sni = [])
  | kindLiteral => bool_decide (sni = literalName (r_Source r))
  | _ => match r_Pattern r with Some re => MatchString re sni | None => false end
  end.

(** The submatches a rule's decision is made with. *)
Definition submatches (r : Rule) (sni : bytes) : list Z :=
  match r_Kind r with
  | kindNone => [0; 0]
  | kindLiteral => [0; len sni]
  | _ => default [] (r_Pattern r ≫= fun re => FindStringSubmatchIndex re sni)
  end.

Lemma classify_inv p k expr n : classify p = Ok (k, expr, n) →
  match k with
  | kindNone => p = noSNI ∧ expr = []
  | kindCatchAll => p = anythingElse ∧ expr = lit ".*"
  | kindLiteral => literalName p ≠ [] ∧ (star ∉ literalName p) ∧ expr = quote_meta (literalName p)
                   ∧ forallb pattern_char (literalName p) = true
  | kindWildcard => literalName p ≠ [] ∧ (star ∈ literalName p) ∧ forallb pattern_char (literalName p) = true
                    ∧ expr = join (lit "\.") (label_expr <$> split_byte (literalName p) 46)
  end.
Proof.
  unfold classify. destruct (bool_decide (p = noSNI)) eqn:E1; [intros [= <- <- <-]; by bool_prop|].
  destruct (bool_decide (p = anythingElse)) eqn:E2; [intros [= <- <- <-]; by bool_prop|].
  destruct (equal_fold p _); [done|]. destruct (equal_fold p _ || _); [done|]. destruct (has_prefix p _); [done|].
  destruct (negb (forallb _ _)) eqn:E3; [done|]. apply negb_false_iff in E3.
  destruct (_ || _) eqn:E4; [done|]. bool_prop.
  unfold contains. destruct (bool_decide (_ ∈ _)) eqn:E5; cbn [negb]; bool_prop.
  - destruct (contains_str _ (lit "**")); [done|]. intros [= <- <- <-]. done.
  - intros [= <- <- <-]. done.
Qed.

Lemma classify_compiles p k expr n : classify p = Ok (k, expr, n) → ∃ items, parse_re expr = Some items.
Proof.
  intros H%classify_inv. destruct k.
  - destruct H as [_ ->]. by exists [].
  - destruct H as (_ & _ & -> & _). rewrite <- (app_nil_r (quote_meta _)), parse_re_quoted. cbn. eauto.
  - destruct H as (_ & _ & _ & ->). rewrite parse_re_name. eauto.
  - destruct H as [_ ->]. vm_compute. eauto.
Qed.

Lemma more_specific_spec x y : more_specific x y = true ↔
  kind_num (r_Kind x) < kind_num (r_Kind y) ∨ r_Kind x = r_Kind y ∧ r_literalChars y < r_literalChars x.
Proof.
  unfold more_specific. destruct (decide (r_Kind x = r_Kind y)) as [E|E].
  - rewrite bool_decide_eq_true_2 by done. cbn [negb]. rewrite E, Z.ltb_lt. naive_solver lia.
  - rewrite bool_decide_eq_false_2 by done. cbn [negb]. rewrite Z.ltb_lt. naive_solver.
Qed.
Lemma kind_num_inj k k' : k = k' ↔ kind_num k = kind_num k'.
Proof. destruct k, k'; cbn; intuition (done || lia). Qed.
Lemma more_specific_spec_false x y : more_specific x y = false ↔
  kind_num (r_Kind y) < kind_num (r_Kind x) ∨ r_Kind x = r_Kind y ∧ r_literalChars x <= r_literalChars y.
Proof.
  rewrite <- not_true_iff_false, more_specific_spec.
  rewrite kind_num_inj. lia.
Qed.
Lemma more_specific_trans x y z : more_specific x y = false → more_specific y z = false → more_specific x z = false.
Proof. rewrite !more_specific_spec_false, !kind_num_inj. lia. Qed.
Lemma more_specific_asym x y : more_specific x y = true → more_specific y x = false.
Proof. rewrite more_specific_spec, more_specific_spec_false, !kind_num_inj. lia. Qed.

Definition not_literal (r : Rule) : Prop := r_Kind r ≠ kindLiteral.
#[export] Instance not_literal_dec r : Decision (not_literal r).
Proof. unfold not_literal. apply _. Defined.

Record collected (c : collecting) (seen : list Rule) : Prop := {
  collected_rules : c_rules c = filter not_literal seen;
  collected_in n r : c_literals c !! n = Some r →
    r ∈ seen ∧ (r_Kind r = kindLiteral ∧ n = literalName (r_Source r) ∨ r_Kind r = kindWildcard ∧ n = wildcard_key r);
  collected_all r : r ∈ seen → r_Kind r = kindLiteral → c_literals c !! literalName (r_Source r) = Some r;
  collected_wild r : r ∈ seen → r_Kind r = kindWildcard → c_literals c !! wildcard_key r = Some r;
  collected_first r : r ∈ seen → r_Kind r = kindNone ∨ r_Kind r = kindCatchAll → c_first c (r_Kind r) = Some r;
  collected_nodup : NoDup seen;
}.

(** The table after a rule that is recorded under [n]. *)
Lemma collected_insert c seen r n : collected c seen → c_literals c !! n = None →
  r_Kind r = kindLiteral ∧ n = literalName (r_Source r) ∨ r_Kind r = kindWildcard ∧ n = wildcard_key r →
  collected (mkCollecting (<[n := r]> (c_literals c)) (c_first c) (c_rules c ++ filter not_literal [r])) (seen ++ [r]).
Proof.
  intros [H1 H2 H3 H4 H5 H6] Hn Hk. split; cbn [c_rules c_literals c_first].
  - by rewrite filter_app, H1.
  - intros n' r' [[<- <-]|[_ [? ?]%H2]]%lookup_insert_Some; rewrite elem_of_app; [|auto]. split; [right; by left|done].
  - intros r' [Hr| ->%list_elem_of_singleton]%elem_of_app Hl.
    + pose proof (H3 r' Hr Hl). rewrite lookup_insert_ne; [done|]. intros ->. congruence.
    + destruct Hk as [[_ ->]|[? _]]; [apply lookup_insert_eq|congruence].
  - intros r' [Hr| ->%list_elem_of_singleton]%elem_of_app Hl.
    + pose proof (H4 r' Hr Hl). rewrite lookup_insert_ne; [done|]. intros ->. congruence.
    + destruct Hk as [[? _]|[_ ->]]; [congruence|apply lookup_insert_eq].
  - intros r' [Hr| ->%list_elem_of_singleton]%elem_of_app Hl; [by apply H5|]. destruct Hk as [[? _]|[? _]], Hl; congruence.
  - apply NoDup_app. split; [done|]. split; [|apply NoDup_singleton].
    intros r' Hr ->%list_elem_of_singleton.
    destruct Hk as [[Hk ->]|[Hk ->]]; [pose proof (H3 r Hr Hk)|pose proof (H4 r Hr Hk)]; congruence.
Qed.

Lemma collected_special c seen r : collected c seen → c_first c (r_Kind r) = None →
  r_Kind r = kindNone ∨ r_Kind r = kindCatchAll →
  collected (mkCollecting (c_literals c) (fun k' => if decide (k' = r_Kind r) then Some r else c_first c k')
               (c_rules c ++ filter not_literal [r])) (seen ++ [r]).
Proof.
  intros [H1 H2 H3 H4 H5 H6] Hn Hk. split; cbn [c_rules c_literals c_first].
  - by rewrite filter_app, H1.
  - intros n' r' [? ?]%H2. rewrite elem_of_app. auto.
  - intros r' [Hr| ->%list_elem_of_singleton]%elem_of_app Hl; [by apply H3|destruct Hk; congruence].
  - intros r' [Hr| ->%list_elem_of_singleton]%elem_of_app Hl; [by apply H4|destruct Hk; congruence].
  - intros r' [Hr| ->%list_elem_of_singleton]%elem_of_app Hl.
    + pose proof (H5 r' Hr Hl). destruct (decide _) as [E|]; [|done]. congruence.
    + by destruct (decide _).
  - apply NoDup_app. split; [done|]. split; [|apply NoDup_singleton].
    intros r' Hr ->%list_elem_of_singleton. pose proof (H5 r Hr Hk). congruence.
Qed.

Lemma filter_literal_1 r : r_Kind r = kindLiteral → filter not_literal [r] = [].
Proof. intros H. rewrite filter_cons_False, filter_nil; [done|]. unfold not_literal. tauto. Qed.
Lemma filter_other_1 r : r_Kind r ≠ kindLiteral → filter not_literal [r] = [r].
Proof. intros H. by rewrite filter_cons_True, filter_nil. Qed.

Lemma collect_ok c seen r c' : collected c seen → collect c r = Ok c' → collected c' (seen ++ [r]).
Proof.
  intros Hc. unfold collect. destruct (r_Kind r) eqn:Ek.
  - destruct (c_first c kindNone) eqn:Ef; [done|]. intros [= <-]. rewrite <- Ek in Ef.
    pose proof (collected_special c seen r Hc Ef ltac:(auto)) as H. rewrite Ek, filter_other_1 in H by congruence. done.
  - destruct (c_literals c !! literalName (r_Source r)) eqn:El; [done|]. intros [= <-].
    pose proof (collected_insert c seen r _ Hc El ltac:(auto)) as H. by rewrite filter_literal_1, app_nil_r in H.
  - destruct (c_literals c !! wildcard_key r) eqn:El; [done|]. intros [= <-].
    pose proof (collected_insert c seen r _ Hc El ltac:(auto)) as H. rewrite filter_other_1 in H by congruence. done.
  - destruct (c_first c kindCatchAll) eqn:Ef; [done|]. intros [= <-]. rewrite <- Ek in Ef.
    pose proof (collected_special c seen r Hc Ef ltac:(auto)) as H. rewrite Ek, filter_other_1 in H by congruence. done.
Qed.

Lemma collect_all_ok rules c seen c' : collected c seen → collect_all c rules = Ok c' → collected c' (seen ++ rules).
Proof.
  revert c seen; induction rules as [|r rules IH]; intros c seen Hc; cbn [collect_all].
  - intros [= <-]. by rewrite app_nil_r.
  - destruct (collect c r) as [c1|] eqn:E; [|done]. intros H. apply (IH c1 (seen ++ [r])) in H; [|by eapply collect_ok].
    by rewrite <- app_assoc in H.
Qed.

Lemma collected_start : collected (mkCollecting ∅ (fun _ => None) []) [].
Proof.
  split; cbn; try done; try apply NoDup_nil_2; intros *; try (intros H; by apply not_elem_of_nil in H).
Qed.

Lemma before_filter (P : Rule → Prop) `{!∀ r, Decision (P r)} l x y : before (filter P l) x y → before l x y.
Proof.
  induction l as [|z l IH]; [done|]. rewrite filter_cons. destruct (decide (P z)).
  - rewrite !before_cons. intros [[-> Hb]|Hb]; [|auto]. apply list_elem_of_filter in Hb as [_ ?]. auto.
  - rewrite before_cons. auto.
Qed.

(** ** The search by priority *)

Lemma rule_matches_priority r sni : pattern_ok r → r_Kind r ≠ kindLiteral →
  if r_NoSNI r then rule_matches r sni = bool_decide (sni = []) ∧ submatches r sni = [0; 0]
  else ∃ re, r_Pattern r = Some re ∧
    match FindStringSubmatchIndex re sni with
    | Some m => rule_matches r sni = true ∧ submatches r sni = m
    | None => rule_matches r sni = false
    end.
Proof.
  intros (expr & Hc & Hn & Hp) Hk. unfold rule_matches, submatches. rewrite Hn in *.
  destruct (r_Kind r) eqn:Ek; [done|done|..]; rewrite bool_decide_eq_false_2 in * by done;
    destruct (classify_compiles _ _ _ _ Hc) as [items Hi]; unfold compile_re in Hp; rewrite Hi in Hp; cbn in Hp;
    eexists; (split; [exact Hp|]); rewrite Hp; unfold MatchString; cbn [mbind option_bind];
    by destruct (FindStringSubmatchIndex _ _).
Qed.

Lemma route_priority_spec sni stopped rules :
  Forall pattern_ok rules → Forall not_literal rules →
  (route_priority sni stopped rules = no_decision ∧
     ∀ r, r ∈ rules → stopped (Key r) = false → rule_matches r sni = false) ∨
  (∃ pre r post, rules = pre ++ r :: post ∧ stopped (Key r) = false ∧ rule_matches r sni = true ∧
     route_priority sni stopped rules = decide_rule r sni (submatches r sni) ∧
     ∀ r', r' ∈ pre → stopped (Key r') = false → rule_matches r' sni = false).
Proof.
  induction rules as [|r rules IH]; intros Hp Hl.
  { left. split; [done|]. intros r H. by apply not_elem_of_nil in H. }
  apply Forall_cons in Hp as [Hr Hp], Hl as [Hk Hl]. pose proof (rule_matches_priority r sni Hr Hk) as Hm.
  assert (stopped (Key r) = true ∨ rule_matches r sni = false → route_priority sni stopped (r :: rules) = route_priority sni stopped rules) as Hskip.
  { cbn [route_priority]. destruct (stopped (Key r)); [done|]. intros [?|Hf]; [done|]. destruct (r_NoSNI r).
    - destruct Hm as [E _]. rewrite Hf in E. by rewrite <- E.
    - destruct Hm as (re & -> & Hm). destruct (FindStringSubmatchIndex re sni); [|done]. destruct Hm; congruence. }
  destruct (decide (stopped (Key r) = false ∧ rule_matches r sni = true)) as [[Hs Hy]|Hno].
  - right. exists [], r, rules. repeat split; try done; [|intros r' H; by apply not_elem_of_nil in H].
    cbn [route_priority]. rewrite Hs. destruct (r_NoSNI r).
    + destruct Hm as [E ->]. rewrite Hy in E. by rewrite <- E.
    + destruct Hm as (re & -> & Hm). destruct (FindStringSubmatchIndex re sni); [|congruence]. by destruct Hm as [_ ->].
  - assert (stopped (Key r) = true ∨ rule_matches r sni = false) as Hor.
    { destruct (stopped (Key r)), (rule_matches r sni); naive_solver. }
    specialize (Hskip Hor). destruct (IH Hp Hl) as [[E H]|(pre & r0 & post & -> & H1 & H2 & H3 & H4)].
    + left. split; [congruence|]. intros r' [->|Hr']%elem_of_cons Hst; [destruct Hor; congruence|by apply H].
    + right. exists (r :: pre), r0, post. repeat split; try done; [congruence|].
      intros r' [->|Hr']%elem_of_cons Hst; [destruct Hor; congruence|by apply H4].
Qed.

(** [r] beats [r'] in [rules]: it is more specific, or as specific and not
    later in the file. *)
Definition beats (rules : list Rule) (r r' : Rule) : Prop :=
  r = r' ∨ more_specific r r' = true ∨ more_specific r' r = false ∧ before rules r r'.

(** The rule that takes a name: one that matches, is not stopped, and beats
    every other such rule. *)
Definition takes (rules : list Rule) (stopped : bytes → bool) (sni : bytes) (r : Rule) : Prop :=
  r ∈ rules ∧ stopped (Key r) = false ∧ rule_matches r sni = true ∧
  ∀ r', r' ∈ rules → stopped (Key r') = false → rule_matches r' sni = true → beats rules r r'.

Lemma literal_matches r sni : r_Kind r = kindLiteral → rule_matches r sni = true ↔ sni = literalName (r_Source r).
Proof. intros E. unfold rule_matches. rewrite E. apply bool_decide_eq_true. Qed.

Lemma literal_beats rules r r' sni : pattern_ok r → r_Kind r = kindLiteral → r_Kind r' ≠ kindLiteral →
  sni = literalName (r_Source r) → rule_matches r' sni = true → beats rules r r'.
Proof.
  intros (expr & Hc & _) Hk Hk' Hs Hm. right; left. apply more_specific_spec. left. rewrite Hk.
  apply classify_inv in Hc. rewrite Hk in Hc. destruct Hc as (Hne & _).
  destruct (r_Kind r') eqn:E; cbn; try lia; [|done]. unfold rule_matches in Hm. rewrite E in Hm. bool_prop. congruence.
Qed.

(** The search by priority alone, when no rule's literal name is [sni] (or
    those rules are stopped). *)
Lemma priority_takes c rules sni stopped :
  Forall pattern_ok rules → collected c rules →
  (∀ r, r ∈ rules → r_Kind r = kindLiteral → stopped (Key r) = false → rule_matches r sni = false) →
  let d := route_priority sni stopped (stable_sort more_specific (c_rules c)) in
  (d = no_decision ∧ ∀ r, r ∈ rules → stopped (Key r) = false → rule_matches r sni = false) ∨
  ∃ r, takes rules stopped sni r ∧ d = decide_rule r sni (submatches r sni).
Proof.
  intros Hp Hc Hlit. set (sorted := stable_sort more_specific (c_rules c)).
  assert (∀ r, r ∈ sorted ↔ r ∈ rules ∧ not_literal r) as Hin.
  { intros r. unfold sorted. rewrite elem_of_stable_sort, (collected_rules _ _ Hc), list_elem_of_filter. tauto. }
  rewrite Forall_forall in Hp. destruct (route_priority_spec sni stopped sorted) as [[E Hno]|(pre & r & post & Es & Hst & Hm & E & Hpre)].
  { apply Forall_forall. intros r [? _]%Hin. by apply Hp. }
  { apply Forall_forall. by intros r [_ ?]%Hin. }
  - left. split; [exact E|]. intros r Hr Hs. destruct (decide (r_Kind r = kindLiteral)); [by apply Hlit|].
    apply Hno; [by apply Hin|done].
  - right. exists r. split; [|exact E]. assert (r ∈ sorted) as Hr by (rewrite Es; apply elem_of_app; right; by left).
    split; [by apply Hin|]. split; [done|]. split; [done|]. intros r' Hr' Hs' Hm'.
    destruct (decide (r_Kind r' = kindLiteral)) as [Hk|Hk]; [by rewrite Hlit in Hm'|].
    assert (r' ∈ sorted) as Hr'' by (by apply Hin). rewrite Es in Hr''.
    apply elem_of_app in Hr'' as [Hr''|Hr'']; [by rewrite Hpre in Hm'|].
    apply elem_of_cons in Hr'' as [->|Hr'']; [by left|].
    assert (before sorted r r') as Hb.
    { rewrite Es. clear -Hr''. induction pre as [|z pre IH]; cbn; apply before_cons; [by left|by right]. }
    pose proof (stable_sort_before _ more_specific_trans more_specific_asym _ _ _ Hb).
    apply stable_sort_stable in Hb as [?|Hb]; right; [by left|right]. split; [done|].
    rewrite (collected_rules _ _ Hc) in Hb. by eapply before_filter.
Qed.

(** A built rule's wildcard matches label by label. *)
Lemma wildcard_fills p expr n : classify p = Ok (kindWildcard, expr, n) →
  compile_re true expr = Some (mkRegexp (lit "(?i)" ++ lit "^(?:" ++ expr ++ lit ")$") true (name_items (split_byte (literalName p) 46))).
Proof.
  intros (_ & _ & _ & ->)%classify_inv. unfold compile_re. rewrite parse_re_name. done.
Qed.

(** A target that passed the check at load, with any submatches. *)
Lemma expand_go_ok fuel t i1 i2 (m1 m2 : list Z) o1 o2 : length m1 = length m2 →
  is_ok (expand_go fuel t i1 m1 o1) = is_ok (expand_go fuel t i2 m2 o2).
Proof.
  intros Hl. revert t o1 o2; induction fuel as [|fuel IH]; intros t o1 o2; [done|]. cbn [expand_go].
  destruct t as [|c tl]; [done|]. destruct (negb _); [apply IH|]. destruct tl as [|b tl]; [done|].
  destruct (b =? ch "{"); [|by destruct (bool_decide _)].
  destruct (index_byte _ _) as [e|]; [|done].
  assert (∀ name, is_ok (expand_ref name i1 m1) = is_ok (expand_ref name i2 m2)) as Href.
  { intros name. unfold expand_ref, len. rewrite Hl. destruct (atoi _); [|done]. by repeat case_match. }
  specialize (Href (take (e - 2) (drop 2 (c :: b :: tl)))).
  by destruct (expand_ref _ i1 m1), (expand_ref _ i2 m2).
Qed.

Lemma run_length {A} ok least (k : bytes → Z → option (list A)) n0 s pos n m :
  (∀ s' e r, k s' e = Some r → length r = n0) → run ok least k s pos n = Some m → length m = n0.
Proof. intros Hk (x & s' & _ & _ & _ & H)%run_some. by eapply Hk. Qed.

Lemma match_items_length fold items s pos m : match_items fold items s pos = Some m →
  length m = (2 * length (filter (fun i => is_capture i = true) items))%nat.
Proof.
  revert s pos m; induction items as [|i items IH]; intros s pos m; cbn [match_items].
  { destruct (bool_decide _); [|done]. by intros [= <-]. }
  destruct i as [c| | |].
  - rewrite filter_cons_False by done. destruct s as [|d s]; [done|]. destruct (char_match _ _ _); [|done]. apply IH.
  - rewrite filter_cons_True by done. apply run_length. intros s' e r. destruct (match_items _ _ _ _) eqn:E; [|done].
    intros [= <-]. apply IH in E. cbn [length]. lia.
  - rewrite filter_cons_True by done. apply run_length. intros s' e r. destruct (match_items _ _ _ _) eqn:E; [|done].
    intros [= <-]. apply IH in E. cbn [length]. lia.
  - rewrite filter_cons_False by done. apply run_length. intros s' e r H. by apply IH in H.
Qed.

(** ** Keys *)

(** The characters an expression stands for, captures as stars. *)
Definition item_char (i : re_item) : Z := match i with RLit c => c | _ => star end.

Lemma name_items_chars labels : item_char <$> name_items labels = join [46] labels.
Proof.
  assert (∀ l, item_char <$> label_items l = l) as Hl.
  { intros l. unfold label_items. destruct (bool_decide _) eqn:E; [by apply bool_decide_eq_true in E as ->|].
    rewrite <- list_fmap_compose. clear E. induction l as [|c l IH]; [done|]. cbn. f_equal; [destruct (Z.eqb_spec c star); done|done]. }
  induction labels as [|l labels IH]; [done|]. destruct labels as [|l' labels]; [apply Hl|].
  change (name_items (l :: l' :: labels)) with (label_items l ++ RLit 46 :: name_items (l' :: labels)).
  rewrite fmap_app, Hl, fmap_cons, IH. done.
Qed.

Lemma quoted_items s : parse_re (quote_meta s) = Some (RLit <$> s).
Proof. rewrite <- (app_nil_r (quote_meta s)), parse_re_quoted. cbn. by rewrite app_nil_r. Qed.

(** The expression determines the name, and whether it is a wildcard. *)
Lemma expr_name p k expr n p' k' n' :
  classify p = Ok (k, expr, n) → classify p' = Ok (k', expr, n') →
  k = kindLiteral ∨ k = kindWildcard → k' = kindLiteral ∨ k' = kindWildcard →
  k = k' ∧ literalName p = literalName p'.
Proof.
  intros H%classify_inv H'%classify_inv [-> | ->] [-> | ->].
  - destruct H as (_ & _ & -> & _), H' as (_ & _ & E & _). apply (f_equal parse_re) in E. rewrite !quoted_items in E.
    split; [done|]. injection E as E. by apply list_fmap_eq_inj in E; [|intros ?? [= ->]].
  - destruct H as (_ & Hs & -> & _), H' as (_ & Hs' & _ & E). apply (f_equal parse_re) in E.
    rewrite quoted_items, parse_re_name in E. injection E as E.
    apply (f_equal (fmap item_char)) in E. rewrite name_items_chars, join_split, <- list_fmap_compose in E.
    rewrite list_fmap_id in E by done. by rewrite E in Hs.
  - destruct H as (_ & Hs & _ & ->), H' as (_ & Hs' & E & _). apply (f_equal parse_re) in E.
    rewrite quoted_items, parse_re_name in E. injection E as E.
    apply (f_equal (fmap item_char)) in E. rewrite name_items_chars, join_split, <- list_fmap_compose in E.
    rewrite list_fmap_id in E by done. by rewrite <- E in Hs'.
  - destruct H as (_ & _ & _ & ->), H' as (_ & _ & _ & E). apply (f_equal parse_re) in E.
    rewrite !parse_re_name in E. injection E as E. apply (f_equal (fmap item_char)) in E.
    by rewrite !name_items_chars, !join_split in E.
Qed.

Lemma key_text r : pattern_ok r → ∃ text, Key r = r_Listener r ++ 0 :: text ∧
  match r_Kind r with
  | kindNone => text = noSNI
  | kindCatchAll => text = anythingElse
  | k => ∃ expr n, classify (r_Source r) = Ok (k, expr, n) ∧ text = lit "(?i)^(?:" ++ expr ++ lit ")$"
  end.
Proof.
  intros (expr & Hc & Hn & Hp). unfold Key. eexists. split; [reflexivity|]. rewrite Hn in *.
  destruct (r_Kind r) eqn:Ek; [done| | |done]; rewrite bool_decide_eq_false_2 in * by done;
    rewrite bool_decide_eq_false_2 by done;
    destruct (classify_compiles _ _ _ _ Hc) as [items Hi]; unfold compile_re in Hp; rewrite Hi in Hp; rewrite Hp; eauto.
Qed.

Lemma app_sep_inj (a b s t : bytes) : 0 ∉ a → 0 ∉ b → a ++ 0 :: s = b ++ 0 :: t → a = b ∧ s = t.
Proof.
  intros Ha Hb E. apply (f_equal (fun x => split_byte x 0)) in E as E'.
  rewrite !split_join_cons in E' by done. injection E' as -> _. apply app_inv_head in E. by injection E.
Qed.

(** What [RouteExcept] finds. *)
Lemma route_takes all name routes w sni stopped :
  Forall pattern_ok all → prioritiseListener all name = Ok (routes, w) → 0 ∉ sni →
  let rules := listener_rules all name in
  (RouteExcept routes sni stopped = no_decision ∧
     ∀ r, r ∈ rules → stopped (Key r) = false → rule_matches r sni = false) ∨
  ∃ r, takes rules stopped sni r ∧
    RouteExcept routes sni stopped = decide_rule r sni (submatches r sni).
Proof.
  intros Hp Hl H0 rules. unfold prioritiseListener in Hl.
  destruct (collect_all _ _) as [c|] eqn:E; [|done]. injection Hl as <- _.
  apply (collect_all_ok _ _ []) in E as Hc; [|apply collected_start]. cbn [app] in Hc. fold rules in Hc.
  assert (Forall pattern_ok rules) as Hpr.
  { rewrite Forall_forall in Hp |- *. intros r [_ Hr]%list_elem_of_filter. by apply Hp. }
  unfold RouteExcept. cbn [literals byPriority]. destruct (c_literals c !! sni) as [r|] eqn:El.
  - destruct (collected_in _ _ Hc _ _ El) as [Hr [[Hk Hn]|[Hk Hn]]].
    2: { subst sni. unfold wildcard_key, key_sep in H0. cbn in H0. set_solver. }
    destruct (stopped (Key r)) eqn:Es.
    + apply priority_takes; [done|done|]. intros r' Hr' Hk' Hs'. apply not_true_iff_false. intros Hm.
      apply literal_matches in Hm; [|done]. apply (collected_all _ _ Hc) in Hr'; [|done]. congruence.
    + right. exists r. split.
      * split; [done|]. split; [done|]. split; [by apply literal_matches|]. intros r' Hr' Hs' Hm'.
        destruct (decide (r_Kind r' = kindLiteral)) as [Hk'|Hk'].
        -- apply literal_matches in Hm'; [|done]. apply (collected_all _ _ Hc) in Hr'; [|done]. left. congruence.
        -- rewrite Forall_forall in Hpr. apply (literal_beats _ _ _ sni); auto.
      * unfold submatches. by rewrite Hk.
  - apply priority_takes; [done|done|]. intros r' Hr' Hk' Hs'. apply not_true_iff_false. intros Hm.
    apply literal_matches in Hm; [|done]. apply (collected_all _ _ Hc) in Hr'; [|done]. congruence.
Qed.

(** * Properties *)

(** C7: routing gives the most specific rule of the listener that matches the
    name and is not stopped ($no_sni and literal names, then the wildcards
    with more literal characters first, file order between equals,
    $anything_else last), whatever the order of the file; with the outcome of
    that rule and the submatches of its pattern, and no decision exactly when
    no such rule matches.  A stopped rule is as if it were not there. *)
Theorem route_most_specific all name routes w sni stopped :
  Forall pattern_ok all → prioritiseListener all name = Ok (routes, w) → 0 ∉ sni →
  let rules := listener_rules all name in
  (RouteExcept routes sni stopped = no_decision ∧
     ∀ r, r ∈ rules → stopped (Key r) = false → rule_matches r sni = false) ∨
  ∃ r, takes rules stopped sni r ∧
    RouteExcept routes sni stopped = decide_rule r sni (submatches r sni).
Proof. apply route_takes. Qed.

(** A wildcard domain compiles, and matches exactly the names with as
    many labels whose every label matches: a star alone stands for one
    non-empty label, a star inside a label for any text within it; letters
    match whatever their case. *)
Theorem wildcard_labels pattern expr n :
  classify pattern = Ok (kindWildcard, expr, n) →
  ∃ re, compile_re true expr = Some re ∧
  ∀ sni, MatchString re sni = true ↔
    Forall2 (fun p l => label_match p l = true) (split_byte (literalName pattern) 46) (split_byte sni 46).
Proof.
  intros H. rewrite (wildcard_fills _ _ _ H). eexists. split; [done|]. intros sni.
  rewrite MatchString_fills. cbn [re_fold re_items].
  apply name_fills; [apply split_byte_nonempty|apply split_byte_no_sep].
Qed.

(** When a wildcard matches, its captures are texts without dots that put
    in the place of its stars give the name back, and [${k}] in a target is
    the text of the [k]th star, [${host}] the whole name. *)
Theorem wildcard_captures pattern expr n re sni m :
  classify pattern = Ok (kindWildcard, expr, n) → compile_re true expr = Some re →
  FindStringSubmatchIndex re sni = Some m →
  ∃ caps t, fill (literalName pattern) caps = Some t ∧ equal_fold t sni = true ∧
    Forall (fun x => 46 ∉ x) caps ∧
    expand (lit "${host}") sni m = Ok sni ∧
    ∀ k cap, Z.of_nat (S k) < 2 ^ 63 → caps !! k = Some cap →
      expand (lit "${" ++ itoa (Z.of_nat (S k)) ++ lit "}") sni m = Ok cap.
Proof.
  intros Hc Hre Hm. rewrite (wildcard_fills _ _ _ Hc) in Hre. injection Hre as <-.
  unfold FindStringSubmatchIndex in Hm. cbn [re_fold re_items] in Hm.
  destruct (match_items _ _ _ _) as [m0|] eqn:E; [|done]. injection Hm as <-.
  change 0 with (len (@nil Z)) in E. apply match_items_some in E as (caps & ms & Hf & -> & Hms). cbn [app] in Hms.
  apply fills_weaken in Hf. rewrite join_split in Hf. apply fills_fill in Hf as (t & Ht & Hl & Hd).
  exists caps, t. split; [done|]. split; [by apply equal_fold_spec|]. split; [done|]. split.
  - change (lit "${host}") with (36 :: 123 :: lit "host" ++ [125]). rewrite expand_one by (apply (bool_decide_unpack _); done).
    transitivity (expand_ref (itoa (Z.of_nat 0)) sni (0 :: len sni :: flatten_pairs ms)); [done|].
    rewrite (expand_ref_lookup 0 _ _ 0 (len sni)) by (reflexivity || lia).
    unfold slice. rewrite Z.sub_0_r. change (Z.to_nat 0) with 0%nat. rewrite drop_0, take_ge by (unfold len; lia). done.
  - intros k cap Hk Hcap. change (lit "${" ++ ?x ++ lit "}") with (36 :: 123 :: x ++ [125]).
    rewrite expand_one. 2: { intros H. pose proof (itoa_digits (Z.of_nat (S k)) ltac:(lia)) as Hdig.
      rewrite Forall_forall in Hdig. by apply Hdig in H. }
    destruct (Forall2_lookup_l _ _ _ _ _ Hms Hcap) as ([a b] & Hab & H0 & Hs). cbn in H0, Hs.
    apply lookup_flatten in Hab as [Ha Hb]. cbn in Ha, Hb.
    rewrite (expand_ref_lookup (S k) _ _ a b) by
      (done || lia || (replace (2 * S k)%nat with (S (S (2 * k))) by lia; done)). by rewrite Hs.
Qed.

(** A target checked at load never fails to expand at run time: if it
    expands for the number of captures of the rule's pattern, it does for
    every name the pattern matches; and a connection is only ever sent to a
    host that is an IP address or made of host characters, never an empty
    one. *)
Theorem target_checked r re sni m :
  r_Pattern r = Some re → r_Allow r = true → Serves r = false →
  is_ok (expand (r_TargetHost r) [] (replicate (2 * (NumSubexp re + 1)) 0)) = true →
  FindStringSubmatchIndex re sni = Some m →
  let d := decide_rule r sni m in
  ∃ host, expand (r_TargetHost r) sni m = Ok host ∧
    if target_host_ok host
    then d_Allow d = true ∧ d_Host d = host ∧ d_Port d = r_TargetPort r ∧ d_Err d = None
    else d_Allow d = false ∧ d_Err d = Some (InvalidHost (r_Line r) host).
Proof.
  intros Hre Ha Hs Hok Hm d. unfold FindStringSubmatchIndex in Hm.
  destruct (match_items _ _ _ _) as [m0|] eqn:E; [|done]. injection Hm as <-. apply match_items_length in E.
  unfold expand in *. rewrite (expand_go_ok _ _ _ sni _ (0 :: len sni :: m0) _ []) in Hok.
  2: { rewrite length_replicate. cbn [length]. unfold NumSubexp. lia. }
  destruct (expand_go _ _ sni _ _) as [host|] eqn:Ex; [|done]. exists host. split; [done|].
  subst d. unfold decide_rule, expand. rewrite Ha, Hs, Ex. cbn [negb].
  by destruct (target_host_ok host).
Qed.

(** A key identifies a rule: two rules of a loaded configuration with
    the same key are the same rule, at the same place in the file. *)
Theorem rule_keys_unique all r r' i j :
  Forall pattern_ok all → Forall (fun r => 0 ∉ r_Listener r) all →
  Forall (fun r => is_ok (prioritiseListener all (r_Listener r)) = true) all →
  listener_rules all (r_Listener r) !! i = Some r → listener_rules all (r_Listener r) !! j = Some r' →
  Key r = Key r' → i = j ∧ r = r'.
Proof.
  intros Hp Hn Hok Hi Hj Hk.
  pose proof (list_elem_of_lookup_2 _ _ _ Hi) as Hr. pose proof (list_elem_of_lookup_2 _ _ _ Hj) as Hr'.
  pose proof Hr as Ha. pose proof Hr' as Ha'. apply list_elem_of_filter in Ha as [_ Ha], Ha' as [Hl Ha'].
  rewrite Forall_forall in Hp, Hn, Hok. specialize (Hok r Ha).
  unfold prioritiseListener in Hok. destruct (collect_all _ _) as [c|] eqn:E; [|done]. clear Hok.
  apply (collect_all_ok _ _ []) in E as Hc; [|apply collected_start]. cbn [app] in Hc.
  assert (r = r') as <-; [|split; [|done]; by eapply NoDup_lookup; [apply (collected_nodup _ _ Hc)|..]].
  destruct (key_text r (Hp r Ha)) as (t & Et & Ht), (key_text r' (Hp r' Ha')) as (t' & Et' & Ht').
  rewrite Et, Et' in Hk. apply app_sep_inj in Hk as [_ <-]; [|by apply Hn..].
  assert (∀ k, r_Kind r = k → r_Kind r' = k → k = kindNone ∨ k = kindCatchAll → r = r') as Hspecial.
  { intros k <- E2 Hk. pose proof (collected_first _ _ Hc r Hr Hk) as F1. rewrite <- E2 in Hk, F1.
    pose proof (collected_first _ _ Hc r' Hr' Hk). congruence. }
  destruct (r_Kind r) eqn:Ek, (r_Kind r') eqn:Ek'; try (by eapply Hspecial; eauto);
    try (subst t; discriminate); try (destruct Ht as (? & ? & ? & ->); discriminate);
    try (destruct Ht' as (? & ? & ? & ->); subst; discriminate);
    destruct Ht as (expr & n & H & ->), Ht' as (expr' & n' & H' & E').
  all: apply app_inv_head, app_inv_tail in E' as <-.
  all: destruct (expr_name _ _ _ _ _ _ _ H H') as [E1 E2]; [auto..|]; try done.
  - pose proof (collected_all _ _ Hc r Hr Ek). pose proof (collected_all _ _ Hc r' Hr' Ek'). congruence.
  - pose proof (collected_wild _ _ Hc r Hr Ek) as W. pose proof (collected_wild _ _ Hc r' Hr' Ek') as W'.
    unfold wildcard_key in *. congruence.
Qed.

(** ** Witnesses *)

Definition w_rule (line : Z) (source target : bytes) (port : Z) : Rule :=
  match classify source with
  | Ok (k, expr, n) =>
      mkRule (lit "lan") line source k n (bool_decide (k = kindNone))
        (if bool_decide (k = kindNone) then None else compile_re true expr)
        true target port [] [] [] [] [] [] [] [] false false [] false 2 (S754_zero false) (S754_zero false) [] false false
  | Err _ => zero_rule
  end.

Definition w_rules : list Rule :=
  [w_rule 3 (lit "$anything_else") (lit "10.0.0.9") 443;
   w_rule 5 (lit "*.Example.com") (lit "${1}.lan") 443;
   w_rule 7 (lit "api-*.example.com") (lit "10.0.0.7") 8443;
   w_rule 9 (lit "www.example.com") (lit "10.0.0.5") 443].

Lemma w_rules_ok : Forall pattern_ok w_rules.
Proof. repeat constructor; eexists; (split; [vm_compute; reflexivity|split; vm_compute; reflexivity]). Qed.

Lemma w_sni_plain : 0 ∉ lit "api-2.example.com".
Proof. apply (bool_decide_unpack _). vm_compute. reflexivity. Qed.

Lemma route_most_specific_witness : ∃ routes w,
  prioritiseListener w_rules (lit "lan") = Ok (routes, w) ∧
  d_RuleLine (RouteExcept routes (lit "api-2.example.com") (fun _ => false)) = 7 ∧
  d_Host (RouteExcept routes (lit "api-2.example.com")
    (fun k => bool_decide (k = Key (w_rule 7 (lit "api-*.example.com") (lit "10.0.0.7") 8443)))) = lit "api-2.lan" ∧
  ((RouteExcept routes (lit "api-2.example.com") (fun _ => false) = no_decision ∧
     ∀ r, r ∈ listener_rules w_rules (lit "lan") → (fun _ => false) (Key r) = false → rule_matches r (lit "api-2.example.com") = false) ∨
   ∃ r, takes (listener_rules w_rules (lit "lan")) (fun _ => false) (lit "api-2.example.com") r ∧
    RouteExcept routes (lit "api-2.example.com") (fun _ => false) =
    decide_rule r (lit "api-2.example.com") (submatches r (lit "api-2.example.com"))).
Proof.
  do 2 eexists. split; [vm_compute; reflexivity|]. split; [vm_compute; reflexivity|]. split; [vm_compute; reflexivity|].
  eapply (route_most_specific w_rules (lit "lan")); [apply w_rules_ok|vm_compute; reflexivity|apply w_sni_plain].
Defined.

Lemma wildcard_labels_witness : ∃ re,
  compile_re true (join (lit "\.") (label_expr <$> split_byte (lit "*.api-*.x") 46)) = Some re ∧
  ∀ sni, MatchString re sni = true ↔
    Forall2 (fun p l => label_match p l = true) (split_byte (literalName (lit "*.API-*.x")) 46) (split_byte sni 46).
Proof. apply (wildcard_labels (lit "*.API-*.x") _ 7). vm_compute. reflexivity. Defined.

Lemma wildcard_captures_witness :
  let re := mkRegexp (lit "(?i)^(?:([^.]+)\.api-([^.]*)\.x)$") true (name_items [lit "*"; lit "api-*"; lit "x"]) in
  ∃ caps t, fill (literalName (lit "*.api-*.x")) caps = Some t ∧ equal_fold t (lit "a.API-7.x") = true ∧
    Forall (fun x => 46 ∉ x) caps ∧
    expand (lit "${host}") (lit "a.API-7.x") [0; 9; 0; 1; 6; 7] = Ok (lit "a.API-7.x") ∧
    ∀ k cap, Z.of_nat (S k) < 2 ^ 63 → caps !! k = Some cap →
      expand (lit "${" ++ itoa (Z.of_nat (S k)) ++ lit "}") (lit "a.API-7.x") [0; 9; 0; 1; 6; 7] = Ok cap.
Proof.
  intros re. apply (wildcard_captures (lit "*.api-*.x") (lit "([^.]+)\.api-([^.]*)\.x") 7 re).
  - vm_compute. reflexivity.
  - vm_compute. reflexivity.
  - vm_compute. reflexivity.
Defined.

Lemma target_checked_witness : ∃ re m, let r := w_rule 5 (lit "*.Example.com") (lit "${1}.lan") 443 in
  r_Pattern r = Some re ∧ FindStringSubmatchIndex re (lit "db.example.com") = Some m ∧
  let d := decide_rule r (lit "db.example.com") m in
  ∃ host, expand (r_TargetHost r) (lit "db.example.com") m = Ok host ∧
    if target_host_ok host
    then d_Allow d = true ∧ d_Host d = host ∧ d_Port d = r_TargetPort r ∧ d_Err d = None
    else d_Allow d = false ∧ d_Err d = Some (InvalidHost (r_Line r) host).
Proof.
  do 2 eexists. split; [vm_compute; reflexivity|]. split; [vm_compute; reflexivity|].
  eapply target_checked; vm_compute; reflexivity.
Defined.

Lemma rule_keys_unique_witness :
  let r := w_rule 7 (lit "api-*.example.com") (lit "10.0.0.7") 8443 in (2 = 2)%nat ∧ r = r.
Proof.
  apply (rule_keys_unique w_rules _ _ 2 2); [apply w_rules_ok|..]; try (vm_compute; reflexivity).
  - apply (bool_decide_unpack _). vm_compute. reflexivity.
  - apply (bool_decide_unpack _). vm_compute. reflexivity.
Defined.
