(* ===== verification/Cache.v ===== *)
(** Cache: the CLOCK cache and the route cache on top of it ([cache.go]). *)

From S2P Require Import Prelude GoStr NetIP Sni Rules.

(** * [clock]

    Entries are shared by the index and the slots and change in place, so
    they live in a heap and both hold their address.  An operation runs
    without interruption here, except that [Put]'s [TryLock] may find another
    insert in progress. *)

Record clockEntry (V : Type) := mkEntry { e_key : bytes; e_val : V; e_used : bool }.
Arguments mkEntry {V} _ _ _.
Arguments e_key {V} _.
Arguments e_val {V} _.
Arguments e_used {V} _.

Record clock (V : Type) := mkClock {
  index : gmap bytes nat;
  cap : Z;
  c_n : Z;
  slots : list nat;
  hand : nat;
  heap : gmap nat (clockEntry V);
  fresh_entry : nat;       (* the address the next entry gets *)
}.
Arguments mkClock {V} _ _ _ _ _ _ _.
Arguments index {V} _.
Arguments cap {V} _.
Arguments c_n {V} _.
Arguments slots {V} _.
Arguments hand {V} _.
Arguments heap {V} _.
Arguments fresh_entry {V} _.

Section Clock.
Context {V : Type}.
Implicit Types c : clock V.

Definition newClock (capacity : Z) : clock V := mkClock ∅ capacity 0 [] 0 ∅ 0.

Definition with_heap c (h : gmap nat (clockEntry V)) : clock V :=
  mkClock (index c) (cap c) (c_n c) (slots c) (hand c) h (fresh_entry c).

Definition Get c (key : bytes) : option V * clock V :=
  match index c !! key with
  | None => (None, c)
  | Some i =>
      match heap c !! i with
      | None => (None, c) (* no dangling pointers *)
      | Some e =>
          (Some (e_val e),
           if e_used e then c else with_heap c (<[i := mkEntry (e_key e) (e_val e) true]> (heap c)))
      end
  end.

(** [e.val.Store(&val)] *)
Definition store_val c (i : nat) (val : V) : clock V :=
  match heap c !! i with
  | Some e => with_heap c (<[i := mkEntry (e_key e) val (e_used e)]> (heap c))
  | None => c
  end.

(** The eviction loop, which puts entry [i] into the slot it frees; [None] is
    an index out of range.  Each turn but the last clears a flag, so one turn
    more than there are slots is enough: [sweep_total]. *)
Fixpoint sweep (fuel : nat) c (i : nat) : option (clock V) :=
  match fuel with
  | O => None
  | S fuel' =>
      match slots c !! hand c with
      | None => None
      | Some o =>
          match heap c !! o with
          | None => None
          | Some old =>
              let hand' := ((hand c + 1) mod Z.to_nat (cap c))%nat in
              if e_used old then
                sweep fuel' (mkClock (index c) (cap c) (c_n c) (slots c) hand'
                  (<[o := mkEntry (e_key old) (e_val old) false]> (heap c)) (fresh_entry c)) i
              else
                Some (mkClock (delete (e_key old) (index c)) (cap c) (c_n c) (<[hand c := i]> (slots c)) hand'
                  (heap c) (fresh_entry c))
          end
      end
  end.

(** [Put]; [busy]: another insert holds the mutex. *)
Definition Put c (key : bytes) (val : V) (busy : bool) : option (clock V) :=
  if cap c <=? 0 then Some c else
  match index c !! key with
  | Some i => Some (store_val c i val)
  | None =>
      if busy then Some c else
      let i := fresh_entry c in
      let c := mkClock (index c) (cap c) (c_n c) (slots c) (hand c)
                 (<[i := mkEntry key val false]> (heap c)) (S i) in
      let add c := mkClock (<[key := i]> (index c)) (cap c) (c_n c) (slots c) (hand c) (heap c) (fresh_entry c) in
      if len (slots c) <? cap c then
        Some (add (mkClock (index c) (cap c) (c_n c + 1) (slots c ++ [i]) (hand c) (heap c) (fresh_entry c)))
      else add <$> sweep (S (length (slots c))) c i
  end.

Definition Len c : Z := c_n c.
Definition Contains c (key : bytes) : bool := match index c !! key with Some _ => true | None => false end.

(** ** Invariant *)

Record clock_ok c : Prop := {
  ok_slots i : i ∈ slots c → ∃ e, heap c !! i = Some e ∧ index c !! e_key e = Some i;
  ok_index k i : index c !! k = Some i → i ∈ slots c ∧ ∃ e, heap c !! i = Some e ∧ e_key e = k;
  ok_nodup : NoDup (slots c);
  ok_cap : len (slots c) <= Z.max 0 (cap c);
  ok_n : c_n c = len (slots c);
  ok_hand : 0 < cap c → (hand c < Z.to_nat (cap c))%nat;
  ok_fresh i : is_Some (heap c !! i) → (i < fresh_entry c)%nat;
}.

(** What a cache holds. *)
Definition lookup_val c (k : bytes) : option V := index c !! k ≫= fun i => e_val <$> heap c !! i.

Lemma newClock_ok capacity : clock_ok (newClock capacity).
Proof.
  split; unfold newClock, len; cbn; try done; try lia.
  - intros i H. by apply not_elem_of_nil in H.
  - apply NoDup_nil_2.
  - intros i [e He]. done.
Qed.

(** An update of an entry in place that keeps its key. *)
Lemma update_entry_ok c i e v u : clock_ok c → heap c !! i = Some e →
  clock_ok (with_heap c (<[i := mkEntry (e_key e) v u]> (heap c))).
Proof.
  intros [H1 H2 H3 H4 H5 H6 H7] Hi. split; cbn; try done.
  - intros j Hj. destruct (H1 j Hj) as (e' & He & Hx). destruct (decide (j = i)) as [->|].
    + rewrite lookup_insert_eq. eexists. split; [done|]. cbn. congruence.
    + rewrite lookup_insert_ne by done. eauto.
  - intros k j [Hj (e' & He & Hk)]%H2. split; [done|]. destruct (decide (j = i)) as [->|].
    + rewrite lookup_insert_eq. eexists. split; [done|]. cbn. congruence.
    + rewrite lookup_insert_ne by done. eauto.
  - intros j [e' He]. apply H7. destruct (decide (j = i)) as [->|]; [eauto|]. rewrite lookup_insert_ne in He; eauto.
Qed.

Lemma lookup_val_update c i e v u k : clock_ok c → heap c !! i = Some e →
  lookup_val (with_heap c (<[i := mkEntry (e_key e) v u]> (heap c))) k =
  if decide (index c !! k = Some i) then Some v else lookup_val c k.
Proof.
  intros Hc Hi. unfold lookup_val. cbn. destruct (index c !! k) as [j|] eqn:E; cbn; [|by destruct (decide _)].
  destruct (decide (Some j = Some i)) as [[= ->]|Hne]; [by rewrite lookup_insert_eq|].
  rewrite lookup_insert_ne; [done|congruence].
Qed.

(** A hit returns the value and changes no value. *)
Lemma Get_spec c k : clock_ok c →
  (Get c k).1 = lookup_val c k ∧ clock_ok (Get c k).2 ∧ cap (Get c k).2 = cap c ∧
  ∀ k', lookup_val (Get c k).2 k' = lookup_val c k'.
Proof.
  intros Hc. unfold Get. destruct (index c !! k) as [i|] eqn:E; unfold lookup_val at 1; rewrite E; [|done]. cbn.
  destruct (ok_index _ Hc _ _ E) as [_ (e & He & Hk)]. rewrite He. cbn. split; [done|].
  destruct (e_used e); [done|]. split; [by apply update_entry_ok|]. split; [done|]. intros k'.
  rewrite lookup_val_update by done. destruct (decide _) as [Hi|]; [|done]. unfold lookup_val. rewrite Hi. cbn. by rewrite He.
Qed.

Definition used_count c : nat :=
  length (filter (fun i => e_used <$> heap c !! i = Some true) (slots c)).

Lemma filter_clear (h : gmap nat (clockEntry V)) l o old k v : NoDup l → o ∈ l → h !! o = Some old → e_used old = true →
  S (length (filter (fun i => e_used <$> (<[o := mkEntry k v false]> h) !! i = Some true) l)) =
  length (filter (fun i => e_used <$> h !! i = Some true) l).
Proof.
  intros Hn Ho Hh Hu. induction l as [|i l IH]; [by apply not_elem_of_nil in Ho|].
  apply NoDup_cons in Hn as [Hi Hn]. destruct (decide (i = o)) as [->|Hne].
  - rewrite (filter_cons_False _ o), (filter_cons_True _ o).
    2: { rewrite Hh. cbn. by rewrite Hu. }
    2: { by rewrite lookup_insert_eq. }
    cbn [length]. f_equal. f_equal. clear -Hi. induction l as [|j l IH]; [done|].
    apply not_elem_of_cons in Hi as [Hj Hi]. rewrite !filter_cons. rewrite lookup_insert_ne by done.
    destruct (decide _); cbn; by rewrite IH.
  - apply elem_of_cons in Ho as [?|Ho]; [done|]. rewrite !filter_cons, lookup_insert_ne by done.
    specialize (IH Hn Ho). destruct (decide _); cbn [length]; lia.
Qed.

(** The state a sweep leaves: one key less, whose slot [i] now has. *)
Lemma sweep_spec fuel c i : clock_ok c → 0 < cap c → len (slots c) = cap c → (used_count c < fuel)%nat →
  ∃ c' o old, sweep fuel c i = Some c' ∧ o ∈ slots c ∧ heap c' !! o = Some old ∧ index c !! e_key old = Some o ∧
    index c' = delete (e_key old) (index c) ∧ cap c' = cap c ∧ c_n c' = c_n c ∧ fresh_entry c' = fresh_entry c ∧
    (∃ h, (h < length (slots c))%nat ∧ slots c !! h = Some o ∧ slots c' = <[h := i]> (slots c)) ∧
    clock_ok (mkClock (index c) (cap c) (c_n c) (slots c) (hand c') (heap c') (fresh_entry c)) ∧
    (∀ j, (e_key <$> heap c' !! j) = (e_key <$> heap c !! j) ∧ (e_val <$> heap c' !! j) = (e_val <$> heap c !! j)).
Proof.
  revert c; induction fuel as [|fuel IH]; intros c Hc Hcap Hfull Hfuel; [lia|]. cbn [sweep].
  pose proof (ok_hand _ Hc Hcap) as Hh.
  destruct (lookup_lt_is_Some_2 (slots c) (hand c)) as [o Ho]; [unfold len in Hfull; lia|]. rewrite Ho.
  pose proof (list_elem_of_lookup_2 _ _ _ Ho) as Hin. destruct (ok_slots _ Hc o Hin) as (old & Hold & Hidx). rewrite Hold.
  assert ((hand c + 1) mod Z.to_nat (cap c) < Z.to_nat (cap c))%nat as Hmod by (apply Nat.mod_upper_bound; lia).
  destruct (e_used old) eqn:Eu.
  - set (c1 := mkClock _ _ _ _ _ _ _). assert (clock_ok c1) as Hc1.
    { pose proof (update_entry_ok c o old (e_val old) false Hc Hold) as [H1 H2 H3 H4 H5 H6 H7]. split; done. }
    destruct (IH c1) as (c' & o' & old' & E & H1 & H2 & H3 & H4 & H5 & H6 & H7 & H8 & H9 & H10); try done.
    { unfold used_count in Hfuel |- *. unfold c1; cbn. pose proof (filter_clear (heap c) (slots c) o old (e_key old) (e_val old) (ok_nodup _ Hc) Hin Hold Eu). lia. }
    exists c', o', old'. split; [done|]. do 7 (split; [done|]). split; [done|]. split; [done|].
    intros j. destruct (H10 j) as [K1 K2]. rewrite K1, K2. unfold c1; cbn.
    destruct (decide (j = o)) as [->|]; [rewrite lookup_insert_eq, Hold; done|by rewrite lookup_insert_ne].
  - eexists _, o, old. split; [done|]. cbn. do 7 (split; [done|]). split; [|split; [|done]].
    + exists (hand c). split; [unfold len in Hfull; lia|done].
    + destruct Hc as [H1 H2 H3 H4 H5 H6 H7]. split; done.
Qed.

(** Entry [i] is added for a new key, when the slots hold it and the index
    does not name it yet. *)
Lemma add_ok c key i e : clock_ok c → index c !! key = None → heap c !! i = Some e → e_key e = key → i ∉ slots c →
  len (slots c) < cap c →
  clock_ok (mkClock (<[key := i]> (index c)) (cap c) (c_n c + 1) (slots c ++ [i]) (hand c) (heap c) (fresh_entry c)).
Proof.
  intros [H1 H2 H3 H4 H5 H6 H7] Hk Hi He Hn Hl. split; cbn; try done.
  - intros j [Hj| ->%list_elem_of_singleton]%elem_of_app.
    + destruct (H1 j Hj) as (e' & He' & Hx). exists e'. split; [done|]. rewrite lookup_insert_ne; [done|congruence].
    + exists e. split; [done|]. subst key. by rewrite lookup_insert_eq.
  - intros k j [[<- <-]|[Hne Hj]]%lookup_insert_Some; rewrite elem_of_app.
    + split; [right; by apply list_elem_of_singleton|eauto].
    + destruct (H2 _ _ Hj). auto.
  - apply NoDup_app. split; [done|]. split; [|apply NoDup_singleton]. by intros x Hx ->%list_elem_of_singleton.
  - len_lia.
  - len_lia.
Qed.

(** A fresh entry in the heap disturbs nothing. *)
Lemma alloc_ok c e : clock_ok c →
  clock_ok (mkClock (index c) (cap c) (c_n c) (slots c) (hand c) (<[fresh_entry c := e]> (heap c)) (S (fresh_entry c))).
Proof.
  intros [H1 H2 H3 H4 H5 H6 H7].
  assert (∀ j e', heap c !! j = Some e' → j ≠ fresh_entry c) as Hne by (intros j e' Hj ->; specialize (H7 _ (mk_is_Some _ _ Hj)); lia).
  split; cbn; try done.
  - intros j Hj. destruct (H1 j Hj) as (e' & He' & Hx). exists e'. rewrite lookup_insert_ne; eauto using not_eq_sym.
  - intros k j Hj. destruct (H2 _ _ Hj) as (Hs & e' & He' & Hx). split; [done|]. exists e'.
    rewrite lookup_insert_ne; eauto using not_eq_sym.
  - intros j [e' [[<- _]|[_ Hj]]%lookup_insert_Some]; [lia|]. specialize (H7 _ (mk_is_Some _ _ Hj)). lia.
Qed.

(** Replacing slot [h]'s entry [o] by [i]. *)
Lemma replace_ok c key i e h o old hd :
  clock_ok c → index c !! key = None → heap c !! i = Some e → e_key e = key → i ∉ slots c →
  slots c !! h = Some o → heap c !! o = Some old → (0 < cap c → (hd < Z.to_nat (cap c))%nat) →
  clock_ok (mkClock (<[key := i]> (delete (e_key old) (index c))) (cap c) (c_n c) (<[h := i]> (slots c)) hd (heap c) (fresh_entry c)).
Proof.
  intros [H1 H2 H3 H4 H5 H6 H7] Hk Hi He Hn Ho Hold Hhd. pose proof (lookup_lt_Some _ _ _ Ho) as Hh.
  assert (∀ j, j ∈ <[h := i]> (slots c) ↔ j = i ∨ j ∈ slots c ∧ j ≠ o) as Hin.
  { intros j. rewrite list_elem_of_lookup. split.
    - intros [m Hm]. apply list_lookup_insert_Some in Hm as [(-> & <- & _)|[Hne Hm]]; [by left|].
      right. split; [by eapply list_elem_of_lookup_2|]. intros ->. by eapply Hne, NoDup_lookup.
    - intros [->|[Hj Hne]]; [exists h; by apply list_lookup_insert_eq|].
      apply list_elem_of_lookup in Hj as [m Hm]. exists m. rewrite list_lookup_insert_ne; [done|]. intros ->. congruence. }
  assert (∀ j, j ∈ slots c → ∀ e', heap c !! j = Some e' → index c !! e_key e' = Some j) as Hback.
  { intros j Hj e' He'. destruct (H1 j Hj) as (e'' & He'' & Hx). congruence. }
  split; cbn; try done.
  - intros j [->|[Hj Hne]]%Hin.
    + exists e. split; [done|]. subst key. by rewrite lookup_insert_eq.
    + destruct (H1 j Hj) as (e' & He' & Hx). exists e'. split; [done|].
      rewrite lookup_insert_ne by congruence. rewrite lookup_delete_ne; [done|]. intros E.
      apply list_elem_of_lookup_2 in Ho. specialize (Hback o Ho old Hold). congruence.
  - intros k j [[<- <-]|[Hne Hj]]%lookup_insert_Some; rewrite Hin.
    + split; [by left|eauto].
    + apply lookup_delete_Some in Hj as [Hne' Hj]. destruct (H2 _ _ Hj) as (Hs & e' & He' & Hx).
      split; [|eauto]. right. split; [done|]. intros ->. congruence.
  - apply NoDup_alt. intros a b x Ha Hb. apply list_lookup_insert_Some in Ha as [(<- & <- & _)|[Ha1 Ha2]],
      Hb as [(? & ? & _)|[Hb1 Hb2]]; try congruence.
    + by apply list_elem_of_lookup_2 in Hb2.
    + subst. by apply list_elem_of_lookup_2 in Ha2.
    + by eapply NoDup_lookup.
  - unfold len. by rewrite length_insert.
  - unfold len. by rewrite length_insert.
Qed.

(** [Put] in full: the new value is there (unless caching is off, or another
    insert was in progress), at most one other key is gone, and no other value
    changed. *)
Definition put_result c (key : bytes) (val : V) (busy : bool) c' : Prop :=
  if (cap c <=? 0) || (busy && negb (Contains c key)) then c' = c
  else lookup_val c' key = Some val ∧
    ∃ victim : option bytes, (is_Some victim → Contains c key = false ∧ len (slots c) = cap c) ∧
      ∀ k, k ≠ key → lookup_val c' k = if bool_decide (victim = Some k) then None else lookup_val c k.

Lemma Put_spec c key val busy : clock_ok c →
  ∃ c', Put c key val busy = Some c' ∧ clock_ok c' ∧ cap c' = cap c ∧ put_result c key val busy c'.
Proof.
  intros Hc. unfold Put, put_result, Contains. destruct (Z.leb_spec (cap c) 0) as [|Hcap]; [by exists c|]. cbn [orb].
  destruct (index c !! key) as [i|] eqn:E.
  { rewrite andb_false_r. destruct (ok_index _ Hc _ _ E) as [_ (e & He & Hk)]. eexists. split; [done|].
    unfold store_val. rewrite He. split; [by apply update_entry_ok|]. split; [done|]. split.
    - rewrite lookup_val_update by done. by rewrite decide_True.
    - exists None. split; [by intros []|]. intros k Hne. rewrite lookup_val_update by done.
      destruct (decide _) as [Hi|]; [|done]. destruct (ok_index _ Hc _ _ Hi) as [_ (e' & He' & Hk')]. congruence. }
  cbn [negb]. rewrite andb_true_r. destruct busy; [by exists c|].
  set (i := fresh_entry c). set (c1 := mkClock _ _ _ _ _ (<[i := _]> (heap c)) _).
  pose proof (alloc_ok c (mkEntry key val false) Hc) as Hc1. fold i c1 in Hc1.
  assert (i ∉ slots c) as Hi.
  { intros Hi. destruct (ok_slots _ Hc _ Hi) as (e & He & _). pose proof (ok_fresh _ Hc _ (mk_is_Some _ _ He)). unfold i in *. lia. }
  assert (heap c1 !! i = Some (mkEntry key val false)) as He by apply lookup_insert_eq.
  assert (∀ k, lookup_val c1 k = lookup_val c k) as Hsame.
  { intros k. unfold lookup_val. cbn. destruct (index c !! k) as [j|] eqn:Ej; [|done]. cbn.
    destruct (ok_index _ Hc _ _ Ej) as [Hj _]. rewrite lookup_insert_ne; [done|congruence]. }
  change (len (slots c1) <? cap c1) with (len (slots c) <? cap c).
  destruct (Z.ltb_spec (len (slots c)) (cap c)).
  - eexists. split; [done|]. split; [by eapply (add_ok c1)|]. split; [done|]. split.
    + unfold lookup_val. cbn. rewrite lookup_insert_eq. cbn. by rewrite lookup_insert_eq.
    + exists None. split; [by intros []|]. intros k Hne. rewrite <- Hsame. unfold lookup_val. cbn. by rewrite lookup_insert_ne.
  - assert (len (slots c) = cap c) as Hfull by (pose proof (ok_cap _ Hc); lia).
    destruct (sweep_spec (S (length (slots c))) c1 i Hc1) as (c' & o & old & Es & Ho & Hold & Hidx & H1 & H2 & H3 & H4 & (h & Hh & Hho & H5) & H6 & H7); [done|done| |].
    { unfold used_count. pose proof (length_filter (fun i => e_used <$> heap c1 !! i = Some true) (slots c1)). cbn in *. lia. }
    change (slots c1) with (slots c). rewrite Es. cbn [fmap option_fmap option_map]. eexists. split; [done|].
    cbn [cap slots index c_n fresh_entry c1] in *.
    assert (∀ j e1, heap c1 !! j = Some e1 → ∃ e2, heap c' !! j = Some e2 ∧ e_key e2 = e_key e1 ∧ e_val e2 = e_val e1) as Hsim.
    { intros j e1 Hj. destruct (H7 j) as [K1 K2]. rewrite Hj in K1, K2.
      destruct (heap c' !! j) as [e2|]; [|done]. injection K1 as K1. injection K2 as K2. eauto. }
    destruct (Hsim i _ He) as (e2 & He2 & Hk2 & Hv2). cbn [e_key e_val] in Hk2, Hv2.
    split; [|split; [done|split]].
    + rewrite H1, H2, H3, H4, H5.
      apply (replace_ok _ key i e2 h o old (hand c') H6); try done. intros Hpos. by apply (ok_hand _ H6).
    + unfold lookup_val. cbn. rewrite lookup_insert_eq. cbn. by rewrite He2, <- Hv2.
    + exists (Some (e_key old)). split; [intros _; split; [done|exact Hfull]|]. intros k Hne. unfold lookup_val at 1. cbn.
      rewrite lookup_insert_ne by done. rewrite H1. case_bool_decide as Hv.
      * injection Hv as ->. by rewrite lookup_delete_eq.
      * rewrite lookup_delete_ne by congruence. rewrite <- Hsame. unfold lookup_val. cbn.
        destruct (index c !! k) as [j|]; [|done]. cbn. apply H7.
Qed.
End Clock.

(** * [RouteCache] *)

Record RouteCache := mkRouteCache { allow : clock RouteDecision; deny : clock RouteDecision }.

Definition NewRouteCache (allowCap denyCap : Z) : RouteCache :=
  mkRouteCache (newClock allowCap) (newClock denyCap).

(** [GetOrRoute]: the decision, whether it was cached, and the caches. *)
Definition GetOrRoute (c : RouteCache) (sni : bytes) (route : bytes → RouteDecision) (busy : bool)
    : option (RouteDecision * bool * RouteCache) :=
  match Get (allow c) sni with
  | (Some d, a) => Some (d, true, mkRouteCache a (deny c))
  | (None, a) =>
      match Get (deny c) sni with
      | (Some d, n) => Some (d, true, mkRouteCache a n)
      | (None, n) =>
          let d := route sni in
          if d_Allow d
          then (fun a' => (d, false, mkRouteCache a' n)) <$> Put a sni d busy
          else (fun n' => (d, false, mkRouteCache a n')) <$> Put n sni d busy
      end
  end.

Definition RouteCache_Len (c : RouteCache) : Z * Z := (Len (allow c), Len (deny c)).

(** * Sequences of operations *)

Inductive clock_op (V : Type) := OpGet (k : bytes) | OpPut (k : bytes) (v : V) (busy : bool).
Arguments OpGet {V} k.
Arguments OpPut {V} k v busy.

Section Ops.
Context {V : Type}.

Definition clock_step (c : clock V) (o : clock_op V) : option (clock V) :=
  match o with OpGet k => Some (Get c k).2 | OpPut k v busy => Put c k v busy end.
Fixpoint clock_run (c : clock V) (ops : list (clock_op V)) : option (clock V) :=
  match ops with [] => Some c | o :: ops' => clock_step c o ≫= fun c' => clock_run c' ops' end.

(** The value the last [Put] of a key was given. *)
Fixpoint last_put (k : bytes) (ops : list (clock_op V)) (acc : option V) : option V :=
  match ops with
  | [] => acc
  | OpPut k' v _ :: ops' => last_put k ops' (if decide (k' = k) then Some v else acc)
  | OpGet _ :: ops' => last_put k ops' acc
  end.

Lemma clock_run_ok ops c (acc : bytes → option V) : clock_ok c →
  (∀ k v, lookup_val c k = Some v → acc k = Some v) →
  ∃ c', clock_run c ops = Some c' ∧ clock_ok c' ∧ cap c' = cap c ∧
    ∀ k v, lookup_val c' k = Some v → last_put k ops (acc k) = Some v.
Proof.
  revert c acc; induction ops as [|o ops IH]; intros c acc Hc Hacc; [by exists c|]. cbn [clock_run]. destruct o as [k|k v busy]; cbn [clock_step].
  - destruct (Get_spec c k Hc) as (_ & Hc' & Hcap & Hsame). cbn [mbind option_bind].
    destruct (IH _ acc Hc') as (c' & H1 & H2 & H3 & H4); [intros k' v'; rewrite Hsame; apply Hacc|].
    exists c'. split; [done|]. split; [done|]. split; [congruence|done].
  - destruct (Put_spec c k v busy Hc) as (c1 & -> & Hc1 & Hcap & Hr). cbn [mbind option_bind].
    destruct (IH c1 (fun k' => if decide (k = k') then Some v else acc k') Hc1) as (c' & H1 & H2 & H3 & H4).
    + intros k' v' Hl. unfold put_result in Hr. destruct (_ || _) eqn:E.
      * subst c1. destruct (decide (k = k')) as [<-|]; [|by apply Hacc]. exfalso.
        apply orb_true_iff in E as [E|E]; bool_prop.
        -- pose proof (ok_cap _ Hc). unfold lookup_val in Hl. destruct (index c !! k) as [i|] eqn:Ei; [|done].
           destruct (ok_index _ Hc _ _ Ei) as [Hi _]. destruct (slots c); [by apply not_elem_of_nil in Hi|len_lia].
        -- unfold Contains in *. unfold lookup_val in Hl. by destruct (index c !! k).
      * destruct Hr as (Hk & victim & _ & Hv). destruct (decide (k = k')) as [<-|Hne]; [congruence|].
        rewrite Hv in Hl by done. case_bool_decide; [done|]. by apply Hacc.
    + exists c'. split; [done|]. split; [done|]. split; [congruence|]. intros k' v' Hl. specialize (H4 k' v' Hl). done.
Qed.
End Ops.

Fixpoint route_run (c : RouteCache) (route : bytes → RouteDecision) (snis : list (bytes * bool))
    : option (list RouteDecision * RouteCache) :=
  match snis with
  | [] => Some ([], c)
  | (sni, busy) :: snis' =>
      match GetOrRoute c sni route busy with
      | Some (d, _, c') => (fun '(ds, c'') => (d :: ds, c'')) <$> route_run c' route snis'
      | None => None
      end
  end.

(** What the two caches may hold for a routing function. *)
Definition caches_route (route : bytes → RouteDecision) (c : RouteCache) : Prop :=
  clock_ok (allow c) ∧ clock_ok (deny c) ∧
  (∀ k d, lookup_val (allow c) k = Some d → d = route k ∧ d_Allow d = true) ∧
  (∀ k d, lookup_val (deny c) k = Some d → d = route k ∧ d_Allow d = false).

Lemma put_lookup {V} (c : clock V) key val busy c' k v : put_result c key val busy c' →
  lookup_val c' k = Some v → lookup_val c k = Some v ∨ k = key ∧ v = val.
Proof.
  unfold put_result. destruct (_ || _); [intros ->; auto|]. intros (Hk & victim & _ & Hv) Hl.
  destruct (decide (k = key)) as [->|Hne]; [right; split; congruence|]. rewrite Hv in Hl by done.
  case_bool_decide; [done|auto].
Qed.

Lemma GetOrRoute_spec route c sni busy : caches_route route c →
  ∃ hit c', GetOrRoute c sni route busy = Some (route sni, hit, c') ∧ caches_route route c' ∧
    cap (allow c') = cap (allow c) ∧ cap (deny c') = cap (deny c) ∧
    (d_Allow (route sni) = false → ∀ k, lookup_val (allow c') k = lookup_val (allow c) k) ∧
    (d_Allow (route sni) = true → ∀ k, lookup_val (deny c') k = lookup_val (deny c) k).
Proof.
  intros (Ha & Hd & Hra & Hrd). unfold GetOrRoute.
  destruct (Get_spec (allow c) sni Ha) as (Ga & Ha' & Hca & Hsa), (Get_spec (deny c) sni Hd) as (Gd & Hd' & Hcd & Hsd).
  destruct (Get (allow c) sni) as [[d|] a] eqn:Ea; cbn [fst snd] in *; symmetry in Ga.
  { destruct (Hra _ _ Ga) as [-> _]. do 2 eexists. split; [done|]. split; [|auto]. split; [done|]. split; [done|].
    split; [|done]. intros k d'. cbn. rewrite Hsa. apply Hra. }
  destruct (Get (deny c) sni) as [[d|] n] eqn:En; cbn [fst snd] in *; symmetry in Gd.
  { destruct (Hrd _ _ Gd) as [-> _]. do 2 eexists. split; [done|]. split; [|cbn; auto]. split; [done|]. split; [done|].
    split; intros k d'; cbn; rewrite ?Hsa, ?Hsd; auto. }
  destruct (d_Allow (route sni)) eqn:Eallow.
  - destruct (Put_spec a sni (route sni) busy Ha') as (a' & -> & Hok & Hcap & Hr). cbn. do 2 eexists. split; [done|].
    split; [|cbn; split; [congruence|split; [done|split; [done|auto]]]]. split; [done|]. split; [done|].
    split; intros k d'; cbn; rewrite ?Hsd; [|by apply Hrd].
    intros [Hl|[-> ->]]%(put_lookup _ _ _ _ _ _ _ Hr); [rewrite Hsa in Hl; by apply Hra|done].
  - destruct (Put_spec n sni (route sni) busy Hd') as (n' & -> & Hok & Hcap & Hr). cbn. do 2 eexists. split; [done|].
    split; [|cbn; split; [done|split; [congruence|split; [auto|done]]]]. split; [done|]. split; [done|].
    split; intros k d'; cbn; rewrite ?Hsa; [by apply Hra|].
    intros [Hl|[-> ->]]%(put_lookup _ _ _ _ _ _ _ Hr); [rewrite Hsd in Hl; by apply Hrd|done].
Qed.

Lemma new_caches route a n : caches_route route (NewRouteCache a n).
Proof.
  split; [apply newClock_ok|]. split; [apply newClock_ok|].
  split; intros k d; unfold lookup_val; cbn; by rewrite lookup_empty.
Qed.

(** * Properties *)

(** C12: whatever the operations, and however inserts collide, the cache never
    fails (the eviction sweep always ends with a slot in range), never holds
    more entries than its capacity, and a key it has holds the value last put
    under it. *)
Theorem clock_refines_map {V} capacity (ops : list (clock_op V)) :
  ∃ c, clock_run (newClock capacity) ops = Some c ∧
    Len c = len (slots c) ∧ Len c <= Z.max 0 capacity ∧ Z.of_nat (size (index c)) = Len c ∧
    ∀ k v, (Get c k).1 = Some v → last_put k ops None = Some v.
Proof.
  destruct (clock_run_ok ops (newClock capacity) (fun _ => None) (newClock_ok capacity)) as (c & H & Hc & Hcap & Hl).
  { intros k v. unfold lookup_val. cbn. by rewrite lookup_empty. }
  exists c. split; [done|]. unfold Len. rewrite (ok_n _ Hc). split; [done|]. split; [|split].
  - pose proof (ok_cap _ Hc). rewrite Hcap in *. done.
  - unfold len. f_equal. rewrite <- (length_map_to_list (index c)), <- (length_fmap snd).
    apply Permutation_length, NoDup_Permutation.
    + apply NoDup_fmap_2_strong; [|apply NoDup_map_to_list].
      intros [k i] [k' i'] Hx%elem_of_map_to_list Hy%elem_of_map_to_list ?. cbn in *. subst i'.
      destruct (ok_index _ Hc _ _ Hx) as (_ & e & He & <-), (ok_index _ Hc _ _ Hy) as (_ & e' & He' & <-). congruence.
    + apply (ok_nodup _ Hc).
    + intros i. rewrite list_elem_of_fmap. split.
      * intros ([k j] & -> & Hx%elem_of_map_to_list). by destruct (ok_index _ Hc _ _ Hx).
      * intros Hi. destruct (ok_slots _ Hc _ Hi) as (e & He & Hx). exists (e_key e, i). split; [done|]. by apply elem_of_map_to_list.
  - intros k v Hg. apply Hl. by rewrite <- (proj1 (Get_spec c k Hc)).
Qed.

(** C13: the route cache is transparent: through any sequence of lookups
    each name gets the decision that routing it gives, cached or not; and a
    flood of denied names never displaces an allowed one (nor the reverse). *)
Theorem route_cache_transparent route allowCap denyCap snis sni busy :
  ∃ ds c, route_run (NewRouteCache allowCap denyCap) route snis = Some (ds, c) ∧
    ds = (fun s => route s.1) <$> snis ∧
    (RouteCache_Len c).1 <= Z.max 0 allowCap ∧ (RouteCache_Len c).2 <= Z.max 0 denyCap ∧
    ∃ hit c', GetOrRoute c sni route busy = Some (route sni, hit, c') ∧
      (d_Allow (route sni) = false → ∀ k, (Get (allow c') k).1 = (Get (allow c) k).1) ∧
      (d_Allow (route sni) = true → ∀ k, (Get (deny c') k).1 = (Get (deny c) k).1).
Proof.
  assert (∀ c, caches_route route c → ∃ ds c', route_run c route snis = Some (ds, c') ∧ ds = (fun s => route s.1) <$> snis ∧
    caches_route route c' ∧ cap (allow c') = cap (allow c) ∧ cap (deny c') = cap (deny c)) as Hrun.
  { induction snis as [|[s b] snis IH]; intros c Hc; [by exists [], c|]. cbn [route_run].
    destruct (GetOrRoute_spec route c s b Hc) as (hit & c1 & -> & Hc1 & Ha & Hd & _).
    destruct (IH c1 Hc1) as (ds & c' & -> & -> & Hc' & Ha' & Hd'). do 2 eexists. split; [done|]. split; [done|].
    split; [done|]. split; congruence. }
  destruct (Hrun _ (new_caches route allowCap denyCap)) as (ds & c & Hr & Hds & Hc & Ha & Hd).
  exists ds, c. split; [done|]. split; [done|]. pose proof Hc as (Oa & Od & _).
  unfold RouteCache_Len, Len. cbn [fst snd]. rewrite (ok_n _ Oa), (ok_n _ Od).
  pose proof (ok_cap _ Oa) as Ca. pose proof (ok_cap _ Od) as Cd. rewrite Ha in Ca. rewrite Hd in Cd.
  split; [done|]. split; [done|].
  destruct (GetOrRoute_spec route c sni busy Hc) as (hit & c' & H & (Oa' & Od' & _) & _ & _ & H1 & H2).
  exists hit, c'. split; [done|]. split; intros E k.
  - rewrite (proj1 (Get_spec _ _ Oa')), (proj1 (Get_spec _ _ Oa)). by apply H1.
  - rewrite (proj1 (Get_spec _ _ Od')), (proj1 (Get_spec _ _ Od)). by apply H2.
Qed.
