(* ===== verification/Nonce.v ===== *)
(** Nonce: the table of recently forwarded ClientHellos that detects loops
    ([nonce.go]). *)

From S2P Require Import Prelude.

Definition nonceIndexBits : Z := 20.
Definition nonceSlots : Z := Z.shiftl 1 nonceIndexBits.
Definition nonceStampBits : Z := 20.
Definition nonceStampMask : Z := Z.shiftl 1 nonceStampBits - 1.
(** Durations are nanoseconds. *)
Definition second : Z := 1000000000.
Definition nonceTick : Z := second / 16.
Definition nonceTTL : Z := 10 * second.
Definition nonceTTLTicks : Z := nonceTTL / nonceTick.

(** [nonceCache]: a slot that was never stored to is 0. *)
Record nonceCache := mkNonceCache { n_slots : gmap Z Z; n_start : Z }.
Definition newNonceCache (now : Z) : nonceCache := mkNonceCache ∅ now.

Definition slot_index (digest : Z) : Z := Z.land digest (nonceSlots - 1).
Definition load (c : nonceCache) (i : Z) : Z := default 0 (n_slots c !! i).

(** [stamp]; the clock is monotonic, so [now] is not before [start]. *)
Definition stamp (c : nonceCache) (now : Z) : Z :=
  (Z.quot (now - n_start c) nonceTick) mod nonceStampMask + 1.

Definition remember (c : nonceCache) (digest now : Z) : nonceCache :=
  mkNonceCache
    (<[slot_index digest :=
        Z.lor (u64 (Z.shiftl (Z.shiftr digest nonceIndexBits) nonceStampBits)) (stamp c now)]> (n_slots c))
    (n_start c).

Definition seen (c : nonceCache) (digest now : Z) : bool :=
  let v := load c (slot_index digest) in
  let stored := Z.land v nonceStampMask in
  if (stored =? 0) || negb (Z.shiftr v nonceStampBits =? Z.shiftr digest nonceIndexBits) then false
  else (stamp c now + nonceStampMask - stored) mod nonceStampMask <? nonceTTLTicks.

(** * What a slot holds *)

Lemma slot_index_mod d : slot_index d = d mod 2 ^ 20.
Proof. unfold slot_index. change (nonceSlots - 1) with (Z.ones 20). by apply Z.land_ones. Qed.

Lemma stamp_range c now : 1 <= stamp c now <= 2 ^ 20 - 1.
Proof.
  unfold stamp. change nonceStampMask with (2 ^ 20 - 1).
  pose proof (Z.mod_pos_bound (Z.quot (now - n_start c) nonceTick) (2 ^ 20 - 1)). lia.
Qed.

(** A word packs the upper 44 bits of a digest and a stamp, and both come out
    again. *)
Lemma pack_unpack d s : 0 <= d < 2 ^ 64 → 0 <= s < 2 ^ 20 →
  let v := Z.lor (u64 (Z.shiftl (Z.shiftr d nonceIndexBits) nonceStampBits)) s in
  Z.land v nonceStampMask = s ∧ Z.shiftr v nonceStampBits = Z.shiftr d nonceIndexBits.
Proof.
  intros Hd Hs v. unfold v, nonceIndexBits, nonceStampBits. change nonceStampMask with (Z.ones 20).
  set (h := Z.shiftr d 20). assert (0 <= h < 2 ^ 44) as Hh.
  { unfold h. rewrite Z.shiftr_div_pow2 by lia. split; [apply Z.div_pos; lia|apply Z.div_lt_upper_bound; lia]. }
  unfold u64. rewrite Z.mod_small by (rewrite Z.shiftl_mul_pow2 by lia; lia).
  assert (Z.shiftr s 20 = 0) as Hs0 by (rewrite Z.shiftr_div_pow2, Z.div_small by lia; done). split.
  - rewrite Z.land_lor_distr_l, !Z.land_ones, Z.shiftl_mul_pow2, Z.mod_mul, (Z.mod_small s) by lia. done.
  - rewrite Z.shiftr_lor, Hs0, Z.lor_0_r, Z.shiftr_shiftl_l by lia. by rewrite Z.shiftl_0_r.
Qed.

(** The index and the upper bits together are the digest. *)
Lemma digest_parts d e : slot_index d = slot_index e → Z.shiftr d 20 = Z.shiftr e 20 → d = e.
Proof.
  rewrite !slot_index_mod, !Z.shiftr_div_pow2 by lia. intros H1 H2.
  rewrite (Z.div_mod d (2 ^ 20)), (Z.div_mod e (2 ^ 20)) by lia. congruence.
Qed.

Lemma load_remember c d now i : load (remember c d now) i =
  if decide (slot_index d = i) then Z.lor (u64 (Z.shiftl (Z.shiftr d nonceIndexBits) nonceStampBits)) (stamp c now)
  else load c i.
Proof.
  unfold load, remember. cbn [n_slots]. destruct (decide _) as [<-|]; [by rewrite lookup_insert_eq|by rewrite lookup_insert_ne].
Qed.

(** * The table after a history *)

(** Ticks since the cache was made. *)
Definition ticks (start now : Z) : Z := (now - start) / nonceTick.

(** A history is the hellos forwarded, newest first. *)
Fixpoint table (start : Z) (history : list (Z * Z)) : nonceCache :=
  match history with
  | [] => newNonceCache start
  | (d, t) :: h => remember (table start h) d t
  end.

(** The newest hello of a slot. *)
Fixpoint newest (i : Z) (history : list (Z * Z)) : option (Z * Z) :=
  match history with
  | [] => None
  | (d, t) :: h => if decide (slot_index d = i) then Some (d, t) else newest i h
  end.

Lemma table_start start h : n_start (table start h) = start.
Proof. induction h as [|[d t] h IH]; done. Qed.

Lemma stamp_ticks c now : n_start c <= now → stamp c now = ticks (n_start c) now mod (2 ^ 20 - 1) + 1.
Proof. intros H. unfold stamp, ticks. rewrite Z.quot_div_nonneg; [done|lia|done]. Qed.

Lemma table_load start h i : load (table start h) i =
  match newest i h with
  | Some (d, t) => Z.lor (u64 (Z.shiftl (Z.shiftr d nonceIndexBits) nonceStampBits)) (stamp (table start []) t)
  | None => 0
  end.
Proof.
  induction h as [|[d t] h IH]; [done|]. cbn [table newest]. rewrite load_remember, IH.
  destruct (decide _); [|done]. unfold stamp. by rewrite table_start.
Qed.

Lemma newest_in i h d t : newest i h = Some (d, t) → (d, t) ∈ h ∧ slot_index d = i.
Proof.
  induction h as [|[d' t'] h IH]; cbn; [done|]. destruct (decide _).
  - intros [= -> ->]. split; [by left|done].
  - intros [? ?]%IH. split; [by right|done].
Qed.

(** * Property *)

(** A hello counts as seen exactly when it is the last one forwarded
    into its slot and that was less than 160 ticks (ten seconds) ago, as long
    as that was not a whole cycle of the stamps (some 18 hours) ago: no other
    hello is ever refused, whatever it shares with the one stored.  In wall
    time, one forwarded within 9.9375 s and not evicted is refused, and one
    10 s old is not. *)
Theorem seen_exactly start h d now :
  0 <= d < 2 ^ 64 → Forall (fun p => 0 <= p.1 < 2 ^ 64 ∧ start <= p.2 <= now ∧ ticks start now - ticks start p.2 < 2 ^ 20 - 1) h →
  (seen (table start h) d now = true ↔
    ∃ t, newest (slot_index d) h = Some (d, t) ∧ ticks start now - ticks start t < 160) ∧
  ∀ t, newest (slot_index d) h = Some (d, t) →
    (now - t <= nonceTTL - nonceTick → seen (table start h) d now = true) ∧
    (nonceTTL <= now - t → seen (table start h) d now = false).
Proof.
  intros Hd Hh. assert (seen (table start h) d now = true ↔
    ∃ t, newest (slot_index d) h = Some (d, t) ∧ ticks start now - ticks start t < 160) as Hseen.
  { unfold seen. rewrite table_load. destruct (newest (slot_index d) h) as [[d' t]|] eqn:E.
    2: { cbn. split; [done|]. by intros (t & ? & _). }
    pose proof (newest_in _ _ _ _ E) as [Hin Hslot]. rewrite Forall_forall in Hh. destruct (Hh _ Hin) as (Hd' & Ht & Hcyc). cbn [fst snd] in *.
    pose proof (stamp_range (table start []) t) as Hst.
    destruct (pack_unpack d' (stamp (table start []) t) Hd') as [-> ->]; [lia|].
    destruct (Z.eqb_spec (stamp (table start []) t) 0); [lia|]. cbn [orb]. unfold nonceIndexBits.
    destruct (Z.eqb_spec (Z.shiftr d' 20) (Z.shiftr d 20)) as [Hup|Hup]; cbn [negb].
    2: { split; [done|]. intros (t' & [= -> ->] & _). congruence. }
    assert (d' = d) as -> by (by apply digest_parts).
    assert (ticks start t <= ticks start now) by (apply Z.div_le_mono; [done|lia]).
    assert ((stamp (table start h) now + nonceStampMask - stamp (table start []) t) mod nonceStampMask =
      ticks start now - ticks start t) as ->.
    { rewrite !stamp_ticks by (rewrite ?table_start; lia). rewrite !table_start. change nonceStampMask with (2 ^ 20 - 1).
      set (a := ticks start now) in *. set (b := ticks start t) in *. set (m := 2 ^ 20 - 1) in *.
      replace (a mod m + 1 + m - (b mod m + 1)) with (a mod m - b mod m + 1 * m) by lia.
      rewrite Z.mod_add by (unfold m; lia). rewrite <- Zminus_mod. apply Z.mod_small. unfold m in *. lia. }
    change nonceTTLTicks with 160. rewrite Z.ltb_lt. split; [eauto|]. by intros (t' & [= <-] & ?). }
  split; [done|]. intros t Ht. pose proof (newest_in _ _ _ _ Ht) as [Hin _]. rewrite Forall_forall in Hh.
  destruct (Hh _ Hin) as (_ & Hle & _). cbn [fst snd] in Hle. unfold ticks in Hseen. change nonceTTL with 10000000000. change nonceTick with 62500000 in *.
  split; intros Hage.
  - apply Hseen. exists t. split; [done|]. Z.to_euclidean_division_equations. lia.
  - apply not_true_iff_false. rewrite Hseen. intros (t' & Ht' & Hlt). rewrite Ht in Ht'. injection Ht' as <-.
    Z.to_euclidean_division_equations. lia.
Qed.

Lemma seen_exactly_witness :
  let h := [(5 * 2 ^ 40 + 7, 4 * second); (9 * 2 ^ 40 + 8, 3 * second)] in
  let d := 9 * 2 ^ 40 + 8 in let now := 12 * second in
  (seen (table 0 h) d now = true ↔
    ∃ t, newest (slot_index d) h = Some (d, t) ∧ ticks 0 now - ticks 0 t < 160) ∧
  ∀ t, newest (slot_index d) h = Some (d, t) →
    (now - t <= nonceTTL - nonceTick → seen (table 0 h) d now = true) ∧
    (nonceTTL <= now - t → seen (table 0 h) d now = false).
Proof.
  apply (seen_exactly 0); [lia|]. repeat constructor; vm_compute; congruence.
Defined.
