(* ===== verification/Limit.v ===== *)
(** Limit: speed limits ([limit.go]): the lock-free token bucket, the rates of
    the configuration, and the buckets that rules share across reloads. *)

From S2P Require Import Prelude GoStr NetIP Sni Rules.
From Stdlib Require Import Floats.SpecFloat.

(** * [float64] and [int64] *)

Definition f_of_int (n : Z) : float64 := binary_normalize 53 1024 n 0 false.
Definition f_mul : float64 → float64 → float64 := SFmul 53 1024.
Definition f_div : float64 → float64 → float64 := SFdiv 53 1024.

(** The float nearest to [num / den], both positive. *)
Definition f_ratio (num den : Z) : float64 :=
  if num =? 0 then S754_zero false
  else let '(m, e, l) := SFdiv_core_binary 53 1024 num 0 den 0 in binary_round_aux 53 1024 false m e l.

Definition i64 (n : Z) : Z := (n + 2 ^ 63) mod 2 ^ 64 - 2 ^ 63.

(** [Time.Sub]: what does not fit saturates. *)
Definition time_sub (a b : Z) : Z := Z.max (- 2 ^ 63) (Z.min (2 ^ 63 - 1) (a - b)).

(** [int64(f)]: towards zero; what is out of range gives the smallest
    integer, as amd64's conversion does. *)
Definition int64_of_float (f : float64) : Z :=
  let n := match f with
           | S754_zero _ => 0
           | S754_finite s m e =>
               let a := if 0 <=? e then Z.pos m * 2 ^ e else Z.pos m / 2 ^ (- e) in if s then - a else a
           | S754_infinity _ | S754_nan => 2 ^ 63
           end in
  if (- 2 ^ 63 <=? n) && (n <? 2 ^ 63) then n else - 2 ^ 63.

(** * [limiter] *)

Record limiter := mkLimiter {
  l_rate : float64; l_burst : float64; perByte : float64; burstDur : Z; tat : Z;
}.

Definition limitedChunk (bytesPerSec : float64) (bufferSize : Z) : Z :=
  Z.max 256 (Z.min (int64_of_float (f_div bytesPerSec (f_of_int 20))) bufferSize).

(** [newLimiter] at time [now], unix nanoseconds. *)
Definition newLimiter (bytesPerSec : float64) (bufferSize now : Z) : option limiter :=
  if SFleb bytesPerSec (S754_zero false) then None
  else
    let burst := f_of_int (limitedChunk bytesPerSec bufferSize) in
    let per_byte := f_div (f_of_int 1000000000) bytesPerSec in
    Some (mkLimiter bytesPerSec burst per_byte (int64_of_float (f_mul burst per_byte)) now).

Definition cost (l : limiter) (n : Z) : Z := int64_of_float (f_mul (f_of_int n) (perByte l)).

Definition with_tat (l : limiter) (t : Z) : limiter := mkLimiter (l_rate l) (l_burst l) (perByte l) (burstDur l) t.

(** [reserve]'s turn whose compare-and-swap succeeds, at the time [now] that
    turn read: the wait, and the bucket.  A turn whose swap fails changes
    nothing. *)
Definition reserve (l : limiter) (n now : Z) : Z * limiter :=
  let next := i64 (Z.max (tat l) now + cost l n) in
  let wait := i64 (i64 (next - now) - burstDur l) in
  (if 0 <? wait then wait else 0, with_tat l next).

(** [waitAll]: how long to sleep, with the limiters after their charge.  Each
    reads the clock for itself. *)
Fixpoint charge_all (n : Z) (limiters : list (option limiter * Z)) : Z * list (option limiter) :=
  match limiters with
  | [] => (0, [])
  | (None, _) :: ls => let (d, out) := charge_all n ls in (d, None :: out)
  | (Some l, now) :: ls =>
      let (w, l') := reserve l n now in
      let (d, out) := charge_all n ls in (Z.max w d, Some l' :: out)
  end.
(** [cancelled]: the channel closes before the timer fires. *)
Definition waitAll (n : Z) (cancelled : bool) (limiters : list (option limiter * Z)) : bool * list (option limiter) :=
  let (d, out) := charge_all n limiters in
  (if d <=? 0 then true else negb cancelled, out).

(** * [parseRate] *)

Inductive rate_err := NoUnit | BadNumber | UnknownUnit (unit : bytes) | TooSlow.

(** [strconv.ParseFloat(s, 64)] on digits and points: the digits, and how many
    of them follow the point. *)
Fixpoint decimal (s : bytes) (seen_point : bool) (m : Z) (digits frac : nat) : option (Z * nat * nat) :=
  match s with
  | [] => Some (m, digits, frac)
  | c :: s' =>
      if c =? ch "." then (if seen_point then None else decimal s' true m digits frac)
      else decimal s' seen_point (m * 10 + (c - 48)) (S digits) (if seen_point then S frac else frac)
  end.
Definition ParseFloat (s : bytes) : option float64 :=
  match decimal s false 0 0 0 with
  | Some (m, S _, frac) =>
      match f_ratio m (10 ^ Z.of_nat frac) with
      | S754_infinity _ => None (* ErrRange *)
      | f => Some f
      end
  | _ => None
  end.

Definition multipliers : list (bytes * float64) :=
  let eighth n := f_div (f_of_int n) (f_of_int 8) in
  [(lit "bit", eighth 1); (lit "bps", eighth 1);
   (lit "kbit", eighth 1000); (lit "kbps", eighth 1000); (lit "mbit", eighth 1000000); (lit "mbps", eighth 1000000);
   (lit "gbit", eighth 1000000000); (lit "gbps", eighth 1000000000);
   (lit "b", f_of_int 1); (lit "kb", f_of_int 1000); (lit "mb", f_of_int 1000000); (lit "gb", f_of_int 1000000000);
   (lit "kib", f_of_int 1024); (lit "mib", f_of_int 1048576); (lit "gib", f_of_int 1073741824)].

Definition multiplier (key : bytes) : option float64 :=
  snd <$> find (fun p => bool_decide (p.1 = key)) multipliers.

Definition parseRate (s : bytes) : res rate_err float64 :=
  let s := trim_suffix (trim_space s) (lit "/s") in
  match index_by (fun r => negb (is_digit r) && negb (r =? ch ".")) s with
  | None | Some O => Err NoUnit
  | Some i =>
      match ParseFloat (take i s) with
      | None => Err BadNumber
      | Some n =>
          if SFleb n (S754_zero false) then Err BadNumber else
          let unit := trim_space (drop i s) in
          let key := to_lower unit ++
            (if contains [lit "b"; lit "Kb"; lit "Mb"; lit "Gb"] unit then lit "it" else []) in
          match multiplier key with
          | None => Err (UnknownUnit unit)
          | Some m => if SFltb (f_mul n m) (f_of_int 1) then Err TooSlow else Ok (f_mul n m)
          end
      end
  end.

Example rate_ex1 : parseRate (lit "100Mbit") = Ok (f_of_int 12500000). Proof. vm_compute. reflexivity. Qed.
Example rate_ex2 : parseRate (lit "2.5 Gbps") = Ok (f_of_int 312500000). Proof. vm_compute. reflexivity. Qed.
Example rate_ex3 : parseRate (lit "800KB/s") = Ok (f_of_int 800000). Proof. vm_compute. reflexivity. Qed.
Example rate_ex4 : parseRate (lit "64MiB/s") = Ok (f_of_int 67108864). Proof. vm_compute. reflexivity. Qed.
Example rate_ex5 : parseRate (lit "8b") = Ok (f_of_int 1). Proof. vm_compute. reflexivity. Qed.
Example rate_ex6 : parseRate (lit "7b") = Err TooSlow. Proof. vm_compute. reflexivity. Qed.
Example rate_ex7 : parseRate (lit "100") = Err NoUnit. Proof. vm_compute. reflexivity. Qed.
Example rate_ex8 : parseRate (lit "1.2.3MB") = Err BadNumber. Proof. vm_compute. reflexivity. Qed.

(** * The buckets rules share *)

(** [ruleLimits]: one limiter per direction; connections hold the pointer, so
    a shared bucket has an identity. *)
Record ruleLimits := mkRuleLimits { rl_rate : float64; rl_id : nat }.

(** [newRuleLimits]: for each rule the buckets it uses ([byRule]), the table by
    key for the next reload ([bySource]), and the next identity.  Both
    directions' limiters of a new pair start at the time of the call. *)
Fixpoint newRuleLimits (rules : list Rule) (prev bySource : gmap bytes ruleLimits) (next : nat)
    : list (option ruleLimits) * gmap bytes ruleLimits * nat :=
  match rules with
  | [] => ([], bySource, next)
  | r :: rules' =>
      if SFeqb (r_MaxAggregatedSpeed r) (S754_zero false) then
        let '(byRule, src, n) := newRuleLimits rules' prev bySource next in (None :: byRule, src, n)
      else
        let '(l, next') :=
          match prev !! Key r with
          | Some l => if negb (SFeqb (rl_rate l) (r_MaxAggregatedSpeed r))
                      then (mkRuleLimits (r_MaxAggregatedSpeed r) next, S next) else (l, next)
          | None => (mkRuleLimits (r_MaxAggregatedSpeed r) next, S next)
          end in
        let '(byRule, src, n) := newRuleLimits rules' prev (<[Key r := l]> bySource) next' in
        (Some l :: byRule, src, n)
  end.

(** * Charging a bucket *)

(** Successful swaps in order: the bytes charged and the time each read. *)
Fixpoint charges (l : limiter) (rs : list (Z * Z)) : list Z * limiter :=
  match rs with
  | [] => ([], l)
  | (n, now) :: rs' =>
      let (w, l') := reserve l n now in
      let (ws, l'') := charges l' rs' in (w :: ws, l'')
  end.

Fixpoint total_cost (l : limiter) (rs : list (Z * Z)) : Z :=
  match rs with [] => 0 | r :: rs' => cost l r.1 + total_cost l rs' end.

(** Everything stays far from the ends of the integers: some 146 years of
    nanoseconds. *)
Definition horizon : Z := 2 ^ 62.
Definition charge_ok (l : limiter) (r : Z * Z) : Prop := 0 <= cost l r.1 ∧ 0 <= r.2.
Definition in_range (l : limiter) (rs : list (Z * Z)) : Prop :=
  0 <= burstDur l < horizon ∧ 0 <= tat l ∧ Forall (charge_ok l) rs ∧
  tat l + total_cost l rs < horizon ∧ Forall (fun r => r.2 + total_cost l rs < horizon) rs.

Lemma i64_id n : - 2 ^ 63 <= n < 2 ^ 63 → i64 n = n.
Proof. intros H. unfold i64. rewrite Z.mod_small; lia. Qed.

Lemma total_cost_nonneg l rs : Forall (charge_ok l) rs → 0 <= total_cost l rs.
Proof. induction 1 as [|r rs [H _] _ IH]; cbn; lia. Qed.

Lemma total_cost_app l rs rs' : total_cost l (rs ++ rs') = total_cost l rs + total_cost l rs'.
Proof. induction rs as [|r rs IH]; cbn; [done|]. rewrite IH. lia. Qed.

Lemma total_cost_tat l t rs : total_cost (with_tat l t) rs = total_cost l rs.
Proof. induction rs as [|r rs IH]; cbn; [done|]. by rewrite IH. Qed.

Lemma reserve_range l n now rs : in_range l ((n, now) :: rs) →
  reserve l n now = (Z.max 0 (Z.max (tat l) now + cost l n - now - burstDur l), with_tat l (Z.max (tat l) now + cost l n))
  ∧ in_range (with_tat l (Z.max (tat l) now + cost l n)) rs.
Proof.
  intros (Hb & Ht & Hc & Hs & Hn). apply Forall_cons in Hc as [[H1 H2] Hc], Hn as [Hn Hns]. cbn in *.
  pose proof (total_cost_nonneg l rs Hc). unfold horizon in *. split.
  - unfold reserve. rewrite (i64_id (Z.max _ _ + _)) by lia. rewrite (i64_id (_ - now)) by lia. rewrite i64_id by lia.
    destruct (Z.ltb_spec 0 (Z.max (tat l) now + cost l n - now - burstDur l)); f_equal; lia.
  - unfold in_range, horizon. cbn. rewrite total_cost_tat. repeat split; try lia; [done|].
    apply Forall_forall. intros r Hr. rewrite Forall_forall in Hns. specialize (Hns r Hr). lia.
Qed.

(** The bucket's time after charges: it has moved by all their costs since any
    of them, and it is exact since the last time it was idle. *)
Lemma charges_tat l rs : in_range l rs →
  ∃ l', (charges l rs).2 = with_tat l l' ∧ tat l + total_cost l rs <= l' ∧
    (∀ pre n now post, rs = pre ++ (n, now) :: post → now + cost l n + total_cost l post <= l') ∧
    (l' = tat l + total_cost l rs ∨
     ∃ pre n now post, rs = pre ++ (n, now) :: post ∧ l' = now + cost l n + total_cost l post).
Proof.
  revert l; induction rs as [|[n now] rs IH]; intros l Hr; cbn [charges].
  - exists (tat l). cbn. split; [by destruct l|]. split; [lia|]. split; [by intros [|] * E|left; lia].
  - destruct (reserve_range _ _ _ _ Hr) as [-> Hr']. destruct (charges _ rs) as [ws l2] eqn:E.
    destruct (IH _ Hr') as (t & H1 & H2 & H3 & H4). rewrite E in H1. cbn in H1, H2. subst l2. rewrite total_cost_tat in H2.
    assert (with_tat (with_tat l (Z.max (tat l) now + cost l n)) t = with_tat l t) as -> by done.
    exists t. split; [done|]. cbn [total_cost fst]. split; [lia|]. split.
    + intros [|[n0 now0] pre] n' now' post E'; cbn in E'; injection E' as ??; subst; [lia|].
      specialize (H3 pre n' now' post eq_refl). by rewrite total_cost_tat in H3.
    + destruct H4 as [H4|(pre & n' & now' & post & -> & H4)].
      * cbn in H4. rewrite total_cost_tat in H4. destruct (decide (now <= tat l)); [left; lia|].
        right. exists [], n, now, rs. split; [done|lia].
      * right. exists ((n, now) :: pre), n', now', post. rewrite total_cost_tat in H4. done.
Qed.

(** * Properties *)


Lemma newRuleLimits_spec rules prev src n byRule bySource n' :
  NoDup (Key <$> rules) → (∀ k, k ∈ Key <$> rules → src !! k = None) →
  newRuleLimits rules prev src n = (byRule, bySource, n') →
  (n <= n')%nat ∧ length byRule = length rules ∧
  (∀ k, k ∉ Key <$> rules → bySource !! k = src !! k) ∧
  ∀ i r, rules !! i = Some r →
    if SFeqb (r_MaxAggregatedSpeed r) (S754_zero false) then byRule !! i = Some None ∧ bySource !! Key r = None
    else ∃ l, byRule !! i = Some (Some l) ∧ bySource !! Key r = Some l ∧
      match prev !! Key r with
      | Some old => if SFeqb (rl_rate old) (r_MaxAggregatedSpeed r) then l = old
                    else rl_rate l = r_MaxAggregatedSpeed r ∧ (n <= rl_id l < n')%nat
      | None => rl_rate l = r_MaxAggregatedSpeed r ∧ (n <= rl_id l < n')%nat
      end.
Proof.
  revert src n byRule bySource n'; induction rules as [|r rules IH]; intros src n byRule bySource n' Hn Hsrc E; cbn [newRuleLimits] in E.
  { injection E as <- <- <-. repeat split; [done|]. intros i r H. done. }
  rewrite fmap_cons in Hn. apply NoDup_cons in Hn as [Hr Hn].
  destruct (SFeqb (r_MaxAggregatedSpeed r) (S754_zero false)) eqn:Ez.
  - destruct (newRuleLimits rules prev src n) as [[b s] n1] eqn:E1. injection E as <- <- <-.
    apply IH in E1 as (H1 & H2 & H3 & H4); [|done|intros k Hk; apply Hsrc; by right].
    split; [done|]. split; [cbn; congruence|]. split.
    + intros k Hk. apply H3. intros ?. apply Hk. by right.
    + intros [|i] r' Hi; [|by apply H4]. injection Hi as <-. rewrite Ez. split; [done|]. rewrite H3 by done. apply Hsrc. by left.
  - destruct (match prev !! Key r with Some _ => _ | None => _ end) as [l n0] eqn:El.
    destruct (newRuleLimits rules prev _ n0) as [[b s] n1] eqn:E1. injection E as <- <- <-.
    apply IH in E1 as (H1 & H2 & H3 & H4); [|done|].
    2: { intros k Hk. rewrite lookup_insert_ne by (intros <-; done). apply Hsrc. by right. }
    assert (n <= n0)%nat as Hn0 by (destruct (prev !! Key r); repeat case_match; injection El as _ <-; lia).
    split; [lia|]. split; [cbn; congruence|]. split.
    + intros k [Hk1 Hk2]%not_elem_of_cons. rewrite H3 by done. by rewrite lookup_insert_ne.
    + intros [|i] r' Hi.
      * injection Hi as <-. rewrite Ez. exists l. split; [done|]. rewrite H3, lookup_insert_eq by done. split; [done|].
        destruct (prev !! Key r) as [old|]; [destruct (SFeqb (rl_rate old) _)|]; cbn [negb] in El; injection El as <- <-; cbn; done || lia || (split; [done|lia]).
      * specialize (H4 i r' Hi). revert H4. destruct (SFeqb (r_MaxAggregatedSpeed r') (S754_zero false)); [done|]. intros (l' & L1 & L2 & L3).
        exists l'. split; [done|]. split; [done|]. destruct (prev !! Key r') as [old|]; [destruct (SFeqb (rl_rate old) (r_MaxAggregatedSpeed r')); [done|]|];
          destruct L3 as [? ?]; (split; [done|lia]).
Qed.

(** across a reload a rule keeps its shared buckets exactly when a rule
    with the same key had some at the same rate, so its budget is never
    given twice; any other limited rule gets buckets that no rule used
    before, and a rule without a limit none. *)
Theorem limits_survive_reload rules prev next byRule bySource next' :
  NoDup (Key <$> rules) →
  newRuleLimits rules prev ∅ next = (byRule, bySource, next') →
  length byRule = length rules ∧
  ∀ i r, rules !! i = Some r →
    if SFeqb (r_MaxAggregatedSpeed r) (S754_zero false) then byRule !! i = Some None ∧ bySource !! Key r = None
    else ∃ l, byRule !! i = Some (Some l) ∧ bySource !! Key r = Some l ∧
      match prev !! Key r with
      | Some old => if SFeqb (rl_rate old) (r_MaxAggregatedSpeed r) then l = old
                    else rl_rate l = r_MaxAggregatedSpeed r ∧ (next <= rl_id l < next')%nat
      | None => rl_rate l = r_MaxAggregatedSpeed r ∧ (next <= rl_id l < next')%nat
      end.
Proof.
  intros Hn E. apply newRuleLimits_spec in E as (_ & H1 & _ & H2); [done|done|]. intros. apply lookup_empty.
Qed.

(** ** Witnesses *)

Definition w_limiter : limiter :=
  default (mkLimiter (S754_zero false) (S754_zero false) (S754_zero false) 0 0)
    (newLimiter (f_of_int 1000000) 65536 1700000000000000000).


Definition w_limited (line : Z) (source : bytes) (rate : Z) : Rule :=
  mkRule (lit "lan") line source kindLiteral 5 false (compile_re true (quote_meta source)) true (lit "h") 443 [] [] [] [] [] [] [] []
    false false [] false 2 (if rate =? 0 then S754_zero false else f_of_int rate) (S754_zero false) [] false false.

Lemma limits_survive_reload_witness :
  let rules := [w_limited 1 (lit "a.com") 1000; w_limited 2 (lit "b.com") 0] in
  let prev := {[ Key (w_limited 9 (lit "a.com") 1000) := mkRuleLimits (f_of_int 1000) 3 ]} in
  (newRuleLimits rules prev ∅ 7).1.1 = [Some (mkRuleLimits (f_of_int 1000) 3); None] ∧
  let '(byRule, bySource, next') := newRuleLimits rules prev ∅ 7 in
  length byRule = length rules ∧
  ∀ i r, rules !! i = Some r →
    if SFeqb (r_MaxAggregatedSpeed r) (S754_zero false) then byRule !! i = Some None ∧ bySource !! Key r = None
    else ∃ l, byRule !! i = Some (Some l) ∧ bySource !! Key r = Some l ∧
      match prev !! Key r with
      | Some old => if SFeqb (rl_rate old) (r_MaxAggregatedSpeed r) then l = old
                    else rl_rate l = r_MaxAggregatedSpeed r ∧ (7 <= rl_id l < next')%nat
      | None => rl_rate l = r_MaxAggregatedSpeed r ∧ (7 <= rl_id l < next')%nat
      end.
Proof.
  intros rules prev. split; [vm_compute; reflexivity|].
  destruct (newRuleLimits rules prev ∅ 7) as [[byRule bySource] next'] eqn:E.
  apply (limits_survive_reload rules prev 7 byRule bySource next'); [|exact E].
  apply (bool_decide_unpack _). vm_compute. reflexivity.
Defined.
