(* ===== verification/Ring.v ===== *)
(** Ring: the bounded multi-producer multi-consumer queue of [lockfree.go],
    under any interleaving of the atomic actions of its users, and one
    operation at a time. *)

From S2P Require Import Prelude.

(** * The ring

    The two position counters are unbounded here: 64 bits last for centuries
    of operations. *)

Record ringCell (T : Type) := mkCell { seq : Z; val : option T }.
Arguments mkCell {T} _ _.
Arguments seq {T} _.
Arguments val {T} _.

Record ring (T : Type) := mkRing { rmask : Z; rhead : Z; rtail : Z; rcell : list (ringCell T) }.
Arguments mkRing {T} _ _ _ _.
Arguments rmask {T} _.
Arguments rhead {T} _.
Arguments rtail {T} _.
Arguments rcell {T} _.

(** The smallest power of two from [n] on that is at least [capacity]; [fuel]
    doublings are enough when [capacity <= n * 2 ^ fuel]. *)
Fixpoint ring_size (fuel : nat) (n capacity : Z) : Z :=
  match fuel with
  | O => n
  | S fuel' => if n <? capacity then ring_size fuel' (Z.shiftl n 1) capacity else n
  end.

(** Where a thread is in [TryPush] or [TryPop]: its next atomic action. *)
Inductive pc (T : Type) :=
| PushLoad (v : T)              (* r.tail.Load() *)
| PushSeq (v : T) (pos : Z)     (* c.seq.Load() *)
| PushCAS (v : T) (pos : Z)     (* r.tail.CompareAndSwap(pos, pos+1) *)
| PushVal (v : T) (pos : Z)     (* c.val = v *)
| PushStore (pos : Z)           (* c.seq.Store(pos + 1) *)
| PushDone (ok : bool)
| PopLoad                       (* r.head.Load() *)
| PopSeq (pos : Z)              (* c.seq.Load() *)
| PopCAS (pos : Z)              (* r.head.CompareAndSwap(pos, pos+1) *)
| PopVal (pos : Z)              (* v := c.val *)
| PopZero (pos : Z) (v : option T)   (* c.val = zero *)
| PopStore (pos : Z) (v : option T)  (* c.seq.Store(pos + r.mask + 1) *)
| PopDone (v : option (option T)).   (* the value and true, or None: false *)
Arguments PushLoad {T} _.
Arguments PushSeq {T} _ _.
Arguments PushCAS {T} _ _.
Arguments PushVal {T} _ _.
Arguments PushStore {T} _.
Arguments PushDone {T} _.
Arguments PopLoad {T}.
Arguments PopSeq {T} _.
Arguments PopCAS {T} _.
Arguments PopVal {T} _.
Arguments PopZero {T} _ _.
Arguments PopStore {T} _ _.
Arguments PopDone {T} _.

Section Ring.
Context {T : Type}.
Implicit Types r : ring T.

Definition newRing (capacity : Z) : ring T :=
  let n := ring_size 64 2 capacity in
  mkRing (n - 1) 0 0 ((fun i => mkCell (Z.of_nat i) None) <$> List.seq 0 (Z.to_nat n)).

(** [&r.cell[pos&r.mask]] *)
Definition cell_index r (pos : Z) : nat := Z.to_nat (Z.land pos (rmask r)).
Definition cell_at r (pos : Z) : ringCell T := default (mkCell 0 None) (rcell r !! cell_index r pos).
Definition set_cell r (pos : Z) (c : ringCell T) : ring T :=
  mkRing (rmask r) (rhead r) (rtail r) (<[cell_index r pos := c]> (rcell r)).
Definition set_seq r pos s := set_cell r pos (mkCell s (val (cell_at r pos))).
Definition set_val r pos v := set_cell r pos (mkCell (seq (cell_at r pos)) v).

(** One atomic action. *)
Definition step_pc r (p : pc T) : ring T * pc T :=
  match p with
  | PushLoad v => (r, PushSeq v (rtail r))
  | PushSeq v pos =>
      let s := seq (cell_at r pos) in
      (r, if s =? pos then PushCAS v pos else if s <? pos then PushDone false else PushLoad v)
  | PushCAS v pos =>
      if rtail r =? pos then (mkRing (rmask r) (rhead r) (pos + 1) (rcell r), PushVal v pos)
      else (r, PushLoad v)
  | PushVal v pos => (set_val r pos (Some v), PushStore pos)
  | PushStore pos => (set_seq r pos (pos + 1), PushDone true)
  | PopLoad => (r, PopSeq (rhead r))
  | PopSeq pos =>
      let s := seq (cell_at r pos) in
      (r, if s =? pos + 1 then PopCAS pos else if s <? pos + 1 then PopDone None else PopLoad)
  | PopCAS pos =>
      if rhead r =? pos then (mkRing (rmask r) (pos + 1) (rtail r) (rcell r), PopVal pos)
      else (r, PopLoad)
  | PopVal pos => (r, PopZero pos (val (cell_at r pos)))
  | PopZero pos v => (set_val r pos None, PopStore pos v)
  | PopStore pos v => (set_seq r pos (pos + rmask r + 1), PopDone (Some v))
  | PushDone _ | PopDone _ => (r, p)
  end.

(** Alone, an operation runs to its end: at most five actions. *)
Fixpoint run_alone (n : nat) r (p : pc T) : ring T * pc T :=
  match n with O => (r, p) | S n => let (r', p') := step_pc r p in run_alone n r' p' end.
Definition TryPush r (v : T) : ring T * bool :=
  match run_alone 6 r (PushLoad v) with (r', PushDone ok) => (r', ok) | (r', _) => (r', false) end.
Definition TryPop r : ring T * option T :=
  match run_alone 6 r PopLoad with (r', PopDone (Some v)) => (r', v) | (r', _) => (r', None) end.

(** [Len]: the two counters are read one after the other. *)
Definition ring_Len (head tail : Z) : Z := if tail <? head then 0 else tail - head.
Definition ring_Cap r : Z := len (rcell r).

(** * Threads

    A world is a ring, its threads, and a record of what they did: the value
    claimed for each position by a producer, and what consumers returned. *)

Record world := mkWorld {
  w_ring : ring T; threads : gmap nat (pc T); pushed : list T; taken : list (Z * option T);
}.

Definition idle (p : option (pc T)) : Prop :=
  match p with None | Some (PushDone _) | Some (PopDone _) => True | _ => False end.

(** A thread calls an operation, or takes its next action. *)
Inductive step : relation world :=
| StepCall w t p : idle (threads w !! t) → (∃ v, p = PushLoad v) ∨ p = PopLoad →
    step w (mkWorld (w_ring w) (<[t := p]> (threads w)) (pushed w) (taken w))
| StepAct w t p r' p' : threads w !! t = Some p → step_pc (w_ring w) p = (r', p') →
    step w (mkWorld r' (<[t := p']> (threads w))
      (match p, p' with PushCAS v _, PushVal _ _ => pushed w ++ [v] | _, _ => pushed w end)
      (match p with PopStore pos v => taken w ++ [(pos, v)] | _ => taken w end)).

Definition start (capacity : Z) : world := mkWorld (newRing capacity) ∅ [] [].

(** The position a producer has claimed and not published, and a consumer has
    claimed and not released. *)
Definition pushing (p : pc T) : option Z :=
  match p with PushVal _ pos | PushStore pos => Some pos | _ => None end.
Definition popping (p : pc T) : option Z :=
  match p with PopVal pos | PopZero pos _ | PopStore pos _ => Some pos | _ => None end.

(** What thread [t] owns, as a producer or a consumer. *)
Definition owns (f : pc T → option Z) (th : gmap nat (pc T)) (t : nat) : option Z := th !! t ≫= f.

Definition at_ (l : list T) (pos : Z) : option T := l !! Z.to_nat pos.

(** What a thread may rely on: what it saw, and the cell it owns. *)
Definition thread_ok r (l : list T) (p : pc T) : Prop :=
  match p with
  | PushLoad _ | PushDone _ | PopLoad | PopDone _ => True
  | PushSeq _ pos => 0 <= pos
  | PushCAS _ pos => 0 <= pos ∧ pos <= seq (cell_at r pos)
  | PushVal v pos => rhead r <= pos < rtail r ∧ seq (cell_at r pos) = pos ∧ at_ l pos = Some v
  | PushStore pos => rhead r <= pos < rtail r ∧ seq (cell_at r pos) = pos ∧ val (cell_at r pos) = at_ l pos
  | PopSeq pos => 0 <= pos
  | PopCAS pos => 0 <= pos ∧ pos + 1 <= seq (cell_at r pos)
  | PopVal pos => (0 <= pos < rhead r ∧ rtail r <= pos + len (rcell r) ∧ seq (cell_at r pos) = pos + 1)
                  ∧ val (cell_at r pos) = at_ l pos
  | PopZero pos v | PopStore pos v =>
      (0 <= pos < rhead r ∧ rtail r <= pos + len (rcell r) ∧ seq (cell_at r pos) = pos + 1) ∧ v = at_ l pos
  end.

(** As many cells as a power of two, at least two. *)
Definition geometry r : Prop := ∃ k, 1 <= k ∧ len (rcell r) = 2 ^ k ∧ rmask r = 2 ^ k - 1.

Record ring_inv (w : world) : Prop := {
  i_size : geometry (w_ring w);
  i_bounds : 0 <= rhead (w_ring w) <= rtail (w_ring w) ∧ rtail (w_ring w) <= rhead (w_ring w) + len (rcell (w_ring w));
  i_pushed : len (pushed w) = rtail (w_ring w);
  (* the cells of the window from head on *)
  i_cell q : rhead (w_ring w) <= q < rhead (w_ring w) + len (rcell (w_ring w)) →
    let c := cell_at (w_ring w) q in
    if q <? rtail (w_ring w)
    then (seq c = q + 1 ∧ val c = at_ (pushed w) q) ∨ (seq c = q ∧ ∃ t, owns pushing (threads w) t = Some q)
    else seq c = q ∨ (seq c = q - len (rcell (w_ring w)) + 1 ∧ ∃ t, owns popping (threads w) t = Some (q - len (rcell (w_ring w))));
  i_thread t p : threads w !! t = Some p → thread_ok (w_ring w) (pushed w) p;
  i_push_uniq t t' pos : owns pushing (threads w) t = Some pos → owns pushing (threads w) t' = Some pos → t = t';
  i_pop_uniq t t' pos : owns popping (threads w) t = Some pos → owns popping (threads w) t' = Some pos → t = t';
  i_taken pos v : (pos, v) ∈ taken w → 0 <= pos < rhead (w_ring w) ∧ v = at_ (pushed w) pos;
  i_taken_nodup : NoDup (fst <$> taken w);
  i_taken_not t pos : owns popping (threads w) t = Some pos → pos ∉ fst <$> taken w;
  i_taken_all pos : 0 <= pos < rhead (w_ring w) →
    pos ∈ fst <$> taken w ∨ ∃ t, owns popping (threads w) t = Some pos;
}.

(** ** Positions and cells *)

Lemma geometry_len r : geometry r → 2 <= len (rcell r).
Proof. intros (k & Hk & -> & _). change 2 with (2 ^ 1) at 1. apply Z.pow_le_mono_r; lia. Qed.

Lemma geometry_mask r : geometry r → rmask r + 1 = len (rcell r).
Proof. intros (k & _ & -> & ->). lia. Qed.

Lemma mod_window n a b : 0 < n → a mod n = b mod n → - n < a - b < n → a = b.
Proof.
  intros Hn Hm Hw. pose proof (Z.div_mod a n ltac:(lia)). pose proof (Z.div_mod b n ltac:(lia)).
  destruct (Z.lt_trichotomy (a / n) (b / n)) as [|[E|]]; [nia| |nia]. rewrite E in *. lia.
Qed.

Lemma cell_index_mod r q : geometry r → cell_index r q = Z.to_nat (q mod len (rcell r)).
Proof.
  intros (k & Hk & -> & Hm). unfold cell_index. rewrite Hm.
  replace (2 ^ k - 1) with (Z.ones k) by (rewrite Z.ones_equiv; lia). by rewrite Z.land_ones by lia.
Qed.

Lemma cell_at_set r pos c q : geometry r →
  cell_at (set_cell r pos c) q =
  if decide (q mod len (rcell r) = pos mod len (rcell r)) then c else cell_at r q.
Proof.
  intros Hg. pose proof (geometry_len r Hg). unfold cell_at, set_cell. cbn [rcell rmask].
  change (cell_index (mkRing _ _ _ _) q) with (cell_index r q). rewrite !cell_index_mod by done.
  pose proof (Z.mod_pos_bound q (len (rcell r))). pose proof (Z.mod_pos_bound pos (len (rcell r))).
  destruct (decide _) as [->|Hne].
  - rewrite list_lookup_insert_eq; [done|]. unfold len in *. lia.
  - rewrite list_lookup_insert_ne; [done|]. lia.
Qed.

Lemma cell_at_same r q q' : geometry r → q mod len (rcell r) = q' mod len (rcell r) → cell_at r q = cell_at r q'.
Proof. intros Hg E. unfold cell_at. by rewrite !cell_index_mod, E. Qed.

Lemma set_cell_geometry r pos c : geometry r → geometry (set_cell r pos c).
Proof. intros (k & H). exists k. unfold set_cell, len. cbn. by rewrite length_insert. Qed.

Lemma set_cell_len r pos c : len (rcell (set_cell r pos c)) = len (rcell r).
Proof. unfold set_cell, len. cbn. by rewrite length_insert. Qed.

(** Positions in one window of the ring's size have cells of their own. *)
Lemma cell_at_set_ne r pos c q : geometry r → q ≠ pos → - len (rcell r) < q - pos < len (rcell r) →
  cell_at (set_cell r pos c) q = cell_at r q.
Proof.
  intros Hg Hne Hw. pose proof (geometry_len r Hg). rewrite cell_at_set by done.
  destruct (decide _) as [E|]; [|done]. apply mod_window in E; [done|lia|done].
Qed.
Lemma cell_at_set_eq r pos c : geometry r → cell_at (set_cell r pos c) pos = c.
Proof. intros Hg. rewrite cell_at_set by done. by rewrite decide_True. Qed.

(** A cell's sequence number never goes back, so what a thread saw of it is a
    lower bound. *)
Lemma set_seq_mono r pos s q b : geometry r → seq (cell_at r pos) <= s → b <= seq (cell_at r q) →
  b <= seq (cell_at (set_seq r pos s) q).
Proof.
  intros Hg Hs Hb. unfold set_seq. rewrite cell_at_set by done. destruct (decide _) as [E|]; [|done].
  cbn. rewrite (cell_at_same r q pos) in Hb by done. lia.
Qed.
Lemma set_val_seq r pos v q : geometry r → seq (cell_at (set_val r pos v) q) = seq (cell_at r q).
Proof.
  intros Hg. unfold set_val. rewrite cell_at_set by done. destruct (decide _) as [E|]; [|done].
  cbn. by rewrite (cell_at_same r q pos).
Qed.

Lemma owns_insert f th t p t' : owns f (<[t := p]> th) t' = if decide (t = t') then f p else owns f th t'.
Proof. unfold owns. destruct (decide _) as [->|]; [by rewrite lookup_insert_eq|by rewrite lookup_insert_ne]. Qed.

Lemma owns_same f th t p t' : owns f th t = f p → owns f (<[t := p]> th) t' = owns f th t'.
Proof. intros H. rewrite owns_insert. by destruct (decide _) as [<-|]. Qed.

Lemma lookup_insert_forall {th : gmap nat (pc T)} {t p} (P : pc T → Prop) : P p → (∀ t' p', th !! t' = Some p' → P p') →
  ∀ t' p', <[t := p]> th !! t' = Some p' → P p'.
Proof. intros Hp Hall t' p' [[_ <-]|[_ H]]%lookup_insert_Some; eauto. Qed.

(** An action that leaves the ring and the ownership alone. *)
Lemma inv_same w t p : ring_inv w → thread_ok (w_ring w) (pushed w) p →
  owns pushing (threads w) t = pushing p → owns popping (threads w) t = popping p →
  ring_inv (mkWorld (w_ring w) (<[t := p]> (threads w)) (pushed w) (taken w)).
Proof.
  intros [H1 H2 H3 H4 H5 H6 H7 H8 H9 H10 H11] Hp Ho1 Ho2.
  assert (∀ t', owns pushing (<[t := p]> (threads w)) t' = owns pushing (threads w) t') as E1 by (intros; by apply owns_same).
  assert (∀ t', owns popping (<[t := p]> (threads w)) t' = owns popping (threads w) t') as E2 by (intros; by apply owns_same).
  split; cbn; try done.
  - intros q Hq. specialize (H4 q Hq). cbn in H4. destruct (q <? _); (destruct H4 as [H4|[H4 [t' Ht']]]; [by left|]);
      right; (split; [done|]); exists t'; by rewrite ?E1, ?E2.
  - by apply lookup_insert_forall.
  - intros t1 t2 pos. rewrite !E1. apply H6.
  - intros t1 t2 pos. rewrite !E2. apply H7.
  - intros t1 pos. rewrite E2. apply H10.
  - intros pos Hpos. destruct (H11 pos Hpos) as [?|[t' ?]]; [by left|right; exists t'; by rewrite E2].
Qed.

(** The claim of a position by a producer. *)
Lemma inv_push_claim w t v pos : ring_inv w → threads w !! t = Some (PushCAS v pos) → rtail (w_ring w) = pos →
  ring_inv (mkWorld (mkRing (rmask (w_ring w)) (rhead (w_ring w)) (pos + 1) (rcell (w_ring w)))
    (<[t := PushVal v pos]> (threads w)) (pushed w ++ [v]) (taken w)).
Proof.
  intros [H1 H2 H3 H4 H5 H6 H7 H8 H9 H10 H11] Ht Htail. pose proof (geometry_len _ H1) as Hn.
  pose proof (H5 _ _ Ht) as [Hpos Hsaw]. set (r := w_ring w) in *. set (n := len (rcell r)) in *.
  change (cell_at (mkRing (rmask r) (rhead r) (pos + 1) (rcell r))) with (cell_at r).
  assert (owns pushing (threads w) t = None ∧ owns popping (threads w) t = None) as [Hown1 Hown2] by (unfold owns; by rewrite Ht).
  assert (rtail r < rhead r + n ∧ seq (cell_at r pos) = pos) as [Hroom Hseq].
  { destruct (decide (rtail r < rhead r + n)) as [Hlt|Hge].
    - split; [done|]. specialize (H4 pos ltac:(lia)). cbn in H4. rewrite Htail, Z.ltb_irrefl in H4. destruct H4 as [?|[? _]]; lia.
    - exfalso. specialize (H4 (rhead r) ltac:(lia)). cbn in H4. destruct (Z.ltb_spec (rhead r) (rtail r)); [|lia].
      rewrite (cell_at_same r pos (rhead r)) in Hsaw; [destruct H4 as [[? _]|[? _]]; lia|done|].
      replace pos with (rhead r + 1 * n) by lia. apply Z.mod_add. lia. }
  assert (∀ q, 0 <= q < rtail r → at_ (pushed w ++ [v]) q = at_ (pushed w) q) as Hat.
  { intros q Hq. unfold at_. rewrite lookup_app_l; [done|]. unfold len in H3. lia. }
  split; cbn; fold r; fold n; try done.
  - lia.
  - rewrite len_app, len_cons, len_nil. lia.
  - intros q Hq. change (cell_at _ q) with (cell_at r q). specialize (H4 q Hq). cbn in H4.
    destruct (decide (q = pos)) as [->|Hne].
    + destruct (Z.ltb_spec pos (pos + 1)); [|lia]. right. split; [done|]. exists t. rewrite owns_insert. by rewrite decide_True.
    + destruct (Z.ltb_spec q (rtail r)), (Z.ltb_spec q (pos + 1)); try lia.
      * rewrite Hat by lia. destruct H4 as [?|[? [t' Ht']]]; [by left|right]. split; [done|]. exists t'.
        rewrite owns_insert. destruct (decide _) as [<-|]; congruence.
      * destruct H4 as [?|[? [t' Ht']]]; [by left|right]. split; [done|]. exists t'.
        rewrite owns_insert. destruct (decide _) as [<-|]; congruence.
  - apply lookup_insert_forall.
    + cbn. change (cell_at _ pos) with (cell_at r pos). split; [lia|]. split; [done|].
      unfold at_. replace (Z.to_nat pos) with (length (pushed w)) by (unfold len in H3; lia). by rewrite list_lookup_middle.
    + intros t' p' Ht'. specialize (H5 t' p' Ht').
      assert (∀ q, 0 <= q < rhead r ∧ rtail r <= q + n ∧ seq (cell_at r q) = q + 1 → pos + 1 <= q + n) as Hpop.
      { intros q (Hq & Hqn & Hsq). destruct (decide (pos = q + n)) as [->|]; [|lia].
        rewrite (cell_at_same r (q + n) q), Hsq in Hseq; [lia|done|].
        replace (q + n) with (q + 1 * n) by lia. apply Z.mod_add. lia. }
      destruct p'; cbn in H5 |- *; try done;
        change (cell_at (mkRing (rmask r) (rhead r) (pos + 1) (rcell r))) with (cell_at r);
        fold r in H5; fold n in H5; fold n; try (destruct H5 as [H5 H5']; specialize (Hpop _ H5));
        try (rewrite Hat by lia); intuition (done || lia).
  - intros t1 t2 p. rewrite !owns_insert. destruct (decide (t = t1)) as [<-|], (decide (t = t2)) as [<-|]; try done; [..|apply H6]; cbn.
    + intros [= <-] Hp. unfold owns in Hp. destruct (threads w !! t2) as [p2|] eqn:E2; [|done]. cbn in Hp.
      specialize (H5 _ _ E2). destruct p2; try done; injection Hp as ->; cbn in H5; fold r in H5; lia.
    + intros Hp [= <-]. unfold owns in Hp. destruct (threads w !! t1) as [p2|] eqn:E2; [|done]. cbn in Hp.
      specialize (H5 _ _ E2). destruct p2; try done; injection Hp as ->; cbn in H5; fold r in H5; lia.
  - intros t1 t2 p. rewrite !owns_insert. destruct (decide (t = t1)) as [<-|], (decide (t = t2)) as [<-|]; try done. apply H7.
  - intros p v' Hin. destruct (H8 p v' Hin) as [Hr ->]. split; [done|]. symmetry. apply Hat. fold r in Hr. lia.
  - intros t1 p. rewrite owns_insert. destruct (decide _); [done|]. apply H10.
  - intros p Hp. destruct (H11 p Hp) as [?|[t' Ht']]; [by left|right]. exists t'. rewrite owns_insert.
    destruct (decide _) as [<-|]; congruence.
Qed.

(** The claim of a position by a consumer. *)
Lemma inv_pop_claim w t pos : ring_inv w → threads w !! t = Some (PopCAS pos) → rhead (w_ring w) = pos →
  ring_inv (mkWorld (mkRing (rmask (w_ring w)) (pos + 1) (rtail (w_ring w)) (rcell (w_ring w)))
    (<[t := PopVal pos]> (threads w)) (pushed w) (taken w)).
Proof.
  intros [H1 H2 H3 H4 H5 H6 H7 H8 H9 H10 H11] Ht Hhead. pose proof (geometry_len _ H1) as Hn.
  pose proof (H5 _ _ Ht) as [Hpos Hsaw]. set (r := w_ring w) in *. set (n := len (rcell r)) in *.
  assert (owns pushing (threads w) t = None ∧ owns popping (threads w) t = None) as [Hown1 Hown2] by (unfold owns; by rewrite Ht).
  assert (rhead r < rtail r ∧ seq (cell_at r pos) = pos + 1 ∧ val (cell_at r pos) = at_ (pushed w) pos) as (Hfull & Hseq & Hval).
  { specialize (H4 pos ltac:(lia)). cbn in H4. destruct (Z.ltb_spec pos (rtail r)); destruct H4 as [H4|[H4 _]]; try lia. destruct H4. repeat split; (done || lia). }
  assert (∀ q, seq (cell_at r q) = q → ¬ (q = pos)) as Hother by (intros q Hq ->; lia).
  split; cbn; fold r; fold n; try done.
  - lia.
  - intros q Hq. change (cell_at _ q) with (cell_at r q).
    destruct (decide (q = pos + n)) as [->|Hne].
    + destruct (Z.ltb_spec (pos + n) (rtail r)); [lia|]. right. split.
      * rewrite (cell_at_same r (pos + n) pos), Hseq; [lia|done|]. replace (pos + n) with (pos + 1 * n) by lia. apply Z.mod_add. lia.
      * exists t. rewrite owns_insert. rewrite decide_True by done. cbn. f_equal. lia.
    + specialize (H4 q ltac:(lia)). cbn in H4. destruct (q <? rtail r); (destruct H4 as [?|[? [t' Ht']]]; [by left|right]);
        (split; [done|]); exists t'; rewrite owns_insert; destruct (decide _) as [<-|]; congruence.
  - apply lookup_insert_forall.
    + cbn. change (cell_at _ pos) with (cell_at r pos). fold n. repeat split; (done || lia).
    + intros t' p' Ht'. specialize (H5 t' p' Ht').
      destruct p'; cbn in H5 |- *; try done;
        change (cell_at (mkRing (rmask r) (pos + 1) (rtail r) (rcell r))) with (cell_at r);
        fold r in H5; fold n in H5; fold n; try (destruct H5 as (H5 & H5s & ?); pose proof (Hother _ H5s)); intuition (done || lia).
  - intros t1 t2 p. rewrite !owns_insert. destruct (decide (t = t1)) as [<-|], (decide (t = t2)) as [<-|]; try done. apply H6.
  - intros t1 t2 p. rewrite !owns_insert. destruct (decide (t = t1)) as [<-|], (decide (t = t2)) as [<-|]; try done; [..|apply H7]; cbn.
    + intros [= <-] Hp. unfold owns in Hp. destruct (threads w !! t2) as [p2|] eqn:E2; [|done]. cbn in Hp.
      specialize (H5 _ _ E2). destruct p2; try done; injection Hp as ->; cbn in H5; fold r in H5; lia.
    + intros Hp [= <-]. unfold owns in Hp. destruct (threads w !! t1) as [p2|] eqn:E2; [|done]. cbn in Hp.
      specialize (H5 _ _ E2). destruct p2; try done; injection Hp as ->; cbn in H5; fold r in H5; lia.
  - intros p v' Hin. destruct (H8 p v' Hin) as [Hr ->]. split; [|done]. fold r in Hr. lia.
  - intros t1 p. rewrite owns_insert. destruct (decide _) as [<-|]; [|apply H10]. intros [= <-] Hin.
    apply list_elem_of_fmap in Hin as ([q v] & E & Hin). apply H8 in Hin as [Hin _]. fold r in Hin. cbn in E. lia.
  - intros p Hp. destruct (decide (p = pos)) as [->|Hne].
    + right. exists t. rewrite owns_insert. by rewrite decide_True.
    + destruct (H11 p) as [?|[t' Ht']]; [fold r; lia|by left|right]. exists t'. rewrite owns_insert.
      destruct (decide _) as [<-|]; congruence.
Qed.

(** Where a producer or a consumer may be at work. *)
Lemma push_pos w t pos : ring_inv w → owns pushing (threads w) t = Some pos →
  rhead (w_ring w) <= pos < rtail (w_ring w) ∧ seq (cell_at (w_ring w) pos) = pos.
Proof.
  intros H Ho. unfold owns in Ho. destruct (threads w !! t) as [p|] eqn:E; [|done]. cbn in Ho.
  pose proof (i_thread _ H _ _ E) as Ht. destruct p; try done; injection Ho as ->; cbn in Ht; intuition.
Qed.
Lemma pop_pos w t pos : ring_inv w → owns popping (threads w) t = Some pos →
  0 <= pos < rhead (w_ring w) ∧ rtail (w_ring w) <= pos + len (rcell (w_ring w)) ∧ seq (cell_at (w_ring w) pos) = pos + 1.
Proof.
  intros H Ho. unfold owns in Ho. destruct (threads w !! t) as [p|] eqn:E; [|done]. cbn in Ho.
  pose proof (i_thread _ H _ _ E) as Ht. destruct p; try done; injection Ho as ->; cbn in Ht; intuition.
Qed.

(** The owner of a position changes the value in its cell. *)
Lemma inv_set_val w t p p' pos v : ring_inv w → threads w !! t = Some p →
  pushing p = Some pos ∧ p' = PushStore pos ∧ v = at_ (pushed w) pos ∨
  popping p = Some pos ∧ p' = PopStore pos (at_ (pushed w) pos) →
  pushing p' = pushing p → popping p' = popping p →
  ring_inv (mkWorld (set_val (w_ring w) pos v) (<[t := p']> (threads w)) (pushed w) (taken w)).
Proof.
  intros Hinv Ht Hp Ho1 Ho2. pose proof Hinv as [H1 H2 H3 H4 H5 H6 H7 H8 H9 H10 H11].
  pose proof (geometry_len _ H1) as Hn. set (r := w_ring w) in *.
  assert (len (rcell (set_val r pos v)) = len (rcell r)) as Hlen by apply set_cell_len.
  assert (∀ q, seq (cell_at (set_val r pos v) q) = seq (cell_at r q)) as Hseq by (intros; by apply set_val_seq).
  assert (∀ q, q ≠ pos → - len (rcell r) < q - pos < len (rcell r) → val (cell_at (set_val r pos v) q) = val (cell_at r q)) as Hval.
  { intros q Hne Hw. unfold set_val. by rewrite cell_at_set_ne. }
  assert (owns pushing (threads w) t = pushing p ∧ owns popping (threads w) t = popping p) as [Hown1 Hown2] by (unfold owns; by rewrite Ht).
  assert (∀ t', owns pushing (<[t := p']> (threads w)) t' = owns pushing (threads w) t') as E1 by (intros; apply owns_same; congruence).
  assert (∀ t', owns popping (<[t := p']> (threads w)) t' = owns popping (threads w) t') as E2 by (intros; apply owns_same; congruence).
  assert (∀ q, rhead r <= q < rhead r + len (rcell r) → seq (cell_at r q) = q + 1 → q < rtail r →
    val (cell_at (set_val r pos v) q) = val (cell_at r q)) as Hwin.
  { intros q Hq Hs Hqt. destruct Hp as [(Hp & -> & ->)|(Hp & ->)].
    - assert (owns pushing (threads w) t = Some pos) as Ho by congruence. apply push_pos in Ho as [? Hsp]; [|done]. fold r in H, Hsp.
      apply Hval; [intros ->; lia|lia].
    - assert (owns popping (threads w) t = Some pos) as Ho by congruence. apply pop_pos in Ho as (? & ? & _); [|done]. fold r in H, H0.
      apply Hval; lia. }
  assert (∀ t' q, t' ≠ t → owns pushing (threads w) t' = Some q ∨ owns popping (threads w) t' = Some q →
    val (cell_at (set_val r pos v) q) = val (cell_at r q)) as Hthr.
  { intros t' q Hne Hq. destruct Hp as [(Hp & _)|(Hp & _)].
    - assert (owns pushing (threads w) t = Some pos) as Ho by congruence. pose proof (push_pos _ _ _ Hinv Ho) as [? _]. fold r in H.
      destruct Hq as [Hq|Hq].
      + pose proof (push_pos _ _ _ Hinv Hq) as [? _]. fold r in H0. apply Hval; [|lia]. intros ->. by apply Hne, (H6 t' t pos).
      + pose proof (pop_pos _ _ _ Hinv Hq) as (? & ? & _). fold r in H0, H12. apply Hval; lia.
    - assert (owns popping (threads w) t = Some pos) as Ho by congruence. pose proof (pop_pos _ _ _ Hinv Ho) as (? & ? & _). fold r in H, H0.
      destruct Hq as [Hq|Hq].
      + pose proof (push_pos _ _ _ Hinv Hq) as [? _]. fold r in H12. apply Hval; lia.
      + pose proof (pop_pos _ _ _ Hinv Hq) as (? & ? & _). fold r in H12, H13. apply Hval; [|lia]. intros ->. by apply Hne, (H7 t' t pos). }
  split; cbn [w_ring threads pushed taken]; fold r; change (rhead (set_val r pos v)) with (rhead r); change (rtail (set_val r pos v)) with (rtail r); rewrite ?Hlen; try done.
  - by apply set_cell_geometry.
  - intros q Hq. rewrite Hseq. specialize (H4 q Hq). cbn in H4. destruct (Z.ltb_spec q (rtail r)).
    + destruct H4 as [[Hs Hv]|[? [t' ?]]]; [left|right].
      * split; [done|]. rewrite Hwin; done.
      * split; [done|]. exists t'. by rewrite E1.
    + destruct H4 as [?|[? [t' ?]]]; [by left|right]. split; [done|]. exists t'. by rewrite E2.
  - intros t' q' [[<- <-]|[Hne Hq']]%lookup_insert_Some.
    + pose proof (H5 _ _ Ht) as Hok. destruct Hp as [(Hp & -> & ->)|(Hp & ->)]; cbn [thread_ok].
      * assert (owns pushing (threads w) t = Some pos) as Ho by congruence. pose proof (push_pos _ _ _ Hinv Ho) as [? ?]. fold r in H, H0.
        rewrite Hseq. split; [done|]. split; [done|]. unfold set_val. rewrite cell_at_set_eq by done. done.
      * assert (owns popping (threads w) t = Some pos) as Ho by congruence. pose proof (pop_pos _ _ _ Hinv Ho) as (? & ? & ?). fold r in H, H0, H12.
        rewrite Hseq, Hlen. done.
    + specialize (H5 _ _ Hq'). destruct q'; cbn [thread_ok] in H5 |- *; rewrite ?Hseq, ?Hlen; try done;
        rewrite (Hthr t' pos0); try done; unfold owns; rewrite Hq'; cbn; auto.
  - intros t1 t2 q. rewrite !E1. apply H6.
  - intros t1 t2 q. rewrite !E2. apply H7.
  - intros t1 q. rewrite E2. apply H10.
  - intros q Hq. destruct (H11 q Hq) as [?|[t' ?]]; [by left|right; exists t'; by rewrite E2].
Qed.

(** A producer publishes its cell. *)
Lemma inv_push_store w t pos : ring_inv w → threads w !! t = Some (PushStore pos) →
  ring_inv (mkWorld (set_seq (w_ring w) pos (pos + 1)) (<[t := PushDone true]> (threads w)) (pushed w) (taken w)).
Proof.
  intros Hinv Ht. pose proof Hinv as [H1 H2 H3 H4 H5 H6 H7 H8 H9 H10 H11].
  pose proof (geometry_len _ H1) as Hn. pose proof (H5 _ _ Ht) as (Hpos & Hsq & Hv). set (r := w_ring w) in *.
  assert (owns pushing (threads w) t = Some pos ∧ owns popping (threads w) t = None) as [Hown1 Hown2] by (unfold owns; by rewrite Ht).
  assert (len (rcell (set_seq r pos (pos + 1))) = len (rcell r)) as Hlen by apply set_cell_len.
  assert (∀ q, q ≠ pos → - len (rcell r) < q - pos < len (rcell r) → cell_at (set_seq r pos (pos + 1)) q = cell_at r q) as Hne.
  { intros q ? ?. unfold set_seq. by rewrite cell_at_set_ne. }
  assert (cell_at (set_seq r pos (pos + 1)) pos = mkCell (pos + 1) (val (cell_at r pos))) as Heq by (unfold set_seq; by rewrite cell_at_set_eq).
  assert (∀ t', owns popping (<[t := PushDone true]> (threads w)) t' = owns popping (threads w) t') as E2 by (intros; by apply owns_same).
  assert (∀ t' q, owns pushing (<[t := PushDone true]> (threads w)) t' = Some q ↔ t' ≠ t ∧ owns pushing (threads w) t' = Some q) as E1.
  { intros t' q. rewrite owns_insert. destruct (decide (t = t')) as [<-|]; cbn; naive_solver. }
  split; cbn [w_ring threads pushed taken]; fold r; change (rhead (set_seq r pos (pos + 1))) with (rhead r);
    change (rtail (set_seq r pos (pos + 1))) with (rtail r); rewrite ?Hlen; try done.
  - by apply set_cell_geometry.
  - intros q Hq. destruct (decide (q = pos)) as [->|Hqne].
    + rewrite Heq. destruct (Z.ltb_spec pos (rtail r)); [|lia]. left. done.
    + rewrite Hne by lia. specialize (H4 q Hq). cbn in H4. destruct (Z.ltb_spec q (rtail r)).
      * destruct H4 as [?|[? [t' Ht']]]; [by left|right]. split; [done|]. exists t'. apply E1. split; [|done]. intros ->. congruence.
      * destruct H4 as [?|[? [t' ?]]]; [by left|right]. split; [done|]. exists t'. by rewrite E2.
  - intros t' p' [[<- <-]|[Hnet Hp']]%lookup_insert_Some; [done|]. specialize (H5 _ _ Hp').
    assert (∀ q, owns pushing (threads w) t' = Some q ∨ owns popping (threads w) t' = Some q →
      cell_at (set_seq r pos (pos + 1)) q = cell_at r q) as Hcell.
    { intros q [Hq|Hq].
      - pose proof (push_pos _ _ _ Hinv Hq) as [? _]. fold r in H. apply Hne; [|lia]. intros ->. by apply Hnet, (H6 t t' pos).
      - pose proof (pop_pos _ _ _ Hinv Hq) as (? & ? & _). fold r in H, H0. apply Hne; lia. }
    destruct p'; cbn [thread_ok] in H5 |- *; try done; rewrite ?Hlen;
      try (rewrite Hcell by (unfold owns; rewrite Hp'; cbn; auto); done).
    + destruct H5. split; [done|]. apply set_seq_mono; [done|lia|done].
    + destruct H5. split; [done|]. apply set_seq_mono; [done|lia|done].
  - intros t1 t2 q [_ ?]%E1 [_ ?]%E1. by eapply H6.
  - intros t1 t2 q. rewrite !E2. apply H7.
  - intros t1 q. rewrite E2. apply H10.
  - intros q Hq. destruct (H11 q Hq) as [?|[t' ?]]; [by left|right; exists t'; by rewrite E2].
Qed.

(** A consumer releases its cell. *)
Lemma inv_pop_store w t pos v : ring_inv w → threads w !! t = Some (PopStore pos v) →
  ring_inv (mkWorld (set_seq (w_ring w) pos (pos + rmask (w_ring w) + 1)) (<[t := PopDone (Some v)]> (threads w)) (pushed w)
    (taken w ++ [(pos, v)])).
Proof.
  intros Hinv Ht. pose proof Hinv as [H1 H2 H3 H4 H5 H6 H7 H8 H9 H10 H11].
  pose proof (geometry_len _ H1) as Hn. pose proof (H5 _ _ Ht) as ((Hpos & Hroom & Hsq) & Hv). set (r := w_ring w) in *.
  replace (pos + rmask r + 1) with (pos + len (rcell r)) by (pose proof (geometry_mask r H1); lia).
  set (n := len (rcell r)) in *. set (r' := set_seq r pos (pos + n)).
  assert (owns popping (threads w) t = Some pos ∧ owns pushing (threads w) t = None) as [Hown1 Hown2] by (unfold owns; by rewrite Ht).
  assert (len (rcell r') = n) as Hlen by apply set_cell_len.
  assert (∀ q, q ≠ pos → - n < q - pos < n → cell_at r' q = cell_at r q) as Hne.
  { intros q ? ?. unfold r', set_seq. by rewrite cell_at_set_ne. }
  assert (cell_at r' (pos + n) = mkCell (pos + n) (val (cell_at r pos))) as Heq.
  { unfold r', set_seq. rewrite cell_at_set by done. rewrite decide_True; [done|].
    replace (pos + n) with (pos + 1 * n) by lia. apply Z.mod_add. lia. }
  assert (∀ q, q ≠ pos + n → - n < q - (pos + n) < n → cell_at r' q = cell_at r q) as Hne'.
  { intros q Hq Hw. unfold r', set_seq. rewrite cell_at_set by done. destruct (decide _) as [E|]; [|done].
    exfalso. apply Hq, (mod_window n); [lia| |done]. fold n in E. rewrite E. symmetry.
    replace (pos + n) with (pos + 1 * n) by lia. apply Z.mod_add. lia. }
  assert (∀ t', owns pushing (<[t := PopDone (Some v)]> (threads w)) t' = owns pushing (threads w) t') as E1 by (intros; by apply owns_same).
  assert (∀ t' q, owns popping (<[t := PopDone (Some v)]> (threads w)) t' = Some q ↔ t' ≠ t ∧ owns popping (threads w) t' = Some q) as E2.
  { intros t' q. rewrite owns_insert. destruct (decide (t = t')) as [<-|]; cbn; naive_solver. }
  split; cbn [w_ring threads pushed taken]; fold r r'; change (rhead r') with (rhead r); change (rtail r') with (rtail r);
    rewrite ?Hlen; try done.
  - by apply set_cell_geometry.
  - intros q Hq. destruct (decide (q = pos + n)) as [->|Hqne].
    + rewrite Heq. destruct (Z.ltb_spec (pos + n) (rtail r)); [lia|]. left. done.
    + rewrite Hne' by lia. specialize (H4 q Hq). cbn in H4. destruct (Z.ltb_spec q (rtail r)).
      * destruct H4 as [?|[? [t' ?]]]; [by left|right]. split; [done|]. exists t'. by rewrite E1.
      * destruct H4 as [?|[? [t' Ht']]]; [by left|right]. split; [done|]. exists t'. apply E2. split; [|done].
        intros ->. rewrite Hown1 in Ht'. injection Ht' as Ht'. lia.
  - intros t' p' [[<- <-]|[Hnet Hp']]%lookup_insert_Some; [done|]. specialize (H5 _ _ Hp').
    assert (∀ q, owns pushing (threads w) t' = Some q ∨ owns popping (threads w) t' = Some q → cell_at r' q = cell_at r q) as Hcell.
    { intros q [Hq|Hq].
      - pose proof (push_pos _ _ _ Hinv Hq) as [? _]. fold r in H. apply Hne; lia.
      - pose proof (pop_pos _ _ _ Hinv Hq) as (? & ? & _). fold r n in H, H0. apply Hne; [|lia]. intros ->. by apply Hnet, (H7 t t' pos). }
    destruct p'; cbn [thread_ok] in H5 |- *; try done; rewrite ?Hlen;
      try (rewrite Hcell by (unfold owns; rewrite Hp'; cbn; auto); done).
    + destruct H5. split; [done|]. apply set_seq_mono; [done|lia|done].
    + destruct H5. split; [done|]. apply set_seq_mono; [done|lia|done].
  - intros t1 t2 q. rewrite !E1. apply H6.
  - intros t1 t2 q [_ ?]%E2 [_ ?]%E2. by eapply H7.
  - intros q v' [Hin|Hin%list_elem_of_singleton]%elem_of_app; [by apply H8|]. injection Hin as -> ->. done.
  - rewrite fmap_app. apply NoDup_app. split; [done|]. split; [|apply NoDup_singleton].
    intros q Hq ->%list_elem_of_singleton. by apply (H10 t pos).
  - intros t1 q [Hnet Hq]%E2. rewrite fmap_app, not_elem_of_app. split; [by eapply H10|].
    intros ->%list_elem_of_singleton. by apply Hnet, (H7 t1 t pos).
  - intros q Hq. rewrite fmap_app, elem_of_app. destruct (H11 q Hq) as [?|[t' Ht']]; [by left; left|].
    destruct (decide (t' = t)) as [->|Hnet].
    + left. right. rewrite Hown1 in Ht'. injection Ht' as ->. by apply list_elem_of_singleton.
    + right. exists t'. by apply E2.
Qed.

(** ** Every step *)

Lemma step_inv w w' : ring_inv w → step w w' → ring_inv w'.
Proof.
  intros Hinv Hst. revert Hinv. destruct Hst as [w t p Hidle Hp|w t p r' p' Ht Hs]; intros Hinv.
  - assert (thread_ok (w_ring w) (pushed w) p ∧ pushing p = None ∧ popping p = None) as (H1 & H2 & H3) by (by destruct Hp as [[v ->]| ->]).
    apply inv_same; [done|done| |]; unfold owns; rewrite ?H2, ?H3; destruct (threads w !! t) as [q|]; try done; by destruct q.
  - assert (owns pushing (threads w) t = pushing p ∧ owns popping (threads w) t = popping p) as [Ho1 Ho2] by (unfold owns; by rewrite Ht).
    pose proof (i_thread _ Hinv _ _ Ht) as Hok. pose proof (i_bounds _ Hinv) as Hb.
    destruct p; cbn in Hs; try (injection Hs as <- <-).
    + apply inv_same; try done. cbn. lia.
    + destruct (Z.eqb_spec (seq (cell_at (w_ring w) pos)) pos); [|destruct (_ <? _)]; apply inv_same; try done. cbn in *. lia.
    + destruct (Z.eqb_spec (rtail (w_ring w)) pos); injection Hs as <- <-; [by apply inv_push_claim|by apply inv_same].
    + apply (inv_set_val w t (PushVal v pos)); try done. left. cbn in Hok. repeat split. symmetry. apply Hok.
    + by apply inv_push_store.
    + destruct w. by apply inv_same.
    + cbn in Hok. apply inv_same; try done. cbn. lia.
    + destruct (Z.eqb_spec (seq (cell_at (w_ring w) pos)) (pos + 1)); [|destruct (_ <? _)]; apply inv_same; try done. cbn in *. lia.
    + destruct (Z.eqb_spec (rhead (w_ring w)) pos); injection Hs as <- <-; [by apply inv_pop_claim|by apply inv_same].
    + apply inv_same; try done.
    + cbn in Hok. destruct Hok as [_ ->]. apply (inv_set_val w t (PopZero pos (at_ (pushed w) pos))); try done. by right.
    + by apply inv_pop_store.
    + by apply inv_same.
Qed.

Lemma ring_size_spec fuel n capacity k : 1 <= k → n = 2 ^ k → capacity <= n * 2 ^ Z.of_nat fuel →
  ∃ k', 1 <= k' ∧ ring_size fuel n capacity = 2 ^ k' ∧ capacity <= 2 ^ k'.
Proof.
  revert n k; induction fuel as [|fuel IH]; intros n k Hk Hn Hc; cbn [ring_size].
  - exists k. repeat split; [done..|]. cbn in Hc. lia.
  - destruct (Z.ltb_spec n capacity); [|exists k; repeat split; (done || lia)].
    apply (IH _ (k + 1)); [lia| |].
    + rewrite Z.shiftl_mul_pow2, Z.pow_add_r, Hn by lia. done.
    + rewrite Z.shiftl_mul_pow2 by lia. rewrite Nat2Z.inj_succ, Z.pow_succ_r in Hc by lia. lia.
Qed.

Lemma newRing_spec capacity : capacity < 2 ^ 63 →
  geometry (newRing capacity) ∧ capacity <= len (rcell (newRing capacity)) ∧
  ∀ q, 0 <= q < len (rcell (newRing capacity)) → cell_at (newRing capacity) q = mkCell q None.
Proof.
  intros Hc. destruct (ring_size_spec 64 2 capacity 1) as (k & Hk & E & Hcap); [lia|done|cbn; lia|].
  assert (0 < 2 ^ k) by (apply Z.pow_pos_nonneg; lia).
  assert (len (rcell (newRing capacity)) = 2 ^ k) as Hl.
  { unfold newRing, len. cbn [rcell]. rewrite E, length_fmap, length_seq. lia. }
  assert (geometry (newRing capacity)) as Hg.
  { exists k. split; [done|]. split; [done|]. unfold newRing. cbn [rmask]. by rewrite E. }
  split; [done|]. split; [lia|]. intros q Hq. unfold cell_at. rewrite cell_index_mod by done.
  rewrite Hl in *. rewrite Z.mod_small by done. unfold newRing. cbn [rcell]. rewrite E, list_lookup_fmap, lookup_seq_lt by lia.
  cbn. f_equal. lia.
Qed.

Lemma start_inv capacity : capacity < 2 ^ 63 → ring_inv (start capacity).
Proof.
  intros Hc. destruct (newRing_spec capacity Hc) as (Hg & _ & Hcell). pose proof (geometry_len _ Hg).
  split; cbn [start w_ring threads pushed taken]; try done; change (rhead (newRing capacity)) with 0; change (rtail (newRing capacity)) with 0.
  - lia.
  - intros q Hq. cbn zeta. rewrite Hcell by lia. destruct (Z.ltb_spec q 0); [lia|]. by left.
  - intros pos v H0. by apply not_elem_of_nil in H0.
  - apply NoDup_nil_2.
  - lia.
Qed.

Lemma step_mask w w' : step w w' → rmask (w_ring w') = rmask (w_ring w).
Proof.
  intros Hst. destruct Hst as [w t p Hidle Hp|w t p r' p' Ht Hs]; [done|]. cbn [w_ring].
  destruct p; cbn in Hs; repeat case_match; by injection Hs as <- _.
Qed.

(** ** One operation at a time *)

(** A ring nobody is using, and what is queued in it. *)
Definition holds r (l : list T) : Prop :=
  geometry r ∧ 0 <= rhead r ∧ rtail r = rhead r + len l ∧ len l <= len (rcell r) ∧
  ∀ q, rhead r <= q < rhead r + len (rcell r) →
    if q <? rtail r then cell_at r q = mkCell (q + 1) (l !! Z.to_nat (q - rhead r)) else seq (cell_at r q) = q.

Lemma holds_new capacity : capacity < 2 ^ 63 → holds (newRing capacity) [].
Proof.
  intros Hc. destruct (newRing_spec capacity Hc) as (Hg & _ & Hcell). pose proof (geometry_len _ Hg).
  change (rhead (newRing capacity)) with 0 in *. unfold holds.
  change (rhead (newRing capacity)) with 0. change (rtail (newRing capacity)) with 0.
  repeat split; try done; [rewrite len_nil; lia|]. intros q Hq. rewrite Hcell by lia. by destruct (Z.ltb_spec q 0); [lia|].
Qed.

Lemma TryPush_spec r l v : holds r l →
  if len l =? len (rcell r) then TryPush r v = (r, false)
  else ∃ r', TryPush r v = (r', true) ∧ holds r' (l ++ [v]) ∧ len (rcell r') = len (rcell r).
Proof.
  intros (Hg & Hh & Ht & Hl & Hc). pose proof (geometry_len _ Hg) as Hn. pose proof (len_nonneg l). unfold TryPush. cbn [run_alone step_pc].
  destruct (Z.eqb_spec (len l) (len (rcell r))) as [Hfull|Hroom].
  - specialize (Hc (rhead r) ltac:(lia)). destruct (Z.ltb_spec (rhead r) (rtail r)); [|lia].
    rewrite (cell_at_same r (rtail r) (rhead r)), Hc by
      (done || (replace (rtail r) with (rhead r + 1 * len (rcell r)) by lia; apply Z.mod_add; lia)). cbn [seq].
    destruct (Z.eqb_spec (rhead r + 1) (rtail r)); [lia|]. destruct (Z.ltb_spec (rhead r + 1) (rtail r)); [|lia]. done.
  - pose proof (Hc (rtail r)) as Hct. destruct (Z.ltb_spec (rtail r) (rtail r)); [lia|]. rewrite Hct by lia. rewrite Z.eqb_refl.
    cbn [run_alone step_pc rtail rhead]. rewrite Z.eqb_refl. cbn [run_alone step_pc rtail rhead].
    eexists. split; [reflexivity|]. set (r1 := mkRing (rmask r) (rhead r) (rtail r + 1) (rcell r)).
    assert (geometry r1) as Hg1 by done. assert (geometry (set_val r1 (rtail r) (Some v))) as Hg2 by (by apply set_cell_geometry).
    set (r3 := set_seq _ _ _). assert (len (rcell r3) = len (rcell r)) as Hlen by (unfold r3, set_seq, set_val; by rewrite !set_cell_len).
    split; [|done]. change (cell_at r) with (cell_at r1) in Hc.
    assert (cell_at r3 (rtail r) = mkCell (rtail r + 1) (Some v)) as Hnew.
    { unfold r3, set_seq. rewrite cell_at_set_eq by done. f_equal. unfold set_val. rewrite cell_at_set_eq by done. done. }
    assert (∀ q, rhead r <= q < rhead r + len (rcell r) → q ≠ rtail r → cell_at r3 q = cell_at r1 q) as Hold.
    { intros q Hq Hne. unfold r3, set_seq. rewrite cell_at_set_ne; [|done|done|].
      - unfold set_val. rewrite cell_at_set_ne; [done|done|done|]. change (rcell r1) with (rcell r). lia.
      - unfold set_val. rewrite set_cell_len. change (rcell r1) with (rcell r). lia. }
    split; [by apply set_cell_geometry|]. change (rhead r3) with (rhead r). change (rtail r3) with (rtail r + 1). rewrite Hlen.
    assert (len (l ++ [v]) = len l + 1) as -> by (rewrite len_app; done).
    split; [done|]. split; [lia|]. split; [lia|]. intros q Hq.
    destruct (decide (q = rtail r)) as [->|Hne].
    + destruct (Z.ltb_spec (rtail r) (rtail r + 1)); [|lia]. rewrite Hnew. f_equal. symmetry.
      replace (Z.to_nat (rtail r - rhead r)) with (length l) by (unfold len in Ht; lia). by apply list_lookup_middle.
    + rewrite Hold by done. specialize (Hc q Hq). destruct (Z.ltb_spec q (rtail r)), (Z.ltb_spec q (rtail r + 1)); try lia.
      rewrite Hc, lookup_app_l; [done|]. unfold len in Ht. lia.
Qed.

Lemma TryPop_spec r l : holds r l →
  match l with
  | [] => TryPop r = (r, None)
  | x :: l' => ∃ r', TryPop r = (r', Some x) ∧ holds r' l' ∧ len (rcell r') = len (rcell r)
  end.
Proof.
  intros (Hg & Hh & Ht & Hl & Hc). pose proof (geometry_len _ Hg) as Hn. unfold TryPop. cbn [run_alone step_pc].
  pose proof (Hc (rhead r) ltac:(lia)) as Hct. destruct l as [|x l].
  - rewrite len_nil in Ht. destruct (Z.ltb_spec (rhead r) (rtail r)); [lia|]. rewrite Hct.
    destruct (Z.eqb_spec (rhead r) (rhead r + 1)); [lia|]. destruct (Z.ltb_spec (rhead r) (rhead r + 1)); [|lia]. done.
  - rewrite len_cons in *. pose proof (len_nonneg l). destruct (Z.ltb_spec (rhead r) (rtail r)); [|lia]. rewrite Hct. cbn [seq].
    rewrite Z.eqb_refl. cbn [run_alone step_pc rtail rhead]. rewrite Z.eqb_refl. cbn [run_alone step_pc rtail rhead rmask].
    set (r1 := mkRing (rmask r) (rhead r + 1) (rtail r) (rcell r)). change (cell_at r1 (rhead r)) with (cell_at r (rhead r)).
    rewrite Hct. cbn [val]. rewrite Z.sub_diag. cbn [lookup list_lookup Z.to_nat].
    eexists. split; [reflexivity|]. assert (geometry r1) as Hg1 by done.
    assert (geometry (set_val r1 (rhead r) None)) as Hg2 by (by apply set_cell_geometry).
    change (rmask (set_val r1 (rhead r) None)) with (rmask r).
    replace (rhead r + rmask r + 1) with (rhead r + len (rcell r)) by (pose proof (geometry_mask r Hg); lia).
    set (r3 := set_seq _ _ _). assert (len (rcell r3) = len (rcell r)) as Hlen by (unfold r3, set_seq, set_val; by rewrite !set_cell_len).
    split; [|done].
    assert (seq (cell_at r3 (rhead r + len (rcell r))) = rhead r + len (rcell r)) as Hnew.
    { rewrite (cell_at_same r3 (rhead r + len (rcell r)) (rhead r)).
      - unfold r3, set_seq. by rewrite cell_at_set_eq.
      - by apply set_cell_geometry.
      - rewrite Hlen. replace (rhead r + len (rcell r)) with (rhead r + 1 * len (rcell r)) by lia. apply Z.mod_add. lia. }
    assert (∀ q, rhead r < q < rhead r + len (rcell r) → cell_at r3 q = cell_at r q) as Hold.
    { intros q Hq. unfold r3, set_seq. rewrite cell_at_set_ne; [|done|lia|].
      - unfold set_val. rewrite cell_at_set_ne; [done|done|lia|]. change (rcell r1) with (rcell r). lia.
      - unfold set_val. rewrite set_cell_len. change (rcell r1) with (rcell r). lia. }
    split; [by apply set_cell_geometry|]. change (rhead r3) with (rhead r + 1). change (rtail r3) with (rtail r). rewrite Hlen.
    split; [lia|]. split; [lia|]. split; [lia|]. intros q Hq. destruct (decide (q = rhead r + len (rcell r))) as [->|Hne].
    + destruct (Z.ltb_spec (rhead r + len (rcell r)) (rtail r)); [lia|done].
    + rewrite Hold by lia. specialize (Hc q ltac:(lia)). destruct (q <? rtail r); [|done]. rewrite Hc. f_equal.
      replace (Z.to_nat (q - rhead r)) with (S (Z.to_nat (q - (rhead r + 1)))) by lia. done.
Qed.
End Ring.

(** ** The operations in sequence *)

Inductive queue_op (T : Type) := OpPush (v : T) | OpPop.
Arguments OpPush {T} _.
Arguments OpPop {T}.

(** What an operation answers: accepted or not, and the item taken. *)
Fixpoint run_ring {T} (r : ring T) (ops : list (queue_op T)) : list (bool + option T) :=
  match ops with
  | [] => []
  | OpPush v :: ops => let (r', ok) := TryPush r v in inl ok :: run_ring r' ops
  | OpPop :: ops => let (r', v) := TryPop r in inr v :: run_ring r' ops
  end.

(** The queue it stands for: first in, first out, [size] items at most. *)
Fixpoint run_queue {T} (size : Z) (l : list T) (ops : list (queue_op T)) : list (bool + option T) :=
  match ops with
  | [] => []
  | OpPush v :: ops =>
      if len l =? size then inl false :: run_queue size l ops else inl true :: run_queue size (l ++ [v]) ops
  | OpPop :: ops => inr (head l) :: run_queue size (tail l) ops
  end.

Lemma run_ring_queue {T} (ops : list (queue_op T)) r l : holds r l → run_ring r ops = run_queue (len (rcell r)) l ops.
Proof.
  revert r l; induction ops as [|[v|] ops IH]; intros r l Hr; cbn [run_ring run_queue]; [done| |].
  - pose proof (TryPush_spec r l v Hr) as Hs. destruct (len l =? len (rcell r)).
    + rewrite Hs. f_equal. by apply IH.
    + destruct Hs as (r' & -> & Hr' & <-). f_equal. by apply IH.
  - pose proof (TryPop_spec r l Hr) as Hs. destruct l as [|x l].
    + rewrite Hs. f_equal. by apply IH.
    + destruct Hs as (r' & -> & Hr' & <-). f_equal. by apply IH.
Qed.

Lemma steps_mask {T} (w w' : world (T := T)) : rtc step w w' → rmask (w_ring w') = rmask (w_ring w).
Proof. induction 1 as [|a b c Hs _ IH]; [done|]. rewrite IH. by apply step_mask. Qed.

(** * Properties *)

(** C17: Whatever the number of threads and the interleaving of their atomic
    actions, the queue never holds more than its capacity; each position is
    claimed by one producer and taken at most once, by one consumer, who gets
    exactly the value its producer put there; positions are taken in the order
    they were claimed, and nothing is lost: a position before the head is taken
    or in one consumer's hands, and one from the head to the tail has its value
    in its cell or is in one producer's hands. *)
Theorem ring_concurrent {T} capacity (w : world (T := T)) :
  capacity < 2 ^ 63 → rtc step (start capacity) w →
  let r := w_ring w in
  capacity <= ring_Cap r ∧ ring_Len (rhead r) (rtail r) <= ring_Cap r ∧ len (pushed w) = rtail r ∧
  NoDup (fst <$> taken w) ∧
  (∀ pos v, (pos, v) ∈ taken w → 0 <= pos < rhead r ∧ ∃ x, v = Some x ∧ at_ (pushed w) pos = Some x) ∧
  (∀ pos, 0 <= pos < rhead r →
     pos ∈ fst <$> taken w ∨ ∃ t, owns popping (threads w) t = Some pos ∧ ∀ t', owns popping (threads w) t' = Some pos → t' = t) ∧
  (∀ pos, rhead r <= pos < rtail r →
     cell_at r pos = mkCell (pos + 1) (at_ (pushed w) pos) ∨
     ∃ t, owns pushing (threads w) t = Some pos ∧ ∀ t', owns pushing (threads w) t' = Some pos → t' = t).
Proof.
  intros Hc Hs r. assert (ring_inv w) as Hinv by (eapply rtc_invariant; [apply step_inv|done|by apply start_inv]).
  destruct Hinv as [H1 H2 H3 H4 H5 H6 H7 H8 H9 H10 H11]. fold r in H1, H2, H3, H4, H8, H11.
  repeat split.
  - destruct (newRing_spec (T := T) capacity Hc) as (Hg & Hcap & _). apply geometry_mask in Hg, H1. apply steps_mask in Hs.
    cbn [start w_ring] in Hs. fold r in Hs. unfold ring_Cap. lia.
  - unfold ring_Len, ring_Cap. destruct (rtail r <? rhead r); lia.
  - done.
  - done.
  - by apply (H8 pos v).
  - by apply (H8 pos v).
  - destruct (H8 pos v) as [Hp ->]; [done|]. destruct (lookup_lt_is_Some_2 (pushed w) (Z.to_nat pos)) as [x Hx].
    { unfold len in H3. lia. }
    by exists x.
  - intros pos Hpos. destruct (H11 pos Hpos) as [?|[t Ht]]; [by left|right]. exists t. split; [done|]. intros t' Ht'. by eapply H7.
  - intros pos Hpos. specialize (H4 pos ltac:(lia)). cbn in H4. destruct (Z.ltb_spec pos (rtail r)); [|lia].
    destruct H4 as [[Hsq Hv]|[_ [t Ht]]]; [left|right].
    + destruct (cell_at r pos). cbn in *. by subst.
    + exists t. split; [done|]. intros t' Ht'. by eapply H6.
Qed.

Lemma ring_concurrent_witness : ∃ w : world (T := Z), rtc step (start 1) w ∧ ring_Len (rhead (w_ring w)) (rtail (w_ring w)) <= ring_Cap (w_ring w).
Proof.
  eexists. assert (H : rtc step (start 1)
    (mkWorld (start (T := Z) 1).(w_ring) (<[1%nat := PushSeq 7 0]> (<[1%nat := PushLoad 7]> ∅)) [] [])).
  { eapply rtc_l; [apply (StepCall _ 1%nat (PushLoad 7)); [done|left; by exists 7]|].
    eapply rtc_l; [eapply (StepAct _ 1%nat); [apply lookup_insert_eq|reflexivity]|]. apply rtc_refl. }
  split; [exact H|]. apply (ring_concurrent 1 _ ltac:(lia) H).
Defined.

(** One operation at a time, the ring made for a capacity is a
    first-in-first-out queue of the next power of two: it answers every
    sequence of pushes and pops as that queue does. *)
Theorem ring_is_queue {T} capacity (ops : list (queue_op T)) : capacity < 2 ^ 63 →
  run_ring (newRing capacity) ops = run_queue (ring_Cap (newRing (T := T) capacity)) [] ops ∧
  capacity <= ring_Cap (newRing (T := T) capacity).
Proof.
  intros Hc. split; [apply run_ring_queue; by apply holds_new|]. by destruct (newRing_spec (T := T) capacity Hc) as (_ & ? & _).
Qed.

Lemma ring_is_queue_witness :
  run_ring (newRing 1) [OpPush 1; OpPush 2; OpPush 3; OpPop; OpPush 4; OpPop; OpPop; OpPop]
  = [inl true; inl true; inl false; inr (Some 1); inl true; inr (Some 2); inr (Some 4); inr None].
Proof.
  destruct (ring_is_queue 1 [OpPush 1; OpPush 2; OpPush 3; OpPop; OpPush 4; OpPop; OpPop; OpPop]) as [-> _]; [lia|].
  vm_compute. reflexivity.
Defined.
