(* ===== verification/Tables.v ===== *)
(** Tables: the lock-free registries of [lockfree.go]: the table of open
    connections under any interleaving, the counted map, the counters per
    source and the counters per host name. *)

From S2P Require Import Prelude.

(** * The table of open connections

    A slot is addressed by its place in the directory: segments never move,
    and every version of the directory extends the one before, so the place
    names the same slot in all of them and a version is its length. *)

Definition connSegmentSize : Z := 1024.

Module ConnTable.
Section ConnTable.
Context {C : Type} (ID : C → Z).

Record connTable := mkTable { dir : Z; slots : gmap Z C; count : Z }.

(** Where a connection's goroutine is: its next atomic action in [add], in
    [grow] or in [remove]; [AddDone] holds the slot, [RemDone] is over. *)
Inductive pc :=
| AddSegs (c : C)                         (* t.segments() *)
| AddCount (c : C) (n : Z)                (* t.count.Load() *)
| GrowLoad (c : C) (have : Z)             (* old := t.dir.Load() *)
| GrowCAS (c : C) (have old : Z)          (* t.dir.CompareAndSwap(old, &next) *)
| AddLoad (c : C) (segs i : Z)            (* slot.Load() *)
| AddCAS (c : C) (segs i : Z)             (* slot.CompareAndSwap(nil, c) *)
| AddInc (c : C) (slot : Z)               (* t.count.Add(1) *)
| AddDone (c : C) (slot : Z)
| RemStore (c : C) (slot : Z)             (* slot.Store(nil) *)
| RemDec                                  (* t.count.Add(-1) *)
| RemDone.

Definition slot_of (c : C) (segs i : Z) : Z :=
  let n := segs * connSegmentSize in (ID c mod n + i) mod n.

(** The next slot of the scan, or room is made. *)
Definition next_slot (c : C) (segs i : Z) : pc :=
  if i + 1 <? segs * connSegmentSize then AddLoad c segs (i + 1) else GrowLoad c segs.

Definition step_pc (t : connTable) (p : pc) : connTable * pc :=
  match p with
  | AddSegs c => (t, if dir t =? 0 then GrowLoad c 0 else AddCount c (dir t))
  | AddCount c segs =>
      (t, if segs * connSegmentSize / 2 <? count t + 1 then GrowLoad c segs else AddLoad c segs 0)
  | GrowLoad c have => (t, if have <? dir t then AddSegs c else GrowCAS c have (dir t))
  | GrowCAS c have old =>
      if dir t =? old then (mkTable (old + 1) (slots t) (count t), AddSegs c) else (t, GrowLoad c have)
  | AddLoad c segs i =>
      (t, match slots t !! slot_of c segs i with None => AddCAS c segs i | Some _ => next_slot c segs i end)
  | AddCAS c segs i =>
      match slots t !! slot_of c segs i with
      | None => (mkTable (dir t) (<[slot_of c segs i := c]> (slots t)) (count t), AddInc c (slot_of c segs i))
      | Some _ => (t, next_slot c segs i)
      end
  | AddInc c j => (mkTable (dir t) (slots t) (count t + 1), AddDone c j)
  | RemStore c j => (mkTable (dir t) (delete j (slots t)) (count t), RemDec)
  | RemDec => (mkTable (dir t) (slots t) (count t - 1), RemDone)
  | AddDone _ _ | RemDone => (t, p)
  end.

(** [Range] over a table nobody changes: the slots in order; [Load] is the
    first connection with the identifier. *)
Definition listed (t : connTable) : list C :=
  omap (fun j => slots t !! Z.of_nat j) (seq 0 (Z.to_nat (dir t * connSegmentSize))).
Definition Load (t : connTable) (id : Z) : option C := find (fun c => ID c =? id) (listed t).
Definition Len (t : connTable) : Z := count t.

(** ** Many connections at once *)

Record world := mkWorld { table : connTable; conns : gmap nat pc }.

Inductive step : relation world :=
| StepAdd w t c : conns w !! t = None → step w (mkWorld (table w) (<[t := AddSegs c]> (conns w)))
| StepRemove w t c j : conns w !! t = Some (AddDone c j) → step w (mkWorld (table w) (<[t := RemStore c j]> (conns w)))
| StepAct w t p tb p' : conns w !! t = Some p → step_pc (table w) p = (tb, p') →
    step w (mkWorld tb (<[t := p']> (conns w))).

Definition start : world := mkWorld (mkTable 0 ∅ 0) ∅.

(** The slot a connection is in, and whether it is in the count. *)
Definition place (p : pc) : option (Z * C) :=
  match p with AddInc c j | AddDone c j | RemStore c j => Some (j, c) | _ => None end.
Definition counted (p : pc) : bool :=
  match p with AddDone _ _ | RemStore _ _ | RemDec => true | _ => false end.
Definition at_rest (p : pc) : bool := match p with AddDone _ _ | RemDone => true | _ => false end.

Definition placed (p : pc) : bool := match place p with Some _ => true | None => false end.
Definition n_of (f : pc → bool) (th : gmap nat pc) : nat := size (filter (fun p : nat * pc => f p.2 = true) th).

(** What a scan relies on: the directory it saw is no longer than today's. *)
Definition scan_ok (t : connTable) (p : pc) : Prop :=
  match p with
  | AddCount _ segs | AddLoad _ segs _ | AddCAS _ segs _ => 0 < segs <= dir t
  | GrowLoad _ have | GrowCAS _ have _ => 0 <= have <= dir t
  | _ => True
  end.

Record table_inv (w : world) : Prop := {
  t_dir : 0 <= dir (table w);
  t_scan t p : conns w !! t = Some p → scan_ok (table w) p;
  t_slot t p j c : conns w !! t = Some p → place p = Some (j, c) → slots (table w) !! j = Some c;
  t_room j c : slots (table w) !! j = Some c → 0 <= j < dir (table w) * connSegmentSize;
  t_owner j c : slots (table w) !! j = Some c → ∃ t p, conns w !! t = Some p ∧ place p = Some (j, c);
  t_uniq t t' p p' j c c' : conns w !! t = Some p → place p = Some (j, c) →
    conns w !! t' = Some p' → place p' = Some (j, c') → t = t';
  t_count : count (table w) = Z.of_nat (n_of counted (conns w));
  t_size : size (slots (table w)) = n_of placed (conns w);
}.

Lemma n_of_insert f th t p : n_of f (<[t := p]> th) = (n_of f (delete t th) + if f p then 1 else 0)%nat.
Proof.
  unfold n_of. rewrite <- insert_delete_eq. destruct (f p) eqn:E.
  - rewrite map_filter_insert_True by done. rewrite map_size_insert_None; [lia|].
    apply map_lookup_filter_None. left. apply lookup_delete_eq.
  - rewrite map_filter_insert_False by (cbn; by rewrite E). rewrite delete_delete_eq. lia.
Qed.

Lemma n_of_lookup f th t :
  n_of f th = (n_of f (delete t th) + if from_option f false (th !! t) then 1 else 0)%nat.
Proof.
  destruct (th !! t) as [p|] eqn:Ht; cbn [from_option].
  - rewrite <- n_of_insert, insert_id; done.
  - rewrite delete_id by done. lia.
Qed.

Lemma slot_of_range c segs i : 0 < segs → 0 <= slot_of c segs i < segs * connSegmentSize.
Proof. intros. apply Z.mod_pos_bound. unfold connSegmentSize. lia. Qed.

(** An action that leaves the slots alone, and the directory too or longer. *)
Lemma table_inv_same w t p tb : table_inv w → slots tb = slots (table w) → dir (table w) <= dir tb → scan_ok tb p →
  (conns w !! t ≫= place) = place p →
  count tb = count (table w) + (if counted p then 1 else 0) - (if from_option counted false (conns w !! t) then 1 else 0) →
  table_inv (mkWorld tb (<[t := p]> (conns w))).
Proof.
  intros [H1 H2 H3 H4 H5 H6 H7 H8] Hs Hd Hp Hpl Hc.
  assert (∀ t' p' j c, <[t := p]> (conns w) !! t' = Some p' → place p' = Some (j, c) →
    ∃ p0, conns w !! t' = Some p0 ∧ place p0 = Some (j, c)) as Hback.
  { intros t' p' j c [[<- <-]|[Hne Hp']]%lookup_insert_Some Hj; [|by exists p'].
    rewrite <- Hpl in Hj. destruct (conns w !! t) as [p0|]; [by exists p0|done]. }
  split; cbn [table conns]; rewrite ?Hs.
  - lia.
  - intros t' p' [[<- <-]|[Hne Hp']]%lookup_insert_Some; [done|]. specialize (H2 _ _ Hp').
    destruct p'; cbn in *; lia.
  - intros t' p' j c Hp' Hj. destruct (Hback _ _ _ _ Hp' Hj) as (p0 & ? & ?). by eapply H3.
  - intros j c Hj%H4. unfold connSegmentSize in *. lia.
  - intros j c (t' & p' & Hp' & Hj)%H5. destruct (decide (t' = t)) as [->|Hne].
    + exists t, p. rewrite lookup_insert_eq. split; [done|]. rewrite <- Hpl, Hp'. done.
    + exists t', p'. by rewrite lookup_insert_ne.
  - intros t1 t2 p1 p2 j c c' Ht1 Hj1 Ht2 Hj2.
    destruct (Hback _ _ _ _ Ht1 Hj1) as (q1 & ? & ?), (Hback _ _ _ _ Ht2 Hj2) as (q2 & ? & ?).
    by eapply (H6 t1 t2 q1 q2 j c c').
  - rewrite Hc, H7, n_of_insert, (n_of_lookup _ _ t). destruct (counted p), (from_option counted false _); lia.
  - rewrite H8, n_of_insert, (n_of_lookup _ _ t). unfold placed at 4. rewrite <- Hpl. destruct (conns w !! t) as [p0|]; [|done].
    cbn. unfold placed. by destruct (place p0).
Qed.

(** A connection takes the free slot [j]. *)
Lemma inv_claim w t c j p0 : table_inv w → conns w !! t = Some p0 → place p0 = None → counted p0 = false →
  slots (table w) !! j = None → 0 <= j < dir (table w) * connSegmentSize →
  table_inv (mkWorld (mkTable (dir (table w)) (<[j := c]> (slots (table w))) (count (table w))) (<[t := AddInc c j]> (conns w))).
Proof.
  intros [H1 H2 H3 H4 H5 H6 H7 H8] Ht Hpl Hcn Hj Hr.
  assert (∀ t' p' j' c', conns w !! t' = Some p' → place p' = Some (j', c') → j' ≠ j) as Hne.
  { intros t' p' j' c' Hp' Hpj ->. rewrite (H3 _ _ _ _ Hp' Hpj) in Hj. done. }
  split; cbn [table conns dir slots count].
  - done.
  - intros t' p' [[<- <-]|[_ Hp']]%lookup_insert_Some; [done|]. by apply (H2 t' p').
  - intros t' p' j' c' [[<- <-]|[_ Hp']]%lookup_insert_Some Hpj.
    + injection Hpj as <- <-. apply lookup_insert_eq.
    + rewrite lookup_insert_ne; [by eapply H3|]. apply not_eq_sym. by eapply Hne.
  - intros j' c' [[<- <-]|[_ Hj']]%lookup_insert_Some; [done|by eapply H4].
  - intros j' c' [[<- <-]|[Hjj Hj']]%lookup_insert_Some.
    + exists t, (AddInc c j). by rewrite lookup_insert_eq.
    + destruct (H5 _ _ Hj') as (t' & p' & Hp' & Hpj). exists t', p'. rewrite lookup_insert_ne; [done|].
      intros ->. rewrite Ht in Hp'. injection Hp' as ->. by rewrite Hpl in Hpj.
  - intros t1 t2 p1 p2 j' c1 c2 [[<- <-]|[_ Hp1]]%lookup_insert_Some Hj1 [[<- <-]|[_ Hp2]]%lookup_insert_Some Hj2; [done|..].
    + injection Hj1 as <- <-. by destruct (Hne _ _ _ _ Hp2 Hj2).
    + injection Hj2 as <- <-. by destruct (Hne _ _ _ _ Hp1 Hj1).
    + by eapply (H6 t1 t2 p1 p2 j').
  - rewrite H7, n_of_insert, (n_of_lookup _ _ t), Ht. cbn. by rewrite Hcn.
  - rewrite map_size_insert_None, H8, n_of_insert, (n_of_lookup _ _ t), Ht by done. cbn. unfold placed. rewrite Hpl. cbn. lia.
Qed.

(** A connection gives its slot back. *)
Lemma inv_release w t c j : table_inv w → conns w !! t = Some (RemStore c j) →
  table_inv (mkWorld (mkTable (dir (table w)) (delete j (slots (table w))) (count (table w))) (<[t := RemDec]> (conns w))).
Proof.
  intros [H1 H2 H3 H4 H5 H6 H7 H8] Ht. split; cbn [table conns dir slots count].
  - done.
  - intros t' p' [[<- <-]|[_ Hp']]%lookup_insert_Some; [done|]. by apply (H2 t' p').
  - intros t' p' j' c' [[<- <-]|[Hne Hp']]%lookup_insert_Some Hpj; [done|].
    rewrite lookup_delete_ne; [by eapply H3|]. intros <-. apply Hne. by eapply (H6 t t').
  - intros j' c' [_ Hj']%lookup_delete_Some. by eapply H4.
  - intros j' c' [Hne Hj']%lookup_delete_Some. destruct (H5 _ _ Hj') as (t' & p' & Hp' & Hpj). exists t', p'.
    rewrite lookup_insert_ne; [done|]. intros ->. rewrite Ht in Hp'. injection Hp' as <-. by injection Hpj as <- _.
  - intros t1 t2 p1 p2 j' c1 c2 [[<- <-]|[_ Hp1]]%lookup_insert_Some Hj1 [[<- <-]|[_ Hp2]]%lookup_insert_Some Hj2; try done.
    by eapply (H6 t1 t2 p1 p2 j').
  - rewrite H7, n_of_insert, (n_of_lookup _ _ t), Ht. done.
  - rewrite map_size_delete_Some by (exists c; by eapply (H3 t)). rewrite H8, n_of_insert, (n_of_lookup _ _ t), Ht. cbn. lia.
Qed.

Lemma table_inv_step w w' : table_inv w → step w w' → table_inv w'.
Proof.
  intros Hinv Hst. revert Hinv. destruct Hst as [w t c Ht|w t c j Ht|w t p tb p' Ht Hs]; intros Hinv.
  - apply table_inv_same; rewrite ?Ht; try done. cbn. lia.
  - apply table_inv_same; rewrite ?Ht; try done. cbn. lia.
  - pose proof (t_dir _ Hinv) as Hd. pose proof (t_scan _ Hinv _ _ Ht) as Hok.
    destruct p; cbn in Hs, Hok; try (injection Hs as <- <-).
    + apply table_inv_same; rewrite ?Ht; try done; destruct (Z.eqb_spec (dir (table w)) 0); cbn; lia || done.
    + apply table_inv_same; rewrite ?Ht; try done; destruct (_ <? _); cbn; lia || done.
    + apply table_inv_same; rewrite ?Ht; try done; destruct (_ <? _); cbn; lia || done.
    + destruct (Z.eqb_spec (dir (table w)) old); injection Hs as <- <-; apply table_inv_same; rewrite ?Ht; try done; cbn; lia.
    + apply table_inv_same; rewrite ?Ht; try done; destruct (slots _ !! _); unfold next_slot; repeat case_match; cbn; lia || done.
    + destruct (slots (table w) !! slot_of c segs i) eqn:E; injection Hs as <- <-.
      * apply table_inv_same; rewrite ?Ht; try done; unfold next_slot; repeat case_match; cbn; lia || done.
      * apply (inv_claim w t c _ (AddCAS c segs i)); try done. pose proof (slot_of_range c segs i). unfold connSegmentSize in *. lia.
    + apply table_inv_same; rewrite ?Ht; try done. cbn. lia.
    + apply table_inv_same; rewrite ?Ht; try done. cbn. lia.
    + by eapply inv_release.
    + apply table_inv_same; rewrite ?Ht; try done. cbn. lia.
    + apply table_inv_same; rewrite ?Ht; try done. cbn. lia.
Qed.

Lemma table_inv_start : table_inv start.
Proof. split; cbn; try done. Qed.

Lemma elem_of_listed w c : table_inv w →
  c ∈ listed (table w) ↔ ∃ t p j, conns w !! t = Some p ∧ place p = Some (j, c).
Proof.
  intros [H1 H2 H3 H4 H5 H6 H7 H8]. unfold listed. rewrite list_elem_of_omap. split.
  - intros (j & _ & (t & p & Hp & Hj)%H5). by exists t, p, (Z.of_nat j).
  - intros (t & p & j & Hp & Hj). pose proof (H3 _ _ _ _ Hp Hj) as Hs. pose proof (H4 _ _ Hs).
    exists (Z.to_nat j). rewrite Z2Nat.id by lia. split; [|done]. apply elem_of_seq. lia.
Qed.

Lemma length_listed (m : gmap Z C) n : (∀ j c, m !! j = Some c → 0 <= j < Z.of_nat n) →
  length (omap (fun j => m !! Z.of_nat j) (seq 0 n)) = size m.
Proof.
  revert m; induction n as [|n IH]; intros m Hm.
  - cbn. symmetry. apply map_size_empty_iff, map_eq. intros j. destruct (m !! j) eqn:E; [|by rewrite lookup_empty].
    specialize (Hm _ _ E). lia.
  - rewrite seq_S, omap_app, length_app. cbn [omap list_omap].
    assert (omap (fun j => m !! Z.of_nat j) (seq 0 n) = omap (fun j => delete (Z.of_nat n) m !! Z.of_nat j) (seq 0 n)) as ->.
    { apply list_omap_ext, Forall2_same_length_lookup_2; [done|]. intros i x y Hx Hy. rewrite Hx in Hy. injection Hy as ->.
      apply lookup_seq in Hx as [-> ?]. rewrite lookup_delete_ne; [done|lia]. }
    rewrite IH.
    + rewrite map_size_delete. destruct (m !! Z.of_nat n) eqn:E; cbn; rewrite ?E; cbn; [|lia].
      enough (size m ≠ 0%nat) by lia. intros E0%map_size_empty_iff. by rewrite E0, lookup_empty in E.
    + intros j c [Hne Hj]%lookup_delete_Some. specialize (Hm _ _ Hj). lia.
Qed.

Lemma n_of_ext f g th : (∀ t p, th !! t = Some p → f p = g p) → n_of f th = n_of g th.
Proof.
  intros H. unfold n_of. f_equal. apply map_filter_ext. intros t p Hp. cbn. by rewrite (H t p).
Qed.
End ConnTable.
End ConnTable.

(** * The counted map *)

Record syncMap (K V : Type) `{Countable K} := mkSync { sm : gmap K V; sn : Z }.
Arguments mkSync {K V _ _} _ _.
Arguments sm {K V _ _} _.
Arguments sn {K V _ _} _.

Module SyncMap.
Section SyncMap.
Context {K V : Type} `{Countable K}.
Implicit Types m : syncMap K V.

Definition empty : syncMap K V := mkSync ∅ 0.
Definition Load m (k : K) : option V := sm m !! k.
Definition LoadOrMake m (k : K) (mk : V) : syncMap K V * V :=
  match sm m !! k with
  | Some v => (m, v)
  | None => (mkSync (<[k := mk]> (sm m)) (sn m + 1), mk)
  end.
Definition Store m (k : K) (v : V) : syncMap K V :=
  mkSync (<[k := v]> (sm m)) (match sm m !! k with None => sn m + 1 | Some _ => sn m end).
Definition Delete m (k : K) : syncMap K V :=
  match sm m !! k with Some _ => mkSync (delete k (sm m)) (sn m - 1) | None => m end.
Definition Len m : Z := sn m.

(** The length is the number of entries. *)
Definition counted m : Prop := sn m = Z.of_nat (size (sm m)).

Lemma counted_LoadOrMake m k v : counted m → counted (LoadOrMake m k v).1.
Proof.
  unfold counted, LoadOrMake. intros Hc. destruct (sm m !! k) eqn:E; cbn; [done|].
  rewrite map_size_insert_None by done. lia.
Qed.
Lemma counted_Store m k v : counted m → counted (Store m k v).
Proof.
  unfold counted, Store. intros Hc. cbn. destruct (sm m !! k) eqn:E; rewrite map_size_insert, E; cbn; lia.
Qed.
Lemma counted_Delete m k : counted m → counted (Delete m k).
Proof.
  unfold counted, Delete. intros Hc. destruct (sm m !! k) eqn:E; cbn; [|done].
  assert (size (sm m) ≠ 0%nat) by (intros E0%map_size_empty_iff; by rewrite E0, lookup_empty in E).
  rewrite map_size_delete, E. lia.
Qed.
End SyncMap.
End SyncMap.

(** * Counters per host name

    The address of an entry is its slot: entries never move. *)

Definition hostTableSize : Z := 4096.
Definition maxHostStats : Z := 2000.
Definition other : bytes := lit "(other)".

Module HostTable.
Section HostTable.
(* maphash.String with the process's seed *)
Context (hash : bytes → Z).

Record hostTable := mkHosts { hslots : gmap Z bytes; hn : Z }.
Definition newHostTable : hostTable := mkHosts ∅ 0.

(** The [i]-th probe for a name hashed to [h]: (h+i)&(hostTableSize-1). *)
Definition probe (h i : Z) : Z := Z.land (h + i) (hostTableSize - 1).

Fixpoint find_go (t : hostTable) (name : bytes) (add : bool) (h : Z) (i : Z) (left : nat) : hostTable * option Z :=
  match left with
  | O => (t, None)
  | S left' =>
      match hslots t !! probe h i with
      | None => if add then (mkHosts (<[probe h i := name]> (hslots t)) (hn t + 1), Some (probe h i)) else (t, None)
      | Some e => if bool_decide (e = name) then (t, Some (probe h i)) else find_go t name add h (i + 1) left'
      end
  end.
Definition find (t : hostTable) (name : bytes) (add : bool) : hostTable * option Z :=
  find_go t name add (hash name) 0 (Z.to_nat hostTableSize).

Definition get (t : hostTable) (name : bytes) : hostTable * option Z :=
  if negb (bool_decide (name = other)) && (maxHostStats <=? hn t) then
    match find t name false with
    | (t', Some h) => (t', Some h)
    | (t', None) => find t' other true
    end
  else
    match find t name true with
    | (t', Some h) => (t', Some h)
    | (t', None) => find t' other true
    end.

Definition Len (t : hostTable) : Z := hn t.

(** ** What it stands for

    A set of known names; a request counts under its own name if that is
    known or there is room for it, else under "(other)". *)
Definition counts_under (known : list bytes) (name : bytes) : bytes :=
  if bool_decide (name ∈ known) || bool_decide (name = other) || (len known <? maxHostStats) then name else other.
Definition learn (known : list bytes) (name : bytes) : list bytes :=
  if bool_decide (name ∈ known) then known else known ++ [name].

Fixpoint requests (t : hostTable) (names : list bytes) : list (option Z) :=
  match names with
  | [] => []
  | n :: names => let (t', s) := get t n in s :: requests t' names
  end.
Definition after (t : hostTable) (names : list bytes) : hostTable := foldl (fun t n => (get t n).1) t names.
Fixpoint ledger (known : list bytes) (names : list bytes) : list bytes :=
  match names with
  | [] => []
  | n :: names => counts_under known n :: ledger (learn known (counts_under known n)) names
  end.

(** ** The table's invariant

    Each name is in one slot, which a probe from its hash reaches over
    occupied slots only. *)
Record host_inv (t : hostTable) (known : list bytes) : Prop := {
  h_n : hn t = len known;
  h_nodup : NoDup known;
  h_size : len known <= maxHostStats + 1;
  h_full : maxHostStats < len known → other ∈ known;
  h_known e : e ∈ known ↔ ∃ i, 0 <= i < hostTableSize ∧ hslots t !! probe (hash e) i = Some e;
  h_slot j e : hslots t !! j = Some e → ∃ i, 0 <= i < hostTableSize ∧ j = probe (hash e) i ∧
    ∀ k, 0 <= k < i → is_Some (hslots t !! probe (hash e) k);
  h_uniq j j' e : hslots t !! j = Some e → hslots t !! j' = Some e → j = j';
  h_count : size (hslots t) = length known;
}.

Lemma probe_mod h i : probe h i = (h + i) mod hostTableSize.
Proof. unfold probe, hostTableSize. change (4096 - 1) with (Z.ones 12). by rewrite Z.land_ones by lia. Qed.

Lemma probe_inj h i i' : 0 <= i < hostTableSize → 0 <= i' < hostTableSize → probe h i = probe h i' → i = i'.
Proof.
  rewrite !probe_mod. unfold hostTableSize. intros Hi Hi' E.
  pose proof (Z.div_mod (h + i) 4096 ltac:(lia)). pose proof (Z.div_mod (h + i') 4096 ltac:(lia)).
  destruct (Z.lt_trichotomy ((h + i) / 4096) ((h + i') / 4096)) as [?|[E'|?]]; [lia| |lia]. rewrite E' in *. lia.
Qed.

(** The scan: the first slot that is empty or has the name. *)
Lemma find_go_spec t name add h i left j : 0 <= i → i + Z.of_nat left = hostTableSize →
  i <= j < hostTableSize → (∀ k, i <= k < j → ∃ e, hslots t !! probe h k = Some e ∧ e ≠ name) →
  find_go t name add h i left =
  match hslots t !! probe h j with
  | None => if add then (mkHosts (<[probe h j := name]> (hslots t)) (hn t + 1), Some (probe h j)) else (t, None)
  | Some e => if bool_decide (e = name) then (t, Some (probe h j)) else find_go t name add h j (Z.to_nat (hostTableSize - j))
  end.
Proof.
  revert i; induction left as [|left IH]; intros i Hi Hl Hj Hk; [lia|].
  destruct (decide (i = j)) as [->|Hne].
  - replace (Z.to_nat (hostTableSize - j)) with (S left) by lia. cbn [find_go]. repeat case_match; done.
  - cbn [find_go]. destruct (Hk i ltac:(lia)) as (e & -> & He). rewrite bool_decide_eq_false_2 by done.
    apply IH; [lia|lia|lia|]. intros k Hk'. apply Hk. lia.
Qed.

Lemma find_known t known name add : host_inv t known → name ∈ known →
  ∃ j, find t name add = (t, Some j) ∧ hslots t !! j = Some name.
Proof.
  intros [H1 H2 H3 H4 H5 H6 H7 H8] Hin. pose proof Hin as (i & Hi & Hs)%H5. destruct (H6 _ _ Hs) as (i' & Hi' & E & Hocc).
  apply probe_inj in E as <-; [|done..]. exists (probe (hash name) i). split; [|done]. unfold find.
  rewrite (find_go_spec _ _ _ _ _ _ i); [|lia|unfold hostTableSize; lia|lia|].
  - rewrite Hs. by rewrite bool_decide_eq_true_2.
  - intros k Hk. destruct (Hocc k ltac:(lia)) as [e He]. exists e. split; [done|]. intros ->.
    assert (k = i); [|lia]. apply (probe_inj (hash name)); [lia|lia|]. by eapply H7.
Qed.

(** The first empty slot of a probe, while the table is not full. *)
Lemma first_free t known h : host_inv t known →
  ∃ j, 0 <= j < hostTableSize ∧ hslots t !! probe h j = None ∧ ∀ k, 0 <= k < j → is_Some (hslots t !! probe h k).
Proof.
  intros [H1 H2 H3 H4 H5 H6 H7 H8].
  assert (∀ n : nat, (∀ k, 0 <= k < Z.of_nat n → is_Some (hslots t !! probe h k)) ∨
    ∃ j, 0 <= j < Z.of_nat n ∧ hslots t !! probe h j = None ∧ ∀ k, 0 <= k < j → is_Some (hslots t !! probe h k)) as Hscan.
  { induction n as [|n [IH|(j & Hj & Hn & Hk)]]; [left; lia| |].
    - destruct (hslots t !! probe h (Z.of_nat n)) eqn:E.
      + left. intros k Hk. destruct (decide (k = Z.of_nat n)) as [->|]; [by rewrite E|]. apply IH. lia.
      + right. exists (Z.of_nat n). split; [lia|]. split; [done|]. intros k Hk. apply IH. lia.
    - right. exists j. split; [lia|]. by split. }
  destruct (Hscan (Z.to_nat hostTableSize)) as [Hall|(j & Hj & ?)]; [|exists j; split; [lia|done]]. exfalso.
  set (ks := (fun n => probe h (Z.of_nat n)) <$> seq 0 (Z.to_nat hostTableSize)).
  assert (NoDup ks) as Hnd.
  { apply NoDup_fmap_2_strong; [|apply NoDup_seq]. intros x y Hx Hy E. apply elem_of_seq in Hx, Hy.
    apply Nat2Z.inj, (probe_inj h); [lia|lia|done]. }
  assert (list_to_set ks ⊆ dom (hslots t)) as Hsub.
  { intros j Hj%elem_of_list_to_set. apply list_elem_of_fmap in Hj as (n & -> & Hn%elem_of_seq). apply elem_of_dom, Hall. lia. }
  apply subseteq_size in Hsub. rewrite size_list_to_set in Hsub by done. rewrite size_dom, H8 in Hsub.
  unfold ks in Hsub. rewrite length_fmap, length_seq in Hsub. unfold len, maxHostStats, hostTableSize in *. lia.
Qed.

Lemma find_unknown t known name : host_inv t known → name ∉ known →
  find t name false = (t, None) ∧
  (len known < maxHostStats ∨ (len known = maxHostStats ∧ name = other) →
   ∃ t' j, find t name true = (t', Some j) ∧ hslots t' !! j = Some name ∧ host_inv t' (known ++ [name]) ∧
     ∀ j' e, hslots t !! j' = Some e → hslots t' !! j' = Some e).
Proof.
  intros Hinv Hnin. destruct (first_free t known (hash name) Hinv) as (j & Hj & Hfree & Hocc).
  pose proof Hinv as [H1 H2 H3 H4 H5 H6 H7 H8].
  assert (∀ add, find t name add = if add then (mkHosts (<[probe (hash name) j := name]> (hslots t)) (hn t + 1), Some (probe (hash name) j)) else (t, None)) as E.
  { intros add. unfold find. rewrite (find_go_spec _ _ _ _ _ _ j); [|lia|unfold hostTableSize; lia|lia|].
    - rewrite Hfree. done.
    - intros k Hk. destruct (Hocc k ltac:(lia)) as [e He]. exists e. split; [done|]. intros ->. apply Hnin, H5. exists k. split; [lia|done]. }
  split; [apply (E false)|]. intros Hroom. eexists _, _. split; [apply (E true)|]. cbn [hslots]. split; [apply lookup_insert_eq|].
  assert (∀ j' e, hslots t !! j' = Some e → <[probe (hash name) j := name]> (hslots t) !! j' = Some e) as Hkeep.
  { intros j' e He. rewrite lookup_insert_ne; [done|]. intros <-. by rewrite Hfree in He. }
  split; [|done]. split; cbn [hslots hn].
  - rewrite len_app, H1. done.
  - apply NoDup_app. split; [done|]. split; [|apply NoDup_singleton]. by intros e He ->%list_elem_of_singleton.
  - rewrite len_app. change (len [name]) with 1. lia.
  - rewrite len_app. change (len [name]) with 1. intros ?. rewrite elem_of_app, list_elem_of_singleton.
    destruct Hroom as [|[_ ->]]; [lia|by right].
  - intros e. rewrite elem_of_app, list_elem_of_singleton. split.
    + intros [(i & Hi & He)%H5| ->]; [exists i; auto|]. exists j. split; [done|]. apply lookup_insert_eq.
    + intros (i & Hi & [[_ <-]|[_ He]]%lookup_insert_Some); [by right|]. left. apply H5. by exists i.
  - intros j' e [[<- <-]|[_ He]]%lookup_insert_Some.
    + exists j. split; [done|]. split; [done|]. intros k Hk. destruct (Hocc k Hk) as [x Hx]. exists x. by apply Hkeep.
    + destruct (H6 _ _ He) as (i & Hi & -> & Hk). exists i. split; [done|]. split; [done|].
      intros k Hki. destruct (Hk k Hki) as [x Hx]. exists x. by apply Hkeep.
  - assert (∀ j', hslots t !! j' ≠ Some name) as Hno.
    { intros j' Hj'. destruct (H6 _ _ Hj') as (i & Hi & -> & _). apply Hnin, H5. by exists i. }
    intros j1 j2 e [[<- <-]|[_ He1]]%lookup_insert_Some [[<- E2]|[_ He2]]%lookup_insert_Some; try done.
    + by destruct (Hno j2).
    + subst. by destruct (Hno j1).
    + by eapply H7.
  - rewrite map_size_insert_None, H8, length_app by done. cbn. lia.
Qed.

(** Finding a name or, with room, adding it. *)
Lemma find_add t known name : host_inv t known → (len known < maxHostStats ∨ name = other) →
  ∃ t' j, find t name true = (t', Some j) ∧ hslots t' !! j = Some name ∧ host_inv t' (learn known name) ∧
    ∀ j' e, hslots t !! j' = Some e → hslots t' !! j' = Some e.
Proof.
  intros Hinv Hroom. unfold learn. destruct (bool_decide_reflect (name ∈ known)) as [Hin|Hnin].
  - destruct (find_known t known name true Hinv Hin) as (j & -> & Hj). by exists t, j.
  - apply (find_unknown t known name Hinv Hnin). destruct Hroom as [?| ->]; [by left|].
    pose proof (h_full _ _ Hinv). pose proof (h_size _ _ Hinv).
    destruct (decide (maxHostStats < len known)); [tauto|]. destruct (decide (len known = maxHostStats)); [by right|left; lia].
Qed.

Lemma get_spec t known name : host_inv t known →
  ∃ t' j, get t name = (t', Some j) ∧ hslots t' !! j = Some (counts_under known name) ∧
    host_inv t' (learn known (counts_under known name)) ∧ ∀ j' e, hslots t !! j' = Some e → hslots t' !! j' = Some e.
Proof.
  intros Hinv. unfold get, counts_under. rewrite (h_n _ _ Hinv).
  destruct (bool_decide_reflect (name = other)) as [->|Hno]; cbn [negb andb].
  - rewrite orb_true_r. cbn [orb]. destruct (find_add t known other Hinv) as (t' & j & -> & H); [by right|]. by exists t', j.
  - rewrite orb_false_r. destruct (Z.leb_spec maxHostStats (len known)), (Z.ltb_spec (len known) maxHostStats); try lia.
    + rewrite orb_false_r. destruct (bool_decide_reflect (name ∈ known)) as [Hin|Hnin].
      * destruct (find_known t known name false Hinv Hin) as (j & -> & Hj). exists t, j. unfold learn. by rewrite bool_decide_eq_true_2.
      * destruct (find_unknown t known name Hinv Hnin) as [-> _].
        destruct (find_add t known other Hinv) as (t' & j & -> & H1); [by right|]. by exists t', j.
    + rewrite orb_true_r. destruct (find_add t known name Hinv) as (t' & j & -> & H1); [by left|]. by exists t', j.
Qed.

Lemma host_inv_new : host_inv newHostTable [].
Proof.
  split; cbn; try done.
  - apply NoDup_nil_2.
  - intros e. split; [by intros ?%not_elem_of_nil|]. intros (i & _ & Hi). by rewrite lookup_empty in Hi.
Qed.

Lemma requests_ledger t known names : host_inv t known →
  length (requests t names) = length names ∧ length (ledger known names) = length names ∧
  let t' := after t names in (∀ j e, hslots t !! j = Some e → hslots t' !! j = Some e) ∧
    (∀ j j' e, hslots t' !! j = Some e → hslots t' !! j' = Some e → j = j') ∧ Len t' <= maxHostStats + 1 ∧
    ∀ i s, requests t names !! i = Some s →
      ∃ j n, s = Some j ∧ ledger known names !! i = Some n ∧ hslots t' !! j = Some n.
Proof.
  cbn zeta. unfold after. revert t known; induction names as [|n names IH]; intros t known Hinv; cbn [requests ledger foldl].
  - split; [done|]. split; [done|]. split; [done|]. split; [apply (h_uniq _ _ Hinv)|].
    split; [unfold Len; rewrite (h_n _ _ Hinv); apply (h_size _ _ Hinv)|done].
  - destruct (get_spec t known n Hinv) as (t1 & j & -> & Hj & Hinv1 & Hkeep). cbn [fst].
    destruct (IH _ _ Hinv1) as (Hl1 & Hl2 & Hkeep' & Huniq & Hlen & Hall). cbn [length].
    split; [by rewrite Hl1|]. split; [by rewrite Hl2|]. split; [by intros; apply Hkeep', Hkeep|].
    split; [done|]. split; [done|]. intros [|i] s; cbn [lookup list_lookup]; [|apply Hall].
    injection 1 as <-. exists j, (counts_under known n). split; [done|]. split; [done|]. by apply Hkeep'.
Qed.
End HostTable.
End HostTable.

(** * Handshakes in progress per source *)

Module Sources.
Section Sources.
(* maphash.Bytes with the process's seed, over Addr.As16 *)
Context (hash : bytes → Z).

Definition counter (as16 : bytes) : Z := Z.land (hash as16) (2 ^ 16 - 1).

(** [beginHandshake] takes the counter's new value; [None] is a refusal. The
    counters themselves are 32-bit; [max_connections] keeps them far below. *)
Definition beginHandshake (n : gmap Z Z) (as16 : bytes) (limit : Z) : gmap Z Z * option Z :=
  let i := counter as16 in
  let v := default 0 (n !! i) + 1 in
  if (0 <? limit) && (limit <? v) then (<[i := v - 1]> (<[i := v]> n), None) else (<[i := v]> n, Some i).
Definition endHandshake (n : gmap Z Z) (i : Z) : gmap Z Z := <[i := default 0 (n !! i) - 1]> n.
End Sources.
End Sources.


(** * Properties of the connection table *)

(** C19: However many connections come and go at once, two connections never
    share a slot, each one whose [add] returned and that has not begun to
    close is listed by [Range], only connections between their claim and their
    release are, and whenever none is in the middle of [add] or [remove] the
    length is exactly the number listed. *)
Theorem conn_table_exact {C} (ID : C → Z) (w : ConnTable.world (C := C)) : rtc (ConnTable.step ID) ConnTable.start w →
  (∀ t t' p p' j c c', ConnTable.conns w !! t = Some p → ConnTable.place p = Some (j, c) →
     ConnTable.conns w !! t' = Some p' → ConnTable.place p' = Some (j, c') → t = t') ∧
  (∀ t c j, ConnTable.conns w !! t = Some (ConnTable.AddDone c j) → c ∈ ConnTable.listed (ConnTable.table w)) ∧
  (∀ c, c ∈ ConnTable.listed (ConnTable.table w) →
     ∃ t p j, ConnTable.conns w !! t = Some p ∧ ConnTable.place p = Some (j, c)) ∧
  ((∀ t p, ConnTable.conns w !! t = Some p → ConnTable.at_rest p = true) →
     ConnTable.Len (ConnTable.table w) = len (ConnTable.listed (ConnTable.table w))).
Proof.
  intros Hs. assert (ConnTable.table_inv w) as Hinv.
  { eapply rtc_invariant; [apply ConnTable.table_inv_step|done|apply ConnTable.table_inv_start]. }
  split; [by apply ConnTable.t_uniq|]. split; [|split].
  - intros t c j Ht. apply ConnTable.elem_of_listed; [done|]. by exists t, (ConnTable.AddDone c j), j.
  - intros c Hc. by apply ConnTable.elem_of_listed.
  - intros Hrest. pose proof (ConnTable.t_dir _ Hinv). unfold ConnTable.Len, len, ConnTable.listed.
    rewrite ConnTable.length_listed, (ConnTable.t_count _ Hinv), (ConnTable.t_size _ Hinv).
    + f_equal. apply ConnTable.n_of_ext. intros t p Hp. specialize (Hrest _ _ Hp). by destruct p.
    + intros j c Hj. pose proof (ConnTable.t_room _ Hinv _ _ Hj). unfold connSegmentSize in *. lia.
Qed.

Lemma conn_table_exact_witness : ∃ w : ConnTable.world (C := Z), rtc (ConnTable.step id) ConnTable.start w ∧
  5 ∈ ConnTable.listed (ConnTable.table w).
Proof.
  eexists. assert (H : rtc (ConnTable.step id) ConnTable.start
    (ConnTable.mkWorld (ConnTable.mkTable 1 {[5 := 5]} 1) {[0%nat := ConnTable.AddDone 5 5]})).
  { eapply rtc_l; [apply (ConnTable.StepAdd _ _ 0%nat 5); reflexivity|].
    do 8 (eapply rtc_l; [eapply (ConnTable.StepAct _ _ 0%nat); [apply lookup_insert_eq|vm_compute; reflexivity]|]).
    match goal with |- rtc _ ?a ?b => replace a with b by (vm_compute; reflexivity) end. apply rtc_refl. }
  split; [exact H|]. destruct (conn_table_exact id _ H) as (_ & H2 & _). apply (H2 0%nat 5 5). reflexivity.
Defined.

(** Whatever names clients send and in whatever order, every request gets
    a counter, and two requests share one exactly when they count under the
    same name: their own, as long as it is known or fewer than 2000 names are,
    else "(other)". The table never holds more than 2001 names. *)
Theorem host_counters hash (names : list bytes) :
  let got := HostTable.requests hash HostTable.newHostTable names in
  let under := HostTable.ledger [] names in
  length got = length names ∧ length under = length names ∧
  HostTable.Len (HostTable.after hash HostTable.newHostTable names) <= maxHostStats + 1 ∧
  (∀ i k s s' n n', got !! i = Some s → got !! k = Some s' → under !! i = Some n → under !! k = Some n' →
     (s ≠ None ∧ (s = s' ↔ n = n'))).
Proof.
  cbn zeta. destruct (HostTable.requests_ledger hash _ _ names (HostTable.host_inv_new hash)) as (H1 & H2 & _ & Hu & Hlen & Hall).
  split; [done|]. split; [done|]. split; [done|]. intros i k s s' n n' Hs Hs' Hn Hn'.
  destruct (Hall _ _ Hs) as (j & m & -> & Hm & Hj). destruct (Hall _ _ Hs') as (j' & m' & -> & Hm' & Hj').
  rewrite Hn in Hm. injection Hm as <-. rewrite Hn' in Hm'. injection Hm' as <-. split; [done|]. split.
  - injection 1 as ->. rewrite Hj in Hj'. by injection Hj'.
  - intros ->. f_equal. by eapply Hu.
Qed.

Lemma host_counters_witness :
  let got := HostTable.requests (fun _ => 4095) HostTable.newHostTable [lit "a"; lit "b"; lit "a"] in
  got = [Some 4095; Some 0; Some 4095] ∧ (Some 4095 = Some 4095 ↔ lit "a" = lit "a").
Proof.
  split; [vm_compute; reflexivity|].
  destruct (host_counters (fun _ => 4095) [lit "a"; lit "b"; lit "a"]) as (_ & _ & _ & H).
  apply (H 0%nat 2%nat); vm_compute; reflexivity.
Defined.
