(* ===== verification/Pool.v ===== *)
(** Pool: the relay's buffers ([pool.go]), against the interface of the queue
    they are parked in, which the ring implements. *)

From S2P Require Import Prelude Ring.

(** * The queue interface *)

Class Queue (T Q : Type) := {
  qnew : Z → Q;
  qpush : Q → T → Q * bool;
  qpop : Q → Q * option T;
  qlen : Q → Z;
}.

(** What the queue promises: [qrep q l n] when it holds [l], of at most [n]. *)
Class QueueLaws (T Q : Type) `{Queue T Q} := {
  qrep : Q → list T → Z → Prop;
  qnew_rep c : c < 2 ^ 63 → ∃ n, c <= n ∧ qrep (qnew c) [] n;
  qlen_rep q l n : qrep q l n → qlen q = len l;
  qpush_rep q l n v : qrep q l n →
    if len l =? n then qpush q v = (q, false) else ∃ q', qpush q v = (q', true) ∧ qrep q' (l ++ [v]) n;
  qpop_rep q l n : qrep q l n →
    match l with [] => qpop q = (q, None) | x :: l' => ∃ q', qpop q = (q', Some x) ∧ qrep q' l' n end;
}.

#[export] Instance ring_queue {T} : Queue T (ring T) :=
  {| qnew := newRing; qpush := TryPush; qpop := TryPop; qlen r := ring_Len (rhead r) (rtail r) |}.

#[export] Instance ring_queue_laws {T} : QueueLaws T (ring T).
Proof.
  refine {| qrep r l n := holds r l ∧ len (rcell r) = n |}.
  - intros c Hc. exists (len (rcell (newRing (T := T) c))). split; [by apply newRing_spec|]. split; [by apply holds_new|done].
  - intros r l n [(_ & Hh & Ht & _) _]. cbn [qlen ring_queue]. unfold ring_Len. pose proof (len_nonneg l).
    destruct (Z.ltb_spec (rtail r) (rhead r)); lia.
  - intros r l n v [Hr <-]. cbn [qpush ring_queue]. pose proof (TryPush_spec r l v Hr) as Hs.
    destruct (_ =? _); [done|]. destruct Hs as (r' & ? & ? & ?). by exists r'.
  - intros r l n [Hr <-]. cbn [qpop ring_queue]. pose proof (TryPop_spec r l Hr) as Hs.
    destruct l; [done|]. destruct Hs as (r' & ? & ? & ?). by exists r'.
Defined.

(** * The pool *)

(** A slice, by the array it is of, and its capacity. *)
Record buffer := mkBuffer { array : Z; bcap : Z }.
#[export] Instance buffer_eq_dec : EqDecision buffer.
Proof. solve_decision. Defined.

Definition minute : Z := 60 * 1000000000.

Section Pool.
Context {Q : Type} `{QueueLaws buffer Q}.

Record BufferPool := mkPool { size : Z; maxIdle : Z; free : Q; fullSince : Z }.
Implicit Types p : BufferPool.

Definition NewBufferPool (size maxIdle : Z) : BufferPool := mkPool size maxIdle (qnew (Z.max maxIdle 1)) 0.

(** [None] in the answer: a new array is allocated. *)
Definition Get p : BufferPool * option buffer :=
  match qpop (free p) with
  | (q, Some b) => (mkPool (size p) (maxIdle p) q (if qlen q <? maxIdle p then 0 else fullSince p), Some b)
  | (q, None) => (mkPool (size p) (maxIdle p) q (fullSince p), None)
  end.

Definition Put p (b : buffer) (now : Z) : BufferPool :=
  if negb (bcap b =? size p) || (maxIdle p <=? 0) then p
  else if maxIdle p <=? qlen (free p) then p
  else match qpush (free p) b with
       | (q, false) => mkPool (size p) (maxIdle p) q (fullSince p)
       | (q, true) => mkPool (size p) (maxIdle p) q
           (if (maxIdle p <=? qlen q) && (fullSince p =? 0) then now else fullSince p)
       end.

(** One tick of the janitor. The inner loop pops until half are left, or a
    pop finds nothing. *)
Fixpoint shed (fuel : nat) (q : Q) (keep : Z) : Q :=
  match fuel with
  | O => q
  | S fuel' =>
      if keep <? qlen q then match qpop q with (q', Some _) => shed fuel' q' keep | (q', None) => q' end else q
  end.
Definition trimIdle p (now : Z) : BufferPool :=
  if (fullSince p =? 0) || (now - fullSince p <? minute) || (qlen (free p) <=? Z.quot (maxIdle p) 2) then p
  else mkPool (size p) (maxIdle p) (shed (Z.to_nat (qlen (free p))) (free p) (Z.quot (maxIdle p) 2)) 0.

Definition Idle p : Z := qlen (free p).

(** ** Borrowers *)

(** The pool, the buffers handed out, and the next new array. *)
Record lending := mkLending { pool : BufferPool; lent : list buffer; fresh : Z }.

Inductive lend : relation lending :=
| LendGet w p b : Get (pool w) = (p, Some b) → lend w (mkLending p (b :: lent w) (fresh w))
| LendNew w p : Get (pool w) = (p, None) →
    lend w (mkLending p (mkBuffer (fresh w) (size p) :: lent w) (fresh w + 1))
| LendPut w b l now : lent w ≡ₚ b :: l → lend w (mkLending (Put (pool w) b now) l (fresh w))
| LendForeign w b now : bcap b ≠ size (pool w) → lend w (mkLending (Put (pool w) b now) (lent w) (fresh w))
| LendTrim w now : lend w (mkLending (trimIdle (pool w) now) (lent w) (fresh w)).

Definition opened (size maxIdle : Z) : lending := mkLending (NewBufferPool size maxIdle) [] 0.

Definition lending_inv (size0 maxIdle0 : Z) (w : lending) : Prop :=
  size (pool w) = size0 ∧ maxIdle (pool w) = maxIdle0 ∧
  ∃ l n, qrep (free (pool w)) l n ∧ len l <= Z.max 0 maxIdle0 ∧ (fullSince (pool w) ≠ 0 → len l = maxIdle0) ∧
    NoDup (array <$> lent w ++ l) ∧ Forall (fun b => array b < fresh w ∧ bcap b = size0) (lent w ++ l).

Lemma shed_spec fuel q l n keep : qrep q l n → (length l <= fuel)%nat →
  qrep (shed fuel q keep) (drop (Z.to_nat (len l - keep)) l) n.
Proof.
  revert q l; induction fuel as [|fuel IH]; intros q l Hq Hf; cbn [shed].
  - destruct l; [|cbn in Hf; lia]. by rewrite drop_nil.
  - rewrite (qlen_rep _ _ _ Hq). destruct (Z.ltb_spec keep (len l)) as [Hlt|Hge].
    + pose proof (qpop_rep _ _ _ Hq) as Hp. destruct l as [|x l]; [rewrite Hp, drop_nil; done|].
      destruct Hp as (q' & -> & Hq'). rewrite len_cons in *. cbn [length] in Hf.
      replace (Z.to_nat (1 + len l - keep)) with (S (Z.to_nat (len l - keep))) by lia. cbn [drop]. apply IH; [done|lia].
    + replace (Z.to_nat (len l - keep)) with 0%nat by lia. by rewrite drop_0.
Qed.

Lemma trim_rep p now l n : qrep (free p) l n →
  qrep (free (trimIdle p now)) (if (fullSince p =? 0) || (now - fullSince p <? minute) || (len l <=? Z.quot (maxIdle p) 2)
                                then l else drop (Z.to_nat (len l - Z.quot (maxIdle p) 2)) l) n ∧
  size (trimIdle p now) = size p ∧ maxIdle (trimIdle p now) = maxIdle p.
Proof.
  intros Hq. unfold trimIdle. rewrite (qlen_rep _ _ _ Hq). destruct (_ || _ || _); [done|]. cbn [free size maxIdle].
  split; [|done]. apply shed_spec; [done|]. unfold len. lia.
Qed.

Lemma get_rep p l n : qrep (free p) l n →
  match l with
  | [] => Get p = (p, None)
  | b :: l' => ∃ p', Get p = (p', Some b) ∧ qrep (free p') l' n ∧ size p' = size p ∧ maxIdle p' = maxIdle p ∧
      fullSince p' = if len l' <? maxIdle p then 0 else fullSince p
  end.
Proof.
  intros Hq. unfold Get. pose proof (qpop_rep _ _ _ Hq) as Hp. destruct l as [|b l].
  - rewrite Hp. by destruct p.
  - destruct Hp as (q' & -> & Hq'). rewrite (qlen_rep _ _ _ Hq'). by eexists.
Qed.

Lemma put_rep p b now l n : qrep (free p) l n → len l <= Z.max 0 (maxIdle p) →
  size (Put p b now) = size p ∧ maxIdle (Put p b now) = maxIdle p ∧
  (qrep (free (Put p b now)) l n ∧ fullSince (Put p b now) = fullSince p ∨
   qrep (free (Put p b now)) (l ++ [b]) n ∧ bcap b = size p ∧ len l < maxIdle p ∧
     fullSince (Put p b now) = if (maxIdle p =? len l + 1) && (fullSince p =? 0) then now else fullSince p).
Proof.
  intros Hq Hl. unfold Put. destruct (negb _ || _) eqn:E; [auto|]. bool_prop.
  rewrite (qlen_rep _ _ _ Hq). destruct (Z.leb_spec (maxIdle p) (len l)); [auto|].
  pose proof (qpush_rep _ _ _ b Hq) as Hp. destruct (_ =? _); [rewrite Hp; cbn; auto|].
  destruct Hp as (q' & -> & Hq'). cbn. split; [done|]. split; [done|]. right. split; [done|]. split; [done|]. split; [lia|].
  rewrite (qlen_rep _ _ _ Hq'), len_app. change (len [b]) with 1.
  destruct (Z.leb_spec (maxIdle p) (len l + 1)), (Z.eqb_spec (maxIdle p) (len l + 1)); try lia; done.
Qed.

Lemma lend_inv size0 maxIdle0 w w' : lending_inv size0 maxIdle0 w → lend w w' → lending_inv size0 maxIdle0 w'.
Proof.
  intros (Hs & Hm & l & n & Hq & Hl & Hfull & Hnd & Hall) Hst.
  assert (∀ p' lent' l' fresh', qrep (free p') l' n → size p' = size0 → maxIdle p' = maxIdle0 → len l' <= Z.max 0 maxIdle0 →
    (fullSince p' ≠ 0 → len l' = maxIdle0) →
    lent' ++ l' ⊆+ lent w ++ l → fresh w <= fresh' → lending_inv size0 maxIdle0 (mkLending p' lent' fresh')) as Hsub.
  { intros p' lent' l' fresh' Hq' ? ? ? ? Hin Hf. split; [done|]. split; [done|]. exists l', n. repeat (split; [done|]).
    split; [apply submseteq_Permutation in Hin as [k Hk]; rewrite Hk, fmap_app in Hnd; by apply NoDup_app in Hnd as [? _]|].
    rewrite Forall_forall in Hall. apply Forall_forall. intros b Hb.
    destruct (Hall b) as [? ?]; [by eapply elem_of_submseteq|]. cbn. split; [lia|done]. }
  destruct Hst as [w p b Hg|w p Hg|w b l' now Hp|w b now Hb|w now].
  - pose proof (get_rep _ _ _ Hq) as Hgr. destruct l as [|b' l]; [congruence|].
    destruct Hgr as (p' & Hg' & Hq' & ? & ? & Hfs). rewrite Hg in Hg'. injection Hg' as -> ->. rewrite len_cons in *.
    apply (Hsub _ _ l); try congruence; [lia| |by rewrite <- Permutation_middle|lia].
    rewrite Hfs, Hm. destruct (Z.ltb_spec (len l) maxIdle0); [done|lia].
  - pose proof (get_rep _ _ _ Hq) as Hgr. destruct l as [|b' l]; [|destruct Hgr as (? & Hg' & _); congruence].
    rewrite Hg in Hgr. injection Hgr as ->. split; [done|]. split; [done|]. exists [], n. cbn [pool lent fresh].
    repeat (split; [done|]). rewrite app_nil_r in *. rewrite Forall_forall in Hall. split.
    + cbn [fmap list_fmap array]. apply NoDup_cons. split; [|done]. intros (b & Hb & Hin)%list_elem_of_fmap.
      apply Hall in Hin as [? _]. lia.
    + apply Forall_cons. cbn. split; [split; [lia|done]|]. apply Forall_forall. intros b [? ?]%Hall. split; [lia|done].
  - destruct (put_rep (pool w) b now l n Hq) as (H1 & H2 & [[Hq' Hfs]|(Hq' & Hcap & Hroom & Hfs)]); [by rewrite Hm|..].
    + apply (Hsub _ _ l); try congruence; [by rewrite Hfs| |lia]. rewrite Hp. by apply submseteq_cons.
    + rewrite Hm in *. apply (Hsub _ _ (l ++ [b])); try congruence; [len_lia| | |lia].
      * rewrite Hfs, len_app. change (len [b]) with 1. destruct (Z.eqb_spec maxIdle0 (len l + 1)); cbn [andb]; [done|]. intros ?%Hfull. lia.
      * rewrite Hp. cbn. by rewrite (assoc_L (++)), (Permutation_app_comm _ [b]).
  - destruct (put_rep (pool w) b now l n Hq) as (H1 & H2 & [[Hq' Hfs]|(Hq' & Hcap & Hroom & Hfs)]); [by rewrite Hm|..|done].
    apply (Hsub _ _ l); try congruence; [by rewrite Hfs|done|lia].
  - destruct (trim_rep (pool w) now l n Hq) as (Hq' & H1 & H2). unfold trimIdle in *. rewrite (qlen_rep _ _ _ Hq) in *.
    destruct (_ || _ || _); eapply Hsub; try congruence; try exact Hq'; try lia; try done.
    + len_lia.
    + apply submseteq_app; [done|]. apply submseteq_drop.
Qed.

Lemma opened_inv size maxIdle : maxIdle < 2 ^ 63 → lending_inv size maxIdle (opened size maxIdle).
Proof.
  intros Hm. destruct (qnew_rep (T := buffer) (Q := Q) (Z.max maxIdle 1)) as (n & _ & Hq); [lia|].
  split; [done|]. split; [done|]. exists [], n. split; [done|]. split; [rewrite len_nil; lia|]. split; [done|].
  split; [apply NoDup_nil_2|apply Forall_nil_2].
Qed.
End Pool.

(** * Properties *)



(** The janitor sheds exactly half: in every state borrowers can bring
    about, a recorded full time means that the pool is full, and a tick that
    finds it at least a minute old leaves [maxIdle]/2 buffers, the ones
    returned last, and clears it; every other tick changes nothing. *)
Theorem trim_sheds_half size maxIdle (w : lending (Q := ring buffer)) now : 0 <= maxIdle < 2 ^ 63 →
  rtc lend (opened size maxIdle) w →
  let p := pool w in
  (fullSince p ≠ 0 → Idle p = maxIdle) ∧
  if negb (fullSince p =? 0) && (minute <=? now - fullSince p) && (0 <? maxIdle)
  then Idle (trimIdle p now) = Z.quot maxIdle 2 ∧ fullSince (trimIdle p now) = 0 ∧
    ∃ l n, qrep (free p) l n ∧ qrep (free (trimIdle p now)) (drop (Z.to_nat (maxIdle - Z.quot maxIdle 2)) l) n
  else trimIdle p now = p.
Proof.
  intros Hm Hs p. assert (lending_inv size maxIdle w) as (_ & Hmi & l & n & Hq & Hl & Hfull & _).
  { eapply rtc_invariant; [apply lend_inv|done|apply opened_inv; lia]. }
  fold p in Hmi, Hq, Hfull. pose proof (trim_rep p now l n Hq) as [Hq' _].
  assert (Idle p = len l) as Hidle by apply (qlen_rep _ _ _ Hq). split; [by rewrite Hidle|].
  assert (Idle (trimIdle p now) = _) as Hi' by apply (qlen_rep _ _ _ Hq').
  assert (0 < maxIdle → 0 <= Z.quot maxIdle 2 < maxIdle) as Hhalf.
  { intros. rewrite Z.quot_div_nonneg by lia. split; [apply Z.div_pos; lia|apply Z.div_lt; lia]. }
  unfold trimIdle in *. fold (Idle p) in *. rewrite Hidle, Hmi in *.
  destruct (Z.eqb_spec (fullSince p) 0) as [E|Hne]; cbn [orb negb andb]; [done|]. specialize (Hfull Hne). rewrite Hfull in *.
  destruct (Z.ltb_spec (now - fullSince p) minute), (Z.leb_spec minute (now - fullSince p)); try lia; cbn [orb andb] in *; [done|].
  destruct (Z.ltb_spec 0 maxIdle) as [Hpos|Hz]; cbn [andb].
  - destruct (Z.leb_spec maxIdle (Z.quot maxIdle 2)); [lia|]. split; [|split; [done|by exists l, n]].
    rewrite Hi', len_drop; lia.
  - assert (maxIdle = 0) as -> by lia. done.
Qed.

Lemma trim_sheds_half_witness :
  let p := Put (NewBufferPool (Q := ring buffer) 4096 1) (mkBuffer 0 4096) 5 in
  Idle p = 1 ∧ Idle (trimIdle p (5 + minute)) = Z.quot 1 2.
Proof.
  split; [vm_compute; reflexivity|].
  assert (H : rtc lend (opened (Q := ring buffer) 4096 1)
    (mkLending (Put (NewBufferPool 4096 1) (mkBuffer 0 4096) 5) [] 1)).
  { eapply rtc_l; [apply LendNew; vm_compute; reflexivity|].
    eapply rtc_l; [apply (LendPut _ (mkBuffer 0 4096) [] 5); reflexivity|].
    match goal with |- rtc _ ?a ?b => replace a with b by (vm_compute; reflexivity) end. apply rtc_refl. }
  destruct (trim_sheds_half 4096 1 _ (5 + minute) ltac:(lia) H) as [_ [Hi _]]. exact Hi.
Defined.
