(* ===== verification/Linger.v ===== *)
(** Linger: one direction's batching of short reads ([linger.go]). Times are
    nanoseconds; the zero time is long before any other. *)

From S2P Require Import Prelude.

Definition millisecond : Z := 1000000.
Definition lingerTime : Z := 5 * millisecond.
Definition lingerGap : Z := 5 * millisecond.
Definition hintRecheck : Z := 100 * millisecond.
Definition topUpWait : Z := 200 * 1000.

(** * The mover a batcher drives *)

(** What one call of [batch] sees of it: its chunk, what the source socket
    holds when asked (-1: it cannot tell), and what a top-up of a chunk
    holding that many bytes adds, with the error it ran into. *)
Record mover (E : Type) := mkMover { chunk : Z; waiting : Z; topUp : Z → Z * option E }.
Arguments mkMover {E} _ _ _.
Arguments chunk {E} _.
Arguments waiting {E} _.
Arguments topUp {E} _ _.

(** A top-up fits in what is left of the chunk. *)
Class MoverLaws {E} (m : mover E) := {
  chunk_pos : 0 < chunk m;
  topUp_fits n : 0 <= n <= chunk m → 0 <= (topUp m n).1 <= chunk m - n;
}.

(** * The batcher *)

Record batcher := mkBatcher {
  off : bool; lingering : bool; measure : bool; full : Z; lastRead : Z; checked : Z;
}.

Definition recheck {E} (b : batcher) (m : mover E) (now : Z) : batcher :=
  if hintRecheck <=? now - checked b then mkBatcher (off b) true true (chunk m) (lastRead b) now else b.

(** Whether this read waits for more. *)
Definition lingers (b : batcher) (n now : Z) : bool :=
  negb (negb (lingering b) || (full b <=? n) || (lingerGap <=? now - lastRead b)).

(** [now] is the time of the call and [now'] the time after the top-up. *)
Definition batch {E} (b : batcher) (m : mover E) (n now now' : Z) : batcher * (Z * option E) :=
  if off b then (b, (n, None)) else
  let b := recheck b m now in
  if negb (lingers b n now)
  then (mkBatcher (off b) (lingering b) (measure b) (Z.max (full b) n) now (checked b), (n, None))
  else
    let held := if measure b then waiting m else -1 in
    let room := chunk m - n in
    let (more, err) := topUp m n in
    let '(l, f) :=
      if more =? room then (lingering b, n)
      else if more <? Z.min held room then (lingering b, n + more)
      else (if (more =? 0) && (match err with None => true | Some _ => false end) then false else lingering b,
            Z.max (full b) (n + more)) in
    (mkBatcher (off b) l false f now' (checked b), (n + more, err)).

(** The zero value. [time.Time{}] is more than [hintRecheck] before any clock
    reading. *)
Definition newBatcher (off : bool) (zero : Z) : batcher := mkBatcher off false false 0 zero zero.

(** * A direction's reads, one after the other *)

Record read (E : Type) := mkRead { r_mover : mover E; r_n : Z; r_now : Z; r_after : Z }.
Arguments mkRead {E} _ _ _ _.
Arguments r_mover {E} _.
Arguments r_n {E} _.
Arguments r_now {E} _.
Arguments r_after {E} _.

Section Linger.
Context {E : Type}.
Implicit Types (b : batcher) (m : mover E) (r : read E).

Definition batch_read b r := batch b (r_mover r) (r_n r) (r_now r) (r_after r).

(** The states a sequence of reads goes through, with what each returned. *)
Fixpoint trace b (rs : list (read E)) : list (batcher * read E * batcher * (Z * option E)) :=
  match rs with
  | [] => []
  | r :: rs => let '(b', out) := batch_read b r in (b, r, b', out) :: trace b' rs
  end.

(** The read waited for more; it did in vain if lingering is off after it. *)
Definition slept b r : bool := negb (off b) && lingers (recheck b (r_mover r) (r_now r)) (r_n r) (r_now r).
Definition in_vain b r b' : bool := slept b r && negb (lingering b').

(** One direction's reads: the mover keeps its chunk, and a read takes from 1
    byte to a whole chunk. *)
Definition read_ok (c : Z) r : Prop := MoverLaws (r_mover r) ∧ chunk (r_mover r) = c ∧ 0 < r_n r <= c.

(** The hint is the chunk at most, and the first read sets it. *)
Definition batcher_ok (c : Z) b : Prop := off b = true ∨ 0 < full b <= c.

Lemma recheck_off b m now : off (recheck b m now) = off b.
Proof. unfold recheck. by destruct (_ <=? _). Qed.

Lemma batch_off b m n now now' : off b = true → batch b m n now now' = (b, (n, None)).
Proof. unfold batch. by intros ->. Qed.

(** A read that does not wait returns at once, with what it has. *)
Lemma batch_at_once b r : slept b r = false → (batch_read b r).2 = (r_n r, None).
Proof. unfold slept, batch_read, batch. destruct (off b); [done|]. cbn [negb andb]. by intros ->. Qed.

Lemma batch_slept b r : slept b r = true →
  let b0 := recheck b (r_mover r) (r_now r) in
  let held := if measure b0 then waiting (r_mover r) else -1 in
  let room := chunk (r_mover r) - r_n r in
  let (more, err) := topUp (r_mover r) (r_n r) in
  (batch_read b r).2 = (r_n r + more, err) ∧
  full (batch_read b r).1 = (if more =? room then r_n r else if more <? Z.min held room then r_n r + more else Z.max (full b0) (r_n r + more)) ∧
  lingering (batch_read b r).1 = negb (negb (more =? room) && negb (more <? Z.min held room) && (more =? 0) && bool_decide (err = None) ) ∧
  checked (batch_read b r).1 = checked b0.
Proof.
  unfold slept, batch_read, batch. destruct (off b) eqn:Eo; [done|]. cbn [negb andb]. intros Hl. rewrite Hl. cbn [negb].
  assert (lingering (recheck b (r_mover r) (r_now r)) = true) as Hlin.
  { unfold lingers in Hl. by destruct (lingering _). }
  destruct (topUp _ _) as [more err]. rewrite Hlin.
  destruct (more =? _); [done|]. destruct (more <? _); [done|]. cbn. split; [done|]. split; [done|]. split; [|done].
  by destruct (more =? 0), err.
Qed.

Lemma recheck_checked b m now : checked b <= checked (recheck b m now).
Proof. unfold recheck. destruct (Z.leb_spec hintRecheck (now - checked b)); cbn; unfold hintRecheck, millisecond in *; lia. Qed.

Lemma batch_checked b r : checked b <= checked (batch_read b r).1.
Proof.
  unfold batch_read, batch. destruct (off b); [done|]. pose proof (recheck_checked b (r_mover r) (r_now r)).
  destruct (negb _); [done|]. destruct (topUp _ _). by repeat case_match.
Qed.

(** Lingering comes back only with a recheck, so once it is off at [c] the
    next read that waits has been rechecked a whole period later. *)
Definition off_since (c : Z) b : Prop := (lingering b = false ∧ checked b = c) ∨ c + hintRecheck <= checked b.

Lemma off_since_recheck c b m now : off_since c b → off_since c (recheck b m now).
Proof.
  unfold recheck. destruct (Z.leb_spec hintRecheck (now - checked b)); [|done]. intros [[_ Heq]|?]; right; cbn;
    unfold hintRecheck, millisecond in *; lia.
Qed.

Lemma off_since_step c b r : off_since c b →
  off_since c (batch_read b r).1 ∧ (slept b r = true → c + hintRecheck <= checked (batch_read b r).1).
Proof.
  intros Hb. pose proof (off_since_recheck c b (r_mover r) (r_now r) Hb) as Hr. destruct (slept b r) eqn:Es.
  - pose proof (batch_slept b r Es) as Hs. cbn zeta in Hs. destruct (topUp _ _) as [more err]. destruct Hs as (_ & _ & _ & Hc).
    assert (c + hintRecheck <= checked (batch_read b r).1); [|split; [by right|done]]. rewrite Hc.
    destruct Hr as [[Hl _]|?]; [|done]. unfold slept, lingers in Es. rewrite Hl in Es. by rewrite andb_false_r in Es.
  - split; [|done]. unfold slept in Es. unfold batch_read, batch. destruct (off b); [done|]. cbn [negb andb] in Es.
    rewrite Es. cbn [negb fst]. destruct Hr as [[? ?]|?]; [left|right]; done.
Qed.

Lemma off_since_trace c b rs : off_since c b →
  ∀ b1 r1 b1' o1, (b1, r1, b1', o1) ∈ trace b rs → slept b1 r1 = true → c + hintRecheck <= checked b1'.
Proof.
  revert b; induction rs as [|r rs IH]; cbn [trace]; intros b Hb b1 r1 b1' o1 Hin Hs; [by apply not_elem_of_nil in Hin|].
  destruct (off_since_step c b r Hb) as [Hb' Hnow]. destruct (batch_read b r) as [b' o].
  apply elem_of_cons in Hin as [Heq|Hin]; [injection Heq as -> -> -> ->; by apply Hnow|]. by eapply IH.
Qed.

Lemma in_vain_off b r : in_vain b r (batch_read b r).1 = true → off_since (checked (batch_read b r).1) (batch_read b r).1.
Proof. unfold in_vain. intros H. left. bool_prop. by split. Qed.

Lemma batch_ok c b r : read_ok c r → batcher_ok c b ∨ hintRecheck <= r_now r - checked b →
  batcher_ok c (batch_read b r).1 ∧ r_n r <= (batch_read b r).2.1 <= c.
Proof.
  intros (Hm & Hc & Hn) Hb. destruct (off b) eqn:Eo.
  { unfold batch_read. rewrite batch_off by done. split; [by left|]. cbn. lia. }
  assert (0 < full (recheck b (r_mover r) (r_now r)) <= c) as Hf.
  { unfold recheck. destruct (Z.leb_spec hintRecheck (r_now r - checked b)); [cbn; pose proof (chunk_pos (m := r_mover r)); lia|].
    destruct Hb as [[?|?]|?]; [congruence|done|lia]. }
  destruct (slept b r) eqn:Es.
  - pose proof (batch_slept b r Es) as Hs. cbn zeta in Hs. pose proof (topUp_fits (m := r_mover r) (r_n r)) as Hfit.
    destruct (topUp _ _) as [more err]. cbn in Hfit. destruct Hs as (-> & Hfull & _). cbn. split; [|lia]. right. rewrite Hfull.
    destruct (_ =? _); [lia|]. destruct (_ <? _); lia.
  - rewrite batch_at_once by done. split; [|cbn; lia]. right. unfold slept in Es. rewrite Eo in Es. cbn [negb andb] in Es.
    unfold batch_read, batch. rewrite Eo, Es. cbn. lia.
Qed.

Lemma trace_ok c b rs : Forall (read_ok c) rs → (batcher_ok c b ∨ (∀ r, head rs = Some r → hintRecheck <= r_now r - checked b)) →
  ∀ b1 r1 b1' o1, (b1, r1, b1', o1) ∈ trace b rs →
    r_n r1 <= o1.1 <= c ∧ (slept b1 r1 = false → o1 = (r_n r1, None)) ∧ (off b1 = false → 0 < full b1' <= c).
Proof.
  revert b; induction rs as [|r rs IH]; cbn [trace]; intros b Hall Hb b1 r1 b1' o1 Hin; [by apply not_elem_of_nil in Hin|].
  apply Forall_cons in Hall as [Hr Hall]. pose proof (batch_at_once b r) as Ha.
  destruct (batch_ok c b r Hr) as [Hok Hout]; [destruct Hb as [?|Hb]; [by left|right; by apply Hb]|].
  assert (off (batch_read b r).1 = off b) as Hoff.
  { unfold batch_read, batch. destruct (off b) eqn:Eo; [done|]. rewrite recheck_off, Eo.
    destruct (negb _); [done|]. destruct (topUp _ _). by repeat case_match. }
  destruct (batch_read b r) as [b' o]. cbn in *. apply elem_of_cons in Hin as [Heq|Hin].
  - injection Heq as -> -> -> ->. split; [done|]. split; [done|]. intros. destruct Hok; [congruence|done].
  - eapply IH; [done|by left|done].
Qed.
End Linger.

(** * Properties *)

(** From the first read of a direction on, batching never loses, invents
    or overfills: each call returns at least the bytes read and at most a
    chunk; a read that does not wait is returned as it is; the size hint stays
    between 1 byte and a chunk, so a full read never waits. *)
Theorem batching_conserves {E} (c : Z) off0 (zero : Z) (rs : list (read E)) : Forall (read_ok c) rs →
  (∀ r, head rs = Some r → hintRecheck <= r_now r - zero) →
  ∀ b r b' o, (b, r, b', o) ∈ trace (newBatcher off0 zero) rs →
    r_n r <= o.1 <= c ∧ (slept b r = false → o = (r_n r, None)) ∧ (off b = false → 0 < full b' <= c).
Proof. intros Hall Hz. apply trace_ok; [done|]. right. apply Hz. Qed.

(** A direction waits in vain at most once per recheck period: of two
    reads that slept and then turned lingering off, the second was decided by
    a recheck at least [hintRecheck] after the first one's. *)
Theorem waits_in_vain_rarely {E} (b0 : batcher) (rs : list (read E)) i j bi ri bi' oi bj rj bj' oj : (i < j)%nat →
  trace b0 rs !! i = Some (bi, ri, bi', oi) → trace b0 rs !! j = Some (bj, rj, bj', oj) →
  in_vain bi ri bi' = true → in_vain bj rj bj' = true → checked bi' + hintRecheck <= checked bj'.
Proof.
  revert b0 i j; induction rs as [|r rs IH]; cbn [trace]; intros b0 i j Hij Hi Hj Hvi Hvj; [done|].
  pose proof (in_vain_off b0 r) as Hv. destruct (batch_read b0 r) as [b' o] eqn:Eb. destruct j as [|j]; [lia|]. cbn in Hj.
  destruct i as [|i]; cbn in Hi; [|by eapply (IH _ i j); [lia|..]].
  injection Hi as <- <- <- <-. apply list_elem_of_lookup_2 in Hj. eapply off_since_trace; [by apply Hv|done|].
  unfold in_vain in Hvj. by bool_prop.
Qed.

(** A socket that never has more to give, and two reads from it 150 ms apart. *)
Definition silent : mover Z := mkMover 4096 0 (fun _ => (0, None)).
#[export] Instance silent_laws : MoverLaws silent.
Proof. split; cbn; lia. Qed.

Definition two_reads : list (read Z) :=
  [mkRead silent 10 hintRecheck (hintRecheck + lingerTime);
   mkRead silent 10 (hintRecheck + millisecond) (hintRecheck + lingerTime);
   mkRead silent 10 (hintRecheck + 2 * millisecond) (hintRecheck + lingerTime);
   mkRead silent 10 (2 * hintRecheck + millisecond) (2 * hintRecheck + lingerTime);
   mkRead silent 10 (2 * hintRecheck + lingerTime) (2 * hintRecheck + 2 * lingerTime)].

Lemma batching_conserves_witness : ∃ b' : batcher, (newBatcher false 0, mkRead silent 10 hintRecheck (hintRecheck + lingerTime), b', (10, None))
  ∈ trace (newBatcher false 0) two_reads ∧ 0 < full b' <= 4096.
Proof.
  eexists. assert (H : (newBatcher false 0, mkRead silent 10 hintRecheck (hintRecheck + lingerTime),
    mkBatcher false true true 4096 hintRecheck hintRecheck, (10, None)) ∈ trace (newBatcher false 0) two_reads) by (vm_compute; left).
  split; [exact H|]. apply (batching_conserves 4096 false 0 two_reads) in H as (_ & _ & H); [by apply H| |].
  - unfold two_reads. repeat (apply Forall_cons; split; [split; [apply silent_laws|cbn; lia]|]). apply Forall_nil_2.
  - intros r [= <-]. cbn. lia.
Defined.

Lemma waits_in_vain_rarely_witness : ∃ bi ri bi' oi bj rj bj' oj,
  trace (newBatcher false 0) two_reads !! 1%nat = Some (bi, ri, bi', oi) ∧
  trace (newBatcher false 0) two_reads !! 4%nat = Some (bj, rj, bj', oj) ∧
  in_vain bi ri bi' = true ∧ in_vain bj rj bj' = true ∧ checked bi' + hintRecheck <= checked bj'.
Proof.
  do 8 eexists. split; [reflexivity|]. split; [reflexivity|]. split; [vm_compute; reflexivity|]. split; [vm_compute; reflexivity|].
  eapply (waits_in_vain_rarely (newBatcher false 0) two_reads 1 4); [lia|reflexivity|reflexivity|vm_compute; reflexivity|vm_compute; reflexivity].
Defined.
