(* ===== verification/Relay.v ===== *)
(** Relay: the two copy directions of a connection ([proxy.go], from [relay]
    on): what one direction delivers, and how the two of them and everybody
    else who may end the connection agree on one reason. *)

From S2P Require Import Prelude Linger.

Inductive direction := cToS | sToC.
#[export] Instance direction_eq_dec : EqDecision direction.
Proof. solve_decision. Defined.

(** [1-d] *)
Definition opposite (d : direction) : direction := match d with cToS => sToC | sToC => cToS end.

(** What a read or a write may fail with, as far as [pump] tells errors apart. *)
Inductive ioerr := EOF | NoSplice | Timeout | UnexpectedEOF | IOError.
#[export] Instance ioerr_eq_dec : EqDecision ioerr.
Proof. solve_decision. Defined.

(** Why a connection, or one direction of it, ended: the texts of the log. *)
Inductive why :=
| ClosedLabel (d : direction)       (* client closed / upstream closed *)
| StoppedReading (d : direction)    (* upstream / client stopped reading *)
| WriteTimedOut (d : direction)     (* %s error: write timed out *)
| IdleTimeout                       (* idle timeout (...); closed by proxy *)
| MidRecord (d : direction)         (* in the middle of a TLS record ... *)
| DirError (d : direction)          (* %s error: %v *)
| HalfClose (d : why)               (* ..., other direction still open after half_close_timeout *)
| Stopped.                          (* stopped from the console *)

(** How [pump] returns: it ends its direction, ends the connection, or was
    woken by who did. *)
Inductive pump_end :=
| EndDirection (how : why) (forward : bool)
| CloseAll (reason : why)
| Woken.

(** * One direction

    One turn of the loop, as the sockets, the limiters and the clock answer
    it: the bytes read and the error; what a top-up would add; whether the
    wait for the limits was allowed to end; how much of the chunk the other
    side took; and, once a read failed, whether the connection is closed and
    the idle time used up. *)
Record turn := mkTurn {
  t_read : bytes; t_err : option ioerr;
  t_chunk : Z; t_waiting : Z; t_more : bytes; t_more_err : option ioerr;
  t_now : Z; t_after : Z;
  t_granted : bool;
  t_write : Z → Z * option ioerr;
  t_closed : bool; t_idle_over : bool;
}.

Record pumping := mkPumping {
  spliced : bool;        (* m is a splice mover *)
  batching : batcher;
  delivered : bytes;     (* what the other side took *)
  counted : Z;           (* BytesUp or BytesDown: of the connection, host, rule, listener and total alike *)
  taken : bytes;         (* what was read from this side *)
}.

Section Pump.
Context (d : direction) (limited : bool).

(** The chunk of one turn: read, and topped up if the batcher says so. *)
Definition take_chunk (b : batcher) (t : turn) : batcher * bytes * option ioerr :=
  let n := len (t_read t) in
  if (0 <? n) && (match t_err t with None => true | Some _ => false end) then
    let m := mkMover (t_chunk t) (t_waiting t) (fun _ => (len (t_more t), t_more_err t)) in
    let '(b', (held, err)) := batch b m n (t_now t) (t_after t) in
    (b', take (Z.to_nat held) (t_read t ++ t_more t), err)
  else (b, t_read t, t_err t).

(** How the direction ends after [read] failed with [err]; [None] goes on. *)
Definition read_failed (t : turn) (err : ioerr) : option pump_end :=
  match err with
  | EOF => Some (EndDirection (ClosedLabel d) true)
  | _ =>
      if t_closed t then Some Woken
      else match err with
           | Timeout => if t_idle_over t then Some (CloseAll IdleTimeout) else None
           | UnexpectedEOF => Some (CloseAll (MidRecord d))
           | _ => Some (CloseAll (DirError d))
           end
  end.

Definition write_failed (werr : ioerr) : pump_end :=
  match werr with
  | Timeout => CloseAll (WriteTimedOut d)
  | _ => EndDirection (StoppedReading d) false
  end.

(** One turn: the new state, and how it ends if it does. *)
Definition pump_turn (s : pumping) (t : turn) : pumping * option pump_end :=
  if bool_decide (t_err t = Some NoSplice) then
    (mkPumping false (batching s) (delivered s) (counted s) (taken s), None)
  else
    let '(b, data, err) := take_chunk (batching s) t in
    let s1 := mkPumping (spliced s) b (delivered s) (counted s) (taken s ++ data) in
    let after s2 := (s2, match err with None => None | Some e => read_failed t e end) in
    if 0 <? len data then
      if limited && negb (t_granted t) then (s1, Some Woken)
      else
        let (w, werr) := t_write t (len data) in
        let s2 := mkPumping (spliced s) b (delivered s ++ take (Z.to_nat w) data) (counted s + Z.max 0 w) (taken s ++ data) in
        match werr with
        | Some werr => (s2, Some (write_failed werr))
        | None => if w =? len data then after s2 else (s2, Some (write_failed IOError))   (* io.ErrShortWrite *)
        end
    else after s1.

(** [None]: the script is over and the direction still runs. *)
Fixpoint pump (s : pumping) (ts : list turn) : pumping * option pump_end :=
  match ts with
  | [] => (s, None)
  | t :: ts => match pump_turn s t with (s', None) => pump s' ts | r => r end
  end.

(** What a socket promises: [write] takes some of the bytes it is given. *)
Definition turn_ok (t : turn) : Prop := ∀ n, 0 <= n → 0 <= (t_write t n).1 <= n.
End Pump.

Definition opening (splice : bool) (b : batcher) : pumping := mkPumping splice b [] 0 [].

(** Splitting what was taken at what was delivered. *)
Definition conserved (s : pumping) (rest : bytes) : Prop :=
  taken s = delivered s ++ rest ∧ counted s = len (delivered s).

(** Nothing is pending while the direction goes on, and when it ends with a
    half-close. *)
Definition clean (e : option pump_end) : Prop := e = None ∨ ∃ how, e = Some (EndDirection how true).

Lemma pump_turn_conserved d limited s t : turn_ok t → conserved s [] →
  let (s', e) := pump_turn d limited s t in ∃ rest, conserved s' rest ∧ (clean e → rest = []).
Proof.
  intros Hok [Ht Hc]. rewrite app_nil_r in Ht. unfold pump_turn.
  destruct (bool_decide _). { exists []. unfold conserved. cbn. by rewrite app_nil_r. }
  destruct (take_chunk (batching s) t) as [[b data] err]. destruct (Z.ltb_spec 0 (len data)) as [Hpos|Hz].
  - destruct (_ && _).
    { exists data. split; [|by intros [?|[? ?]]]. unfold conserved. cbn. by rewrite Ht. }
    specialize (Hok (len data) ltac:(lia)). destruct (t_write t (len data)) as [w werr]. cbn [fst] in Hok.
    set (s2 := mkPumping _ _ _ _ _).
    assert (conserved s2 (drop (Z.to_nat w) data)) as Hcons.
    { split; cbn; [by rewrite <- app_assoc, take_drop, Ht|]. rewrite len_app, len_take by lia. lia. }
    assert (∀ e, ∃ rest, conserved s2 rest ∧ (clean (Some (write_failed d e)) → rest = [])) as Hfail.
    { intros e. eexists. split; [exact Hcons|]. by destruct e; intros [?|[? ?]]. }
    destruct werr as [e|]; [apply Hfail|]. destruct (Z.eqb_spec w (len data)) as [E|]; [|apply Hfail].
    eexists. split; [exact Hcons|]. intros _. rewrite E. unfold len. by rewrite Nat2Z.id, drop_all.
  - assert (data = []) as -> by (apply len_nil_inv; pose proof (len_nonneg data); lia).
    exists []. split; [|done]. unfold conserved. cbn. by rewrite !app_nil_r.
Qed.

Lemma pump_conserved d limited s ts : Forall turn_ok ts → conserved s [] →
  ∃ rest, conserved (pump d limited s ts).1 rest ∧ (clean (pump d limited s ts).2 → rest = []).
Proof.
  intros Hall. revert s; induction Hall as [|t ts Ht Hall IH]; intros s Hs; cbn [pump]; [by exists []|].
  pose proof (pump_turn_conserved d limited s t Ht Hs) as Hturn. destruct (pump_turn d limited s t) as [s' [e|]]; [exact Hturn|].
  destruct Hturn as (rest & Hs' & Hrest). apply IH. rewrite Hrest in Hs'; [done|by left].
Qed.

(** ** What a turn took is what arrived *)

(** The bytes the source gave over a script, were every top-up asked for and
    none dropped: what is taken is made of them. *)
Lemma take_chunk_prefix b t : (take_chunk b t).1.2 `prefix_of` t_read t ++ t_more t.
Proof.
  unfold take_chunk. destruct (_ && _); [|by apply prefix_app_r].
  destruct (batch _ _ _ _ _) as [b' [held err]]. cbn. exists (drop (Z.to_nat held) (t_read t ++ t_more t)). by rewrite take_drop.
Qed.

(** ** The end of one direction *)

Lemma read_failed_inv d t e how : read_failed d t e = Some (EndDirection how true) → e = EOF ∧ how = ClosedLabel d.
Proof. destruct e; cbn; [by injection 1 as <-|..]; destruct (t_closed t); try done; by destruct (t_idle_over t). Qed.

Lemma write_failed_inv d e how : write_failed d e ≠ EndDirection how true.
Proof. by destruct e. Qed.

(** Only an end of file is forwarded. *)
Lemma pump_forward d limited s ts how : (pump d limited s ts).2 = Some (EndDirection how true) → how = ClosedLabel d.
Proof.
  revert s; induction ts as [|t ts IH]; intros s; cbn [pump]; [done|].
  destruct (pump_turn d limited s t) as [s' [e|]] eqn:E; [|apply IH]. cbn. injection 1 as ->. revert E. unfold pump_turn.
  destruct (bool_decide _); [done|]. destruct (take_chunk _ _) as [[b data] err].
  assert (∀ s2 e', (s2, match e' with None => None | Some e0 => read_failed d t e0 end) = (s', Some (EndDirection how true)) → how = ClosedLabel d) as Hr.
  { intros s2 [e0|]; [|done]. injection 1 as _ Hr. by apply read_failed_inv in Hr as [_ ?]. }
  destruct (0 <? len data); [|apply Hr]. destruct (limited && _); [done|]. destruct (t_write t _) as [w [werr|]].
  - intros [= _ Hw]. by apply write_failed_inv in Hw.
  - destruct (w =? len data); [apply Hr|]. intros [= _ Hw].
Qed.

(** * How a connection closes

    The part of [ConnState] the closing uses, under [c.mu] except for the two
    direction states, and what was done to the sockets: the half-closes sent
    on, and everything shut. *)

Inductive reason := ByAll (r : why) | Mutual (first how : why) | BothEnded (how : why).

Record closing := mkClosing {
  closed : bool; closeReason : option reason; firstClosed : option why; timer : option why;
  half : direction → bool;
  fins : list direction;
  cut : bool;            (* r.done closed, both sockets closed *)
}.

Definition set_half (h : direction → bool) (d : direction) : direction → bool := fun d' => bool_decide (d' = d) || h d'.

Definition relay_start : closing := mkClosing false None None None (fun _ => false) [] false.

(** [r.dirState(d).Store(dirHalfClosed)] *)
Definition store_half (c : closing) (d : direction) : closing :=
  mkClosing (closed c) (closeReason c) (firstClosed c) (timer c) (set_half (half c) d) (fins c) (cut c).

(** [endDirection] between [c.mu.Lock] and its [Unlock]; [limit] is
    [half_close_timeout > 0]. *)
Definition end_locked (limit : bool) (c : closing) (d : direction) (how : why) : closing :=
  if closed c then c
  else if half c (opposite d) then
    mkClosing true (Some (match firstClosed c with Some f => Mutual f how | None => BothEnded how end))
      (firstClosed c) (timer c) (half c) (fins c) (cut c)
  else mkClosing (closed c) (closeReason c) (Some how) (if limit then Some how else timer c) (half c) (fins c) (cut c).

(** The deferred [to.CloseWrite()]. *)
Definition close_write (c : closing) (d : direction) : closing :=
  mkClosing (closed c) (closeReason c) (firstClosed c) (timer c) (half c) (d :: fins c) (cut c).

(** [closeAll]'s locked part, and the rest. *)
Definition close_locked (c : closing) (r : why) : closing :=
  if closed c then c else mkClosing true (Some (ByAll r)) (firstClosed c) (timer c) (half c) (fins c) (cut c).
Definition close_sockets (c : closing) : closing :=
  mkClosing (closed c) (closeReason c) (firstClosed c) (timer c) (half c) (fins c) true.

Definition finish (c : closing) : closing :=
  mkClosing true (closeReason c) (firstClosed c) None (half c) (fins c) (cut c).

(** Where a pump is once it stopped copying. *)
Inductive pump_pc :=
| Copying
| EndStore (how : why) (forward : bool)
| EndLock (how : why) (forward : bool)
| EndFin
| CloseLock (r : why)
| CloseCut
| Returned.
#[export] Instance why_eq_dec : EqDecision why.
Proof. solve_decision. Defined.
#[export] Instance pump_pc_eq_dec : EqDecision pump_pc.
Proof. solve_decision. Defined.

(** The two pumps and, beside them, any number of callers of [closeAll] (the
    console, the half-close timer) between its two parts. *)
Record relaying := mkRelaying { conn : closing; at_pc : direction → pump_pc; killers : nat }.

Definition move (f : direction → pump_pc) (d : direction) (p : pump_pc) : direction → pump_pc :=
  fun d' => if decide (d' = d) then p else f d'.

Definition pc_of (e : pump_end) : pump_pc :=
  match e with EndDirection how fwd => EndStore how fwd | CloseAll r => CloseLock r | Woken => Returned end.

Section Closing.
Context (limit : bool).

Inductive rstep : relation relaying :=
| PumpEnds w d e : at_pc w d = Copying →
    (* woken: the read saw c.closed, or the wait saw r.done *)
    (e = Woken → closed (conn w) = true ∨ cut (conn w) = true) →
    rstep w (mkRelaying (conn w) (move (at_pc w) d (pc_of e)) (killers w))
| DoStore w d how fwd : at_pc w d = EndStore how fwd →
    rstep w (mkRelaying (store_half (conn w) d) (move (at_pc w) d (EndLock how fwd)) (killers w))
| DoEnd w d how fwd : at_pc w d = EndLock how fwd →
    rstep w (mkRelaying (end_locked limit (conn w) d how) (move (at_pc w) d (if fwd then EndFin else Returned)) (killers w))
| DoFin w d : at_pc w d = EndFin →
    rstep w (mkRelaying (close_write (conn w) d) (move (at_pc w) d Returned) (killers w))
| DoClose w d r : at_pc w d = CloseLock r →
    rstep w (mkRelaying (close_locked (conn w) r) (move (at_pc w) d CloseCut) (killers w))
| DoCut w d : at_pc w d = CloseCut →
    rstep w (mkRelaying (close_sockets (conn w)) (move (at_pc w) d Returned) (killers w))
| KillLock w r : (* c.kill, or the timer for the end it was armed with *)
    (r = Stopped ∨ ∃ how, timer (conn w) = Some how ∧ r = HalfClose how) →
    rstep w (mkRelaying (close_locked (conn w) r) (at_pc w) (S (killers w)))
| KillCut w n : killers w = S n →
    rstep w (mkRelaying (close_sockets (conn w)) (at_pc w) n).

Definition relaying_start : relaying := mkRelaying relay_start (fun _ => Copying) 0.

(** The pump is past its say on how the connection ended. *)
Definition settled (p : pump_pc) : bool :=
  match p with EndFin | CloseCut | Returned => true | _ => false end.

Record closing_inv (w : relaying) : Prop := {
  c_reason : closed (conn w) = true ↔ closeReason (conn w) ≠ None;
  c_cut : cut (conn w) = true → closed (conn w) = true;
  c_killers : killers w ≠ 0%nat → closed (conn w) = true;
  c_lock d how fwd : at_pc w d = EndLock how fwd → half (conn w) d = true;
  c_fin d : at_pc w d = EndFin → half (conn w) d = true;
  c_settled d : settled (at_pc w d) = true → closed (conn w) = true ∨ (half (conn w) d = true ∧ ∃ f, firstClosed (conn w) = Some f);
  c_both d : settled (at_pc w d) = true → settled (at_pc w (opposite d)) = true → closed (conn w) = true;
  c_cutting d : at_pc w d = CloseCut → closed (conn w) = true;
  c_fins d : d ∈ fins (conn w) → half (conn w) d = true ∧ (closed (conn w) = true ∨ is_Some (firstClosed (conn w)));
  c_mutual : match closeReason (conn w) with
             | Some (Mutual f h) => firstClosed (conn w) = Some f ∧ ∀ d, half (conn w) d = true
             | Some (BothEnded h) => ∀ d, half (conn w) d = true
             | _ => True
             end;
}.

Lemma closing_inv_start : closing_inv relaying_start.
Proof. split; cbn; try done. intros d H. by apply not_elem_of_nil in H. Qed.

(** A connection's record only grows: what is closed stays closed with its
    reason, and what ended stays ended. *)
Definition grows (c c' : closing) : Prop :=
  (closed c = true → closed c' = true ∧ closeReason c' = closeReason c ∧ firstClosed c' = firstClosed c) ∧
  (∀ d, half c d = true → half c' d = true) ∧ (∀ f, firstClosed c = Some f → ∃ f', firstClosed c' = Some f').

Lemma set_half_mono h d d' : h d' = true → set_half h d d' = true.
Proof. unfold set_half. intros ->. by rewrite orb_true_r. Qed.
Lemma set_half_eq h d : set_half h d d = true.
Proof. unfold set_half. by rewrite bool_decide_eq_true_2. Qed.

Lemma grows_refl c : grows c c.
Proof. unfold grows. naive_solver. Qed.
Lemma grows_store c d : grows c (store_half c d).
Proof. split; [done|]. split; [|intros f Hf; by exists f]. intros d'. apply set_half_mono. Qed.
Lemma grows_end c d how : grows c (end_locked limit c d how).
Proof.
  unfold end_locked, grows. destruct (closed c) eqn:E; [naive_solver|]. destruct (half c _); cbn; (split; [done|]); (split; [done|]); naive_solver.
Qed.
Lemma grows_fin c d : grows c (close_write c d).
Proof. unfold grows. cbn. naive_solver. Qed.
Lemma grows_close c r : grows c (close_locked c r).
Proof. unfold close_locked, grows. destruct (closed c) eqn:E; cbn; naive_solver. Qed.
Lemma grows_cut c : grows c (close_sockets c).
Proof. unfold grows. cbn. naive_solver. Qed.

Lemma move_eq f d p : move f d p d = p.
Proof. unfold move. by rewrite decide_True. Qed.
Lemma move_ne f d p d' : d' ≠ d → move f d p d' = f d'.
Proof. intros. unfold move. by rewrite decide_False. Qed.
Lemma opposite_ne d : opposite d ≠ d.
Proof. by destruct d. Qed.
Lemma opposite_opposite d : opposite (opposite d) = d.
Proof. by destruct d. Qed.
Lemma opposite_only d d' : d' ≠ d → d' = opposite d.
Proof. by destruct d, d'. Qed.

(** What every step shares: pump [d] (if it is the one moving) goes to [p], and
    the record grows; what is left to show is what [p] promises. *)
Lemma closing_move w c' d p pcs k : pcs d = p → (∀ d', d' ≠ d → pcs d' = at_pc w d') → closing_inv w → grows (conn w) c' →
  (closed c' = true ↔ closeReason c' ≠ None) → (cut c' = true → closed c' = true) → (k ≠ 0%nat → closed c' = true) →
  (∀ how fwd, p = EndLock how fwd → half c' d = true) → (p = EndFin → half c' d = true) → (p = CloseCut → closed c' = true) →
  (settled p = true → closed c' = true ∨ ((half c' d = true ∧ ∃ f, firstClosed c' = Some f) ∧
     (settled (at_pc w (opposite d)) = false))) →
  (∀ d', d' ∈ fins c' → d' ∈ fins (conn w) ∨ half c' d' = true ∧ (closed c' = true ∨ is_Some (firstClosed c'))) →
  match closeReason c' with
  | Some (Mutual f h) => firstClosed c' = Some f ∧ ∀ d, half c' d = true
  | Some (BothEnded h) => ∀ d, half c' d = true
  | _ => True
  end →
  closing_inv (mkRelaying c' pcs k).
Proof.
  intros Hfe Hfn [H1 H2 H3 H4 H5 H6 H7 H8 H9 H10] (Hg1 & Hg2 & Hg3) Hr Hcut Hk Hp1 Hp2 Hp3 Hp4 Hf Hm.
  split; cbn [conn at_pc killers]; try done.
  - intros d' how fwd. destruct (decide (d' = d)) as [->|Hne]; [rewrite Hfe; apply Hp1|].
    rewrite Hfn by done. intros ?%H4. by apply Hg2.
  - intros d'. destruct (decide (d' = d)) as [->|Hne]; [by rewrite Hfe|]. rewrite Hfn by done. intros ?%H5. by apply Hg2.
  - intros d'. destruct (decide (d' = d)) as [->|Hne].
    + rewrite Hfe. intros [?|[? _]]%Hp4; auto.
    + rewrite Hfn by done. intros [?|[? [f Hfc]]]%H6; [left; by apply Hg1|]. right. split; [by apply Hg2|by eapply Hg3].
  - assert (settled p = true → settled (at_pc w (opposite d)) = true → closed c' = true) as Hboth.
    { intros [?|[_ E]]%Hp4 ?; [done|congruence]. }
    intros d'. destruct (decide (d' = d)) as [->|Hne].
    + rewrite Hfe, Hfn by apply opposite_ne. apply Hboth.
    + rewrite Hfn by done. apply opposite_only in Hne as ->. rewrite opposite_opposite, Hfe. auto.
  - intros d'. destruct (decide (d' = d)) as [->|Hne]; [by rewrite Hfe|]. rewrite Hfn by done. intros ?%H8. by apply Hg1.
  - intros d' [[Hh [Hc|[f Hfc]]]%H9|?]%Hf; [| |done].
    + split; [by apply Hg2|]. left. by apply Hg1.
    + split; [by apply Hg2|]. right. destruct (Hg3 _ Hfc) as [f' ->]. done.
Qed.

Lemma closing_close c r : (closed c = true ↔ closeReason c ≠ None) →
  closed (close_locked c r) = true ∧ closeReason (close_locked c r) ≠ None.
Proof. unfold close_locked. destruct (closed c) eqn:E; cbn; [rewrite E; tauto|done]. Qed.

Lemma closing_step w w' : closing_inv w → rstep w w' → closing_inv w'.
Proof.
  intros Hinv Hst. revert Hinv. destruct Hst as [w d e Hat Hw|w d how fwd Hat|w d how fwd Hat|w d Hat|w d r Hat|w d Hat|w r Hr|w n Hk];
    intros Hinv; pose proof Hinv as [H1 H2 H3 H4 H5 H6 H7 H8 H9 H10].
  - apply (closing_move w _ d (pc_of e)); try done; auto using move_eq, move_ne, grows_refl; try (by destruct e).
    destruct e; cbn; try done. intros _. left. destruct Hw; auto.
  - apply (closing_move w _ d (EndLock how fwd)); try done; auto using move_eq, move_ne, grows_store.
    + cbn. by rewrite set_half_eq.
    + cbn. destruct (closeReason _) as [[]|]; try done; [destruct H10; split; [done|]|]; auto using set_half_mono.
  - apply (closing_move w _ d (if fwd then EndFin else Returned)); auto using move_eq, move_ne, grows_end.
    + unfold end_locked. destruct (closed (conn w)) eqn:E; rewrite ?E in H1; [by rewrite E|]. destruct (half _ _); cbn; done.
    + unfold end_locked. intros Hc. assert (closed (conn w) = true) as E by (apply H2; revert Hc; destruct (closed (conn w)); [done|by destruct (half _ _)]).
      by rewrite E.
    + intros E%H3. unfold end_locked. by rewrite E.
    + by destruct fwd.
    + intros _. apply grows_end. by eapply H4.
    + by destruct fwd.
    + intros _. unfold end_locked. destruct (closed (conn w)) eqn:E; [by left|].
      destruct (half (conn w) (opposite d)) eqn:Eo; [by left|]. right. cbn. split; [split; [by eapply H4|by eexists]|].
      destruct (settled _) eqn:Es; [|done]. destruct (H6 _ Es) as [?|[? _]]; congruence.
    + intros d' Hd'. left. revert Hd'. unfold end_locked. destruct (closed _); [done|]. by destruct (half _ _).
    + unfold end_locked. destruct (closed (conn w)) eqn:E; [done|].
      assert (half (conn w) (opposite d) = true → ∀ d', half (conn w) d' = true) as Hall.
      { intros Ho d'. destruct (decide (d' = d)) as [->|Hne]; [by eapply H4|]. by rewrite (opposite_only _ _ Hne). }
      destruct (half _ _) eqn:Eo; cbn.
      * destruct (firstClosed _); auto.
      * destruct (closeReason (conn w)) eqn:Er; [|done]. by discriminate (proj2 H1 ltac:(done)).
  - apply (closing_move w _ d Returned); try done; auto using move_eq, move_ne, grows_fin.
    + intros _. destruct (settled (at_pc w (opposite d))) eqn:Es.
      * left. apply (H7 d); [by rewrite Hat|done].
      * destruct (H6 d) as [?|?]; [by rewrite Hat|by left|by right; split].
    + intros d' [->|?]%elem_of_cons; [|by left]. right. cbn. split; [by apply H5|].
      destruct (H6 d) as [?|[_ [f ->]]]; [by rewrite Hat|by left|by right].
  - pose proof (closing_close (conn w) r H1) as [Hc Hr]. apply (closing_move w _ d CloseCut); try done; auto using move_eq, move_ne, grows_close.
    + unfold close_locked. destruct (closed _); auto.
    + unfold close_locked. by destruct (closed _).
  - apply (closing_move w _ d Returned); try done; eauto using move_eq, move_ne, grows_cut.
  - pose proof (closing_close (conn w) r H1) as [Hc Hr']. apply (closing_move w _ cToS (at_pc w cToS)); try done; auto using grows_close.
    + intros how fwd E. apply grows_close. by eapply H4.
    + intros E. apply grows_close. by eapply H5.
    + unfold close_locked. destruct (closed _); auto.
    + unfold close_locked. by destruct (closed _).
  - assert (closed (conn w) = true) as Hc by (apply H3; by rewrite Hk).
    apply (closing_move w _ cToS (at_pc w cToS)); try done; auto using grows_cut.
    + intros how fwd E. by eapply H4.
    + intros E. by eapply H5.
Qed.

Lemma rstep_grows w w' : rstep w w' → grows (conn w) (conn w').
Proof.
  destruct 1; cbn; auto using grows_refl, grows_store, grows_end, grows_fin, grows_close, grows_cut.
Qed.

Lemma closed_for_good w w' : rtc rstep w w' → closed (conn w) = true →
  closed (conn w') = true ∧ closeReason (conn w') = closeReason (conn w).
Proof.
  induction 1 as [w|w w1 w' Hs _ IH]; [done|]. intros Hc. destruct (proj1 (rstep_grows _ _ Hs) Hc) as (Hc1 & Hr1 & _).
  destruct (IH Hc1) as [? ?]. split; [done|]. congruence.
Qed.
End Closing.

(** * Properties *)


Definition w_turn (data : bytes) (err : option ioerr) : turn :=
  mkTurn data err 4096 0 [] None 0 0 true (fun n => (n, None)) false false.


(** However the two pumps, the console and the timer interleave, the
    first reason a connection is given stays its reason; once both pumps have
    returned it is closed and has one, which [finish] keeps; a reason saying
    that both directions ended is only given when both did, naming the end
    recorded first; and a half-close is only sent on once the end it passes on
    is on record. *)
Theorem relay_reason limit w : rtc (rstep limit) relaying_start w →
  (∀ w', rtc (rstep limit) w w' → closed (conn w) = true →
     closed (conn w') = true ∧ closeReason (conn w') = closeReason (conn w)) ∧
  (at_pc w cToS = Returned → at_pc w sToC = Returned →
     closed (conn w) = true ∧ ∃ r, closeReason (finish (conn w)) = Some r) ∧
  match closeReason (conn w) with
  | Some (Mutual f _) => firstClosed (conn w) = Some f ∧ ∀ d, half (conn w) d = true
  | Some (BothEnded _) => ∀ d, half (conn w) d = true
  | _ => True
  end ∧
  ∀ d, d ∈ fins (conn w) → half (conn w) d = true ∧ (closed (conn w) = true ∨ is_Some (firstClosed (conn w))).
Proof.
  intros Hs. assert (closing_inv w) as Hinv.
  { eapply rtc_invariant; [apply closing_step|done|apply closing_inv_start]. }
  split; [intros w'; apply closed_for_good|]. split; [|split; [apply (c_mutual _ Hinv)|apply (c_fins _ Hinv)]].
  intros H1 H2. assert (closed (conn w) = true) as Hc.
  { apply (c_both _ Hinv cToS); cbn; by rewrite ?H1, ?H2. }
  split; [done|]. apply (c_reason _ Hinv) in Hc. cbn. destruct (closeReason (conn w)) as [r|]; [by exists r|done].
Qed.

Lemma relay_reason_witness : ∃ w, rtc (rstep true) relaying_start w ∧
  at_pc w cToS = Returned ∧ at_pc w sToC = Returned ∧ ∃ r, closeReason (finish (conn w)) = Some r.
Proof.
  assert (∃ w, rtc (rstep true) relaying_start w ∧ at_pc w cToS = Returned ∧ at_pc w sToC = Returned) as (w & H & H1 & H2).
  { eexists. split; [|split].
    - eapply rtc_l; [apply (PumpEnds _ _ cToS (EndDirection (ClosedLabel cToS) true)); [reflexivity|done]|].
      eapply rtc_l; [eapply (DoStore _ _ cToS); reflexivity|].
      eapply rtc_l; [apply (PumpEnds _ _ sToC (EndDirection (ClosedLabel sToC) true)); [reflexivity|done]|].
      eapply rtc_l; [eapply (DoStore _ _ sToC); reflexivity|].
      eapply rtc_l; [eapply (DoEnd _ _ sToC); reflexivity|]. eapply rtc_l; [eapply (DoFin _ _ sToC); reflexivity|].
      eapply rtc_l; [eapply (DoEnd _ _ cToS); reflexivity|]. eapply rtc_l; [eapply (DoFin _ _ cToS); reflexivity|]. apply rtc_refl.
    - reflexivity.
    - reflexivity. }
  exists w. split; [exact H|]. split; [exact H1|]. split; [exact H2|]. exact (proj2 (proj1 (proj2 (relay_reason true w H)) H1 H2)).
Defined.
