(* ===== verification/CertNames.v ===== *)
(** CertNames: the names certificates are made for ([localca.go], [config.go]):
    host names, the key and the folder a certificate with IP addresses is kept
    under, and which name a [cert = local-ca] rule serves a client. *)

From S2P Require Import Prelude GoStr NetIP NetIPText Sni Rules.

(** * Host names *)

(** [validDomain] *)
Definition validDomain (d : bytes) : bool :=
  negb (bool_decide (d = []) || (253 <? len d) || negb (contains d (ch ".")) || has_prefix d (lit ".") ||
        has_suffix d (lit ".") || contains_str d (lit "..")) &&
  forallb (fun b => isHostChar b && negb (b =? ch "_")) d.

(** [isHostName]: and not an IP address. *)
Definition isHostName (d : bytes) : bool :=
  match parse_addr d with Some _ => false | None => validDomain d end.

(** [literalHost] *)
Definition literalHost (pattern : bytes) : bytes * bool :=
  let p := trim_suffix (trim_prefix pattern (lit "^")) (lit "$") in
  let p := to_lower (replace_all2 p 92 (ch ".") (lit ".")) in
  (p, validDomain p).

(** * Orders

    [netip.Addr.Compare] (family, value, zone) and Go's string order, as the
    less of a sort. *)

Definition addr_less (a b : addr) : bool :=
  if negb (bit_len a =? bit_len b) then bit_len a <? bit_len b
  else if negb (bool_decide (as_slice a = as_slice b)) then str_less (as_slice a) (as_slice b)
  else str_less (zone a) (zone b).

#[export] Instance str_less_total : StrictTotal str_less.
Proof.
  split.
  - induction x as [|a x IH]; intros [|b y]; cbn; try done. intros [H|[[= ->]%Z.eqb_eq H]%andb_true_iff]%orb_true_iff.
    + apply Z.ltb_lt in H. by destruct (Z.ltb_spec b a), (Z.eqb_spec b a); try lia.
    + rewrite Z.ltb_irrefl, Z.eqb_refl. cbn. by apply IH.
  - induction x as [|a x IH]; intros [|b y] [|c z]; cbn; try done.
    intros [H|[E H]%andb_true_iff]%orb_true_iff [H'|[E' H']%andb_true_iff]%orb_true_iff; bool_prop; subst.
    + destruct (Z.ltb_spec a c); [done|lia].
    + by destruct (Z.ltb_spec a c); [|lia].
    + by destruct (Z.ltb_spec b c); [|lia].
    + rewrite Z.ltb_irrefl, Z.eqb_refl. cbn. by eapply IH.
  - induction x as [|a x IH]; intros [|b y]; cbn; try done. intros [H1 H2]%orb_false_iff [H1' H2']%orb_false_iff.
    apply Z.ltb_ge in H1, H1'. assert (a = b) as -> by lia. rewrite Z.eqb_refl in *. cbn in *. f_equal. by apply IH.
Qed.

(** The parts an address is compared by say which one it is. *)
Lemma addr_parts a b : bit_len a = bit_len b → as_slice a = as_slice b → zone a = zone b → a = b.
Proof. destruct a, b; cbn; congruence. Qed.

#[export] Instance addr_less_total : StrictTotal addr_less.
Proof.
  split; unfold addr_less.
  - intros x y. destruct (Z.eqb_spec (bit_len x) (bit_len y)) as [E|E], (Z.eqb_spec (bit_len y) (bit_len x)); try congruence; cbn [negb].
    + destruct (bool_decide_reflect (as_slice x = as_slice y)), (bool_decide_reflect (as_slice y = as_slice x)); try congruence; cbn [negb]; apply less_asymm.
    + rewrite Z.ltb_lt, Z.ltb_ge. lia.
  - intros x y z.
    destruct (Z.eqb_spec (bit_len x) (bit_len y)) as [E1|E1], (Z.eqb_spec (bit_len y) (bit_len z)) as [E2|E2],
      (Z.eqb_spec (bit_len x) (bit_len z)) as [E3|E3]; try congruence; cbn [negb]; rewrite ?Z.ltb_lt; try lia.
    destruct (bool_decide_reflect (as_slice x = as_slice y)) as [F1|F1], (bool_decide_reflect (as_slice y = as_slice z)) as [F2|F2],
      (bool_decide_reflect (as_slice x = as_slice z)) as [F3|F3]; cbn [negb]; intros H H'; try congruence; try (by eapply less_transitive).
    apply less_asymm in H. congruence.
  - intros x y.
    destruct (Z.eqb_spec (bit_len x) (bit_len y)) as [E|E], (Z.eqb_spec (bit_len y) (bit_len x)); try congruence; cbn [negb].
    + destruct (bool_decide_reflect (as_slice x = as_slice y)) as [F|F], (bool_decide_reflect (as_slice y = as_slice x)); try congruence; cbn [negb];
        intros H H'; pose proof (less_total _ _ H H'); [by apply addr_parts|done].
    + rewrite !Z.ltb_ge. lia.
Qed.

(** * Keys and folders *)

Definition sanKey (ips : list addr) (hosts : list bytes) : bytes :=
  match ips, hosts with
  | [], [h] => h
  | _, _ =>
      let ips := stable_sort addr_less (unmap <$> ips) in
      let hosts := stable_sort str_less hosts in
      join (lit ",") ((addr_string <$> compact ips) ++ compact hosts)
  end.

(** [sanSplit] *)
Definition sanSplit (key : bytes) : list bytes * list bytes :=
  foldl (fun '(ips, hosts) part =>
    match parse_addr part with
    | Some ip => (ips ++ [as_slice ip], hosts)
    | None => (ips, hosts ++ [part])
    end) ([], []) (split_byte key (ch ",")).

Definition replace_byte (o n : Z) (s : bytes) : bytes := (fun b => if b =? o then n else b) <$> s.

Definition localCAFolder (key : bytes) : bytes :=
  if isHostName key then key
  else lit "ip_" ++ ((fun b => if b =? ch "," then ch "+" else if b =? ch ":" then ch "-" else b) <$> key).

(** The loop of [localCAName] over the parts of a folder's name. *)
Fixpoint folder_parts (parts : list bytes) (ips : list addr) (hosts : list bytes) : option (list addr * list bytes) :=
  match parts with
  | [] => Some (ips, hosts)
  | part :: parts =>
      let part := if negb (contains part (ch ".")) then replace_byte (ch "-") (ch ":") part else part in
      match parse_addr part with
      | Some ip =>
          if bool_decide (zone ip = []) then folder_parts parts (ips ++ [unmap ip]) hosts
          else if isHostName part then folder_parts parts ips (hosts ++ [part]) else None
      | None => if isHostName part then folder_parts parts ips (hosts ++ [part]) else None
      end
  end.

Definition localCAName (folder : bytes) : option bytes :=
  if isHostName folder then Some folder
  else
    let (rest, ok) := cut_prefix folder (lit "ip_") in
    if negb ok || bool_decide (rest = []) then None
    else match folder_parts (split_byte rest (ch "+")) [] [] with
         | None => None
         | Some (ips, hosts) =>
             let key := sanKey ips hosts in
             if bool_decide (ips = []) || negb (bool_decide (localCAFolder key = folder)) then None else Some key
         end.

(** * The name a client is served *)

(** [localCARef]: [cert = local-ca] or [local-ca:caNNN]. *)
Definition localCARef (cert : bytes) : bytes * bool :=
  let (rest, ok) := cut_prefix (to_lower cert) (lit "local-ca") in
  if negb ok then ([], false)
  else match rest with
       | [] => (lit "ca001", true)
       | c :: rest' => if c =? ch ":" then (rest', true) else ([], false)
       end.

(** [Rule.LocalCA]: "" for any other rule. *)
Definition LocalCA (r : Rule) : bytes :=
  if r_fixedCert r then []
  else let id := trim_prefix (r_Cert r) (lit "local-ca:") in
       if bool_decide (id = r_Cert r) then [] else id.

Definition LocalCAIssues (r : Rule) (name : bytes) : bool :=
  bool_decide (r_CertDomains r = []) || existsb (fun re => MatchString re name) (r_certNames r).

Inductive name_err := NotAHostName | NotIssuedFor | AddressNotListed (a : addr) | AddressUnknown.

Definition LocalCAName (r : Rule) (sni : bytes) (sniIP dialed : addr) : res name_err bytes :=
  if negb (bool_decide (sni = [])) then
    guard! isHostName sni else NotAHostName in
    guard! LocalCAIssues r sni else NotIssuedFor in
    Ok sni
  else
    guard! negb (is_valid sniIP && negb (contains (r_certIPs r) sniIP)) else (AddressNotListed sniIP) in
    if negb (bool_decide (r_certKey r = [])) then Ok (r_certKey r)
    else
      guard! is_valid dialed else AddressUnknown in
      Ok (sanKey [unmap (with_zone dialed [])] (r_certHosts r)).

(** [placeholderFor]: the key a placeholder is kept under, as a configured
    name or the rule's, and the name it is made for. *)
Inductive placeholder_key := OwnName (sni : bytes) | RuleName (line : Z) (source : bytes).

Definition placeholderFor (r : Rule) (sni : bytes) : placeholder_key * bytes :=
  if contains (r_CertDomains r) sni then (OwnName sni, sni)
  else
    let key := RuleName (r_Line r) (r_Source r) in
    let (rest, ok) := cut_prefix (to_lower (r_Source r)) (lit "*.") in
    if bool_decide (r_Kind r = kindWildcard) && ok && validDomain rest then (key, lit "*." ++ rest)
    else if bool_decide (r_Kind r = kindLiteral) then (key, literalName (r_Source r))
    else (key, lit "placeholder.invalid").

Example folder_ex1 : option_map (fun a => localCAFolder (sanKey [a] [lit "box.lan"])) (parse_addr (lit "fd00::1")) = Some (lit "ip_fd00--1+box.lan").
Proof. vm_compute. reflexivity. Qed.
Example folder_ex2 : localCAName (lit "ip_fd00--1+box.lan") = Some (lit "fd00::1,box.lan").
Proof. vm_compute. reflexivity. Qed.
Example folder_ex3 : localCAName (lit "ip_box.lan+fd00--1") = None.
Proof. vm_compute. reflexivity. Qed.

(** * Reading a folder's name back *)

Definition dashed (s : bytes) : bytes := replace_byte (ch ":") (ch "-") s.

(** An address a key is made of: canonical, without a zone. *)
Definition key_addr (a : addr) : Prop := addr_ok a ∧ is_valid a = true ∧ zone a = [] ∧ unmap a = a.

(** The part of a folder's name as [folder_parts] reads it. *)
Definition undash (part : bytes) : bytes :=
  if negb (contains part (ch ".")) then replace_byte (ch "-") (ch ":") part else part.

Lemma forallb_elem (p : Z → bool) s c : forallb p s = true → p c = false → c ∉ s.
Proof. rewrite forallb_forall. intros H Hc Hin. apply list_elem_of_In, H in Hin. congruence. Qed.

Lemma replace_byte_none o n s : o ∉ s → replace_byte o n s = s.
Proof.
  unfold replace_byte. induction s as [|c s IH]; [done|]. intros Hn. rewrite not_elem_of_cons in Hn. destruct Hn as [Hc Hn].
  cbn. destruct (Z.eqb_spec c o); [congruence|]. by rewrite IH.
Qed.

Lemma replace_byte_back o n s : n ∉ s → replace_byte n o (replace_byte o n s) = s.
Proof.
  unfold replace_byte. induction s as [|c s IH]; [done|]. intros Hn. rewrite not_elem_of_cons in Hn. destruct Hn as [Hc Hn].
  cbn. rewrite IH by done. f_equal. destruct (Z.eqb_spec c o) as [->|]; [by rewrite Z.eqb_refl|]. by destruct (Z.eqb_spec c n).
Qed.

Lemma elem_of_replace o n s c : c ∈ replace_byte o n s ↔ (c = n ∧ o ∈ s) ∨ (c ≠ o ∧ c ∈ s).
Proof.
  unfold replace_byte. rewrite list_elem_of_fmap. split.
  - intros (b & -> & Hb). destruct (Z.eqb_spec b o) as [->|]; auto.
  - intros [[-> Ho]|[Hne Hc]]; [exists o; by rewrite Z.eqb_refl|]. exists c. by rewrite (proj2 (Z.eqb_neq c o) Hne).
Qed.

Lemma string4_dotted b : length b = 4%nat → bytes_ok b →
  forallb (fun c => hex_char c || (c =? 46)) (string4 b) = true ∧ 46 ∈ string4 b.
Proof.
  intros Hl Hb. destruct b as [|x [|y [|z [|w [|]]]]]; try done. rewrite string4_eq. rewrite !Forall_cons in Hb.
  assert (∀ n, byte_ok n → forallb (fun c => hex_char c || (c =? 46)) (itoa n) = true) as Hd.
  { intros n Hn. pose proof (proj1 (itoa_byte n Hn)) as H. rewrite forallb_forall in H |- *. intros c Hc. by rewrite (H c Hc). }
  destruct Hb as (Hx&Hy&Hz&Hw&_). split; [|set_solver].
  repeat first [rewrite forallb_app | rewrite Hd by done | progress cbn [forallb]]. done.
Qed.

Lemma colons_hex f : Forall u16_ok f → forallb (fun c => hex_char c || (c =? 58)) (colons f) = true.
Proof.
  induction 1 as [|n f Hn Hf IH]; [done|].
  assert (forallb (fun c => hex_char c || (c =? 58)) (hex_field n) = true) as Hd.
  { pose proof (hex_field_chars n Hn) as H. rewrite forallb_forall in H |- *. intros c Hc. by rewrite (H c Hc). }
  destruct f as [|m f]; [done|]. rewrite colons_cons, forallb_app by done. cbn [forallb]. by rewrite Hd, IH.
Qed.

Lemma string6_colons b : bytes_ok b → forallb (fun c => hex_char c || (c =? 58)) (string6 b) = true.
Proof.
  intros Hb. pose proof (fields16_ok b Hb) as Hf. unfold string6. destruct (best_run _ _ _) as [start n].
  change (join [58] (hex_field <$> ?g)) with (colons g). destruct (n =? 0)%nat; [by apply colons_hex|].
  rewrite !forallb_app, !colons_hex by (by apply Forall_take || by apply Forall_drop). done.
Qed.

Lemma contains_elem (s : bytes) (c : Z) : contains s c = bool_decide (c ∈ s).
Proof. done. Qed.

(** An address's part of a folder's name reads back as the address. *)
Lemma addr_part a : key_addr a →
  parse_addr (undash (dashed (addr_string a))) = Some a ∧ addr_string a ≠ [] ∧
  (44 ∉ addr_string a) ∧ (43 ∉ dashed (addr_string a)).
Proof.
  intros (Hok & Hv & Hz & Hu). destruct (addr_text a Hok Hv Hz) as (Hp & Hc & _).
  assert (∀ c, c < 46 → c ∉ addr_string a) as Hlow.
  { intros c Hlt. apply (forallb_elem addr_char); [done|]. destruct (addr_char c) eqn:E; [|done]. apply addr_char_spec in E. lia. }
  assert (undash (dashed (addr_string a)) = addr_string a) as Hun.
  { unfold undash, dashed. destruct a as [|b|b z]; [done| |]; destruct Hok as [Hl Hb].
    - destruct (string4_dotted b Hl Hb) as [Hs Hd]. cbn [addr_string] in *.
      rewrite (replace_byte_none (ch ":")); [|by apply (forallb_elem _ _ _ Hs)].
      rewrite contains_elem, bool_decide_eq_true_2 by exact Hd. done.
    - cbn in Hz. subst z. cbn [addr_string] in *. unfold unmap in Hu. destruct (is4in6 (Addr6 b [])) eqn:E; [done|].
      rewrite app_nil_r in *. rewrite contains_elem, bool_decide_eq_false_2.
      + cbn [negb]. apply replace_byte_back. by apply Hlow.
      + intros [[? _]|[_ Hd]]%elem_of_replace; [done|]. revert Hd. apply (forallb_elem _ _ _ (string6_colons b Hb)). done. }
  rewrite Hun. split; [done|]. split; [by intros E; rewrite E in Hp|]. split; [by apply Hlow|].
  intros [[? _]|[_ H]]%elem_of_replace; [done|]. by apply (Hlow 43).
Qed.

Lemma isHostName_spec h : isHostName h = true → parse_addr h = None ∧ h ≠ [] ∧ 46 ∈ h ∧
  ∀ c, c ∈ h → isHostChar c = true ∧ c ≠ 95.
Proof.
  unfold isHostName, validDomain. destruct (parse_addr h) eqn:E; [done|]. intros [H Hall]%andb_true_iff.
  apply negb_true_iff in H. rewrite !orb_false_iff in H. destruct H as (((((H1 & _) & H2) & _) & _) & _).
  apply bool_decide_eq_false in H1. apply negb_false_iff in H2. rewrite contains_elem in H2. apply bool_decide_eq_true in H2.
  split; [done|]. split; [done|]. split; [done|]. intros c Hc. rewrite forallb_forall in Hall.
  apply list_elem_of_In, Hall, andb_true_iff in Hc as [? Hn]. split; [done|]. apply negb_true_iff, Z.eqb_neq in Hn. exact Hn.
Qed.

Lemma host_part h : isHostName h = true →
  undash (dashed h) = h ∧ dashed h = h ∧ (44 ∉ h) ∧ (43 ∉ h).
Proof.
  intros (_ & _ & Hd & Hc)%isHostName_spec. assert (∀ c, isHostChar c = false → c ∉ h) as Hn.
  { intros c Hf Hin. apply Hc in Hin as [? _]. congruence. }
  assert (dashed h = h) as E by (apply replace_byte_none, Hn; done). rewrite E. split; [|split; [done|split; by apply Hn]].
  unfold undash. by rewrite contains_elem, bool_decide_eq_true_2.
Qed.

Lemma folder_parts_addrs ips parts acc hosts : Forall key_addr ips →
  folder_parts ((dashed ∘ addr_string <$> ips) ++ parts) acc hosts = folder_parts parts (acc ++ ips) hosts.
Proof.
  intros H. revert acc. induction H as [|a ips Ha Hips IH]; intros acc; [by rewrite app_nil_r|].
  cbn [fmap list_fmap app folder_parts].
  destruct (addr_part a Ha) as (Hp & _). destruct Ha as (_ & _ & Hz & Hu).
  unfold compose. fold (undash (dashed (addr_string a))). rewrite Hp, Hz, Hu. cbn. rewrite IH, <- app_assoc. done.
Qed.

Lemma folder_parts_hosts hs ips acc : Forall (fun h => isHostName h = true) hs →
  folder_parts (dashed <$> hs) ips acc = Some (ips, acc ++ hs).
Proof.
  intros H. revert acc. induction H as [|h hs Hh Hhs IH]; intros acc; [cbn; by rewrite app_nil_r|].
  cbn [fmap list_fmap folder_parts]. fold (undash (dashed h)). destruct (host_part h Hh) as (-> & _).
  destruct (isHostName_spec h Hh) as (-> & _). rewrite Hh, IH, <- app_assoc. done.
Qed.

Lemma split_join c ws : ws ≠ [] → Forall (fun w => c ∉ w) ws → split_byte (join [c] ws) c = ws.
Proof.
  intros Hne H. induction H as [|w ws Hw Hws IH]; [done|]. destruct ws as [|w' ws]; [by apply split_byte_none|].
  change (join [c] (w :: w' :: ws)) with (w ++ c :: join [c] (w' :: ws)). rewrite split_join_cons by done. by rewrite IH.
Qed.

Lemma fmap_join (f : Z → Z) c (ws : list bytes) : fmap (M := list) f (join [c] ws) = join [f c] (fmap (M := list) (fmap (M := list) f) ws).
Proof.
  induction ws as [|w [|w' ws] IH]; [done|done|]. change (join [c] (w :: w' :: ws)) with (w ++ c :: join [c] (w' :: ws)).
  rewrite fmap_app, fmap_cons, IH. done.
Qed.

(** The addresses and names of a key, as [sanKey] orders them. *)
Lemma key_ordered {A} `{EqDecision A} (less : A → A → bool) `{!StrictTotal less} l :
  let c := compact (stable_sort less l) in compact (stable_sort less c) = c ∧ ∀ x, x ∈ c ↔ x ∈ l.
Proof.
  cbn zeta. rewrite (stable_sort_id less (compact _)).
  - split; [apply compact_compact|]. intros x. by rewrite elem_of_compact, elem_of_stable_sort.
  - intros u v Hb%before_compact. by eapply stable_sort_sorted.
Qed.

Lemma unmap_idem a : unmap (unmap a) = unmap a.
Proof. destruct a as [|b|b z]; [done..|]. unfold unmap at 2 3. destruct (is4in6 _) eqn:E; [done|]. unfold unmap. by rewrite E. Qed.

Lemma unmap_addr_ok a : addr_ok a → addr_ok (unmap a).
Proof.
  destruct a as [|b|b z]; [done..|]. intros [Hl Hb]. unfold unmap. destruct (is4in6 _); [|done].
  split; [rewrite length_drop; lia|by apply Forall_drop].
Qed.

Lemma key_addrs ips : Forall (fun a => addr_ok a ∧ is_valid a = true ∧ zone a = []) ips →
  Forall key_addr (compact (stable_sort addr_less (unmap <$> ips))).
Proof.
  intros H. rewrite Forall_forall in H |- *. intros a. rewrite elem_of_compact, elem_of_stable_sort.
  intros (b & -> & Hb)%list_elem_of_fmap. destruct (H b Hb) as (Hok & Hv & Hz). split; [by apply unmap_addr_ok|].
  split; [|split; [|apply unmap_idem]]; destruct b as [|x|x z]; try done; unfold unmap; by destruct (is4in6 _).
Qed.

Lemma parts_text ips hosts : Forall key_addr ips → Forall (fun h => isHostName h = true) hosts →
  Forall (fun w => 44 ∉ w) ((addr_string <$> ips) ++ hosts) ∧
  Forall (fun w => 43 ∉ w) ((dashed ∘ addr_string <$> ips) ++ (dashed <$> hosts)).
Proof.
  intros Hi Hh. rewrite !Forall_app, !Forall_fmap. split; (split; eapply Forall_impl; try done); unfold compose.
  - intros a Ha. by apply addr_part.
  - intros h H. by apply host_part.
  - intros a Ha. by apply addr_part.
  - intros h H. cbn. destruct (host_part h H) as (_ & -> & _ & ?). done.
Qed.

(** The key's text is no host name. *)
Lemma key_not_host a ips hosts : key_addr a → isHostName (join (lit ",") (addr_string a :: ips ++ hosts)) = false.
Proof.
  intros Ha. destruct (addr_text a) as (Hp & _ & _); [apply Ha..|]. destruct (ips ++ hosts) as [|w ws].
  - unfold isHostName. cbn [join]. by rewrite Hp.
  - destruct (isHostName _) eqn:E; [|done]. apply isHostName_spec in E as (_ & _ & _ & Hc).
    destruct (Hc 44) as [? _]; [|done]. cbn [join]. set_solver.
Qed.

Lemma folder_not_host s : isHostName (lit "ip_" ++ s) = false.
Proof.
  destruct (isHostName _) eqn:E; [|done]. apply isHostName_spec in E as (_ & _ & _ & Hc).
  destruct (Hc 95) as [_ ?]; [|done]. cbn. set_solver.
Qed.

Lemma folder_text ws : Forall (fun w => 44 ∉ w) ws →
  (fun b => if b =? ch "," then ch "+" else if b =? ch ":" then ch "-" else b) <$> join (lit ",") ws = join (lit "+") (dashed <$> ws).
Proof.
  intros H. change (lit ",") with [44]. rewrite fmap_join. change (lit "+") with [43]. f_equal.
  apply list_fmap_ext. intros i w Hw. rewrite Forall_lookup in H. specialize (H _ _ Hw). unfold dashed, replace_byte.
  apply list_fmap_ext. intros j c Hc. destruct (Z.eqb_spec c (ch ",")) as [->|]; [|done].
  exfalso. apply H. by eapply list_elem_of_lookup_2.
Qed.

(** * Properties *)

(** The folder a certificate with IP addresses is kept in says exactly
    what the certificate covers: from its name the key is read back, whatever
    the addresses (in any order, repeated, IPv4 or IPv6) and host names it was
    made from. So two certificates share a folder only if they share a key. *)
Theorem folder_roundtrip ips hosts : ips ≠ [] →
  Forall (fun a => addr_ok a ∧ is_valid a = true ∧ zone a = []) ips → Forall (fun h => isHostName h = true) hosts →
  localCAName (localCAFolder (sanKey ips hosts)) = Some (sanKey ips hosts).
Proof.
  intros Hne Hi Hh. pose proof (key_addrs ips Hi) as Hka.
  destruct (key_ordered addr_less (unmap <$> ips)) as [Ei Hin]. destruct (key_ordered str_less hosts) as [Eh Hhn].
  assert (∀ h' l, ips ≠ [] → sanKey l h' = sanKey l h') as _ by done.
  set (ci := compact (stable_sort addr_less (unmap <$> ips))) in *. set (chs := compact (stable_sort str_less hosts)) in *.
  assert (Forall (fun h => isHostName h = true) chs) as Hhc.
  { rewrite Forall_forall in Hh |- *. intros h H%Hhn. by apply Hh. }
  assert (sanKey ips hosts = join (lit ",") ((addr_string <$> ci) ++ chs)) as Ek by (by destruct ips).
  assert (ci ≠ []) as Hcne.
  { destruct ips as [|a ips]; [done|]. intros E. assert (unmap a ∈ ci) as H by (apply Hin; left). rewrite E in H. by apply not_elem_of_nil in H. }
  assert (unmap <$> ci = ci) as Eu.
  { clear -Hka. induction Hka as [|a l Ha _ IH]; [done|]. cbn. rewrite IH. f_equal. apply Ha. }
  assert (sanKey ci chs = join (lit ",") ((addr_string <$> ci) ++ chs)) as Ek'.
  { unfold sanKey. rewrite Eu, Ei, Eh. by destruct ci. }
  assert (localCAFolder (sanKey ips hosts) = lit "ip_" ++ join (lit "+") (dashed <$> (addr_string <$> ci) ++ chs)) as Ef.
  { rewrite Ek. unfold localCAFolder. rewrite <- folder_text by (by apply parts_text).
    destruct ci as [|a l]; [done|]. cbn [fmap list_fmap app]. rewrite key_not_host; [done|]. by inversion Hka. }
  unfold localCAName. rewrite Ef, folder_not_host, cut_prefix_app. cbn [negb orb].
  rewrite fmap_app, <- list_fmap_compose. change (lit "+") with [43].
  rewrite split_join; [|by destruct ci|by apply parts_text].
  rewrite folder_parts_addrs, folder_parts_hosts by done. cbn [app]. rewrite Ek', <- Ek.
  rewrite (bool_decide_eq_false_2 (ci = [])), bool_decide_eq_false_2, (bool_decide_eq_true_2 (_ = _)); [done|..|done].
  - rewrite Ef, fmap_app, <- list_fmap_compose. done.
  - destruct ci as [|a l]; [done|]. destruct (addr_part a) as (_ & Hn & _); [by inversion Hka|]. cbn [fmap list_fmap app].
    unfold compose, dashed, replace_byte. destruct (addr_string a); [done|]. by destruct ((_ <$> l) ++ _).
Qed.

Lemma folder_roundtrip_witness :
  let ips := [Addr6 ([253; 0; 0; 0; 0; 0; 0; 0; 0; 0; 0; 0; 0; 0; 0; 1]) []; Addr4 [10; 0; 0; 5]] in
  sanKey ips [lit "box.lan"] = lit "10.0.0.5,fd00::1,box.lan" ∧
  localCAName (localCAFolder (sanKey ips [lit "box.lan"])) = Some (sanKey ips [lit "box.lan"]).
Proof.
  split; [vm_compute; reflexivity|]. apply folder_roundtrip; [done| |repeat constructor].
  repeat (apply Forall_cons; split; [split; [split; [done|apply (bool_decide_unpack _); vm_compute; reflexivity]|done]|]). apply Forall_nil_2.
Defined.
