(* ===== verification/Config.v ===== *)
(** Config: the configuration's data, the value of each key, and the checks of
    the listeners ([config.go], [console_config.go], [rotate.go]). Durations
    are nanoseconds. *)

From S2P Require Import Prelude GoStr NetIP Sni Rules Limit CertNames.
From Stdlib Require Import Floats.SpecFloat.
From coqutil Require Export Datatypes.RecordSetters.
Export DoubleBraceUpdate.

Definition second : Z := 1000000000.

(** An error is the format text of the source's message: what is wrong, not
    where. *)
Abbreviation err := string.

(** [says s "text"]: a case of a [switch] on a string. *)
Definition says (s : bytes) (text : string) : bool := bool_decide (s = lit text).

(** * Data *)

Record LogConfig := mkLogConfig {
  log_Stdout : bytes; log_Stderr : bytes; log_MaxSize : Z; log_MaxKeep : Z; log_CompressAfter : Z;
}.
Definition defaultLogConfig : LogConfig := mkLogConfig [] [] (Z.shiftl 15 20) 10 3.

Record Listener := mkListener {
  l_Name : bytes; l_Line : Z; l_Bind : bytes; l_Binds : list bytes; l_Port : Z;
  l_ProxyTrustSource : option (list prefix);
  l_MaxConnections : Z;
  l_HandshakeTimeout : option Z; l_IdleTimeout : option Z; l_HalfCloseTimeout : option Z;
  l_MaxAggregatedSpeed : float64; l_MaxSingleConnectionSpeed : float64;
  l_IsRedirect : bool; l_Console : bool; l_bindSet : bool; l_portSet : bool;
  l_routes : Routes;   (* literals, byPriority *)
}.

(** [Listener{Name: .., Line: .., Bind: .., Binds: .., Port: ..}] *)
Definition new_listener (name : bytes) (line : Z) (bind : bytes) (binds : list bytes) (port : Z) : Listener :=
  mkListener name line bind binds port None 0 None None None (S754_zero false) (S754_zero false) false false false false
    (mkRoutes ∅ []).

Record ConsoleConfig := mkConsoleConfig {
  con_Bind : bytes; con_Binds : list bytes; con_Port : Z; con_Domain : bytes; con_Cert : bytes; con_PasswordHash : bytes;
  con_certificate : bool;   (* whether one is set *)
}.

Inductive warning :=
| BufferSizeClamped (was now : Z)
| AnyTarget (line : Z)
| RuleOrder (r by_ : Rule)
| UnusedBasicAuth (name : bytes)
| ClientCertExpires (name : bytes) | UnusedOIDC (name : bytes)
| No443 | IPv6Only (ip : bytes) | NoPublicIP.

(** The OIDC providers are kept beside it ([OidcConfig]). *)
Record Config := mkConfig {
  c_sourceHash : bytes;
  c_Bind : bytes; c_Binds : list bytes; c_Port : Z;
  c_HandshakeTimeout : Z; c_ConnectTimeout : Z; c_IdleTimeout : Z; c_HalfCloseTimeout : Z;
  c_MaxConnections : Z; c_MaxHandshakesPerIP : Z; c_ProxyTrustSource : list prefix;
  c_BufferSize : Z; c_BufferPoolMaxIdle : Z; c_AllowCacheSize : Z; c_DenyCacheSize : Z;
  c_ReloadInterval : Z; c_StatsInterval : Z;
  c_LowLatency : bool; c_Splice : bool; c_RememberNonce : bool; c_Log : LogConfig;
  c_CertPath : bytes; c_CARoot : bytes; c_ExpiryThresholdDays : Z; c_PublicIPs : list bytes; c_DNSResolvers : list bytes;
  c_AcmeEmail : bytes; c_AcmeAgreeTOS : bool; c_AcmeDirectory : bytes; c_AcmeCAFile : bytes;
  c_Warnings : list warning;
  c_Console : option ConsoleConfig; c_Rules : list Rule; c_Listeners : list Listener;
  c_BasicAuth : gmap bytes Rules.BasicAuth;
  c_Redirect : option Listener; c_listener : option Listener; c_Ignored : list bytes;
}.

(** * Values *)

(** [strings.LastIndexByte] *)
Definition last_index_byte (s : bytes) (c : Z) : option nat :=
  (fun i => (length s - 1 - i)%nat) <$> index_byte (reverse s) c.

Definition to_upper (s : bytes) : bytes := (fun b => if is_lower b then b - 32 else b) <$> s.

(** [splitList]: on [;] and [,], empty items dropped. *)
Definition splitList (v : bytes) : list bytes :=
  filter (fun item => item <> []) (trim_space <$> fields_func (fun r => (r =? ch ";") || (r =? ch ",")) v).

Definition parseBool (v : bytes) : res err bool :=
  let v := to_lower v in
  if says v "true" || says v "yes" || says v "on" then Ok true
  else if says v "false" || says v "no" || says v "off" then Ok false
  else Err "expected true or false"%string.

Definition parsePort (v : bytes) : res err Z :=
  match parse_uint v 16 with
  | Some p => if p =? 0 then Err "invalid port"%string else Ok p
  | None => Err "invalid port"%string
  end.

(** A number of at most 31 bits. *)
Definition num (value : bytes) : res err Z :=
  match parse_uint value 31 with Some n => Ok n | None => Err "expected a number"%string end.
Definition secs (value : bytes) : res err Z := let! n := num value in Ok (n * second).

(** [parseSize] *)
Definition parseSize (v : bytes) : res err Z :=
  let t := to_upper (trim_space v) in
  let t := trim_suffix (trim_suffix t (lit "IB")) (lit "B") in
  let '(unit, t) :=
    match last t with
    | Some c =>
        if c =? ch "K" then (Z.shiftl 1 10, take (length t - 1) t)
        else if c =? ch "M" then (Z.shiftl 1 20, take (length t - 1) t)
        else if c =? ch "G" then (Z.shiftl 1 30, take (length t - 1) t)
        else (1, t)
    | None => (1, t)
    end in
  match parse_int (trim_space t) with
  | Some n => if (n <=? 0) || (Z.shiftl 1 62 / unit <? n) then Err "invalid size"%string else Ok (n * unit)
  | None => Err "invalid size"%string
  end.

(** [parseBinds] *)
Fixpoint binds_go (items binds : list bytes) : res err (list bytes) :=
  match items with
  | [] => Ok binds
  | b :: items =>
      let b := trim b (lit "[]") in
      guard! negb (contains binds b) else "bind lists it twice"%string in
      binds_go items (binds ++ [b])
  end.
Definition parseBinds (value : bytes) : res err (list bytes) :=
  let! binds := binds_go (splitList value) [] in
  match binds with [] => Err "bind must not be empty"%string | _ => Ok binds end.

(** [netip.ParseAddrPort], as far as whether it succeeds. *)
Definition parse_addr_port (s : bytes) : option (addr * Z) :=
  match last_index_byte s (ch ":") with
  | None => None
  | Some i =>
      let ip := take i s in
      match ip, parse_uint (drop (S i) s) 16 with
      | [], _ | _, None => None
      | c :: inner, Some port =>
          let bracket := c =? ch "[" in
          let text := if bracket then
                        match last inner with Some d => if d =? ch "]" then Some (take (length inner - 1) inner) else None | None => None end
                      else Some ip in
          match text ≫= parse_addr with
          | Some a => if bracket && is4 a then None else if negb bracket && is6 a then None else Some (a, port)
          | None => None
          end
      end
  end.

Definition resolverAddress (v : bytes) : bool :=
  match parse_addr v, parse_addr_port v with None, None => false | _, _ => true end.

(** [netip.ParsePrefix]: no zone, and a plain number of bits. *)
Definition parse_prefix (s : bytes) : option prefix :=
  match last_index_byte s (ch "/") with
  | None => None
  | Some i =>
      match parse_addr (take i s) with
      | Some a =>
          let bits := drop (S i) s in
          let plain := match bits with b :: _ :: _ => (49 <=? b) && (b <=? 57) | _ => true end in
          match atoi bits with
          | Some n =>
              if bool_decide (zone a = []) && plain && (0 <=? n) && (n <=? bit_len a) then Some (Prefix a n) else None
          | None => None
          end
      | None => None
      end
  end.

(** The big-endian bytes of a number. *)
Fixpoint be_bytes (n : nat) (v : Z) : bytes :=
  match n with O => [] | S n' => be_bytes n' (v / 256) ++ [v mod 256] end.

(** [Prefix.Masked] *)
Definition masked (p : prefix) : prefix :=
  let mask b := let shift := bit_len (p_addr p) - p_bits p in
                be_bytes (length b) (Z.shiftl (Z.shiftr (be_value b) shift) shift) in
  match p_addr p with
  | Addr4 b => Prefix (Addr4 (mask b)) (p_bits p)
  | Addr6 b z => Prefix (Addr6 (mask b) z) (p_bits p)
  | AddrZero => p
  end.

(** [parsePrefixes] *)
Definition parse_prefix_item (item : bytes) : res err prefix :=
  match parse_addr item, parse_prefix item with
  | Some a, _ => Ok (masked (Prefix (unmap a) (bit_len (unmap a))))
  | None, Some p => Ok (masked p)
  | None, None => Err "proxy_trust_source: not an IP address or a network"%string
  end.
Fixpoint mapM_res {A B} (f : A → res err B) (l : list A) : res err (list B) :=
  match l with [] => Ok [] | x :: l => let! y := f x in let! k := mapM_res f l in Ok (y :: k) end.
Definition parsePrefixes (value : bytes) : res err (list prefix) := mapM_res parse_prefix_item (splitList value).

(** [listenerName]: 1 to 64 letters, digits and marks, with spaces inside. *)
Definition name_char (b : Z) : bool :=
  is_lower b || is_upper b || is_digit b || contains (lit "_@#~()[]<>'-") b || (b =? 34).
Definition listenerName (v : bytes) : bool :=
  (1 <=? len v) && (len v <=? 64) && forallb (fun b => name_char b || (b =? 32)) v &&
  from_option name_char false (head v) && from_option name_char false (last v).

Definition isWildcard (bind : bytes) : bool :=
  match parse_addr bind with Some a => is_unspecified a | None => false end.

(** [sameBinds] *)
Definition sameBinds (a b : list bytes) : bool :=
  (len a =? len b) && forallb (fun x => contains b x) a.

(** [listenNetwork] *)
Definition listenNetwork (a : bytes) : string :=
  match parse_addr a with Some ad => if is4 ad then "tcp4" else "tcp" | None => "tcp" end%string.

(** * A listener's keys *)

Definition consoleAlias : bytes := lit "$console".
Definition RedirectListenerName : bytes := lit "http-to-https-redirect".

(** An error of a component's own type as a message. *)
Definition or_fail {E A} (text : string) (r : res E A) : res err A := match r with Ok a => Ok a | Err _ => Err text end.

Definition listenerOption (l : Listener) (key value : bytes) : res err Listener :=
  if says key "name" then
    guard! bool_decide (value = consoleAlias) || listenerName value else "name must be 1-64 letters, digits, spaces or marks"%string in
    Ok l {{ l_Name := value }}
  else if says key "bind" then
    let! binds := parseBinds value in Ok l {{ l_Binds := binds; l_Bind := join (lit "; ") binds }}
  else if says key "port" then let! p := parsePort value in Ok l {{ l_Port := p }}
  else if says key "proxy_protocol_from" then Err "proxy_protocol_from is now called proxy_trust_source"%string
  else if says key "proxy_trust_source" then let! p := parsePrefixes value in Ok l {{ l_ProxyTrustSource := Some p }}
  else if says key "max_connections" then let! n := num value in Ok l {{ l_MaxConnections := n }}
  else if says key "handshake_timeout" then let! d := secs value in Ok l {{ l_HandshakeTimeout := Some d }}
  else if says key "idle_timeout" then let! d := secs value in Ok l {{ l_IdleTimeout := Some d }}
  else if says key "half_close_timeout" then let! d := secs value in Ok l {{ l_HalfCloseTimeout := Some d }}
  else if says key "max_aggregated_speed" then
    let! r := or_fail "max_aggregated_speed" (parseRate value) in Ok l {{ l_MaxAggregatedSpeed := r }}
  else if says key "max_single_connection_speed" then
    let! r := or_fail "max_single_connection_speed" (parseRate value) in Ok l {{ l_MaxSingleConnectionSpeed := r }}
  else Err "unknown key in a listener"%string.

(** * Global keys

    What [LoadConfig]'s [apply] closes over: the configuration being read, and
    the values kept aside until everything is. *)

Definition minBufferSize : Z := Z.shiftl 4 10.
Definition maxBufferSize : Z := Z.shiftl 128 10.
Definition MinReloadInterval : Z := 5.

Record globals := mkGlobals { gl_cfg : Config; gl_poolMaxIdle : Z; gl_httpRedirect : bool }.

Definition set_cfg (g : globals) (f : Config → Config) : globals := g {{ gl_cfg := f (gl_cfg g) }}.

(** [renamed] keys and the listen address fail with what to write instead. *)
Definition global_gone (key : bytes) : option err :=
  if says key "bind" || says key "port" then Some "global has no listen address: every listen address is a listener"%string
  else if says key "proxy_protocol_from" then Some "proxy_protocol_from is now called proxy_trust_source"%string
  else if says key "ca_root" then Some "ca_root is now called cert_root"%string
  else if says key "cert_path" then Some "cert_path is gone"%string
  else None.

Definition clamp_buffer (n : Z) : Z := Z.max minBufferSize (Z.min n maxBufferSize).

(** The timeouts and counts. *)
Definition apply_number (c : Config) (key value : bytes) : option (res err Config) :=
  if says key "handshake_timeout" then Some (let! d := secs value in Ok c {{ c_HandshakeTimeout := d }})
  else if says key "connect_timeout" then Some (let! d := secs value in Ok c {{ c_ConnectTimeout := d }})
  else if says key "idle_timeout" then Some (let! d := secs value in Ok c {{ c_IdleTimeout := d }})
  else if says key "half_close_timeout" then Some (let! d := secs value in Ok c {{ c_HalfCloseTimeout := d }})
  else if says key "stats_interval" then Some (let! d := secs value in Ok c {{ c_StatsInterval := d }})
  else if says key "reload_interval" then Some (
    let! d := secs value in
    let s := d / second in
    guard! negb (negb (s =? 0) && (s <? MinReloadInterval)) else "reload_interval must be 0 (off) or at least 5"%string in
    Ok c {{ c_ReloadInterval := d }})
  else if says key "max_connections" then Some (let! n := num value in Ok c {{ c_MaxConnections := n }})
  else if says key "max_handshakes_per_ip" then Some (let! n := num value in Ok c {{ c_MaxHandshakesPerIP := n }})
  else if says key "allow_cache_size" then Some (let! n := num value in Ok c {{ c_AllowCacheSize := n }})
  else if says key "deny_cache_size" then Some (let! n := num value in Ok c {{ c_DenyCacheSize := n }})
  else if says key "buffer_size" then Some (
    let! n := num value in
    if (n <? minBufferSize) || (maxBufferSize <? n)
    then Ok c {{ c_BufferSize := clamp_buffer n; c_Warnings ::= (fun w => w ++ [BufferSizeClamped n (clamp_buffer n)]) }}
    else Ok c {{ c_BufferSize := n }})
  else if says key "expiry_threshold_days" then Some (
    let! n := num value in
    guard! 1 <=? n else "expiry_threshold_days must be at least 1"%string in
    Ok c {{ c_ExpiryThresholdDays := n }})
  else None.

(** The switches. *)
Definition apply_switch (c : Config) (key value : bytes) : option (res err Config) :=
  if says key "low_latency" then Some (let! b := parseBool value in Ok c {{ c_LowLatency := b }})
  else if says key "splice" then Some (let! b := parseBool value in Ok c {{ c_Splice := b }})
  else if says key "remember_nonce" then Some (let! b := parseBool value in Ok c {{ c_RememberNonce := b }})
  else if says key "acme_agree_tos" then Some (let! b := parseBool value in Ok c {{ c_AcmeAgreeTOS := b }})
  else None.

Definition public_ip (ip : bytes) : res err bytes :=
  match parse_addr ip with
  | Some a => Ok (addr_string (unmap a))
  | None => Err "public_ip_address: not an IP address"%string
  end.

(** The rest: texts and lists. *)
Definition apply_text (c : Config) (key value : bytes) : res err Config :=
  if says key "proxy_trust_source" then let! p := parsePrefixes value in Ok c {{ c_ProxyTrustSource := p }}
  else if says key "cert_root" then
    guard! negb (bool_decide (value = [])) else "cert_root must not be empty"%string in Ok c {{ c_CARoot := value }}
  else if says key "public_ip_address" then
    let! ips := mapM_res public_ip (splitList value) in Ok c {{ c_PublicIPs := ips }}
  else if says key "dns_resolvers" then
    let servers := splitList value in
    guard! negb (bool_decide (servers = [])) else "dns_resolvers must not be empty"%string in
    guard! forallb resolverAddress servers else "dns_resolvers: not an IP address or IP:port"%string in
    Ok c {{ c_DNSResolvers := servers }}
  else if says key "acme_email" then Ok c {{ c_AcmeEmail := value }}
  else if says key "acme_directory" then Ok c {{ c_AcmeDirectory := value }}
  else if says key "acme_ca_file" then Ok c {{ c_AcmeCAFile := value }}
  else if says key "io_model" || says key "worker_threads" || says key "short_read_delay_us" then
    Ok c {{ c_Ignored ::= (fun l => l ++ [key]) }}
  else Err "unknown key in global"%string.

(** The case [global] of [apply]. *)
Definition apply_global (g : globals) (key value : bytes) : res err globals :=
  let c := gl_cfg g in
  match global_gone key with
  | Some e => Err e
  | None =>
      if says key "buffer_pool_max_idle" then let! n := num value in Ok g {{ gl_poolMaxIdle := n }}
      else if says key "http_to_https_redirect" then let! b := parseBool value in Ok g {{ gl_httpRedirect := b }}
      else let! c' := match apply_number c key value with
                      | Some r => r
                      | None => match apply_switch c key value with Some r => r | None => apply_text c key value end
                      end in Ok g {{ gl_cfg := c' }}
  end.

(** The configuration [LoadConfig] starts from; [sourceHash] is the hash of
    the text it reads. *)
Definition defaultCARoot : bytes := lit "./certs".
Definition LetsEncryptDirectory : bytes := lit "https://acme-v02.api.letsencrypt.org/directory".
Definition defaultConfig (sourceHash : bytes) : Config := {|
  c_sourceHash := sourceHash; c_Bind := []; c_Binds := []; c_Port := 0;
  c_HandshakeTimeout := 10 * second; c_ConnectTimeout := 10 * second;
  c_IdleTimeout := 600 * second; c_HalfCloseTimeout := 30 * second;
  c_MaxConnections := 1024; c_MaxHandshakesPerIP := 64; c_ProxyTrustSource := [];
  c_BufferSize := 64 * 1024; c_BufferPoolMaxIdle := 0; c_AllowCacheSize := 4096; c_DenyCacheSize := 4096;
  c_ReloadInterval := 5 * second; c_StatsInterval := 60 * second;
  c_LowLatency := false; c_Splice := true; c_RememberNonce := true; c_Log := defaultLogConfig;
  c_CertPath := []; c_CARoot := defaultCARoot; c_ExpiryThresholdDays := 15; c_PublicIPs := []; c_DNSResolvers := [];
  c_AcmeEmail := []; c_AcmeAgreeTOS := false; c_AcmeDirectory := LetsEncryptDirectory; c_AcmeCAFile := [];
  c_Warnings := []; c_Console := None; c_Rules := []; c_Listeners := []; c_BasicAuth := ∅;
  c_Redirect := None; c_listener := None; c_Ignored := [] |}.

(** The keys of [global], one after another. *)
Fixpoint apply_globals (g : globals) (kvs : list (bytes * bytes)) : res err globals :=
  match kvs with
  | [] => Ok g
  | (k, v) :: kvs => let! g' := apply_global g k v in apply_globals g' kvs
  end.

(** The case [logging]. *)
Definition apply_logging (g : LogConfig) (key value : bytes) : res err LogConfig :=
  if says key "stdout" then Ok g {{ log_Stdout := value }}
  else if says key "stderr" then Ok g {{ log_Stderr := value }}
  else if says key "max_size" then let! n := parseSize value in Ok g {{ log_MaxSize := n }}
  else if says key "max_keep" then let! n := num value in Ok g {{ log_MaxKeep := n }}
  else if says key "compress_after" then let! n := num value in Ok g {{ log_CompressAfter := n }}
  else Err "unknown key in logging"%string.

(** * The listeners together *)

(** Whether two listeners' addresses meet: the same one, or a wildcard. *)
Definition overlaps (a b : list bytes) : bool :=
  existsb (fun x => existsb (fun y => bool_decide (x = y) || isWildcard x || isWildcard y) b) a.

(** What [resolveListeners] checks of [l] against one listener before it. *)
Definition check_pair (l prev : Listener) : option err :=
  if equal_fold (l_Name prev) (l_Name l) then Some "the name is already used"%string
  else if negb (l_Port prev =? l_Port l) then None
  else if l_Console prev || l_Console l then
    if sameBinds (l_Binds prev) (l_Binds l) then Some "it is the web console's listener, reserved"%string else None
  else if overlaps (l_Binds l) (l_Binds prev) then Some "its port overlaps"%string
  else None.

Fixpoint first_error {A} (f : A → option err) (l : list A) : option err :=
  match l with [] => None | x :: l => match f x with Some e => Some e | None => first_error f l end end.

(** The loop over [c.Listeners]; [before] are the listeners already checked. *)
Fixpoint check_listeners (before ls : list Listener) : res err unit :=
  match ls with
  | [] => Ok tt
  | l :: ls =>
      guard! negb (bool_decide (l_Name l = [])) else "name is required"%string in
      guard! negb (equal_fold (l_Name l) RedirectListenerName) else "the name is reserved for http_to_https_redirect"%string in
      guard! negb (l_Port l =? 0) else "port is required"%string in
      match first_error (check_pair l) before with
      | Some e => Err e
      | None => check_listeners (before ++ [l]) ls
      end
  end.

Definition resolveListeners (c : Config) : res err Config :=
  match c_Listeners c with
  | [] => Err "no listeners: add one"%string
  | first :: _ =>
      let! _ := check_listeners [] (c_Listeners c) in
      Ok c {{ c_Bind := l_Bind first; c_Binds := l_Binds first; c_Port := l_Port first }}
  end.

(** The first loop of [makeRedirectListener]: every address once, and which
    families have their wildcard among them. *)
Definition add_bind (acc : list bytes * bool * bool) (b : bytes) : list bytes * bool * bool :=
  let '(binds, any4, any6) := acc in
  let binds := if contains binds b then binds else binds ++ [b] in
  match parse_addr b with
  | Some a => if is_unspecified a then (binds, any4 || is4 a, any6 || is6 a) else (binds, any4, any6)
  | None => (binds, any4, any6)
  end.

Definition redirect_binds (ls : list Listener) : list bytes :=
  let '(binds, any4, any6) := foldl add_bind ([], false, false) (concat (l_Binds <$> ls)) in
  filter (fun b => match parse_addr b with
                   | Some a => negb (is_unspecified a) && ((is4 a && any4) || (is6 a && any6))
                   | None => false
                   end = false) binds.

Definition makeRedirectListener (c : Config) : res err Config :=
  let binds := redirect_binds (c_Listeners c) in
  guard! forallb (fun l => negb ((l_Port l =? 80) && overlaps (l_Binds l) binds)) (c_Listeners c)
    else "http_to_https_redirect listens on port 80, which a listener also uses"%string in
  Ok c {{ c_Redirect := Some (new_listener RedirectListenerName 0 (join (lit "; ") binds) binds 80) {{ l_IsRedirect := true }} }}.

(** * The console's listener ([console_config.go]) *)

Definition con_IP (c : ConsoleConfig) : addr := default AddrZero (parse_addr (con_Domain c)).
Definition con_NoSNI (c : ConsoleConfig) : bool := bool_decide (con_Domain c = []) || is_valid (con_IP c).

(** The loop of [placeConsoleListener]. *)
Fixpoint place_console (con : ConsoleConfig) (ls : list Listener) (placed : bool) : res err (list Listener * bool) :=
  match ls with
  | [] => Ok ([], placed)
  | l :: ls =>
      if negb (equal_fold (l_Name l) consoleAlias) then
        let! (k, p) := place_console con ls placed in Ok (l :: k, p)
      else
        guard! negb placed else "the web console's listener is listed twice"%string in
        guard! negb (l_bindSet l || l_portSet l) else "its bind and port come from the console's settings"%string in
        let! (k, p) := place_console con ls true in
        Ok (l {{ l_Name := consoleAlias; l_Bind := con_Bind con; l_Binds := con_Binds con; l_Port := con_Port con; l_Console := true }} :: k, p)
  end.

Definition placeConsoleListener (c : Config) (console : option ConsoleConfig) : res err Config :=
  match console with
  | None => Ok c
  | Some con =>
      let! (ls, placed) := place_console con (c_Listeners c) false in
      let ls := if placed then ls
                else ls ++ [(new_listener consoleAlias 0 (con_Bind con) (con_Binds con) (con_Port con)) {{ l_Console := true }}] in
      Ok c {{ c_Console := Some con; c_Listeners := ls }}
  end.

(** * A listener's own configuration *)

Definition override {A} (o : option A) (d : A) : A := default d o.

Definition ForListener (c : Config) (l : Listener) : Config :=
  c {{ c_listener := Some l; c_Bind := l_Bind l; c_Binds := l_Binds l; c_Port := l_Port l;
       c_ProxyTrustSource ::= override (l_ProxyTrustSource l);
       c_HandshakeTimeout ::= override (l_HandshakeTimeout l);
       c_IdleTimeout ::= override (l_IdleTimeout l);
       c_HalfCloseTimeout ::= override (l_HalfCloseTimeout l) }}.

Definition find_listener (c : Config) (name : bytes) : option Listener :=
  find (fun l => bool_decide (l_Name l = name)) (c_Listeners c).
Definition PortListeners (c : Config) : list Listener := c_Listeners c ++ option_list (c_Redirect c).
Definition PortListener (c : Config) (name : bytes) : option Listener :=
  match c_Redirect c with
  | Some r => if bool_decide (l_Name r = name) then Some r else find_listener c name
  | None => find_listener c name
  end.

Definition Addrs (l : Listener) : list bytes := (fun b => join_host_port b (itoa (l_Port l))) <$> l_Binds l.

(** [peer]: the IP of the peer's TCP address. *)
Definition trustsProxySource (c : Config) (peer : bytes) : bool :=
  let ip := unmap (default AddrZero (addr_from_slice peer)) in
  existsb (fun p => prefix_contains p ip) (c_ProxyTrustSource c).

(** * What the checks guarantee *)

(** The ranges a loaded configuration keeps to: what 31 bits of seconds or of
    anything else can be, and the limits the source sets. *)
Definition dur_ok (d : Z) : Prop := 0 <= d < 2 ^ 31 * second.
Definition count_ok (n : Z) : Prop := 0 <= n < 2 ^ 31.

Record config_ok (c : Config) : Prop := {
  ok_durations : Forall dur_ok [c_HandshakeTimeout c; c_ConnectTimeout c; c_IdleTimeout c; c_HalfCloseTimeout c; c_StatsInterval c; c_ReloadInterval c];
  ok_counts : Forall count_ok [c_MaxConnections c; c_MaxHandshakesPerIP c; c_AllowCacheSize c; c_DenyCacheSize c];
  ok_buffer : minBufferSize <= c_BufferSize c <= maxBufferSize;
  ok_reload : c_ReloadInterval c = 0 ∨ MinReloadInterval * second <= c_ReloadInterval c;
  ok_expiry : 1 <= c_ExpiryThresholdDays c < 2 ^ 31;
  ok_resolvers : Forall (fun s => resolverAddress s = true) (c_DNSResolvers c);
}.

Lemma digits_value_nonneg s acc n : 0 <= acc → digits_value s acc = Some n → 0 <= n.
Proof.
  revert acc; induction s as [|b s IH]; cbn; intros acc Ha; [by injection 1 as <-|].
  destruct (is_digit b) eqn:E; [|done]. apply IH. unfold is_digit in E. bool_prop. lia.
Qed.

Lemma parse_uint_range s bits n : parse_uint s bits = Some n → 0 <= n < 2 ^ bits.
Proof.
  unfold parse_uint. destruct s as [|b s]; [done|]. destruct (digits_value (b :: s) 0) eqn:E; [|done].
  destruct (Z.ltb_spec z (2 ^ bits)); [|done]. injection 1 as <-. apply digits_value_nonneg in E; lia.
Qed.

Lemma num_range v n : num v = Ok n → count_ok n.
Proof. unfold num. destruct (parse_uint v 31) eqn:E; [|done]. injection 1 as <-. by apply parse_uint_range in E. Qed.

Lemma secs_range v d : secs v = Ok d → dur_ok d ∧ d mod second = 0.
Proof.
  unfold secs. destruct (num v) eqn:E; [|done]. injection 1 as <-. apply num_range in E. unfold count_ok, dur_ok, second in *.
  split; [lia|]. by rewrite Z.mod_mul.
Qed.

(** Close a branch of a [switch]: the one value it sets is in range. *)
Ltac in_range :=
  repeat match goal with
  | H : num _ = Ok _ |- _ => apply num_range in H
  | H : secs _ = Ok _ |- _ => apply secs_range in H as [H ?]
  end.

Lemma apply_number_ok c key value c' : config_ok c → apply_number c key value = Some (Ok c') → config_ok c'.
Proof.
  intros Hc. unfold apply_number.
  repeat match goal with |- (if ?b then _ else _) = _ → _ => destruct b end; try done; intros [= H]; revert H.
  all: match goal with |- match ?r with _ => _ end = _ → _ => destruct r as [n|] eqn:E; [|done] end; in_range.
  all: repeat match goal with |- (if ?b then _ else _) = _ → _ => destruct b eqn:? end; try done; injection 1 as <-.
  all: destruct Hc as [H1 H2 H3 H4 H5 H6], c; cbn in *; unfold dur_ok, count_ok in *; decompose_Forall_hyps.
  all: split; cbn; unfold constant, dur_ok, count_ok; try done; bool_prop; try (decompose_Forall; lia); try lia.
  - unfold MinReloadInterval, second in *. pose proof (Z.div_mod n 1000000000 ltac:(lia)). destruct Heqb as [Hz|Hz]; bool_prop; [left; lia|right; lia].
  - unfold clamp_buffer. change minBufferSize with 4096 in *. change maxBufferSize with 131072 in *. lia.
Qed.

Lemma apply_switch_ok c key value c' : config_ok c → apply_switch c key value = Some (Ok c') → config_ok c'.
Proof.
  intros Hc. unfold apply_switch.
  repeat match goal with |- (if ?b then _ else _) = _ → _ => destruct b end; try done; intros [= H]; revert H.
  all: destruct (parseBool value); [|done]; injection 1 as <-.
  all: by destruct Hc, c.
Qed.

Lemma apply_text_ok c key value c' : config_ok c → apply_text c key value = Ok c' → config_ok c'.
Proof.
  intros Hc. unfold apply_text.
  repeat match goal with
  | |- (if says _ _ then _ else _) = _ → _ => destruct (says _ _)
  | |- (if _ || _ then _ else _) = _ → _ => destruct (_ || _)
  end; try done.
  all: repeat match goal with
  | |- (match ?r with _ => _ end) = _ → _ => destruct r eqn:?; try done
  end; injection 1 as <-; destruct Hc as [H1 H2 H3 H4 H5 H6], c; split; try done.
  cbn. unfold constant. bool_prop. apply Forall_forall. intros s Hs.
  eapply forallb_forall in Heqb0; [done|]. by apply list_elem_of_In.
Qed.

Lemma apply_global_ok g key value g' : config_ok (gl_cfg g) → apply_global g key value = Ok g' → config_ok (gl_cfg g').
Proof.
  intros Hc. unfold apply_global. destruct (global_gone key); [done|].
  destruct (says key _); [destruct (num value); [|done]; injection 1 as <-; by destruct g|].
  destruct (says key _); [destruct (parseBool value); [|done]; injection 1 as <-; by destruct g|].
  destruct (apply_number _ _ _) as [r|] eqn:E1.
  { destruct r; [|done]. injection 1 as <-. destruct g. cbn. by eapply apply_number_ok. }
  destruct (apply_switch _ _ _) as [r|] eqn:E2.
  { destruct r; [|done]. injection 1 as <-. destruct g. cbn. by eapply apply_switch_ok. }
  destruct (apply_text _ _ _) eqn:E3; [|done]. injection 1 as <-. destruct g. cbn. by eapply apply_text_ok.
Qed.

(** What [resolveListeners] demands of two listeners, the first read first. *)
Definition apart (prev l : Listener) : Prop :=
  to_lower (l_Name prev) ≠ to_lower (l_Name l) ∧
  (l_Port prev = l_Port l →
   if l_Console prev || l_Console l then sameBinds (l_Binds prev) (l_Binds l) = false
   else ∀ a b, a ∈ l_Binds l → b ∈ l_Binds prev → a ≠ b ∧ isWildcard a = false ∧ isWildcard b = false).

Definition listener_ok (l : Listener) : Prop :=
  l_Name l ≠ [] ∧ to_lower (l_Name l) ≠ RedirectListenerName ∧ l_Port l ≠ 0.

Lemma overlaps_false a b :
  overlaps a b = false ↔ ∀ x y, x ∈ a → y ∈ b → x ≠ y ∧ isWildcard x = false ∧ isWildcard y = false.
Proof.
  unfold overlaps. rewrite <- not_true_iff_false, existsb_exists. split.
  - intros H x y Hx Hy. destruct (bool_decide (x = y) || isWildcard x || isWildcard y) eqn:E.
    + destruct H. exists x. split; [by apply list_elem_of_In|]. apply existsb_exists.
      exists y. split; [by apply list_elem_of_In|done].
    + bool_prop. by split_and!.
  - intros H (x & Hx & (y & Hy & E)%existsb_exists). apply list_elem_of_In in Hx, Hy.
    destruct (H x y Hx Hy) as (Hn & Hwx & Hwy). rewrite Hwx, Hwy, !orb_false_r in E. by apply bool_decide_eq_true in E.
Qed.

Lemma check_pair_spec l prev : check_pair l prev = None ↔ apart prev l.
Proof.
  unfold check_pair, apart. destruct (equal_fold _ _) eqn:E.
  { apply equal_fold_spec in E. split; [done|]. by intros [? _]. }
  assert (to_lower (l_Name prev) ≠ to_lower (l_Name l)) as Hn by (intros H; apply equal_fold_spec in H; congruence).
  destruct (Z.eqb_spec (l_Port prev) (l_Port l)); cbn; [|by split].
  destruct (l_Console prev || l_Console l).
  - destruct (sameBinds _ _); split; try done. intros [_ H]. by specialize (H e).
  - destruct (overlaps _ _) eqn:Eo.
    + split; [done|]. intros [_ H]. specialize (H e). apply overlaps_false in H. congruence.
    + rewrite overlaps_false in Eo. by split.
Qed.

Lemma first_error_None {A} (f : A → option err) l : first_error f l = None ↔ Forall (fun x => f x = None) l.
Proof.
  induction l as [|x l IH]; cbn; [by split|]. destruct (f x) eqn:E.
  - split; [done|]. inversion 1. congruence.
  - rewrite IH, Forall_cons. tauto.
Qed.

Lemma check_listeners_spec before ls :
  check_listeners before ls = Ok tt ↔
  Forall listener_ok ls ∧ ∀ i j p l, ls !! i = Some l → (before ++ ls) !! j = Some p → (j < length before + i)%nat → apart p l.
Proof.
  revert before. induction ls as [|l ls IH]; intros before; cbn [check_listeners].
  { split; [|done]. intros _. by split; [constructor|]. }
  destruct (bool_decide (l_Name l = [])) eqn:E1; cbn.
  { bool_prop. split; [done|]. intros [Hf _]. by inversion Hf as [|?? [Hl _]]. }
  destruct (equal_fold _ _) eqn:E2; cbn.
  { apply equal_fold_spec in E2. split; [done|]. intros [Hf _]. inversion Hf as [|?? (_ & Hl & _)]. by rewrite E2 in Hl. }
  destruct (Z.eqb_spec (l_Port l) 0) as [E3|E3]; cbn.
  { split; [done|]. intros [Hf _]. inversion Hf as [|?? (_ & _ & Hl)]. done. }
  destruct (first_error _ _) eqn:E4.
  - split; [done|]. intros [_ Hp]. exfalso.
    assert (first_error (check_pair l) before = None) as Hnone; [|congruence].
    apply first_error_None, Forall_lookup. intros j p Hj. apply check_pair_spec.
    pose proof (lookup_lt_Some _ _ _ Hj). apply (Hp 0%nat j); [done| |lia]. by rewrite lookup_app_l.
  - apply first_error_None in E4. rewrite IH, <- app_assoc, Forall_cons, length_app. cbn.
    assert (listener_ok l) as Hl.
    { split_and!; [by apply bool_decide_eq_false in E1| |done].
      apply not_true_iff_false in E2. intros H. by apply E2, equal_fold_spec. }
    split.
    + intros [Hf Hp]. split; [done|]. intros [|i] j p l' Hi Hj Hlt; cbn in Hi.
      * injection Hi as <-. rewrite lookup_app_l in Hj by lia. eapply Forall_lookup in E4; [|done]. by apply check_pair_spec.
      * eapply Hp; [done..|lia].
    + intros [[_ Hf] Hp]. split; [done|]. intros i j p l' Hi Hj Hlt. apply (Hp (S i) j p l'); [done..|lia].
Qed.

(** [b] is the wildcard address of the family [p]. *)
Definition wild (p : addr → bool) (b : bytes) : bool :=
  match parse_addr b with Some a => is_unspecified a && p a | None => false end.
(** [b] is some other address of the family [p]. *)
Definition specific (p : addr → bool) (b : bytes) : bool :=
  match parse_addr b with Some a => negb (is_unspecified a) && p a | None => false end.

Definition add_new (l : list bytes) (x : bytes) : list bytes := if contains l x then l else l ++ [x].

Lemma foldl_add_bind bs l f4 f6 :
  foldl add_bind (l, f4, f6) bs = (foldl add_new l bs, f4 || existsb (wild is4) bs, f6 || existsb (wild is6) bs).
Proof.
  revert l f4 f6. induction bs as [|x bs IH]; intros l f4 f6; cbn; [by rewrite !orb_false_r|].
  fold (add_new l x). unfold wild at 1 3.
  destruct (parse_addr x) as [a|]; [destruct (is_unspecified a)|]; cbn; by rewrite ?IH, ?orb_assoc, ?orb_false_r.
Qed.

Lemma add_new_spec bs l : NoDup l →
  NoDup (foldl add_new l bs) ∧ ∀ x, x ∈ foldl add_new l bs ↔ x ∈ l ∨ x ∈ bs.
Proof.
  revert l. induction bs as [|b bs IH]; intros l Hl; cbn; [split; [done|set_solver]|].
  assert (NoDup (add_new l b) ∧ ∀ x, x ∈ add_new l b ↔ x ∈ l ∨ x = b) as [H1 H2].
  { unfold add_new, contains. case_bool_decide; [split; [done|set_solver]|].
    split; [|set_solver]. apply NoDup_app. split_and!; [done|set_solver|]. apply NoDup_singleton. }
  destruct (IH _ H1) as [H3 H4]. split; [done|]. intros x. rewrite H4, H2. set_solver.
Qed.

Lemma existsb_elem {A} (f : A → bool) l : existsb f l = true ↔ ∃ x, x ∈ l ∧ f x = true.
Proof. rewrite existsb_exists. by setoid_rewrite list_elem_of_In. Qed.

(** What is left is every address bound, but for the specific ones of a
    family whose wildcard is bound too. *)
Lemma redirect_binds_spec ls (bs := concat (l_Binds <$> ls)) :
  NoDup (redirect_binds ls) ∧
  ∀ b, b ∈ redirect_binds ls ↔
    b ∈ bs ∧ ∀ p, p = is4 ∨ p = is6 → specific p b = true → ∀ w, w ∈ bs → wild p w = false.
Proof.
  unfold redirect_binds. fold bs. rewrite foldl_add_bind. cbn.
  destruct (add_new_spec bs []) as [Hd Hm]; [constructor|]. split; [by apply NoDup_filter|].
  assert (∀ p : addr → bool, existsb (wild p) bs = false ↔ ∀ w, w ∈ bs → wild p w = false) as He.
  { intros p. rewrite <- not_true_iff_false, existsb_elem. split.
    - intros H w Hw. apply not_true_iff_false. intros Ht. by destruct H; exists w.
    - intros H (w & Hw & Ht). rewrite H in Ht; done. }
  intros b. rewrite list_elem_of_filter, Hm.
  transitivity (b ∈ bs ∧ ∀ p, p = is4 ∨ p = is6 → specific p b = true → existsb (wild p) bs = false).
  2:{ split; intros [H1 H2]; (split; [done|]); intros p Hp Hs; [by apply He, H2|by apply He, H2]. }
  assert (b ∈ [] ∨ b ∈ bs ↔ b ∈ bs) as -> by set_solver. unfold specific.
  destruct (parse_addr b) as [a|]; [|naive_solver]. destruct (is_unspecified a); cbn; [naive_solver|].
  destruct (is4 a && existsb (wild is4) bs || is6 a && existsb (wild is6) bs) eqn:E.
  - split; [by intros []|]. intros [_ H]. apply orb_true_iff in E as [[E1 E2]%andb_true_iff|[E1 E2]%andb_true_iff].
    + by rewrite (H is4) in E2 by auto.
    + by rewrite (H is6) in E2 by auto.
  - apply orb_false_iff in E as [E4 E6]. split; [|tauto]. intros [_ Hb]. split; [done|].
    intros p [-> | ->] Hs; rewrite Hs in *; done.
Qed.

Lemma default_ok h : config_ok (defaultConfig h).
Proof. split; cbn; unfold dur_ok, count_ok, second; [decompose_Forall; lia|decompose_Forall; lia|by split|right; done|lia|constructor]. Qed.

Lemma wild_not_specific p p' w : wild p w = true → specific p' w = true → False.
Proof. unfold wild, specific. destruct (parse_addr w) as [a|]; [|done]. by destruct (is_unspecified a). Qed.

Lemma existsb_negb_forallb {A} (f : A → bool) l : existsb f l = negb (forallb (fun x => negb (f x)) l).
Proof. induction l as [|x l IH]; cbn; [done|]. rewrite IH. by destruct (f x). Qed.

Lemma apply_globals_ok g kvs g' :
  config_ok (gl_cfg g) → -1 <= gl_poolMaxIdle g < 2 ^ 31 → apply_globals g kvs = Ok g' →
  config_ok (gl_cfg g') ∧ -1 <= gl_poolMaxIdle g' < 2 ^ 31.
Proof.
  revert g. induction kvs as [|[k v] kvs IH]; intros g0 Hc Hp; cbn.
  { by injection 1 as <-. }
  destruct (apply_global g0 k v) as [g1|] eqn:E; [|done]. apply IH; [by eapply apply_global_ok|].
  revert E. unfold apply_global. destruct (global_gone k); [done|].
  destruct (says k _); [destruct (num v) eqn:En; [|done]; injection 1 as <-; apply num_range in En; destruct g0; cbn; unfold count_ok, constant in *; lia|].
  destruct (says k _); [destruct (parseBool v); [|done]; injection 1 as <-; by destruct g0|].
  match goal with |- match ?r with _ => _ end = _ → _ => destruct r; [|done] end. injection 1 as <-. by destruct g0.
Qed.

(** * Properties *)

(** Whatever keys [global] holds, a configuration that loads keeps to the
    ranges: no timeout or count is negative or beyond 31 bits, the I/O buffer
    is between 4 and 128 KiB (clamped), the reload interval is 0 or at least 5
    seconds, the expiry threshold is at least a day and every DNS resolver is
    an address. The switches, texts and lists of the same section cannot
    disturb them. *)
Theorem globals_in_range (h : bytes) (kvs : list (bytes * bytes)) (g : globals) :
  apply_globals (mkGlobals (defaultConfig h) (-1) false) kvs = Ok g →
  config_ok (gl_cfg g) ∧ -1 <= gl_poolMaxIdle g < 2 ^ 31.
Proof.
  apply apply_globals_ok; [apply default_ok|cbn; lia].
Qed.

Lemma globals_in_range_witness :
  match apply_globals (mkGlobals (defaultConfig []) (-1) false)
          [(lit "buffer_size", lit "999999"); (lit "idle_timeout", lit "90"); (lit "reload_interval", lit "0")] with
  | Ok g => config_ok (gl_cfg g) ∧ c_BufferSize (gl_cfg g) = 131072
  | Err _ => False
  end.
Proof.
  destruct (apply_globals _ _) as [g|] eqn:E; [|by vm_compute in E].
  split; [exact (proj1 (globals_in_range _ _ _ E))|]. vm_compute in E. injection E as <-. reflexivity.
Defined.

(** C29: [resolveListeners] accepts exactly the well-formed sets of listeners:
    each has a name of its own (ignoring case, the redirect's name reserved)
    and a port; two on one port share no address and neither is the wildcard,
    except that the console's listener only excludes a listener of the same
    addresses. What it changes is the first listener's address, copied to the
    configuration. *)
Theorem resolveListeners_exact (c c' : Config) :
  resolveListeners c = Ok c' ↔
  Forall listener_ok (c_Listeners c) ∧
  (∀ i j p l, (j < i)%nat → c_Listeners c !! j = Some p → c_Listeners c !! i = Some l → apart p l) ∧
  ∃ first, head (c_Listeners c) = Some first ∧
    c' = c {{ c_Bind := l_Bind first; c_Binds := l_Binds first; c_Port := l_Port first }}.
Proof.
  unfold resolveListeners. destruct (c_Listeners c) as [|first ls] eqn:E.
  { split; [done|]. intros (_ & _ & f & Hf & _). done. }
  pose proof (check_listeners_spec [] (first :: ls)) as Hs. cbn [app length Nat.add] in Hs.
  destruct (check_listeners [] (first :: ls)) as [[]|] eqn:Ec.
  - split.
    + injection 1 as <-. destruct (proj1 Hs eq_refl) as [H1 H2]. split_and!; [done| |by exists first]. intros. by eapply H2.
    + intros (_ & _ & f & [= <-] & ->). done.
  - split; [done|]. intros (H1 & H2 & _). assert (Err e = Ok tt); [|done]. apply Hs. split; [done|]. intros. by eapply H2.
Qed.

(** The redirect listener of [http_to_https_redirect] takes port 80 on
    every address the listeners bind: each bound address is one of its own, or
    a specific address whose family's wildcard is; it lists nothing else,
    nothing twice, no specific address beside its family's wildcard. It is
    refused exactly where a listener on port 80 would meet it. *)
Theorem redirect_covers (c : Config) (binds := redirect_binds (c_Listeners c)) :
  (makeRedirectListener c =
   if existsb (fun l => (l_Port l =? 80) && overlaps (l_Binds l) binds) (c_Listeners c)
   then Err "http_to_https_redirect listens on port 80, which a listener also uses"%string
   else Ok c {{ c_Redirect := Some (new_listener RedirectListenerName 0 (join (lit "; ") binds) binds 80) {{ l_IsRedirect := true }} }}) ∧
  NoDup binds ∧
  (∀ l b, l ∈ c_Listeners c → b ∈ l_Binds l →
     b ∈ binds ∨ ∃ p w, (p = is4 ∨ p = is6) ∧ specific p b = true ∧ w ∈ binds ∧ wild p w = true) ∧
  (∀ b, b ∈ binds → ∃ l, l ∈ c_Listeners c ∧ b ∈ l_Binds l) ∧
  (∀ b w p, p = is4 ∨ p = is6 → b ∈ binds → w ∈ binds → specific p b = true → wild p w = false).
Proof.
  destruct (redirect_binds_spec (c_Listeners c)) as [Hd Hm]. fold binds in Hd, Hm.
  assert (∀ b, b ∈ concat (l_Binds <$> c_Listeners c) ↔ ∃ l, l ∈ c_Listeners c ∧ b ∈ l_Binds l) as Hc.
  { intros b. rewrite list_elem_of_In, in_concat. setoid_rewrite <- list_elem_of_In. setoid_rewrite list_elem_of_fmap. naive_solver. }
  split_and!; [|done| | |].
  - unfold makeRedirectListener. fold binds. rewrite existsb_negb_forallb. by destruct (forallb _ _).
  - intros l b Hl Hb. assert (b ∈ concat (l_Binds <$> c_Listeners c)) as Hbs by (apply Hc; eauto).
    set (W := fun p w => wild p w = true ∧ specific p b = true).
    destruct (decide (Exists (fun w => W is4 w ∨ W is6 w) (concat (l_Binds <$> c_Listeners c)))) as [He|He].
    + right. apply Exists_exists in He as (w & Hw & Hor).
      assert (∃ p, (p = is4 ∨ p = is6) ∧ W p w) as (p & Hp & Hww & Hs) by naive_solver. exists p, w. split_and!; try done.
      apply Hm. split; [done|]. intros p' Hp' Hs'. exfalso. by eapply wild_not_specific.
    + left. apply Hm. split; [done|]. intros p Hp Hs w Hw. apply not_true_iff_false. intros Ht. apply He, Exists_exists.
      exists w. split; [done|]. unfold W. naive_solver.
  - intros b [Hb _]%Hm. by apply Hc.
  - intros b w p Hp [_ Hb]%Hm [Hw _]%Hm Hs. by eapply Hb.
Qed.
