(* ===== verification/Listeners.v ===== *)
(** Listeners: the ports the proxy accepts on ([listeners.go]): opened,
    moved, taken over and closed as the configuration is reloaded, stopped
    and started from the console. What the system answers to a bind, and the
    order Go ranges over a map in, are parameters. *)

From S2P Require Import Prelude GoStr NetIP Rules Config.

(** [liveListener]: the one its pointer names is [lv_id]; its sockets are
    numbered. The name its accept loops read is in [ls_names]. *)
Record live := mkLive { lv_id : nat; lv_addrs : list bytes; lv_socks : list nat; lv_err : option err; lv_adopted : bool }.
Definition is_open (v : live) : bool := negb (bool_decide (lv_socks v = [])).

(** The listeners by name, those stopped, the name each [liveListener] goes
    by, and the next numbers. *)
Record lstate := mkLState {
  ls_lives : gmap bytes live; ls_stopped : gset bytes; ls_names : gmap nat bytes; ls_next : nat; ls_socks : nat;
}.

Section Listeners.
Context (listen : nat → string → bytes → option err).                    (* net.Listen: the attempt, network and address *)
Context (order : gmap bytes live → list (bytes * live)).                 (* range over the map *)

(** [bindListener]: every address of [l], or none. *)
Fixpoint bind_from (several : bool) (port : Z) (binds : list bytes) (lns : list nat) (n : nat) : res err (list nat) * nat :=
  match binds with
  | [] => (Ok lns, n)
  | b :: binds =>
      let network := listenNetwork b in
      let network := if several && bool_decide (network = "tcp"%string) then "tcp6"%string else network in
      match listen n network (join_host_port b (itoa port)) with
      | Some e => (Err e, S n)
      | None => bind_from several port binds (lns ++ [n]) (S n)
      end
  end.
Definition bindListener (l : Listener) (n : nat) : res err (list nat) * nat :=
  bind_from (1 <? length (l_Binds l))%nat (l_Port l) (l_Binds l) [] n.

(** [close] *)
Definition close_live (v : live) : live := mkLive (lv_id v) (lv_addrs v) [] (lv_err v) (lv_adopted v).

(** [openLocked] *)
Definition openLocked (v : live) (l : Listener) (n : nat) : live * option err * nat :=
  match bindListener l n with
  | (Err e, n) => (mkLive (lv_id v) (lv_addrs v) (lv_socks v) (Some e) (lv_adopted v), Some e, n)
  | (Ok lns, n) => (mkLive (lv_id v) (lv_addrs v) lns None (lv_adopted v), None, n)
  end.

(** [takeOverLocked]: the first open listener the configuration no longer has
    on the same addresses. *)
Definition takeOverLocked (st : lstate) (name : bytes) (addrs : list bytes) (want : list bytes) : lstate * option live :=
  match find (fun e => negb (contains want e.1) && is_open e.2 && bool_decide (lv_addrs e.2 = addrs)) (order (ls_lives st)) with
  | None => (st, None)
  | Some (old, v) =>
      (mkLState (<[name := v]> (delete old (ls_lives st))) (ls_stopped st ∖ {[old]}) (<[lv_id v := name]> (ls_names st)) (ls_next st) (ls_socks st), Some v)
  end.

(** One configured listener's turn in [syncListeners]. *)
Definition sync_one (st : lstate) (l : Listener) (want : list bytes) : lstate * option err :=
  let addrs := Addrs l in
  let '(st, found) :=
    match ls_lives st !! l_Name l with
    | Some v => (st, Some v)
    | None => takeOverLocked st (l_Name l) addrs want
    end in
  let stopped := bool_decide (l_Name l ∈ ls_stopped st) in
  if match found with Some v => lv_adopted v || (bool_decide (lv_addrs v = addrs) && (is_open v || stopped)) | None => false end then (st, None)
  else
    let v := mkLive (ls_next st) addrs [] None false in
    let names := <[ls_next st := l_Name l]> (ls_names st) in
    if stopped then (mkLState (<[l_Name l := v]> (ls_lives st)) (ls_stopped st) names (S (ls_next st)) (ls_socks st), None)
    else
      let '(v, e, n) := openLocked v l (ls_socks st) in
      (mkLState (<[l_Name l := v]> (ls_lives st)) (ls_stopped st) names (S (ls_next st)) n, e).

Fixpoint sync_all (st : lstate) (ls : list Listener) (want : list bytes) : lstate * list (bytes * err) :=
  match ls with
  | [] => (st, [])
  | l :: ls =>
      let '(st, e) := sync_one st l want in
      let '(st, failed) := sync_all st ls want in
      (st, match e with Some e => (l_Name l, e) :: failed | None => failed end)
  end.

(** The listeners the configuration no longer has. *)
Definition drop_unwanted (st : lstate) (want : list bytes) : lstate :=
  mkLState (filter (fun e => e.1 ∈ want) (ls_lives st))
    (ls_stopped st ∖ dom (filter (fun e : bytes * live => e.1 ∉ want) (ls_lives st))) (ls_names st) (ls_next st) (ls_socks st).

(** [syncListeners] *)
Definition syncListeners (st : lstate) (c : Config) : lstate * list (bytes * err) :=
  let want := l_Name <$> PortListeners c in
  let '(st, failed) := sync_all st (PortListeners c) want in
  (drop_unwanted st want, failed).

(** A connection, as stopping a listener looks for it: the listener's name
    when it was accepted, and the listener's own. *)
Record conn := mkConn { cn_Listener : bytes; cn_live : nat }.

Inductive stop_answer := NoListener | NotSetUp | HandedOver | CannotListen (e : err) | Done (victims : list conn).

(** [setListenerStopped] *)
Definition setListenerStopped (st : lstate) (c : Config) (conns : list conn) (name : bytes) (stop : bool) : lstate * stop_answer :=
  match PortListener c name with
  | None => (st, NoListener)
  | Some l =>
      match ls_lives st !! name with
      | None => (st, NotSetUp)
      | Some v =>
          if lv_adopted v then (st, HandedOver)
          else if stop then
            (mkLState (<[name := mkLive (lv_id v) (lv_addrs v) [] None false]> (ls_lives st)) ({[name]} ∪ ls_stopped st) (ls_names st) (ls_next st) (ls_socks st),
             Done (filter (fun cn => cn_Listener cn = name) conns))
          else if negb (is_open v) then
            let '(v, e, n) := openLocked v l (ls_socks st) in
            let lives := <[name := v]> (ls_lives st) in
            match e with
            | Some e => (mkLState lives (ls_stopped st) (ls_names st) (ls_next st) n, CannotListen e)
            | None => (mkLState lives (ls_stopped st ∖ {[name]}) (ls_names st) (ls_next st) n, Done [])
            end
          else (mkLState (ls_lives st) (ls_stopped st ∖ {[name]}) (ls_names st) (ls_next st) (ls_socks st), Done [])
      end
  end.

(** [anyOpen] *)
Definition anyOpen (st : lstate) (ls : list Listener) : bool :=
  existsb (fun l => match ls_lives st !! l_Name l with Some v => is_open v | None => false end) ls.

(** * One turn *)

Hypothesis order_all : ∀ m, order m ≡ₚ map_to_list m. (* a range visits every entry once, in some order *)

(** Every listener's accept loops read its own name. *)
Definition names_ok (st : lstate) : Prop :=
  ∀ name v, ls_lives st !! name = Some v → ls_names st !! lv_id v = Some name ∧ (lv_id v < ls_next st)%nat.

Lemma in_order m name v : (name, v) ∈ order m ↔ m !! name = Some v.
Proof. by rewrite order_all, elem_of_map_to_list. Qed.

(** An open listener the configuration no longer has, on these addresses. *)
Definition left_over (st : lstate) (want : list bytes) (addrs : list bytes) (name : bytes) (v : live) : Prop :=
  ls_lives st !! name = Some v ∧ (name ∉ want) ∧ is_open v = true ∧ lv_addrs v = addrs.

Lemma takeOver_spec st name addrs want st' o : takeOverLocked st name addrs want = (st', o) →
  match o with
  | Some v => ∃ old, left_over st want addrs old v ∧
      st' = mkLState (<[name := v]> (delete old (ls_lives st))) (ls_stopped st ∖ {[old]}) (<[lv_id v := name]> (ls_names st)) (ls_next st) (ls_socks st)
  | None => st' = st ∧ ∀ old v, ¬ left_over st want addrs old v
  end.
Proof.
  unfold takeOverLocked. destruct (find _ _) as [[old v]|] eqn:E.
  - apply find_some in E as [Hin%list_elem_of_In Hb]. cbn in Hb. apply andb_true_iff in Hb as [[Hw Ho]%andb_true_iff Ha].
    apply in_order in Hin. apply bool_decide_eq_true in Ha. apply negb_true_iff, bool_decide_eq_false in Hw.
    injection 1 as <- <-. exists old. done.
  - injection 1 as <- <-. split; [done|]. intros old v (Hl & Hw & Ho & Ha).
    apply in_order, list_elem_of_In in Hl. pose proof (find_none _ _ E _ Hl) as Hf. cbn in Hf.
    rewrite Ho, bool_decide_true in Hf by done. unfold contains in Hf. by rewrite bool_decide_false in Hf.
Qed.

(** What a turn leaves of its listener. *)
Definition settled (st : lstate) (l : Listener) (e : option err) : Prop := ∃ v,
  ls_lives st !! l_Name l = Some v ∧
  (lv_adopted v = true ∨
   lv_addrs v = Addrs l ∧ (is_open v = true ∨ l_Name l ∈ ls_stopped st ∨ ∃ w, e = Some w ∧ lv_err v = Some w)).

(** What it changes of the others: one the configuration no longer has may
    be taken over. *)
Definition others_kept (st st' : lstate) (l : Listener) (want : list bytes) : Prop :=
  (∀ n, n ≠ l_Name l → ls_lives st' !! n = ls_lives st !! n ∨ (∃ v, left_over st want (Addrs l) n v) ∧ ls_lives st' !! n = None) ∧
  (∀ n, n ∈ want → n ∈ ls_stopped st' ↔ n ∈ ls_stopped st).

Lemma names_ok_new st name v names stopped n : names_ok st → lv_id v = ls_next st →
  names = <[ls_next st := name]> (ls_names st) →
  names_ok (mkLState (<[name := v]> (ls_lives st)) stopped names (S (ls_next st)) n).
Proof.
  intros Hn Hv -> n' v'. cbn. intros [[<- <-]|[Hne Hl]]%lookup_insert_Some; [rewrite Hv, lookup_insert_eq; split; [done|lia]|].
  destruct (Hn _ _ Hl) as [H1 H2]. rewrite lookup_insert_ne by lia. split; [done|lia].
Qed.

Lemma bind_from_len several port binds lns n r k : bind_from several port binds lns n = (Ok r, k) → (length lns + length binds = length r)%nat.
Proof.
  revert lns n. induction binds as [|b binds IH]; intros lns n; cbn; [injection 1 as -> _; lia|]. destruct (listen _ _ _); [done|].
  intros H%IH. rewrite length_app in H. cbn in H. lia.
Qed.

Lemma openLocked_spec v l n v' e n' : l_Binds l ≠ [] → openLocked v l n = (v', e, n') →
  lv_id v' = lv_id v ∧ lv_addrs v' = lv_addrs v ∧ lv_adopted v' = lv_adopted v ∧
  match e with Some w => lv_err v' = Some w | None => is_open v' = true end.
Proof.
  intros Hb. unfold openLocked, bindListener. destruct (bind_from _ _ _ _ _) as [[lns|w] k] eqn:E; injection 1 as <- <- <-; split_and!; try done.
  apply bind_from_len in E. cbn in E. unfold is_open. cbn. apply negb_true_iff, bool_decide_eq_false. intros ->. by destruct (l_Binds l).
Qed.

Lemma sync_one_spec st l want st' e : names_ok st → l_Binds l ≠ [] → l_Name l ∈ want → sync_one st l want = (st', e) →
  names_ok st' ∧ settled st' l e ∧ others_kept st st' l want ∧
  (∀ v, ls_lives st !! l_Name l = Some v → is_open v = true → lv_addrs v = Addrs l → ls_lives st' !! l_Name l = Some v) ∧
  (∀ old v, ls_lives st !! l_Name l = None → left_over st want (Addrs l) old v →
     (∀ old' v', left_over st want (Addrs l) old' v' → old' = old) → ls_lives st' !! l_Name l = Some v).
Proof.
  intros Hn Hb Hw. unfold sync_one.
  assert (∀ st1, names_ok st1 → others_kept st st1 l want → ∀ stopped, stopped = bool_decide (l_Name l ∈ ls_stopped st1) →
    ∀ st2 e2, (if stopped then (mkLState (<[l_Name l := mkLive (ls_next st1) (Addrs l) [] None false]> (ls_lives st1)) (ls_stopped st1)
         (<[ls_next st1 := l_Name l]> (ls_names st1)) (S (ls_next st1)) (ls_socks st1), None)
       else let '(v, e, n) := openLocked (mkLive (ls_next st1) (Addrs l) [] None false) l (ls_socks st1) in
         (mkLState (<[l_Name l := v]> (ls_lives st1)) (ls_stopped st1) (<[ls_next st1 := l_Name l]> (ls_names st1)) (S (ls_next st1)) n, e)) = (st2, e2) →
    names_ok st2 ∧ settled st2 l e2 ∧ others_kept st st2 l want) as Hnew.
  { intros st1 Hn1 [Ho1 Ho2] stopped -> st2 e2. case_bool_decide as Hs.
    - injection 1 as <- <-. split_and!; [by eapply names_ok_new| |].
      + eexists. split; [cbn; apply lookup_insert_eq|]. right. split; [done|]. right. by left.
      + split; [|done]. intros n Hne. cbn. rewrite lookup_insert_ne by done. by apply Ho1.
    - destruct (openLocked _ _ _) as [[v w] k] eqn:E. apply openLocked_spec in E as (H1 & H2 & H3 & H4); [|done]. injection 1 as <- <-.
      split_and!; [by eapply names_ok_new| |].
      + exists v. split; [cbn; apply lookup_insert_eq|]. right. split; [done|]. destruct w as [w|]; [right; right; eauto|by left].
      + split; [|done]. intros n Hne. cbn. rewrite lookup_insert_ne by done. by apply Ho1. }
  assert (others_kept st st l want) as Hrefl by (split; auto).
  destruct (ls_lives st !! l_Name l) as [v|] eqn:El.
  - destruct (lv_adopted v || _) eqn:Ec.
    + injection 1 as <- <-. split; [done|]. split.
      { exists v. split; [done|]. apply orb_true_iff in Ec as [Ec|Ec]; [by left|right]. apply andb_true_iff in Ec as [Ea%bool_decide_eq_true Ec].
        split; [done|]. apply orb_true_iff in Ec as [Ec|Ec%bool_decide_eq_true]; auto. }
      split; [done|]. split; [|done]. by intros v' [= <-].
    + intros H. destruct (Hnew st Hn Hrefl _ eq_refl _ _ H) as (H1 & H2 & H3). split_and!; [done..| |done].
      intros v' [= <-] Ho Ha. exfalso. rewrite Ho, bool_decide_true in Ec by done. by rewrite orb_true_r in Ec.
  - destruct (takeOverLocked _ _ _ _) as [st1 [v|]] eqn:Et; apply takeOver_spec in Et.
    + destruct Et as (old & (Hl & Hnw & Ho & Ha) & ->). rewrite Ho, bool_decide_true, orb_true_r by done. injection 1 as <- <-.
      destruct (Hn _ _ Hl) as [Hid Hlt]. split_and!.
      * intros n v'. cbn. intros [[<- <-]|[Hne [Hne2 Hl']%lookup_delete_Some]]%lookup_insert_Some; [by rewrite lookup_insert_eq|].
        destruct (Hn _ _ Hl') as [H1 H2]. rewrite lookup_insert_ne; [done|]. intros Hx. rewrite <- Hx in H1. congruence.
      * exists v. split; [cbn; apply lookup_insert_eq|]. right. split; [done|by left].
      * split; cbn.
        -- intros n Hne. rewrite lookup_insert_ne by done. destruct (decide (n = old)) as [->|]; [right; split; [by exists v|by rewrite lookup_delete_eq]|left; by rewrite lookup_delete_ne].
        -- intros n Hin. rewrite elem_of_difference, elem_of_singleton. split; [by intros [? _]|]. intros. split; [done|]. by intros ->.
      * done.
      * intros old' v' _ (Hl' & Hrest) Huniq. cbn. rewrite lookup_insert_eq. assert (old = old') as <- by (by apply (Huniq _ v)). congruence.
    + destruct Et as [-> Hnone]. intros H. destruct (Hnew st Hn Hrefl _ eq_refl _ _ H) as (H1 & H2 & H3). split_and!; [done..|].
      intros old v _ Hlo. by destruct (Hnone old v).
Qed.

(** * All of them *)

Lemma left_over_back st st' l want addrs n v : others_kept st st' l want → l_Name l ∈ want → left_over st' want addrs n v → left_over st want addrs n v.
Proof.
  intros [Ho _] Hl (H1 & H2 & H3). assert (n ≠ l_Name l) as Hne by (by intros ->).
  destruct (Ho n Hne) as [He|[_ He]]; [|congruence]. by rewrite He in H1.
Qed.
Lemma left_over_on st st' l want addrs n v : others_kept st st' l want → l_Name l ∈ want → Addrs l ≠ addrs → left_over st want addrs n v → left_over st' want addrs n v.
Proof.
  intros [Ho _] Hl Hne (H1 & H2 & H3 & H4). assert (n ≠ l_Name l) as Hn by (by intros ->).
  destruct (Ho n Hn) as [He|[(v' & Hv' & _ & _ & Ha) He]]; [by split_and!; rewrite ?He|congruence].
Qed.

(** What all the turns leave: of what was, and of what is wanted. *)
Record synced (st st' : lstate) (ls : list Listener) (want : list bytes) (failed : list (bytes * err)) : Prop := {
  sy_names : names_ok st';
  sy_settled : ∀ l, l ∈ ls → ∃ e, settled st' l e ∧ ∀ w, e = Some w → (l_Name l, w) ∈ failed;
  sy_others : ∀ n, (n ∉ l_Name <$> ls) → n ∈ want → ls_lives st' !! n = ls_lives st !! n;
  sy_stopped : ∀ n, n ∈ want → n ∈ ls_stopped st' ↔ n ∈ ls_stopped st;
  sy_kept : ∀ l v, l ∈ ls → ls_lives st !! l_Name l = Some v → is_open v = true → lv_addrs v = Addrs l → ls_lives st' !! l_Name l = Some v;
  sy_renamed : ∀ l old v, l ∈ ls → NoDup (Addrs <$> ls) → ls_lives st !! l_Name l = None → left_over st want (Addrs l) old v →
    (∀ old' v', left_over st want (Addrs l) old' v' → old' = old) → ls_lives st' !! l_Name l = Some v;
}.

Lemma sync_all_synced ls st want st' failed :
  names_ok st → Forall (fun l => l_Binds l ≠ [] ∧ l_Name l ∈ want) ls → NoDup (l_Name <$> ls) →
  sync_all st ls want = (st', failed) → synced st st' ls want failed.
Proof.
  revert st st' failed. induction ls as [|l ls IH]; intros st st' failed Hn Hls Hnd; cbn [sync_all].
  { injection 1 as <- <-. split; try done; intros; exfalso; by eapply not_elem_of_nil. }
  apply Forall_cons in Hls as [[Hb Hw] Hls]. apply NoDup_cons in Hnd as [Hni Hnd].
  destruct (sync_one st l want) as [st1 e] eqn:E1. destruct (sync_one_spec _ _ _ _ _ Hn Hb Hw E1) as (Hn1 & Hset & Hothers & Hkept & Hren).
  destruct (sync_all st1 ls want) as [st2 f] eqn:E2. injection 1 as <- <-. destruct (IH _ _ _ Hn1 Hls Hnd E2) as [I1 I2 I3 I4 I5 I6].
  pose proof (I3 _ Hni Hw) as Hl. pose proof Hothers as [Ho Hs].
  assert (∀ l', l' ∈ ls → l_Name l' ≠ l_Name l) as Hdiff by (intros l' Hl' He; apply Hni; rewrite <- He; by apply list_elem_of_fmap_2).
  assert (∀ l', l' ∈ ls → ls_lives st1 !! l_Name l' = ls_lives st !! l_Name l') as Hsame.
  { intros l' Hl'. destruct (Ho _ (Hdiff _ Hl')) as [|[(v & _ & Hnw & _) _]]; [done|]. rewrite Forall_forall in Hls. by destruct (Hls _ Hl'). }
  split; [done| | | | |].
  - intros l' [->|Hl']%elem_of_cons.
    + exists e. split; [|intros w ->; left]. destruct Hset as (v & H1 & H2). exists v. rewrite Hl. split; [done|]. by rewrite (I4 _ Hw).
    + destruct (I2 _ Hl') as (e' & He' & Hf). exists e'. split; [done|]. intros w Hw'. destruct e; [right|]; by apply Hf.
  - intros n [Hne Hni']%not_elem_of_cons Hnw. rewrite (I3 _ Hni' Hnw). destruct (Ho _ Hne) as [|[(v & _ & Hx & _) _]]; [done|by destruct Hx].
  - intros n Hnw. rewrite (I4 _ Hnw). by apply Hs.
  - intros l' v [->|Hl']%elem_of_cons; [rewrite Hl; by apply Hkept|]. rewrite <- (Hsame _ Hl'). by apply I5.
  - intros l' old v Hin [Hna Hnda]%NoDup_cons. apply elem_of_cons in Hin as [->|Hl']; [rewrite Hl; by apply Hren|].
    intros Hnone Hlo Huniq. apply (I6 l' old v); [done..|by rewrite Hsame| |].
    + apply (left_over_on st _ l); [done..| |done]. intros He. apply Hna. rewrite He. by apply list_elem_of_fmap_2.
    + intros old' v' Hlo'. by eapply Huniq, left_over_back.
Qed.
End Listeners.

(** * Properties *)


(** * Witnesses *)

Definition w_listen (n : nat) (_ : string) (a : bytes) : option err := if bool_decide (a = lit "0.0.0.0:8443") then Some "in use"%string else None.
Definition w_order (m : gmap bytes live) : list (bytes * live) := map_to_list m.
Definition w_lan (port : Z) (name : string) : Listener := new_listener (lit name) 1 (lit "0.0.0.0") [lit "0.0.0.0"] port.
Definition w_ports (ls : list Listener) : Config := (defaultConfig []) {{ c_Listeners := ls }}.
Definition w_none : lstate := mkLState ∅ ∅ ∅ 0 0.
Definition w_before : lstate := (syncListeners w_listen w_order w_none (w_ports [w_lan 443 "lan"; w_lan 444 "web"])).1.
(** [lan] is renamed, [web] moves to a port in use. *)
Definition w_renamed : Config := w_ports [w_lan 443 "wan"; w_lan 8443 "web"].
Definition w_after : lstate := (syncListeners w_listen w_order w_before w_renamed).1.
Definition w_failed : list (bytes * err) := (syncListeners w_listen w_order w_before w_renamed).2.


(** A connection is looked for under the name its listener had when it came:
    stopping the listener under its new name leaves it open. *)
Lemma stop_after_rename : let cn := mkConn (lit "lan") 0 in
  ls_names w_after !! cn_live cn = Some (lit "wan") ∧
  (setListenerStopped w_listen w_after w_renamed [cn] (lit "wan") true).2 = Done [].
Proof. split; vm_compute; reflexivity. Qed.
