(* ===== verification/Prog.v ===== *)
(** Prog: programs of calls. A handler is written as the calls it makes, each
    an operation on state it shares with other handlers or a question to the
    outside (the clock, a socket); any number of them run interleaved, call by
    call. What one handler does whatever it is answered is checked by a
    monitor; what all of them do to the shared state follows from what each
    monitor knows. *)

From S2P Require Import Prelude.

(** * Sums over a list *)

Definition sum_of {A} (f : A → Z) (l : list A) : Z := foldr (fun x z => f x + z) 0 l.

Lemma sum_of_app {A} (f : A → Z) l1 l2 : sum_of f (l1 ++ l2) = sum_of f l1 + sum_of f l2.
Proof. unfold sum_of. induction l1 as [|x l1 IH]; cbn; [done|]. rewrite IH. lia. Qed.

Lemma sum_of_snoc {A} (f : A → Z) l x : sum_of f (l ++ [x]) = sum_of f l + f x.
Proof. rewrite sum_of_app. cbn. by rewrite Z.add_0_r. Qed.

Lemma sum_of_insert {A} (f : A → Z) l i x y : l !! i = Some x → sum_of f (<[i := y]> l) = sum_of f l - f x + f y.
Proof.
  unfold sum_of. revert i; induction l as [|z l IH]; intros [|i]; cbn; try done; [intros [= ->]; lia|].
  intros H. specialize (IH _ H). unfold insert, list_insert in IH |- *. lia.
Qed.

Lemma sum_of_eq {A} (f g : A → Z) l : (∀ x, x ∈ l → f x = g x) → sum_of f l = sum_of g l.
Proof.
  unfold sum_of. induction l as [|x l IH]; intros H; cbn; [done|]. rewrite IH, (H x); [done|set_solver|].
  intros y Hy. apply H. set_solver.
Qed.

Lemma sum_of_0 {A} (f : A → Z) l : (∀ x, x ∈ l → f x = 0) → sum_of f l = 0.
Proof. intros H. rewrite (sum_of_eq f (fun _ => 0)) by done. clear H. unfold sum_of. by induction l. Qed.

Lemma sum_of_ge {A} (f : A → Z) l i x : (∀ y, y ∈ l → 0 <= f y) → l !! i = Some x → f x <= sum_of f l.
Proof.
  unfold sum_of. revert i; induction l as [|z l IH]; intros [|i] H; cbn; try done.
  - intros [= ->]. assert (0 <= foldr (fun x z => f x + z) 0 l); [|lia].
    clear IH. induction l as [|y l IH]; cbn; [lia|]. pose proof (H y ltac:(set_solver)).
    assert (0 <= foldr (fun x z => f x + z) 0 l); [|lia]. apply IH. set_solver.
  - intros Hi. pose proof (H z ltac:(set_solver)). pose proof (IH i ltac:(set_solver) Hi). lia.
Qed.

(** * Programs *)

Section Prog.
Context {act : Type → Type}.

Inductive prog (A : Type) : Type :=
| Ret (a : A)
| Do {X : Type} (a : act X) (k : X → prog A).
Arguments Ret {A} a.
Arguments Do {A X} a k.

Fixpoint bind {A B} (p : prog A) (f : A → prog B) : prog B :=
  match p with Ret a => f a | Do a k => Do a (fun x => bind (k x) f) end.

Definition call {X} (a : act X) : prog X := Do a Ret.

(** [defer]: [q] once [p] is done, in whichever way. *)
Definition finally {A} (p : prog A) (q : prog unit) : prog A := bind p (fun a => bind q (fun _ => Ret a)).

Record event := Event { ev_type : Type; ev_call : act ev_type; ev_answer : ev_type }.

(** * Monitors

    [obeys p s Q]: from the monitor's state [s], whatever the calls of [p] are
    answered, the monitor accepts each one, and [Q] holds at the end. *)

Section Monitor.
Context {S : Type} (watch : ∀ X, act X → X → S → option S).

Fixpoint obeys {A} (p : prog A) (s : S) (Q : A → S → Prop) : Prop :=
  match p with
  | Ret a => Q a s
  | Do a k => ∀ x, match watch _ a x s with Some s' => obeys (k x) s' Q | None => False end
  end.

Fixpoint run (h : list event) (s : S) : option S :=
  match h with
  | [] => Some s
  | e :: h => watch _ (ev_call e) (ev_answer e) s ≫= run h
  end.

Lemma run_app h1 h2 s : run (h1 ++ h2) s = run h1 s ≫= run h2.
Proof. revert s; induction h1 as [|e h1 IH]; intros s; cbn; [done|]. destruct (watch _ _ _ s); cbn; [apply IH|done]. Qed.

Lemma obeys_mono {A} (p : prog A) s (Q Q' : A → S → Prop) :
  obeys p s Q → (∀ a s, Q a s → Q' a s) → obeys p s Q'.
Proof.
  intros H HQ. revert s H. induction p as [a|X a k IH]; intros s H; cbn in *; [auto|].
  intros x. specialize (H x). destruct (watch _ _ _ _); [by apply IH|done].
Qed.

Lemma obeys_bind {A B} (p : prog A) (f : A → prog B) s (R : A → S → Prop) (Q : B → S → Prop) :
  obeys p s R → (∀ a s', R a s' → obeys (f a) s' Q) → obeys (bind p f) s Q.
Proof.
  intros H HR. revert s H. induction p as [a|X a k IH]; intros s H; cbn in *; [auto|].
  intros x. specialize (H x). destruct (watch _ _ _ _); [by apply IH|done].
Qed.

Lemma obeys_finally {A} (p : prog A) q s (R : A → S → Prop) (Q : A → S → Prop) :
  obeys p s R → (∀ a s', R a s' → obeys q s' (fun _ s'' => Q a s'')) → obeys (finally p q) s Q.
Proof.
  intros H HR. eapply obeys_bind; [exact H|]. intros a s' Ha. eapply obeys_bind; [by apply HR|]. by intros [] s''.
Qed.
End Monitor.

(** * Handlers interleaved

    A handler [c] runs the program [main c]. *)

Section World.
Context {C W : Type}.

Record thread := mkThread { who : C; left : prog unit; past : list event }.

Definition finished (t : thread) : Prop := left t = Ret tt.

Lemma all_finished ts : forallb (fun t => match left t with Ret _ => true | _ => false end) ts = true → Forall finished ts.
Proof.
  intros Hb. apply Forall_forall. intros t Ht. eapply forallb_forall in Hb; [|by apply list_elem_of_In].
  unfold finished. by destruct (left t) as [[]|].
Qed.

(* The calls on shared state; [None]: the outside answers. *)
Context (perform : ∀ X, act X → W → option (X * W)).
Context (starts : C → Prop) (main : C → prog unit).

Record world := mkWorld { shared : W; threads : list thread }.

Definition answers {X} (a : act X) (w : W) (x : X) (w' : W) : Prop :=
  match perform X a w with Some (x', w'') => x = x' ∧ w' = w'' | None => w' = w end.

Inductive step : relation world :=
| Start w c : starts c → step w (mkWorld (shared w) (threads w ++ [mkThread c (main c) []]))
| Act w t c X (a : act X) k h x w' :
    threads w !! t = Some (mkThread c (Do a k) h) → answers a (shared w) x w' →
    step w (mkWorld w' (<[t := mkThread c (k x) (h ++ [Event X a x])]> (threads w))).

(** What is known of each handler beside it, and what is kept true of the
    shared state and of all that is known: it holds if every call that a
    monitor lets pass keeps it. *)
Section Kept.
Context {S : Type} (watch : C → ∀ X, act X → X → S → option S) (s0 : S) (Q : C → S → Prop).
Context (kept : W → list S → Prop).

Definition known (t : thread) (s : S) : Prop :=
  starts (who t) ∧ run (watch (who t)) (past t) s0 = Some s ∧ obeys (watch (who t)) (left t) s (fun _ => Q (who t)).

(* Where a lock is taken, only some steps happen. *)
Definition step_while (allowed : W → Prop) (w w' : world) : Prop := step w w' ∧ allowed (shared w').

Lemma watched_while (allowed : W → Prop) w0 w :
  (∀ c, starts c → obeys (watch c) (main c) s0 (fun _ => Q c)) →
  (∀ u ls, kept u ls → kept u (ls ++ [s0])) →
  (∀ u ls i s c X (a : act X) x s' u', starts c → kept u ls → ls !! i = Some s →
     watch c X a x s = Some s' → answers a u x u' → allowed u' → kept u' (<[i := s']> ls)) →
  kept w0 [] → rtc (step_while allowed) (mkWorld w0 []) w →
  ∃ ls, Forall2 known (threads w) ls ∧ kept (shared w) ls.
Proof.
  intros Hmain Hstart Hact H0 Hs.
  eapply (rtc_invariant _ (fun w => ∃ ls, Forall2 known (threads w) ls ∧ kept (shared w) ls)); [|exact Hs|by exists []].
  clear w Hs. intros w w' (ls & HF & Hk) [St Hal]. destruct St as [w1 c Hst|w1 j c X a k h x w2 Hj Ha]; cbn [shared threads] in *.
  - exists (ls ++ [s0]). split; [|by apply Hstart]. apply Forall2_app; [done|]. constructor; [|constructor].
    split; [done|]. split; [done|]. by apply Hmain.
  - destruct (Forall2_lookup_l _ _ _ _ _ HF Hj) as (s & Hs & Hst & Hr & Ho). cbn [who past left obeys] in Hst, Hr, Ho.
    specialize (Ho x). destruct (watch c X a x s) as [s'|] eqn:Ew; [|done].
    exists (<[j := s']> ls). split; [|by eapply Hact]. apply Forall2_insert; [done|].
    split; [done|]. split; [|done]. cbn [who past]. rewrite run_app, Hr. cbn. by rewrite Ew.
Qed.

Lemma watched w0 w :
  (∀ c, starts c → obeys (watch c) (main c) s0 (fun _ => Q c)) →
  (∀ u ls, kept u ls → kept u (ls ++ [s0])) →
  (∀ u ls i s c X (a : act X) x s' u', starts c → kept u ls → ls !! i = Some s →
     watch c X a x s = Some s' → answers a u x u' → kept u' (<[i := s']> ls)) →
  kept w0 [] → rtc step (mkWorld w0 []) w →
  ∃ ls, Forall2 known (threads w) ls ∧ kept (shared w) ls.
Proof.
  intros Hmain Hstart Hact H0 Hs. apply (watched_while (fun _ => True) w0); [done..| |done|].
  - intros; by eapply Hact.
  - eapply rtc_subrel; [|exact Hs]. by split.
Qed.
End Kept.
(** ** Running one

    The handler [i] for [n] calls, the outside answering as [oracle] says. *)
Fixpoint drive (oracle : ∀ X, act X → X) (n i : nat) (w : world) : world :=
  match n, threads w !! i with
  | S n, Some (mkThread c (Do a k) h) =>
      let '(x, u) := match perform _ a (shared w) with Some xu => xu | None => (oracle _ a, shared w) end in
      drive oracle n i (mkWorld u (<[i := mkThread c (k x) (h ++ [Event _ a x])]> (threads w)))
  | _, _ => w
  end.

Lemma drive_steps oracle n i w : rtc step w (drive oracle n i w).
Proof.
  revert w. induction n as [|n IH]; intros w; [apply rtc_refl|]. cbn [drive].
  destruct (threads w !! i) as [[c [|X a k] h]|] eqn:E; try apply rtc_refl.
  destruct (match perform X a (shared w) with Some _ => _ | None => _ end) as [x u] eqn:Ep.
  eapply rtc_l; [|apply IH]. eapply Act; [exact E|]. unfold answers. destruct (perform X a (shared w)) as [[x' u']|]; by injection Ep as <- <-.
Qed.

(** The same, where only some steps happen: it stops before one that does
    not. *)
Fixpoint drive_while (ok : W → bool) (oracle : ∀ X, act X → X) (n i : nat) (w : world) : world :=
  match n, threads w !! i with
  | S n, Some (mkThread c (Do a k) h) =>
      let '(x, u) := match perform _ a (shared w) with Some xu => xu | None => (oracle _ a, shared w) end in
      if ok u then drive_while ok oracle n i (mkWorld u (<[i := mkThread c (k x) (h ++ [Event _ a x])]> (threads w))) else w
  | _, _ => w
  end.

Lemma drive_while_steps (ok : W → bool) oracle n i w : rtc (step_while (fun u => ok u = true)) w (drive_while ok oracle n i w).
Proof.
  revert w. induction n as [|n IH]; intros w; [apply rtc_refl|]. cbn [drive_while].
  destruct (threads w !! i) as [[c [|X a k] h]|] eqn:E; try apply rtc_refl.
  destruct (match perform X a (shared w) with Some _ => _ | None => _ end) as [x u] eqn:Ep.
  destruct (ok u) eqn:Eo; [|apply rtc_refl]. eapply rtc_l; [|apply IH]. split; [|done].
  eapply Act; [exact E|]. unfold answers. destruct (perform X a (shared w)) as [[x' u']|]; by injection Ep as <- <-.
Qed.
End World.

End Prog.
Arguments prog act A : clear implicits.
Arguments Ret {act A} a.
Arguments Do {act A X} a k.
Arguments event act : clear implicits.
Arguments thread act C : clear implicits.
Arguments world act C W : clear implicits.

Notation "'let*' x ':=' p 'in' q" := (bind p (fun x => q)) (at level 10, x pattern, p at level 100, q at level 200) : go_scope.
Notation "p ;;; q" := (bind p (fun _ => q)) (at level 199, right associativity) : go_scope.
