(* ===== verification/Password.v ===== *)
(** Password: password hashes and who may sign in ([password.go], and
    [authChecker] of [serve.go]). The key derivations and SHA-256 are
    parameters. *)

From S2P Require Import Prelude GoStr Rules Config.

(** * Base64, without padding ([base64.RawStdEncoding]) *)

Definition b64_alphabet : bytes :=
  lit "ABCDEFGHIJKLMNOPQRSTUVWXYZabcdefghijklmnopqrstuvwxyz0123456789+/".
Definition b64_char (n : Z) : Z := default 0 (b64_alphabet !! Z.to_nat n).
Definition b64_val (c : Z) : option Z := Z.of_nat <$> index_byte b64_alphabet c.

Fixpoint b64_encode (b : bytes) : bytes :=
  match b with
  | x :: y :: z :: b => b64_char (x / 4) :: b64_char (x mod 4 * 16 + y / 16) :: b64_char (y mod 16 * 4 + z / 64) :: b64_char (z mod 64) :: b64_encode b
  | [x; y] => [b64_char (x / 4); b64_char (x mod 4 * 16 + y / 16); b64_char (y mod 16 * 4)]
  | [x] => [b64_char (x / 4); b64_char (x mod 4 * 16)]
  | [] => []
  end.

(** The digits in groups of four; what is left of the last group is dropped. *)
Fixpoint b64_bytes (d : list Z) : option bytes :=
  match d with
  | a :: b :: c :: e :: d => (fun r => (a * 4 + b / 16) :: (b mod 16 * 16 + c / 4) :: (c mod 4 * 64 + e) :: r) <$> b64_bytes d
  | [a; b; c] => Some [a * 4 + b / 16; b mod 16 * 16 + c / 4]
  | [a; b] => Some [a * 4 + b / 16]
  | [_] => None
  | [] => Some []
  end.
(** [DecodeString]: line ends are skipped. *)
Definition b64_decode (s : bytes) : option bytes :=
  mapM b64_val (filter (fun c => c <> 10 ∧ c <> 13) s) ≫= b64_bytes.

(** * Hashes *)

Definition hashPrefix : bytes := lit "pbkdf2-sha256".
Definition argon2Prefix : bytes := lit "$argon2id$".
Definition argon2Memory : Z := 64 * 1024.
Definition argon2Passes : Z := 3.
Definition argon2Lanes : Z := 4.

Record argon2Params := mkArgon2 { a_memory : Z; a_passes : Z; a_lanes : Z; a_salt : bytes; a_key : bytes }.

(** [strings.Cut] at a byte: without it, all of the text and nothing. *)
Definition cut_byte (s : bytes) (c : Z) : bytes * bytes :=
  match index_byte s c with Some i => (take i s, drop (S i) s) | None => (s, []) end.

(** [parseHash] *)
Definition parseHash (hash : bytes) : res err (Z * bytes * bytes) :=
  match split_byte hash (ch "$") with
  | [p0; p1; p2; p3] =>
      guard! bool_decide (p0 = hashPrefix) else "not an argon2id or pbkdf2-sha256 hash"%string in
      match atoi p1 with
      | Some iter =>
          guard! 1000 <=? iter else "bad iteration count in password hash"%string in
          match b64_decode p2 with
          | Some salt =>
              guard! 8 <=? len salt else "bad salt in password hash"%string in
              match b64_decode p3 with
              | Some key => guard! 16 <=? len key else "bad key in password hash"%string in Ok (iter, salt, key)
              | None => Err "bad key in password hash"%string
              end
          | None => Err "bad salt in password hash"%string
          end
      | None => Err "bad iteration count in password hash"%string
      end
  | _ => Err "not an argon2id or pbkdf2-sha256 hash"%string
  end.

(** The loop over [m=..,t=..,p=..]. *)
Fixpoint argon2_parameters (kvs : list bytes) (m t l : Z) : res err (Z * Z * Z) :=
  match kvs with
  | [] => Ok (m, t, l)
  | kv :: kvs =>
      let '(k, v) := cut_byte kv (ch "=") in
      match parse_uint v 32 with
      | None => Err "parameter"%string
      | Some n =>
          if says k "m" then argon2_parameters kvs n t l
          else if says k "t" then argon2_parameters kvs m n l
          else if says k "p" then argon2_parameters kvs m t n
          else Err "parameter"%string
      end
  end.

(** [parseArgon2]: the cost is capped. *)
Definition parseArgon2 (hash : bytes) : res err argon2Params :=
  match split_byte hash (ch "$") with
  | [_; p1; p2; p3; p4; p5] =>
      guard! says p1 "argon2id" else "wrong number of $ parts"%string in
      guard! says p2 "v=19" else "version"%string in
      let! (m, t, l) := argon2_parameters (split_byte p3 (ch ",")) 0 0 0 in
      guard! (8 <=? m) && (m <=? Z.shiftl 1 20) else "m (memory in KiB) must be 8..1048576"%string in
      guard! (1 <=? t) && (t <=? 100) else "t (passes) must be 1..100"%string in
      guard! (1 <=? l) && (l <=? 64) else "p (lanes) must be 1..64"%string in
      match b64_decode p4, b64_decode p5 with
      | Some salt, Some key =>
          guard! 8 <=? len salt else "salt"%string in
          guard! 16 <=? len key else "hash"%string in
          Ok (mkArgon2 m t l salt key)
      | None, _ => Err "salt"%string
      | Some salt, None => guard! 8 <=? len salt else "salt"%string in Err "hash"%string
      end
  | _ => Err "wrong number of $ parts"%string
  end.

(** [validHash] *)
Definition validHash (hash : bytes) : res err unit :=
  if has_prefix hash argon2Prefix then let! _ := parseArgon2 hash in Ok tt
  else let! _ := parseHash hash in Ok tt.

Section Derive.
(* argon2.IDKey password salt passes memory lanes keyLen, and pbkdf2.Key with
   SHA-256: password salt iterations keyLength *)
Context (IDKey : bytes → bytes → Z → Z → Z → Z → bytes) (Key : bytes → bytes → Z → Z → bytes).

(** [hashPassword], with the salt it drew. *)
Definition hashPassword (salt password : bytes) : bytes :=
  let key := IDKey password salt argon2Passes argon2Memory argon2Lanes 32 in
  argon2Prefix ++ lit "v=19$m=" ++ itoa argon2Memory ++ lit ",t=" ++ itoa argon2Passes ++ lit ",p=" ++ itoa argon2Lanes ++
  lit "$" ++ b64_encode salt ++ lit "$" ++ b64_encode key.

(** [checkPassword] *)
Definition checkPassword (hash password : bytes) : bool :=
  if has_prefix hash argon2Prefix then
    match parseArgon2 hash with
    | Ok p => bool_decide (IDKey password (a_salt p) (a_passes p) (a_memory p) (a_lanes p) (len (a_key p)) = a_key p)
    | Err _ => false
    end
  else
    match parseHash hash with
    | Ok (iter, salt, want) => bool_decide (Key password salt iter (len want) = want)
    | Err _ => false
    end.

(** * Who may sign in ([authChecker]) *)

Definition authRemember : Z := 5 * 60 * second.
Definition authRememberMax : Z := 4096.

(* sha256.Sum256 *)
Context (sha256 : bytes → bytes).

(** The passwords that matched lately, by digest, and until when. *)
Abbreviation good := (gmap bytes Z).

Inductive refusal := NoUser | UserDisabled | UserExpired | WrongPassword.
#[export] Instance refusal_eq_dec : EqDecision refusal.
Proof. solve_decision. Defined.

Definition remember_key (hash user password : bytes) : bytes := sha256 (hash ++ [0] ++ user ++ [0] ++ password).

(** [check]: the checker after it, and why not, if not. *)
Definition check (a : good) (ba : Rules.BasicAuth) (user password : bytes) (now : Z) : good * option refusal :=
  match ba_Users ba !! user with
  | None => (a, Some NoUser)
  | Some cred =>
      if cr_disabled cred then (a, Some UserDisabled)
      else if match cr_expires cred with Some t => t <=? now | None => false end then (a, Some UserExpired)
      else if bool_decide (cr_hash cred = []) then
        (a, if bool_decide (cr_plain cred = password) then None else Some WrongPassword)
      else
        let key := remember_key (cr_hash cred) user password in
        if match a !! key with Some until => now <? until | None => false end then (a, None)
        else if negb (checkPassword (cr_hash cred) password) then (a, Some WrongPassword)
        else
          let a := if authRememberMax <=? Z.of_nat (size a) then ∅ else a in
          (<[key := now + authRemember]> a, None)
  end.

(** The same, remembering nothing. *)
Definition may_sign_in (ba : Rules.BasicAuth) (user password : bytes) (now : Z) : option refusal :=
  match ba_Users ba !! user with
  | None => Some NoUser
  | Some cred =>
      if cr_disabled cred then Some UserDisabled
      else if match cr_expires cred with Some t => t <=? now | None => false end then Some UserExpired
      else if (if bool_decide (cr_hash cred = []) then bool_decide (cr_plain cred = password) else checkPassword (cr_hash cred) password)
      then None else Some WrongPassword
  end.

(** A run of requests: items, users, passwords and times; and the answers. *)
Fixpoint checks (a : good) (rs : list (Rules.BasicAuth * bytes * bytes * Z)) : list (option refusal) :=
  match rs with
  | [] => []
  | (ba, user, password, now) :: rs => let '(a, r) := check a ba user password now in r :: checks a rs
  end.
End Derive.

(** * Base64 there and back *)

Ltac Zify.zify_post_hook ::= Z.div_mod_to_equations.

Definition digit64 (n : Z) : Prop := 0 <= n < 64.

Lemma b64_digit n : digit64 n → b64_val (b64_char n) = Some n ∧ b64_char n ∉ [10; 13; ch "$"; ch ","].
Proof.
  intros Hn. rewrite <- (Z2Nat.id n) by (unfold digit64 in Hn; lia).
  assert (Z.to_nat n < 64)%nat as Hk by (unfold digit64 in Hn; lia). revert Hk. generalize (Z.to_nat n) as k. intros k Hk.
  do 64 (destruct k as [|k]; [split; [vm_compute; reflexivity|apply (bool_decide_unpack _); vm_compute; reflexivity]|]). lia.
Qed.

Ltac digits := repeat (apply Forall_cons; split; [unfold digit64; lia|]); first [done|apply Forall_nil_2].

Lemma b64_encode_digits b : bytes_ok b →
  ∃ d, Forall digit64 d ∧ b64_encode b = b64_char <$> d ∧ b64_bytes d = Some b.
Proof.
  assert (∀ n b, (length b <= n)%nat → bytes_ok b →
    ∃ d, Forall digit64 d ∧ b64_encode b = b64_char <$> d ∧ b64_bytes d = Some b) as H; [|by apply (H (length b))].
  clear b. induction n as [|n IH]; intros b Hl Hb; [destruct b; [|cbn in Hl; lia]; exists []; by repeat split|].
  destruct b as [|x [|y [|z b]]].
  - exists []. by repeat split.
  - exists [x / 4; x mod 4 * 16]. decompose_Forall_hyps. unfold byte_ok in *.
    split; [digits|]. split; [done|]. cbn. do 2 f_equal. lia.
  - exists [x / 4; x mod 4 * 16 + y / 16; y mod 16 * 4]. decompose_Forall_hyps. unfold byte_ok in *.
    split; [digits|]. split; [done|]. cbn. repeat f_equal; lia.
  - decompose_Forall_hyps. destruct (IH b) as (d & Hd & He & Hdec); [cbn in Hl; lia|done|].
    exists (x / 4 :: (x mod 4 * 16 + y / 16) :: (y mod 16 * 4 + z / 64) :: z mod 64 :: d). unfold byte_ok in *.
    split; [digits|]. split; [cbn; by rewrite He|].
    cbn [b64_bytes]. rewrite Hdec. cbn. repeat f_equal; lia.
Qed.

Lemma filter_all {A} (P : A → Prop) `{∀ x, Decision (P x)} l : Forall P l → filter P l = l.
Proof. induction 1 as [|x l Hx Hl IH]; [done|]. by rewrite filter_cons_True, IH. Qed.

Lemma b64_roundtrip b : bytes_ok b → b64_decode (b64_encode b) = Some b ∧ ch "$" ∉ b64_encode b.
Proof.
  intros Hb. destruct (b64_encode_digits b Hb) as (d & Hd & -> & Hdec). split.
  - unfold b64_decode. rewrite filter_all.
    2:{ apply Forall_fmap. eapply Forall_impl; [exact Hd|]. intros n [_ Hn]%b64_digit. cbn. set_solver. }
    rewrite (mapM_fmap_Forall_Some b64_val b64_char); [done|]. eapply Forall_impl; [exact Hd|]. by intros n [? _]%b64_digit.
  - intros (n & Hc & Hn)%list_elem_of_fmap. rewrite Forall_forall in Hd. apply Hd, b64_digit in Hn as [_ Hn]. rewrite <- Hc in Hn. set_solver.
Qed.

Section Hashes.
Context (IDKey : bytes → bytes → Z → Z → Z → Z → bytes).

(** The text of [hashPassword] reads back as what it was made of. *)
Lemma parse_hashPassword salt password :
  bytes_ok salt → 8 <= len salt →
  let key := IDKey password salt argon2Passes argon2Memory argon2Lanes 32 in
  bytes_ok key → len key = 32 →
  parseArgon2 (hashPassword IDKey salt password) = Ok (mkArgon2 argon2Memory argon2Passes argon2Lanes salt key).
Proof.
  intros Hs Hl key Hk Hlk. unfold hashPassword. fold key.
  destruct (b64_roundtrip salt Hs) as [Es Fs]. destruct (b64_roundtrip key Hk) as [Ek Fk].
  unfold parseArgon2.
  assert (split_byte (argon2Prefix ++ lit "v=19$m=" ++ itoa argon2Memory ++ lit ",t=" ++ itoa argon2Passes ++ lit ",p=" ++ itoa argon2Lanes ++
      lit "$" ++ b64_encode salt ++ lit "$" ++ b64_encode key) (ch "$") =
    [[]; lit "argon2id"; lit "v=19"; lit "m=65536,t=3,p=4"; b64_encode salt; b64_encode key]) as ->.
  { change (split_byte ([] ++ ch "$" :: lit "argon2id" ++ ch "$" :: lit "v=19" ++ ch "$" :: lit "m=65536,t=3,p=4" ++ ch "$" ::
      b64_encode salt ++ ch "$" :: b64_encode key) (ch "$") =
      [[]; lit "argon2id"; lit "v=19"; lit "m=65536,t=3,p=4"; b64_encode salt; b64_encode key]).
    rewrite !split_join_cons, split_byte_none by (done || apply (bool_decide_unpack _); vm_compute; reflexivity). done. }
  change (argon2_parameters _ 0 0 0) with (Ok (E := err) (65536, 3, 4)). cbn [says]. rewrite Es, Ek, Hlk.
  destruct (Z.leb_spec 8 (len salt)); [done|lia].
Qed.
End Hashes.

(** What the checker remembers did match. *)
Definition remembers (IDKey : bytes → bytes → Z → Z → Z → Z → bytes) (Key : bytes → bytes → Z → Z → bytes)
    (sha256 : bytes → bytes) (a : gmap bytes Z) : Prop :=
  ∀ k until, a !! k = Some until →
    ∃ hash user password, (0 ∉ hash) ∧ (0 ∉ user) ∧ k = remember_key sha256 hash user password ∧ checkPassword IDKey Key hash password = true.

Lemma nul_inj (h h' u u' p p' : bytes) : (0 ∉ h) → (0 ∉ h') → (0 ∉ u) → (0 ∉ u') →
  (h ++ [0] ++ u ++ [0] ++ p) = (h' ++ [0] ++ u' ++ [0] ++ p') → h = h' ∧ u = u' ∧ p = p'.
Proof.
  assert (∀ x x' y y' : bytes, (0 ∉ x) → (0 ∉ x') → (x ++ 0 :: y) = (x' ++ 0 :: y') → x = x' ∧ y = y') as Hi.
  { induction x as [|c x IH]; intros [|c' x'] y y' Hx Hx'; cbn; rewrite ?not_elem_of_cons in *; [naive_solver..|].
    intros [= -> Hr]. destruct Hx, Hx'. by destruct (IH x' y y') as [-> ->]. }
  cbn. intros ? ? ? ? [-> [-> ->]%Hi]%Hi; done.
Qed.

(** A user of an item, as the configuration leaves them. *)
Definition item_ok (ba : Rules.BasicAuth) : Prop :=
  ∀ user cred, ba_Users ba !! user = Some cred → (0 ∉ user) ∧ (0 ∉ cr_hash cred).

Lemma check_remembers IDKey Key sha256 a ba user password now :
  (∀ x y, sha256 x = sha256 y → x = y) → item_ok ba → remembers IDKey Key sha256 a →
  let '(a', r) := check IDKey Key sha256 a ba user password now in
  remembers IDKey Key sha256 a' ∧ r = may_sign_in IDKey Key ba user password now.
Proof.
  intros Hinj Hok Ha. unfold check, may_sign_in. destruct (ba_Users ba !! user) as [cred|] eqn:Eu; [|done].
  destruct (Hok _ _ Eu) as [Hu Hh]. destruct (cr_disabled cred); [done|]. destruct (match cr_expires cred with Some t => _ | None => _ end); [done|].
  destruct (bool_decide (cr_hash cred = [])); [done|].
  destruct (match a !! _ with Some until => now <? until | None => false end) eqn:Em.
  - destruct (a !! _) as [until|] eqn:Ek; [|done]. destruct (Ha _ _ Ek) as (h & u & p & H1 & H2 & H3%Hinj & H4).
    apply nul_inj in H3 as (-> & -> & ->); [|done..]. by rewrite H4.
  - destruct (checkPassword IDKey Key (cr_hash cred) password) eqn:Ec; cbn [negb]; [|done]. split; [|done].
    assert (remembers IDKey Key sha256 (if authRememberMax <=? Z.of_nat (size a) then ∅ else a)) as Ha' by (destruct (_ <=? _); [intros k u; by rewrite lookup_empty|done]).
    intros k until. destruct (decide (k = remember_key sha256 (cr_hash cred) user password)) as [->|Hk]; [|rewrite lookup_insert_ne by done; apply Ha'].
    intros _. exists (cr_hash cred), user, password. done.
Qed.

(** * Properties *)

(** A hash made for a password is one the configuration takes, and it
    checks against a password exactly when the two derive the same key. *)
Theorem hash_checks (IDKey : bytes → bytes → Z → Z → Z → Z → bytes) (Key : bytes → bytes → Z → Z → bytes) (salt password other : bytes) :
  bytes_ok salt → len salt = 16 →
  (∀ p, let k := IDKey p salt argon2Passes argon2Memory argon2Lanes 32 in bytes_ok k ∧ len k = 32) →
  let derive p := IDKey p salt argon2Passes argon2Memory argon2Lanes 32 in
  validHash (hashPassword IDKey salt password) = Ok tt ∧
  checkPassword IDKey Key (hashPassword IDKey salt password) other = bool_decide (derive other = derive password).
Proof.
  intros Hs Hl Hk derive. destruct (Hk password) as [Hb Hlen].
  unfold validHash, checkPassword.
  assert (has_prefix (hashPassword IDKey salt password) argon2Prefix = true) as -> by apply has_prefix_app.
  rewrite parse_hashPassword by (done || lia). cbn. by rewrite Hlen.
Qed.

Definition w_derive (p salt : bytes) (_ _ _ n : Z) : bytes := take (Z.to_nat n) (p ++ replicate (Z.to_nat n) 0).
Lemma hash_checks_witness :
  let h := hashPassword (fun p s a b c n => (fun x => x mod 256) <$> w_derive p s a b c n) (replicate 16 7) (lit "secret") in
  validHash h = Ok tt ∧
  checkPassword (fun p s a b c n => (fun x => x mod 256) <$> w_derive p s a b c n) (fun p _ _ _ => p) h (lit "guess") = false.
Proof.
  destruct (hash_checks (fun p s a b c n => (fun x => x mod 256) <$> w_derive p s a b c n) (fun p _ _ _ => p)
    (replicate 16 7) (lit "secret") (lit "guess")) as [H1 H2].
  - apply (bool_decide_unpack _). vm_compute. reflexivity.
  - reflexivity.
  - intros p. cbn zeta. unfold w_derive. split.
    + apply Forall_fmap, Forall_forall. intros x _. unfold byte_ok. cbn. apply Z.mod_pos_bound. reflexivity.
    + unfold len. rewrite length_fmap, length_take, length_app, length_replicate. lia.
  - split; [exact H1|]. etransitivity; [exact H2|]. vm_compute. reflexivity.
Defined.

(** What [authChecker] remembers never changes an answer: whoever may
    sign in without it may with it, and nobody else, whatever came before:
    a disabled or expired user, an unknown one and a wrong password are
    refused however lately the right one was given. *)
Theorem auth_memory_transparent (IDKey : bytes → bytes → Z → Z → Z → Z → bytes) (Key : bytes → bytes → Z → Z → bytes)
    (sha256 : bytes → bytes) (rs : list (Rules.BasicAuth * bytes * bytes * Z)) :
  (∀ x y, sha256 x = sha256 y → x = y) → Forall (fun r => item_ok r.1.1.1) rs →
  checks IDKey Key sha256 ∅ rs = (fun '(ba, user, password, now) => may_sign_in IDKey Key ba user password now) <$> rs.
Proof.
  intros Hinj Hrs. assert (remembers IDKey Key sha256 ∅) as Ha by (intros k u; by rewrite lookup_empty).
  revert Ha. generalize (∅ : gmap bytes Z) as a.
  induction Hrs as [|[[[ba user] password] now] rs Hok Hrs IH]; intros a Ha; [done|]. cbn.
  pose proof (check_remembers IDKey Key sha256 a ba user password now Hinj Hok Ha) as Hc.
  destruct (check IDKey Key sha256 a ba user password now) as [a' r]. destruct Hc as [Ha' ->]. f_equal. by apply IH.
Qed.

Definition w_item : Rules.BasicAuth :=
  mkBasicAuth (lit "team") 1 {[lit "bob" := Credential [] (lit "pbkdf2-sha256$1000$AAAAAAAAAAAAAAA$AAAAAAAAAAAAAAAAAAAAAAA") false (Some 100)]}.
Lemma auth_memory_transparent_witness :
  checks (fun p _ _ _ _ _ => p) (fun p _ _ n => if bool_decide (p = lit "pw") then replicate (Z.to_nat n) 0 else p) id ∅
    [(w_item, lit "bob", lit "pw", 50); (w_item, lit "bob", lit "pw", 60); (w_item, lit "bob", lit "no", 70); (w_item, lit "bob", lit "pw", 100)]
  = [None; None; Some WrongPassword; Some UserExpired].
Proof.
  etransitivity; [apply auth_memory_transparent; [done|]|vm_compute; reflexivity].
  repeat (apply Forall_cons; split; [|]); try apply Forall_nil_2;
    intros user cred H; cbn in H; apply lookup_singleton_Some in H as [<- <-]; split; apply (bool_decide_unpack _); vm_compute; reflexivity.
Defined.
