(* ===== verification/Http.v ===== *)
(** Http: the parts of [net/http], [net/url] and [path] the serving code is
    written with: headers, requests, escaped paths, cleaned paths,
    [SplitHostPort], Basic credentials. *)

From S2P Require Import Prelude GoStr NetIP Rules Config Password.

(** * Headers ([http.Header]) *)

Abbreviation Header := (gmap bytes (list bytes)).

Definition token_char (c : Z) : bool := is_digit c || is_upper c || is_lower c || contains (lit "!#$%&'*+-.^_`|~") c.

Fixpoint canonical_go (up : bool) (s : bytes) : bytes :=
  match s with
  | [] => []
  | c :: s => (if up then (if is_lower c then c - 32 else c) else lower c) :: canonical_go (c =? ch "-") s
  end.
(** [CanonicalMIMEHeaderKey] *)
Definition canonical (k : bytes) : bytes := if forallb token_char k then canonical_go true k else k.

Definition hdr_set (h : Header) (k v : bytes) : Header := <[canonical k := [v]]> h.
Definition hdr_del (h : Header) (k : bytes) : Header := delete (canonical k) h.
Definition hdr_values (h : Header) (k : bytes) : list bytes := default [] (h !! canonical k).
Definition hdr_add (h : Header) (k v : bytes) : Header := <[canonical k := hdr_values h k ++ [v]]> h.
Definition hdr_get (h : Header) (k : bytes) : bytes := default [] (head (hdr_values h k)).

(** * Addresses with a port ([net.SplitHostPort]) *)

Definition split_host_port (s : bytes) : option (bytes * bytes) :=
  match last_index_byte s (ch ":") with
  | None => None
  | Some i =>
      if bool_decide (head s = Some (ch "[")) then
        match index_byte s (ch "]") with
        | None => None
        | Some e =>
            if negb (S e =? i)%nat || contains (drop 1 s) (ch "[") || contains (drop (S e) s) (ch "]") then None
            else Some (take (e - 1) (drop 1 s), drop (S i) s)
        end
      else if contains (take i s) (ch ":") || contains s (ch "[") || contains s (ch "]") then None
      else Some (take i s, drop (S i) s)
  end.

(** * Escaped paths ([net/url]) *)

Definition hex_val (c : Z) : option Z :=
  if is_digit c then Some (c - 48)
  else if (97 <=? c) && (c <=? 102) then Some (c - 87)
  else if (65 <=? c) && (c <=? 70) then Some (c - 55)
  else None.
Definition upper_hex (n : Z) : Z := if n <? 10 then n + 48 else n + 55.

(** [PathUnescape] *)
Fixpoint path_unescape (s : bytes) : option bytes :=
  match s with
  | [] => Some []
  | c :: s' =>
      if c =? ch "%" then
        match s' with
        | a :: b :: s'' =>
            x ← hex_val a; y ← hex_val b; r ← path_unescape s''; Some (x * 16 + y :: r)
        | _ => None
        end
      else r ← path_unescape s'; Some (c :: r)
  end.

(** [shouldEscape] in a path. *)
Definition should_escape (c : Z) : bool :=
  negb (is_digit c || is_upper c || is_lower c || contains (lit "-_.~$&+,/:;=@") c).
Definition escape_path (s : bytes) : bytes :=
  concat ((fun c => if should_escape c then [ch "%"; upper_hex (c / 16); upper_hex (c mod 16)] else [c]) <$> s).
(** [validEncoded] in a path. *)
Definition valid_encoded (s : bytes) : bool := forallb (fun c => contains (lit "!$&'()*+,;=:@[]%") c || negb (should_escape c)) s.

(** [EscapedPath] *)
Definition escaped_path (path raw : bytes) : bytes :=
  if negb (bool_decide (raw = [])) && valid_encoded raw && bool_decide (path_unescape raw = Some path) then raw
  else if bool_decide (path = lit "*") then lit "*"
  else escape_path path.

(** * Clean paths ([path.Clean], [path.Join]) *)

Definition slash : Z := ch "/".
Definition dot : bytes := lit ".".
Definition dotdot : bytes := lit "..".

(** The elements kept, the last first. *)
Fixpoint clean_go (rooted : bool) (st : list bytes) (parts : list bytes) : list bytes :=
  match parts with
  | [] => st
  | p :: parts =>
      if bool_decide (p = []) || bool_decide (p = dot) then clean_go rooted st parts
      else if bool_decide (p = dotdot) then
        match st with
        | x :: st' => if bool_decide (x = dotdot) then clean_go rooted (p :: st) parts else clean_go rooted st' parts
        | [] => clean_go rooted (if rooted then [] else [p]) parts
        end
      else clean_go rooted (p :: st) parts
  end.
Definition is_rooted (p : bytes) : bool := has_prefix p (lit "/").
Definition clean_parts (p : bytes) : list bytes := reverse (clean_go (is_rooted p) [] (split_byte p slash)).
Definition path_clean (p : bytes) : bytes :=
  let body := join (lit "/") (clean_parts p) in
  if is_rooted p then slash :: body else if bool_decide (body = []) then dot else body.
Definition path_join (a b : bytes) : bytes :=
  match filter (fun s => s <> []) [a; b] with [] => [] | l => path_clean (join (lit "/") l) end.

(** * Requests *)

(** [oidcIdentity] ([oidc.go]); times in seconds. *)
Record oidcIdentity := mkIdentity {
  id_User : bytes; id_Email : bytes; id_Subject : bytes; id_Groups : list bytes; id_Roles : list bytes; id_MFA : bool;
  id_AskedMFA : bool; id_Issued : Z; id_Expires : Z;
}.
(** One made for a Basic user. *)
Definition basic_identity (user : bytes) : oidcIdentity := mkIdentity user [] [] [] [] false false 0 0.

(** [http.Request]; [rq_User] is the context's identity, [rq_Local] its local
    address. *)
Record request := mkRequest {
  rq_Method : bytes; rq_Proto : Z * Z; rq_Host : bytes; rq_Scheme : bytes; rq_URLHost : bytes;
  rq_Path : bytes; rq_RawPath : bytes; rq_RawQuery : bytes; rq_Header : Header;
  rq_RemoteAddr : bytes; rq_Local : option bytes; rq_User : option oidcIdentity;
}.

(** [base64.StdEncoding.DecodeString]: groups of four, the last padded. *)
Definition b64_decode_std (s : bytes) : option bytes :=
  let s := filter (fun c => c <> 10 ∧ c <> 13) s in
  let body := trim_suffix (trim_suffix s (lit "=")) (lit "=") in
  if Nat.eqb (length s mod 4) 0 then mapM b64_val body ≫= b64_bytes else None.

(** [Request.BasicAuth] *)
Definition basic_credentials (h : Header) : option (bytes * bytes) :=
  let auth := hdr_get h (lit "Authorization") in
  if (length auth <? 6)%nat || negb (equal_fold (take 6 auth) (lit "Basic ")) then None
  else c ← b64_decode_std (drop 6 auth); i ← index_byte c (ch ":"); Some (take i c, drop (S i) c).

(** * Cookies *)

Definition cookie_byte (b : Z) : bool := (32 <=? b) && (b <? 127) && negb (contains [34; ch ";"; 92] b).
(** A cookie's value, without its quotes, and whether it had them. *)
Definition cookie_value (raw : bytes) : option (bytes * bool) :=
  let quoted := (1 <? length raw)%nat && bool_decide (head raw = Some 34) && bool_decide (last raw = Some 34) in
  let v := if quoted then take (length raw - 2) (drop 1 raw) else raw in
  if forallb cookie_byte v then Some (v, quoted) else None.
Definition http_trim (s : bytes) : bytes := trim_func (fun b => (b =? 32) || (b =? 9)) s.

Record cookie := mkCookie { ck_Name : bytes; ck_Value : bytes; ck_Quoted : bool }.
Definition parse_cookie (part : bytes) : option cookie :=
  let part := http_trim part in
  if bool_decide (part = []) then None
  else
    let '(name, val) := cut_byte part (ch "=") in
    let name := http_trim name in
    if negb (bool_decide (name = [])) && forallb token_char name
    then (fun v => mkCookie name v.1 v.2) <$> cookie_value val else None.
(** [Request.Cookies], [Request.Cookie] *)
Definition read_cookies (h : Header) : list cookie :=
  concat ((fun line => omap parse_cookie (split_byte (http_trim line) (ch ";"))) <$> hdr_values h (lit "Cookie")).
Definition find_cookie (h : Header) (name : bytes) : option bytes :=
  ck_Value <$> find (fun c => bool_decide (ck_Name c = name)) (read_cookies h).

(** [Request.AddCookie] *)
Definition cookie_text (c : cookie) : bytes :=
  let v := ck_Value c in
  ck_Name c ++ lit "=" ++ (if bool_decide (v = []) then [] else if contains_any v (lit " ,") || ck_Quoted c then [34] ++ v ++ [34] else v).
Definition add_cookie (h : Header) (c : cookie) : Header :=
  let had := hdr_get h (lit "Cookie") in
  hdr_set h (lit "Cookie") (if bool_decide (had = []) then cookie_text c else had ++ lit "; " ++ cookie_text c).

(** * Queries ([net/url]) *)

Definition query_plain (c : Z) : bool := is_digit c || is_upper c || is_lower c || contains (lit "-_.~") c.
(** [QueryEscape], [QueryUnescape] *)
Definition query_escape (s : bytes) : bytes :=
  concat ((fun c => if query_plain c then [c] else if c =? 32 then lit "+" else [ch "%"; upper_hex (c / 16); upper_hex (c mod 16)]) <$> s).
Definition query_unescape (s : bytes) : option bytes := path_unescape ((fun c => if c =? ch "+" then 32 else c) <$> s).

(** [URL.Query]: the pairs that can be read; [Get] is the first. *)
Definition parse_query (s : bytes) : list (bytes * bytes) :=
  omap (fun part =>
    if bool_decide (part = []) || contains part (ch ";") then None
    else let '(k, v) := cut_byte part (ch "=") in k ← query_unescape k; v ← query_unescape v; Some (k, v))
    (split_byte s (ch "&")).
Definition query_get (q : list (bytes * bytes)) (k : bytes) : bytes := default [] (snd <$> find (fun e => bool_decide (e.1 = k)) q).

(** [Values.Encode]: by key. *)
Definition encode_query (q : list (bytes * bytes)) : bytes :=
  join (lit "&") ((fun e => query_escape e.1 ++ lit "=" ++ query_escape e.2) <$> stable_sort (fun a b => str_less a.1 b.1) q).

(** * Escaping *)

Lemma unescape_plain c s : c ≠ ch "%" → path_unescape (c :: s) = (cons c) <$> path_unescape s.
Proof. intros Hc. cbn [path_unescape]. destruct (Z.eqb_spec c (ch "%")); [done|]. by destruct (path_unescape s). Qed.

Lemma hex_digit n : 0 <= n < 16 → hex_val (upper_hex n) = Some n.
Proof.
  intros H. assert (Forall (fun n => hex_val (upper_hex n) = Some n) (seqZ 0 16)) as Hall by (vm_compute; repeat constructor).
  rewrite Forall_forall in Hall. apply Hall, elem_of_seqZ. lia.
Qed.

Lemma unescape_hex c s : byte_ok c → path_unescape (ch "%" :: upper_hex (c / 16) :: upper_hex (c mod 16) :: s) = (cons c) <$> path_unescape s.
Proof.
  intros Hc. unfold byte_ok in Hc. pose proof (Z.div_mod c 16). pose proof (Z.mod_pos_bound c 16).
  assert (0 <= c / 16 < 16) by (split; [apply Z.div_pos|apply Z.div_lt_upper_bound]; lia).
  cbn [path_unescape]. rewrite Z.eqb_refl, !hex_digit by lia. cbn. destruct (path_unescape s); [|done]. cbn. do 2 f_equal. lia.
Qed.

(** Whatever is escaped, as long as [%] is, what is escaped is read back. *)
Lemma unescape_map (f : Z → bool) s : f (ch "%") = true → bytes_ok s →
  path_unescape (concat ((fun c => if f c then [ch "%"; upper_hex (c / 16); upper_hex (c mod 16)] else [c]) <$> s)) = Some s.
Proof.
  intros Hf. induction 1 as [|c s Hc Hs IH]; [done|]. rewrite fmap_cons. change (concat (?x :: ?l)) with (x ++ concat l).
  destruct (f c) eqn:E; cbn [app]; [rewrite unescape_hex by done|rewrite unescape_plain by (intros ->; congruence)]; by rewrite IH.
Qed.

(** * Clean paths are lists of names *)

(** An element a clean path is made of. *)
Definition plain (c : bytes) : Prop := c ≠ [] ∧ (slash ∉ c) ∧ c ≠ dot ∧ c ≠ dotdot.
#[export] Instance plain_dec c : Decision (plain c).
Proof. unfold plain. apply _. Defined.

Lemma clean_go_plain st parts : Forall plain st → Forall (fun p => slash ∉ p) parts → Forall plain (clean_go true st parts).
Proof.
  revert st. induction parts as [|p parts IH]; intros st Hst; cbn [clean_go]; [done|]. intros [Hp Hparts]%Forall_cons.
  destruct (decide (p = [])) as [->|H1]; [by apply IH|]. rewrite (bool_decide_false (p = [])) by done.
  destruct (decide (p = dot)) as [->|H2]; [by apply IH|]. rewrite (bool_decide_false (p = dot)) by done. cbn [orb].
  destruct (decide (p = dotdot)) as [->|H3].
  - rewrite bool_decide_true by done. destruct st as [|x st]; [by apply IH|]. apply Forall_cons in Hst as [(Hx1 & Hx2 & Hx3 & Hx4) Hst].
    rewrite bool_decide_false by done. by apply IH.
  - rewrite bool_decide_false by done. apply IH; [|done]. constructor; [by split_and!|done].
Qed.

(** Plain elements are kept as they are, others add nothing. *)
Lemma clean_go_keeps rooted st parts : Forall plain parts → clean_go rooted st parts = reverse parts ++ st.
Proof.
  revert st. induction parts as [|p parts IH]; intros st; cbn [clean_go]; [done|]. intros [(H1 & H2 & H3 & H4) Hparts]%Forall_cons.
  rewrite !bool_decide_false by done. cbn [orb]. rewrite IH by done. by rewrite reverse_cons, <- app_assoc.
Qed.

Lemma split_plain cs : cs ≠ [] → Forall plain cs → split_byte (join [slash] cs) slash = cs.
Proof.
  intros Hne H. induction H as [|c cs (H1 & H2 & _) Hcs IH]; [done|]. destruct cs as [|c' cs]; [by apply split_byte_none|].
  change (join [slash] (c :: c' :: cs)) with (c ++ slash :: join [slash] (c' :: cs)). rewrite split_join_cons by done. by rewrite IH.
Qed.

Lemma split_slash s : split_byte (slash :: s) slash = [] :: split_byte s slash.
Proof. done. Qed.

(** A rooted path, clean: a list of plain elements. *)
Lemma path_clean_rooted s : ∃ cs, Forall plain cs ∧ path_clean (slash :: s) = slash :: join [slash] cs ∧ clean_parts (slash :: s) = cs.
Proof.
  exists (clean_parts (slash :: s)). split; [|done]. unfold clean_parts. rewrite Forall_reverse.
  change (is_rooted (slash :: s)) with true. apply clean_go_plain; [done|]. apply split_byte_no_sep.
Qed.

Lemma join_plain_nil cs : Forall plain cs → join [slash] cs = [] ↔ cs = [].
Proof.
  intros H. destruct cs as [|c cs]; [done|]. apply Forall_cons in H as [(H1 & _) _]. split; [|done]. destruct c; [done|]. by destruct cs.
Qed.

Lemma split_clean cs : Forall plain cs → split_byte (slash :: join [slash] cs) slash = [] :: (if bool_decide (cs = []) then [[]] else cs).
Proof.
  intros H. rewrite split_slash. destruct cs as [|c cs]; [done|]. rewrite bool_decide_false by done. by rewrite split_plain.
Qed.

Lemma path_clean_again cs : Forall plain cs → path_clean (slash :: slash :: join [slash] cs) = slash :: join [slash] cs.
Proof.
  intros H. unfold path_clean, clean_parts. change (is_rooted (slash :: slash :: _)) with true. cbn [rev]. f_equal. f_equal.
  rewrite split_slash, split_clean by done. cbn [clean_go]. destruct cs as [|c cs]; [done|]. rewrite (bool_decide_false (c :: cs = [])) by done.
  rewrite !bool_decide_true by done. cbn [orb]. rewrite clean_go_keeps by done. by rewrite app_nil_r, reverse_involutive.
Qed.

Lemma not_rooted cs : cs ≠ [] → Forall plain cs → is_rooted (join [slash] cs) = false.
Proof.
  intros Hne H. destruct cs as [|c cs]; [done|]. apply Forall_cons in H as [(H1 & H2 & _) _]. destruct c as [|b c]; [done|].
  apply not_elem_of_cons in H2 as [H2 _]. assert (∃ s, join [slash] ((b :: c) :: cs) = b :: s) as [s ->] by (destruct cs; cbn; eauto).
  apply not_true_iff_false. intros [k Hk]%has_prefix_spec. injection Hk as -> _. by apply H2.
Qed.

(** Joining a clean name and an element. *)
Lemma path_join_plain cs n : cs ≠ [] → Forall plain cs → plain n → path_join (join [slash] cs) n = join [slash] (cs ++ [n]).
Proof.
  intros Hne H Hn. assert (Forall plain (cs ++ [n])) as Hall by (apply Forall_app; auto).
  unfold path_join. rewrite !filter_cons_True, filter_nil; [|by destruct Hn as [? _]|by rewrite join_plain_nil].
  assert (join (lit "/") [join [slash] cs; n] = join [slash] (cs ++ [n])) as ->.
  { clear H Hn Hall. induction cs as [|c cs IH]; [done|]. destruct cs as [|c' cs]; [done|]. cbn in *. rewrite <- !app_assoc. f_equal. cbn. f_equal. by apply IH. }
  unfold path_clean, clean_parts. rewrite not_rooted by (done || by destruct cs). rewrite split_plain by (done || by destruct cs).
  rewrite clean_go_keeps, app_nil_r, reverse_involutive by done.
  rewrite bool_decide_false; [done|]. rewrite (join_plain_nil (cs ++ [n])) by done. by destruct cs.
Qed.

Lemma path_join_dot n : plain n → path_join dot n = n.
Proof.
  intros Hn. pose proof Hn as (H1 & H2 & H3 & H4). unfold path_join. rewrite !filter_cons_True, filter_nil by done.
  unfold path_clean, clean_parts. change (is_rooted (join _ _)) with false. cbn [join].
  change (dot ++ lit "/" ++ n) with ([ch "."] ++ slash :: n). rewrite split_join_cons by (by intros ?%list_elem_of_singleton).
  rewrite split_byte_none by done. cbn [clean_go]. change (bool_decide ([ch "."] = dot)) with true. rewrite orb_true_r.
  rewrite (bool_decide_false (n = [])), (bool_decide_false (n = dot)), (bool_decide_false (n = dotdot)) by done. cbn. by rewrite bool_decide_false.
Qed.

(** * Headers, key by key *)

Lemma hdr_set_lookup h k v c : hdr_set h k v !! c = if bool_decide (canonical k = c) then Some [v] else h !! c.
Proof. unfold hdr_set. case_bool_decide; subst; [by rewrite lookup_insert_eq|by rewrite lookup_insert_ne]. Qed.
Lemma hdr_del_lookup h k c : hdr_del h k !! c = if bool_decide (canonical k = c) then None else h !! c.
Proof. unfold hdr_del. case_bool_decide; subst; [by rewrite lookup_delete_eq|by rewrite lookup_delete_ne]. Qed.
Lemma hdr_add_lookup h k v c : hdr_add h k v !! c = if bool_decide (canonical k = c) then Some (hdr_values h k ++ [v]) else h !! c.
Proof. unfold hdr_add. case_bool_decide; subst; [by rewrite lookup_insert_eq|by rewrite lookup_insert_ne]. Qed.

(** An escaped path reads back as the path. *)
Lemma escaped_path_unescape path raw : bytes_ok path → path_unescape (escaped_path path raw) = Some path.
Proof.
  intros Hp. unfold escaped_path.
  assert (path_unescape (if bool_decide (path = lit "*") then lit "*" else escape_path path) = Some path).
  { case_bool_decide as Hs; [by rewrite Hs|]. by apply (unescape_map should_escape). }
  destruct (negb _ && _); cbn [andb]; [|done]. by destruct (bool_decide_reflect (path_unescape raw = Some path)).
Qed.

(** Unescaping goes along the string. *)
Lemma path_unescape_app s k r : (ch "%" ∉ s) → path_unescape (s ++ k) = Some r → ∃ r', r = s ++ r' ∧ path_unescape k = Some r'.
Proof.
  revert r. induction s as [|c s IH]; intros r; [eauto|]. intros [Hc Hs]%not_elem_of_cons. cbn [app]. rewrite unescape_plain by done.
  destruct (path_unescape (s ++ k)) as [r0|] eqn:E; [|done]. injection 1 as <-. destruct (IH r0 Hs eq_refl) as (r' & -> & ?). by exists r'.
Qed.
