(* ===== verification/Redirect.v ===== *)
(** Redirect: what the redirect listener answers one request ([redirect.go]):
    the host a redirect names, the response, whether the connection stays
    open; and how a connection's end is read. The connection around it is in
    [Handle], what it writes in [Redirects]. *)

From S2P Require Import Prelude GoStr NetIP NetIPText Sni ProxyProto Rules Config Password Http.

Definition redirectKey : bytes := RedirectListenerName ++ [0] ++ lit "redirect".
Definition maxRedirectHeader : Z := Z.shiftl 8 10.
Definition redirectLingerBytes : Z := Z.shiftl 256 10.
Definition redirectLingerTime : Z := 2 * second.

(** * The host *)

(** [validPort] *)
Definition validPort (s : bytes) : bool :=
  negb (len s <? 2) && negb (6 <? len s) && bool_decide (head s = Some (ch ":")) && forallb is_digit (drop 1 s).

(** [redirectHost]; [None] where it is not ok. *)
Definition redirectHost (h : bytes) : option bytes :=
  if has_prefix h (lit "[") then
    match index_byte h (ch "]") with
    | None => None
    | Some e =>
        let rest := drop (S e) h in
        match parse_addr (take (e - 1) (drop 1 h)) with
        | Some a =>
            if negb (is6 a) || negb (bool_decide (zone a = [])) then None
            else if negb (bool_decide (rest = [])) && negb (validPort rest) then None
            else Some (to_lower (take (S e) h))
        | None => None
        end
    end
  else
    match (match index_byte h (ch ":") with
           | Some i => if validPort (drop i h) then Some (take i h) else None
           | None => Some h
           end) with
    | None => None
    | Some h => if bool_decide (h = []) || negb (forallb isHostChar h) then None else Some (to_lower h)
    end.

(** * Requests and responses *)

(** A request's target as [url.ParseRequestURI] reads it, and the rest of
    what matters of [http.Request]. *)
Record http_request := mkHttp {
  hr_Method : bytes; hr_Host : bytes; hr_RequestURI : bytes;
  hr_Scheme : bytes; hr_Opaque : bytes; hr_Path : bytes; hr_RawPath : bytes; hr_ForceQuery : bool; hr_RawQuery : bytes;
  hr_Close : bool; hr_ContentLength : Z; hr_TransferEncoding : list bytes;
}.

(** [URL.RequestURI] *)
Definition request_target (q : http_request) : bytes :=
  (if bool_decide (hr_Opaque q = []) then
     let p := escaped_path (hr_Path q) (hr_RawPath q) in if bool_decide (p = []) then lit "/" else p
   else if has_prefix (hr_Opaque q) (lit "//") then hr_Scheme q ++ lit ":" ++ hr_Opaque q else hr_Opaque q)
  ++ (if hr_ForceQuery q || negb (bool_decide (hr_RawQuery q = [])) then lit "?" ++ hr_RawQuery q else []).

(** [http.StatusText], of the statuses written. *)
Definition status_text (status : Z) : bytes :=
  if status =? 301 then lit "Moved Permanently" else if status =? 308 then lit "Permanent Redirect"
  else if status =? 400 then lit "Bad Request" else if status =? 431 then lit "Request Header Fields Too Large" else [].

Definition crlf : bytes := [13; 10].
Definition server_name : bytes := lit "tlsproxy_go_quick".
Definition response_lines (status : Z) (location : bytes) (keepAlive : bool) : list bytes :=
  [lit "HTTP/1.1 " ++ itoa status ++ lit " " ++ status_text status; lit "Server: " ++ server_name]
  ++ (if bool_decide (location = []) then [] else [lit "Location: " ++ location])
  ++ [lit "Content-Length: 0"; lit "Connection: " ++ (if keepAlive then lit "keep-alive" else lit "close")].
(** [writeRedirectResponse] *)
Definition redirect_response (status : Z) (location : bytes) (keepAlive : bool) : bytes :=
  concat ((fun l => l ++ crlf) <$> response_lines status location keepAlive) ++ crlf.

(** The turn of the loop a request takes: the status, where to, and whether
    the connection stays open; [None] is 400 and the end. *)
Record turn := mkTurn { tn_host : bytes; tn_status : Z; tn_location : bytes; tn_keep : bool }.
Definition redirect_turn (q : http_request) : option turn :=
  match redirectHost (hr_Host q) with
  | Some host =>
      if bool_decide (hr_RequestURI q = lit "*") then None
      else Some (mkTurn host
        (if bool_decide (hr_Method q = lit "GET") || bool_decide (hr_Method q = lit "HEAD") then 301 else 308)
        (lit "https://" ++ host ++ request_target q)
        (negb (hr_Close q) && (hr_ContentLength q =? 0) && bool_decide (hr_TransferEncoding q = [])))
  | None => None
  end.

(** * The end of the requests *)

(** The error [http.ReadRequest] gave, whether the connection was killed, and
    whether the header's limit was used up. *)
Inductive http_err := HTimeout | HEOF | HUnexpectedEOF | HClosed | HOther.
Record http_end := mkHttpEnd { he_killed : bool; he_limit : bool; he_err : http_err }.
Inductive redirect_end :=
| RKilled | NoRequest | RIdle | HeaderTooLarge | ClientClosed | PartialRequest | BadRequest | NoUsableHost | WriteFailed | RedirectDone.
(** The switch: why, and the status still written. *)
Definition read_ended (e : http_end) (requests : Z) : redirect_end * option Z :=
  if he_killed e then (RKilled, None)
  else match he_err e with
       | HTimeout => if requests =? 0 then (NoRequest, None) else (RIdle, None)
       | err =>
           if he_limit e then (HeaderTooLarge, Some 431)
           else match err with
                | HEOF => if 0 <? requests then (ClientClosed, None) else (PartialRequest, None)
                | HUnexpectedEOF | HClosed => (PartialRequest, None)
                | _ => (BadRequest, Some 400)
                end
       end.
(** Whether the connection's end counts as a failure. *)
Definition end_failed (e : redirect_end) : bool :=
  match e with RKilled | RIdle | ClientClosed | RedirectDone => false | _ => true end.

(** * What is written *)

Lemma take_prefix_of {A} n (l : list A) : take n l `prefix_of` l.
Proof. exists (drop n l). by rewrite take_drop. Qed.

(** ** The host *)

(** Bytes that cannot end a line. *)
Definition no_line (s : bytes) : Prop := (10 ∉ s) ∧ (13 ∉ s).
#[export] Instance no_line_dec s : Decision (no_line s).
Proof. unfold no_line. apply _. Defined.
Lemma no_line_app s t : no_line s → no_line t → no_line (s ++ t).
Proof. intros [] []. split; rewrite elem_of_app; tauto. Qed.
Lemma no_line_all (f : Z → bool) s : f 10 = false → f 13 = false → forallb f s = true → no_line s.
Proof. intros H1 H2 H. rewrite forallb_forall in H. split; intros Hi%list_elem_of_In%H; congruence. Qed.


(** A host a redirect may name: host characters, or an IPv6 address in
    brackets. *)
Definition redirect_host (h : bytes) : Prop :=
  h ≠ [] ∧ (Forall (fun b => isHostChar b = true) h ∨
    ∃ x a, h = lit "[" ++ to_lower x ++ lit "]" ∧ parse_addr x = Some a ∧ is6 a = true ∧ zone a = []).

Lemma host_char_lower b : isHostChar b = true → isHostChar (lower b) = true.
Proof. unfold lower, is_upper. intros H. destruct ((65 <=? b) && (b <=? 90)) eqn:E; [|done]. unfold isHostChar in *. lia. Qed.

Lemma redirectHost_spec h host : redirectHost h = Some host →
  redirect_host host ∧ ∃ x port, h = x ++ port ∧ host = to_lower x ∧ (port = [] ∨ validPort port = true).
Proof.
  unfold redirectHost. destruct (has_prefix h (lit "[")) eqn:Ep.
  - apply has_prefix_spec in Ep as [k ->]. destruct (index_byte _ _) as [e|] eqn:Ee; [|done]. apply index_by_spec in Ee as [(b & Hb & Hpb) Hlt].
    destruct (parse_addr _) as [a|] eqn:Ea; [|done]. destruct (is6 a) eqn:E6; [|done]. destruct (bool_decide (zone a = [])) eqn:Ez; [|done].
    cbn [negb orb]. destruct (negb _ && negb _) eqn:Er; [done|]. intros [= Heq%eq_sym]. assert (host = to_lower (take (S e) (lit "[" ++ k))) as -> by done. clear Heq. apply bool_decide_eq_true in Ez.
    assert (take (S e) (lit "[" ++ k) = lit "[" ++ take (e - 1) (drop 1 (lit "[" ++ k)) ++ lit "]") as Ht.
    { destruct e as [|e]; [cbn in Hb; injection Hb as <-; done|]. rewrite (take_S_r _ _ b) by done. apply Z.eqb_eq in Hpb. subst b.
      change (lit "[" ++ k) with (ch "[" :: k). replace (S e - 1)%nat with e by lia. done. }
    split.
    + rewrite Ht, !to_lower_app. split; [done|]. right. by exists (take (e - 1) (drop 1 (lit "[" ++ k))), a.
    + exists (take (S e) (lit "[" ++ k)), (drop (S e) (lit "[" ++ k)). rewrite take_drop. split_and!; [done..|].
      apply andb_false_iff in Er as [Er%negb_false_iff|Er%negb_false_iff]; [left; by apply bool_decide_eq_true in Er|by right].
  - destruct (match index_byte h (ch ":") with Some _ => _ | None => _ end) as [h'|] eqn:E; [|done].
    destruct (bool_decide (h' = []) || negb (forallb isHostChar h')) eqn:Eb; [done|]. injection 1 as <-.
    apply orb_false_iff in Eb as [Hne%bool_decide_eq_false Hc%negb_false_iff]. rewrite forallb_forall in Hc.
    split.
    + split; [by destruct h'|]. left. unfold to_lower. apply Forall_fmap, Forall_forall. intros b Hb. apply host_char_lower, Hc, list_elem_of_In, Hb.
    + destruct (index_byte h (ch ":")) as [i|]; [|injection E as <-; exists h, []; rewrite app_nil_r; by auto].
      destruct (validPort _) eqn:Ev; [|done]. injection E as <-. exists (take i h), (drop i h). rewrite take_drop. by auto.
Qed.

(** No byte of such a host ends a line, or the authority of a URL. *)
Lemma redirect_host_clean h : redirect_host h → no_line h ∧ (slash ∉ h) ∧ (ch "?" ∉ h) ∧ (ch "#" ∉ h) ∧ (ch "@" ∉ h).
Proof.
  intros [_ Hh]. assert (Forall (fun b => isHostChar b || read_char b || (b =? ch "[") || (b =? ch "]") = true) h) as H.
  { destruct Hh as [Hh|(x & a & -> & Hp & H6 & Hz)]; [eapply Forall_impl; [exact Hh|]; intros b Hb; cbn beta; by rewrite Hb|].
    apply Forall_app; split; [by apply Forall_singleton|]. apply Forall_app; split; [|by apply Forall_singleton].
    apply (parse_addr_chars _ _ Hp H6) in Hz. rewrite forallb_forall in Hz. unfold to_lower. apply Forall_fmap, Forall_forall. intros b Hb%list_elem_of_In%Hz.
    unfold compose; cbn beta. enough (read_char (lower b) = true) as -> by (by rewrite orb_true_r).
    rewrite read_char_range in *. unfold lower, is_upper. destruct ((65 <=? b) && (b <=? 90)) eqn:E; [lia|done]. }
  rewrite Forall_forall in H. unfold no_line. split_and!; intros Hi%H; by vm_compute in Hi.
Qed.

Lemma escape_path_no_line s : bytes_ok s → no_line (escape_path s).
Proof.
  intros H. unfold escape_path. induction H as [|c s Hc Hs IH]; [split; by apply not_elem_of_nil|]. rewrite fmap_cons. change (concat (?x :: ?l)) with (x ++ concat l).
  apply no_line_app; [|done]. destruct (should_escape c) eqn:E.
  - unfold byte_ok in Hc. assert (0 <= c / 16 < 16) by (split; [apply Z.div_pos|apply Z.div_lt_upper_bound]; lia). pose proof (Z.mod_pos_bound c 16).
    assert (∀ n, 0 <= n < 16 → upper_hex n ≠ 10 ∧ upper_hex n ≠ 13) as Hu by (intros n; unfold upper_hex; destruct (n <? 10) eqn:?; lia).
    destruct (Hu (c / 16)), (Hu (c mod 16)); [lia..|]. split; rewrite !not_elem_of_cons; split_and!; try congruence; try done; apply not_elem_of_nil.
  - split; intros Hi%list_elem_of_singleton; subst c; vm_compute in E; done.
Qed.

Lemma escaped_path_no_line path raw : bytes_ok path → no_line (escaped_path path raw).
Proof.
  intros Hp. unfold escaped_path. destruct (negb _ && _ && _) eqn:E.
  - apply andb_true_iff in E as [[_ E]%andb_true_iff _]. unfold valid_encoded in E. refine (no_line_all _ _ _ _ E); by vm_compute.
  - destruct (bool_decide (path = lit "*")); [apply (bool_decide_unpack (no_line (lit "*"))); by vm_compute|by apply escape_path_no_line].
Qed.

(** What [http.ReadRequest] promises of a request: [url.Parse] refuses
    control bytes, and where it leaves no opaque part the path begins with a
    slash, is empty, or the whole target was a star. *)
Record parsed_request (q : http_request) : Prop := {
  pr_path : bytes_ok (hr_Path q);
  pr_opaque : no_line (hr_Opaque q);
  pr_scheme : no_line (hr_Scheme q);
  pr_query : no_line (hr_RawQuery q);
  pr_rooted : hr_Opaque q = [] → hr_RequestURI q ≠ lit "*" → hr_Path q = [] ∨ ∃ p, hr_Path q = slash :: p;
  pr_raw : hr_RawPath q = [] ∨ ∃ p, hr_RawPath q = slash :: p;
}.

Definition request_query (q : http_request) : bytes :=
  if hr_ForceQuery q || negb (bool_decide (hr_RawQuery q = [])) then lit "?" ++ hr_RawQuery q else [].

Lemma request_target_no_line q : parsed_request q → no_line (request_target q).
Proof.
  intros [Hp Ho Hs Hq _ _]. unfold request_target. apply no_line_app.
  - case_bool_decide.
    + case_bool_decide; [apply (bool_decide_unpack (no_line (lit "/"))); by vm_compute|by apply escaped_path_no_line].
    + case_match; [|done]. apply no_line_app; [done|]. apply no_line_app; [apply (bool_decide_unpack (no_line (lit ":"))); by vm_compute|done].
  - case_match; [|split; apply not_elem_of_nil]. apply no_line_app; [apply (bool_decide_unpack (no_line (lit "?"))); by vm_compute|done].
Qed.

(** The target of a request with a path: it begins with a slash, and its path
    and query are the request's. *)
Lemma request_target_path q : parsed_request q → hr_Opaque q = [] → hr_RequestURI q ≠ lit "*" →
  ∃ p, request_target q = (slash :: p) ++ request_query q ∧ path_unescape (slash :: p) = Some (if bool_decide (hr_Path q = []) then [slash] else hr_Path q).
Proof.
  intros [Hp _ _ _ Hr Hw] Ho Hu. unfold request_target. rewrite bool_decide_true by done. fold (request_query q).
  destruct (Hr Ho Hu) as [E|[k E]]; rewrite E in *.
  - assert (escaped_path [] (hr_RawPath q) = []) as ->; [|by exists []].
    unfold escaped_path. destruct (bool_decide_reflect (hr_RawPath q = [])) as [->|Hne]; [done|]. destruct Hw as [|[w ->]]; [done|].
    rewrite unescape_plain by done. destruct (path_unescape w); by rewrite ?andb_false_r.
  - pose proof (escaped_path_unescape (slash :: k) (hr_RawPath q) Hp) as Hi.
    assert (∃ p, escaped_path (slash :: k) (hr_RawPath q) = slash :: p) as [p Ep].
    { unfold escaped_path. rewrite (bool_decide_false (slash :: k = lit "*")) by done. destruct Hw as [->|[w ->]]; [by eexists|]. destruct (negb _ && _ && _); by eexists. }
    rewrite Ep in Hi |- *. exists p. by rewrite Hi.
Qed.

Lemma split_lines ls k : Forall (fun l => 10 ∉ l) ls → split_byte (concat ((fun l => l ++ crlf) <$> ls) ++ k) 10 = ((fun l => l ++ [13]) <$> ls) ++ split_byte k 10.
Proof.
  induction 1 as [|l ls Hl _ IH]; [done|]. rewrite !fmap_cons. change (concat (?x :: ?y)) with (x ++ concat y).
  unfold crlf at 1. replace ((l ++ [13; 10]) ++ concat ((fun l => l ++ crlf) <$> ls)) with ((l ++ [13]) ++ 10 :: concat ((fun l => l ++ crlf) <$> ls)) by (rewrite <- !app_assoc; done).
  rewrite <- app_assoc. cbn [app]. rewrite split_join_cons; [by rewrite IH|]. rewrite elem_of_app, list_elem_of_singleton. intros [|]; done.
Qed.

Lemma response_lines_clean status location keep : 0 <= status → no_line location → Forall no_line (response_lines status location keep).
Proof.
  intros H0 Hl. unfold response_lines. rewrite !Forall_app, Forall_cons, Forall_singleton, Forall_cons, Forall_singleton.
  assert (∀ c, c < 48 → c ∉ itoa status) as Hi by (intros c Hc; apply plain_notin, itoa_plain; lia).
  split_and!; [| |..|apply (bool_decide_unpack (no_line _)); by vm_compute|apply (bool_decide_unpack (no_line _)); destruct keep; by vm_compute].
  - apply no_line_app; [apply (bool_decide_unpack (no_line _)); by vm_compute|]. apply no_line_app; [split; by apply Hi|].
    apply no_line_app; [apply (bool_decide_unpack (no_line _)); by vm_compute|]. apply (bool_decide_unpack (no_line _)). unfold status_text. repeat case_match; by vm_compute.
  - apply (bool_decide_unpack (no_line _)). by vm_compute.
  - case_bool_decide; constructor; [|constructor]. apply no_line_app; [apply (bool_decide_unpack (no_line _)); by vm_compute|done].
Qed.

Lemma redirect_response_lines status location keep : 0 <= status → no_line location →
  split_byte (redirect_response status location keep) 10 = ((fun l => l ++ [13]) <$> response_lines status location keep) ++ [[13]; []].
Proof.
  intros H0 Hl. unfold redirect_response. rewrite split_lines; [done|]. eapply Forall_impl; [by apply response_lines_clean|]. by intros l [].
Qed.

(** The redirect listener answers a request with the address of what the
    request named and nothing else: the host is the request's Host without
    its port, in lower case, and only ever a host name or an IPv6 address;
    the status is 301 for GET and HEAD and 308, which keeps method and body,
    for every other method; the path and the query after the host are the
    request's, so the URL's authority is that host; the connection stays open
    exactly where neither side asked to close it and no body follows. The
    response is exactly its lines: no byte of the request starts another
    header or another response. *)
Theorem redirect_well_formed q t : parsed_request q → redirect_turn q = Some t →
  (redirect_host (tn_host t) ∧ ∃ x port, hr_Host q = x ++ port ∧ tn_host t = to_lower x ∧ (port = [] ∨ validPort port = true)) ∧
  (tn_status t = if bool_decide (hr_Method q ∈ [lit "GET"; lit "HEAD"]) then 301 else 308) ∧
  (∃ target, tn_location t = lit "https://" ++ tn_host t ++ target ∧ (slash ∉ tn_host t) ∧ (ch "?" ∉ tn_host t) ∧ (ch "#" ∉ tn_host t) ∧ (ch "@" ∉ tn_host t) ∧
     (hr_Opaque q = [] → ∃ p, target = (slash :: p) ++ request_query q ∧
        path_unescape (slash :: p) = Some (if bool_decide (hr_Path q = []) then [slash] else hr_Path q))) ∧
  (tn_keep t = true ↔ hr_Close q = false ∧ hr_ContentLength q = 0 ∧ hr_TransferEncoding q = []) ∧
  split_byte (redirect_response (tn_status t) (tn_location t) (tn_keep t)) 10 =
    [lit "HTTP/1.1 " ++ itoa (tn_status t) ++ lit " " ++ status_text (tn_status t) ++ [13]; lit "Server: " ++ server_name ++ [13];
     lit "Location: " ++ tn_location t ++ [13]; lit "Content-Length: 0" ++ [13];
     lit "Connection: " ++ (if tn_keep t then lit "keep-alive" else lit "close") ++ [13]; [13]; []].
Proof.
  intros Hq. unfold redirect_turn. destruct (redirectHost _) as [host|] eqn:Eh; [|done]. case_bool_decide as Hu; [done|]. intros <-%(inj Some). cbn [tn_host tn_status tn_location tn_keep].
  apply redirectHost_spec in Eh as [Hh Hx]. destruct (redirect_host_clean host Hh) as (Hl & Hc). split_and!.
  - done.
  - done.
  - repeat case_bool_decide; try done; exfalso; rewrite elem_of_cons, list_elem_of_singleton in *; tauto.
  - exists (request_target q). split_and!; [done|by apply Hc..|]. intros Ho. by apply request_target_path.
  - rewrite !andb_true_iff, negb_true_iff, Z.eqb_eq, bool_decide_eq_true. tauto.
  - rewrite redirect_response_lines.
    + unfold response_lines. rewrite (bool_decide_false (lit "https://" ++ host ++ request_target q = [])) by done. cbn [app fmap list_fmap]. by rewrite <- !app_assoc.
    + case_match; lia.
    + apply no_line_app; [apply (bool_decide_unpack (no_line _)); by vm_compute|]. apply no_line_app; [done|]. by apply request_target_no_line.
Qed.

(** A GET with a port in its Host, to a path with an escape and a query; and a
    POST to an IPv6 host. *)
Definition req_get : http_request :=
  mkHttp (lit "GET") (lit "Example.COM:80") (lit "/a%20b?c=1") [] [] (lit "/a b") [] false (lit "c=1") false 0 [].
Definition req_post : http_request :=
  mkHttp (lit "POST") (lit "[2001:DB8::1]") (lit "/") [] [] (lit "/") [] false [] false 3 [].

Lemma redirect_well_formed_witness :
  (∃ t, redirect_turn req_get = Some t ∧ tn_status t = 301 ∧ tn_location t = lit "https://example.com/a%20b?c=1" ∧
     (tn_keep t = true ↔ hr_Close req_get = false ∧ hr_ContentLength req_get = 0 ∧ hr_TransferEncoding req_get = [])) ∧
  (∃ t, redirect_turn req_post = Some t ∧ tn_status t = 308 ∧ tn_location t = lit "https://[2001:db8::1]/" ∧ tn_keep t = false).
Proof.
  split.
  - eexists. split; [by vm_compute|]. split; [by vm_compute|]. split; [by vm_compute|].
    apply (redirect_well_formed req_get); [|by vm_compute].
    split; cbn; try (apply (bool_decide_unpack _); by vm_compute); [right; by eexists|by left].
  - eexists. split; [by vm_compute|]. by vm_compute.
Defined.

(** An opaque target is put after the host as it is. *)
Lemma opaque_extends_host :
  tn_location <$> redirect_turn (mkHttp (lit "GET") (lit "example.com") (lit "x:.evil.example/") (lit "x") (lit ".evil.example/") [] [] false [] false 0 [])
  = Some (lit "https://example.com.evil.example/").
Proof. by vm_compute. Qed.
