(* ===== verification/Handle.v ===== *)
(** Handle: one connection, from the accept loop to the end of its relay, its
    serving or its redirects ([acceptLoop], [handle] and [terminate] of
    [proxy.go], [serveHere] of [serve.go], [handleRedirect] of
    [redirect.go]), as the calls it makes on the state the
    connections share, and what any number of them do together. Log lines are
    left out; what a connection leaves in the flow log is not. *)

From S2P Require Import Prelude GoStr NetIP Sni ProxyProto Rules Limit Config CertNames Prog.
From S2P Require Cache Nonce Ring Pool Tables Redirect.

#[local] Existing Instance Pool.buffer_eq_dec.
#[local] Existing Instance Pool.ring_queue.
#[local] Existing Instance Pool.ring_queue_laws.

(** * The calls *)

(** The counters of [Stats], [ListenerStats], [HostStats], [RuleStats] and
    [ConnState] a connection adds to. *)
Inductive counter :=
| Active | Accepted | Rejected | Denied | Failed | Completed | CacheHits | CacheMisses
| GoroutinesStarted | GoroutinesFinished | TotalUp | TotalDown
| LActive (l : bytes) | LAccepted (l : bytes) | LRejected (l : bytes) | LUp (l : bytes) | LDown (l : bytes)
| HActive (h : Z) | HTotal (h : Z) | HTerminated (h : Z) | HUp (h : Z)
| RActive (k : bytes) | RTotal (k : bytes) | RUp (k : bytes) | RDown (k : bytes)
| CUp (id : Z) | CDown (id : Z).
#[export] Instance counter_eq_dec : EqDecision counter.
Proof. solve_decision. Defined.

Inductive side := Client | Upstream.
#[export] Instance side_eq_dec : EqDecision side.
Proof. solve_decision. Defined.

Inductive flow := FClosed | FDenied | FFailed | FACME.

(** Why a connection ended, or was refused. *)
Inductive ending :=
| TooManyConnections | TooManyHandshakes | BadProxyHeader (e : pp_err)
| NoClientHello | BadClientHello | ConnectionLoop
| ChallengeFailed | ChallengeAnswered
| DeniedError (e : decide_err) | NoRuleMatched | DenyRule (line : Z)
| CARefuses (e : name_err) | ConnectFailed | PlaintextChallenge
| HeaderFailed | UpstreamTLSFailed | ClientTLSFailed | UpstreamWriteError
| RelayEnded | ServingEnded | Redirected (e : Redirect.redirect_end).

(** Shared state first, then what the outside answers. *)
Inductive act : Type → Type :=
| Count (c : counter) (n : Z) : act Z            (* Add: the new value *)
| Bump (i : Z) : act Z                           (* a source's counter, + 1 *)
| Unbump (i : Z) : act unit                      (* beginHandshake takes it back *)
| EndHandshake (i : Z) : act unit
| Register (id : Z) : act unit
| Unregister (id : Z) : act unit
| GetBuffer : act Pool.buffer
| PutBuffer (b : Pool.buffer) (now : Z) : act unit
| Seen (digest now : Z) : act bool
| Remember (digest now : Z) : act unit
| GetOrRoute (key : bytes) (route : RouteDecision) (busy : bool) : act (RouteDecision * bool)
| Host (name : bytes) : act Z
| Now : act Z
| Busy : act bool                                (* whether the cache's lock is taken *)
| StoppedRules : act (bytes → bool)
| Arrive : act (list Z * read_err)               (* how the client's stream comes in *)
| ReadDeadline (s : side) (t : option Z) : act unit
| WriteDeadline (s : side) (t : option Z) : act unit
| Send (s : side) (b : bytes) : act (Z * bool)   (* how many bytes, without an error *)
| CloseConn (s : side) : act unit
| Challenge (sni : bytes) : act bool             (* a pending order of ours *)
| TLSServer (hello : bytes) (protos : list bytes) : act bool
| TLSClient (serverName : bytes) (verify : bool) (protos : list bytes) : act (option bytes)
| Dial (host : bytes) (port : Z) : act bool
| EmitRoute : act unit
| Refused (e : ending) : act unit
| SetEnd (r : flow) (e : ending) : act unit
| SetKill : act unit
| CloseAll : act unit                            (* stopped before it relays *)
| Relay : act unit                               (* both pumps, to the end *)
| HandOver : act unit                            (* to the web server, until closed *)
| Requests : act (list (list Z * Redirect.http_request) * (list Z * Redirect.http_end))
                                                 (* what http.ReadRequest will answer, and the reads it takes *)
| Killed : act bool                              (* by the console *)
| CloseWrite : act bool
| Discard (n : Z) : act (list Z)                 (* the reads of at most n bytes, dropped *)
.

Abbreviation call a := (Prog.call (act := act) a).
Abbreviation count c n := (call (Count c n)).

(** * The state they share *)

Record server := mkServer {
  counters : counter → Z;
  sources : gmap Z Z;
  nonces : Nonce.nonceCache;
  cache : Cache.RouteCache;
  buffers : Pool.lending (Q := Ring.ring Pool.buffer);
  hosts : Tables.HostTable.hostTable;
  conns : Z;              (* how many are registered *)
}.

(** One of [x] less. *)
Fixpoint remove_one {A} `{EqDecision A} (x : A) (l : list A) : option (list A) :=
  match l with
  | [] => None
  | y :: l => if decide (x = y) then Some l else (y ::.) <$> remove_one x l
  end.

Section Perform.
Context (name_hash : bytes → Z).

Definition add_counter (f : counter → Z) (c : counter) (n : Z) : counter → Z :=
  fun c' => if decide (c' = c) then f c + n else f c'.

Definition add_source (m : gmap Z Z) (i n : Z) : gmap Z Z := <[i := default 0 (m !! i) + n]> m.

Definition get_buffer (p : Pool.lending) : Pool.buffer * Pool.lending (Q := Ring.ring Pool.buffer) :=
  match Pool.Get (Pool.pool p) with
  | (q, Some b) => (b, Pool.mkLending q (b :: Pool.lent p) (Pool.fresh p))
  | (q, None) =>
      let b := Pool.mkBuffer (Pool.fresh p) (Pool.size q) in
      (b, Pool.mkLending q (b :: Pool.lent p) (Pool.fresh p + 1))
  end.

Definition put_buffer (p : Pool.lending) (b : Pool.buffer) (now : Z) : Pool.lending (Q := Ring.ring Pool.buffer) :=
  Pool.mkLending (Pool.Put (Pool.pool p) b now) (default (Pool.lent p) (remove_one b (Pool.lent p))) (Pool.fresh p).

(** Every call on shared state, by the component it belongs to. *)
Definition perform (X : Type) (a : act X) (w : server) : option (X * server) :=
  let 'mkServer cs ss ns ca bs hs ids := w in
  match a in act X return option (X * server) with
  | Count c n => Some (cs c + n, mkServer (add_counter cs c n) ss ns ca bs hs ids)
  | Bump i => let m := add_source ss i 1 in Some (default 0 (m !! i), mkServer cs m ns ca bs hs ids)
  | Unbump i | EndHandshake i => Some (tt, mkServer cs (add_source ss i (-1)) ns ca bs hs ids)
  | Register id => Some (tt, mkServer cs ss ns ca bs hs (ids + 1))
  | Unregister id => Some (tt, mkServer cs ss ns ca bs hs (ids - 1))
  | GetBuffer => let '(b, bs) := get_buffer bs in Some (b, mkServer cs ss ns ca bs hs ids)
  | PutBuffer b now => Some (tt, mkServer cs ss ns ca (put_buffer bs b now) hs ids)
  | Seen d now => Some (Nonce.seen ns d now, w)
  | Remember d now => Some (tt, mkServer cs ss (Nonce.remember ns d now) ca bs hs ids)
  | GetOrRoute key d busy =>
      match Cache.GetOrRoute ca key (fun _ => d) busy with
      | Some (d, hit, ca) => Some ((d, hit), mkServer cs ss ns ca bs hs ids)
      | None => Some ((d, false), w)   (* never: the eviction hand always finds an entry *)
      end
  | Host name =>
      let '(hs, h) := Tables.HostTable.get name_hash hs name in
      Some (default 0 h, mkServer cs ss ns ca bs hs ids)
  | _ => None
  end.
End Perform.

(** * The program *)

Definition alertAccessDenied : bytes := [0x15; 0x03; 0x03; 0x00; 0x02; 0x02; 49].
Definition ALPNProto : bytes := lit "acme-tls/1".   (* acme.ALPNProto *)

(** [sourceKey]: an IPv4 address, or an IPv6 /64. *)
Definition sourceKey (a : TCPAddr) : addr :=
  let ip := unmap (default AddrZero (addr_from_slice (t_IP a))) in
  if is6 ip then p_addr (masked (Prefix (with_zone ip []) 64)) else ip.

(** [addrOf] *)
Definition addrOf (a : TCPAddr) : addr := unmap (default AddrZero (addr_from_slice (t_IP a))).

(** How a stream of bytes comes in: cut into reads of these sizes; after the
    last one, what is not yet read never comes, and the stream ends so. *)
Fixpoint cut_reads (data : bytes) (sizes : list Z) (end_ : read_err) : Sni.conn :=
  match sizes with
  | [] => [([], Some end_)]
  | n :: sizes => (take (Z.to_nat n) data, None) :: cut_reads (drop (Z.to_nat n) data) sizes end_
  end.

Section Handle.
(* SHA-256 of the client random and key share, as readHello's digest, and
   maphash with the process's seed *)
Context (digest : bytes → Z) (source_hash : bytes → Z).
(* the listener, its configuration ([ForListener]), and the connection: what
   the peer sends, its address and ours *)
Context (cfg : Config) (l : Listener) (id : Z) (sock : stream) (remote local : TCPAddr).

Abbreviation prog := (prog act).
Definition name : bytes := l_Name l.

(** [beginHandshake]: the counter it holds, [None] when refused. *)
Definition beginHandshake (key : addr) (limit : Z) : prog (option Z) :=
  let i := Tables.Sources.counter source_hash (as16 key) in
  let* v := call (Bump i) in
  if (0 <? limit) && (limit <? v) then call (Unbump i) ;;; Ret None else Ret (Some i).

Definition put (b : Pool.buffer) : prog unit := let* t := call Now in call (PutBuffer b t).

(** The loop of [writeProxyProtocol]; each turn sends at least a byte. *)
Fixpoint send_loop (fuel : nat) (b : bytes) : prog bool :=
  match b, fuel with
  | [], _ => Ret true
  | _, O => Ret false
  | _, S fuel =>
      let* (n, ok) := call (Send Upstream b) in
      if negb ok then Ret false
      else if n <=? 0 then Ret false      (* io.ErrShortWrite *)
      else send_loop fuel (drop (Z.to_nat n) b)
  end.

Definition writeProxyProtocol (version : Z) (src dst : TCPAddr) : prog bool :=
  match proxyProtocolHeader version (TCP src) (TCP dst) with
  | Ok header => send_loop (length header) header
  | Err _ => Ret false
  end.

(** Sending the header, under the connect timeout. *)
Definition send_header (client : proxyConn) (rule : Rule) : prog bool :=
  let* t := call Now in
  call (WriteDeadline Upstream (Some (t + c_ConnectTimeout cfg))) ;;;
  let* ok := writeProxyProtocol (r_ProxyVersion rule) (RemoteAddr remote client) (LocalAddr local client) in
  if ok then call (WriteDeadline Upstream None) ;;; Ret true else Ret false.

(** [terminate]: whether both sides' TLS is up. *)
Definition terminate (client : proxyConn) (hello : bytes) (info : helloInfo) (rule : Rule) (host : bytes)
    : prog (option ending) :=
  let offer := filter (fun p => p <> ALPNProto) (ALPN info) in
  let* sent := (if r_Proxy rule then send_header client rule else Ret true) in
  if negb sent then Ret (Some HeaderFailed) else
  let* protos :=
    (if r_UpstreamTLS rule then
       let serverName := if bool_decide (r_UpstreamSNI rule <> []) then r_UpstreamSNI rule
                         else if bool_decide (SNI info <> []) then SNI info else host in
       let* up := call (TLSClient serverName (r_UpstreamTLSVerify rule) offer) in
       match up with
       | None => Ret None
       | Some p => Ret (Some (if bool_decide (p = []) then [] else [p]))
       end
     else Ret (Some (if offers info (lit "http/1.1") then [lit "http/1.1"] else []))) in
  match protos with
  | None => Ret (Some UpstreamTLSFailed)
  | Some protos =>
      let* ok := call (TLSServer hello protos) in
      Ret (if ok then None else Some ClientTLSFailed)
  end.

(** [serveHere] *)
Definition serveHere (hello : bytes) (buf : Pool.buffer) (info : helloInfo) (h : Z) (ruleKey : bytes) : prog unit :=
  let* ok := call (TLSServer hello (filter (fun p => p ∈ ALPN info) [lit "h2"; lit "http/1.1"])) in
  put buf ;;;
  if negb ok then
    count Failed 1 ;;; call (SetEnd FFailed ClientTLSFailed)
  else
    count (HTerminated h) 1 ;;;
    call EmitRoute ;;;
    call SetKill ;;;
    let* stopped := call StoppedRules in
    (if stopped ruleKey then call CloseAll else Ret tt) ;;;
    call HandOver ;;;
    count Completed 1 ;;;
    call (SetEnd FClosed ServingEnded).

(** The end of every relayed connection, once both sides are connected. *)
Definition relay_on (ruleKey : bytes) : prog unit :=
  call EmitRoute ;;;
  call SetKill ;;;
  let* stopped := call StoppedRules in
  (if stopped ruleKey then call CloseAll else Ret tt) ;;;
  count GoroutinesStarted 1 ;;;
  call Relay ;;;
  count GoroutinesFinished 1 ;;;
  count Completed 1 ;;;
  call (SetEnd FClosed RelayEnded).

(** Passing the connection through: the PROXY header, the ClientHello as it
    was read. The answer is what went wrong. *)
Definition pass_through (client : proxyConn) (hello : bytes) (buf : Pool.buffer) (info : helloInfo)
    (rule : Rule) (h : Z) (ruleKey : bytes) : prog (option ending) :=
  (if c_RememberNonce cfg then let* t := call Now in call (Remember (Digest info) t) else Ret tt) ;;;
  let* sent := (if r_Proxy rule then send_header client rule else Ret true) in
  if negb sent then put buf ;;; Ret (Some HeaderFailed) else
  (if 0 <? c_IdleTimeout cfg then
     let* t := call Now in call (WriteDeadline Upstream (Some (t + c_IdleTimeout cfg)))
   else Ret tt) ;;;
  let* (written, ok) := call (Send Upstream hello) in
  count (CUp id) written ;;; count (HUp h) written ;;; count (RUp ruleKey) written ;;; count (LUp name) written ;;;
  count TotalUp written ;;;
  put buf ;;;
  Ret (if ok && (written =? len hello) then None else Some UpstreamWriteError).

(** A failure after routing: counted, and left in the flow log. *)
Definition fail_with (e : ending) : prog unit := count Failed 1 ;;; call (SetEnd FFailed e).

(** Once the upstream is connected. *)
Definition connected (client : proxyConn) (hello : bytes) (buf : Pool.buffer) (info : helloInfo) (d : RouteDecision)
    (rule : Rule) (h : Z) : prog unit :=
  let ruleKey := Key rule in
  let challenge := Terminates rule && offers info ALPNProto in
  if challenge && negb (r_UpstreamTLS rule) then put buf ;;; fail_with PlaintextChallenge
  else if Terminates rule && negb challenge then
    let* e := terminate client hello info rule (d_Host d) in
    put buf ;;;
    match e with
    | Some e => fail_with e
    | None => count (HTerminated h) 1 ;;; relay_on ruleKey
    end
  else
    let* e := pass_through client hello buf info rule h ruleKey in
    match e with
    | Some e => fail_with e
    | None => relay_on ruleKey
    end.

(** An allowed connection: its counters, the local CA's names, the target. *)
Definition allowed (client : proxyConn) (hello : bytes) (buf : Pool.buffer) (info : helloInfo) (d : RouteDecision)
    (rule : Rule) (sniDisp : bytes) : prog unit :=
  let ruleKey := Key rule in
  let* h := call (Host sniDisp) in
  count (HActive h) 1 ;;; count (HTotal h) 1 ;;;
  count (RActive ruleKey) 1 ;;; count (RTotal ruleKey) 1 ;;;
  call EmitRoute ;;;
  finally (finally (
    match (if bool_decide (LocalCA rule = []) then Ok [] else LocalCAName rule (SNI info) (SNIIP info) (addrOf (LocalAddr local client))) with
    | Err e =>
        put buf ;;; count Failed 1 ;;; call (SetEnd FFailed (CARefuses e)) ;;;
        call (Send Client alertAccessDenied) ;;; Ret tt
    | Ok _ =>
        if Serves rule then serveHere hello buf info h ruleKey else
        let* up := call (Dial (d_Host d) (d_Port d)) in
        if negb up then put buf ;;; fail_with ConnectFailed else
        finally (connected client hello buf info d rule h) (call (CloseConn Upstream))
    end)
    (count (RActive ruleKey) (-1) ;;; Ret tt))
    (count (HActive h) (-1) ;;; Ret tt).

(** A refused one. *)
Definition denied (buf : Pool.buffer) (d : RouteDecision) : prog unit :=
  put buf ;;;
  count Denied 1 ;;;
  (match d_Rule d, d_Err d with
   | None, None => count (RTotal (implicitDenyKey name)) 1 ;;; Ret tt
   | _, _ => Ret tt
   end) ;;;
  call (SetEnd FDenied (match d_Err d with
                        | Some e => DeniedError e
                        | None => if d_RuleLine d =? 0 then NoRuleMatched else DenyRule (d_RuleLine d)
                        end)) ;;;
  call (Send Client alertAccessDenied) ;;; Ret tt.

(** A pending TLS-ALPN-01 order of ours, answered here. *)
Definition answer_challenge (hello : bytes) (buf : Pool.buffer) : prog unit :=
  let* ok := call (TLSServer hello [ALPNProto]) in
  put buf ;;;
  if ok then count Completed 1 ;;; call (SetEnd FACME ChallengeAnswered)
  else count Failed 1 ;;; call (SetEnd FFailed ChallengeFailed).

(** What the name shows as. *)
Definition shown (info : helloInfo) : bytes :=
  if bool_decide (SNI info = []) then
    if is_valid (SNIIP info) then lit "<ip " ++ addr_string (SNIIP info) ++ lit ">" else lit "<none>"
  else SNI info.

(** Routing, once the ClientHello is read. *)
Definition route (client : proxyConn) (hello : bytes) (buf : Pool.buffer) (info : helloInfo) : prog unit :=
  let sni := SNI info in
  let* stopped := call StoppedRules in
  let* busy := call Busy in
  let* (d, hit) := call (GetOrRoute (name ++ [0] ++ sni) (RouteExcept (l_routes l) sni stopped) busy) in
  count (if hit then CacheHits else CacheMisses) 1 ;;;
  let passedThrough := d_Allow d && match d_Rule d with Some r => negb (Terminates r) | None => false end in
  let* ours := (if offers info ALPNProto && negb passedThrough then call (Challenge sni) else Ret false) in
  if ours then answer_challenge hello buf
  else match d_Allow d, d_Rule d with
       | true, Some rule => allowed client hello buf info d rule (shown info)
       | _, _ => denied buf d
       end.

(** From the registration on: the ClientHello. [slot] is held until it is read. *)
Definition greet (client : proxyConn) (slot : Z) : prog unit :=
  call (Register id) ;;;
  finally (
    let* buf := call GetBuffer in
    let* (sizes, end_) := call Arrive in
    let '(out, hello) := readHello digest (Pool.bcap buf) (cut_reads (pc_prefix client ++ st_data (pc_conn client)) sizes end_) in
    call (EndHandshake slot) ;;;
    match out with
    | RParse (Ok info) =>
        call (ReadDeadline Client None) ;;;
        let* loop := (if c_RememberNonce cfg then let* t := call Now in call (Seen (Digest info) t) else Ret false) in
        if loop then
          put buf ;;; count Denied 1 ;;; call (SetEnd FDenied ConnectionLoop) ;;;
          call (Send Client alertAccessDenied) ;;; Ret tt
        else route client hello buf info
    | RIO ReadTimeout => put buf ;;; count Failed 1 ;;; call (SetEnd FFailed NoClientHello)
    | _ => put buf ;;; count Failed 1 ;;; call (SetEnd FFailed BadClientHello)
    end)
    (call (Unregister id)).

(** The admitted connection: a PROXY header, and the source it states; then
    [next], which leaves the slot. *)
Definition admitted (next : proxyConn → Z → prog unit) (start : Z) (physicalKey : addr) (physicalSlot : Z) : prog unit :=
  count Accepted 1 ;;;
  call (ReadDeadline Client (Some (start + c_HandshakeTimeout cfg))) ;;;
  match (if trustsProxySource cfg (t_IP remote) then detectProxyProtocol sock
         else Ok (ProxyConn sock [] None None 0)) with
  | Err e => count Failed 1 ;;; call (Refused (BadProxyHeader e)) ;;; call (EndHandshake physicalSlot)
  | Ok client =>
      let proxiedKey := sourceKey (RemoteAddr remote client) in
      if bool_decide (proxiedKey = physicalKey) then next client physicalSlot
      else
        let* proxied := beginHandshake proxiedKey (c_MaxHandshakesPerIP cfg) in
        match proxied with
        | None =>
            count Accepted (-1) ;;; count Rejected 1 ;;; call (Refused TooManyHandshakes) ;;;
            call (EndHandshake physicalSlot)
        | Some slot => call (EndHandshake physicalSlot) ;;; next client slot
        end
  end.

(** What [handle] and [handleRedirect] begin and end with. *)
Definition handled (next : proxyConn → Z → prog unit) : prog unit :=
  finally (
    let* start := call Now in
    let physicalKey := sourceKey remote in
    let* physicalSlot := beginHandshake physicalKey (c_MaxHandshakesPerIP cfg) in
    match physicalSlot with
    | None => count Rejected 1 ;;; call (Refused TooManyHandshakes)
    | Some slot => admitted next start physicalKey slot
    end)
    (call (CloseConn Client)).

(** [handle] *)
Definition handle : prog unit := handled greet.

(** ** The redirect listener's connections *)

(** [countingConn]: what a read or a write of some bytes counts. *)
Definition count_up (n : Z) : prog unit :=
  if 0 <? n then
    count (CUp id) n ;;; count (RUp Redirect.redirectKey) n ;;; count (LUp name) n ;;; count TotalUp n ;;; Ret tt
  else Ret tt.
Definition count_down (n : Z) : prog unit :=
  if 0 <? n then
    count (CDown id) n ;;; count (RDown Redirect.redirectKey) n ;;; count (LDown name) n ;;; count TotalDown n ;;; Ret tt
  else Ret tt.
Fixpoint count_reads (sizes : list Z) : prog unit :=
  match sizes with [] => Ret tt | n :: sizes => count_up n ;;; count_reads sizes end.

(** [writeRedirectResponse], under the write deadline; whether all of it went
    out. *)
Definition respond (status : Z) (location : bytes) (keepAlive : bool) : prog bool :=
  let* t := call Now in
  call (WriteDeadline Client (Some (t + c_HandshakeTimeout cfg))) ;;;
  let* (n, ok) := call (Send Client (Redirect.redirect_response status location keepAlive)) in
  count_down n ;;; Ret ok.

(** A slot is held until the first request is read. *)
Definition end_slot (slot : option Z) : prog unit :=
  match slot with Some i => call (EndHandshake i) | None => Ret tt end.

(** The loop, over the requests still to come; [host] is the last one
    redirected to. The answer is why it ended, and whether the last thing
    done was a response. *)
Fixpoint redirect_loop (qs : list (list Z * Redirect.http_request)) (last : list Z * Redirect.http_end)
    (slot : option Z) (requests : Z) (host : bytes) : prog (Redirect.redirect_end * bool) :=
  (if 0 <? requests then
     if 0 <? c_IdleTimeout cfg then let* t := call Now in call (ReadDeadline Client (Some (t + c_IdleTimeout cfg)))
     else call (ReadDeadline Client None)
   else Ret tt) ;;;
  match qs with
  | [] =>
      count_reads last.1 ;;; end_slot slot ;;;
      match Redirect.read_ended last.2 requests with
      | (e, None) => Ret (e, false)
      | (e, Some status) => let* ok := respond status [] false in Ret (e, ok)
      end
  | (sizes, q) :: qs =>
      count_reads sizes ;;; end_slot slot ;;;
      match Redirect.redirect_turn q with
      | None => let* ok := respond 400 [] false in Ret (Redirect.NoUsableHost, ok)
      | Some t =>
          (if bool_decide (host = Redirect.tn_host t) then Ret tt else call EmitRoute) ;;;
          let* ok := respond (Redirect.tn_status t) (Redirect.tn_location t) (Redirect.tn_keep t) in
          if negb ok then Ret (Redirect.WriteFailed, false)
          else if Redirect.tn_keep t then redirect_loop qs last None (requests + 1) (Redirect.tn_host t)
          else Ret (Redirect.RedirectDone, true)
      end
  end.

(** What the client may still be sending is read and dropped. *)
Definition linger : prog unit :=
  let* killed := call Killed in
  if killed then Ret tt else
  let* closed := call CloseWrite in
  if closed then
    let* t := call Now in
    call (ReadDeadline Client (Some (t + Redirect.redirectLingerTime))) ;;;
    let* sizes := call (Discard Redirect.redirectLingerBytes) in
    count_reads sizes
  else Ret tt.

(** [handleRedirect], from the registration on. *)
Definition redirected (client : proxyConn) (slot : Z) : prog unit :=
  count (RActive Redirect.redirectKey) 1 ;;; count (RTotal Redirect.redirectKey) 1 ;;;
  finally (
    call (Register id) ;;;
    finally (
      call SetKill ;;;
      let* (qs, last) := call Requests in
      let* (e, answered) := redirect_loop qs last (Some slot) 0 [] in
      (if (answered : bool) then linger else Ret tt) ;;;
      let failed := Redirect.end_failed e in
      count (if failed then Failed else Completed) 1 ;;;
      call (SetEnd (if failed then FFailed else FClosed) (Redirected e)))
      (call (Unregister id)))
    (count (RActive Redirect.redirectKey) (-1) ;;; Ret tt).
Definition handleRedirect : prog unit := handled redirected.

(** What [acceptLoop] does with an accepted connection. *)
Definition accepted : prog unit :=
  let* active := count Active 1 in
  let* mine := count (LActive name) 1 in
  let lim := l_MaxConnections l in
  if (c_MaxConnections cfg <? active) || ((0 <? lim) && (lim <? mine)) then
    call (Refused TooManyConnections) ;;;
    count Active (-1) ;;; count (LActive name) (-1) ;;; count Rejected 1 ;;; count (LRejected name) 1 ;;;
    call (CloseConn Client)
  else
    count (LAccepted name) 1 ;;; count GoroutinesStarted 1 ;;;
    (if l_IsRedirect l then handleRedirect else handle) ;;;
    count (LActive name) (-1) ;;; count Active (-1) ;;; count GoroutinesFinished 1 ;;; Ret tt.
End Handle.

(** * What a connection may do

    A monitor beside each connection: what it holds, what it knows, and which
    calls that allows. *)

Record connection := mkConnection {
  cn_cfg : Config; cn_listener : Listener; cn_id : Z; cn_sock : stream; cn_remote : TCPAddr; cn_local : TCPAddr;
}.

Record life := mkLife {
  over : list Z;               (* counted beyond the limit, about to be taken back *)
  slots : list Z;              (* handshake slots held *)
  gauges : list counter;       (* counters it is counted in, to be left again *)
  due : Z;                     (* 1 from its admission to its outcome *)
  bufs : list Pool.buffer;     (* buffers borrowed *)
  open : list Z;               (* registered *)
  greeting : option (read_out * bytes);  (* what reading the ClientHello gave *)
  checked : bool;              (* it is not one this proxy forwarded *)
  decision : option RouteDecision;
  dialled : bool;
  wire : bytes;                (* sent on the upstream socket *)
  remembered : bool;
  ended : bool;                (* its end is in the flow log *)
}.
Definition unborn : life := mkLife [] [] [] 0 [] [] None false None false [] false false.

Section Watch.
Context (digest : bytes → Z) (limit : Z) (c : connection).

(** The client behind the header, if it is looked for. *)
Definition client_of : option proxyConn :=
  if trustsProxySource (cn_cfg c) (t_IP (cn_remote c)) then
    match detectProxyProtocol (cn_sock c) with Ok p => Some p | Err _ => None end
  else Some (ProxyConn (cn_sock c) [] None None 0).

(** What the client sends, the header apart. *)
Definition client_bytes : bytes :=
  match client_of with Some p => pc_prefix p ++ st_data (pc_conn p) | None => [] end.

(** The PROXY header an allowed connection's upstream is sent. *)
Definition header_for (d : option RouteDecision) : bytes :=
  match d ≫= d_Rule, client_of with
  | Some r, Some p =>
      if r_Proxy r then
        match proxyProtocolHeader (r_ProxyVersion r) (TCP (RemoteAddr (cn_remote c) p)) (TCP (LocalAddr (cn_local c) p)) with
        | Ok h => h
        | Err _ => []
        end
      else []
  | _, _ => []
  end.

Definition hello_of (s : life) : bytes := from_option snd [] (greeting s).
Definition info_of (s : life) : option helloInfo :=
  match greeting s with Some (RParse (Ok i), _) => Some i | _ => None end.

Definition gauge (k : counter) : bool :=
  match k with Active | LActive _ | HActive _ | RActive _ | GoroutinesStarted => true | _ => false end.

(** Counting an outcome settles what is due. *)
Definition count_watch (k : counter) (n : Z) (s : life) : option life :=
  let 'mkLife ov sl ga du bu op gr ck de di wi re en := s in
  match k with
  | Accepted => if decide (n = 1 \/ n = -1) then if decide (0 <= du + n <= 1) then Some (mkLife ov sl ga (du + n) bu op gr ck de di wi re en) else None else None
  | Denied | Failed | Completed =>
      if decide (n = 1 /\ du = 1) then Some (mkLife ov sl ga 0 bu op gr ck de di wi re en) else None
  | GoroutinesFinished =>
      if decide (n = 1) then ga' ← remove_one GoroutinesStarted ga; Some (mkLife ov sl ga' du bu op gr ck de di wi re en) else None
  | _ =>
      if gauge k then
        if decide (n = 1) then Some (mkLife ov sl (k :: ga) du bu op gr ck de di wi re en)
        else if decide (n = -1) then ga' ← remove_one k ga; Some (mkLife ov sl ga' du bu op gr ck de di wi re en)
        else None
      else Some s
  end.

(** Nothing of the ClientHello is on the wire before it is remembered. *)
Definition wire_ok (s : life) (w : bytes) : Prop :=
  w `prefix_of` header_for (decision s) ++ hello_of s /\
  (c_RememberNonce (cn_cfg c) = true → remembered s = true ∨ w `prefix_of` header_for (decision s)).
#[export] Instance wire_ok_dec s w : Decision (wire_ok s w).
Proof. unfold wire_ok. apply _. Defined.

(** What is written to the client outside of TLS and of a relay: the alert,
    or the answer to a plain HTTP request. *)
Definition in_clear (b : bytes) : Prop :=
  if l_IsRedirect (cn_listener c) then lit "HTTP/1.1 " `prefix_of` b else b = alertAccessDenied.
#[export] Instance in_clear_dec b : Decision (in_clear b).
Proof. unfold in_clear. destruct (l_IsRedirect _); apply _. Defined.

Definition watch (X : Type) (a : act X) (x : X) (s : life) : option life :=
  let 'mkLife ov sl ga du bu op gr ck de di wi re en := s in
  match a in act X return X → option life with
  | Count k n => fun _ => count_watch k n s
  | Bump i => fun v =>
      if (0 <? limit) && (limit <? v) then Some (mkLife (i :: ov) sl ga du bu op gr ck de di wi re en)
      else Some (mkLife ov (i :: sl) ga du bu op gr ck de di wi re en)
  | Unbump i => fun _ => ov ← remove_one i ov; Some (mkLife ov sl ga du bu op gr ck de di wi re en)
  | EndHandshake i => fun _ => sl ← remove_one i sl; Some (mkLife ov sl ga du bu op gr ck de di wi re en)
  | Register i => fun _ => Some (mkLife ov sl ga du bu (i :: op) gr ck de di wi re en)
  | Unregister i => fun _ =>    (* with its end known *)
      if en then op ← remove_one i op; Some (mkLife ov sl ga du bu op gr ck de di wi re en) else None
  | GetBuffer => fun b => Some (mkLife ov sl ga du (b :: bu) op gr ck de di wi re en)
  | PutBuffer b _ => fun _ => bu ← remove_one b bu; Some (mkLife ov sl ga du bu op gr ck de di wi re en)
  | Arrive => fun '(sizes, e) =>
      (* once, holding a slot; the buffer's capacity decides how it is read *)
      b ← head bu; _ ← head sl;
      match gr with Some _ => None | None =>
      Some (mkLife ov sl ga du bu op (Some (readHello digest (Pool.bcap b) (cut_reads client_bytes sizes e))) ck de di wi re en)
      end
  | Seen d _ => fun seen =>
      if decide (Digest <$> info_of s = Some d) then Some (mkLife ov sl ga du bu op gr (negb seen) de di wi re en) else None
  | Remember d _ => fun _ =>
      if decide (Digest <$> info_of s = Some d /\ ck = true) then Some (mkLife ov sl ga du bu op gr ck de di wi true en) else None
  | GetOrRoute key _ _ => fun '(d, _) =>    (* once, under its listener and name *)
      if decide ((fun i => l_Name (cn_listener c) ++ [0] ++ SNI i) <$> info_of s = Some key ) then
        match de with Some _ => None | None => Some (mkLife ov sl ga du bu op gr ck (Some d) di wi re en) end
      else None
  | Dial host port => fun ok =>   (* once, where routing said *)
      match de with
      | Some d => if decide (d_Allow d = true /\ host = d_Host d /\ port = d_Port d /\ di = false)
                  then Some (mkLife ov sl ga du bu op gr ck de ok wi re en) else None
      | None => None
      end
  | Send Upstream b => fun '(n, _) =>
      let w := wi ++ take (Z.to_nat n) b in
      if decide (di = true /\ wire_ok s w) then Some (mkLife ov sl ga du bu op gr ck de di w re en) else None
  | Send Client b => fun _ => (* only what may go out in the clear, and only when nothing was dialled *)
      if decide (in_clear b /\ di = false) then Some s else None
  | Requests => fun _ => _ ← head sl; Some s    (* holding a slot *)
  | CloseConn Upstream => fun _ => if di then Some s else None
  | Challenge sni => fun _ => if decide (SNI <$> info_of s = Some sni) then Some s else None
  | TLSServer hello _ => fun _ => if decide (hello = hello_of s) then Some s else None
  | TLSClient _ _ _ => fun _ => if di then Some s else None
  | SetEnd _ _ => fun _ => if decide (en = false /\ du = 0) then Some (mkLife ov sl ga du bu op gr ck de di wi re true) else None
  | Relay => fun _ =>
      (* connected, holding no buffer and no slot; either all of the hello is
         out, or TLS is terminated and only the header is *)
      if decide (di = true /\ bu = [] /\ sl = [] /\
                 (wi = header_for de ++ hello_of s \/ (Terminates <$> (de ≫= d_Rule) = Some true /\ wi = header_for de)))
      then Some s else None
  | HandOver => fun _ =>
      if decide (di = false /\ bu = [] /\ sl = [] /\ Serves <$> (de ≫= d_Rule) = Some true) then Some s else None
  | _ => fun _ => Some s
  end x.

(** When it is over, it holds nothing and owes nothing. *)
Definition gone (s : life) : Prop :=
  over s = [] ∧ slots s = [] ∧ gauges s = [] ∧ due s = 0 ∧ bufs s = [] ∧ open s = [].
End Watch.

(** * Every connection keeps to it *)

Section Obeys.
Context (digest source_hash : bytes → Z) (limit : Z) (c : connection).
Abbreviation cfg := (cn_cfg c).
Abbreviation W := (watch digest limit c).

Lemma obeys_call {X A} (a : act X) (f : X → prog act A) s Q :
  (∀ x, match W X a x s with Some s' => obeys W (f x) s' Q | None => False end) → obeys W (bind (call a) f) s Q.
Proof. done. Qed.

Lemma put_obeys b ov sl ga du bu op gr ck de di wi re en :
  obeys W (put b) (mkLife ov sl ga du (b :: bu) op gr ck de di wi re en)
    (fun _ s => s = mkLife ov sl ga du bu op gr ck de di wi re en).
Proof. unfold put. cbn. intros t _. by rewrite decide_True. Qed.

Lemma take_prefix {A} n (l k : list A) : l ++ take n k `prefix_of` l ++ k.
Proof. apply prefix_app. exists (drop n k). by rewrite take_drop. Qed.

Lemma send_loop_obeys fuel b ov sl ga du bu op gr ck de wi re en :
  (length b <= fuel)%nat → header_for c de = wi ++ b →
  obeys W (send_loop fuel b) (mkLife ov sl ga du bu op gr ck de true wi re en)
    (fun ok s => ∃ w, s = mkLife ov sl ga du bu op gr ck de true w re en ∧ (ok = true → w = header_for c de)).
Proof.
  revert b wi. induction fuel as [|fuel IH]; intros b wi Hf Hh.
  { destruct b; cbn in *; [|lia]. exists wi. rewrite app_nil_r in Hh. done. }
  destruct b as [|b0 b]; [cbn; exists wi; rewrite app_nil_r in Hh; done|].
  cbn [send_loop bind]. apply obeys_call. intros [n ok]. cbn [watch].
  rewrite decide_True.
  2:{ split; [done|]. unfold wire_ok. cbn [decision]. rewrite Hh. split; [|intros _; right; apply take_prefix].
      apply prefix_app_r, take_prefix. }
  destruct ok; cbn [negb]; [|cbn; by eexists]. destruct (Z.leb_spec n 0); [cbn; by eexists|].
  apply IH; [rewrite length_drop; cbn in *; lia|]. by rewrite <- app_assoc, take_drop.
Qed.

Lemma send_header_obeys client rule ov sl ga du bu op gr ck de re en :
  de ≫= d_Rule = Some rule → client_of c = Some client → r_Proxy rule = true →
  obeys W (send_header cfg (cn_remote c) (cn_local c) client rule) (mkLife ov sl ga du bu op gr ck de true [] re en)
    (fun ok s => ∃ w, s = mkLife ov sl ga du bu op gr ck de true w re en ∧ (ok = true → w = header_for c de)).
Proof.
  intros Hr Hc Hp. unfold send_header. apply obeys_call. intros t. cbn [watch]. apply obeys_call. intros []. cbn [watch].
  assert (header_for c de = match proxyProtocolHeader (r_ProxyVersion rule) (TCP (RemoteAddr (cn_remote c) client)) (TCP (LocalAddr (cn_local c) client)) with Ok h => h | Err _ => [] end) as Hh.
  { unfold header_for. by rewrite Hr, Hc, Hp. }
  unfold writeProxyProtocol. destruct (proxyProtocolHeader _ _ _) as [h|e].
  - eapply obeys_bind; [apply send_loop_obeys; [done|exact Hh]|]. intros ok s (w & -> & Hw). destruct ok; cbn.
    + intros _. exists w. auto.
    + by exists w.
  - cbn. by exists [].
Qed.

(** The tail of every connection that failed after its admission. *)
Lemma fail_with_obeys e ov sl ga bu op gr ck de di wi re :
  obeys W (fail_with e) (mkLife ov sl ga 1 bu op gr ck de di wi re false)
    (fun _ s => s = mkLife ov sl ga 0 bu op gr ck de di wi re true).
Proof. cbn. intros _. rewrite decide_True by done. cbn. intros _. by rewrite decide_True. Qed.

Lemma relay_on_obeys key ov ga op gr ck de wi re :
  wi = header_for c de ++ from_option snd [] gr ∨ (Terminates <$> (de ≫= d_Rule) = Some true ∧ wi = header_for c de) →
  obeys W (relay_on key) (mkLife ov [] ga 1 [] op gr ck de true wi re false)
    (fun _ s => s = mkLife ov [] ga 0 [] op gr ck de true wi re true).
Proof.
  intros Hw. unfold relay_on. do 3 (apply obeys_call; intros ?; cbn [watch]).
  eapply (obeys_bind _ _ _ _ (fun _ s => s = mkLife ov [] ga 1 [] op gr ck de true wi re false)).
  { by destruct (x1 key); cbn. }
  intros _ ? ->. apply obeys_call. intros ?. cbn [watch count_watch gauge]. rewrite decide_True by done.
  apply obeys_call. intros ?. cbn [watch]. rewrite decide_True by done.
  apply obeys_call. intros ?. cbn [watch count_watch]. rewrite decide_True by done. cbn [remove_one].
  rewrite decide_True by done. cbn [mbind option_bind]. apply obeys_call. intros ?. cbn [watch count_watch].
  rewrite decide_True by done. cbn. intros _. by rewrite decide_True.
Qed.

Lemma serveHere_obeys hello buf info h key ov ga op gr ck de wi re :
  from_option snd [] gr = hello → Serves <$> (de ≫= d_Rule) = Some true →
  obeys W (serveHere hello buf info h key) (mkLife ov [] ga 1 [buf] op gr ck de false wi re false)
    (fun _ s => s = mkLife ov [] ga 0 [] op gr ck de false wi re true).
Proof.
  intros Hh Hs. unfold serveHere. apply obeys_call. intros ok. cbn [watch]. rewrite decide_True by done.
  eapply obeys_bind; [apply put_obeys|]. intros _ ? ->. destruct ok; cbn [negb]; [|apply fail_with_obeys].
  do 4 (apply obeys_call; intros ?; cbn [watch count_watch gauge]).
  eapply (obeys_bind _ _ _ _ (fun _ s => s = mkLife ov [] ga 1 [] op gr ck de false wi re false)).
  { by destruct (x2 key); cbn. }
  intros _ ? ->. apply obeys_call. intros ?. cbn [watch]. rewrite decide_True by done.
  apply obeys_call. intros ?. cbn [watch count_watch]. rewrite decide_True by done. cbn. intros _. by rewrite decide_True.
Qed.

(** The PROXY header, if the rule has one sent. *)
Lemma header_obeys client rule ov sl ga du bu op gr ck de re en :
  de ≫= d_Rule = Some rule → client_of c = Some client →
  obeys W (if r_Proxy rule then send_header cfg (cn_remote c) (cn_local c) client rule else Ret true)
    (mkLife ov sl ga du bu op gr ck de true [] re en)
    (fun ok s => ∃ w, s = mkLife ov sl ga du bu op gr ck de true w re en ∧ (ok = true → w = header_for c de)).
Proof.
  intros Hr Hc. destruct (r_Proxy rule) eqn:Hp; [by apply send_header_obeys|].
  cbn. exists []. split; [done|]. intros _. unfold header_for. by rewrite Hr, Hc, Hp.
Qed.

Lemma terminate_obeys client hello info rule host ov sl ga du bu op gr ck de re en :
  de ≫= d_Rule = Some rule → client_of c = Some client → from_option snd [] gr = hello →
  obeys W (terminate cfg (cn_remote c) (cn_local c) client hello info rule host)
    (mkLife ov sl ga du bu op gr ck de true [] re en)
    (fun e s => ∃ w, s = mkLife ov sl ga du bu op gr ck de true w re en ∧ (e = None → w = header_for c de)).
Proof.
  intros Hr Hc Hh. unfold terminate. eapply obeys_bind; [by apply header_obeys|].
  intros ok s (w & -> & Hw). destruct ok; cbn [negb]; [|by eexists]. specialize (Hw eq_refl).
  eapply (obeys_bind _ _ _ _ (fun _ s => s = mkLife ov sl ga du bu op gr ck de true w re en)).
  { destruct (r_UpstreamTLS rule); [|done]. apply obeys_call. intros up. cbn [watch]. by destruct up. }
  intros protos ? ->. destruct protos; [|by eexists].
  apply obeys_call. intros ok. cbn [watch]. rewrite decide_True by done. destruct ok; cbn; by exists w.
Qed.

Lemma pass_through_obeys client hello buf info rule h key ov sl ga du op out ck de :
  de ≫= d_Rule = Some rule → client_of c = Some client →
  (c_RememberNonce cfg = true → ck = true) →
  out = (RParse (Ok info), hello) →
  obeys W (pass_through cfg (cn_listener c) (cn_id c) (cn_remote c) (cn_local c) client hello buf info rule h key)
    (mkLife ov sl ga du [buf] op (Some out) ck de true [] false false)
    (fun e s => ∃ w re, s = mkLife ov sl ga du [] op (Some out) ck de true w re false ∧ (e = None → w = header_for c de ++ hello)).
Proof.
  intros Hr Hc Hck ->. unfold pass_through.
  eapply (obeys_bind _ _ _ _ (fun _ s => ∃ re, s = mkLife ov sl ga du [buf] op (Some (RParse (Ok info), hello)) ck de true [] re false ∧ (c_RememberNonce cfg = true → re = true))).
  { destruct (c_RememberNonce cfg); [|by exists false]. apply obeys_call. intros t. cbn [watch].
    cbn. intros []. rewrite decide_True by auto. by exists true. }
  intros _ ? (re & -> & Hre). eapply obeys_bind; [by apply header_obeys|].
  intros ok ? (w & -> & Hw). destruct ok; cbn [negb].
  2:{ eapply obeys_bind; [apply put_obeys|]. intros _ ? ->. by exists w, re. }
  rewrite (Hw eq_refl). clear w Hw.
  eapply (obeys_bind _ _ _ _ (fun _ s => s = mkLife ov sl ga du [buf] op (Some (RParse (Ok info), hello)) ck de true (header_for c de) re false)).
  { destruct (0 <? c_IdleTimeout cfg); [|done]. apply obeys_call. intros t. cbn [watch]. by intros []. }
  intros _ ? ->. apply obeys_call. intros [n ok]. cbn [watch]. rewrite decide_True.
  2:{ split; [done|]. unfold wire_ok. cbn. split; [apply take_prefix|]. auto. }
  do 5 (apply obeys_call; intros ?; cbn [watch count_watch gauge]).
  eapply obeys_bind; [apply put_obeys|]. intros _ ? ->. cbn. eexists _, _. split; [done|].
  destruct (ok && (n =? len hello)) eqn:E; [|done]. intros _. bool_prop. subst n. unfold len. by rewrite Nat2Z.id, firstn_all.
Qed.

Lemma connected_obeys client hello buf info d rule h ov ga op out ck :
  d_Rule d = Some rule → client_of c = Some client → (c_RememberNonce cfg = true → ck = true) →
  out = (RParse (Ok info), hello) →
  obeys W (connected cfg (cn_listener c) (cn_id c) (cn_remote c) (cn_local c) client hello buf info d rule h)
    (mkLife ov [] ga 1 [buf] op (Some out) ck (Some d) true [] false false)
    (fun _ s => ∃ w re, s = mkLife ov [] ga 0 [] op (Some out) ck (Some d) true w re true).
Proof.
  intros Hr Hc Hck Hout. unfold connected.
  destruct (_ && negb (r_UpstreamTLS rule)).
  { eapply obeys_bind; [apply put_obeys|]. intros _ ? ->. eapply obeys_mono; [apply fail_with_obeys|]. intros _ ? ->. eauto. }
  destruct (Terminates rule && _) eqn:Ht.
  - eapply obeys_bind; [eapply terminate_obeys; [exact Hr|done|by rewrite Hout]|].
    intros e ? (w & -> & Hw). eapply obeys_bind; [apply put_obeys|]. intros _ ? ->. destruct e.
    + eapply obeys_mono; [apply fail_with_obeys|]. intros _ ? ->. eauto.
    + apply obeys_call. intros ?. cbn [watch count_watch gauge].
      eapply obeys_mono; [apply relay_on_obeys|]; [|intros _ ? ->; eauto].
      right. split; [|by apply Hw]. bool_prop. change (Some d ≫= d_Rule) with (d_Rule d). rewrite Hr. cbn. by f_equal.
  - eapply obeys_bind; [eapply pass_through_obeys; done|].
    intros e ? (w & re & -> & Hw). destruct e.
    + eapply obeys_mono; [apply fail_with_obeys|]. intros _ ? ->. eauto.
    + eapply obeys_mono; [apply relay_on_obeys|]; [|intros _ ? ->; eauto]. left. rewrite Hout. by apply Hw.
Qed.

(** Settled, with its end in the flow log; only what came before its routing
    is still to be left. *)
Definition settled (ov : list Z) (ga : list counter) (op : list Z) (s : life) : Prop :=
  over s = ov ∧ slots s = [] ∧ gauges s = ga ∧ due s = 0 ∧ bufs s = [] ∧ open s = op ∧ ended s = true.

(** Leaving a gauge on the way out. *)
Lemma leave_obeys k ov ga op s : gauge k = true → settled ov (k :: ga) op s →
  obeys W (count k (-1) ;;; Ret tt) s (fun _ => settled ov ga op).
Proof.
  intros Hk (H1&H2&H3&H4&H5&H6&H7). destruct s; cbn in H1, H2, H3, H4, H5, H6, H7; subst.
  cbn [bind Prog.call obeys]. intros x. destruct k; try discriminate Hk; cbn; rewrite (decide_False (P := -1 = 1)), !decide_True by done; done.
Qed.

(** ** Of a listener with rules *)

Section TLS.
Context (Htls : l_IsRedirect (cn_listener c) = false).

Lemma alert_obeys s : dialled s = false → ∀ (Q : unit → life → Prop), Q tt s →
  obeys W (call (Send Client alertAccessDenied) ;;; Ret tt) s Q.
Proof. destruct s; cbn. intros -> Q HQ [n ok]. rewrite decide_True; [done|]. unfold in_clear. by rewrite Htls. Qed.

Lemma allowed_obeys client hello buf info d rule shown ov ga op out ck :
  d_Allow d = true → d_Rule d = Some rule → client_of c = Some client → (c_RememberNonce cfg = true → ck = true) →
  out = (RParse (Ok info), hello) →
  obeys W (allowed cfg (cn_listener c) (cn_id c) (cn_remote c) (cn_local c) client hello buf info d rule shown)
    (mkLife ov [] ga 1 [buf] op (Some out) ck (Some d) false [] false false)
    (fun _ => settled ov ga op).
Proof.
  intros Ha Hr Hc Hck Hout. unfold allowed. apply obeys_call. intros h. cbn [watch].
  do 5 (apply obeys_call; intros ?; cbn [watch count_watch gauge]; rewrite ?decide_True by done).
  eapply (obeys_finally _ _ _ _ (fun _ => settled ov (HActive h :: ga) op)); [|intros [] s; by apply leave_obeys].
  eapply (obeys_finally _ _ _ _ (fun _ => settled ov (RActive (Key rule) :: HActive h :: ga) op)); [|intros [] s; by apply leave_obeys].
  destruct (if bool_decide (LocalCA rule = []) then _ else _) as [nm|e].
  2:{ eapply obeys_bind; [apply put_obeys|]. intros _ ? ->. apply obeys_call. intros ?. cbn [watch count_watch].
      rewrite decide_True by done. apply obeys_call. intros []. cbn [watch]. rewrite decide_True by done. by apply alert_obeys. }
  destruct (Serves rule) eqn:Hs.
  { eapply obeys_mono; [apply serveHere_obeys|].
    - by rewrite Hout.
    - change (Some d ≫= d_Rule) with (d_Rule d). rewrite Hr. cbn. by f_equal.
    - by intros _ ? ->. }
  apply obeys_call. intros up. cbn [watch]. rewrite decide_True by done. destruct up; cbn [negb].
  - eapply obeys_finally; [by eapply connected_obeys|]. intros [] ? (w & re & ->). by cbn.
  - eapply obeys_bind; [apply put_obeys|]. intros _ ? ->. eapply obeys_mono; [apply fail_with_obeys|]. by intros _ ? ->.
Qed.

Lemma denied_obeys buf d ov ga op gr ck de wi re :
  obeys W (denied (cn_listener c) buf d) (mkLife ov [] ga 1 [buf] op gr ck de false wi re false) (fun _ => settled ov ga op).
Proof.
  unfold denied. eapply obeys_bind; [apply put_obeys|]. intros _ ? ->. apply obeys_call. intros ?. cbn [watch count_watch].
  rewrite decide_True by done.
  eapply (obeys_bind _ _ _ _ (fun _ s => s = mkLife ov [] ga 0 [] op gr ck de false wi re false)).
  { destruct (d_Rule d), (d_Err d); by cbn. }
  intros _ ? ->. apply obeys_call. intros []. cbn [watch]. rewrite decide_True by done. by apply alert_obeys.
Qed.

Lemma answer_challenge_obeys hello buf ov ga op gr ck de wi re :
  from_option snd [] gr = hello →
  obeys W (answer_challenge hello buf) (mkLife ov [] ga 1 [buf] op gr ck de false wi re false) (fun _ => settled ov ga op).
Proof.
  intros Hh. unfold answer_challenge. apply obeys_call. intros ok. cbn [watch]. rewrite decide_True by done.
  eapply obeys_bind; [apply put_obeys|]. intros _ ? ->. destruct ok.
  - cbn. intros ?. rewrite decide_True by done. cbn. intros []. by rewrite decide_True.
  - eapply obeys_mono; [apply fail_with_obeys|]. by intros _ ? ->.
Qed.

Lemma route_obeys client hello buf info ov ga op out ck :
  client_of c = Some client → (c_RememberNonce cfg = true → ck = true) → out = (RParse (Ok info), hello) →
  obeys W (route cfg (cn_listener c) (cn_id c) (cn_remote c) (cn_local c) client hello buf info)
    (mkLife ov [] ga 1 [buf] op (Some out) ck None false [] false false)
    (fun _ => settled ov ga op).
Proof.
  intros Hc Hck Hout. unfold route. do 2 (apply obeys_call; intros ?; cbn [watch]).
  apply obeys_call. intros [d hit]. cbn [watch]. rewrite decide_True by (subst out; done).
  eapply (obeys_bind _ _ _ _ (fun _ s => s = mkLife ov [] ga 1 [buf] op (Some out) ck (Some d) false [] false false)).
  { by destruct hit; cbn. }
  intros _ ? ->. eapply (obeys_bind _ _ _ _ (fun _ s => s = mkLife ov [] ga 1 [buf] op (Some out) ck (Some d) false [] false false)).
  { destruct (_ && _); [|done]. cbn. subst out. intros ours. by rewrite decide_True. }
  intros ours ? ->. destruct ours; [apply answer_challenge_obeys; by subst out|].
  destruct (d_Allow d) eqn:Ha; [|apply denied_obeys].
  destruct (d_Rule d) as [rule|] eqn:Hr; [|apply denied_obeys]. by apply allowed_obeys.
Qed.

Lemma greet_obeys client slot ov ga :
  client_of c = Some client →
  obeys W (greet digest cfg (cn_listener c) (cn_id c) (cn_remote c) (cn_local c) client slot)
    (mkLife ov [slot] ga 1 [] [] None false None false [] false false)
    (fun _ => settled ov ga []).
Proof.
  intros Hc. unfold greet. apply obeys_call. intros []. cbn [watch].
  eapply (obeys_finally _ _ _ _ (fun _ => settled ov ga [cn_id c])).
  2:{ intros [] s (H1&H2&H3&H4&H5&H6&H7). destruct s; cbn in *; subst. cbn. intros _. by rewrite decide_True. }
  apply obeys_call. intros buf. cbn [watch]. apply obeys_call. intros [sizes end_]. cbn [watch head mbind option_bind].
  unfold client_bytes. rewrite Hc. destruct (readHello _ _ _) as [out hello] eqn:Er.
  apply obeys_call. intros []. cbn [watch remove_one]. rewrite decide_True by done. cbn [mbind option_bind].
  assert (∀ e, obeys W (put buf ;;; fail_with e)
    (mkLife ov [] ga 1 [buf] [cn_id c] (Some (out, hello)) false None false [] false false)
    (fun _ => settled ov ga [cn_id c])) as Hfail.
  { intros e. eapply obeys_bind; [apply put_obeys|]. intros _ ? ->. eapply obeys_mono; [apply fail_with_obeys|]. by intros _ ? ->. }
  destruct out as [[info|e]| |[]|]; try apply Hfail.
  apply obeys_call. intros []. cbn [watch].
  eapply (obeys_bind _ _ _ _ (fun b s => ∃ ck,
    s = mkLife ov [] ga 1 [buf] [cn_id c] (Some (RParse (Ok info), hello)) ck None false [] false false ∧
    (b = false → c_RememberNonce cfg = true → ck = true))).
  { destruct (c_RememberNonce cfg); [|by eexists]. apply obeys_call. intros t. cbn.
    intros seen. rewrite decide_True by done. eexists. split; [done|]. by intros ->. }
  intros loop ? (ck & -> & Hck). destruct loop.
  - eapply obeys_bind; [apply put_obeys|]. intros _ ? ->. apply obeys_call. intros ?. cbn [watch count_watch].
    rewrite decide_True by done. apply obeys_call. intros []. cbn [watch]. rewrite decide_True by done. by apply alert_obeys.
  - apply route_obeys; auto.
Qed.

End TLS.

(** ** Of either *)

Lemma beginHandshake_obeys key ov sl ga du bu op gr ck de di wi re en :
  obeys W (beginHandshake source_hash key limit) (mkLife ov sl ga du bu op gr ck de di wi re en)
    (fun r s => s = mkLife ov (match r with Some i => i :: sl | None => sl end) ga du bu op gr ck de di wi re en).
Proof.
  unfold beginHandshake. apply obeys_call. intros v. cbn [watch]. destruct (_ && _); [|done].
  cbn. intros []. by rewrite decide_True.
Qed.

Lemma remove_one_under (x y : Z) : remove_one x [y; x] = Some [y].
Proof. cbn. destruct (decide (x = y)) as [->|]; [done|]. by rewrite decide_True. Qed.

(** Over, but for what came before its admission. *)
Definition handled_end (ov : list Z) (ga : list counter) (s : life) : Prop :=
  over s = ov ∧ slots s = [] ∧ gauges s = ga ∧ due s = 0 ∧ bufs s = [] ∧ open s = [].

Lemma settled_end ov ga s : settled ov ga [] s → handled_end ov ga s.
Proof. unfold settled, handled_end. naive_solver. Qed.

Lemma admitted_obeys next start slot ov ga :
  c_MaxHandshakesPerIP cfg = limit →
  (∀ client slot, client_of c = Some client →
    obeys W (next client slot) (mkLife ov [slot] ga 1 [] [] None false None false [] false false) (fun _ => settled ov ga [])) →
  obeys W (admitted source_hash cfg (cn_sock c) (cn_remote c) next start (sourceKey (cn_remote c)) slot)
    (mkLife ov [slot] ga 0 [] [] None false None false [] false false)
    (fun _ => handled_end ov ga).
Proof.
  intros Hlim Hnext. unfold admitted. apply obeys_call. intros ?. cbn [watch count_watch].
  rewrite !decide_True by lia. apply obeys_call. intros []. cbn [watch].
  destruct (if trustsProxySource _ _ then _ else _) as [client|e] eqn:Ed.
  2:{ apply obeys_call. intros ?. cbn [watch count_watch]. rewrite decide_True by done.
      apply obeys_call. intros []. cbn. intros []. rewrite decide_True by done. cbn. done. }
  assert (client_of c = Some client) as Hc.
  { unfold client_of. destruct (trustsProxySource _ _); [by rewrite Ed|by injection Ed as ->]. }
  change (0 + 1) with 1. destruct (bool_decide _).
  { eapply obeys_mono; [by apply Hnext|]. intros [] s. apply settled_end. }
  rewrite Hlim. eapply obeys_bind; [apply beginHandshake_obeys|]. intros [slot'|] ? ->; cbv iota.
  - apply obeys_call. intros []. cbn [watch]. rewrite remove_one_under.
    cbn [mbind option_bind]. eapply obeys_mono; [by apply Hnext|]. intros [] s. apply settled_end.
  - apply obeys_call. intros ?. cbn [watch count_watch]. rewrite !decide_True by lia.
    cbn [bind Prog.call obeys watch count_watch gauge]. intros ? [] []. cbn [watch remove_one]. rewrite decide_True by done. cbn. done.
Qed.

Lemma handled_obeys next ov ga :
  c_MaxHandshakesPerIP cfg = limit →
  (∀ client slot, client_of c = Some client →
    obeys W (next client slot) (mkLife ov [slot] ga 1 [] [] None false None false [] false false) (fun _ => settled ov ga [])) →
  obeys W (handled source_hash cfg (cn_sock c) (cn_remote c) next) (mkLife ov [] ga 0 [] [] None false None false [] false false)
    (fun _ => handled_end ov ga).
Proof.
  intros Hlim Hnext. unfold handled. eapply (obeys_finally _ _ _ _ (fun _ => handled_end ov ga)); [|intros [] s Hs; destruct s; exact (fun _ => Hs)].
  apply obeys_call. intros start. cbn [watch]. rewrite Hlim.
  eapply obeys_bind; [apply beginHandshake_obeys|]. intros [slot|] ? ->; [by apply admitted_obeys|]. by cbn.
Qed.

(** ** Of the redirect listener *)

(** Calls that change nothing of what is known. *)
Lemma count_up_obeys n s : obeys W (count_up (cn_listener c) (cn_id c) n) s (fun _ s' => s' = s).
Proof.
  unfold count_up. destruct (0 <? n); [|done]. destruct s.
  do 4 (apply obeys_call; intros ?; cbn [watch count_watch gauge]). done.
Qed.
Lemma count_down_obeys n s : obeys W (count_down (cn_listener c) (cn_id c) n) s (fun _ s' => s' = s).
Proof.
  unfold count_down. destruct (0 <? n); [|done]. destruct s.
  do 4 (apply obeys_call; intros ?; cbn [watch count_watch gauge]). done.
Qed.
Lemma count_reads_obeys sizes s : obeys W (count_reads (cn_listener c) (cn_id c) sizes) s (fun _ s' => s' = s).
Proof.
  induction sizes as [|n sizes IH]; [done|]. cbn [count_reads]. eapply obeys_bind; [apply count_up_obeys|]. by intros [] ? ->.
Qed.

Section Redirects.
Context (Hredir : l_IsRedirect (cn_listener c) = true).

Lemma respond_obeys status location keep s : dialled s = false →
  obeys W (respond cfg (cn_listener c) (cn_id c) status location keep) s (fun _ s' => s' = s).
Proof.
  intros Hd. unfold respond. destruct s. do 2 (apply obeys_call; intros ?; cbn [watch]).
  apply obeys_call. intros [n ok]. cbn [watch dialled] in *. rewrite decide_True.
  - eapply obeys_bind; [apply count_down_obeys|]. by intros [] ? ->.
  - split; [|done]. unfold in_clear. rewrite Hredir. unfold Redirect.redirect_response. cbn [fmap list_fmap Redirect.response_lines app concat].
    rewrite <- !app_assoc. by apply prefix_app_r.
Qed.

Lemma end_slot_obeys slot ov ga du bu op gr ck de di wi re en :
  obeys W (end_slot slot) (mkLife ov (option_list slot) ga du bu op gr ck de di wi re en)
    (fun _ s => s = mkLife ov [] ga du bu op gr ck de di wi re en).
Proof. destruct slot as [i|]; [|done]. cbn. intros _. by rewrite decide_True. Qed.

Lemma redirect_loop_obeys qs last slot requests host ov ga bu op gr ck de wi re :
  obeys W (redirect_loop cfg (cn_listener c) (cn_id c) qs last slot requests host)
    (mkLife ov (option_list slot) ga 1 bu op gr ck de false wi re false)
    (fun _ s => s = mkLife ov [] ga 1 bu op gr ck de false wi re false).
Proof.
  revert slot requests host. induction qs as [|[sizes q] qs IH]; intros slot requests host; cbn [redirect_loop].
  all: eapply (obeys_bind _ _ _ _ (fun _ s => s = mkLife ov (option_list slot) ga 1 bu op gr ck de false wi re false));
    [by destruct (0 <? requests), (0 <? c_IdleTimeout cfg); cbn|intros _ ? ->].
  all: eapply obeys_bind; [apply count_reads_obeys|intros _ ? ->].
  all: eapply obeys_bind; [apply end_slot_obeys|intros _ ? ->].
  - destruct (Redirect.read_ended _ _) as [e [status|]]; [|done]. eapply obeys_bind; [by apply respond_obeys|]. by intros ok ? ->.
  - destruct (Redirect.redirect_turn q) as [t|]; [|eapply obeys_bind; [by apply respond_obeys|by intros ok ? ->]].
    eapply (obeys_bind _ _ _ _ (fun _ s => s = mkLife ov [] ga 1 bu op gr ck de false wi re false)); [by case_bool_decide; cbn|intros _ ? ->].
    eapply obeys_bind; [by apply respond_obeys|]. intros ok ? ->. destruct ok; cbn [negb]; [|done].
    destruct (Redirect.tn_keep t); [apply IH|done].
Qed.

Lemma linger_obeys s : obeys W (linger (cn_listener c) (cn_id c)) s (fun _ s' => s' = s).
Proof.
  unfold linger. apply obeys_call. intros killed. destruct s. cbn [watch]. destruct killed; [done|].
  apply obeys_call. intros closed. cbn [watch]. destruct closed; [|done].
  do 2 (apply obeys_call; intros ?; cbn [watch]). apply obeys_call. intros sizes. cbn [watch]. apply count_reads_obeys.
Qed.

Lemma redirected_obeys client slot ov ga :
  obeys W (redirected cfg (cn_listener c) (cn_id c) client slot)
    (mkLife ov [slot] ga 1 [] [] None false None false [] false false)
    (fun _ => settled ov ga []).
Proof.
  unfold redirected. do 2 (apply obeys_call; intros ?; cbn [watch count_watch gauge]; rewrite ?decide_True by done).
  eapply (obeys_finally _ _ _ _ (fun _ => settled ov (RActive Redirect.redirectKey :: ga) [])); [|intros [] s; by apply leave_obeys].
  apply obeys_call. intros []. cbn [watch].
  eapply (obeys_finally _ _ _ _ (fun _ => settled ov (RActive Redirect.redirectKey :: ga) [cn_id c])).
  2:{ intros [] s (H1&H2&H3&H4&H5&H6&H7). destruct s; cbn in *; subst. cbn. intros _. by rewrite decide_True. }
  apply obeys_call. intros []. cbn [watch]. apply obeys_call. intros [qs last]. cbn [watch head mbind option_bind].
  eapply obeys_bind; [apply (redirect_loop_obeys qs last (Some slot))|]. intros [e answered] ? ->.
  eapply (obeys_bind _ _ _ _ (fun _ s => s = mkLife ov [] (RActive Redirect.redirectKey :: ga) 1 [] [cn_id c] None false None false [] false false)).
  { destruct answered; [apply linger_obeys|done]. }
  intros _ ? ->. apply obeys_call. intros ?.
  assert (∀ k, k = Failed ∨ k = Completed → count_watch k 1 (mkLife ov [] (RActive Redirect.redirectKey :: ga) 1 [] [cn_id c] None false None false [] false false)
    = Some (mkLife ov [] (RActive Redirect.redirectKey :: ga) 0 [] [cn_id c] None false None false [] false false)) as Hk
    by (intros k [-> | ->]; cbn; by rewrite decide_True).
  cbn [watch]. rewrite Hk by (destruct (Redirect.end_failed e); auto). cbn. intros _. by rewrite decide_True.
Qed.
End Redirects.

(** Whatever its calls are answered, a connection keeps to what a connection
    may do, and holds nothing at the end. *)
Lemma accepted_obeys :
  c_MaxHandshakesPerIP cfg = limit →
  obeys W (accepted digest source_hash cfg (cn_listener c) (cn_id c) (cn_sock c) (cn_remote c) (cn_local c)) unborn (fun _ => gone).
Proof.
  intros Hlim. unfold accepted, unborn. apply obeys_call. intros a. cbn [watch count_watch gauge]. rewrite decide_True by done.
  apply obeys_call. intros m. cbn [watch count_watch gauge]. rewrite decide_True by done.
  set (nm := name (cn_listener c)).
  assert (∀ k ga sl de di wi re en gr ck du bu op, gauge k = true →
    ∀ x, W Z (Count k (-1)) x (mkLife [] sl (k :: ga) du bu op gr ck de di wi re en) = Some (mkLife [] sl ga du bu op gr ck de di wi re en)) as Hleave.
  { intros k **. destruct k; try discriminate; cbn; by rewrite (decide_False (P := -1 = 1)), !decide_True. }
  destruct (_ || _).
  - apply obeys_call. intros []. cbn [watch]. apply obeys_call. intros x.
    cbn [watch count_watch gauge]. rewrite (decide_False (P := -1 = 1)), decide_True by done. cbn [remove_one].
    rewrite decide_False by done. rewrite decide_True by done. cbn [fmap option_fmap option_map mbind option_bind].
    apply obeys_call. intros ?. rewrite Hleave by done. cbn. done.
  - apply obeys_call. intros ?. cbn [watch count_watch gauge]. apply obeys_call. intros ?. cbn [watch count_watch gauge].
    rewrite decide_True by done.
    eapply (obeys_bind _ _ _ _ (fun _ => handled_end [] [GoroutinesStarted; LActive nm; Active])).
    + destruct (l_IsRedirect (cn_listener c)) eqn:Er; (apply handled_obeys; [done|]); intros client slot Hc;
        [by apply redirected_obeys|by apply greet_obeys].
    + intros [] s (H1&H2&H3&H4&H5&H6). destruct s; cbn in H1, H2, H3, H4, H5, H6; clear Hlim; subst.
      apply obeys_call. intros ?. cbn [watch count_watch gauge]. rewrite (decide_False (P := -1 = 1)), decide_True by done. cbn [remove_one].
      rewrite decide_False by done. rewrite decide_True by done. cbn [fmap option_fmap option_map mbind option_bind].
      apply obeys_call. intros ?. cbn [watch count_watch gauge]. rewrite (decide_False (P := -1 = 1)), decide_True by done. cbn [remove_one].
      rewrite decide_False by done. rewrite decide_True by done. cbn [fmap option_fmap option_map mbind option_bind].
      cbn. intros ?. by rewrite decide_True.
Qed.
End Obeys.
