(* ===== verification/Sharing.v ===== *)
(** Sharing: any number of connections at once ([Handle]) on the state they
    share: what each holds of it, and that its sum is all there is. *)

From S2P Require Import Prelude GoStr NetIP Sni ProxyProto Rules Config Prog Handle.
From S2P Require Cache Nonce Ring Pool Tables Redirect.

#[local] Arguments Sni.readHello : simpl never.
#[local] Existing Instance Pool.buffer_eq_dec.
#[local] Existing Instance Pool.ring_queue.
#[local] Existing Instance Pool.ring_queue_laws.

(** * What they share, and what each holds of it *)

Definition occ {A} `{EqDecision A} (x : A) (l : list A) : Z := len (filter (fun y => y = x) l).
Definition same {A} `{EqDecision A} (x y : A) : Z := if decide (y = x) then 1 else 0.

Lemma occ_cons {A} `{EqDecision A} (x y : A) l : occ x (y :: l) = same x y + occ x l.
Proof. unfold occ, same. rewrite filter_cons. destruct (decide (y = x)); [rewrite len_cons; lia|lia]. Qed.

Lemma occ_nonneg {A} `{EqDecision A} (x : A) l : 0 <= occ x l.
Proof. apply len_nonneg. Qed.

Lemma remove_one_perm {A} `{EqDecision A} (x : A) l l' : remove_one x l = Some l' → l ≡ₚ x :: l'.
Proof.
  revert l'. induction l as [|y l IH]; intros l'; cbn; [done|]. destruct (decide (x = y)) as [->|]; [by injection 1 as <-|].
  destruct (remove_one x l) as [k|]; [|done]. injection 1 as <-. rewrite (IH k) by done. apply Permutation_swap.
Qed.

Lemma occ_remove {A} `{EqDecision A} (x y : A) l l' : remove_one y l = Some l' → occ x l = same x y + occ x l'.
Proof.
  intros H%remove_one_perm. rewrite <- occ_cons. unfold occ, len. by rewrite H.
Qed.

(** What a call adds to each shared quantity. *)
Definition d_source (i : Z) (X : Type) (a : act X) : Z :=
  match a with Bump j => same i j | Unbump j | EndHandshake j => - same i j | _ => 0 end.
Definition d_due (X : Type) (a : act X) : Z :=
  match a with Count Accepted n => n | Count (Denied | Failed | Completed) n => - n | _ => 0 end.
Definition d_gauge (k : counter) (X : Type) (a : act X) : Z :=
  match a with
  | Count j n => if decide (j = k) then n else if decide (k = GoroutinesStarted ∧ j = GoroutinesFinished) then - n else 0
  | _ => 0
  end.
Definition d_conns (X : Type) (a : act X) : Z :=
  match a with Register _ => 1 | Unregister _ => -1 | _ => 0 end.

Definition gauge_of (w : server) (k : counter) : Z :=
  if decide (k = GoroutinesStarted) then counters w GoroutinesStarted - counters w GoroutinesFinished else counters w k.
Definition settlement (w : server) : Z :=
  counters w Accepted - counters w Denied - counters w Failed - counters w Completed.

Section Shared.
Context (digest name_hash : bytes → Z) (limit : Z) (c : connection).
Abbreviation W := (watch digest limit c).
Abbreviation answers := (answers (perform name_hash)).

Lemma count_watch_cases k n s s' : count_watch k n s = Some s' →
  over s' = over s ∧ slots s' = slots s ∧ bufs s' = bufs s ∧ open s' = open s.
Proof.
  destruct s. unfold count_watch. destruct k; cbn; intros; repeat case_decide; simplify_option_eq; done.
Qed.

Lemma watch_sources i X (a : act X) x s s' : W X a x s = Some s' →
  occ i (over s') + occ i (slots s') = occ i (over s) + occ i (slots s) + d_source i X a.
Proof.
  clear name_hash. destruct s. destruct a; cbn [watch d_source]; intros H;
    try match goal with H : count_watch _ _ _ = Some _ |- _ => apply count_watch_cases in H as (-> & -> & _); cbn; lia end.
  all: repeat case_match; simplify_option_eq; rewrite ?occ_cons; try lia.
  all: match goal with H : remove_one _ _ = Some _ |- _ => rewrite (occ_remove i _ _ _ H) end; lia.
Qed.

Lemma watch_due X (a : act X) x s s' : W X a x s = Some s' → due s' = due s + d_due X a ∧ (0 <= due s <= 1 → 0 <= due s' <= 1).
Proof.
  clear name_hash. destruct s. destruct a; cbn [watch d_due]; intros H.
  { destruct c0; cbn in H; repeat case_match; simplify_option_eq; lia. }
  all: repeat case_match; simplify_option_eq; lia.
Qed.

Lemma watch_gauge k X (a : act X) x s s' : gauge k = true → W X a x s = Some s' →
  occ k (gauges s') = occ k (gauges s) + d_gauge k X a.
Proof.
  clear name_hash. intros Hk. destruct s as [ov sl ga du bu op gr ck de di wi re en]. destruct a as [j n| | | | | | | | | | | | | | | |sd t|sd t|sd b|sd| | | | | | | | | | | | | | |]; cbn [watch d_gauge]; intros H.
  2-35: repeat case_match; simplify_option_eq; lia.
  assert (∀ l l', remove_one j l = Some l' → occ k l' = occ k l - same k j) as Hrm by (intros l l' Hr; rewrite (occ_remove k _ _ _ Hr); lia).
  unfold same in Hrm. destruct (decide (j = GoroutinesFinished)) as [->|Hj].
  { cbn in H. rewrite (decide_False (P := GoroutinesFinished = k)) by (by destruct k). case_decide; [|done]. subst n.
    destruct (remove_one _ _) eqn:Er; [|done]. injection H as <-. cbn. rewrite (occ_remove k _ _ _ Er).
    unfold same. repeat case_decide; naive_solver lia. }
  rewrite (decide_False (P := k = _ ∧ _)) by naive_solver.
  unfold count_watch in H. destruct (decide (j = k)) as [->|Hjk].
  - assert ((if gauge k then if decide (n = 1) then Some (mkLife ov sl (k :: ga) du bu op gr ck de di wi re en)
      else if decide (n = -1) then ga' ← remove_one k ga; Some (mkLife ov sl ga' du bu op gr ck de di wi re en) else None else None) = Some s') as H'
      by (destruct k; done).
    rewrite Hk in H'. clear H. repeat case_decide; simplify_option_eq; [rewrite occ_cons; unfold same; rewrite decide_True by done; lia|].
    rewrite (Hrm _ _ Heqo). repeat case_decide; try done; lia.
  - assert (gauge j = true → n = 1 ∧ gauges s' = j :: ga ∨ n = -1 ∧ remove_one j ga = Some (gauges s')) as H1.
    { intros Hg. destruct j; try discriminate Hg; repeat case_decide; simplify_option_eq; auto. }
    assert (gauge j = false → gauges s' = ga) as H2.
    { intros Hg. destruct j; try discriminate Hg; repeat case_decide; simplify_option_eq; auto. }
    cbn. destruct (gauge j).
    + destruct H1 as [[-> ->]|[-> Hr]]; [done| |]; rewrite ?occ_cons, ?(Hrm _ _ Hr); unfold same; repeat case_decide; done || lia.
    + rewrite H2 by done. lia.
Qed.

Lemma watch_open X (a : act X) x s s' : W X a x s = Some s' → len (open s') = len (open s) + d_conns X a.
Proof.
  clear name_hash. destruct s. destruct a; cbn [watch d_conns]; intros H;
    try match goal with H : count_watch _ _ _ = Some _ |- _ => apply count_watch_cases in H as (_ & _ & _ & ->); cbn; lia end.
  all: repeat case_match; simplify_option_eq; rewrite ?len_cons; try lia.
  apply remove_one_perm in Heqo. unfold len. rewrite Heqo. cbn. lia.
Qed.

Lemma answers_counters X (a : act X) u x u' k : answers a u x u' →
  counters u' k = counters u k + match a with Count j n => if decide (j = k) then n else 0 | _ => 0 end.
Proof.
  clear digest. unfold Prog.answers, perform. destruct u. destruct a; cbn; intros H; repeat case_match; simplify_eq/=; try lia.
  all: destruct H as [-> ->]; cbn; unfold add_counter; repeat case_decide; simplify_eq/=; lia.
Qed.
Lemma add_source_lookup m i j n : default 0 (add_source m j n !! i) = default 0 (m !! i) + n * same i j.
Proof.
  unfold add_source, same. destruct (decide (j = i)) as [->|]; [rewrite lookup_insert_eq; cbn; lia|].
  rewrite lookup_insert_ne by done. lia.
Qed.

Lemma answers_sources i X (a : act X) u x u' : answers a u x u' →
  default 0 (sources u' !! i) = default 0 (sources u !! i) + d_source i X a.
Proof.
  clear digest. unfold Prog.answers, perform. destruct u. destruct a; cbn [d_source]; intros Hx; repeat case_match; simplify_eq/=; try lia.
  all: destruct Hx as [-> ->]; cbn; rewrite ?add_source_lookup; lia.
Qed.

Lemma answers_conns X (a : act X) u x u' : answers a u x u' → conns u' = conns u + d_conns X a.
Proof.
  clear digest. unfold Prog.answers, perform. destruct u. destruct a; cbn [d_conns]; intros Hx; repeat case_match; simplify_eq/=; try lia.
  all: destruct Hx as [-> ->]; cbn; lia.
Qed.

(** A slot is only had when the count, with it, is within the limit. *)
Lemma watch_slots i X (a : act X) x s s' u u' : W X a x s = Some s' → answers a u x u' →
  occ i (slots s') <= occ i (slots s) ∨ (0 < limit → default 0 (sources u' !! i) <= limit).
Proof.
  intros Hw Ha. destruct s. destruct a; cbn [watch] in Hw.
  { apply count_watch_cases in Hw as (_ & -> & _). left. cbn. lia. }
  { destruct (decide (i0 = i)) as [->|Hne].
    - destruct (Z.ltb_spec 0 limit); [|by right; lia]. cbn in Hw. destruct (Z.ltb_spec limit x); injection Hw as <-; [by left; cbn; lia|].
      right. intros _. unfold Prog.answers, perform in Ha. destruct u. destruct Ha as [-> ->]. done.
    - left. destruct (_ && _); injection Hw as <-; cbn; [lia|]. rewrite occ_cons. unfold same. rewrite decide_False by done. lia. }
  all: left; repeat case_match; simplify_option_eq; try lia.
  all: match goal with H : remove_one ?y _ = Some _ |- _ => rewrite (occ_remove i _ _ _ H); unfold same; case_decide; lia end.
Qed.

(** The buffers a call borrows and returns. *)
Definition borrowed (X : Type) (a : act X) : X → list Pool.buffer :=
  match a in act X return X → list Pool.buffer with GetBuffer => fun b => [b] | _ => fun _ => [] end.
Definition returned (X : Type) (a : act X) : list Pool.buffer :=
  match a with PutBuffer b _ => [b] | _ => [] end.

Lemma watch_bufs X (a : act X) x s s' : W X a x s = Some s' →
  returned X a ++ bufs s' ≡ₚ borrowed X a x ++ bufs s.
Proof.
  clear name_hash. destruct s. destruct a; cbn [watch returned borrowed]; intros Hw;
    try match goal with H : count_watch _ _ _ = Some _ |- _ => apply count_watch_cases in H as (_ & _ & -> & _); done end.
  all: repeat case_match; simplify_option_eq; try done.
  by match goal with H : remove_one _ _ = Some _ |- _ => rewrite (remove_one_perm _ _ _ H) end.
Qed.

Lemma answers_buffers X (a : act X) u x u' rest : answers a u x u' →
  Pool.lent (buffers u) ≡ₚ returned X a ++ rest →
  Pool.lent (buffers u') ≡ₚ borrowed X a x ++ rest ∧ rtc Pool.lend (buffers u) (buffers u').
Proof.
  clear digest. unfold Prog.answers, perform. destruct u as [cs ss ns ca bs hs ids].
  destruct a; cbn [returned borrowed buffers app]; intros Hx Hl.
  7:{ unfold get_buffer in Hx. destruct (Pool.Get (Pool.pool bs)) as [q [b|]] eqn:Eg; destruct Hx as [-> ->]; cbn [buffers Pool.lent];
      (split; [by rewrite Hl|]); apply rtc_once; [by apply Pool.LendGet|by apply Pool.LendNew]. }
  7:{ destruct Hx as [_ ->]. cbn [buffers]. unfold put_buffer. cbn [Pool.lent].
      destruct (remove_one b (Pool.lent bs)) as [l|] eqn:Er; cbn [default].
      - pose proof (remove_one_perm _ _ _ Er) as Hp. split.
        + apply (Permutation_cons_inv (a := b)). by rewrite <- Hp.
        + apply rtc_once. by apply Pool.LendPut.
      - exfalso. assert (b ∈ Pool.lent bs) as Hb by (rewrite Hl; set_solver). clear -Hb Er.
        induction (Pool.lent bs) as [|y l IH]; cbn in Er; [set_solver|]. destruct (decide (b = y)); [done|].
        destruct (remove_one b l); [done|]. set_solver. }
  all: repeat case_match; simplify_eq/=; try (destruct Hx as [-> ->]); done.
Qed.
End Shared.

Section Kept.
Context (digest source_hash name_hash : bytes → Z) (limit bsize maxIdle : Z).
Context (allowCap denyCap start_time : Z).
Abbreviation answers := (answers (perform name_hash)).

Definition fresh_server : server :=
  mkServer (fun _ => 0) ∅ (Nonce.newNonceCache start_time) (Cache.NewRouteCache allowCap denyCap)
    (Pool.opened bsize maxIdle) Tables.HostTable.newHostTable 0.

(** The shared state is the sum of what the connections hold of it. *)
Record kept (w : server) (ls : list life) : Prop := {
  k_sources : ∀ i, default 0 (sources w !! i) = sum_of (fun s => occ i (over s) + occ i (slots s)) ls;
  k_limit : 0 < limit → ∀ i, sum_of (fun s => occ i (slots s)) ls <= limit;
  k_due : settlement w = sum_of due ls;
  k_due1 : Forall (fun s => 0 <= due s <= 1) ls;
  k_gauges : ∀ k, gauge k = true → gauge_of w k = sum_of (fun s => occ k (gauges s)) ls;
  k_conns : conns w = sum_of (fun s => len (open s)) ls;
  k_lent : Pool.lent (buffers w) ≡ₚ concat (bufs <$> ls);
  k_pool : Pool.lending_inv bsize maxIdle (buffers w);
}.

Lemma kept_fresh : maxIdle < 2 ^ 63 → kept fresh_server [].
Proof.
  intros Hm. split; cbn; try done; [intros; lia| |by apply Pool.opened_inv].
  intros k _. unfold gauge_of, fresh_server. cbn. by case_decide.
Qed.

Lemma kept_start w ls : kept w ls → kept w (ls ++ [unborn]).
Proof.
  intros [H1 H2 H3 H4 H5 H6 H7 H8]. split; [| | | | | |by rewrite fmap_app, concat_app, app_nil_r|done].
  - intros i. rewrite sum_of_snoc, H1. symmetry. apply Z.add_0_r.
  - intros Hl i. rewrite sum_of_snoc. change (occ i (slots unborn)) with 0. rewrite Z.add_0_r. by apply H2.
  - rewrite sum_of_snoc, H3. symmetry. apply Z.add_0_r.
  - apply Forall_app. split; [done|]. constructor; [cbn; lia|constructor].
  - intros k Hk. rewrite sum_of_snoc, H5 by done. symmetry. apply Z.add_0_r.
  - rewrite sum_of_snoc, H6. symmetry. apply Z.add_0_r.
Qed.

Lemma sum_of_step (f : life → Z) ls i s s' (n : Z) :
  ls !! i = Some s → f s' = f s + n → sum_of f (<[i := s']> ls) = sum_of f ls + n.
Proof. intros Hi Hf. rewrite (sum_of_insert f ls i s s' Hi). lia. Qed.

Lemma concat_insert {A} (f : life → list A) ls i s s' : ls !! i = Some s →
  ∃ k, concat (f <$> ls) ≡ₚ f s ++ k ∧ concat (f <$> <[i := s']> ls) ≡ₚ f s' ++ k.
Proof.
  intros Hi. pose proof (lookup_lt_Some _ _ _ Hi) as Hlt.
  exists (concat (f <$> take i ls) ++ concat (f <$> drop (S i) ls)).
  assert (<[i := s']> ls = take i ls ++ s' :: drop (S i) ls) as -> by (by apply insert_take_drop).
  rewrite <- (take_drop_middle ls i s Hi) at 1. rewrite !fmap_app, !concat_app. cbn.
  split; apply Permutation_app_swap_app.
Qed.

Lemma sum_of_le {A} (f g : A → Z) l : (∀ x, x ∈ l → f x <= g x) → sum_of f l <= sum_of g l.
Proof.
  induction l as [|x l IH]; intros Hfg; [done|]. change (f x + sum_of f l <= g x + sum_of g l).
  pose proof (Hfg x ltac:(set_solver)). pose proof (IH ltac:(set_solver)). lia.
Qed.

Lemma buffers_step u c s X (a : act X) x s' u' k :
  watch digest limit c X a x s = Some s' → answers a u x u' → Pool.lent (buffers u) ≡ₚ bufs s ++ k →
  Pool.lent (buffers u') ≡ₚ bufs s' ++ k ∧ rtc Pool.lend (buffers u) (buffers u').
Proof.
  intros Hw Ha Hl. pose proof (watch_bufs _ _ _ _ _ _ _ _ Hw) as Hb.
  assert (returned X a = [] ∨ borrowed X a x = []) as [Hn|Hn] by (destruct a; auto); rewrite Hn in Hb; cbn in Hb.
  - destruct (answers_buffers _ _ _ _ _ _ (bufs s ++ k) Ha) as [-> ?]; [by rewrite Hn|]. by rewrite app_assoc, <- Hb.
  - destruct (answers_buffers _ _ _ _ _ _ (bufs s' ++ k) Ha) as [-> ?]; [by rewrite app_assoc, Hb|]. by rewrite Hn.
Qed.

Lemma kept_step u ls i s c X (a : act X) x s' u' :
  kept u ls → ls !! i = Some s → watch digest limit c X a x s = Some s' → answers a u x u' →
  kept u' (<[i := s']> ls).
Proof.
  clear source_hash. intros [H1 H2 H3 H4 H5 H6 H7 H8] Hi Hw Ha.
  assert (∀ j, default 0 (sources u' !! j) = sum_of (fun s => occ j (over s) + occ j (slots s)) (<[i := s']> ls)) as H1'.
  { intros j. rewrite (answers_sources _ j _ _ _ _ _ Ha), H1. symmetry. apply (sum_of_step _ _ _ _ _ _ Hi). by eapply watch_sources. }
  pose proof (watch_due _ _ _ _ _ _ _ _ Hw) as [Hd1 Hd2].
  split; [done| | | | | | |].
  - intros Hl j. destruct (watch_slots _ _ _ _ j _ _ _ _ _ _ _ Hw Ha) as [Hle|Hle].
    + rewrite (sum_of_insert _ _ _ _ _ Hi). specialize (H2 Hl j). lia.
    + specialize (Hle Hl). rewrite H1' in Hle. etransitivity; [|exact Hle]. apply sum_of_le. intros y _.
      pose proof (occ_nonneg j (over y)). lia.
  - rewrite (sum_of_step due _ _ _ _ (d_due X a) Hi) by done. rewrite <- H3. unfold settlement.
    rewrite !(answers_counters _ _ _ _ _ _ _ Ha). destruct a; cbn; try lia. destruct c0; cbn [d_due]; repeat case_decide; try done; lia.
  - apply Forall_insert; [done|]. apply Hd2. by eapply Forall_lookup in H4.
  - intros k Hk. rewrite (sum_of_step _ _ _ _ _ (d_gauge k X a) Hi) by (by eapply watch_gauge). rewrite <- H5 by done.
    unfold gauge_of. rewrite !(answers_counters _ _ _ _ _ _ _ Ha). destruct a; cbn [d_gauge]; repeat case_decide; subst; try lia; naive_solver lia.
  - rewrite (sum_of_step _ _ _ _ _ (d_conns X a) Hi) by (by eapply watch_open). by rewrite <- H6, (answers_conns _ _ _ _ _ _ Ha).
  - destruct (concat_insert bufs ls i s s' Hi) as (k & Hk & ->). rewrite Hk in H7. by eapply buffers_step.
  - destruct (concat_insert bufs ls i s s' Hi) as (k & Hk & _). rewrite Hk in H7.
    eapply rtc_invariant; [apply Pool.lend_inv| |exact H8]. by eapply buffers_step.
Qed.
End Kept.

(** * What a connection did, read off its calls *)

Section Past.
Abbreviation event := (event act).

(** The bytes it put on its upstream socket. *)
Definition sent_by (X : Type) (a : act X) : X → bytes :=
  match a in act X return X → bytes with
  | Send Upstream b => fun '(n, _) => take (Z.to_nat n) b
  | _ => fun _ => []
  end.
Definition sent_upstream (h : list event) : bytes := concat ((fun e => sent_by _ (ev_call e) (ev_answer e)) <$> h).

(** The targets it dialled, and what routing answered. *)
Definition dialled_by (X : Type) (a : act X) : list (bytes * Z) := match a with Dial host port => [(host, port)] | _ => [] end.
Definition dials (h : list event) : list (bytes * Z) := concat ((fun e => dialled_by _ (ev_call e)) <$> h).
Definition routed_by (X : Type) (a : act X) : X → list RouteDecision :=
  match a in act X return X → list RouteDecision with GetOrRoute _ _ _ => fun '(d, _) => [d] | _ => fun _ => [] end.
Definition decisions (h : list event) : list RouteDecision :=
  concat ((fun e => routed_by _ (ev_call e) (ev_answer e)) <$> h).

(** Whether it remembered its ClientHello, and what it wrote to the client
    itself, outside of TLS and of the relay. *)
Definition remembers (X : Type) (a : act X) : bool := match a with Remember _ _ => true | _ => false end.
Definition has_remembered (h : list event) : bool := existsb (fun e => remembers _ (ev_call e)) h.
Definition answered_by (X : Type) (a : act X) : list bytes := match a with Send Client b => [b] | _ => [] end.
Definition alerts (h : list event) : list bytes := concat ((fun e => answered_by _ (ev_call e)) <$> h).
End Past.

Lemma cut_reads_bytes data sizes e : conn_bytes (cut_reads data sizes e) `prefix_of` data.
Proof.
  revert data. induction sizes as [|n sizes IH]; intros data; [apply prefix_nil|].
  unfold conn_bytes in *. cbn. rewrite <- (take_drop (Z.to_nat n) data) at 3. by apply prefix_app.
Qed.

Section Story.
Context (digest : bytes → Z) (limit : Z) (c : connection).

(** What a life says of the calls so far. *)
Record tells (h : list (event act)) (s : life) : Prop := {
  t_hello : hello_of s `prefix_of` client_bytes c;
  t_wire : wire s = sent_upstream h;
  t_wire_ok : wire_ok c s (wire s);
  t_routed : decisions h = option_list (decision s);
  t_unrouted : decision s = None → wire s = [] ∧ dialled s = false;
  t_unread : greeting s = None → decision s = None;
  t_dials : Forall (fun t => ∃ d, decision s = Some d ∧ d_Allow d = true ∧ t = (d_Host d, d_Port d)) (dials h);
  t_remembered : remembered s = has_remembered h;
  t_alerts : Forall (in_clear c) (alerts h);
}.

Lemma concat_snoc {A B} (f : A → list B) l x : concat (f <$> l ++ [x]) = concat (f <$> l) ++ f x.
Proof. rewrite fmap_app, concat_app. cbn. by rewrite app_nil_r. Qed.

(** Most calls change nothing of the story. *)
Lemma tells_quiet h s X (a : act X) x s' :
  tells h s → sent_by X a x = [] → dialled_by X a = [] → routed_by X a x = [] → remembers X a = false → answered_by X a = [] →
  greeting s' = greeting s → decision s' = decision s → dialled s' = dialled s → wire s' = wire s → remembered s' = remembered s →
  tells (h ++ [Event X a x]) s'.
Proof.
  intros [H1 H2 H3 H4 H5 H6 H7 H8 H9] E1 E2 E3 E4 E5 F1 F2 F3 F4 F5.
  assert (hello_of s' = hello_of s) as F6 by (unfold hello_of; by rewrite F1).
  split; unfold sent_upstream, dials, decisions, has_remembered, alerts, wire_ok in *;
    rewrite ?concat_snoc, ?existsb_app; cbn [ev_type ev_call ev_answer existsb];
    rewrite ?E1, ?E2, ?E3, ?E4, ?E5, ?F1, ?F2, ?F3, ?F4, ?F5, ?F6, ?app_nil_r, ?orb_false_r; done.
Qed.

Lemma wire_ok_hello s s' w : decision s' = decision s → greeting s' = greeting s → (remembered s = true → remembered s' = true) →
  wire_ok c s w → wire_ok c s' w.
Proof. unfold wire_ok, hello_of. intros -> -> Hr [? Hw]. split; [done|]. intros Hn. destruct (Hw Hn); auto. Qed.

(** Read the calls of [h] and the one after them. *)
Ltac tale :=
  split; unfold sent_upstream, dials, decisions, has_remembered, alerts in *; rewrite ?concat_snoc, ?existsb_app;
  cbn [ev_type ev_call ev_answer existsb sent_by dialled_by routed_by remembers answered_by
       greeting decision dialled wire remembered]; rewrite ?app_nil_r, ?orb_false_r.

Lemma tells_step h s X (a : act X) x s' :
  tells h s → watch digest limit c X a x s = Some s' → tells (h ++ [Event X a x]) s'.
Proof.
  intros Ht Hw.
  destruct a as [k n| | | | | | | | | |key r bz| | | | | |sd t|sd t|sd b|sd| | | |host port| | | | | | | | | | |].
  { assert (greeting s' = greeting s ∧ decision s' = decision s ∧ dialled s' = dialled s ∧ wire s' = wire s ∧ remembered s' = remembered s) as (?&?&?&?&?).
    { destruct s. cbn [watch] in Hw. unfold count_watch in Hw. destruct k; cbn in Hw; repeat case_decide; simplify_option_eq; done. }
    by eapply tells_quiet. }
  all: try (destruct sd).
  all: try (eapply tells_quiet; try done; destruct s; cbn [watch] in Hw; repeat case_match; simplify_option_eq; done).
  all: destruct s as [ov sl ga du bu op gr ck de di wi re en]; destruct Ht as [H1 H2 H3 H4 H5 H6 H7 H8 H9];
    cbn [watch greeting decision dialled wire remembered] in *.
  - (* Remember *) case_decide; [|done]. injection Hw as <-. tale; try done.
    + eapply wire_ok_hello; [..|exact H3]; done.
    + by rewrite orb_true_r.
  - (* GetOrRoute *) destruct x as [d hit]. case_decide; [|done]. destruct de; [done|]. injection Hw as <-.
    destruct (H5 eq_refl) as [-> ->]. tale; try done.
    + split; [apply prefix_nil|]. intros _. right. apply prefix_nil.
    + by rewrite H4.
    + intros ->. done.
    + eapply Forall_impl; [exact H7|]. by intros ? (? & ? & _).
  - (* Arrive *) destruct x as [sizes e]. destruct bu as [|b bu]; [done|]. destruct sl as [|sl0 sl]; [done|]. cbn [head mbind option_bind] in Hw.
    destruct gr; [done|]. specialize (H6 eq_refl). subst de. destruct (H5 eq_refl) as [-> ->].
    assert ((readHello digest (Pool.bcap b) (cut_reads (client_bytes c) sizes e)).2 `prefix_of` client_bytes c) as Hp.
    { etransitivity; [apply read_loop_prefix|]. apply cut_reads_bytes. }
    revert Hw Hp. generalize (readHello digest (Pool.bcap b) (cut_reads (client_bytes c) sizes e)) as out. intros out [= <-] Hp.
    tale; try done. split; [apply prefix_nil|]. intros _. right. apply prefix_nil.
  - (* Send Client *) case_decide; [|done]. injection Hw as <-. destruct x. tale; try done.
    apply Forall_app. split; [done|]. constructor; [tauto|constructor].
  - (* Send Upstream *) destruct x as [n ok]. case_decide as Hd; [|done]. injection Hw as <-. destruct Hd as [-> Hok]. tale; try done.
    + by rewrite H2.
    + intros Hn. by destruct (H5 Hn).
  - (* Dial *) destruct de as [d|]; [|done]. case_decide as Hd; [|done]. injection Hw as <-. tale; try done.
    apply Forall_app. split; [done|]. constructor; [|constructor]. exists d. destruct Hd as (? & -> & -> & _). done.
Qed.

Lemma run_tells h s : run (watch digest limit c) h unborn = Some s → tells h s.
Proof.
  revert s. induction h as [|[X a x] h IH] using rev_ind; intros s.
  - injection 1 as <-. split; try done; [apply prefix_nil|split; [apply prefix_nil|intros _; right; apply prefix_nil]].
  - rewrite run_app. destruct (run _ h unborn) as [s1|] eqn:Er; [|done]. cbn.
    destruct (watch _ _ _ _ _ _ _) as [s2|] eqn:Ew; [|done]. injection 1 as <-. eapply tells_step; [by apply IH|done].
Qed.
End Story.

(** * The proxy at work *)

Section Work.
Context (digest source_hash name_hash : bytes → Z).
Context (limit bsize maxIdle allowCap denyCap start_time : Z).

Definition main (c : connection) : prog act unit :=
  accepted digest source_hash (cn_cfg c) (cn_listener c) (cn_id c) (cn_sock c) (cn_remote c) (cn_local c).

(** Any connection, of a listener with rules or of the redirect listener,
    under one [max_handshakes_per_ip]. *)
Definition starts (c : connection) : Prop := c_MaxHandshakesPerIP (cn_cfg c) = limit.

Definition proxy_start : world act connection server :=
  mkWorld (fresh_server bsize maxIdle allowCap denyCap start_time) [].
Definition proxy_step : relation (world act connection server) := step (perform name_hash) starts main.

(** What a connection holds. *)
Definition life_of (t : thread act connection) : life := default unborn (run (watch digest limit (who t)) (past t) unborn).

Definition known_life (t : thread act connection) (s : life) : Prop :=
  known starts (fun c => watch digest limit c) unborn (fun _ => gone) t s.

Lemma known_life_of t s : known_life t s → life_of t = s ∧ tells (who t) (past t) s.
Proof. intros (_ & Hr & _). split; [unfold life_of; by rewrite Hr|by eapply run_tells]. Qed.

Lemma at_work w : maxIdle < 2 ^ 63 → rtc proxy_step proxy_start w →
  Forall2 known_life (threads w) (life_of <$> threads w) ∧ kept limit bsize maxIdle (shared w) (life_of <$> threads w).
Proof.
  intros Hm Hs.
  destruct (watched (perform name_hash) starts main (fun c => watch digest limit c) unborn (fun _ => gone)
    (kept limit bsize maxIdle) (fresh_server bsize maxIdle allowCap denyCap start_time) w) as (ls & HF & Hk); try done.
  - intros c Hl. by apply accepted_obeys.
  - intros u ls. apply kept_start.
  - intros u ls i s c X a x s' u' _. apply kept_step.
  - by apply kept_fresh.
  - assert (ls = life_of <$> threads w) as ->; [|done].
    clear -HF. induction HF as [|t s ts ls Hk HF IH]; [done|]. cbn. f_equal; [|done]. symmetry. by apply known_life_of.
Qed.

Lemma known_at w t : maxIdle < 2 ^ 63 → rtc proxy_step proxy_start w → t ∈ threads w → known_life t (life_of t).
Proof.
  intros Hm Hs Ht. destruct (at_work w Hm Hs) as [HF _]. apply list_elem_of_lookup in Ht as [i Hi].
  eapply Forall2_lookup_lr; [exact HF|done|]. by rewrite list_lookup_fmap, Hi.
Qed.

Lemma sum_of_fmap {A B} (g : A → B) (f : B → Z) l : sum_of f (g <$> l) = sum_of (fun x => f (g x)) l.
Proof. induction l as [|x l IH]; [done|]. cbn. unfold sum_of in IH. by rewrite IH. Qed.

Lemma concat_disjoint {A B D} (f : A → list B) (g : B → D) l i j x y b b' :
  NoDup (g <$> concat (f <$> l)) → i ≠ j → l !! i = Some x → l !! j = Some y → b ∈ f x → b' ∈ f y → g b ≠ g b'.
Proof.
  revert i j. induction l as [|z l IH]; intros [|i] [|j] Hnd Hne Hi Hj Hb Hb'; try done; cbn in *;
    rewrite fmap_app in Hnd; apply NoDup_app in Hnd as (_ & Hdis & Hnd).
  - injection Hi as <-. intros He. apply (Hdis (g b)); [by apply list_elem_of_fmap_2|]. rewrite He. apply list_elem_of_fmap_2.
    apply list_elem_of_In, in_concat. exists (f y). split; [|by apply list_elem_of_In].
    apply list_elem_of_In, list_elem_of_fmap_2. by eapply list_elem_of_lookup_2.
  - injection Hj as <-. intros He. apply (Hdis (g b')); [by apply list_elem_of_fmap_2|]. rewrite <- He. apply list_elem_of_fmap_2.
    apply list_elem_of_In, in_concat. exists (f x). split; [|by apply list_elem_of_In].
    apply list_elem_of_In, list_elem_of_fmap_2. by eapply list_elem_of_lookup_2.
  - apply (IH i j); auto.
Qed.

(** ** Properties *)

(** C31: However connections come, go, fail and interleave, nothing leaks:
    of those admitted, as many are settled (denied, failed or completed) as
    are not still being handled; and once all of them are over, every one has
    been settled exactly once, none is counted active anywhere (in all, on a
    listener, a rule or a host), none holds a handshake slot, every goroutine
    counted has finished, none is registered, and every buffer is back. *)
Theorem nothing_leaks (w : world act connection server) : maxIdle < 2 ^ 63 → rtc proxy_step proxy_start w →
  0 <= settlement (shared w) <= len (threads w) ∧
  (Forall finished (threads w) →
     settlement (shared w) = 0 ∧ (∀ k, gauge k = true → gauge_of (shared w) k = 0) ∧ conns (shared w) = 0 ∧
     (∀ i, default 0 (sources (shared w) !! i) = 0) ∧ Pool.lent (buffers (shared w)) = []).
Proof.
  intros Hm Hs. destruct (at_work w Hm Hs) as [HF [H1 H2 H3 H4 H5 H6 H7 H8]]. split.
  - rewrite H3. revert H4. unfold len. rewrite <- (length_fmap life_of). generalize (life_of <$> threads w). intros ls Hls.
    induction Hls as [|s ls Hd Hls IH]; [done|]. change (0 <= due s + sum_of due ls <= Z.of_nat (S (length ls))). lia.
  - intros Hfin. assert (∀ s, s ∈ life_of <$> threads w → gone s) as Hg.
    { intros s (t & -> & Ht)%list_elem_of_fmap. rewrite Forall_forall in Hfin. specialize (Hfin t Ht).
      pose proof (known_at w t Hm Hs Ht) as (_ & _ & Ho). rewrite Hfin in Ho. exact Ho. }
    rewrite H3, H6. split_and!.
    + apply sum_of_0. intros s Hs'. by destruct (Hg s Hs') as (_ & _ & _ & ? & _).
    + intros k Hk. rewrite H5 by done. apply sum_of_0. intros s Hs'. destruct (Hg s Hs') as (_ & _ & -> & _). done.
    + apply sum_of_0. intros s Hs'. destruct (Hg s Hs') as (_ & _ & _ & _ & _ & ->). done.
    + intros i. rewrite H1. apply sum_of_0. intros s Hs'. destruct (Hg s Hs') as (-> & -> & _). done.
    + apply Permutation_nil_r. rewrite H7. clear -Hg. induction (life_of <$> threads w) as [|s ls IH]; [done|]. cbn.
      destruct (Hg s ltac:(set_solver)) as (_ & _ & _ & _ & -> & _). apply IH. intros s' Hs'. apply Hg. set_solver.
Qed.

(** C32: Per source (an IPv4 address, an IPv6 /64, or whatever else hashes to
    the same counter), no more than [max_handshakes_per_ip] connections ever
    hold a handshake slot, however they interleave; the counter is exactly
    those slots and the connections being refused; and a connection waits for
    its ClientHello, or for its first HTTP request on the redirect listener,
    only while it holds one. *)
Theorem handshakes_limited (w : world act connection server) : maxIdle < 2 ^ 63 → rtc proxy_step proxy_start w →
  (∀ i, (0 < limit → sum_of (fun t => occ i (slots (life_of t))) (threads w) <= limit) ∧
        default 0 (sources (shared w) !! i) =
          sum_of (fun t => occ i (slots (life_of t))) (threads w) + sum_of (fun t => occ i (over (life_of t))) (threads w)) ∧
  (∀ t, t ∈ threads w → (∃ k, left t = Do Arrive k) ∨ (∃ k, left t = Do Requests k) → slots (life_of t) ≠ []).
Proof.
  intros Hm Hs. destruct (at_work w Hm Hs) as [HF [H1 H2 _ _ _ _ _ _]]. split.
  - intros i. specialize (H1 i). split; [intros Hl; specialize (H2 Hl i); by rewrite sum_of_fmap in H2|].
    rewrite H1, sum_of_fmap. clear. induction (threads w) as [|t l IH]; [done|]. unfold sum_of in *. cbn. lia.
  - intros t Ht Hl. pose proof (known_at w t Hm Hs Ht) as (_ & _ & Ho).
    destruct (life_of t) as [ov sl ga du bu op gr ck de di wi re en]. cbn [slots]. intros ->. destruct Hl as [[k Hl]|[k Hl]]; rewrite Hl in Ho.
    + specialize (Ho ([], ReadEOF)). cbn in Ho. by destruct (head bu).
    + by specialize (Ho ([], ([], Redirect.mkHttpEnd false false Redirect.HOther))).
Qed.

(** No two connections ever hold the same buffer, and a connection that
    relays, or is served, holds neither a buffer nor a handshake slot. *)
Theorem buffers_exclusive (w : world act connection server) : maxIdle < 2 ^ 63 → rtc proxy_step proxy_start w →
  (∀ i j t t' b b', i ≠ j → threads w !! i = Some t → threads w !! j = Some t' →
     b ∈ bufs (life_of t) → b' ∈ bufs (life_of t') → Pool.array b ≠ Pool.array b') ∧
  (∀ t, t ∈ threads w → (∃ k, left t = Do Relay k ∨ left t = Do HandOver k) →
     bufs (life_of t) = [] ∧ slots (life_of t) = []).
Proof.
  intros Hm Hs. destruct (at_work w Hm Hs) as [HF [_ _ _ _ _ _ H7 H8]]. split.
  - intros i j t t' b b' Hij Hi Hj Hb Hb'.
    destruct H8 as (_ & _ & l & n & _ & _ & _ & Hnd & _). rewrite fmap_app in Hnd. apply NoDup_app in Hnd as [Hnd _].
    rewrite H7 in Hnd. apply (concat_disjoint bufs Pool.array _ i j (life_of t) (life_of t') b b' Hnd Hij); [by rewrite list_lookup_fmap, Hi|by rewrite list_lookup_fmap, Hj|done..].
  - intros t Ht [k [Hl|Hl]]; pose proof (known_at w t Hm Hs Ht) as (_ & _ & Ho); rewrite Hl in Ho; specialize (Ho tt);
      destruct (life_of t); cbn in Ho |- *; case_decide; naive_solver.
Qed.


(** C35: A connection is routed at most once, dials only where that decision
    says, and only if it allows; and what it writes to the client in the clear
    is the access-denied alert and nothing else, on the redirect listener
    HTTP responses and nothing else. *)
Theorem dials_where_routed (w : world act connection server) (t : thread act connection) :
  maxIdle < 2 ^ 63 → rtc proxy_step proxy_start w → t ∈ threads w →
  (length (decisions (past t)) <= 1)%nat ∧
  Forall (fun to => ∃ d, d ∈ decisions (past t) ∧ d_Allow d = true ∧ to = (d_Host d, d_Port d)) (dials (past t)) ∧
  Forall (fun b => if l_IsRedirect (cn_listener (who t)) then lit "HTTP/1.1 " `prefix_of` b else b = alertAccessDenied) (alerts (past t)).
Proof.
  intros Hm Hs Ht. destruct (known_life_of _ _ (known_at w t Hm Hs Ht)) as [_ [_ _ _ H4 _ _ H7 _ H9]]. rewrite H4.
  split_and!; [by destruct (decision _); cbn; lia| |done]. eapply Forall_impl; [exact H7|]. intros to (d & -> & Ha & ->). exists d. cbn. set_solver.
Qed.
End Work.

(** ** Witnesses: a connection passed through, from start to end *)

Definition w_oracle (X : Type) (a : act X) : X :=
  match a in act X return X with
  | Count _ _ | Bump _ | Host _ | Now => 0
  | Seen _ _ | Busy | Challenge _ => false
  | TLSServer _ _ | Dial _ _ => true
  | TLSClient _ _ _ => Some []
  | StoppedRules => fun _ => false
  | Arrive => ([70; 1000], ReadEOF)
  | Send _ b => (len b, true)
  | Requests => ([], ([], Redirect.mkHttpEnd false false Redirect.HEOF))
  | Killed => false
  | CloseWrite => true
  | Discard _ => []
  | GetBuffer => Pool.mkBuffer 0 0
  | GetOrRoute _ d _ => (d, false)
  | _ => tt
  end.

Definition w_rule : Rule :=
  mkRule (lit "https") 3 (lit "www.example.com") kindLiteral 15 false None true (lit "10.0.0.5") 8443 [] [] [] [] [] []
    [] [] false false [] true 1 (Floats.SpecFloat.S754_zero false) (Floats.SpecFloat.S754_zero false) [] false false.
Definition w_listener : Listener :=
  let l := new_listener (lit "https") 1 (lit "0.0.0.0") [lit "0.0.0.0"] 443 in
  mkListener (l_Name l) 1 (l_Bind l) (l_Binds l) 443 None 0 None None None (l_MaxAggregatedSpeed l) (l_MaxSingleConnectionSpeed l)
    false false true true (mkRoutes {[lit "www.example.com" := w_rule]} []).
Definition w_connection : connection :=
  mkConnection (ForListener (defaultConfig []) w_listener) w_listener 1 (Stream w_stream IO_EOF)
    (mkTCPAddr [192; 0; 2; 7] 50000 []) (mkTCPAddr [192; 0; 2; 1] 443 []).

Definition w_begin : world act connection server :=
  mkWorld (shared (proxy_start 65536 16 4096 4096 0))
    [mkThread w_connection (main (fun _ => 7) (fun _ => 5) w_connection) []].
Definition w_at (n : nat) : world act connection server := drive (perform (fun _ => 0)) w_oracle n 0 w_begin.

Lemma w_reached n : rtc (proxy_step (fun _ => 7) (fun _ => 5) (fun _ => 0) 64) (proxy_start 65536 16 4096 4096 0) (w_at n).
Proof.
  eapply rtc_l; [|apply drive_steps]. apply (Start _ _ _ (proxy_start 65536 16 4096 4096 0) w_connection). done.
Qed.

Example w_over : match threads (w_at 100) with [t] => bool_decide (sent_upstream (past t) ≠ []) | _ => false end = true.
Proof. vm_compute. reflexivity. Qed.

Lemma nothing_leaks_witness : ∃ w, rtc (proxy_step (fun _ => 7) (fun _ => 5) (fun _ => 0) 64) (proxy_start 65536 16 4096 4096 0) w ∧
  counters (shared w) Completed = 1 ∧ settlement (shared w) = 0.
Proof.
  exists (w_at 100). split; [apply w_reached|]. split; [vm_compute; reflexivity|].
  destruct (nothing_leaks (fun _ => 7) (fun _ => 5) (fun _ => 0) 64 65536 16 4096 4096 0 (w_at 100) eq_refl (w_reached 100)) as [_ H].
  apply H, all_finished. vm_compute. reflexivity.
Defined.

Lemma handshakes_limited_witness : ∃ w, rtc (proxy_step (fun _ => 7) (fun _ => 5) (fun _ => 0) 64) (proxy_start 65536 16 4096 4096 0) w ∧
  default 0 (sources (shared w) !! 5) = 1 ∧
  sum_of (fun t => occ 5 (slots (life_of (fun _ => 7) 64 t))) (threads w) <= 64.
Proof.
  exists (w_at 10). split; [apply w_reached|]. split; [vm_compute; reflexivity|].
  destruct (handshakes_limited (fun _ => 7) (fun _ => 5) (fun _ => 0) 64 65536 16 4096 4096 0 (w_at 10) eq_refl (w_reached 10)) as [H _].
  apply (H 5). reflexivity.
Defined.

Lemma buffers_exclusive_witness : ∃ w, rtc (proxy_step (fun _ => 7) (fun _ => 5) (fun _ => 0) 64) (proxy_start 65536 16 4096 4096 0) w ∧
  ∀ t, t ∈ threads w → (∃ k, left t = Do Relay k ∨ left t = Do HandOver k) → bufs (life_of (fun _ => 7) 64 t) = [].
Proof.
  exists (w_at 40). split; [apply w_reached|].
  destruct (buffers_exclusive (fun _ => 7) (fun _ => 5) (fun _ => 0) 64 65536 16 4096 4096 0 (w_at 40) eq_refl (w_reached 40)) as [_ H].
  intros t Ht Hk. by apply H.
Defined.

Definition w_thread : thread act connection := default (mkThread w_connection (Ret tt) []) (threads (w_at 100) !! 0%nat).
Lemma w_thread_in : w_thread ∈ threads (w_at 100).
Proof. apply (list_elem_of_lookup_2 _ 0%nat). vm_compute. reflexivity. Qed.


Lemma dials_where_routed_witness :
  dials (past w_thread) = [(lit "10.0.0.5", 8443)] ∧ (length (decisions (past w_thread)) <= 1)%nat.
Proof.
  split; [vm_compute; reflexivity|].
  apply (dials_where_routed (fun _ => 7) (fun _ => 5) (fun _ => 0) 64 65536 16 4096 4096 0 (w_at 100) w_thread eq_refl (w_reached 100) w_thread_in).
Defined.
