(* ===== verification/Redirects.v ===== *)
(** Redirects: what a connection of the redirect listener answers
    ([handleRedirect] of [redirect.go]), however it interleaves with others:
    its requests in turn, each with its own redirect, until one ends it. *)

From S2P Require Import Prelude GoStr NetIP Sni ProxyProto Rules Config Prog Handle Sharing.
From S2P Require Redirect.

#[local] Arguments Sni.readHello : simpl never.

(** What is written in all: the requests as they come, and how reading them
    ends. *)
Fixpoint answers_to (qs : list (list Z * Redirect.http_request)) (last : list Z * Redirect.http_end) (requests : Z) : list bytes :=
  match qs with
  | [] =>
      match Redirect.read_ended last.2 requests with
      | (_, Some status) => [Redirect.redirect_response status [] false]
      | (_, None) => []
      end
  | (_, q) :: qs =>
      match Redirect.redirect_turn q with
      | None => [Redirect.redirect_response 400 [] false]
      | Some t =>
          Redirect.redirect_response (Redirect.tn_status t) (Redirect.tn_location t) (Redirect.tn_keep t)
          :: (if Redirect.tn_keep t then answers_to qs last (requests + 1) else [])
      end
  end.

(** The requests a connection was given, and whether all it wrote went out. *)
Definition asked_by (X : Type) (a : act X) : X → list (list (list Z * Redirect.http_request) * (list Z * Redirect.http_end)) :=
  match a in act X return X → _ with Requests => fun x => [x] | _ => fun _ => [] end.
Definition asked (h : list (event act)) := concat ((fun e => asked_by _ (ev_call e) (ev_answer e)) <$> h).
Definition unwritten_by (X : Type) (a : act X) : X → bool :=
  match a in act X return X → bool with Send Client _ => fun '(_, ok) => negb ok | _ => fun _ => false end.
Definition all_written (h : list (event act)) : bool := negb (existsb (fun e => unwritten_by _ (ev_call e) (ev_answer e)) h).

(** * A monitor of the answers

    Before the requests are known, then what is still to be written. *)
Definition monitor := option (list bytes).
Definition watch_answers (X : Type) (a : act X) : X → monitor → option monitor :=
  match a in act X return X → monitor → option monitor with
  | Requests => fun '(qs, last) s => match s with None => Some (Some (answers_to qs last 0)) | Some _ => None end
  | Send Client b => fun '(_, ok) s =>
      match s with
      | Some (r :: rs) => if decide (b = r) then Some (Some (if ok : bool then rs else [])) else None
      | _ => None
      end
  | _ => fun _ s => Some s
  end.
Abbreviation W := watch_answers.

(** Calls the monitor does not look at. *)
Definition unwatched {X} (a : act X) : Prop := ∀ x s, W X a x s = Some s.

Section Obeys.
Context (digest source_hash : bytes → Z) (c : connection).
Abbreviation cfg := (cn_cfg c).

Lemma quiet_call {X A} (a : act X) (f : X → prog act A) s Q :
  unwatched a → (∀ x, obeys W (f x) s Q) → obeys W (bind (call a) f) s Q.
Proof. intros Ha Hf x. rewrite Ha. apply Hf. Qed.
Lemma seen_call {X A} (a : act X) (f : X → prog act A) s Q :
  (∀ x, match W X a x s with Some s' => obeys W (f x) s' Q | None => False end) → obeys W (bind (call a) f) s Q.
Proof. done. Qed.
Ltac quiet := (apply quiet_call; [by intros ? ?|intros ?]).

Lemma reads_quiet sizes s : obeys W (count_reads (cn_listener c) (cn_id c) sizes) s (fun _ s' => s' = s).
Proof.
  induction sizes as [|n sizes IH]; [done|]. cbn [count_reads]. unfold count_up.
  eapply (obeys_bind _ _ _ _ (fun _ s' => s' = s)); [|by intros _ ? ->]. destruct (0 <? n); [|done]. do 4 quiet. done.
Qed.

Lemma respond_answers status location keep rs :
  obeys W (respond cfg (cn_listener c) (cn_id c) status location keep) (Some (Redirect.redirect_response status location keep :: rs))
    (fun (ok : bool) s => s = Some (if ok then rs else [])).
Proof.
  unfold respond. do 2 quiet. apply seen_call. intros [n ok]. cbn [watch_answers]. rewrite decide_True by done.
  eapply (obeys_bind _ _ _ _ (fun _ s => s = Some (if ok then rs else []))); [|by intros [] ? ->].
  unfold count_down. destruct (0 <? n); [|done]. do 4 quiet. done.
Qed.

Lemma slot_quiet slot s : obeys W (end_slot slot) s (fun _ s' => s' = s).
Proof. destruct slot; [|done]. by intros ?. Qed.

(** Over, with nothing left to write. *)
Definition answered (s : monitor) : Prop := s = Some [].

Lemma loop_answers qs last slot requests host :
  obeys W (redirect_loop cfg (cn_listener c) (cn_id c) qs last slot requests host) (Some (answers_to qs last requests))
    (fun _ => answered).
Proof.
  revert slot requests host. induction qs as [|[sizes q] qs IH]; intros slot requests host; cbn [redirect_loop answers_to].
  all: match goal with |- obeys _ _ ?s _ => eapply (obeys_bind _ _ _ _ (fun _ s' => s' = s)) end;
    [by destruct (0 <? requests), (0 <? c_IdleTimeout cfg); cbn|intros _ ? ->].
  all: eapply obeys_bind; [apply reads_quiet|intros _ ? ->].
  all: eapply obeys_bind; [apply slot_quiet|intros _ ? ->].
  - destruct (Redirect.read_ended _ _) as [e [status|]]; [|done]. eapply obeys_bind; [apply respond_answers|]. by intros [] ? ->.
  - destruct (Redirect.redirect_turn q) as [t|]; [|eapply obeys_bind; [apply respond_answers|by intros [] ? ->]].
    match goal with |- obeys _ _ ?s _ => eapply (obeys_bind _ _ _ _ (fun _ s' => s' = s)) end; [by case_bool_decide; cbn|intros _ ? ->].
    eapply obeys_bind; [apply respond_answers|]. intros ok ? ->. destruct ok; cbn [negb]; [|done].
    destruct (Redirect.tn_keep t); [apply IH|done].
Qed.

Lemma linger_quiet s : obeys W (linger (cn_listener c) (cn_id c)) s (fun _ s' => s' = s).
Proof.
  unfold linger. apply quiet_call; [by intros ? ?|]. intros killed. destruct killed; [done|].
  apply quiet_call; [by intros ? ?|]. intros closed. destruct closed; [|done]. do 2 quiet.
  apply quiet_call; [by intros ? ?|]. intros sizes. apply reads_quiet.
Qed.

Lemma redirected_answers client slot :
  obeys W (redirected cfg (cn_listener c) (cn_id c) client slot) None (fun _ => answered).
Proof.
  unfold redirected. do 2 quiet. eapply (obeys_finally _ _ _ _ (fun _ => answered)); [|intros [] s Hs ?; exact Hs].
  quiet. eapply (obeys_finally _ _ _ _ (fun _ => answered)); [|intros [] s Hs ?; exact Hs].
  quiet. apply seen_call. intros [qs last]. cbn [watch_answers]. eapply obeys_bind; [apply loop_answers|]. intros [e answered'] s Hs.
  eapply (obeys_bind _ _ _ _ (fun _ => answered)); [|intros [] s' Hs'; do 2 intros ?; exact Hs'].
  destruct answered'; [|exact Hs]. eapply obeys_mono; [apply linger_quiet|]. by intros _ ? ->.
Qed.

(** Never begun, or over. *)
Definition told (s : monitor) : Prop := s = None ∨ answered s.

Lemma begin_quiet key lim s : obeys W (beginHandshake source_hash key lim) s (fun _ s' => s' = s).
Proof. unfold beginHandshake. quiet. destruct (_ && _); [by intros ?|done]. Qed.

Lemma handled_answers :
  obeys W (handleRedirect source_hash cfg (cn_listener c) (cn_id c) (cn_sock c) (cn_remote c)) None (fun _ => told).
Proof.
  unfold handleRedirect, handled. eapply (obeys_finally _ _ _ _ (fun _ => told)); [|intros [] s Hs ?; exact Hs].
  quiet. eapply obeys_bind; [apply begin_quiet|]. intros [slot|] ? ->; [|do 2 intros ?; by left].
  assert (∀ client slot, obeys W (redirected cfg (cn_listener c) (cn_id c) client slot) None (fun _ => told)) as Hr.
  { intros client slot'. eapply obeys_mono; [apply redirected_answers|]. intros [] s Hs. by right. }
  unfold admitted. do 2 quiet. destruct (if trustsProxySource _ _ then _ else _) as [client|e]; [|do 3 intros ?; by left].
  destruct (bool_decide _); [apply Hr|]. eapply obeys_bind; [apply begin_quiet|]. intros [slot'|] ? ->.
  - quiet. apply Hr.
  - do 4 intros ?. by left.
Qed.

Lemma accepted_answers : l_IsRedirect (cn_listener c) = true →
  obeys W (accepted digest source_hash cfg (cn_listener c) (cn_id c) (cn_sock c) (cn_remote c) (cn_local c)) None (fun _ => told).
Proof.
  intros Hr. unfold accepted. do 2 quiet. destruct (_ || _); [do 6 intros ?; by left|].
  do 2 quiet. rewrite Hr. eapply obeys_bind; [apply handled_answers|]. intros [] s Hs. do 3 intros ?. exact Hs.
Qed.
End Obeys.

(** * What the monitor says of the calls *)

Definition says (h : list (event act)) (s : monitor) : Prop :=
  match s with
  | None => asked h = [] ∧ alerts h = [] ∧ all_written h = true
  | Some rs => ∃ qs last, asked h = [(qs, last)] ∧
      if all_written h then alerts h ++ rs = answers_to qs last 0 else rs = [] ∧ alerts h `prefix_of` answers_to qs last 0
  end.

Lemma run_says h s : run W h None = Some s → says h s.
Proof.
  revert s. induction h as [|[X a x] h IH] using rev_ind; intros s; [by injection 1 as <-|].
  rewrite run_app. destruct (run W h None) as [s1|]; [|done]. specialize (IH _ eq_refl). cbn [mbind option_bind run ev_type ev_call ev_answer].
  destruct (W X a x s1) as [s2|] eqn:Ew; [|done]. injection 1 as <-.
  assert (∀ h', asked (h ++ h') = asked h ++ asked h' ∧ alerts (h ++ h') = alerts h ++ alerts h' ∧ all_written (h ++ h') = all_written h && all_written h') as Happ.
  { intros h'. unfold asked, alerts, all_written. rewrite !fmap_app, !concat_app, existsb_app, negb_orb. done. }
  destruct (Happ [Event X a x]) as (E1 & E2 & E3). unfold says. rewrite E1, E2, E3. clear Happ E1 E2 E3.
  destruct a as [| | | | | | | | | | | | | | | | | |sd b|sd| | | | | | | | | | | | | | |]; try destruct sd; cbn in Ew;
    try (injection Ew as <-; cbn; rewrite ?app_nil_r, ?andb_true_r; exact IH).
  - (* Send Client *) destruct x as [n ok]. destruct s1 as [[|r rs]|]; [done| |done]. case_decide; [|done]. subst r. injection Ew as <-.
    destruct IH as (qs & last & Ha & IH). cbn. rewrite app_nil_r. exists qs, last. split; [done|].
    destruct (all_written h); [|by destruct IH]. destruct ok; cbn; [by rewrite <- app_assoc|].
    split; [done|]. rewrite <- IH. exists rs. by rewrite <- app_assoc.
  - (* Requests *) destruct x as [qs last]. destruct s1; [done|]. injection Ew as <-. destruct IH as (-> & -> & ->).
    exists qs, last. split; [done|]. done.
Qed.

(** * The listener at work *)

(** Only the redirect listener's connections are looked at. *)
Definition watch_of (c : connection) (X : Type) (a : act X) (x : X) (s : monitor) : option monitor :=
  if l_IsRedirect (cn_listener c) then W X a x s else Some s.

Lemma obeys_any {A} (p : prog act A) (s : monitor) (Q : A → monitor → Prop) :
  (∀ a s, Q a s) → obeys (fun _ _ _ s => Some s) p s Q.
Proof. intros HQ. revert s. induction p as [a|X a k IH]; intros s; [apply HQ|]. intros x. apply IH. Qed.

Section Work.
Context (digest source_hash name_hash : bytes → Z).
Context (limit bsize maxIdle allowCap denyCap start_time : Z).
Abbreviation proxy_step := (proxy_step digest source_hash name_hash limit).
Abbreviation proxy_start := (proxy_start bsize maxIdle allowCap denyCap start_time).

Lemma redirect_watched w t : rtc proxy_step proxy_start w → t ∈ threads w → l_IsRedirect (cn_listener (who t)) = true →
  ∃ s, says (past t) s ∧ (finished t → told s).
Proof.
  intros Hs Ht Hr.
  destruct (watched (perform name_hash) (starts limit) (main digest source_hash) watch_of None
    (fun c s => l_IsRedirect (cn_listener c) = true → told s) (fun _ _ => True) (fresh_server bsize maxIdle allowCap denyCap start_time) w)
    as (ls & HF & _); try done.
  - intros c _. unfold watch_of. destruct (l_IsRedirect (cn_listener c)) eqn:E.
    + eapply obeys_mono; [by apply accepted_answers|done].
    + by apply obeys_any.
  - apply list_elem_of_lookup in Ht as [i Hi]. destruct (Forall2_lookup_l _ _ _ _ _ HF Hi) as (s & _ & Hk). destruct Hk as (_ & Hrun & Ho).
    unfold watch_of in Hrun, Ho. rewrite Hr in Hrun. exists s. split; [by apply run_says|]. unfold finished. intros Hf. rewrite Hf in Ho. by apply Ho.
Qed.

(** C8: However connections interleave, one of the redirect listener reads its
    requests at most once, after its handshake slot, and answers them in turn:
    what it has written is always the start of the responses its requests call
    for, one each, up to the first request that ends the connection; and it
    is over only when all of them are written, or a write failed. *)
Theorem redirects_in_turn (w : world act connection server) (t : thread act connection) :
  rtc proxy_step proxy_start w → t ∈ threads w → l_IsRedirect (cn_listener (who t)) = true →
  (asked (past t) = [] ∧ alerts (past t) = []) ∨
  (∃ qs last, asked (past t) = [(qs, last)] ∧ alerts (past t) `prefix_of` answers_to qs last 0 ∧
    (finished t → all_written (past t) = true → alerts (past t) = answers_to qs last 0)).
Proof.
  intros Hs Ht Hr. destruct (redirect_watched w t Hs Ht Hr) as (s & Hsays & Hend). destruct s as [rs|]; [|left; cbn in Hsays; tauto].
  right. destruct Hsays as (qs & last & Ha & Hw). exists qs, last. split; [done|]. destruct (all_written (past t)).
  - split; [by exists rs|]. intros Hf _. destruct (Hend Hf) as [|Hd]; [done|]. injection Hd as ->. by rewrite app_nil_r in Hw.
  - by destruct Hw.
Qed.
End Work.

(** ** Witness: two requests on one connection *)

Definition w_get : Redirect.http_request :=
  Redirect.mkHttp (lit "GET") (lit "Example.com:80") (lit "/a?b") [] [] (lit "/a") [] false (lit "b") false 0 [].
Definition w_post : Redirect.http_request :=
  Redirect.mkHttp (lit "POST") (lit "example.com") (lit "/") [] [] (lit "/") [] false [] false 3 [].
Definition w_redirect : Listener :=
  let l := new_listener Config.RedirectListenerName 1 (lit "0.0.0.0") [lit "0.0.0.0"] 80 in
  mkListener (l_Name l) 1 (l_Bind l) (l_Binds l) 80 None 0 None None None (l_MaxAggregatedSpeed l) (l_MaxSingleConnectionSpeed l)
    true false true true (mkRoutes ∅ []).
Definition w_client : connection :=
  mkConnection (ForListener (defaultConfig []) w_redirect) w_redirect 2 (Stream [] IO_EOF)
    (mkTCPAddr [192; 0; 2; 7] 50000 []) (mkTCPAddr [192; 0; 2; 1] 80 []).
Definition w_asks (X : Type) (a : act X) : X :=
  match a in act X return X with
  | Requests => ([([40], w_get); ([60], w_post)], ([], Redirect.mkHttpEnd false false Redirect.HEOF))
  | a => w_oracle _ a
  end.
Definition w_begun : world act connection server :=
  mkWorld (shared (proxy_start 65536 16 4096 4096 0)) [mkThread w_client (main (fun _ => 7) (fun _ => 5) w_client) []].
Definition w_served (n : nat) : world act connection server := drive (perform (fun _ => 0)) w_asks n 0 w_begun.

Lemma w_serves n : rtc (proxy_step (fun _ => 7) (fun _ => 5) (fun _ => 0) 64) (proxy_start 65536 16 4096 4096 0) (w_served n).
Proof.
  eapply rtc_l; [|apply drive_steps]. apply (Start _ _ _ (proxy_start 65536 16 4096 4096 0) w_client). done.
Qed.
Definition w_visit : thread act connection := default (mkThread w_client (Ret tt) []) (threads (w_served 100) !! 0%nat).
Lemma w_visit_in : w_visit ∈ threads (w_served 100).
Proof. apply (list_elem_of_lookup_2 _ 0%nat). vm_compute. reflexivity. Qed.

Lemma redirects_in_turn_witness :
  alerts (past w_visit) =
    [Redirect.redirect_response 301 (lit "https://example.com/a?b") true; Redirect.redirect_response 308 (lit "https://example.com/") false] ∧
  ((asked (past w_visit) = [] ∧ alerts (past w_visit) = []) ∨
   (∃ qs last, asked (past w_visit) = [(qs, last)] ∧ alerts (past w_visit) `prefix_of` answers_to qs last 0 ∧
     (finished w_visit → all_written (past w_visit) = true → alerts (past w_visit) = answers_to qs last 0))).
Proof.
  split; [vm_compute; reflexivity|].
  exact (redirects_in_turn (fun _ => 7) (fun _ => 5) (fun _ => 0) 64 65536 16 4096 4096 0 (w_served 100) w_visit (w_serves 100) w_visit_in eq_refl).
Defined.
