(* ===== verification/ServeConfig.v ===== *)
(** ServeConfig: the serve entries of a rule and the basic_auth items
    ([serve_config.go]). [url.Parse], [time.Parse] and files are
    parameters. *)

From S2P Require Import Prelude GoStr NetIP Rules Config Password.

Definition routeProxy : bytes := lit "reverse_proxy".
Definition routeStatic : bytes := lit "static_content".
Definition identityMinSecret : Z := 32.

(** * Targets *)

(** What [url.Parse] gives: the scheme, the host with its port, and whether
    there is a user; path, query and fragment. *)
Record parsed_url := mkParsedURL { pu_scheme : bytes; pu_host : bytes; pu_user : bool; pu_path : bytes; pu_query : bytes; pu_fragment : bytes }.

(** [Hostname] and [Port]: a port is a colon and digits, perhaps none. *)
Definition split_port (host : bytes) : bytes * bytes :=
  let '(h, p) :=
    match last_index_byte host (ch ":") with
    | Some i => if forallb is_digit (drop (S i) host) then (take i host, drop (S i) host) else (host, [])
    | None => (host, [])
    end in
  (if has_prefix h (lit "[") && has_suffix h (lit "]") then take (length h - 2) (drop 1 h) else h, p).
Definition Hostname (u : URL) : bytes := (split_port (u_Host u)).1.
Definition Port (u : URL) : bytes := (split_port (u_Host u)).2.

(** [TargetAddr] *)
Definition TargetAddr (u : URL) : bytes :=
  if negb (bool_decide (Port u = [])) then u_Host u
  else join_host_port (Hostname u) (if bool_decide (u_Scheme u = lit "https") then lit "443" else lit "80").

Section ServeConfig.
Context (url_parse : bytes → option parsed_url).
Context (read_file : bytes → res err bytes).                (* os.ReadFile *)
Context (parse_date parse_rfc3339 : bytes → option Z).        (* time.Parse, as nanoseconds *)

(** [parseTarget] *)
Definition parseTarget (v : bytes) : res err URL :=
  match url_parse v with
  | None => Err "url"%string
  | Some p =>
      let u := mkURL (pu_scheme p) (pu_host p) in
      guard! says (pu_scheme p) "http" || says (pu_scheme p) "https" else "must start with http:// or https://"%string in
      guard! negb (bool_decide (Hostname u = [])) else "has no host"%string in
      guard! negb (pu_user p) else "no user:password@ in a target"%string in
      guard! (bool_decide (pu_path p = []) || says (pu_path p) "/") && bool_decide (pu_query p = []) && bool_decide (pu_fragment p = [])
        else "a target is scheme://host:port only"%string in
      if bool_decide (Port u = []) then Ok u else let! _ := parsePort (Port u) in Ok u
  end.

(** * Serve entries *)

Definition new_route (key : bytes) (line : Z) : ServiceRoute :=
  mkServiceRoute key line [] [] None false [] true [] false [] None [] false [] [] [] [].

(** [readIdentitySecret]: the first line that is not empty or a comment. *)
Fixpoint first_secret (lines : list bytes) : res err bytes :=
  match lines with
  | [] => Err "the file holds no secret"%string
  | line :: lines =>
      let line := trim_space line in
      if bool_decide (line = []) || has_prefix line (lit "#") then first_secret lines
      else if len line <? identityMinSecret then Err "the secret must be at least 32 characters"%string
      else Ok line
  end.
Definition readIdentitySecret (path : bytes) : res err bytes :=
  let! b := read_file path in first_secret (split_byte b 10).

(** One key and value of an entry; the second result is what [tls_verify] is
    set to. *)
Definition route_key (s : ServiceRoute) (k v : bytes) : res err (ServiceRoute * option bool) :=
  let set s := Ok (s, None) in
  if says k "type" then
    let t := to_lower v in
    guard! bool_decide (t = routeProxy) || bool_decide (t = routeStatic) else "type must be reverse_proxy or static_content"%string in
    set s {{ sr_Type := t }}
  else if says k "prefix" then
    guard! has_prefix v (lit "/") && negb (contains_any v (lit "?# " ++ [9])) else "prefix must be a path starting with /"%string in
    set s {{ sr_Prefix := v }}
  else if says k "target" then let! u := parseTarget v in set s {{ sr_Target := Some u }}
  else if says k "strip_prefix" then let! b := parseBool v in set s {{ sr_StripPrefix := b }}
  else if says k "force_host" then
    guard! negb (bool_decide (v = [])) && negb (contains_any v (9 :: lit " /\@")) else "force_host must be a host name"%string in
    set s {{ sr_ForceHost := v }}
  else if says k "tls_verify" then let! b := parseBool v in Ok (s {{ sr_TLSVerify := b }}, Some b)
  else if says k "base_dir" then
    guard! negb (bool_decide (v = [])) else "base_dir must not be empty"%string in set s {{ sr_BaseDir := v }}
  else if says k "directory_listing" then let! b := parseBool v in set s {{ sr_Listing := b }}
  else if says k "basic_auth" then
    guard! negb (bool_decide (v = [])) else "basic_auth must name a basic_auth item"%string in set s {{ sr_BasicAuth := v }}
  else if says k "oidc" then
    guard! negb (bool_decide (v = [])) else "oidc must name an oidc item"%string in set s {{ sr_OIDC := v }}
  else if says k "require_mfa" then let! b := parseBool v in set s {{ sr_RequireMFA := b }}
  else if says k "require_groups" then
    guard! negb (bool_decide (splitList v = [])) else "require_groups must list at least one group"%string in
    set s {{ sr_RequireGroups := splitList v }}
  else if says k "require_roles" then
    guard! negb (bool_decide (splitList v = [])) else "require_roles must list at least one role"%string in
    set s {{ sr_RequireRoles := splitList v }}
  else if says k "identity_secret_file" then
    guard! negb (bool_decide (v = [])) else "identity_secret_file must not be empty"%string in
    let! secret := readIdentitySecret v in set s {{ sr_identitySecret := secret; sr_IdentitySecretFile := v }}
  else if says k "identity_secret" then
    guard! identityMinSecret <=? len v else "identity_secret must be at least 32 characters"%string in
    set s {{ sr_identitySecret := v }}
  else Err "unknown key in a serve entry"%string.

(** The loop over an entry's keys: the route, the keys seen and [verify]. *)
Fixpoint route_keys (s : ServiceRoute) (seen : list bytes) (verify : option bool) (opts : list (bytes * bytes))
    : res err (ServiceRoute * list bytes * option bool) :=
  match opts with
  | [] => Ok (s, seen, verify)
  | (k, v) :: opts =>
      let k := to_lower k in
      guard! negb (contains seen k) else "given twice"%string in
      let! (s, b) := route_key s k (trim_space v) in
      route_keys s (k :: seen) (match b with Some b => Some b | None => verify end) opts
  end.

(** The checks of a whole entry, in their order. *)
Definition route_checks (s : ServiceRoute) (seen : list bytes) (verify : option bool) : option err :=
  let has text := contains seen (lit text) in
  let typed t := bool_decide (sr_Type s = t) in
  let named l := negb (bool_decide (l = [])) in
  if typed [] then Some "type is required"%string
  else if bool_decide (sr_Prefix s = []) then Some "prefix is required"%string
  else if typed routeProxy && bool_decide (sr_Target s = None) then Some "reverse_proxy needs target"%string
  else if typed routeStatic && bool_decide (sr_BaseDir s = []) then Some "static_content needs base_dir"%string
  else if typed routeStatic && negb (has_suffix (sr_Prefix s) (lit "/")) then Some "a static_content prefix ends with /"%string
  else if bool_decide (is_Some verify) && match sr_Target s with Some u => negb (says (u_Scheme u) "https") | None => false end
    then Some "tls_verify only applies to an https:// target"%string
  else if named (sr_OIDC s) && named (sr_BasicAuth s) then Some "give basic_auth or oidc, not both"%string
  else if has "identity_secret"%string && has "identity_secret_file"%string then Some "give identity_secret or identity_secret_file, not both"%string
  else if named (sr_identitySecret s) && negb (typed routeProxy) then Some "identity_secret only applies to reverse_proxy"%string
  else if named (sr_identitySecret s) && negb (named (sr_OIDC s)) && negb (named (sr_BasicAuth s))
    then Some "identity_secret needs oidc or basic_auth"%string
  else if existsb has ["require_mfa"; "require_groups"; "require_roles"]%string && negb (named (sr_OIDC s)) then Some "needs oidc"%string
  else if existsb has ["target"; "strip_prefix"; "force_host"; "tls_verify"]%string && negb (typed routeProxy)
    then Some "only applies to type: reverse_proxy"%string
  else if existsb has ["base_dir"; "directory_listing"]%string && negb (typed routeStatic) then Some "only applies to type: static_content"%string
  else None.

(** [parseServiceRule] *)
Definition parseServiceRule (key : bytes) (opts : list (bytes * bytes)) (line : Z) : res err ServiceRoute :=
  let! (s, seen, verify) := route_keys (new_route key line) [] None opts in
  match route_checks s seen verify with Some e => Err e | None => Ok s end.

(** * basic_auth items *)

Definition day : Z := 24 * 60 * 60 * second.

(** [parseExpiry]: the end of a day, or a time. *)
Definition parseExpiry (v : bytes) : res err Z :=
  match parse_date v with
  | Some d => Ok (d + day)
  | None => match parse_rfc3339 v with Some t => Ok t | None => Err "expires must be a date or a time"%string end
  end.

Definition user_key (user : bytes) (cred : credential) (k v : bytes) : res err (bytes * credential) :=
  if says k "username" then
    guard! negb (bool_decide (v = [])) && negb (contains v (ch ":")) else "username must be non-empty and without a colon"%string in
    Ok (v, cred)
  else if says k "password_plain" then Ok (user, cred {{ cr_plain := v }})
  else if says k "password_hash" then Ok (user, cred {{ cr_hash := v }})
  else if says k "disabled" then let! b := parseBool v in Ok (user, cred {{ cr_disabled := b }})
  else if says k "expires" then
    if bool_decide (v = []) || equal_fold v (lit "never") then Ok (user, cred)
    else let! t := parseExpiry v in Ok (user, cred {{ cr_expires := Some t }})
  else Err "unknown key in a user"%string.

Fixpoint user_keys (user : bytes) (cred : credential) (opts : list (bytes * bytes)) : res err (bytes * credential) :=
  match opts with
  | [] => Ok (user, cred)
  | (k, v) :: opts => let! (user, cred) := user_key user cred k (trim_space v) in user_keys user cred opts
  end.

(** [addUser] *)
Definition addUser (a : Rules.BasicAuth) (opts : list (bytes * bytes)) : res err Rules.BasicAuth :=
  let! (user, cred) := user_keys [] (Credential [] [] false None) opts in
  guard! negb (bool_decide (user = [])) else "username is required"%string in
  guard! negb (bool_decide (cr_plain cred = []) && bool_decide (cr_hash cred = [])) else "password_plain or password_hash is required"%string in
  guard! bool_decide (cr_plain cred = []) || bool_decide (cr_hash cred = []) else "give password_plain or password_hash, not both"%string in
  let! _ := (if bool_decide (cr_hash cred = []) then Ok tt else validHash (cr_hash cred)) in
  guard! negb (bool_decide (is_Some (ba_Users a !! user))) else "the user is listed twice"%string in
  Ok (mkBasicAuth (ba_Name a) (ba_Line a) (<[user := cred]> (ba_Users a))).

(** The first loop of [resolveServe]: the items by name. *)
Fixpoint collect_auths (auths : list Rules.BasicAuth) (m : gmap bytes Rules.BasicAuth) : res err (gmap bytes Rules.BasicAuth) :=
  match auths with
  | [] => Ok m
  | a :: auths =>
      guard! negb (bool_decide (ba_Name a = [])) else "basic_auth: name is required"%string in
      guard! negb (bool_decide (ba_Users a = ∅)) else "basic_auth: no users"%string in
      guard! negb (bool_decide (is_Some (m !! ba_Name a))) else "basic_auth: the name is already used"%string in
      collect_auths auths (<[ba_Name a := a]> m)
  end.

(** The item an entry names. *)
Definition resolve_route (m : gmap bytes Rules.BasicAuth) (s : ServiceRoute) : res err ServiceRoute :=
  if bool_decide (sr_BasicAuth s = []) then Ok s
  else match m !! sr_BasicAuth s with
       | Some a => Ok s {{ sr_auth := Some a }}
       | None => Err "there is no basic_auth of that name"%string
       end.
Definition resolve_rule (m : gmap bytes Rules.BasicAuth) (r : Rule) : res err Rule :=
  let! routes := mapM_res (resolve_route m) (r_Routes r) in Ok r {{ r_Routes := routes }}.

Definition auth_used (rules : list Rule) (name : bytes) : bool :=
  existsb (fun r => existsb (fun s => bool_decide (sr_BasicAuth s = name)) (r_Routes r)) rules.

(** [resolveServe] *)
Definition resolveServe (c : Config) (auths : list Rules.BasicAuth) : res err Config :=
  let! m := collect_auths auths ∅ in
  let! rules := mapM_res (resolve_rule m) (c_Rules c) in
  Ok c {{ c_BasicAuth := m; c_Rules := rules;
          c_Warnings ::= fun w => w ++ (UnusedBasicAuth <$> filter (fun n => auth_used rules n = false) (fst <$> map_to_list m)) }}.

(** * A rule's serve list *)

(** A serve entry as written. *)
Record rawServiceRule := mkRawService { rs_key : bytes; rs_opts : list (bytes * bytes); rs_line : Z }.

Fixpoint add_routes (routes : list ServiceRoute) (raws : list rawServiceRule) : res err (list ServiceRoute) :=
  match raws with
  | [] => Ok routes
  | raw :: raws =>
      let! s := parseServiceRule (rs_key raw) (rs_opts raw) (rs_line raw) in
      guard! negb (existsb (fun prev => bool_decide (sr_Prefix prev = sr_Prefix s)) routes) else "the prefix is already served"%string in
      add_routes (routes ++ [s]) raws
  end.

Definition longer (a b : ServiceRoute) : bool := len (sr_Prefix b) <? len (sr_Prefix a).

(** The last part of [serveSettings]. *)
Definition serve_routes (raws : list rawServiceRule) : res err (list ServiceRoute) :=
  let! routes := add_routes [] raws in Ok (stable_sort longer routes).

(** [RouteFor] *)
Definition RouteFor (r : Rule) (path : bytes) : option ServiceRoute :=
  find (fun s => has_prefix path (sr_Prefix s)) (r_Routes r).
End ServeConfig.

(** * What the checks guarantee *)

Lemma says_spec s text : says s text = true ↔ s = lit text.
Proof. apply bool_decide_eq_true. Qed.

(** A target the checks took. *)
Definition target_ok (u : URL) : Prop :=
  (u_Scheme u = lit "http" ∨ u_Scheme u = lit "https") ∧ Hostname u ≠ [] ∧
  (Port u = [] ∨ ∃ p, parsePort (Port u) = Ok p).

(** An entry of a loaded configuration. *)
Record entry_ok (s : ServiceRoute) : Prop := {
  e_prefix : has_prefix (sr_Prefix s) (lit "/") = true;
  e_type :
    (sr_Type s = routeProxy ∧ (∃ u, sr_Target s = Some u ∧ target_ok u) ∧ sr_BaseDir s = [] ∧ sr_Listing s = false) ∨
    (sr_Type s = routeStatic ∧ sr_BaseDir s ≠ [] ∧ has_suffix (sr_Prefix s) (lit "/") = true ∧ sr_Target s = None ∧
     sr_StripPrefix s = false ∧ sr_ForceHost s = [] ∧ sr_identitySecret s = []);
  e_one_sign_in : sr_OIDC s = [] ∨ sr_BasicAuth s = [];
  e_requires : sr_RequireMFA s = true ∨ sr_RequireGroups s ≠ [] ∨ sr_RequireRoles s ≠ [] → sr_OIDC s ≠ [];
  e_secret : sr_identitySecret s ≠ [] → sr_OIDC s ≠ [] ∨ sr_BasicAuth s ≠ [];
}.

Lemma longer_sorted l u v : before (stable_sort longer l) u v → len (sr_Prefix v) <= len (sr_Prefix u).
Proof. intros H%stable_sort_before; unfold longer in *; [lia|intros; lia|intros; lia]. Qed.

Lemma same_length_prefix path a b : has_prefix path a = true → has_prefix path b = true → len a = len b → a = b.
Proof.
  intros [k ->]%has_prefix_spec [k' H]%has_prefix_spec Hl. apply app_inj_1 in H as [? _]; [done|]. unfold len in Hl. lia.
Qed.

Lemma mapM_res_Forall2 {A B} (f : A → res err B) l k : mapM_res f l = Ok k → Forall2 (fun x y => f x = Ok y) l k.
Proof.
  revert k. induction l as [|x l IH]; intros k; cbn; [by injection 1 as <-|].
  destruct (f x) eqn:E; [|done]. destruct (mapM_res f l) eqn:E'; [|done]. injection 1 as <-. constructor; auto.
Qed.

Lemma collect_auths_ok auths m m' : collect_auths auths m = Ok m' →
  ∀ name a, m' !! name = Some a → m !! name = Some a ∨ (a ∈ auths ∧ ba_Name a = name ∧ ba_Users a ≠ ∅).
Proof.
  revert m. induction auths as [|a0 auths IH]; intros m; cbn; [by injection 1 as <-; auto|].
  destruct (bool_decide (ba_Name a0 = [])); [done|]. destruct (bool_decide (ba_Users a0 = ∅)) eqn:E; [done|].
  destruct (bool_decide (is_Some _)); [done|]. cbn [negb]. apply bool_decide_eq_false in E.
  intros H name a Ha. destruct (IH _ H name a Ha) as [H'|(H1 & H2 & H3)]; [|right; split; [by right|done]].
  rewrite lookup_insert_Some in H'. destruct H' as [[<- <-]|[_ H']]; [right; split; [left|done]|by left].
Qed.

Lemma not_set (x d : bytes) (P : Prop) : (x ≠ d → P) → ¬ P → x = d.
Proof. intros H Hn. destruct (decide (x = d)); [done|]. by destruct Hn; auto. Qed.

Lemma seen_free seen l : existsb (fun text => contains seen (lit text)) l = false → ∀ text, text ∈ l → lit text ∉ seen.
Proof.
  intros H text Ht Hin. apply not_true_iff_false in H. apply H, existsb_exists. exists text.
  split; [by apply list_elem_of_In|by apply bool_decide_eq_true].
Qed.

(** The fields [entry_ok] speaks of are not those [resolveServe] sets. *)
Lemma entry_ok_auth s o : entry_ok s → entry_ok (s {{ sr_auth := o }}).
Proof. intros [H1 H2 H3 H4 H5]. by split. Qed.

Section Entries.
Context (url_parse : bytes → option parsed_url) (read_file : bytes → res err bytes).

(** What an entry's fields say of the keys read so far. *)
Record tracked (s : ServiceRoute) (seen : list bytes) : Prop := {
  tr_type : sr_Type s = [] ∨ sr_Type s = routeProxy ∨ sr_Type s = routeStatic;
  tr_prefix : sr_Prefix s = [] ∨ has_prefix (sr_Prefix s) (lit "/") = true;
  tr_target : ∀ u, sr_Target s = Some u → target_ok u ∧ lit "target" ∈ seen;
  tr_strip : sr_StripPrefix s = true → lit "strip_prefix" ∈ seen;
  tr_host : sr_ForceHost s ≠ [] → lit "force_host" ∈ seen;
  tr_base : sr_BaseDir s ≠ [] → lit "base_dir" ∈ seen;
  tr_listing : sr_Listing s = true → lit "directory_listing" ∈ seen;
  tr_mfa : sr_RequireMFA s = true → lit "require_mfa" ∈ seen;
  tr_groups : sr_RequireGroups s ≠ [] → lit "require_groups" ∈ seen;
  tr_roles : sr_RequireRoles s ≠ [] → lit "require_roles" ∈ seen;
  tr_auth : sr_auth s = None;
}.

Lemma tracked_new key line : tracked (new_route key line) [].
Proof. by split; cbn; auto. Qed.

Lemma parseTarget_ok v u : parseTarget url_parse v = Ok u → target_ok u.
Proof.
  unfold parseTarget. destruct (url_parse v) as [p|]; [|done].
  destruct (says (pu_scheme p) "http" || says (pu_scheme p) "https") eqn:E1; [|done].
  destruct (bool_decide (Hostname _ = [])) eqn:E2; [done|]. destruct (negb (pu_user p)); [|done]. cbn [negb].
  destruct (_ && _); [|done]. apply bool_decide_eq_false in E2.
  assert (u_Scheme (mkURL (pu_scheme p) (pu_host p)) = lit "http" ∨ u_Scheme (mkURL (pu_scheme p) (pu_host p)) = lit "https").
  { apply orb_true_iff in E1 as [E1|E1]; apply says_spec in E1; auto. }
  destruct (bool_decide (Port _ = [])) eqn:E3.
  - injection 1 as <-. split_and!; [done..|]. left. by apply bool_decide_eq_true in E3.
  - destruct (parsePort _) eqn:E4; [|done]. injection 1 as <-. split_and!; [done..|]. right. eauto.
Qed.

Lemma tracked_more s seen k : tracked s seen → tracked s (k :: seen).
Proof.
  intros [H1 H2 H3 H4 H5 H6 H7 H8 H9 H10 H11].
  split; auto; try (intros; right; auto). intros u Hu. destruct (H3 u Hu). split; [done|by right].
Qed.

Ltac set_key :=
  match goal with H : tracked ?s _ |- _ => destruct H as [H1 H2 H3 H4 H5 H6 H7 H8 H9 H10 H11]; destruct s; cbn in *; unfold constant;
    split; cbn; try assumption end.

Lemma route_key_tracked s seen k v s' b : tracked s seen → route_key url_parse read_file s k v = Ok (s', b) → tracked s' (k :: seen).
Proof.
  intros Ht%(tracked_more _ _ k). unfold route_key.
  repeat match goal with |- (if says k ?t then _ else _) = _ → _ =>
    destruct (says k t) eqn:Ek; [apply says_spec in Ek; subst k|clear Ek] end; [..|done].
  all: repeat match goal with
    | |- (if ?g then _ else _) = _ → _ => destruct g eqn:?; [|done]
    | |- match ?r with _ => _ end = _ → _ => destruct r eqn:?; [|done]
    end; injection 1 as <- <-; set_key; try (intros _; left).
  - right. by apply orb_true_iff in Heqb0 as [Hb|Hb]; apply bool_decide_eq_true in Hb; auto.
  - right. by apply andb_true_iff in Heqb0 as [Hb _].
  - intros u' [= <-]. split; [by eapply parseTarget_ok|left].
Qed.

Lemma route_keys_tracked opts s seen verify s' seen' verify' : tracked s seen →
  route_keys url_parse read_file s seen verify opts = Ok (s', seen', verify') → tracked s' seen'.
Proof.
  revert s seen verify. induction opts as [|[k v] opts IH]; intros s seen verify Ht; cbn; [by injection 1 as <- <- <-|].
  destruct (negb (contains seen _)); [|done]. destruct (route_key _ _ _ _ _) as [[s1 b]|] eqn:E; [|done].
  apply IH. by eapply route_key_tracked.
Qed.

Lemma parseServiceRule_ok key opts line s : parseServiceRule url_parse read_file key opts line = Ok s → entry_ok s ∧ sr_auth s = None.
Proof.
  unfold parseServiceRule. destruct (route_keys _ _ _ _ _ _) as [[[s' seen] verify]|] eqn:E; [|done].
  pose proof (route_keys_tracked _ _ _ _ _ _ _ (tracked_new key line) E) as [T1 T2 T3 T4 T5 T6 T7 T8 T9 T10 T11]. clear E.
  destruct (route_checks s' seen verify) eqn:Ec; [done|]. injection 1 as <-. unfold route_checks in Ec.
  repeat match type of Ec with (if ?b then _ else _) = None => let H := fresh "C" in destruct b eqn:H; [discriminate|] end. clear Ec.
  apply bool_decide_eq_false in C, C0.
  rewrite ?negb_involutive in *.
  split; [|done]. split.
  - by destruct T2.
  - destruct T1 as [T1|[T1|T1]]; [done|left|right]; rewrite T1 in *.
    + rewrite (bool_decide_true (routeProxy = routeProxy)) in C1 by done. rewrite (bool_decide_false (routeProxy = routeStatic)) in C11 by done.
      cbn [negb andb] in C1, C11. rewrite andb_true_r in C11. pose proof (seen_free _ _ C11) as F.
      split; [done|]. split; [|split].
      * destruct (sr_Target s') as [u|]; [|done]. exists u. split; [done|]. by destruct (T3 u).
      * apply (not_set _ _ _ T6), F. rewrite !elem_of_cons; auto.
      * apply not_true_iff_false. intros Hl%T7. revert Hl. apply F. rewrite !elem_of_cons; auto.
    + rewrite (bool_decide_true (routeStatic = routeStatic)) in C2, C3 by done.
      rewrite (bool_decide_false (routeStatic = routeProxy)) in C7, C10 by done.
      cbn [negb andb] in *. rewrite andb_true_r in C7, C10. pose proof (seen_free _ _ C10) as F.
      apply bool_decide_eq_false in C2. apply negb_false_iff in C3, C7. apply bool_decide_eq_true in C7.
      split_and!; try done.
      * destruct (sr_Target s') as [u|]; [|done]. destruct (T3 u) as [_ Hu]; [done|]. destruct (F "target"%string); [rewrite !elem_of_cons; auto|done].
      * apply not_true_iff_false. intros Hl%T4. revert Hl. apply F. rewrite !elem_of_cons; auto.
      * apply (not_set _ _ _ T5), F. rewrite !elem_of_cons; auto.
  - destruct (decide (sr_OIDC s' = [])); [by left|right]. rewrite bool_decide_false in C5 by done.
    cbn in C5. by apply negb_false_iff, bool_decide_eq_true in C5.
  - intros Hreq Hno. rewrite (bool_decide_true (sr_OIDC s' = [])), andb_true_r in C9 by done.
    pose proof (seen_free _ _ C9) as F.
    destruct Hreq as [Hr%T8|[Hr%T9|Hr%T10]]; revert Hr; apply F; rewrite !elem_of_cons; auto.
  - intros Hs. rewrite (bool_decide_false (sr_identitySecret s' = [])) in C8 by done. cbn [negb andb] in C8.
    destruct (decide (sr_OIDC s' = [])); [|by left]. right. rewrite (bool_decide_true (sr_OIDC s' = [])) in C8 by done.
    cbn in C8. by apply bool_decide_eq_false in C8.
Qed.

(** A rule's routes: one per entry, no prefix twice, and the longest first. *)
Lemma add_routes_ok raws routes0 routes : add_routes url_parse read_file routes0 raws = Ok routes → NoDup (sr_Prefix <$> routes0) →
  NoDup (sr_Prefix <$> routes) ∧
  ∃ new, routes = routes0 ++ new ∧ Forall2 (fun raw s => parseServiceRule url_parse read_file (rs_key raw) (rs_opts raw) (rs_line raw) = Ok s) raws new.
Proof.
  revert routes0. induction raws as [|raw raws IH]; intros routes0; cbn.
  { injection 1 as <-. intros H. split; [done|]. exists []. rewrite app_nil_r. auto. }
  destruct (parseServiceRule _ _ _ _ _) as [s|] eqn:Es; [|done].
  destruct (existsb _ routes0) eqn:Ex; [done|]. cbn [negb]. intros H Hnd. destruct (IH _ H) as (H1 & new & -> & H2).
  - rewrite fmap_app. cbn. apply NoDup_app. split; [done|]. split; [|apply NoDup_singleton].
    intros p (prev & -> & Hp)%list_elem_of_fmap Heq%list_elem_of_singleton. apply not_true_iff_false in Ex. apply Ex, existsb_elem.
    exists prev. split; [done|]. by apply bool_decide_eq_true.
  - split; [done|]. exists (s :: new). rewrite <- app_assoc. auto.
Qed.

End Entries.

(** * Properties *)

(** The routes of a rule are its entries, and the route a path gets is
    the one with the longest prefix of the path: it starts the path, and any
    other route that does has a strictly shorter prefix; no route is given
    only when none matches. *)
Theorem longest_prefix url_parse read_file (raws : list rawServiceRule) (r : Rule) (routes : list ServiceRoute) (path : bytes) :
  serve_routes url_parse read_file raws = Ok routes → r_Routes r = routes →
  (∃ new, routes ≡ₚ new ∧
     Forall2 (fun raw s => parseServiceRule url_parse read_file (rs_key raw) (rs_opts raw) (rs_line raw) = Ok s) raws new) ∧
  match RouteFor r path with
  | Some s => s ∈ routes ∧ has_prefix path (sr_Prefix s) = true ∧
      ∀ s', s' ∈ routes → s' ≠ s → has_prefix path (sr_Prefix s') = true → len (sr_Prefix s') < len (sr_Prefix s)
  | None => ∀ s', s' ∈ routes → has_prefix path (sr_Prefix s') = false
  end.
Proof.
  unfold serve_routes. destruct (add_routes _ _ _ _) as [l|] eqn:E; [|done]. injection 1 as <-. intros Hr.
  apply add_routes_ok in E as (Hnd & new & -> & Hnew); [|apply NoDup_nil_2]. cbn [app] in *.
  split; [exists new; split; [apply stable_sort_perm|done]|]. unfold RouteFor. rewrite Hr.
  destruct (find _ _) as [s|] eqn:Ef.
  - apply find_some_before in Ef as (Hs & Hp & Hb). split; [done|]. split; [done|]. intros s' Hs' Hne Hp'.
    apply Z.le_neq. split; [by apply (longer_sorted new), Hb|]. intros Hl.
    apply Hne, (NoDup_fmap_elem sr_Prefix new); [done|by apply elem_of_stable_sort in Hs'|by apply elem_of_stable_sort in Hs|].
    by apply (same_length_prefix path).
  - intros s' Hs'. by apply (find_none _ _ Ef), list_elem_of_In.
Qed.

(** Every entry of a resolved configuration is well formed (its keys fit
    its type, it has one way of signing in, a header signed with a secret has
    someone to vouch for), and one that names a [basic_auth] item has that
    item's users to check, never none. *)
Theorem entries_resolved url_parse read_file (c c' : Config) (auths : list Rules.BasicAuth) (r : Rule) (s : ServiceRoute) :
  (∀ r s, r ∈ c_Rules c → s ∈ r_Routes r → ∃ key opts line, parseServiceRule url_parse read_file key opts line = Ok s) →
  resolveServe c auths = Ok c' → r ∈ c_Rules c' → s ∈ r_Routes r →
  entry_ok s ∧
  (sr_BasicAuth s = [] ∧ sr_auth s = None ∨
   ∃ a, sr_auth s = Some a ∧ a ∈ auths ∧ ba_Name a = sr_BasicAuth s ∧ sr_BasicAuth s ≠ [] ∧ ba_Users a ≠ ∅).
Proof.
  intros Hc. unfold resolveServe. destruct (collect_auths auths ∅) as [m|] eqn:Em; [|done].
  destruct (mapM_res _ (c_Rules c)) as [rules|] eqn:Er; [|done]. injection 1 as <-. cbn. intros Hin Hs.
  apply mapM_res_Forall2 in Er. destruct (Forall2_elem_r _ _ _ _ Er Hin) as (r0 & Hr0 & Hres). unfold resolve_rule in Hres.
  destruct (mapM_res _ (r_Routes r0)) as [routes|] eqn:Es; [|done]. injection Hres as <-. cbn in Hs. unfold constant in Hs.
  apply mapM_res_Forall2 in Es. destruct (Forall2_elem_r _ _ _ _ Es Hs) as (s0 & Hs0 & Hrs).
  destruct (Hc _ _ Hr0 Hs0) as (key & opts & line & [Hok Hna]%parseServiceRule_ok). unfold resolve_route in Hrs.
  destruct (bool_decide (sr_BasicAuth s0 = [])) eqn:Eb.
  - injection Hrs as <-. apply bool_decide_eq_true in Eb. auto.
  - apply bool_decide_eq_false in Eb. destruct (m !! sr_BasicAuth s0) as [a|] eqn:Ea; [|done]. injection Hrs as <-.
    destruct (collect_auths_ok _ _ _ Em _ _ Ea) as [H|(H1 & H2 & H3)]; [done|].
    split; [by apply entry_ok_auth|right]. by exists a.
Qed.

(** * Witnesses *)

Definition w_url (v : bytes) : option parsed_url :=
  if says v "http://10.0.0.1:8080" then Some (mkParsedURL (lit "http") (lit "10.0.0.1:8080") false [] [] []) else None.
Definition w_secret (_ : bytes) : res err bytes := Err "no file"%string.
Definition w_entry (prefix : string) (more : list (bytes * bytes)) (line : Z) : rawServiceRule :=
  mkRawService (lit "entry") ([(lit "type", lit "reverse_proxy"); (lit "prefix", lit prefix); (lit "target", lit "http://10.0.0.1:8080")] ++ more) line.
Definition w_entries : list rawServiceRule :=
  [w_entry "/" [] 3; w_entry "/api/" [(lit "basic_auth", lit "team")] 4; w_entry "/api/v2/" [(lit "strip_prefix", lit "yes")] 5].
Definition w_routes : list ServiceRoute := match serve_routes w_url w_secret w_entries with Ok l => l | Err _ => [] end.
Definition w_serving : Rule := zero_rule {{ r_Routes := w_routes }}.

Lemma longest_prefix_witness :
  (sr_Line <$> RouteFor w_serving (lit "/api/v2/x") = Some 5) ∧ (sr_Line <$> RouteFor w_serving (lit "/api/x") = Some 4) ∧
  match RouteFor w_serving (lit "/api/x") with
  | Some s => s ∈ w_routes ∧ has_prefix (lit "/api/x") (sr_Prefix s) = true ∧
      ∀ s', s' ∈ w_routes → s' ≠ s → has_prefix (lit "/api/x") (sr_Prefix s') = true → len (sr_Prefix s') < len (sr_Prefix s)
  | None => ∀ s', s' ∈ w_routes → has_prefix (lit "/api/x") (sr_Prefix s') = false
  end.
Proof.
  split; [vm_compute; reflexivity|]. split; [vm_compute; reflexivity|].
  eapply (longest_prefix w_url w_secret w_entries w_serving w_routes (lit "/api/x")); [vm_compute; reflexivity|reflexivity].
Defined.

Definition w_team : Rules.BasicAuth := mkBasicAuth (lit "team") 1 {[lit "ann" := Credential (lit "pw") [] false None]}.
Definition w_config : Config := (defaultConfig []) {{ c_Rules := [w_serving] }}.
Definition w_resolved : Config := match resolveServe w_config [w_team] with Ok c => c | Err _ => w_config end.
Definition w_rule2 : Rule := default w_serving (head (c_Rules w_resolved)).
Definition w_api : ServiceRoute := default (new_route [] 0) (r_Routes w_rule2 !! 1%nat).

Lemma entries_resolved_witness :
  sr_BasicAuth w_api = lit "team" ∧ entry_ok w_api ∧
  (sr_BasicAuth w_api = [] ∧ sr_auth w_api = None ∨
   ∃ a, sr_auth w_api = Some a ∧ a ∈ [w_team] ∧ ba_Name a = sr_BasicAuth w_api ∧ sr_BasicAuth w_api ≠ [] ∧ ba_Users a ≠ ∅).
Proof.
  split; [vm_compute; reflexivity|].
  apply (entries_resolved w_url w_secret w_config w_resolved [w_team] w_rule2 w_api).
  - intros r s ->%list_elem_of_singleton Hs.
    assert (Hp : Forall (fun s => ∃ raw, raw ∈ w_entries ∧
      parseServiceRule w_url w_secret (rs_key raw) (rs_opts raw) (rs_line raw) = Ok s) w_routes).
    { repeat constructor; [exists (w_entry "/api/v2/" [(lit "strip_prefix", lit "yes")] 5)|exists (w_entry "/api/" [(lit "basic_auth", lit "team")] 4)|exists (w_entry "/" [] 3)];
        (split; [repeat first [left|right]|vm_compute; reflexivity]). }
    destruct (proj1 (Forall_forall _ _) Hp s Hs) as (raw & _ & H). eauto.
  - vm_compute. reflexivity.
  - vm_compute. left.
  - vm_compute. right. left.
Defined.
