(* ===== verification/RuleBuild.v ===== *)
(** RuleBuild: from a rule as it is written to the rule the proxy routes by
    ([buildRule] and the settings it checks in [config.go], [serveSettings] of
    [serve_config.go], [splitTarget] of [config_yaml.go]), and what every rule
    that loads guarantees. [json.Unmarshal] of a list of strings, [url.Parse]
    and files are parameters. *)

From S2P Require Import Prelude GoStr NetIP NetIPText Sni Rules Limit CertNames Config ServeConfig.
From Stdlib Require Import Floats.SpecFloat.

(** [rawRule]: a rule's keys as written, [None] where one is not. *)
Record rawRule := mkRawRule {
  rw_cert : option bytes; rw_certDomains : option bytes; rw_certScript : option bytes; rw_certArgs : option bytes;
  rw_upstreamTLS : option bytes; rw_upstreamVerify : option bytes; rw_upstreamSNI : option bytes;
  rw_proxy : option bytes; rw_proxyVersion : option bytes;
  rw_aggSpeed : option bytes; rw_connSpeed : option bytes; rw_listener : option bytes;
  rw_line : Z;
  rw_pattern : option bytes; rw_action : option bytes; rw_targetHost : option bytes; rw_tport : option bytes;
  rw_serviceRules : list rawServiceRule; rw_console : bool;
  rw_target : option bytes; rw_targetLine : Z;
}.
(** [rawRule{}] *)
Definition zero_raw : rawRule :=
  mkRawRule None None None None None None None None None None None None 0 None None None None [] false None 0.

Definition given {A} (o : option A) : bool := match o with Some _ => true | None => false end.

(** [strings.Index] *)
Fixpoint index_str (s p : bytes) : option nat :=
  if has_prefix s p then Some O else match s with [] => None | _ :: s' => S <$> index_str s' p end.

(** [splitTarget]: the host and the port of a target. *)
Definition splitTarget (v : bytes) : res err (bytes * bytes) :=
  if has_prefix v (lit "[") then
    match index_str v (lit "]:") with
    | None => Err "write an IPv6 target as [2001:db8::1]:443"%string
    | Some e => Ok (take (e - 1) (drop 1 v), drop (e + 2) v)
    end
  else
    match last_index_byte v (ch ":") with
    | None => Err "needs a port: host:port, e.g. 10.0.0.5:443"%string
    | Some i =>
        let host := take i v in
        let port := drop (S i) v in
        if contains host (ch ":") then
          match parse_addr host with
          | Some _ => Err "write an IPv6 target in brackets"%string
          | None => Err "not host:port"%string
          end
        else Ok (host, port)
    end.

(** [proxySettings] *)
Definition proxySettings (rule : Rule) (r : rawRule) : res err Rule :=
  let rule := rule {{ r_ProxyVersion := 2 }} in
  let! rule :=
    match rw_proxy r with
    | None => Ok rule
    | Some v =>
        guard! r_Allow rule else "proxy makes no sense on a deny rule"%string in
        let! on := parseBool v in Ok (rule {{ r_Proxy := on }})
    end in
  match rw_proxyVersion r with
  | None => Ok rule
  | Some v =>
      guard! r_Proxy rule else "proxy_version only applies with proxy"%string in
      match atoi v with
      | Some n => guard! (n =? 1) || (n =? 2) else "proxy_version must be 1 or 2"%string in Ok (rule {{ r_ProxyVersion := n }})
      | None => Err "proxy_version must be 1 or 2"%string
      end
  end.

(** [speedSettings]: one turn of its loop, and the loop. *)
Definition speed_setting (allow : bool) (v : option bytes) (now : float64) : res err float64 :=
  match v with
  | None => Ok now
  | Some v =>
      guard! allow else "a speed makes no sense on a deny rule"%string in
      or_fail "not a speed" (parseRate v)
  end.
Definition speedSettings (rule : Rule) (r : rawRule) : res err Rule :=
  let! agg := speed_setting (r_Allow rule) (rw_aggSpeed r) (r_MaxAggregatedSpeed rule) in
  let! one := speed_setting (r_Allow rule) (rw_connSpeed r) (r_MaxSingleConnectionSpeed rule) in
  Ok (rule {{ r_MaxAggregatedSpeed := agg; r_MaxSingleConnectionSpeed := one }}).

(** [caIDPattern] *)
Definition ca_id (id : bytes) : bool :=
  match id with
  | [c; a; x; y; z] => (c =? ch "c") && (a =? ch "a") && is_digit x && is_digit y && is_digit z
  | _ => false
  end.

(** Whether the rule's pattern matches a name: [Pattern.MatchString]. *)
Definition pattern_takes (r : Rule) (d : bytes) : bool := match r_Pattern r with Some re => MatchString re d | None => false end.

(** One of [cert_domains] in [localCASettings]. *)
Definition local_domain (rule : Rule) (d : bytes) : res err Rule :=
  let noHost := r_NoSNI rule || bool_decide (r_Kind rule = kindCatchAll) in
  match parse_addr (trim d (lit "[]")) with
  | Some ip =>
      guard! bool_decide (zone ip = []) else "an IP address in a certificate has no zone"%string in
      guard! noHost else "an IP address only applies to $no_sni or $anything_else"%string in
      guard! negb (contains (r_certIPs rule) (unmap ip)) else "cert_domains lists an address twice"%string in
      Ok (rule {{ r_certIPs ::= fun l => l ++ [unmap ip] }})
  | None =>
      if r_NoSNI rule then
        guard! isHostName d else "a $no_sni rule pattern_takes IP addresses and plain host names"%string in
        Ok (if contains (r_certHosts rule) d then rule else rule {{ r_certHosts ::= fun l => l ++ [d] }})
      else
        match classify d with
        | Ok (kind, expr, _) =>
            guard! bool_decide (kind = kindLiteral) || bool_decide (kind = kindWildcard)
              else "not a host name, a glob like *.dev.example.com or an IP address"%string in
            guard! negb (bool_decide (kind = kindLiteral)) || pattern_takes rule d
              else "cert_domains: a name does not match this rule's pattern"%string in
            match compile_re false expr with
            | Some re => Ok (rule {{ r_certNames ::= fun l => l ++ [re] }})
            | None => Err "panic"%string       (* MustCompile *)
            end
        | Err _ => Err "not a host name, a glob like *.dev.example.com or an IP address"%string
        end
  end.
Fixpoint local_domains (rule : Rule) (ds : list bytes) : res err Rule :=
  match ds with
  | [] => Ok rule
  | d :: ds => let! rule := local_domain rule d in local_domains rule ds
  end.

(** [localCASettings] *)
Definition localCASettings (rule : Rule) (id : bytes) (r : rawRule) : res err Rule :=
  guard! ca_id id else "a CA is named ca001, ca002, ... (three digits)"%string in
  let rule := rule {{ r_Cert := lit "local-ca:" ++ id }} in
  guard! negb (given (rw_certScript r) || given (rw_certArgs r)) else "cert_validate_script only applies to cert: auto"%string in
  match rw_certDomains r with
  | None => Ok rule
  | Some v =>
      let rule := rule {{ r_CertDomains := splitList (to_lower v) }} in
      guard! negb (bool_decide (r_CertDomains rule = [])) else "cert_domains is empty"%string in
      let! rule := local_domains rule (r_CertDomains rule) in
      let key := sanKey (r_certIPs rule) (r_certHosts rule) in
      let rule := if bool_decide (r_certIPs rule = []) then rule else rule {{ r_certKey := key }} in
      guard! len (localCAFolder key) <=? 200 else "cert_domains: too many names for one certificate"%string in
      Ok rule
  end.

(** What of a target's or an argument's references [buildRule] and
    [tlsSettings] try: as many as the pattern captures, all empty. *)
Definition probe (rule : Rule) : list Z :=
  replicate (2 * (match r_Pattern rule with Some re => NumSubexp re | None => 0 end + 1)) 0.

Section RuleBuild.
Context (json_args : bytes → option (list bytes)).          (* json.Unmarshal into a []string *)
Context (url_parse : bytes → option parsed_url) (read_file : bytes → res err bytes).

(** The part of [tlsSettings] for [cert: auto]. *)
Definition autoSettings (cfg : Config) (rule : Rule) (r : rawRule) : res err Rule :=
  let rule := rule {{ r_Cert := lit "auto" }} in
  guard! c_AcmeAgreeTOS cfg else "cert: auto needs acme_agree_tos: true in global"%string in
  guard! negb (r_NoSNI rule) else "cert: auto needs a host name"%string in
  let rule :=
    match rw_certDomains r with
    | Some v => rule {{ r_CertDomains := splitList (to_lower v) }}
    | None => let (host, ok) := literalHost (r_Source rule) in if ok then rule {{ r_CertDomains := [host] }} else rule
    end in
  let! rule :=
    match rw_certScript r with
    | Some v => guard! negb (bool_decide (v = [])) else "cert_validate_script must not be empty"%string in Ok (rule {{ r_CertValidateScript := v }})
    | None => Ok rule
    end in
  let rule := rule {{ r_CertValidateArgs := [lit "${host}"] }} in
  let! rule :=
    match rw_certArgs r with
    | None => Ok rule
    | Some v =>
        guard! given (rw_certScript r) else "cert_validate_args needs a cert_validate_script"%string in
        let rule := match json_args v with Some l => rule {{ r_CertValidateArgs := l }} | None => rule end in
        guard! negb (bool_decide (r_CertValidateArgs rule = [])) else "cert_validate_args needs at least one argument"%string in
        guard! forallb (fun a => is_ok (expand a [] (probe rule))) (r_CertValidateArgs rule) else "cert_validate_args: a bad reference"%string in
        Ok rule
    end in
  guard! negb (bool_decide (r_CertDomains rule = []) && bool_decide (r_CertValidateScript rule = []))
    else "cert: auto with a wildcard or $anything_else domain needs cert_domains or a cert_validate_script"%string in
  guard! forallb validDomain (r_CertDomains rule) else "cert_domains: not a valid host name"%string in
  guard! forallb (pattern_takes rule) (r_CertDomains rule)
    else "cert_domains: a name does not match this rule's pattern"%string in
  Ok rule.

(** [tlsSettings] *)
Definition tlsSettings (cfg : Config) (rule : Rule) (r : rawRule) : res err Rule :=
  match rw_cert r with
  | None | Some [] =>
      guard! negb (given (rw_certDomains r) || given (rw_certScript r) || given (rw_certArgs r) || given (rw_upstreamTLS r) ||
                   given (rw_upstreamVerify r) || given (rw_upstreamSNI r)) else "only applies when the rule terminates TLS"%string in
      Ok rule
  | Some cert =>
      guard! r_Allow rule else "cert makes no sense on a deny rule"%string in
      let rule := rule {{ r_Cert := cert }} in
      guard! (localCARef cert).2 || equal_fold cert (lit "auto") else "a certificate directory is no longer supported"%string in
      let! tls := match rw_upstreamTLS r with None => Ok true | Some v => parseBool v end in
      let! verify := match rw_upstreamVerify r with None => Ok true | Some v => parseBool v end in
      let rule := rule {{ r_UpstreamTLS := tls; r_UpstreamTLSVerify := verify }} in
      let! rule :=
        match rw_upstreamSNI r with
        | None => Ok rule
        | Some v =>
            guard! validDomain (to_lower v) else "upstream_sni: not a valid host name"%string in
            guard! tls else "upstream_sni only applies with upstream_tls: true"%string in
            Ok (rule {{ r_UpstreamSNI := to_lower v }})
        end in
      let (id, ok) := localCARef cert in
      if ok then localCASettings rule id r else autoSettings cfg rule r
  end.

(** [serveSettings] *)
Definition serveSettings (rule : Rule) (r : rawRule) : res err Rule :=
  if bool_decide (rw_serviceRules r = []) then Ok rule
  else
    guard! negb (given (rw_target r) || given (rw_upstreamTLS r) || given (rw_upstreamVerify r) || given (rw_upstreamSNI r) || given (rw_proxy r))
      else "does not apply to a rule with serve"%string in
    guard! match rw_action r with Some a => equal_fold a (lit "allow") | None => true end else "serve needs action: allow"%string in
    guard! negb (bool_decide (default [] (rw_cert r) = [])) else "serve needs cert: auto or cert: local-ca"%string in
    let! routes := serve_routes url_parse read_file (rw_serviceRules r) in
    Ok (rule {{ r_Routes := routes }}).

(** The target of an allow rule that passes connections on. *)
Definition target_settings (rule : Rule) (r : rawRule) : res err Rule :=
  let! (host, port) :=
    match rw_target r with
    | Some v => let! (h, p) := splitTarget v in Ok (Some h, Some p)
    | None => Ok (rw_targetHost r, rw_tport r)
    end in
  match host with
  | None => Err "target is required for allow: host:port"%string
  | Some host =>
      let rule := rule {{ r_TargetHost := host }} in
      guard! negb (contains host (ch ":")) || match parse_addr host with Some _ => true | None => false end else "target is not host:port"%string in
      match port with
      | None => Err "target needs a port: host:port"%string
      | Some port =>
          let! n := parsePort port in
          guard! is_ok (expand host [] (probe rule)) else "target: a bad reference"%string in
          Ok (rule {{ r_TargetPort := n }})
      end
  end.

(** The pattern of [buildRule]. *)
Definition pattern_settings (rule : Rule) (pattern : bytes) : res err Rule :=
  let! (kind, expr, chars) := or_fail "not a domain" (classify pattern) in
  let rule := rule {{ r_Kind := kind; r_literalChars := chars }} in
  if bool_decide (kind = kindNone) then Ok (rule {{ r_NoSNI := true }})
  else match compile_re true expr with
       | Some re => Ok (rule {{ r_Pattern := Some re }})
       | None => Err "bad pattern"%string
       end.

(** Its action. *)
Definition action_settings (rule : Rule) (r : rawRule) : res err Rule :=
  let action := match rw_action r with Some a => to_lower a | None => lit "allow" end in
  if says action "deny" then Ok rule
  else if says action "allow" then
    let rule := rule {{ r_Allow := true }} in
    if negb (bool_decide (rw_serviceRules r = [])) || rw_console r then Ok rule
    else target_settings rule r
  else Err "action must be allow or deny"%string.

(** [buildRule] *)
Definition buildRule (cfg : Config) (r : rawRule) : res err Rule :=
  match rw_pattern r, rw_listener r with
  | None, _ => Err "pattern is required"%string
  | Some _, None => Err "the rule has no listener"%string
  | Some pattern, Some listener =>
      guard! given (find_listener cfg listener) else "there is no listener with the name"%string in
      let! rule := pattern_settings (zero_rule {{ r_Line := rw_line r; r_Source := pattern; r_Listener := listener }}) pattern in
      let! rule := action_settings rule r in
      let! rule := serveSettings rule r in
      let rule := rule {{ r_Console := rw_console r }} in
      let! rule := tlsSettings cfg rule r in
      let rule := if Serves rule then rule {{ r_UpstreamTLS := false; r_UpstreamTLSVerify := false }} else rule in
      let! rule := proxySettings rule r in
      speedSettings rule r
  end.
End RuleBuild.

(** * What every rule that loads guarantees *)

(** A rule without what [tlsSettings] sets. *)
Definition tls_free (r : Rule) : Rule :=
  r {{ r_Cert := []; r_CertDomains := []; r_certNames := []; r_certIPs := []; r_certHosts := []; r_certKey := [];
       r_CertValidateScript := []; r_CertValidateArgs := []; r_UpstreamTLS := false; r_UpstreamTLSVerify := false; r_UpstreamSNI := [] }}.

(** The certificate settings: none, names for an ACME certificate, or a local
    CA and what it issues for. *)
Definition no_cert (r : Rule) : Prop := r = tls_free r.
Record auto_cert (c : Config) (r : Rule) : Prop := {
  a_cert : r_Cert r = lit "auto";
  a_agreed : c_AcmeAgreeTOS c = true;
  a_named : r_NoSNI r = false;
  a_source : r_CertDomains r ≠ [] ∨ r_CertValidateScript r ≠ [];
  a_domains : Forall (fun d => validDomain d = true ∧ pattern_takes r d = true) (r_CertDomains r);
  a_args : r_CertValidateArgs r ≠ [] ∧ Forall (fun a => is_ok (expand a [] (probe r)) = true) (r_CertValidateArgs r);
  a_local : r_certIPs r = [] ∧ r_certHosts r = [] ∧ r_certNames r = [] ∧ r_certKey r = [];
}.
(** The addresses and names of a local CA's certificate, so far. *)
Record local_names (r : Rule) : Prop := {
  l_ips : NoDup (r_certIPs r) ∧ Forall key_addr (r_certIPs r);
  l_ips_where : r_certIPs r ≠ [] → r_Kind r = kindNone ∨ r_Kind r = kindCatchAll;
  l_hosts : NoDup (r_certHosts r) ∧ Forall (fun h => isHostName h = true) (r_certHosts r);
  l_hosts_where : r_certHosts r ≠ [] → r_NoSNI r = true;
}.
Record local_cert (r : Rule) : Prop := {
  c_id : ∃ id, ca_id id = true ∧ r_Cert r = lit "local-ca:" ++ id;
  c_script : r_CertValidateScript r = [] ∧ r_CertValidateArgs r = [];
  c_names : local_names r;
  c_key : r_certKey r = if bool_decide (r_certIPs r = []) then [] else sanKey (r_certIPs r) (r_certHosts r);
  c_folder : r_certIPs r ≠ [] → len (localCAFolder (r_certKey r)) <= 200;
}.

Record rule_ok (c : Config) (r : Rule) : Prop := {
  k_listener : is_Some (find_listener c (r_Listener r));
  k_pattern : pattern_ok r;
  k_target : r_Allow r = true → Serves r = false →
    1 <= r_TargetPort r < 2 ^ 16 ∧ is_ok (expand (r_TargetHost r) [] (probe r)) = true ∧
    (contains (r_TargetHost r) (ch ":") = true → is_Some (parse_addr (r_TargetHost r)));
  k_deny : r_Allow r = false → no_cert r ∧ r_Routes r = [] ∧ r_Proxy r = false;
  k_cert : no_cert r ∨ auto_cert c r ∨ local_cert r;
  k_upstream : (r_UpstreamTLS r = true → Terminates r = true ∧ Serves r = false) ∧
    (r_UpstreamSNI r ≠ [] → validDomain (r_UpstreamSNI r) = true);
  k_routes : NoDup (sr_Prefix <$> r_Routes r) ∧ Forall entry_ok (r_Routes r) ∧ (r_Routes r ≠ [] → Terminates r = true ∧ r_Proxy r = false);
  k_version : r_ProxyVersion r = 1 ∨ r_ProxyVersion r = 2;
}.

(** ** Each stage *)

#[local] Instance Ok_inj {E A} : Inj (=) (=) (@Ok E A).
Proof. by intros ?? [= ->]. Qed.

Lemma parsePort_range v n : parsePort v = Ok n → 1 <= n < 2 ^ 16.
Proof.
  unfold parsePort. destruct (parse_uint v 16) as [p|] eqn:E; [|done]. apply parse_uint_range in E.
  intros H. repeat case_match; try done. injection H as <-. bool_prop. lia.
Qed.

Lemma target_settings_spec rule r rule' : target_settings rule r = Ok rule' → ∃ host n,
  rule' = rule {{ r_TargetHost := host; r_TargetPort := n }} ∧ 1 <= n < 2 ^ 16 ∧ is_ok (expand host [] (probe rule)) = true ∧
  (contains host (ch ":") = true → is_Some (parse_addr host)).
Proof.
  unfold target_settings. destruct (match rw_target r with Some _ => _ | None => _ end) as [[[host|] port]|]; [|done..].
  destruct (negb _ || _) eqn:Ec; [|done]. destruct port as [port|]; [|done]. destruct (parsePort port) as [n|] eqn:En; [|done].
  change (probe (rule {{ r_TargetHost := host }})) with (probe rule). destruct (is_ok (expand _ _ _)) eqn:Ex; [|done]. intros [= <-].
  exists host, n. split; [done|]. split; [by eapply parsePort_range|]. split; [done|].
  intros Hc. rewrite Hc in Ec. cbn [negb orb] in Ec. by destruct (parse_addr host).
Qed.

Lemma local_domain_spec rule d rule' : local_domain rule d = Ok rule' →
  r_NoSNI rule = bool_decide (r_Kind rule = kindNone) → local_names rule →
  local_names rule' ∧ tls_free rule' = tls_free rule ∧ r_Cert rule' = r_Cert rule ∧ r_CertDomains rule' = r_CertDomains rule ∧
  r_CertValidateScript rule' = r_CertValidateScript rule ∧ r_CertValidateArgs rule' = r_CertValidateArgs rule ∧ r_certKey rule' = r_certKey rule ∧
  r_UpstreamTLS rule' = r_UpstreamTLS rule ∧ r_UpstreamSNI rule' = r_UpstreamSNI rule.
Proof.
  intros H Hn [Hi Hiw Hh Hhw]. unfold local_domain in H. destruct (parse_addr _) as [ip|] eqn:Ep.
  - destruct (bool_decide (zone ip = [])) eqn:Ez; [|done]. destruct (r_NoSNI rule || _) eqn:Ew; [|done].
    destruct (contains (r_certIPs rule) (unmap ip)) eqn:Ei; [done|]. injection H as <-. split; [|done].
    bool_prop. apply parse_addr_ok in Ep as [Hok Hv].
    split; cbn; [|intros _|done|done].
    + destruct Hi as [Hnd Hall]. split.
      * apply NoDup_app. split; [done|]. split; [|apply NoDup_singleton]. intros a Ha ->%list_elem_of_singleton. apply bool_decide_eq_false in Ei. done.
      * apply Forall_app. split; [done|]. apply Forall_singleton. pose proof (key_addrs [ip]) as Hk. cbn in Hk. eapply Forall_singleton, Hk, Forall_singleton. done.
    + rewrite Hn in Ew. destruct Ew as [Ew|Ew]; bool_prop; auto.
  - destruct (r_NoSNI rule) eqn:En.
    + destruct (isHostName d) eqn:Eh; [|done]. injection H as <-. destruct (contains (r_certHosts rule) d) eqn:Ec; [by split; [split|]|].
      split; [|done]. split; cbn; [done..| |done]. destruct Hh as [Hnd Hall]. apply bool_decide_eq_false in Ec. split.
      * apply NoDup_app. split; [done|]. split; [|apply NoDup_singleton]. by intros a Ha ->%list_elem_of_singleton.
      * apply Forall_app. split; [done|]. by apply Forall_singleton.
    + destruct (classify d) as [[[kind expr] n]|]; [|done]. do 2 (case_match; [|done]). destruct (compile_re false expr); [|done]. injection H as <-. split; [|done]. split; cbn; auto.
      intros Hx. by apply Hhw in Hx.
Qed.

Lemma local_domains_spec ds rule rule' : local_domains rule ds = Ok rule' →
  r_NoSNI rule = bool_decide (r_Kind rule = kindNone) → local_names rule →
  local_names rule' ∧ tls_free rule' = tls_free rule ∧ r_Cert rule' = r_Cert rule ∧ r_CertDomains rule' = r_CertDomains rule ∧
  r_CertValidateScript rule' = r_CertValidateScript rule ∧ r_CertValidateArgs rule' = r_CertValidateArgs rule ∧ r_certKey rule' = r_certKey rule ∧
  r_UpstreamTLS rule' = r_UpstreamTLS rule ∧ r_UpstreamSNI rule' = r_UpstreamSNI rule.
Proof.
  revert rule. induction ds as [|d ds IH]; intros rule; cbn [local_domains]; [by intros [= <-]|].
  destruct (local_domain rule d) as [rule1|] eqn:E; [|done]. intros H Hn Hl.
  destruct (local_domain_spec _ _ _ E Hn Hl) as (Hl1 & Ef & E1 & E2 & E3 & E4 & E5 & E6 & E7).
  destruct (IH rule1 H) as (Hl2 & Ef' & F1 & F2 & F3 & F4 & F5 & F6 & F7); [|done|split_and!; congruence].
  change (r_NoSNI (tls_free rule1) = bool_decide (r_Kind (tls_free rule1) = kindNone)). by rewrite Ef.
Qed.

Lemma localCASettings_spec rule id r rule' : localCASettings rule id r = Ok rule' →
  r_NoSNI rule = bool_decide (r_Kind rule = kindNone) →
  r_certIPs rule = [] → r_certHosts rule = [] → r_certKey rule = [] → r_CertValidateScript rule = [] → r_CertValidateArgs rule = [] →
  local_cert rule' ∧ tls_free rule' = tls_free rule ∧ r_UpstreamTLS rule' = r_UpstreamTLS rule ∧ r_UpstreamSNI rule' = r_UpstreamSNI rule.
Proof.
  intros H Hn Hi Hh Hk Hs Ha. unfold localCASettings in H. destruct (ca_id id) eqn:Eid; [|done]. destruct (negb _); [|done].
  assert (∀ q, r_certIPs q = [] → r_certHosts q = [] → local_names q) as Hempty.
  { intros q Eq1 Eq2. split; rewrite ?Eq1, ?Eq2; [by split; constructor|done|by split; constructor|done]. }
  destruct (rw_certDomains r) as [v|].
  2: { injection H as <-. split; [|done]. destruct rule; cbn in *; subst. split; [by exists id|done|by apply Hempty|done|done]. }
  destruct (negb _); [|done]. destruct (local_domains _ _) as [rule1|] eqn:El; [|done].
  apply local_domains_spec in El as (Hl & Ef & E1 & E2 & E3 & E4 & E5 & E6 & E7); [|done|by apply Hempty].
  destruct (Z.leb_spec (len (localCAFolder (sanKey (r_certIPs rule1) (r_certHosts rule1)))) 200) as [Hlen|]; [|done]. injection H as <-.
  change (tls_free rule1 = tls_free rule) in Ef.
  assert (local_cert rule1 ∨ r_certIPs rule1 ≠ []) as Hc.
  { destruct (decide (r_certIPs rule1 = [])) as [Hn1|]; [left|by right]. split; [exists id|rewrite E3, E4|done|rewrite Hn1, E5|]; done. }
  destruct (bool_decide_reflect (r_certIPs rule1 = [])) as [Hn1|Hn1]; [destruct Hc; [|done]; split; [done|]; split; [done|]; by rewrite E6, E7|].
  split; [|split; [exact Ef|by split]]. split.
  - exists id. by split.
  - change (r_CertValidateScript rule1 = [] ∧ r_CertValidateArgs rule1 = []). by rewrite E3, E4.
  - by destruct Hl.
  - change (sanKey (r_certIPs rule1) (r_certHosts rule1) = if bool_decide (r_certIPs rule1 = []) then [] else sanKey (r_certIPs rule1) (r_certHosts rule1)).
    by rewrite bool_decide_false.
  - done.
Qed.

Lemma expand_host rule : is_ok (expand (lit "${host}") [] (probe rule)) = true.
Proof.
  unfold expand. rewrite (expand_go_ok _ _ _ [] _ (replicate (2 + 2 * match r_Pattern rule with Some re => NumSubexp re | None => 0 end) 0) _ []).
  2: { unfold probe. rewrite !length_replicate. lia. }
  cbn [Nat.add replicate]. set (l := replicate _ _).
  assert (expand_ref (lit "host") [] (0 :: 0 :: l) = Ok []) as Href.
  { unfold expand_ref. rewrite (bool_decide_true (lit "host" = lit "host")) by done. change (atoi (lit "0")) with (Some 0). cbn iota.
    change ((0 <? 0) || negb (bool_decide (itoa 0 = lit "0"))) with false. cbn iota.
    replace (len (0 :: 0 :: l) <=? 2 * 0 + 1) with false; [done|]. symmetry. apply Z.leb_gt. unfold len. cbn [length]. lia. }
  change (expand_go (length (lit "${host}")) (lit "${host}") [] (0 :: 0 :: l) [])
    with (let! text := expand_ref (lit "host") [] (0 :: 0 :: l) in expand_go 6 [] [] (0 :: 0 :: l) ([] ++ text)).
  by rewrite Href.
Qed.

Section Rules.
Context (json_args : bytes → option (list bytes)) (url_parse : bytes → option parsed_url) (read_file : bytes → res err bytes).

Lemma autoSettings_spec c rule r rule' : autoSettings json_args c rule r = Ok rule' →
  r_CertDomains rule = [] → r_CertValidateScript rule = [] →
  r_certIPs rule = [] ∧ r_certHosts rule = [] ∧ r_certNames rule = [] ∧ r_certKey rule = [] →
  auto_cert c rule' ∧ tls_free rule' = tls_free rule ∧ r_UpstreamTLS rule' = r_UpstreamTLS rule ∧ r_UpstreamSNI rule' = r_UpstreamSNI rule.
Proof.
  intros H Hd Hs Hl. unfold autoSettings in H. destruct (c_AcmeAgreeTOS c) eqn:Eg; [|done].
  destruct (r_NoSNI (rule {{ r_Cert := lit "auto" }})) eqn:En; [done|]. cbn [negb] in H.
  set (r1 := match rw_certDomains r with Some _ => _ | None => _ end) in H.
  assert (∃ ds, r1 = rule {{ r_Cert := lit "auto"; r_CertDomains := ds }}) as [ds E1].
  { subst r1. destruct (rw_certDomains r) as [v|]; [by exists (splitList (to_lower v))|]. destruct (literalHost _) as [host []]; [by exists [host]|].
    exists []. rewrite <- Hd. by destruct rule. }
  rewrite E1 in H. clear r1 E1.
  set (r2 := match rw_certScript r with Some _ => _ | None => _ end) in H.
  assert (∀ q, r2 = Ok q → ∃ sc, q = rule {{ r_Cert := lit "auto"; r_CertDomains := ds; r_CertValidateScript := sc }}) as E2.
  { subst r2. intros q. destruct (rw_certScript r) as [v|].
    - destruct (negb _); [|done]. intros <-%(inj Ok). by exists v.
    - intros <-%(inj Ok). exists []. rewrite <- Hs. by destruct rule. }
  destruct r2 as [q|]; [|done]. destruct (E2 q eq_refl) as [sc ->]. clear E2.
  set (r3 := match rw_certArgs r with Some _ => _ | None => _ end) in H.
  assert (∀ q, r3 = Ok q → ∃ args, q = rule {{ r_Cert := lit "auto"; r_CertDomains := ds; r_CertValidateScript := sc; r_CertValidateArgs := args }} ∧
    args ≠ [] ∧ Forall (fun a => is_ok (expand a [] (probe rule)) = true) args) as E3.
  { subst r3. intros q. destruct (rw_certArgs r) as [v|].
    - destruct (given _); [|done]. destruct (json_args v) as [l|].
      + destruct (bool_decide_reflect (r_CertValidateArgs (rule {{ r_Cert := lit "auto"; r_CertDomains := ds; r_CertValidateScript := sc; r_CertValidateArgs := [lit "${host}"] }} {{ r_CertValidateArgs := l }}) = [])) as [|Hne]; [done|]. cbn [negb].
        destruct (forallb _ _) eqn:Ef; [|done]. intros <-%(inj Ok). exists l. split; [done|]. split; [exact Hne|].
        rewrite forallb_forall in Ef. apply Forall_forall. intros a Ha%list_elem_of_In. by apply Ef.
      + destruct (negb _); [|done]. destruct (forallb _ _); [|done]. intros <-%(inj Ok). exists [lit "${host}"]. split; [done|]. split; [done|]. apply Forall_singleton, expand_host.
    - intros <-%(inj Ok). exists [lit "${host}"]. split; [done|]. split; [done|]. apply Forall_singleton, expand_host. }
  destruct r3 as [q|]; [|done]. destruct (E3 q eq_refl) as (args & -> & Hargs). clear E3.
  destruct (negb (_ && _)) eqn:Es; [|done]. revert H. destruct (forallb validDomain _) eqn:Ev; [|done]. destruct (forallb (pattern_takes _) _) eqn:Et; [|done]. intros <-%(inj Ok).
  split; [|by destruct rule]. apply negb_true_iff, andb_false_iff in Es. rewrite !bool_decide_eq_false in Es. rewrite !forallb_forall in *. split; try done.
  - apply Forall_forall. intros d Hin%list_elem_of_In. split; [by apply Ev|by apply Et].
Qed.

Lemma tlsSettings_spec c rule r rule' : tlsSettings json_args c rule r = Ok rule' → no_cert rule →
  r_NoSNI rule = bool_decide (r_Kind rule = kindNone) →
  tls_free rule' = tls_free rule ∧
  ((rule' = rule ∧ default [] (rw_cert r) = []) ∨
   (r_Allow rule = true ∧ default [] (rw_cert r) ≠ [] ∧ (auto_cert c rule' ∨ local_cert rule') ∧
    (rw_upstreamSNI r = None → r_UpstreamSNI rule' = []) ∧ (r_UpstreamSNI rule' ≠ [] → validDomain (r_UpstreamSNI rule') = true))).
Proof.
  intros H Hno Hn. unfold tlsSettings in H. destruct (rw_cert r) as [[|c0 cert]|]; [destruct (negb _); [|done]; injection H as <-; by auto| |destruct (negb _); [|done]; injection H as <-; by auto].
  destruct (r_Allow rule); [|done]. destruct (_ || _); [|done].
  destruct (match rw_upstreamTLS r with Some _ => _ | None => _ end) as [tls|]; [|done].
  destruct (match rw_upstreamVerify r with Some _ => _ | None => _ end) as [verify|]; [|done].
  set (r1 := match rw_upstreamSNI r with Some _ => _ | None => _ end) in H.
  assert (∀ q, r1 = Ok q → ∃ n, q = rule {{ r_Cert := c0 :: cert; r_UpstreamTLS := tls; r_UpstreamTLSVerify := verify; r_UpstreamSNI := n }} ∧
    (rw_upstreamSNI r = None → n = []) ∧ (n ≠ [] → validDomain n = true)) as E1.
  { subst r1. intros q. destruct (rw_upstreamSNI r) as [v|].
    - destruct (validDomain (to_lower v)) eqn:Ev; [|done]. destruct tls; [|done]. intros <-%(inj Ok). by exists (to_lower v).
    - intros <-%(inj Ok). exists []. split; [|done]. rewrite Hno. by destruct rule. }
  destruct r1 as [q|]; [|done]. destruct (E1 q eq_refl) as (n & -> & Hn1 & Hn2). clear E1.
  destruct (localCARef (c0 :: cert)) as [id []].
  - apply localCASettings_spec in H as (Hl & Ef & _ & Es); [| by destruct rule |by rewrite Hno..]. split; [rewrite Ef; by destruct rule|]. right. change (default [] (Some (c0 :: cert))) with (c0 :: cert). rewrite Es. by auto 10.
  - apply autoSettings_spec in H as (Hl & Ef & _ & Es); [|by rewrite Hno..]. split; [rewrite Ef; by destruct rule|]. right. change (default [] (Some (c0 :: cert))) with (c0 :: cert). rewrite Es. by auto 10.
Qed.
Lemma serveSettings_spec rule r rule' : serveSettings url_parse read_file rule r = Ok rule' → r_Routes rule = [] →
  ∃ routes, rule' = rule {{ r_Routes := routes }} ∧ NoDup (sr_Prefix <$> routes) ∧ Forall entry_ok routes ∧
    (rw_serviceRules r = [] → routes = []) ∧
    (rw_serviceRules r ≠ [] → routes ≠ [] ∧ rw_proxy r = None ∧ rw_upstreamSNI r = None ∧ default [] (rw_cert r) ≠ [] ∧
       match rw_action r with Some a => to_lower a = lit "allow" | None => True end).
Proof.
  intros H Hr. unfold serveSettings in H. destruct (bool_decide_reflect (rw_serviceRules r = [])) as [Hn|Hn].
  { injection H as <-. exists []. split; [rewrite <- Hr; by destruct rule|]. split_and!; [constructor..|done|done]. }
  destruct (negb (_ || _)) eqn:Eg; [|done]. destruct (match rw_action r with Some _ => _ | None => _ end) eqn:Ea; [|done].
  destruct (negb (bool_decide _)) eqn:Ec; [|done]. apply negb_true_iff, bool_decide_eq_false in Ec.
  unfold serve_routes in H. destruct (add_routes _ _ _ _) as [routes|] eqn:Er; [|done]. apply (inj Ok) in H as <-.
  apply add_routes_ok in Er as (Hnd & new & -> & Hf); [|constructor]. cbn [app] in *.
  exists (stable_sort longer new). split; [done|]. split; [by rewrite (stable_sort_perm longer new)|]. split.
  { rewrite (stable_sort_perm longer new). clear -Hf. induction Hf as [|raw s raws ss Hs _ IH]; constructor; [by eapply parseServiceRule_ok|done]. }
  split; [done|]. intros _. apply negb_true_iff in Eg. bool_prop. split_and!.
  - intros Hs. pose proof (stable_sort_perm longer new) as Hp. rewrite Hs in Hp. apply Permutation_nil_l in Hp. subst new. inversion Hf; congruence.
  - by destruct (rw_proxy r).
  - by destruct (rw_upstreamSNI r).
  - done.
  - destruct (rw_action r) as [a|]; [|done]. unfold equal_fold in Ea. by apply bool_decide_eq_true in Ea.
Qed.

Lemma proxySettings_spec rule r rule' : proxySettings rule r = Ok rule' → r_Proxy rule = false → ∃ on v,
  rule' = rule {{ r_Proxy := on; r_ProxyVersion := v }} ∧ (v = 1 ∨ v = 2) ∧ (on = true → r_Allow rule = true ∧ rw_proxy r ≠ None).
Proof.
  intros H Hp. unfold proxySettings in H. set (r1 := match rw_proxy r with Some _ => _ | None => _ end) in H.
  assert (∀ q, r1 = Ok q → ∃ on, q = rule {{ r_Proxy := on; r_ProxyVersion := 2 }} ∧ (on = true → r_Allow rule = true ∧ rw_proxy r ≠ None)) as E.
  { subst r1. intros q. destruct (rw_proxy r) as [v|].
    - change (r_Allow (rule {{ r_ProxyVersion := 2 }})) with (r_Allow rule). destruct (r_Allow rule) eqn:Ea; [|done].
      destruct (parseBool v) as [on|]; [|done]. intros <-%(inj Ok). exists on. split; [by destruct rule|done].
    - intros <-%(inj Ok). exists false. split; [rewrite <- Hp; by destruct rule|done]. }
  destruct r1 as [q|]; [|done]. destruct (E q eq_refl) as (on & -> & Hon). clear E.
  destruct (rw_proxyVersion r) as [v|].
  - destruct (r_Proxy _); [|done]. destruct (atoi v) as [n|]; [|done]. destruct ((n =? 1) || (n =? 2)) eqn:En; [|done].
    apply (inj Ok) in H as <-. exists on, n. split; [by destruct rule|]. split; [|done]. bool_prop. by destruct En; bool_prop; auto.
  - apply (inj Ok) in H as <-. exists on, 2. split; [by destruct rule|]. auto.
Qed.

Lemma speedSettings_spec rule r rule' : speedSettings rule r = Ok rule' → ∃ a b,
  rule' = rule {{ r_MaxAggregatedSpeed := a; r_MaxSingleConnectionSpeed := b }}.
Proof.
  unfold speedSettings. destruct (speed_setting _ _ _) as [a|]; [|done]. destruct (speed_setting _ _ _) as [b|]; [|done].
  intros <-%(inj Ok). by exists a, b.
Qed.

Lemma action_settings_spec rule r rule' : action_settings rule r = Ok rule' → ∃ allow host n,
  rule' = rule {{ r_Allow := allow; r_TargetHost := host; r_TargetPort := n }} ∧
  (allow = false → r_Allow rule = false → match rw_action r with Some a => to_lower a = lit "deny" | None => False end) ∧
  (allow = true → r_Allow rule = false → rw_serviceRules r = [] → rw_console r = false →
     1 <= n < 2 ^ 16 ∧ is_ok (expand host [] (probe rule)) = true ∧ (contains host (ch ":") = true → is_Some (parse_addr host))).
Proof.
  intros H. unfold action_settings in H. destruct (says _ "deny") eqn:Ed.
  { injection H as <-. exists (r_Allow rule), (r_TargetHost rule), (r_TargetPort rule). split; [by destruct rule|].
    split; [|congruence]. intros _ _. apply says_spec in Ed. by destruct (rw_action r). }
  destruct (says _ "allow"); [|done]. destruct (negb _ || _) eqn:Es.
  { apply (inj Ok) in H as <-. exists true, (r_TargetHost rule), (r_TargetPort rule). split; [by destruct rule|]. split; [done|].
    intros _ _ Hs Hc. rewrite Hs, Hc in Es. done. }
  apply target_settings_spec in H as (host & n & -> & Hn & He & Hh). exists true, host, n. split; [by destruct rule|]. split; [done|]. by intros _ _ _ _.
Qed.

Lemma pattern_settings_spec rule pattern rule' : pattern_settings rule pattern = Ok rule' → r_Source rule = pattern → r_NoSNI rule = false → r_Pattern rule = None →
  ∃ kind chars re, rule' = rule {{ r_Kind := kind; r_literalChars := chars; r_NoSNI := bool_decide (kind = kindNone); r_Pattern := re }} ∧ pattern_ok rule'.
Proof.
  intros H Hs Hn Hp. unfold pattern_settings in H. destruct (classify pattern) as [[[kind expr] chars]|] eqn:Ec; [|done]. cbn [or_fail] in H.
  destruct (bool_decide_reflect (kind = kindNone)) as [->|Hk].
  - apply (inj Ok) in H as <-. exists kindNone, chars, None. split; [rewrite <- Hp; by destruct rule|]. exists expr. rewrite <- Hs in Ec. by split; [|split].
  - destruct (compile_re true expr) as [re|] eqn:Er; [|done]. apply (inj Ok) in H as <-. exists kind, chars, (Some re).
    rewrite (bool_decide_false (kind = kindNone)) by done. split; [rewrite <- Hn; by destruct rule|]. exists expr. rewrite <- Hs in Ec. split; [done|].
    clear Ec. destruct rule; cbn in *; subst. by rewrite bool_decide_false.
Qed.

(** The rule the last stages start from. *)
Lemma tls_stage c rule q raw : rule = tls_free rule → tls_free q = rule →
  (q = rule ∧ default [] (rw_cert raw) = []) ∨
   (r_Allow rule = true ∧ default [] (rw_cert raw) ≠ [] ∧ (auto_cert c q ∨ local_cert q) ∧
    (rw_upstreamSNI raw = None → r_UpstreamSNI q = []) ∧ (r_UpstreamSNI q ≠ [] → validDomain (r_UpstreamSNI q) = true)) →
  (no_cert q ∨ auto_cert c q ∨ local_cert q) ∧ (r_Allow rule = false → no_cert q) ∧
  (default [] (rw_cert raw) ≠ [] → Terminates q = true) ∧ (r_UpstreamTLS q = true → Terminates q = true) ∧
  (r_UpstreamSNI q ≠ [] → validDomain (r_UpstreamSNI q) = true).
Proof.
  intros Hno Hq [[-> Hc]|(Ha & Hc & Hcert & _ & Hsni)].
  - split_and!; [by left|done|done|..]; rewrite Hno; done.
  - assert (Terminates q = true) as Ht.
    { unfold Terminates. destruct Hcert as [Hx|Hx]; [by rewrite (a_cert _ _ Hx)|]. by destruct (c_id _ Hx) as (id & _ & ->). }
    split_and!; [by right|congruence|done..].
Qed.

Lemma buildRule_ok c raw r : buildRule json_args url_parse read_file c raw = Ok r →
  rule_ok c r ∧ rw_listener raw = Some (r_Listener r) ∧ r_Console r = rw_console raw.
Proof.
  intros H. unfold buildRule in H. destruct (rw_pattern raw) as [pattern|]; [|done]. destruct (rw_listener raw) as [listener|]; [|done].
  destruct (find_listener c listener) as [l|] eqn:El; [|done]. cbn [given] in H.
  destruct (pattern_settings _ _) as [r1|] eqn:E1; [|done]. apply pattern_settings_spec in E1 as (kind & chars & re & E1 & Hpat); [|done..].
  destruct (action_settings _ _) as [r2|] eqn:E2; [|done]. apply action_settings_spec in E2 as (allow & host & port & E2 & Hdeny & Htarget).
  destruct (serveSettings _ _ _ _) as [r3|] eqn:E3; [|done]. apply serveSettings_spec in E3 as (routes & E3 & Hnd & Hent & Hr0 & Hr1); [|by subst].
  set (r4 := r3 {{ r_Console := rw_console raw }}) in H.
  destruct (tlsSettings _ _ _ _) as [r5|] eqn:E5; [|done]. apply tlsSettings_spec in E5 as (Ef & Hcert); [|by subst..].
  set (r6 := if Serves r5 then _ else r5) in H.
  destruct (proxySettings _ _) as [r7|] eqn:E7; [|done]. apply speedSettings_spec in H as (a & b & ->).
  assert (r4 = tls_free r4) as Hno by (by subst). rewrite <- Hno in Ef.
  apply proxySettings_spec in E7 as (on & v & -> & Hv & Hon); [|subst r6; destruct (Serves r5); [change (r_Proxy (tls_free r5) = false)|change (r_Proxy (tls_free r5) = false)]; rewrite Ef; by subst].
  destruct (tls_stage c r4 r5 raw Hno Ef Hcert) as (Hc1 & Hc2 & Hc3 & Hc4 & Hc5).
  assert (r_Listener r5 = listener ∧ r_Source r5 = pattern ∧ r_Kind r5 = kind ∧ r_literalChars r5 = chars ∧ r_NoSNI r5 = bool_decide (kind = kindNone) ∧ r_Pattern r5 = re ∧
    r_Allow r5 = allow ∧ r_TargetHost r5 = host ∧ r_TargetPort r5 = port ∧ r_Routes r5 = routes ∧ r_Console r5 = rw_console raw) as (F1 & F2 & F3 & F4 & F5 & F6 & F7 & F8 & F9 & F10 & F11).
  { change (r_Listener (tls_free r5) = listener ∧ r_Source (tls_free r5) = pattern ∧ r_Kind (tls_free r5) = kind ∧ r_literalChars (tls_free r5) = chars ∧ r_NoSNI (tls_free r5) = bool_decide (kind = kindNone) ∧ r_Pattern (tls_free r5) = re ∧
      r_Allow (tls_free r5) = allow ∧ r_TargetHost (tls_free r5) = host ∧ r_TargetPort (tls_free r5) = port ∧ r_Routes (tls_free r5) = routes ∧ r_Console (tls_free r5) = rw_console raw).
    rewrite Ef. by subst. }
  assert (∃ up upv, r6 = r5 {{ r_UpstreamTLS := up; r_UpstreamTLSVerify := upv }} ∧ (up = true → r_UpstreamTLS r5 = true ∧ Serves r5 = false) ∧
    (no_cert r5 → up = false ∧ upv = false)) as (up & upv & E6 & Hup & Hupv).
  { subst r6. destruct (Serves r5) eqn:Es; [by exists false, false|]. exists (r_UpstreamTLS r5), (r_UpstreamTLSVerify r5). split; [by destruct r5|].
    split; [done|]. intros Hx. by rewrite Hx. }
  rewrite E6 in Hon |- *. clear r6 E6.
  split; [|change (Some listener = Some (r_Listener r5) ∧ r_Console r5 = rw_console raw); by rewrite F1].
  assert (rule_ok c (r5 {{ r_UpstreamTLS := up; r_UpstreamTLSVerify := upv }} {{ r_Proxy := on; r_ProxyVersion := v; r_MaxAggregatedSpeed := a; r_MaxSingleConnectionSpeed := b }})); [|by destruct r5].
  assert (r_Allow r1 = false ∧ r_Allow r4 = allow ∧ probe r1 = probe r5) as (G1 & G2 & G3) by (unfold probe; rewrite F6; by subst).
  assert (r_Allow r5 = true → Serves r5 = false → rw_serviceRules raw = [] ∧ rw_console raw = false) as Hplain.
  { intros _ Hs. unfold Serves in Hs. rewrite F10, F11 in Hs. apply orb_false_iff in Hs as [Hs ?]. split; [|done].
    destruct (decide (rw_serviceRules raw = [])) as [|Hne]; [done|]. destruct (Hr1 Hne) as [Hne' _]. by destruct routes. }
  assert (r_Allow r5 = false → routes = [] ∧ no_cert r5) as Hd.
  { intros Ha. rewrite F7 in Ha. split; [|apply Hc2; congruence]. apply Hr0. destruct (decide (rw_serviceRules raw = [])) as [|Hne]; [done|].
    destruct (Hr1 Hne) as (_ & _ & _ & _ & Hal). specialize (Hdeny Ha G1). destruct (rw_action raw); [by rewrite Hdeny in Hal|done]. }
  assert (routes ≠ [] → Terminates r5 = true ∧ rw_proxy raw = None) as Hserve.
  { intros Hne. destruct (decide (rw_serviceRules raw = [])) as [|Hs]; [by destruct Hne; auto|]. destruct (Hr1 Hs) as (_ & Hp & _ & Hx & _). split; [by apply Hc3|done]. }
  split.
  - change (is_Some (find_listener c (r_Listener r5))). rewrite F1, El. eauto.
  - destruct Hpat as (expr & P1 & P2 & P3). exists expr. rewrite E1 in P1, P2, P3. destruct r5; cbn in *. subst; done.
  - change (r_Allow r5 = true → Serves r5 = false → 1 <= r_TargetPort r5 < 2 ^ 16 ∧ is_ok (expand (r_TargetHost r5) [] (probe r5)) = true ∧ (contains (r_TargetHost r5) (ch ":") = true → is_Some (parse_addr (r_TargetHost r5)))).
    intros Ha Hs. destruct (Hplain Ha Hs) as [Hs1 Hs2]. rewrite F8, F9, <- G3. apply Htarget; congruence.
  - change (r_Allow r5 = false → no_cert (r5 {{ r_UpstreamTLS := up; r_UpstreamTLSVerify := upv }} {{ r_Proxy := on; r_ProxyVersion := v; r_MaxAggregatedSpeed := a; r_MaxSingleConnectionSpeed := b }}) ∧ r_Routes r5 = [] ∧ on = false).
    intros Ha. destruct (Hd Ha) as [Hr Hn]. destruct (Hupv Hn) as [-> ->]. split; [unfold no_cert in *; by rewrite Hn|]. split; [congruence|].
    destruct on; [|done]. destruct (Hon eq_refl) as [Hx _]. change (r_Allow r5 = true) in Hx. congruence.
  - destruct Hc1 as [Hx|[Hx|Hx]]; [left|right; left|right; right].
    + destruct (Hupv Hx) as [-> ->]. unfold no_cert in *. by rewrite Hx.
    + destruct Hx as [A1 A2 A3 A4 A5 A6 A7]. by split; destruct r5.
    + destruct Hx as [A1 A2 [B1 B2 B3 B4] A4 A5]. split; [..|split| |]; by destruct r5.
  - change ((up = true → Terminates r5 = true ∧ Serves r5 = false) ∧ (r_UpstreamSNI r5 ≠ [] → validDomain (r_UpstreamSNI r5) = true)).
    split; [|done]. intros Hu. destruct (Hup Hu). auto.
  - change (NoDup (sr_Prefix <$> r_Routes r5) ∧ Forall entry_ok (r_Routes r5) ∧ (r_Routes r5 ≠ [] → Terminates r5 = true ∧ on = false)).
    rewrite F10. split_and!; [done..|]. intros Hne. destruct (Hserve Hne) as [Ht Hp]. split; [done|]. destruct on; [|done]. by destruct (Hon eq_refl).
  - done.
Qed.
End Rules.

(** A rule that loads has as many submatches as its references were tried
    with. *)
Lemma submatches_probe r sni : pattern_ok r → rule_matches r sni = true → length (submatches r sni) = length (probe r).
Proof.
  intros (expr & Hc & Hn & Hp) Hm. unfold probe, submatches, rule_matches in *. rewrite length_replicate.
  apply classify_inv in Hc as Hi. destruct (r_Kind r) eqn:Ek; rewrite bool_decide_decide in Hn; destruct (decide _) in Hn; try done; rewrite Hn in Hp.
  - by rewrite Hp.
  - destruct Hi as (_ & _ & -> & _). unfold compile_re in Hp. rewrite <- (app_nil_r (quote_meta _)), parse_re_quoted in Hp. cbn [fmap option_fmap option_map] in Hp. rewrite Hp.
    assert (∀ l, length (filter (fun i => is_capture i = true) ((RLit <$> l) ++ [])) = O) as Hz;
      [|change (2 = 2 * (length (filter (fun i => is_capture i = true) ((RLit <$> literalName (r_Source r)) ++ [])) + 1))%nat; by rewrite Hz].
    induction l as [|x l IH]; [done|]. rewrite fmap_cons. cbn [app]. by rewrite filter_cons_False.
  - destruct (r_Pattern r) as [re|]; [|done]. cbn. unfold MatchString, FindStringSubmatchIndex in *.
    destruct (match_items _ _ _ _) as [m|] eqn:E; [|done]. apply match_items_length in E. cbn. unfold NumSubexp. lia.
  - destruct (r_Pattern r) as [re|]; [|done]. cbn. unfold MatchString, FindStringSubmatchIndex in *.
    destruct (match_items _ _ _ _) as [m|] eqn:E; [|done]. apply match_items_length in E. cbn. unfold NumSubexp. lia.
Qed.

(** C23: Every rule that loads is one the proxy can run. Its listener exists
    and its pattern is the one of its domain; a deny rule carries no settings
    of an allow rule; a target has a port and, if it has a colon, is an IPv6
    address; a rule with serve entries decrypts, sends no PROXY header, and its
    entries are well formed with different prefixes. Certificates are ACME
    certificates for names the rule's own pattern matches, with a script's
    arguments that expand, or a local CA's for different addresses and host
    names under a folder the system takes. And for every name the rule
    matches, its decision is what it says: a target never fails to expand, and
    a connection is only sent to a host that is an IP address or host
    characters, at a port that is one. *)
Theorem built_rule_ok json_args url_parse read_file (c : Config) (raw : rawRule) (r : Rule) :
  buildRule json_args url_parse read_file c raw = Ok r →
  rule_ok c r ∧
  ∀ sni, rule_matches r sni = true →
    let d := decide_rule r sni (submatches r sni) in
    (d_Allow d = true → r_Allow r = true ∧ (Serves r = false → target_host_ok (d_Host d) = true ∧ 1 <= d_Port d < 2 ^ 16)) ∧
    (d_Allow d = false → r_Allow r = false ∨ ∃ host, target_host_ok host = false ∧ d_Err d = Some (InvalidHost (r_Line r) host)).
Proof.
  intros [Hb _]%buildRule_ok. split; [done|]. intros sni Hm. cbv zeta. unfold decide_rule.
  destruct (r_Allow r) eqn:Ea; [|by cbn; naive_solver]. destruct (Serves r) eqn:Es; [by cbn; naive_solver|]. cbn [negb].
  destruct (k_target _ _ Hb Ea Es) as (Hport & He & _). pose proof (submatches_probe r sni (k_pattern _ _ Hb) Hm) as Hl.
  unfold expand in *. rewrite (expand_go_ok _ _ _ sni _ (submatches r sni) _ []) in He by done.
  destruct (expand_go _ _ sni _ _) as [host|]; [|done]. destruct (target_host_ok host) eqn:Eh; cbn; [by auto|].
  split; [done|]. intros _. right. eauto.
Qed.

(** A wildcard rule whose target names the label it matched, and a rule for
    clients without a name with a local CA's certificate for an address. *)
Definition w_args (_ : bytes) : option (list bytes) := None.
Definition w_cfg : Config := (defaultConfig []) {{ c_Listeners := [new_listener (lit "web") 1 (lit "0.0.0.0") [lit "0.0.0.0"] 443] }}.
Definition w_raw : rawRule :=
  zero_raw {{ rw_line := 7; rw_listener := Some (lit "web"); rw_pattern := Some (lit "*.example.com"); rw_target := Some (lit "${1}.lan:8443");
              rw_cert := Some (lit "Local-CA"); rw_proxy := Some (lit "true") }}.
Definition w_raw2 : rawRule :=
  zero_raw {{ rw_line := 9; rw_listener := Some (lit "web"); rw_pattern := Some noSNI; rw_target := Some (lit "[::1]:443");
              rw_cert := Some (lit "local-ca:ca002"); rw_certDomains := Some (lit "10.0.0.1; box.lan") }}.
Definition built (raw : rawRule) : Rule :=
  match buildRule w_args w_url w_secret w_cfg raw with Ok r => r | Err _ => zero_rule end.

Lemma built_rule_ok_witness :
  (rule_ok w_cfg (built w_raw) ∧ r_UpstreamTLS (built w_raw) = true ∧
   d_Host (decide_rule (built w_raw) (lit "api.example.com") (submatches (built w_raw) (lit "api.example.com"))) = lit "api.lan") ∧
  rule_ok w_cfg (built w_raw2) ∧ r_certKey (built w_raw2) = lit "10.0.0.1,box.lan".
Proof.
  split; [split; [|split; vm_compute; reflexivity]|split; [|vm_compute; reflexivity]].
  - apply (built_rule_ok w_args w_url w_secret w_cfg w_raw). vm_compute. reflexivity.
  - apply (built_rule_ok w_args w_url w_secret w_cfg w_raw2). vm_compute. reflexivity.
Defined.
