(* ===== verification/StaticFiles.v ===== *)
(** StaticFiles: a static route's answers ([serveFile], [rootDir] of
    [serve.go], [serveListing] of [serve_listing.go]). The folder
    ([os.Root]) is a parameter; every name looked up in it is recorded. *)

From S2P Require Import Prelude GoStr Rules Http.

(** [fs.FileInfo]; a link's is its own where the folder was read, its
    target's where it was followed. *)
Record finfo := mkInfo { fi_Dir : bool; fi_Regular : bool; fi_Symlink : bool; fi_Size : Z; fi_ModTime : Z }.

(** [os.Root]: [Stat], [Open] (with the open file's [Stat]) and [ReadDir];
    [None] is an error. *)
Record root := mkRoot {
  root_stat : bytes → option finfo;
  root_open : bytes → option finfo;
  root_readdir : bytes → option (list (bytes * option finfo));
}.

(** * The listing *)

Definition maxListing : nat := 5000.

Definition url_plain (c : Z) : bool := is_digit c || is_upper c || is_lower c || contains (lit "-._~!$&'()*+,;=:@") c.
(** [urlPath.String] *)
Definition urlPath (s : bytes) : bytes :=
  concat ((fun c => if url_plain c then [c] else [ch "%"; upper_hex (c / 16); upper_hex (c mod 16)]) <$> s).

Record listingEntry := mkListed { le_Name : bytes; le_Href : bytes; le_Dir : bool; le_Size : Z; le_Modified : Z }.
Record listingCrumb := mkCrumb { cr_Name : bytes; cr_Href : bytes }.
Record listingData := mkListing {
  ld_Title : bytes; ld_Host : bytes; ld_Crumbs : list listingCrumb; ld_Parent : bool;
  ld_Entries : list listingEntry; ld_Folders : Z; ld_Files : Z; ld_Total : Z; ld_Hidden : Z;
}.

(** What is known of a name once a link is followed, and the names looked up. *)
Definition followed (r : root) (name n : bytes) (info : option finfo) : option finfo * list bytes :=
  match info with
  | Some i => if fi_Symlink i then (root_stat r (path_join name n), [path_join name n]) else (Some i, [])
  | None => (None, [])
  end.

Definition entry_of (n : bytes) (i : finfo) : listingEntry :=
  if fi_Dir i then mkListed n (urlPath n ++ [slash]) true 0 (fi_ModTime i)
  else mkListed n (urlPath n) false (fi_Size i) (fi_ModTime i).

(** The loop over a folder's names: entries (the last first), those past
    [maxListing], and the names looked up. *)
Fixpoint list_names (r : root) (name : bytes) (all : list (bytes * option finfo)) (acc : list listingEntry) (hidden : Z)
    : list listingEntry * Z * list bytes :=
  match all with
  | [] => (acc, hidden, [])
  | (n, info) :: all =>
      if has_prefix n dot then list_names r name all acc hidden
      else
        let '(info, looked) := followed r name n info in
        let '(acc, hidden, more) :=
          match info with
          | None => list_names r name all acc hidden
          | Some i =>
              if negb (fi_Dir i) && negb (fi_Regular i) then list_names r name all acc hidden
              else if (maxListing <=? length acc)%nat then list_names r name all acc (hidden + 1)
              else list_names r name all (entry_of n i :: acc) hidden
          end in
        (acc, hidden, looked ++ more)
  end.

(** Folders first, then by name. *)
Definition listed_less (a b : listingEntry) : bool :=
  if Bool.eqb (le_Dir a) (le_Dir b) then str_less (to_lower (le_Name a)) (to_lower (le_Name b)) else le_Dir a.

(** The path as links. *)
Fixpoint crumbs (at_ : bytes) (parts : list bytes) : list listingCrumb :=
  match parts with
  | [] => []
  | p :: parts => let at_ := at_ ++ urlPath p ++ [slash] in mkCrumb p at_ :: crumbs at_ parts
  end.

(** [serveListing]: the page's data, if the folder can be read. *)
Definition serveListing (host path : bytes) (r : root) (name : bytes) : option listingData * list bytes :=
  match root_open r name with
  | None => (None, [name])
  | Some _ =>
      match root_readdir r name with
      | None => (None, [name])
      | Some all =>
          let '(acc, hidden, looked) := list_names r name all [] 0 in
          let es := reverse acc in
          let parts := match split_byte (trim path (lit "/")) slash with [] :: _ => [] | l => l end in
          (Some {| ld_Title := lit "/" ++ join (lit "/") parts ++ (if bool_decide (parts = []) then [] else lit "/");
                   ld_Host := host;
                   ld_Crumbs := mkCrumb host (lit "/") :: crumbs (lit "/") parts;
                   ld_Parent := negb (bool_decide (parts = []));
                   ld_Entries := stable_sort listed_less es;
                   ld_Folders := len (filter (fun e => le_Dir e = true) es);
                   ld_Files := len (filter (fun e => le_Dir e = false) es);
                   ld_Total := foldr Z.add 0 (le_Size <$> es);
                   ld_Hidden := hidden |}, name :: looked)
      end
  end.

(** * Files *)

Inductive file_answer :=
| MethodNotAllowed
| HiddenNotFound                      (* a part that starts with "." *)
| ToFolder (path : bytes)             (* a redirect *)
| IndexFile (name : bytes)            (* the folder's index, with its content *)
| FolderForbidden                     (* no index, and no listing *)
| ListingFailed
| Listing (d : listingData)
| FileRedirect                        (* the file server's own redirects *)
| FileNotFound
| FileContent (name : bytes).

(** [rootDir.Open]: a file; a folder is not there. *)
Definition root_name (p : bytes) : bytes :=
  let n := trim_prefix (path_clean p) (lit "/") in if bool_decide (n = []) then dot else n.
Definition rootDir_Open (r : root) (name : bytes) : option finfo * list bytes :=
  let name := root_name (slash :: name) in
  (match root_open r name with Some i => if fi_Dir i then None else Some i | None => None end, [name]).

(** [http.FileServer] over it: [/index.html] goes to its folder, a file asked
    for as a folder to the file. *)
Definition file_server (r : root) (p : bytes) : file_answer * list bytes :=
  if has_suffix p (lit "/index.html") then (FileRedirect, [])
  else
    let '(f, looked) := rootDir_Open r (path_clean p) in
    (match f with
     | None => FileNotFound
     | Some _ => if has_suffix p (lit "/") then FileRedirect else FileContent (root_name p)
     end, looked).

(** A part no request reaches. *)
Definition hidden_part (i : nat) (part : bytes) : bool :=
  has_prefix part dot && negb ((i =? 1)%nat && bool_decide (part = lit ".well-known")).
Fixpoint any_hidden (i : nat) (parts : list bytes) : bool :=
  match parts with [] => false | p :: parts => hidden_part i p || any_hidden (S i) parts end.

(** The first index a folder has. *)
Fixpoint find_index (r : root) (name : bytes) (indexes : list bytes) : option bytes * list bytes :=
  match indexes with
  | [] => (None, [])
  | ix :: indexes =>
      let p := path_join name ix in
      match root_open r p with
      | Some i => if fi_Regular i then (Some p, [p]) else let '(o, l) := find_index r name indexes in (o, p :: l)
      | None => let '(o, l) := find_index r name indexes in (o, p :: l)
      end
  end.

(** [serveFile]: the answer, and the names looked up in the folder. *)
Definition serveFile (q : request) (s : ServiceRoute) (r : root) : file_answer * list bytes :=
  if negb (bool_decide (rq_Method q = lit "GET")) && negb (bool_decide (rq_Method q = lit "HEAD")) then (MethodNotAllowed, [])
  else
    let rest := slash :: trim_prefix (rq_Path q) (sr_Prefix s) in
    if any_hidden 0 (split_byte (path_clean rest) slash) then (HiddenNotFound, [])
    else
      let name := root_name rest in
      match root_stat r name with
      | Some i =>
          if fi_Dir i then
            if negb (has_suffix (rq_Path q) (lit "/")) then (ToFolder (rq_Path q ++ lit "/"), [name])
            else
              let '(ix, looked) := find_index r name [lit "index.html"; lit "index.htm"] in
              match ix with
              | Some p => (IndexFile p, name :: looked)
              | None =>
                  if negb (sr_Listing s) then (FolderForbidden, name :: looked)
                  else
                    let '(d, more) := serveListing (rq_Host q) (rq_Path q) r name in
                    (match d with Some d => Listing d | None => ListingFailed end, name :: looked ++ more)
              end
          else let '(a, looked) := file_server r rest in (a, name :: looked)
      | None => let '(a, looked) := file_server r rest in (a, name :: looked)
      end.

(** * What is looked up *)

(** A name inside the folder no part of which is hidden, [.well-known] at its
    top aside. *)
Definition visible (name : bytes) : Prop :=
  name = dot ∨ ∃ cs, name = join [slash] cs ∧ Forall plain cs ∧
    ∀ i c, cs !! i = Some c → head c = Some (ch ".") → i = 0%nat ∧ c = lit ".well-known".

(** The same as the code checks it. *)
Definition seen_clean (name : bytes) : Prop :=
  name = dot ∨ ∃ cs, cs ≠ [] ∧ name = join [slash] cs ∧ Forall plain cs ∧ any_hidden 1 cs = false.

Lemma any_hidden_none n cs : any_hidden n cs = false → ∀ i c, cs !! i = Some c → head c = Some (ch ".") → (n + i = 1)%nat ∧ c = lit ".well-known".
Proof.
  revert n. induction cs as [|p cs IH]; intros n; cbn; [done|]. intros [Hp Hcs]%orb_false_iff i c. destruct i as [|i]; cbn.
  - intros [= ->] Hc. unfold hidden_part in Hp. assert (has_prefix c dot = true) as Hd by (destruct c as [|b c]; [done|]; by injection Hc as ->).
    rewrite Hd in Hp. cbn in Hp. apply negb_false_iff, andb_true_iff in Hp as [Hn Hw]. apply bool_decide_eq_true in Hw. apply Nat.eqb_eq in Hn. split; [lia|done].
  - intros Hi Hc. destruct (IH _ Hcs i c Hi Hc). split; [lia|done].
Qed.

Lemma seen_clean_visible l : Forall seen_clean l → Forall visible l.
Proof.
  intros H. eapply Forall_impl; [exact H|]. intros name [->|(cs & Hne & -> & Hp & Hh)]; [by left|right]. exists cs. split_and!; [done..|].
  intros i c Hi Hc. destruct (any_hidden_none _ _ Hh i c Hi Hc). split; [lia|done].
Qed.

Lemma any_hidden_app i l k : any_hidden i (l ++ k) = any_hidden i l || any_hidden (i + length l) k.
Proof.
  revert i. induction l as [|p l IH]; intros i; cbn; [by rewrite Nat.add_0_r|]. rewrite IH, orb_assoc. do 2 f_equal. lia.
Qed.

(** A folder's own names. *)
Definition base_name (n : bytes) : Prop := n ≠ [] ∧ (slash ∉ n).
#[export] Instance base_name_dec n : Decision (base_name n).
Proof. unfold base_name. apply _. Defined.

Lemma base_plain n : base_name n → has_prefix n dot = false → plain n.
Proof. intros [H1 H2] Hp. split_and!; [done..| |]; by intros ->. Qed.

Lemma visible_join name n : seen_clean name → plain n → has_prefix n dot = false → seen_clean (path_join name n).
Proof.
  intros Hv Hn Hp. right. destruct Hv as [->|(cs & Hne & -> & Hcs & Hh)].
  - rewrite path_join_dot by done. exists [n]. split_and!; [done|done|by apply Forall_singleton|]. unfold any_hidden, hidden_part. by rewrite Hp.
  - rewrite path_join_plain by done. exists (cs ++ [n]). split_and!; [by destruct cs|done|apply Forall_app; auto|].
    rewrite any_hidden_app, Hh. unfold any_hidden, hidden_part. by rewrite Hp.
Qed.

(** The name [serveFile] takes from a path with no hidden part. *)
Lemma root_name_visible s : any_hidden 0 (split_byte (path_clean (slash :: s)) slash) = false →
  seen_clean (root_name (slash :: s)) ∧ root_name (slash :: path_clean (slash :: s)) = root_name (slash :: s).
Proof.
  destruct (path_clean_rooted s) as (cs & Hcs & Hc & _). unfold root_name. rewrite Hc, path_clean_again, split_clean by done.
  intros Hh. split; [|done]. change (trim_prefix (slash :: join [slash] cs) (lit "/")) with (join [slash] cs).
  destruct (decide (cs = [])) as [->|Hne]; [by left|]. right. exists cs.
  rewrite bool_decide_false in Hh by done. rewrite bool_decide_false by (by rewrite join_plain_nil). done.
Qed.

Lemma find_index_visible r name l : seen_clean name → Forall (fun ix => plain ix ∧ has_prefix ix dot = false) l →
  Forall seen_clean (find_index r name l).2.
Proof.
  intros Hv. induction 1 as [|ix l [Hp Hd] _ IH]; cbn; [done|]. pose proof (visible_join name ix Hv Hp Hd).
  destruct (find_index r name l). destruct (root_open r _) as [i|]; [destruct (fi_Regular i)|]; cbn in *; auto.
Qed.

Definition reads_names (r : root) : Prop := ∀ name all, root_readdir r name = Some all → Forall (fun e => base_name e.1) all.

Lemma list_names_visible r name all acc hidden : seen_clean name → Forall (fun e => base_name e.1) all →
  Forall seen_clean (list_names r name all acc hidden).2.
Proof.
  intros Hv. intros H. revert acc hidden. induction H as [|[n info] all Hn _ IH]; intros acc hidden; cbn [list_names]; [done|].
  destruct (has_prefix n dot) eqn:Hd; [done|]. cbn in Hn. pose proof (visible_join name n Hv (base_plain n Hn Hd) Hd) as Hj.
  unfold followed. destruct info as [i|]; [|destruct (list_names r name all acc hidden) as [[? ?] ?] eqn:E; specialize (IH acc hidden); by rewrite E in IH].
  assert (∀ o looked, Forall seen_clean looked → Forall seen_clean (let '(acc, hidden, more) := match o with None => list_names r name all acc hidden
     | Some i => if negb (fi_Dir i) && negb (fi_Regular i) then list_names r name all acc hidden
        else if (maxListing <=? length acc)%nat then list_names r name all acc (hidden + 1) else list_names r name all (entry_of n i :: acc) hidden end
     in (acc, hidden, looked ++ more)).2) as Hall.
  { intros o looked Hl. destruct o as [i'|]; [destruct (negb _ && negb _); [|destruct (_ <=? _)%nat]|];
      match goal with |- context[list_names r name all ?a ?h] => specialize (IH a h); destruct (list_names r name all a h) as [[? ?] ?] end;
      cbn in *; apply Forall_app; auto. }
  destruct (fi_Symlink i); [apply (Hall _ [_])|apply (Hall (Some i) [])]; auto.
Qed.

Lemma serveListing_visible host path r name : reads_names r → seen_clean name → Forall seen_clean (serveListing host path r name).2.
Proof.
  intros Hr Hv. unfold serveListing. destruct (root_open r name); [|cbn; auto]. destruct (root_readdir r name) as [all|] eqn:E; [|cbn; auto].
  pose proof (list_names_visible r name all [] 0 Hv (Hr _ _ E)). destruct (list_names r name all [] 0) as [[? ?] ?]. cbn in *. auto.
Qed.

Lemma file_server_visible r s : any_hidden 0 (split_byte (path_clean (slash :: s)) slash) = false →
  Forall seen_clean (file_server r (slash :: s)).2.
Proof.
  intros [Hv He]%root_name_visible. unfold file_server. destruct (has_suffix _ _); [done|].
  unfold rootDir_Open. rewrite He. cbn. auto.
Qed.

(** * Links *)

(** A link's text is its name again. *)
Lemma urlPath_unescape s : bytes_ok s → path_unescape (urlPath s) = Some s.
Proof.
  intros Hs. rewrite <- (unescape_map (fun c => negb (url_plain c)) s) by done. f_equal. unfold urlPath. f_equal.
  apply list_fmap_ext. intros _ c _. by destruct (url_plain c).
Qed.

Lemma url_plain_slash s k : bytes_ok s → path_unescape (urlPath s ++ k) = (app s) <$> path_unescape k.
Proof.
  intros Hs. unfold urlPath. induction Hs as [|c s Hc Hs IH]; [cbn; by destruct (path_unescape k)|]. rewrite fmap_cons. change (concat (?x :: ?l)) with (x ++ concat l).
  rewrite <- app_assoc. destruct (url_plain c) eqn:E; cbn [app]; [rewrite unescape_plain by (intros ->; vm_compute in E; done)|rewrite unescape_hex by done];
    rewrite IH; by destruct (path_unescape k).
Qed.

(** * Entries *)

(** An entry a listing may show. *)
Definition shown_entry (e : listingEntry) : Prop :=
  has_prefix (le_Name e) dot = false ∧
  (bytes_ok (le_Name e) → path_unescape (le_Href e) = Some (le_Name e ++ if le_Dir e then [slash] else [])).

Lemma entry_of_shown n i : has_prefix n dot = false → shown_entry (entry_of n i).
Proof.
  intros Hn. unfold entry_of. destruct (fi_Dir i); split; cbn; [done| |done|].
  - intros Hb. by rewrite url_plain_slash.
  - intros Hb. by rewrite urlPath_unescape, app_nil_r.
Qed.

Lemma list_names_shown r name all acc hidden : Forall shown_entry acc → (length acc <= maxListing)%nat →
  let '(acc', _, _) := list_names r name all acc hidden in Forall shown_entry acc' ∧ (length acc' <= maxListing)%nat.
Proof.
  revert acc hidden. induction all as [|[n info] all IH]; intros acc hidden Ha Hl; cbn [list_names]; [done|].
  destruct (has_prefix n dot) eqn:Hd; [by apply IH|]. destruct (followed r name n info) as [[i|] looked].
  2: { specialize (IH acc hidden Ha Hl). by destruct (list_names r name all acc hidden) as [[? ?] ?]. }
  destruct (negb (fi_Dir i) && negb (fi_Regular i)); [|destruct (Nat.leb_spec maxListing (length acc))];
    match goal with |- context[list_names r name all ?a ?h] => specialize (IH a h); destruct (list_names r name all a h) as [[? ?] ?] end; auto.
  apply IH; [constructor; [by apply entry_of_shown|done]|cbn [length]; lia].
Qed.

Lemma file_server_no_listing r p d : (file_server r p).1 ≠ Listing d.
Proof.
  unfold file_server. destruct (has_suffix p (lit "/index.html")); [done|]. destruct (rootDir_Open r _) as [[i|] looked]; [|done]. by destruct (has_suffix _ _).
Qed.

Lemma serveFile_clean (q : request) (s : ServiceRoute) (r : root) :
  reads_names r →
  let '(a, looked) := serveFile q s r in
  Forall seen_clean looked ∧
  ((rq_Method q ≠ lit "GET" ∧ rq_Method q ≠ lit "HEAD") → a = MethodNotAllowed ∧ looked = []) ∧
  match a with
  | Listing d => sr_Listing s = true ∧ (length (ld_Entries d) <= maxListing)%nat ∧ Forall shown_entry (ld_Entries d)
  | _ => True
  end.
Proof.
  intros Hr. unfold serveFile. destruct (negb _ && negb _) eqn:Em; [done|].
  assert (¬ (rq_Method q ≠ lit "GET" ∧ rq_Method q ≠ lit "HEAD")) as Hm.
  { intros [H1 H2]. by rewrite !bool_decide_false in Em by done. }
  destruct (any_hidden _ _) eqn:Eh; [done|]. pose proof (root_name_visible _ Eh) as [Hv _].
  pose proof (file_server_visible r _ Eh) as Hf. set (name := root_name _) in *.
  destruct (root_stat r name) as [i|]; [destruct (fi_Dir i)|].
  2-3: pose proof (file_server_no_listing r (slash :: trim_prefix (rq_Path q) (sr_Prefix s))) as Hn; destruct (file_server r _) as [a looked];
    split; [by constructor|]; split; [done|]; by destruct a; try destruct (Hn _ eq_refl).
  destruct (has_suffix (rq_Path q) (lit "/")); [cbn [negb]|by split; [auto|]].
  assert (Forall seen_clean (find_index r name [lit "index.html"; lit "index.htm"]).2) as Hi.
  { apply find_index_visible; [done|]. apply (bool_decide_unpack _). by vm_compute. }
  destruct (find_index r name _) as [[p|] looked]; [by split; [cbn in *; auto|]|].
  destruct (sr_Listing s); [cbn [negb]|by split; [cbn in *; auto|]].
  pose proof (serveListing_visible (rq_Host q) (rq_Path q) r name Hr Hv) as Hl. unfold serveListing in *.
  destruct (root_open r name); [destruct (root_readdir r name) as [all|]|]; cbn in *; [|by split; [constructor; [done|apply Forall_app; auto]|]..].
  pose proof (list_names_shown r name all [] 0 (Forall_nil_2 _) ltac:(cbn; lia)) as Hs. destruct (list_names r name all [] 0) as [[acc h] more].
  cbn in *. split; [constructor; [done|apply Forall_app; auto]|]. split; [done|]. destruct Hs as [Hs1 Hs2].
  rewrite stable_sort_perm, length_reverse. by rewrite Forall_reverse.
Qed.

(** * Properties *)

(** C22: A static route looks up no name outside its folder and none with a
    hidden part (other than [.well-known] at the top), whatever the request's
    path; it answers other methods than GET and HEAD with nothing of the
    folder; and a listing, shown only where the route allows one, names at
    most [maxListing] entries, none hidden, each link naming its entry. *)
Theorem static_confined (q : request) (s : ServiceRoute) (r : root) :
  reads_names r →
  let '(a, looked) := serveFile q s r in
  Forall visible looked ∧
  ((rq_Method q ≠ lit "GET" ∧ rq_Method q ≠ lit "HEAD") → a = MethodNotAllowed ∧ looked = []) ∧
  match a with
  | Listing d => sr_Listing s = true ∧ (length (ld_Entries d) <= maxListing)%nat ∧ Forall shown_entry (ld_Entries d)
  | _ => True
  end.
Proof.
  intros Hr. destruct (serveFile q s r) as [a looked] eqn:E. enough (Forall seen_clean looked ∧
    ((rq_Method q ≠ lit "GET" ∧ rq_Method q ≠ lit "HEAD") → a = MethodNotAllowed ∧ looked = []) ∧
    match a with Listing d => sr_Listing s = true ∧ (length (ld_Entries d) <= maxListing)%nat ∧ Forall shown_entry (ld_Entries d) | _ => True end) as (H & ?)
    by (split; [by apply seen_clean_visible|done]).
  pose proof (serveFile_clean q s r Hr) as H. by rewrite E in H.
Qed.

(** * Witnesses *)

Definition w_file (size : Z) : finfo := mkInfo false true false size 0.
Definition w_folder : finfo := mkInfo true false false 0 0.
Definition w_link : finfo := mkInfo false false true 0 0.
Definition w_root : root := {|
  root_stat := fun n => if bool_decide (n = dot) then Some w_folder else if bool_decide (n = lit "a b") then Some (w_file 7) else None;
  root_open := fun n => if bool_decide (n = dot) then Some w_folder else None;
  root_readdir := fun n => if bool_decide (n = dot) then Some [(lit ".secret", Some (w_file 1)); (lit "b.txt", Some (w_file 2)); (lit "sub", Some w_folder); (lit "a b", Some w_link)] else None;
|}.
Definition w_docs : ServiceRoute :=
  mkServiceRoute (lit "serve 1") 3 (lit "static_content") (lit "/docs/") None false [] true (lit "/srv") true [] None [] false [] [] [] [].
Definition w_get (path : bytes) : request :=
  mkRequest (lit "GET") (1, 1) (lit "www.example.com") [] [] path [] [] ∅ (lit "192.0.2.1:5000") None None.

Lemma static_confined_witness :
  (serveFile (w_get (lit "/docs/../.secret")) w_docs w_root).1 = HiddenNotFound ∧
  (le_Href <$> match (serveFile (w_get (lit "/docs/")) w_docs w_root).1 with Listing d => ld_Entries d | _ => [] end) = [lit "sub/"; lit "a%20b"; lit "b.txt"] ∧
  (let '(a, looked) := serveFile (w_get (lit "/docs/")) w_docs w_root in
   Forall visible looked ∧
   ((rq_Method (w_get (lit "/docs/")) ≠ lit "GET" ∧ rq_Method (w_get (lit "/docs/")) ≠ lit "HEAD") → a = MethodNotAllowed ∧ looked = []) ∧
   match a with
   | Listing d => sr_Listing w_docs = true ∧ (length (ld_Entries d) <= maxListing)%nat ∧ Forall shown_entry (ld_Entries d)
   | _ => True
   end).
Proof.
  split; [vm_compute; reflexivity|]. split; [vm_compute; reflexivity|]. apply (static_confined (w_get (lit "/docs/")) w_docs w_root).
  intros name all. unfold w_root, root_readdir. case_bool_decide; [|done]. injection 1 as <-.
  apply (bool_decide_unpack _). by vm_compute.
Defined.
