(* ===== verification/ReverseProxy.v ===== *)
(** ReverseProxy: what a reverse_proxy route sends to its target
    ([reverseProxy]'s [Rewrite] and [forwardedHeader] of [serve.go],
    [setIdentityHeaders] of [oidc.go], [identityAssertion] of
    [identity.go]). JSON, HMAC-SHA256 and the random id are parameters. *)

From S2P Require Import Prelude GoStr NetIP Rules Config Password ServeConfig Http.

(** * Forwarded *)

(** [strconv.Quote] of ASCII: other bytes as if no rune were printable. *)
Definition quote_char (c : Z) : bytes :=
  if c =? 34 then [92; 34] else if c =? 92 then [92; 92]
  else if (32 <=? c) && (c <=? 126) then [c]
  else if c =? 7 then lit "\a" else if c =? 8 then lit "\b" else if c =? 12 then lit "\f"
  else if c =? 10 then lit "\n" else if c =? 13 then lit "\r" else if c =? 9 then lit "\t" else if c =? 11 then lit "\v"
  else lit "\x" ++ to_lower [upper_hex (c / 16); upper_hex (c mod 16)].
Definition quote (v : bytes) : bytes := [34] ++ concat (quote_char <$> v) ++ [34].

Definition quote_forwarded (v : bytes) : bytes := if contains_any v ([34; 92] ++ lit ":[] ") then quote v else v.
(** [forwardedHeader] *)
Definition forwardedHeader (client host : bytes) : bytes :=
  let client := if contains client (ch ":") then lit "[" ++ client ++ lit "]" else client in
  lit "for=" ++ quote_forwarded client ++ (if bool_decide (host = []) then [] else lit ";host=" ++ quote_forwarded host) ++ lit ";proto=https".

(** * Identity *)

Definition identityHeader : bytes := lit "X-OIDC-Assertion".
Definition identityLifetime : Z := 60.
Definition identityHeaders : list bytes :=
  [lit "X-Forwarded-User"; lit "X-Forwarded-Email"; lit "X-Forwarded-Groups"; lit "X-Forwarded-Roles"; lit "X-Forwarded-MFA"].

(** No control characters in a header. *)
Definition clean_text (s : bytes) : bytes := filter (fun c => ¬ c < 32 ∧ c ≠ 127) s.
Definition bool_text (b : bool) : bytes := if b then lit "true" else lit "false".

Definition set_if (c : bool) (h : Header) (k v : bytes) : Header := if c then hdr_set h k v else h.
Definition named (s : bytes) : bool := negb (bool_decide (s = [])).

(** [setIdentityHeaders] *)
Definition setIdentityHeaders (h : Header) (id : option oidcIdentity) : Header :=
  let h := foldl hdr_del h identityHeaders in
  match id with
  | None => h
  | Some id =>
      let h := hdr_set h (lit "X-Forwarded-User") (clean_text (id_User id)) in
      let h := set_if (named (id_Email id)) h (lit "X-Forwarded-Email") (clean_text (id_Email id)) in
      let h := set_if (negb (bool_decide (id_Groups id = []))) h (lit "X-Forwarded-Groups") (clean_text (join (lit ",") (id_Groups id))) in
      let h := set_if (negb (bool_decide (id_Roles id = []))) h (lit "X-Forwarded-Roles") (clean_text (join (lit ",") (id_Roles id))) in
      set_if (named (id_Subject id)) h (lit "X-Forwarded-MFA") (bool_text (id_MFA id))
  end.

Inductive json := JStr (s : bytes) | JInt (n : Z) | JBool (b : bool) | JList (l : list bytes).

(** [base64.RawURLEncoding] *)
Definition b64_url (b : bytes) : bytes := (fun c => if c =? ch "+" then ch "-" else if c =? ch "/" then ch "_" else c) <$> b64_encode b.

Section ReverseProxy.
Context (json_marshal : list (string * json) → bytes).   (* json.Marshal of a map *)
Context (hmac_sha256 : bytes → bytes → bytes).           (* hmac.New(sha256.New, key) *)

(** [identityAssertion]; [jti] is its random id, [now] in seconds. *)
Definition identityAssertion (rule : Rule) (s : ServiceRoute) (id : oidcIdentity) (client method path : bytes) (now : Z) (jti : bytes) : bytes :=
  let claims :=
    [("iss", JStr (lit "tlsproxy")); ("aud", JStr (r_Source rule ++ sr_Prefix s)); ("sub", JStr (id_User id));
     ("ip", JStr client); ("htm", JStr method); ("htu", JStr path); ("iat", JInt now); ("exp", JInt (now + identityLifetime)); ("jti", JStr jti)]%string in
  let claims := claims ++
    (if named (sr_OIDC s) then
       [("auth", JStr (lit "oidc:" ++ sr_OIDC s)); ("mfa", JBool (id_MFA id)); ("groups", JList (id_Groups id)); ("roles", JList (id_Roles id))]%string ++
       (if named (id_Email id) then [("email"%string, JStr (id_Email id))] else [])
     else [("auth"%string, JStr (lit "basic_auth:" ++ sr_BasicAuth s))]) in
  let input := b64_url (json_marshal [("alg", JStr (lit "HS256")); ("typ", JStr (lit "JWT"))]%string) ++ lit "." ++ b64_url (json_marshal claims) in
  input ++ lit "." ++ b64_url (hmac_sha256 (sr_identitySecret s) input).

(** * The rewrite *)

Definition serverName : bytes := lit "tlsproxy_go_quick".
Definition version : bytes := lit "v1.6.0".

(** The path sent on: path and raw path. *)
Definition strip_path (s : ServiceRoute) (In Out : request) : bytes * bytes :=
  if negb (sr_StripPrefix s) then (rq_Path Out, rq_RawPath Out)
  else
    let '(rest, ok) := cut_prefix (escaped_path (rq_Path In) (rq_RawPath In)) (sr_Prefix s) in
    let rest := if ok then rest else trim_prefix (rq_Path In) (sr_Prefix s) in
    let rest := if has_prefix rest (lit "/") then rest else lit "/" ++ rest in
    match path_unescape rest with Some p => (p, rest) | None => (rq_Path Out, rq_RawPath Out) end.

Definition client_of (In : request) : bytes :=
  match split_host_port (rq_RemoteAddr In) with Some (client, _) => client | None => rq_RemoteAddr In end.
Definition local_port (In : request) : option bytes := local ← rq_Local In; snd <$> split_host_port local.
Definition stripped_prefix (s : ServiceRoute) : bytes := if sr_StripPrefix s then trim_suffix (sr_Prefix s) (lit "/") else [].
Definition out_host (s : ServiceRoute) (In : request) : bytes := if named (sr_ForceHost s) then sr_ForceHost s else rq_Host In.
Definition via (In : request) : bytes := itoa (rq_Proto In).1 ++ lit "." ++ itoa (rq_Proto In).2 ++ lit " " ++ serverName.
Definition assertion (rule : Rule) (s : ServiceRoute) (In : request) (method path : bytes) (now : Z) (jti : bytes) : option bytes :=
  if named (sr_identitySecret s) then (fun id => identityAssertion rule s id (client_of In) method path now jti) <$> rq_User In else None.

(** Every header but [Via]. *)
Definition forwarded_headers (rule : Rule) (s : ServiceRoute) (In : request) (method path : bytes) (now : Z) (jti : bytes) (h : Header) : Header :=
  let h := hdr_set h (lit "X-Forwarded-For") (client_of In) in
  let h := hdr_set h (lit "X-Real-IP") (client_of In) in
  let h := hdr_set h (lit "X-Forwarded-Proto") (lit "https") in
  let h := hdr_del h (lit "X-Forwarded-Host") in
  let h := set_if (named (rq_Host In)) h (lit "X-Forwarded-Host") (rq_Host In) in
  let h := hdr_del h (lit "X-Forwarded-Port") in
  let h := match local_port In with Some p => hdr_set h (lit "X-Forwarded-Port") p | None => h end in
  let h := hdr_del h (lit "X-Forwarded-Prefix") in
  let h := set_if (named (stripped_prefix s)) h (lit "X-Forwarded-Prefix") (stripped_prefix s) in
  let h := setIdentityHeaders h (rq_User In) in
  let h := hdr_del h identityHeader in
  let h := match assertion rule s In method path now jti with Some a => hdr_set h identityHeader a | None => h end in
  let h := hdr_set h (lit "Forwarded") (forwardedHeader (client_of In) (rq_Host In)) in
  hdr_set h (lit "X-Forwarded-By") (serverName ++ lit "/" ++ trim_prefix version (lit "v")).
Definition out_headers (rule : Rule) (s : ServiceRoute) (In : request) (method path : bytes) (now : Z) (jti : bytes) (h : Header) : Header :=
  hdr_add (forwarded_headers rule s In method path now jti h) (lit "Via") (via In).

(** [Rewrite]: the request sent, from the one received and the copy
    [ReverseProxy] made of it. [None] is a route without a target. *)
Definition rewrite (rule : Rule) (s : ServiceRoute) (now : Z) (jti : bytes) (In Out : request) : option request :=
  u ← sr_Target s;
  let '(path, raw) := strip_path s In Out in
  Some (mkRequest (rq_Method Out) (rq_Proto Out) (out_host s In) (u_Scheme u) (TargetAddr u) path raw (rq_RawQuery Out)
    (out_headers rule s In (rq_Method Out) path now jti (rq_Header Out)) (rq_RemoteAddr Out) (rq_Local Out) (rq_User Out)).

(** * The contract with the backend *)

(** What each header the backend believes says, whatever the client sent. *)
Definition backend_sees (rule : Rule) (s : ServiceRoute) (In : request) (method path : bytes) (now : Z) (jti : bytes) : list (bytes * option bytes) :=
  let of_id (f : oidcIdentity → option bytes) := rq_User In ≫= f in
  [(lit "X-Forwarded-For", Some (client_of In)); (lit "X-Real-IP", Some (client_of In)); (lit "X-Forwarded-Proto", Some (lit "https"));
   (lit "X-Forwarded-Host", if named (rq_Host In) then Some (rq_Host In) else None);
   (lit "X-Forwarded-Port", local_port In);
   (lit "X-Forwarded-Prefix", if named (stripped_prefix s) then Some (stripped_prefix s) else None);
   (lit "X-Forwarded-User", of_id (fun id => Some (clean_text (id_User id))));
   (lit "X-Forwarded-Email", of_id (fun id => if named (id_Email id) then Some (clean_text (id_Email id)) else None));
   (lit "X-Forwarded-Groups", of_id (fun id => if bool_decide (id_Groups id = []) then None else Some (clean_text (join (lit ",") (id_Groups id)))));
   (lit "X-Forwarded-Roles", of_id (fun id => if bool_decide (id_Roles id = []) then None else Some (clean_text (join (lit ",") (id_Roles id)))));
   (lit "X-Forwarded-MFA", of_id (fun id => if named (id_Subject id) then Some (bool_text (id_MFA id)) else None));
   (identityHeader, assertion rule s In method path now jti);
   (lit "Forwarded", Some (forwardedHeader (client_of In) (rq_Host In)));
   (lit "X-Forwarded-By", Some (serverName ++ lit "/1.6.0"))].
End ReverseProxy.

(** * Headers as a table of updates *)

(** A header set to one value, or removed. *)
Definition upd (h : Header) (e : bytes * option bytes) : Header :=
  match e.2 with Some v => hdr_set h e.1 v | None => hdr_del h e.1 end.

Lemma upd_lookup h e c : upd h e !! c = if bool_decide (canonical e.1 = c) then (fun v => [v]) <$> e.2 else h !! c.
Proof. unfold upd. destruct e as [k [v|]]; [apply hdr_set_lookup|apply hdr_del_lookup]. Qed.

Lemma upd_if h k v (b : bool) : set_if b (hdr_del h k) k v = upd h (k, if b then Some v else None).
Proof. destruct b; [|done]. unfold upd, set_if, hdr_set, hdr_del. cbn. apply insert_delete_eq. Qed.
Lemma upd_opt h k (o : option bytes) : match o with Some v => hdr_set (hdr_del h k) k v | None => hdr_del h k end = upd h (k, o).
Proof. destruct o as [v|]; [|done]. exact (upd_if h k v true). Qed.

Lemma upd_all_lookup l h c : NoDup ((fun e => canonical e.1) <$> l) →
  foldl upd h l !! c = match find (fun e => bool_decide (canonical e.1 = c)) l with Some (_, v) => (fun v => [v]) <$> v | None => h !! c end.
Proof.
  revert h. induction l as [|[k v] l IH]; intros h; [done|]. intros [Hk Hl]%NoDup_cons. cbn [foldl find fst] in *. rewrite IH, upd_lookup by done. cbn [fst snd].
  case_bool_decide as Hc; [|done]. subst c.
  assert (find (fun e => bool_decide (canonical e.1 = canonical k)) l = None) as ->; [|done].
  clear -Hk. induction l as [|e l IH]; [done|]. apply not_elem_of_cons in Hk as [Hk1 Hk2]. cbn. rewrite bool_decide_false by done. by apply IH.
Qed.

Lemma find_none_keys {V} (l : list (bytes * V)) c : Forall (fun e => canonical e.1 ≠ c) l → find (fun e => bool_decide (canonical e.1 = c)) l = None.
Proof. induction 1 as [|e l He _ IH]; cbn; [done|]. by rewrite bool_decide_false. Qed.

Lemma find_key {V} (l : list (bytes * V)) k v : NoDup ((fun e => canonical e.1) <$> l) → (k, v) ∈ l →
  find (fun e => bool_decide (canonical e.1 = canonical k)) l = Some (k, v).
Proof.
  intros Hl Hin. destruct (find _ l) as [e|] eqn:E.
  - apply find_some in E as [He%list_elem_of_In Hk]. apply bool_decide_eq_true in Hk. f_equal. by apply (NoDup_fmap_elem (fun e => canonical e.1) l).
  - apply list_elem_of_In in Hin. apply (find_none _ _ E), bool_decide_eq_false in Hin. by destruct Hin.
Qed.

(** The identity's part of the table. *)
Definition identity_said (o : option oidcIdentity) : list (bytes * option bytes) :=
  let of_id (f : oidcIdentity → option bytes) := o ≫= f in
  [(lit "X-Forwarded-User", of_id (fun id => Some (clean_text (id_User id))));
   (lit "X-Forwarded-Email", of_id (fun id => if named (id_Email id) then Some (clean_text (id_Email id)) else None));
   (lit "X-Forwarded-Groups", of_id (fun id => if bool_decide (id_Groups id = []) then None else Some (clean_text (join (lit ",") (id_Groups id)))));
   (lit "X-Forwarded-Roles", of_id (fun id => if bool_decide (id_Roles id = []) then None else Some (clean_text (join (lit ",") (id_Roles id)))));
   (lit "X-Forwarded-MFA", of_id (fun id => if named (id_Subject id) then Some (bool_text (id_MFA id)) else None))].

Lemma set_if_lookup b h k v c : set_if b h k v !! c = if bool_decide (canonical k = c) then (if b then Some [v] else h !! c) else h !! c.
Proof. unfold set_if. destruct b; [apply hdr_set_lookup|by destruct (bool_decide _)]. Qed.

(** Decide whether concrete keys are one. *)
Ltac eval_keys :=
  repeat match goal with |- context[bool_decide (canonical ?k = canonical ?c)] =>
    let b := eval vm_compute in (bool_decide (canonical k = canonical c)) in change (bool_decide (canonical k = canonical c)) with b; cbv iota end.

Lemma setIdentityHeaders_said h o : setIdentityHeaders h o = foldl upd h (identity_said o).
Proof.
  apply map_eq. intros c. destruct o as [id|]; [|done]. unfold setIdentityHeaders, identity_said. cbn [foldl identityHeaders mbind option_bind].
  repeat (rewrite upd_lookup || rewrite set_if_lookup || rewrite hdr_set_lookup || rewrite hdr_del_lookup). cbn [fst snd].
  repeat match goal with
  | |- context[bool_decide (canonical (lit ?k) = c)] =>
      destruct (decide (canonical (lit k) = c)) as [<-|?]; [eval_keys; by repeat destruct (named _); try destruct (bool_decide _)|rewrite !(bool_decide_false (canonical (lit k) = c)) by done]
  end; done.
Qed.

Section Backend.
Context (json_marshal : list (string * json) → bytes) (hmac_sha256 : bytes → bytes → bytes).

Lemma forwarded_headers_said rule s In method path now jti h :
  forwarded_headers json_marshal hmac_sha256 rule s In method path now jti h =
  foldl upd h (backend_sees json_marshal hmac_sha256 rule s In method path now jti).
Proof.
  unfold forwarded_headers. cbn zeta. rewrite !upd_if, !upd_opt, setIdentityHeaders_said. done.
Qed.

Lemma table_keys rule s In method path now jti :
  NoDup ((fun e => canonical e.1) <$> backend_sees json_marshal hmac_sha256 rule s In method path now jti).
Proof. apply (bool_decide_unpack _). by vm_compute. Qed.

Lemma table_not_via rule s In method path now jti k v :
  (k, v) ∈ backend_sees json_marshal hmac_sha256 rule s In method path now jti → canonical (lit "Via") ≠ canonical k.
Proof.
  assert (Forall (fun e => canonical (lit "Via") ≠ canonical e.1) (backend_sees json_marshal hmac_sha256 rule s In method path now jti)) as H
    by (apply (bool_decide_unpack _); by vm_compute).
  rewrite Forall_forall in H. intros Hin. apply (H _ Hin).
Qed.

Lemma out_headers_lookup rule s In method path now jti h c :
  out_headers json_marshal hmac_sha256 rule s In method path now jti h !! c =
  if bool_decide (canonical (lit "Via") = c) then Some (hdr_values h (lit "Via") ++ [via In])
  else match find (fun e => bool_decide (canonical e.1 = c)) (backend_sees json_marshal hmac_sha256 rule s In method path now jti) with
       | Some (_, v) => (fun v => [v]) <$> v
       | None => h !! c
       end.
Proof.
  unfold out_headers. rewrite hdr_add_lookup, forwarded_headers_said, upd_all_lookup by apply table_keys. case_bool_decide; [|done].
  unfold hdr_values at 1. rewrite upd_all_lookup by apply table_keys.
  by rewrite (find_none_keys _ (canonical (lit "Via"))) by (apply (bool_decide_unpack _); by vm_compute).
Qed.

(** The path sent on, where the prefix is stripped. *)
Lemma strip_path_prefix s In Out rest : sr_StripPrefix s = true → bytes_ok (rq_Path In) → (ch "%" ∉ sr_Prefix s) →
  escaped_path (rq_Path In) (rq_RawPath In) = sr_Prefix s ++ rest →
  ∃ p, rq_Path In = sr_Prefix s ++ p ∧ path_unescape rest = Some p ∧
    strip_path s In Out = if has_prefix rest (lit "/") then (p, rest) else (slash :: p, slash :: rest).
Proof.
  intros Hs Hb Hp He. pose proof (escaped_path_unescape (rq_Path In) (rq_RawPath In) Hb) as Hu. rewrite He in Hu.
  destruct (path_unescape_app _ _ _ Hp Hu) as (p & -> & Hr). exists p. split; [done|]. split; [done|].
  unfold strip_path. rewrite Hs, He, cut_prefix_app. cbn [negb]. destruct (has_prefix rest (lit "/")); [by rewrite Hr|].
  change (lit "/" ++ rest) with (slash :: rest). by rewrite unescape_plain, Hr by done.
Qed.
End Backend.

(** * Properties *)


(** * Witnesses *)

Definition w_proxied (strip : bool) : ServiceRoute :=
  mkServiceRoute (lit "serve 1") 3 (lit "reverse_proxy") (lit "/api/") (Some (mkURL (lit "http") (lit "10.0.0.1"))) strip [] true [] false [] None [] false [] [] [] [].
Definition w_ann : oidcIdentity := basic_identity (lit "ann").
(** A client that claims to be someone else. *)
Definition w_claims : Header := <[lit "X-Forwarded-User" := [lit "root"]]> (<[lit "Accept" := [lit "*/*"]]> ∅).
Definition w_sent (path raw : bytes) : request :=
  mkRequest (lit "GET") (1, 1) (lit "www.example.com") [] [] path raw [] w_claims (lit "192.0.2.1:5000") (Some (lit "198.51.100.1:443")) (Some w_ann).


(** A client that escapes a letter of the prefix: the path left is read as
    escaped text a second time, and where it is none the prefix stays. *)
Lemma strip_decodes_twice :
  strip_path (w_proxied true) (w_sent (lit "/api/%61") (lit "/%61pi/%2561")) (w_sent (lit "/api/%61") (lit "/%61pi/%2561")) = (lit "/a", lit "/%61") ∧
  strip_path (w_proxied true) (w_sent (lit "/api/100%") (lit "/%61pi/100%25")) (w_sent (lit "/api/100%") (lit "/%61pi/100%25")) =
    (lit "/api/100%", lit "/%61pi/100%25").
Proof. split; vm_compute; reflexivity. Qed.
