(* ===== verification/Oidc.v ===== *)
(** Oidc: signing in with an identity provider ([oidc.go]): sessions and
    state cookies, what a route requires, the redirect to the provider, the
    callback, and the checks of an ID token. AES-GCM, JSON, the provider's
    HTTPS and the signatures' mathematics are parameters. *)

From S2P Require Import Prelude GoStr NetIP Rules Config Password ServeConfig Http ReverseProxy.

Definition oidcPathPrefix : bytes := lit "/.tlsproxy/oidc/".
Definition oidcCallback : bytes := oidcPathPrefix ++ lit "callback".
Definition oidcLogout : bytes := oidcPathPrefix ++ lit "logout".
Definition oidcStateTTL : Z := 10 * 60 * second.
Definition oidcCookieMax : Z := 3800.
Definition oidcDiscoTTL : Z := 3600 * second.
Definition oidcRetryAfter : Z := 10 * second.
Definition oidcKeysMinAge : Z := 30 * second.
Definition oidcClockSkew : Z := 2 * 60 * second.
Definition oidcMaxClients : nat := 32.

(** Times are nanoseconds; [Time.Unix] is seconds. *)
Definition unix (t : Z) : Z := t / second.

(** * Data *)

(** A signing key: an RSA key, or an EC key with the bytes of a coordinate. *)
Inductive key_kind := RSAKey | ECKey (size : Z).
Record pubkey := mkKey { pk_kind : key_kind; pk_bits : bytes }.

(** [OIDCProvider] ([oidc_config.go]); [op_ClientKey] is the private key of
    [client_certificate]. *)
Record OIDCProvider := mkProvider {
  op_Name : bytes; op_Line : Z; op_Issuer : bytes; op_ClientID : bytes; op_ClientSecret : bytes; op_ClientKey : option bytes; op_thumbprint : bytes;
  op_Scopes : list bytes; op_Session : Z; op_MFAAcr : list bytes; op_CAFile : bytes;
  op_UserClaim : bytes; op_GroupsClaim : bytes; op_RolesClaim : bytes; op_referenced : list bytes;
  op_SecretFile : bytes; op_CertFile : bytes; op_KeyFile : bytes; op_CertExpires : Z;
}.
#[export] Instance OIDCProvider_eq_dec : EqDecision OIDCProvider.
Proof. solve_decision. Defined.

(** [oidcPending] *)
Record oidcPending := mkPending { pe_Provider : bytes; pe_Nonce : bytes; pe_Verifier : bytes; pe_Return : bytes; pe_MFA : bool; pe_Expires : Z }.

(** [oidcDiscovery] *)
Record oidcDiscovery := mkDisco { di_Issuer : bytes; di_Authorize : bytes; di_Token : bytes; di_JWKS : bytes; di_EndSession : bytes; di_AuthMethods : list bytes }.

(** [oidcClient] *)
Record oidcClient := mkClient {
  oc_issuer : bytes; oc_disco : option oidcDiscovery; oc_discAt : Z; oc_fail : option err; oc_failAt : Z;
  oc_keys : gmap bytes pubkey; oc_keysAt : option Z; oc_used : Z;
}.

(** JSON as a token's claims hold it; a number is what [int64] of its
    [Float64] is, if it has one. *)
#[warnings="-register-all"]
Inductive claim := CStr (s : bytes) | CNum (n : option Z) | CList (l : list claim) | CObj (m : list (bytes * claim)) | COther.
Abbreviation claims := (list (bytes * claim)).
Definition field (m : claims) (k : bytes) : option claim := snd <$> find (fun e => bool_decide (e.1 = k)) m.

(** What a cookie seals. *)
Inductive sealed := SealedState (p : oidcPending) | SealedSession (id : oidcIdentity).

(** * What a token says *)

Fixpoint walk_claim (cur : claim) (parts : list bytes) : option claim :=
  match parts with
  | [] => Some cur
  | p :: parts => match cur with CObj m => c ← field m p; walk_claim c parts | _ => None end
  end.
(** [claimAt] *)
Definition claimAt (m : claims) (path : bytes) : option claim :=
  match field m path with Some v => Some v | None => walk_claim (CObj m) (split_byte path (ch ".")) end.

Definition claim_str (m : claims) (k : bytes) : bytes := match field m k with Some (CStr s) => s | _ => [] end.
Definition claim_list (m : claims) (k : bytes) : list bytes :=
  match claimAt m k with
  | Some (CStr s) => [s]
  | Some (CList l) => omap (fun c => match c with CStr s => Some s | _ => None end) l
  | _ => []
  end.
Definition claim_time (m : claims) (k : bytes) : option Z := match field m k with Some (CNum n) => n | _ => None end.

Definition token_user (m : claims) (p : OIDCProvider) : bytes :=
  default [] (head (filter (fun s => s <> [])
    ((fun k => if bool_decide (k = []) then [] else claim_str m k) <$> [op_UserClaim p; lit "preferred_username"; lit "email"; lit "upn"; lit "sub"]))).

(** [identityFrom] *)
Definition identityFrom (m : claims) (p : OIDCProvider) (issuer : bytes) (pending : oidcPending) (now : Z) : res err oidcIdentity :=
  let str k := claim_str m (lit k) in
  let aud := claim_list m (lit "aud") in
  guard! bool_decide (str "iss"%string = issuer) else "ID token issuer"%string in
  guard! contains aud (op_ClientID p) else "ID token audience does not include client_id"%string in
  guard! negb (1 <? len aud) || bool_decide (str "azp"%string = op_ClientID p) else "ID token azp is not client_id"%string in
  guard! match claim_time m (lit "exp") with Some exp => unix (now - oidcClockSkew) <? exp | None => false end else "ID token expired"%string in
  guard! match claim_time m (lit "iat") with Some iat => iat <=? unix (now + oidcClockSkew) | None => true end else "ID token issued in the future"%string in
  guard! match claim_time m (lit "nbf") with Some nbf => nbf <=? unix (now + oidcClockSkew) | None => true end else "ID token not valid yet"%string in
  guard! bool_decide (str "nonce"%string = pe_Nonce pending) else "ID token nonce does not match"%string in
  guard! negb (bool_decide (str "sub"%string = [])) else "ID token has no sub"%string in
  let mfa := contains (claim_list m (lit "amr")) (lit "mfa") || (named (str "acr"%string) && contains (op_MFAAcr p) (str "acr"%string)) in
  Ok (mkIdentity (token_user m p) (str "email"%string) (str "sub"%string) (claim_list m (op_GroupsClaim p)) (claim_list m (op_RolesClaim p)) mfa
        (pe_MFA pending && negb mfa) (unix now) (unix (now + op_Session p))).

(** [meets]: whether MFA is met, and what is missing. *)
Inductive missing := MFA | Groups (l : list bytes) | Roles (l : list bytes).
Definition meets (id : oidcIdentity) (s : ServiceRoute) : bool * option missing :=
  if sr_RequireMFA s && negb (id_MFA id) then (false, Some MFA)
  else if negb (bool_decide (sr_RequireGroups s = [])) && negb (existsb (contains (id_Groups id)) (sr_RequireGroups s)) then (true, Some (Groups (sr_RequireGroups s)))
  else if negb (bool_decide (sr_RequireRoles s = [])) && negb (existsb (contains (id_Roles id)) (sr_RequireRoles s)) then (true, Some (Roles (sr_RequireRoles s)))
  else (true, None).

(** [isNavigation] *)
Definition isNavigation (q : request) : bool :=
  if (negb (bool_decide (rq_Method q = lit "GET")) && negb (bool_decide (rq_Method q = lit "HEAD"))) || named (hdr_get (rq_Header q) (lit "Upgrade")) then false
  else
    let mode := hdr_get (rq_Header q) (lit "Sec-Fetch-Mode") in
    if named mode then bool_decide (mode = lit "navigate") else contains_str (hdr_get (rq_Header q) (lit "Accept")) (lit "text/html").

Definition callbackURL (q : request) : bytes := lit "https://" ++ rq_Host q ++ oidcCallback.

(** [stripOIDCCookies] *)
Definition cookiePrefix : bytes := lit "__Host-tlsproxy-oidc-".
Definition own_cookie (c : cookie) : bool := has_prefix (ck_Name c) cookiePrefix.
Definition stripOIDCCookies (h : Header) : Header :=
  let keep := filter (fun c => own_cookie c = false) (read_cookies h) in
  if (length keep =? length (read_cookies h))%nat then h else foldl add_cookie (hdr_del h (lit "Cookie")) keep.

(** [providersOf] *)
Definition providersOf (provider : bytes → option OIDCProvider) (r : Rule) : list OIDCProvider :=
  foldl (fun out s => match provider (sr_OIDC s) with Some p => if contains out p then out else out ++ [p] | None => out end) [] (r_Routes r).

(** * The provider's documents, cached *)

Section Oidc.
Context (get_discovery : bytes → Z → res err oidcDiscovery).    (* getJSON of a discovery document *)
Context (get_keys : bytes → Z → res err (gmap bytes pubkey)).   (* getJSON of a JWKS and parseJWK *)
Context (ca_file : bytes → res err unit).                       (* reading a ca_file's PEM *)

(** The oldest client, by its last use. *)
Definition oldest_client (l : list (bytes * oidcClient)) : option bytes :=
  fst <$> foldl (fun o e => match o with Some b => if oc_used e.2 <? oc_used b.2 then Some e else o | None => Some e end) None l.
Fixpoint make_room (fuel : nat) (m : gmap bytes oidcClient) : gmap bytes oidcClient :=
  match fuel with
  | O => m
  | S fuel =>
      if (size m <? oidcMaxClients)%nat then m
      else match oldest_client (map_to_list m) with Some k => make_room fuel (delete k m) | None => m end
  end.

Abbreviation clients := (gmap bytes oidcClient).
Definition client_key (p : OIDCProvider) : bytes := op_Issuer p ++ [0] ++ op_CAFile p.
(** [oidcAuth.client] *)
Definition client (m : clients) (p : OIDCProvider) (now : Z) : clients * res err oidcClient :=
  match m !! client_key p with
  | Some c => let c := mkClient (oc_issuer c) (oc_disco c) (oc_discAt c) (oc_fail c) (oc_failAt c) (oc_keys c) (oc_keysAt c) now in
              (<[client_key p := c]> m, Ok c)
  | None =>
      let m := make_room (size m) m in
      match (if named (op_CAFile p) then ca_file (op_CAFile p) else Ok tt) with
      | Err e => (m, Err e)
      | Ok _ => let c := mkClient (op_Issuer p) None 0 None 0 ∅ None now in (<[client_key p := c]> m, Ok c)
      end
  end.

(** [discovery] *)
Definition discovery_url (c : oidcClient) : bytes := oc_issuer c ++ lit "/.well-known/openid-configuration".
Definition discovery_ok (d : oidcDiscovery) : bool := named (di_Issuer d) && named (di_Authorize d) && named (di_Token d) && named (di_JWKS d).
Definition discovery (c : oidcClient) (now : Z) : oidcClient * res err oidcDiscovery :=
  let fresh := match oc_disco c with Some d => if now - oc_discAt c <? oidcDiscoTTL then Some d else None | None => None end in
  match fresh with
  | Some d => (c, Ok d)
  | None =>
      let wait := match oc_fail c with Some e => if now - oc_failAt c <? oidcRetryAfter then Some e else None | None => None end in
      match wait with
      | Some e => (c, match oc_disco c with Some d => Ok d | None => Err e end)
      | None =>
          let got := let! d := get_discovery (discovery_url c) now in
                     guard! discovery_ok d else "the discovery document lacks an endpoint"%string in Ok d in
          match got with
          | Err e => (mkClient (oc_issuer c) (oc_disco c) (oc_discAt c) (Some e) now (oc_keys c) (oc_keysAt c) (oc_used c),
                      match oc_disco c with Some d => Ok d | None => Err e end)
          | Ok d => (mkClient (oc_issuer c) (Some d) now None (oc_failAt c) (oc_keys c) (oc_keysAt c) (oc_used c), Ok d)
          end
      end
  end.

(** [key] *)
Definition find_key_id (c : oidcClient) (d : oidcDiscovery) (kid : bytes) (now : Z) : oidcClient * res err pubkey :=
  match oc_keys c !! kid with
  | Some k => (c, Ok k)
  | None =>
      if match oc_keysAt c with Some t => now - t <? oidcKeysMinAge | None => false end then (c, Err "no signing key"%string)
      else match get_keys (di_JWKS d) now with
           | Err e => (c, Err e)
           | Ok keys =>
               (mkClient (oc_issuer c) (oc_disco c) (oc_discAt c) (oc_fail c) (oc_failAt c) keys (Some now) (oc_used c),
                match keys !! kid with Some k => Ok k | None => Err "no signing key in the JWKS"%string end)
           end
  end.

(** * Tokens *)

(** A token's header: [alg] and [kid] where they are strings, and whether
    [crit] is there. *)
Record jwt_header := mkHeader { jh_alg : bytes; jh_kid : bytes; jh_crit : bool }.
Context (json_header : bytes → option jwt_header) (json_claims : bytes → option claims).
Context (verify_sig : bytes → pubkey → bytes → bytes → bool).   (* alg, key, what is signed, signature *)

(** [base64.RawURLEncoding.DecodeString] *)
Definition b64_url_decode (s : bytes) : option bytes :=
  if contains_any s (lit "+/") then None
  else b64_decode ((fun c => if c =? ch "-" then ch "+" else if c =? ch "_" then ch "/" else c) <$> s).

Definition known_algs : list bytes := lit <$> ["RS256"; "PS256"; "ES256"; "RS384"; "ES384"; "RS512"]%string.
(** Whether a key is one for an algorithm and a signature. *)
Definition key_fits (k : pubkey) (alg sig : bytes) : bool :=
  match pk_kind k with
  | RSAKey => has_prefix alg (lit "RS") || has_prefix alg (lit "PS")
  | ECKey size => has_prefix alg (lit "ES") && (len sig =? 2 * size) && Bool.eqb (bool_decide (alg = lit "ES256")) (size =? 32)
  end.

(** [verifyJWT], its key looked up with the client. *)
Definition verifyJWT (token : bytes) (c : oidcClient) (d : oidcDiscovery) (now : Z) : oidcClient * res err claims :=
  match split_byte token (ch ".") with
  | [h; body; s] =>
      match b64_url_decode h ≫= json_header with
      | None => (c, Err "bad JWT header"%string)
      | Some hd =>
          if jh_crit hd then (c, Err "JWT with crit"%string)
          else match b64_url_decode s with
               | None => (c, Err "bad JWT signature encoding"%string)
               | Some sig =>
                   if negb (contains known_algs (jh_alg hd)) then (c, Err "JWT alg is not accepted"%string)
                   else
                     let '(c, k) := find_key_id c d (jh_kid hd) now in
                     (c, let! k := k in
                         guard! key_fits k (jh_alg hd) sig && verify_sig (jh_alg hd) k (h ++ lit "." ++ body) sig else "JWT signature"%string in
                         match b64_url_decode body ≫= json_claims with Some m => Ok m | None => Err "bad JWT payload"%string end)
               end
      end
  | _ => (c, Err "not a signed JWT"%string)
  end.

(** * Redeeming a code *)

(** The token endpoint's answer: its status, and what its JSON holds. *)
Record token_answer := mkToken { to_OK : bool; to_IDToken : bytes; to_Error : bytes }.
Context (post_form : bytes → list (bytes * bytes) → option (bytes * bytes) → Z → res err token_answer).  (* the POST: URL, form, Basic *)
Context (client_assertion : OIDCProvider → bytes → Z → res err bytes).                                   (* clientAssertion *)

(** What is posted: the form, and the Basic credentials if they are how the
    client says who it is. *)
Definition token_form (q : request) (p : OIDCProvider) (d : oidcDiscovery) (pending : oidcPending) (code : bytes) (now : Z)
    : res err (list (bytes * bytes) * option (bytes * bytes)) :=
  let form := [(lit "grant_type", lit "authorization_code"); (lit "code", code); (lit "redirect_uri", callbackURL q);
               (lit "code_verifier", pe_Verifier pending); (lit "client_id", op_ClientID p)] in
  let post := negb (bool_decide (di_AuthMethods d = [])) && negb (contains (di_AuthMethods d) (lit "client_secret_basic")) &&
              contains (di_AuthMethods d) (lit "client_secret_post") in
  match op_ClientKey p with
  | Some _ =>
      let! a := client_assertion p (di_Token d) now in
      Ok (form ++ [(lit "client_assertion_type", lit "urn:ietf:params:oauth:client-assertion-type:jwt-bearer"); (lit "client_assertion", a)], None)
  | None =>
      if post then Ok (form ++ [(lit "client_secret", op_ClientSecret p)], None)
      else Ok (form, Some (query_escape (op_ClientID p), query_escape (op_ClientSecret p)))
  end.

(** [redeem] *)
Definition redeem (m : clients) (q : request) (p : OIDCProvider) (pending : oidcPending) (code : bytes) (now : Z) : clients * res err oidcIdentity :=
  if bool_decide (code = []) then (m, Err "no code"%string)
  else
    match client m p now with
    | (m, Err e) => (m, Err e)
    | (m, Ok c) =>
        let '(c, d) := discovery c now in
        let put c := <[client_key p := c]> m in
        match d with
        | Err e => (put c, Err e)
        | Ok d =>
            match (let! (form, basic) := token_form q p d pending code now in post_form (di_Token d) form basic now) with
            | Err e => (put c, Err e)
            | Ok tok =>
                if negb (to_OK tok) || bool_decide (to_IDToken tok = []) then (put c, Err "token endpoint: no id_token"%string)
                else
                  let '(c, cl) := verifyJWT (to_IDToken tok) c d now in
                  (put c, let! cl := cl in identityFrom cl p (di_Issuer d) pending now)
            end
        end
    end.

(** * Cookies *)

Context (sha256 : bytes → bytes).
Context (seal : bytes → bytes → sealed → bytes) (open_sealed : bytes → bytes → option sealed).  (* AES-GCM: nonce, bound data; bound data, value *)

Definition bound (purpose : string) (bind : bytes) : bytes := lit purpose ++ [0] ++ bind.
Definition hex (b : bytes) : bytes := concat ((fun c => to_lower [upper_hex (c / 16); upper_hex (c mod 16)]) <$> b).
(** [oidcSessionCookie], [sessionBind], [stateCookie] *)
Definition oidcSessionCookie (p : OIDCProvider) : bytes := cookiePrefix ++ hex (take 6 (sha256 (op_Name p))).
Definition sessionBind (p : OIDCProvider) : bytes := op_Name p ++ [0] ++ op_Issuer p ++ [0] ++ op_ClientID p.
Definition stateCookie (state : bytes) : bytes := cookiePrefix ++ lit "st-" ++ take 16 state.

(** A [Set-Cookie]: its name, value and seconds; negative forgets it. *)
Record set_cookie := mkSetCookie { se_Name : bytes; se_Value : bytes; se_MaxAge : Z }.
Definition setCookie (name value : bytes) (maxAge : Z) : set_cookie := mkSetCookie name value (if maxAge <=? 0 then -1 else maxAge / second).

(** [session] *)
Definition session (q : request) (p : OIDCProvider) (now : Z) : option oidcIdentity :=
  v ← find_cookie (rq_Header q) (oidcSessionCookie p);
  match open_sealed (bound "session" (sessionBind p)) v with
  | Some (SealedSession id) => if id_Expires id <=? unix now then None else Some id
  | _ => None
  end.

(** * The gate of a route *)

(** Random text of one sign-in: state, nonce, verifier, and the seal's own. *)
Record randoms := mkRandoms { rn_state : bytes; rn_nonce : bytes; rn_verifier : bytes; rn_seal : bytes; rn_seal2 : bytes }.

Inductive gate_result :=
| LetIn (id : oidcIdentity)
| NoMFA (id : oidcIdentity)                    (* 403: MFA was asked for, and not given *)
| Lacks (id : oidcIdentity) (what : missing)   (* 403 *)
| SignInRequired                               (* 401: not a browser opening a page *)
| Misconfigured
| Unreachable
| ToProvider (step_up : bool) (c : set_cookie) (location : bytes).

Definition and_query (target : bytes) (q : list (bytes * bytes)) : bytes :=
  target ++ (if contains target (ch "?") then lit "&" else lit "?") ++ encode_query q.

Definition sign_in_query (q : request) (p : OIDCProvider) (id : option oidcIdentity) (s : ServiceRoute) (rn : randoms) : list (bytes * bytes) :=
  [(lit "response_type", lit "code"); (lit "client_id", op_ClientID p); (lit "redirect_uri", callbackURL q); (lit "scope", join (lit " ") (op_Scopes p));
   (lit "state", rn_state rn); (lit "nonce", rn_nonce rn); (lit "code_challenge", b64_url (sha256 (rn_verifier rn))); (lit "code_challenge_method", lit "S256")]
  ++ (if sr_RequireMFA s && negb (bool_decide (op_MFAAcr p = [])) then [(lit "acr_values", join (lit " ") (op_MFAAcr p))] else [])
  ++ match id with Some id => if named (id_Email id) then [(lit "login_hint", id_Email id)] else [] | None => [] end.

(** [URL.RequestURI] *)
Definition request_uri (q : request) : bytes :=
  let p := escaped_path (rq_Path q) (rq_RawPath q) in
  (if named p then p else lit "/") ++ (if named (rq_RawQuery q) then lit "?" ++ rq_RawQuery q else []).

(** The state cookie's content. *)
Definition pending_of (q : request) (p : OIDCProvider) (s : ServiceRoute) (now : Z) (rn : randoms) : oidcPending :=
  mkPending (op_Name p) (rn_nonce rn) (rn_verifier rn)
    (request_uri q)
    (sr_RequireMFA s) (unix (now + oidcStateTTL)).

Definition to_provider (m : clients) (q : request) (p : OIDCProvider) (s : ServiceRoute) (id : option oidcIdentity) (step_up : bool) (now : Z) (rn : randoms)
    : clients * gate_result :=
  if negb (isNavigation q) then (m, SignInRequired)
  else
    match client m p now with
    | (m, Err _) => (m, Misconfigured)
    | (m, Ok c) =>
        let '(c, d) := discovery c now in
        (<[client_key p := c]> m,
         match d with
         | Err _ => Unreachable
         | Ok d =>
             ToProvider step_up
               (setCookie (stateCookie (rn_state rn)) (seal (rn_seal rn) (bound "state" (rn_state rn)) (SealedState (pending_of q p s now rn))) oidcStateTTL)
               (and_query (di_Authorize d) (sign_in_query q p id s rn))
         end)
    end.

(** [gate] *)
Definition gate (m : clients) (q : request) (p : OIDCProvider) (s : ServiceRoute) (now : Z) (rn : randoms) : clients * gate_result :=
  match session q p now with
  | None => to_provider m q p s None false now rn
  | Some id =>
      match meets id s with
      | (_, None) => (m, LetIn id)
      | (false, Some _) => if id_AskedMFA id then (m, NoMFA id) else to_provider m q p s (Some id) true now rn
      | (true, Some what) => (m, Lacks id what)
      end
  end.

(** * The callback *)

Inductive callback_result :=
| SignedOutPage
| NoState
| UnknownState
| ProviderGone (forget : set_cookie) (back : bytes)
| ProviderSaid (forget : set_cookie) (e back : bytes)
| NotCompleted (forget : set_cookie) (back : bytes)
| SignedIn (forget session : set_cookie) (id : oidcIdentity) (back : bytes).

Definition safe_return (back : bytes) : bytes :=
  if negb (has_prefix back (lit "/")) || has_prefix back (lit "//") || has_prefix back (lit "/\") then lit "/" else back.

(** The session cookie's value: too long, and it keeps the groups and roles
    some entry requires. *)
Definition seal_session (p : OIDCProvider) (id : oidcIdentity) (rn : randoms) : bytes * oidcIdentity :=
  let value := seal (rn_seal rn) (bound "session" (sessionBind p)) (SealedSession id) in
  if len value <=? oidcCookieMax then (value, id)
  else
    let keep prefix l := filter (fun x => contains (op_referenced p) (lit prefix ++ x) = true) l in
    let id := mkIdentity (id_User id) (id_Email id) (id_Subject id) (keep "g:"%string (id_Groups id)) (keep "r:"%string (id_Roles id))
                (id_MFA id) (id_AskedMFA id) (id_Issued id) (id_Expires id) in
    (seal (rn_seal2 rn) (bound "session" (sessionBind p)) (SealedSession id), id).

(** The provider the state cookie names; the last of a name is the one. *)
Definition signed_provider (q : request) (providers : list OIDCProvider) : option OIDCProvider :=
  let state := query_get (parse_query (rq_RawQuery q)) (lit "state") in
  match find_cookie (rq_Header q) (stateCookie state) ≫= open_sealed (bound "state" state) with
  | Some (SealedState pending) => last (filter (fun p => op_Name p = pe_Provider pending) providers)
  | _ => None
  end.

(** [callback] *)
Definition callback (m : clients) (q : request) (providers : list OIDCProvider) (now : Z) (rn : randoms) : clients * callback_result :=
  let query := parse_query (rq_RawQuery q) in
  let state := query_get query (lit "state") in
  if bool_decide (state = []) && bool_decide (query_get query (lit "code") = []) && bool_decide (query_get query (lit "error") = []) then (m, SignedOutPage)
  else if len state <? 16 then (m, NoState)
  else
    match find_cookie (rq_Header q) (stateCookie state) ≫= open_sealed (bound "state" state) with
    | Some (SealedState pending) =>
        if pe_Expires pending <? unix now then (m, UnknownState)
        else
          let forget := setCookie (stateCookie state) [] 0 in
          let back := safe_return (pe_Return pending) in
          match last (filter (fun p => op_Name p = pe_Provider pending) providers) with
          | None => (m, ProviderGone forget back)
          | Some p =>
              let e := query_get query (lit "error") in
              if named e then (m, ProviderSaid forget e back)
              else
                let '(m, id) := redeem m q p pending (query_get query (lit "code")) now in
                (m, match id with
                    | Err _ => NotCompleted forget back
                    | Ok id =>
                        let '(value, id) := seal_session p id rn in
                        SignedIn forget (setCookie (oidcSessionCookie p) value ((id_Expires id - unix now) * second)) id back
                    end)
          end
    | _ => (m, UnknownState)
    end.

(** [logout]: the cookies forgotten, and where the browser goes on to. *)
Definition logout (m : clients) (q : request) (providers : list OIDCProvider) (now : Z) : clients * list set_cookie * option bytes :=
  let forget := (fun p => setCookie (oidcSessionCookie p) [] 0) <$> providers in
  match providers with
  | [p] =>
      match client m p now with
      | (m, Err _) => (m, forget, None)
      | (m, Ok c) =>
          let '(c, d) := discovery c now in
          (<[client_key p := c]> m, forget,
           match d with
           | Ok d => if named (di_EndSession d) then Some (and_query (di_EndSession d) [(lit "client_id", op_ClientID p); (lit "post_logout_redirect_uri", callbackURL q)]) else None
           | Err _ => None
           end)
      end
  | _ => (m, forget, None)
  end.

(** * Runs

    Requests to routes and callbacks, in any order, from any browsers. [ow_sealed]
    is what was ever sealed; [honest] is what AES-GCM promises: a request's
    cookie opens only if it was. *)

Record oidc_world := mkOidc { ow_clients : clients; ow_sealed : list (bytes * sealed * bytes) }.
Definition honest (w : oidc_world) (q : request) : Prop :=
  ∀ name v ad x, find_cookie (rq_Header q) name = Some v → open_sealed ad v = Some x → (ad, x, v) ∈ ow_sealed w.

Inductive event :=
| EGate (q : request) (p : OIDCProvider) (s : ServiceRoute) (now : Z) (rn : randoms) (r : gate_result)
| ECallback (q : request) (ps : list OIDCProvider) (now : Z) (rn : randoms) (r : callback_result)
| ELogout (q : request) (ps : list OIDCProvider) (now : Z).

Definition gate_sealed (q : request) (p : OIDCProvider) (s : ServiceRoute) (now : Z) (rn : randoms) (r : gate_result) : list (bytes * sealed * bytes) :=
  match r with ToProvider _ c _ => [(bound "state" (rn_state rn), SealedState (pending_of q p s now rn), se_Value c)] | _ => [] end.
Definition callback_sealed (p : OIDCProvider) (r : callback_result) : list (bytes * sealed * bytes) :=
  match r with SignedIn _ c id _ => [(bound "session" (sessionBind p), SealedSession id, se_Value c)] | _ => [] end.

(** The events so far, the newest first. *)
Inductive run : list event → oidc_world → Prop :=
| run_start : run [] (mkOidc ∅ [])
| run_gate tr w q p s now rn m r : run tr w → honest w q → gate (ow_clients w) q p s now rn = (m, r) →
    run (EGate q p s now rn r :: tr) (mkOidc m (gate_sealed q p s now rn r ++ ow_sealed w))
| run_callback tr w q ps now rn m r : run tr w → honest w q → callback (ow_clients w) q ps now rn = (m, r) →
    run (ECallback q ps now rn r :: tr) (mkOidc m (match signed_provider q ps with Some p => callback_sealed p r | None => [] end ++ ow_sealed w))
| run_logout tr w q ps now m f l : run tr w → logout (ow_clients w) q ps now = (m, f, l) →
    run (ELogout q ps now :: tr) (mkOidc m (ow_sealed w)).

(** * What the caches hold *)

(** A key the provider's own set of keys gave for [kid]. *)
Definition published (kid : bytes) (k : pubkey) : Prop := ∃ url t keys, get_keys url t = Ok keys ∧ keys !! kid = Some k.
Definition genuine_client (c : oidcClient) : Prop := ∀ kid k, oc_keys c !! kid = Some k → published kid k.
Definition genuine (m : clients) : Prop := map_Forall (fun _ c => genuine_client c) m.

Lemma make_room_genuine fuel m : genuine m → genuine (make_room fuel m).
Proof.
  revert m. induction fuel as [|fuel IH]; intros m Hm; cbn [make_room]; [done|]. destruct (_ <? _)%nat; [done|].
  destruct (oldest_client _); [|done]. by apply IH, map_Forall_delete.
Qed.

Lemma client_genuine m p now m' r : genuine m → client m p now = (m', r) →
  genuine m' ∧ match r with Ok c => genuine_client c | Err _ => True end.
Proof.
  intros Hm. unfold client. destruct (m !! client_key p) as [c|] eqn:E.
  - injection 1 as <- <-. assert (genuine_client c) by (by apply (Hm _ _ E)). split; [by apply map_Forall_insert_2|done].
  - pose proof (make_room_genuine (size m) m Hm). destruct (if named _ then _ else _); injection 1 as <- <-; [|done].
    assert (genuine_client (mkClient (op_Issuer p) None 0 None 0 ∅ None now)) by (intros kid k; cbn; by rewrite lookup_empty).
    split; [by apply map_Forall_insert_2|done].
Qed.

Lemma discovery_genuine c now c' r : genuine_client c → discovery c now = (c', r) → genuine_client c'.
Proof.
  intros Hc. unfold discovery. repeat case_match; intros; simplify_eq; exact Hc.
Qed.

Lemma find_key_genuine c d kid now c' r : genuine_client c → find_key_id c d kid now = (c', r) →
  genuine_client c' ∧ match r with Ok k => published kid k | Err _ => True end.
Proof.
  intros Hc. unfold find_key_id. destruct (oc_keys c !! kid) as [k|] eqn:E; [injection 1 as <- <-; split; [done|by apply Hc]|].
  destruct (match oc_keysAt c with Some _ => _ | None => _ end); [by injection 1 as <- <-|].
  destruct (get_keys (di_JWKS d) now) as [keys|] eqn:Ek; [|by injection 1 as <- <-]. injection 1 as <- <-.
  split; [intros kid' k' Hk; by exists (di_JWKS d), now, keys|]. destruct (keys !! kid) eqn:E'; [by exists (di_JWKS d), now, keys|done].
Qed.

(** A token with these claims, signed with a key the provider published. *)
Definition token_signed (token : bytes) (cl : claims) : Prop := ∃ h body s hd sig k,
  token = h ++ lit "." ++ body ++ lit "." ++ s ∧ b64_url_decode h ≫= json_header = Some hd ∧ jh_crit hd = false ∧ jh_alg hd ∈ known_algs ∧
  published (jh_kid hd) k ∧ key_fits k (jh_alg hd) sig = true ∧ b64_url_decode s = Some sig ∧
  verify_sig (jh_alg hd) k (h ++ lit "." ++ body) sig = true ∧ b64_url_decode body ≫= json_claims = Some cl.

Lemma verifyJWT_signed token c d now c' r : genuine_client c → verifyJWT token c d now = (c', r) →
  genuine_client c' ∧ match r with Ok cl => token_signed token cl | Err _ => True end.
Proof.
  intros Hc. unfold verifyJWT. pose proof (join_split token (ch ".")) as Ht.
  destruct (split_byte token (ch ".")) as [|h [|body [|s [|? ?]]]]; try by injection 1 as <- <-.
  destruct (b64_url_decode h ≫= json_header) as [hd|] eqn:Eh; [|by injection 1 as <- <-].
  destruct (jh_crit hd) eqn:Ec; [by injection 1 as <- <-|]. destruct (b64_url_decode s) as [sig|] eqn:Es; [|by injection 1 as <- <-].
  destruct (contains known_algs (jh_alg hd)) eqn:Ea; [cbn [negb]|by injection 1 as <- <-]. apply bool_decide_eq_true in Ea.
  destruct (find_key_id c d (jh_kid hd) now) as [c1 k] eqn:Ek. apply find_key_genuine in Ek as [Hc1 Hk]; [|done]. injection 1 as <- <-.
  split; [done|]. destruct k as [k|]; [|done]. destruct (key_fits k _ sig && _) eqn:Ev; [|done]. apply andb_true_iff in Ev as [Hf Hv].
  destruct (b64_url_decode body ≫= json_claims) as [cl|] eqn:Eb; [|done]. exists h, body, s, hd, sig, k. by split_and!.
Qed.

(** * What signing in needs *)

(** [id] is who a signed token's claims name, for this sign-in. *)
Definition vouched (p : OIDCProvider) (pending : oidcPending) (now : Z) (id : oidcIdentity) : Prop :=
  ∃ token cl issuer, token_signed token cl ∧ identityFrom cl p issuer pending now = Ok id.

Lemma redeem_vouched m q p pending code now m' r : genuine m → redeem m q p pending code now = (m', r) →
  genuine m' ∧ match r with Ok id => vouched p pending now id | Err _ => True end.
Proof.
  intros Hm. unfold redeem. case_bool_decide; [by injection 1 as <- <-|]. destruct (client m p now) as [m1 c] eqn:Ec.
  apply client_genuine in Ec as [Hm1 Hc]; [|done]. destruct c as [c|]; [|by injection 1 as <- <-].
  destruct (discovery c now) as [c1 d] eqn:Ed. apply discovery_genuine in Ed; [|done]. destruct d as [d|]; [|injection 1 as <- <-; split; [by apply map_Forall_insert_2|done]].
  destruct (let! _ := token_form _ _ _ _ _ _ in _) as [tok|]; [|injection 1 as <- <-; split; [by apply map_Forall_insert_2|done]].
  destruct (negb (to_OK tok) || _); [injection 1 as <- <-; split; [by apply map_Forall_insert_2|done]|].
  destruct (verifyJWT (to_IDToken tok) c1 d now) as [c2 cl] eqn:Ev. apply verifyJWT_signed in Ev as [Hc2 Hcl]; [|done].
  injection 1 as <- <-. split; [by apply map_Forall_insert_2|]. destruct cl as [cl|]; [|done].
  destruct (identityFrom cl p (di_Issuer d) pending now) eqn:Ei; [|done]. by exists (to_IDToken tok), cl, (di_Issuer d).
Qed.

(** The same person, perhaps with fewer groups and roles. *)
Definition same_person (id0 id : oidcIdentity) : Prop :=
  (id_User id, id_Email id, id_Subject id, id_MFA id, id_AskedMFA id, id_Issued id, id_Expires id) =
  (id_User id0, id_Email id0, id_Subject id0, id_MFA id0, id_AskedMFA id0, id_Issued id0, id_Expires id0) ∧
  id_Groups id ⊆ id_Groups id0 ∧ id_Roles id ⊆ id_Roles id0.

Lemma seal_session_same p id rn value id' : seal_session p id rn = (value, id') → same_person id id'.
Proof.
  unfold seal_session. destruct (len _ <=? oidcCookieMax); injection 1 as <- <-; unfold same_person; [by destruct id|].
  cbn. split; [done|]. by split; intros x [_ Hx]%list_elem_of_filter.
Qed.

Lemma callback_spec m q ps now rn m' r : genuine m → callback m q ps now rn = (m', r) →
  genuine m' ∧
  ∀ f c id back, r = SignedIn f c id back → ∃ p pending id0,
    signed_provider q ps = Some p ∧ p ∈ ps ∧ op_Name p = pe_Provider pending ∧
    find_cookie (rq_Header q) (stateCookie (query_get (parse_query (rq_RawQuery q)) (lit "state"))) ≫=
      open_sealed (bound "state" (query_get (parse_query (rq_RawQuery q)) (lit "state"))) = Some (SealedState pending) ∧
    unix now <= pe_Expires pending ∧ vouched p pending now id0 ∧ same_person id0 id.
Proof.
  intros Hm. unfold callback, signed_provider. cbn zeta. set (state := query_get (parse_query (rq_RawQuery q)) (lit "state")).
  destruct (_ && _ && _); [by injection 1 as <- <-|]. destruct (len state <? 16); [by injection 1 as <- <-|].
  destruct (find_cookie _ _ ≫= _) as [[pending|]|] eqn:Eo; [|by injection 1 as <- <-..].
  destruct (Z.ltb_spec (pe_Expires pending) (unix now)); [by injection 1 as <- <-|].
  destruct (last _) as [p|] eqn:Ep; [|by injection 1 as <- <-]. destruct (named _); [by injection 1 as <- <-|].
  destruct (redeem _ _ _ _ _ _) as [m1 id] eqn:Er. apply redeem_vouched in Er as [Hm1 Hid]; [|done].
  destruct id as [id0|]; [|by injection 1 as <- <-]. destruct (seal_session p id0 rn) as [value id'] eqn:Es. injection 1 as <- <-.
  split; [done|]. intros f c id back [= <- <- <- <-]. exists p, pending, id0. apply seal_session_same in Es.
  apply last_Some_elem_of, list_elem_of_filter in Ep as [Hn Hp]. by split_and!.
Qed.

Lemma to_provider_genuine m q p s id su now rn m' r : genuine m → to_provider m q p s id su now rn = (m', r) → genuine m'.
Proof.
  intros Hm. unfold to_provider. destruct (isNavigation q); [cbn [negb]|by injection 1 as <- <-]. destruct (client m p now) as [m1 c] eqn:Ec.
  apply client_genuine in Ec as [Hm1 Hc]; [|done]. destruct c as [c|]; [|by injection 1 as <- <-].
  destruct (discovery c now) as [c1 d] eqn:Ed. apply discovery_genuine in Ed; [|done]. injection 1 as <- <-. by apply map_Forall_insert_2.
Qed.

Lemma gate_genuine m q p s now rn m' r : genuine m → gate m q p s now rn = (m', r) → genuine m'.
Proof.
  intros Hm. unfold gate. destruct (session q p now) as [id|]; [|by apply to_provider_genuine]. destruct (meets id s) as [[] [?|]]; try by injection 1 as <- <-.
  destruct (id_AskedMFA id); [by injection 1 as <- <-|by apply to_provider_genuine].
Qed.

Lemma gate_admits m q p s now rn m' id : gate m q p s now rn = (m', LetIn id) → session q p now = Some id ∧ (meets id s).2 = None.
Proof.
  unfold gate.
  assert (∀ o su m1 i, to_provider m q p s o su now rn ≠ (m1, LetIn i)) as Ht by (intros; unfold to_provider; repeat case_match; congruence).
  destruct (session q p now) as [id0|]; [|by intros ?%Ht]. destruct (meets id0 s) as [[] [?|]] eqn:E; try done; [by injection 1 as _ ->; rewrite E| |by injection 1 as _ ->; rewrite E].
  destruct (id_AskedMFA id0); [done|by intros ?%Ht].
Qed.

(** The origin of what a browser may hold, in what has happened. *)
Definition began (tr : list event) (pending : oidcPending) (state : bytes) : Prop := ∃ q p s now rn su c l,
  EGate q p s now rn (ToProvider su c l) ∈ tr ∧ rn_state rn = state ∧ pending = pending_of q p s now rn.
Definition completed (tr : list event) (p : OIDCProvider) (id : oidcIdentity) : Prop := ∃ q ps now rn f c back pending state id0,
  ECallback q ps now rn (SignedIn f c id back) ∈ tr ∧ p ∈ ps ∧ began tr pending state ∧ op_Name p = pe_Provider pending ∧
  unix now <= pe_Expires pending ∧ vouched p pending now id0 ∧ same_person id0 id.
Definition origin (tr : list event) (ad : bytes) (x : sealed) : Prop :=
  match x with
  | SealedState pending => ∃ state, ad = bound "state" state ∧ began tr pending state
  | SealedSession id => ∃ p, ad = bound "session" (sessionBind p) ∧ completed tr p id
  end.

Lemma began_more e tr pending state : began tr pending state → began (e :: tr) pending state.
Proof. intros (q & p & s & now & rn & su & c & l & H & ?). exists q, p, s, now, rn, su, c, l. split; [by right|done]. Qed.
Lemma completed_more e tr p id : completed tr p id → completed (e :: tr) p id.
Proof.
  intros (q & ps & now & rn & f & c & back & pending & state & id0 & H & Hp & Hb & ?). exists q, ps, now, rn, f, c, back, pending, state, id0.
  split; [by right|]. split; [done|]. split; [by apply began_more|done].
Qed.
Lemma origin_more e tr ad x : origin tr ad x → origin (e :: tr) ad x.
Proof. destruct x; cbn; intros (y & ? & ?); exists y; split; [done|by apply began_more|done|by apply completed_more]. Qed.

Lemma bound_state_session x y : bound "state" x ≠ bound "session" y.
Proof. done. Qed.
Lemma bound_inj t x y : bound t x = bound t y → x = y.
Proof. unfold bound. by intros H%app_inv_head%app_inv_head. Qed.

(** Whatever was sealed has its origin in what happened. *)
Lemma run_origin tr w : run tr w → genuine (ow_clients w) ∧ ∀ ad x v, (ad, x, v) ∈ ow_sealed w → origin tr ad x.
Proof.
  induction 1 as [|tr w q p s now rn m r Hrun [Hg Ho] Hh Hgate|tr w q ps now rn m r Hrun [Hg Ho] Hh Hcb|tr w q ps now m f l Hrun [Hg Ho] Hlo]; cbn [ow_clients ow_sealed].
  - split; [by apply map_Forall_empty|by intros ? ? ? ?%not_elem_of_nil].
  - split; [by eapply gate_genuine|]. intros ad x v [Hin|Hin%Ho%(origin_more (EGate q p s now rn r))]%elem_of_app; [|done].
    destruct r as [| | | | | |su c loc]; cbn in Hin; try by apply not_elem_of_nil in Hin. apply list_elem_of_singleton in Hin. injection Hin as -> -> ->.
    exists (rn_state rn). split; [done|]. exists q, p, s, now, rn, su, c, loc. split; [left|done].
  - apply callback_spec in Hcb as [Hm Hcb]; [|done]. split; [done|].
    intros ad x v [Hin|Hin%Ho%(origin_more (ECallback q ps now rn r))]%elem_of_app; [|done].
    destruct r as [| | | | | |f c id back]; try by (destruct (signed_provider q ps); by apply not_elem_of_nil in Hin).
    destruct (Hcb _ _ _ _ eq_refl) as (p & pending & id0 & Hp & Hin' & Hn & Hopen & He & Hv & Hs). rewrite Hp in Hin.
    apply list_elem_of_singleton in Hin. injection Hin as -> -> ->. exists p. split; [done|].
    destruct (find_cookie _ _) as [ck|] eqn:Ec; [|done]. cbn in Hopen. pose proof (Ho _ _ _ (Hh _ _ _ _ Ec Hopen)) as (state & Hb & Hbegan).
    exists q, ps, now, rn, f, c, back, pending, state, id0. split; [left|]. split; [done|]. split; [by apply began_more|done].
  - split; [|by intros ad x v ?%Ho%(origin_more (ELogout q ps now))]. unfold logout in Hlo.
    destruct ps as [|p [|]]; [by injection Hlo as <- _ _| |by injection Hlo as <- _ _]. destruct (client _ p now) as [m1 c] eqn:Ec.
    apply client_genuine in Ec as [Hm1 Hc]; [|done]. destruct c as [c|]; [|by injection Hlo as <- _ _].
    destruct (discovery c now) as [c1 d] eqn:Ed. apply discovery_genuine in Ed; [|done]. injection Hlo as <- _ _. by apply map_Forall_insert_2.
Qed.
End Oidc.

(** What the claims of an accepted token say. *)
Lemma identityFrom_checks cl p issuer pending now id : identityFrom cl p issuer pending now = Ok id →
  claim_str cl (lit "iss") = issuer ∧ op_ClientID p ∈ claim_list cl (lit "aud") ∧
  (1 < len (claim_list cl (lit "aud")) → claim_str cl (lit "azp") = op_ClientID p) ∧
  (∃ exp, claim_time cl (lit "exp") = Some exp ∧ unix (now - oidcClockSkew) < exp) ∧
  claim_str cl (lit "nonce") = pe_Nonce pending ∧ id_Subject id = claim_str cl (lit "sub") ∧ id_Subject id ≠ [] ∧
  id_Expires id = unix (now + op_Session p).
Proof.
  unfold identityFrom. cbn zeta. destruct (bool_decide (claim_str cl (lit "iss") = issuer)) eqn:E1; [|done].
  destruct (contains _ (op_ClientID p)) eqn:E2; [|done]. destruct (negb (1 <? _) || _) eqn:E3; [|done].
  destruct (claim_time cl (lit "exp")) as [exp|] eqn:E4; [|done]. destruct (Z.ltb_spec (unix (now - oidcClockSkew)) exp); [|done].
  destruct (match claim_time cl (lit "iat") with Some _ => _ | None => _ end); [|done]. destruct (match claim_time cl (lit "nbf") with Some _ => _ | None => _ end); [|done].
  destruct (bool_decide (claim_str cl (lit "nonce") = _)) eqn:E5; [|done]. destruct (bool_decide (claim_str cl (lit "sub") = [])) eqn:E6; [done|]. injection 1 as <-.
  apply bool_decide_eq_true in E1, E2, E5. apply bool_decide_eq_false in E6. split_and!; try done; [|by exists exp].
  intros Hl. apply orb_true_iff in E3 as [E3|E3]; [|by apply bool_decide_eq_true in E3]. apply negb_true_iff in E3. lia.
Qed.

Lemma meets_spec id s : (meets id s).2 = None →
  (sr_RequireMFA s = true → id_MFA id = true) ∧
  (sr_RequireGroups s ≠ [] → ∃ g, g ∈ sr_RequireGroups s ∧ g ∈ id_Groups id) ∧
  (sr_RequireRoles s ≠ [] → ∃ g, g ∈ sr_RequireRoles s ∧ g ∈ id_Roles id).
Proof.
  assert (∀ l k, negb (bool_decide (l = [])) && negb (existsb (contains k) l) = false → l ≠ [] → ∃ g : bytes, g ∈ l ∧ g ∈ k) as Hl.
  { intros l k H Hne. rewrite bool_decide_false in H by done. apply negb_false_iff, existsb_elem in H as (g & Hg & Hk).
    exists g. split; [done|]. by apply bool_decide_eq_true in Hk. }
  unfold meets. destruct (sr_RequireMFA s && negb (id_MFA id)) eqn:E1; [done|].
  destruct (negb _ && negb (existsb (contains (id_Groups id)) _)) eqn:E2; [done|].
  destruct (negb _ && negb (existsb (contains (id_Roles id)) _)) eqn:E3; [done|]. intros _. split; [|split; by apply Hl].
  intros Hm. rewrite Hm in E1. by apply negb_false_iff.
Qed.

(** * Properties *)


(** * Witnesses *)

Definition w_provider : OIDCProvider :=
  mkProvider (lit "corp") 1 (lit "https://id.example.com") (lit "app") (lit "secret") None [] [lit "openid"] (3600 * second) [lit "2"] []
    [] (lit "groups") (lit "roles") [] [] [] [] 0.
Definition w_admin : ServiceRoute :=
  mkServiceRoute (lit "serve 1") 3 (lit "reverse_proxy") (lit "/admin/") None false [] true [] false [] None (lit "corp") true [] [lit "Admin"] [] [].
Definition w_disco (_ : bytes) (_ : Z) : res err oidcDiscovery :=
  Ok (mkDisco (lit "https://id.example.com") (lit "https://id.example.com/auth") (lit "https://id.example.com/token") (lit "https://id.example.com/keys") [] []).
Definition w_keys (_ : bytes) (_ : Z) : res err (gmap bytes pubkey) := Ok {[lit "k1" := mkKey RSAKey []]}.
Definition w_ca (_ : bytes) : res err unit := Ok tt.
Definition w_header (_ : bytes) : option jwt_header := Some (mkHeader (lit "RS256") (lit "k1") false).
Definition w_claims_of (_ : bytes) : option claims :=
  Some [(lit "iss", CStr (lit "https://id.example.com")); (lit "aud", CStr (lit "app")); (lit "exp", CNum (Some 5000)); (lit "nonce", CStr (lit "nonce1"));
        (lit "sub", CStr (lit "7")); (lit "email", CStr (lit "ann@example.com")); (lit "amr", CList [CStr (lit "pwd"); CStr (lit "mfa")]); (lit "roles", CList [CStr (lit "Admin")])].
Definition w_verify (_ : bytes) (_ : pubkey) (_ _ : bytes) : bool := true.
Definition w_post (_ : bytes) (_ : list (bytes * bytes)) (_ : option (bytes * bytes)) (_ : Z) : res err token_answer := Ok (mkToken true (lit "e30.e30.e30") []).
Definition w_assert (_ : OIDCProvider) (_ : bytes) (_ : Z) : res err bytes := Err "none"%string.
Definition w_sha (b : bytes) : bytes := take 32 (b ++ replicate 32 0).

Definition w_rn0 : randoms := mkRandoms (lit "state-0123456789") (lit "nonce1") (lit "verifier") (lit "sealed-state") [].
Definition w_rn1 : randoms := mkRandoms [] [] [] (lit "sealed-session") [].
Definition w_browse (path query : string) (h : Header) : request :=
  mkRequest (lit "GET") (2, 0) (lit "www.example.com") [] [] (lit path) [] (lit query) (<[lit "Accept" := [lit "text/html"]]> h) (lit "192.0.2.1:5000") None None.
Definition w_q0 : request := w_browse "/admin/" "" ∅.
Definition w_pending : oidcPending := pending_of w_q0 w_provider w_admin (100 * second) w_rn0.
Definition w_id : oidcIdentity :=
  mkIdentity (lit "ann@example.com") (lit "ann@example.com") (lit "7") [] [lit "Admin"] true false 110 3710.
(** What is sealed is handed out by name. *)
Definition w_seal (nonce _ : bytes) (_ : sealed) : bytes := nonce.
Definition w_open (ad v : bytes) : option sealed :=
  if bool_decide (v = lit "sealed-state") && bool_decide (ad = bound "state" (lit "state-0123456789")) then Some (SealedState w_pending)
  else if bool_decide (v = lit "sealed-session") && bool_decide (ad = bound "session" (sessionBind w_provider)) then Some (SealedSession w_id)
  else None.
Definition w_q1 : request :=
  w_browse "/.tlsproxy/oidc/callback" "state=state-0123456789&code=c1" {[lit "Cookie" := [stateCookie (lit "state-0123456789") ++ lit "=sealed-state"]]}.
Definition w_q2 : request := w_browse "/admin/" "" {[lit "Cookie" := [oidcSessionCookie w_sha w_provider ++ lit "=sealed-session"]]}.

Definition w_gate := gate w_disco w_ca w_sha w_seal w_open.
Definition w_callback := callback w_disco w_keys w_ca w_header w_claims_of w_verify w_post w_assert w_sha w_seal w_open.
Definition w_step0 := w_gate ∅ w_q0 w_provider w_admin (100 * second) w_rn0.
Definition w_step1 := w_callback w_step0.1 w_q1 [w_provider] (110 * second) w_rn1.
Definition w_step2 := w_gate w_step1.1 w_q2 w_provider w_admin (200 * second) w_rn1.
Definition w_trace : list event :=
  [ECallback w_q1 [w_provider] (110 * second) w_rn1 w_step1.2; EGate w_q0 w_provider w_admin (100 * second) w_rn0 w_step0.2].
Definition w_world : oidc_world :=
  mkOidc w_step2.1 [(bound "session" (sessionBind w_provider), SealedSession w_id, lit "sealed-session");
                    (bound "state" (lit "state-0123456789"), SealedState w_pending, lit "sealed-state")].
Abbreviation w_run := (run w_disco w_keys w_ca w_header w_claims_of w_verify w_post w_assert w_sha w_seal w_open).

Definition w_sealed_state : bytes * sealed * bytes := (bound "state" (lit "state-0123456789"), SealedState w_pending, lit "sealed-state").
Definition w_sealed_session : bytes * sealed * bytes := (bound "session" (sessionBind w_provider), SealedSession w_id, lit "sealed-session").

Lemma w_honest w q :
  Forall (fun v => (v = lit "sealed-state" → w_sealed_state ∈ ow_sealed w) ∧ (v = lit "sealed-session" → w_sealed_session ∈ ow_sealed w))
    (ck_Value <$> read_cookies (rq_Header q)) → honest w_open w q.
Proof.
  intros H name v ad x Hv. assert (v ∈ ck_Value <$> read_cookies (rq_Header q)) as Hin.
  { unfold find_cookie in Hv. destruct (find _ _) as [c|] eqn:E; [|done]. injection Hv as <-. apply find_some in E as [E _]. by apply list_elem_of_fmap_2, list_elem_of_In. }
  rewrite Forall_forall in H. destruct (H v Hin) as [H1 H2]. unfold w_open. destruct (bool_decide (v = _) && _) eqn:E1.
  - apply andb_true_iff in E1 as [->%bool_decide_eq_true ->%bool_decide_eq_true]. injection 1 as <-. by apply H1.
  - destruct (bool_decide (v = lit "sealed-session") && _) eqn:E2; [|done].
    apply andb_true_iff in E2 as [->%bool_decide_eq_true ->%bool_decide_eq_true]. injection 1 as <-. by apply H2.
Qed.

Lemma w_runs : w_run (EGate w_q2 w_provider w_admin (200 * second) w_rn1 (LetIn w_id) :: w_trace) w_world.
Proof.
  assert (w_run [] (mkOidc ∅ [])) as R0 by constructor.
  assert (w_run [EGate w_q0 w_provider w_admin (100 * second) w_rn0 w_step0.2] (mkOidc w_step0.1 [w_sealed_state])) as R1.
  { refine (run_gate _ _ _ _ _ _ _ _ _ _ _ [] (mkOidc ∅ []) w_q0 w_provider w_admin (100 * second) w_rn0 w_step0.1 w_step0.2 R0 _ _); [|apply surjective_pairing].
    apply w_honest. by vm_compute. }
  assert (w_run w_trace (mkOidc w_step1.1 [w_sealed_session; w_sealed_state])) as R2.
  { refine (run_callback _ _ _ _ _ _ _ _ _ _ _ _ _ w_q1 [w_provider] (110 * second) w_rn1 w_step1.1 w_step1.2 R1 _ _); [|apply surjective_pairing].
    apply w_honest. replace (ck_Value <$> read_cookies (rq_Header w_q1)) with [lit "sealed-state"] by by vm_compute.
    apply Forall_singleton. split; [intros _; left|done]. }
  refine (run_gate _ _ _ _ _ _ _ _ _ _ _ _ _ w_q2 w_provider w_admin (200 * second) w_rn1 w_step2.1 (LetIn w_id) R2 _ _); [|by vm_compute].
  apply w_honest. replace (ck_Value <$> read_cookies (rq_Header w_q2)) with [lit "sealed-session"] by by vm_compute.
  apply Forall_singleton. split; [done|intros _; left].
Qed.

