(* ===== verification/Yaml.v ===== *)
(** Yaml: [config.yaml] as its walk sees it ([config_yaml.go]): the nodes the
    YAML library gives, mappings without repeated keys, values as text, and
    loops over lists. Reading the text into nodes is a parameter of the
    files that use it. *)

From S2P Require Import Prelude GoStr Config.

(** [yaml.Node]: its kind, tag, text, line, and the nodes inside. *)
Inductive node_kind := SequenceNode | MappingNode | ScalarNode | AliasNode.
#[export] Instance node_kind_eq_dec : EqDecision node_kind.
Proof. solve_decision. Defined.
#[warnings="-register-all"]
Inductive node := Node (kind : node_kind) (tag value : bytes) (line : Z) (content : list node).

Definition n_Kind (n : node) : node_kind := match n with Node k _ _ _ _ => k end.
Definition n_Tag (n : node) : bytes := match n with Node _ t _ _ _ => t end.
Definition n_Value (n : node) : bytes := match n with Node _ _ v _ _ => v end.
Definition n_Line (n : node) : Z := match n with Node _ _ _ l _ => l end.
Definition n_Content (n : node) : list node := match n with Node _ _ _ _ c => c end.
Definition is_null (n : node) : bool := says (n_Tag n) "!!null".

(** [pairs]: two nodes at a time, with the keys seen. *)
Fixpoint pairs_go (seen : list bytes) (content : list node) : res err (list (node * node)) :=
  match content with
  | k :: v :: content =>
      guard! bool_decide (n_Kind k = ScalarNode) else "a key must be a plain word"%string in
      guard! negb (contains seen (n_Value k)) else "is already given"%string in
      let! rest := pairs_go (n_Value k :: seen) content in
      Ok ((k, v) :: rest)
  | _ => Ok []
  end.
Definition pairs (m : node) : res err (list (node * node)) :=
  guard! bool_decide (n_Kind m = MappingNode) else "must be a mapping of key: value"%string in
  pairs_go [] (n_Content m).

Section Values.
Context (json_strings : list bytes → bytes).                 (* json.Marshal of a []string *)

(** [yamlValue] *)
Definition yamlValue (key : bytes) (v : node) : res err bytes :=
  match n_Kind v with
  | ScalarNode =>
      if is_null v then Ok []
      else if says key "cert_validate_args" then Err "cert_validate_args is a list"%string
      else Ok (n_Value v)
  | SequenceNode =>
      guard! forallb (fun it => bool_decide (n_Kind it = ScalarNode)) (n_Content v) else "is a list of values"%string in
      let items := n_Value <$> n_Content v in
      Ok (if says key "cert_validate_args" then json_strings items else join (lit "; ") items)
  | _ => Err "takes a value or a list, not a mapping"%string
  end.

(** The keys and values of a mapping, in order: the loop of [walkServe],
    [walkBasicAuth] and the sections. *)
Fixpoint key_values (l : list (node * node)) : res err (list (bytes * bytes)) :=
  match l with
  | [] => Ok []
  | (k, v) :: l =>
      let! value := yamlValue (n_Value k) v in
      let! rest := key_values l in
      Ok ((n_Value k, value) :: rest)
  end.
End Values.

(** A loop whose turns change a state and may fail. *)
Fixpoint fold_res {S A} (f : S → A → res err S) (s : S) (l : list A) : res err S :=
  match l with
  | [] => Ok s
  | x :: l => let! s := f s x in fold_res f s l
  end.

(** [eachItem] *)
Definition eachItem {S} (f : S → node → res err S) (v : node) (s : S) : res err S :=
  if is_null v then Ok s
  else
    guard! bool_decide (n_Kind v = SequenceNode) else "is a list (each item starting with -)"%string in
    fold_res f s (n_Content v).

(** * Lemmas *)

(** What a fold keeps, it keeps. *)
Lemma fold_res_ind {S A} (P : S → Prop) (f : S → A → res err S) l s s' :
  (∀ s x s', x ∈ l → P s → f s x = Ok s' → P s') → P s → fold_res f s l = Ok s' → P s'.
Proof.
  revert s. induction l as [|x l IH]; intros s Hf Hs; cbn [fold_res]; [by intros [= <-]|].
  destruct (f s x) as [s1|] eqn:E; [|done]. apply IH; [|by eapply (Hf s x); [left|..]].
  intros s2 y s3 Hy. apply Hf. by right.
Qed.

Lemma eachItem_ind {S} (P : S → Prop) (f : S → node → res err S) v s s' :
  (∀ s x s', P s → f s x = Ok s' → P s') → P s → eachItem f v s = Ok s' → P s'.
Proof.
  intros Hf Hs. unfold eachItem. destruct (is_null v); [by intros [= <-]|]. destruct (bool_decide _); [|done].
  apply fold_res_ind; [|done]. intros. by eapply Hf.
Qed.

(** A mapping's keys are different plain words. *)
Lemma pairs_go_keys n seen content l : (length content < n)%nat → pairs_go seen content = Ok l →
  NoDup (n_Value <$> l.*1) ∧ (∀ k, k ∈ n_Value <$> l.*1 → k ∉ seen) ∧ Forall (fun e => n_Kind e.1 = ScalarNode) l.
Proof.
  revert seen content l. induction n as [|n IH]; intros seen content l Hn; [lia|].
  destruct content as [|k [|v content]]; cbn [pairs_go]; [by intros [= <-]; repeat constructor; intros ? ?%not_elem_of_nil..|].
  destruct (bool_decide_reflect (n_Kind k = ScalarNode)) as [Hk|]; [|done]. destruct (contains seen (n_Value k)) eqn:Es; [done|]. cbn [negb].
  destruct (pairs_go _ content) as [rest|] eqn:E; [|done]. intros [= <-]. apply bool_decide_eq_false in Es.
  apply IH in E as (H1 & H2 & H3); [|cbn in Hn; lia]. cbn [fmap list_fmap fst]. split_and!.
  - constructor; [|done]. intros Hin%H2. apply Hin. by left.
  - intros k' [->|Hin%H2]%elem_of_cons; [done|]. intros Hs. apply Hin. by right.
  - by constructor.
Qed.

Lemma pairs_keys m l : pairs m = Ok l → n_Kind m = MappingNode ∧ NoDup (n_Value <$> l.*1).
Proof.
  unfold pairs. destruct (bool_decide_reflect (n_Kind m = MappingNode)); [|done]. intros H. split; [done|].
  by apply (pairs_go_keys (S (length (n_Content m)))) in H as [? _]; [|lia].
Qed.
