(* ===== verification/OidcConfig.v ===== *)
(** OidcConfig: the oidc items of the configuration ([oidc_config.go]): their
    keys, what an item must have, and the serve entries that name them. Files,
    [time.ParseDuration], [url.Parse] and reading a client certificate with
    its key are parameters. *)

From S2P Require Import Prelude GoStr NetIP Rules Config ServeConfig Http ReverseProxy Oidc Yaml.

Definition minute : Z := 60 * second.
Definition oidcDefaultSession : Z := 8 * 60 * minute.
Definition oidcDefaultScopes : list bytes := [lit "openid"; lit "profile"; lit "email"].
Definition maxSession : Z := 30 * 24 * 60 * minute.

(** [net.IP.IsLoopback] of what [net.ParseIP] reads. *)
Definition is_loopback (host : bytes) : bool :=
  match parse_addr host with
  | Some a =>
      bool_decide (zone a = []) &&
      match unmap a with
      | Addr4 (b :: _) => b =? 127
      | Addr6 b _ => bool_decide (b = replicate 15 0 ++ [1])
      | _ => false
      end
  | None => false
  end.

Definition new_provider (line : Z) : OIDCProvider :=
  mkProvider [] line [] [] [] None [] oidcDefaultScopes oidcDefaultSession [] [] [] (lit "groups") (lit "roles") [] [] [] [] 0.

Section OidcConfig.
Context (json_strings : list bytes → bytes) (url_parse : bytes → option parsed_url).
Context (read_text : bytes → option bytes) (file_exists : bytes → bool).      (* os.ReadFile, os.Stat *)
Context (parse_duration : bytes → option Z).
Context (client_cert : bytes → bytes → res err (bytes * bytes * Z)).          (* loadClientCert: key, thumbprint, expiry *)

(** [checkIssuer] *)
Definition checkIssuer (v : bytes) : option err :=
  match url_parse v with
  | None => Some "not a URL"%string
  | Some u =>
      if bool_decide (pu_host u = []) || pu_user u || negb (bool_decide (pu_query u = [])) || negb (bool_decide (pu_fragment u = []))
      then Some "must be a URL without user, query or fragment"%string
      else if says (pu_scheme u) "https" then None
      else if says (pu_scheme u) "http" then
        let host := Hostname (mkURL (pu_scheme u) (pu_host u)) in
        if says host "localhost" || is_loopback host then None else Some "http:// only to this machine"%string
      else Some "must start with https://"%string
  end.

(** One key of an oidc item; the flag is whether [client_secret] was given. *)
Definition oidc_key (p : OIDCProvider) (plain : bool) (k v : bytes) : res err (OIDCProvider * bool) :=
  let v := trim_space v in
  if says k "name" then
    guard! listenerName v else "name must be 1-64 letters, digits, spaces"%string in Ok (p {{ op_Name := v }}, plain)
  else if says k "issuer" then
    match checkIssuer v with Some e => Err e | None => Ok (p {{ op_Issuer := trim_suffix v (lit "/") }}, plain) end
  else if says k "client_id" then
    guard! negb (bool_decide (v = [])) else "client_id must not be empty"%string in Ok (p {{ op_ClientID := v }}, plain)
  else if says k "client_secret" then Ok (p {{ op_ClientSecret := v }}, true)
  else if says k "client_secret_file" then
    guard! negb (bool_decide (v = [])) else "client_secret_file must not be empty"%string in
    match read_text v with
    | None => Err "client_secret_file"%string
    | Some b =>
        guard! negb (bool_decide (trim_space b = [])) else "client_secret_file is empty"%string in
        Ok (p {{ op_ClientSecret := trim_space b; op_SecretFile := v }}, plain)
    end
  else if says k "scopes" then
    let given := fields_func (fun r => (r =? ch ";") || (r =? 32) || (r =? ch ",")) v in
    Ok (p {{ op_Scopes := lit "openid" :: filter (fun s => s <> lit "openid") given }}, plain)
  else if says k "session" then
    match parse_duration v with
    | Some d => guard! (minute <=? d) && (d <=? maxSession) else "session must be a duration from 1m to 720h"%string in Ok (p {{ op_Session := d }}, plain)
    | None => Err "session must be a duration from 1m to 720h"%string
    end
  else if says k "mfa_acr_values" then Ok (p {{ op_MFAAcr := splitList v }}, plain)
  else if says k "ca_file" then
    guard! negb (bool_decide (v = [])) else "ca_file must not be empty"%string in
    guard! file_exists v else "ca_file"%string in Ok (p {{ op_CAFile := v }}, plain)
  else if says k "username_claim" then Ok (p {{ op_UserClaim := v }}, plain)
  else if says k "groups_claim" then
    guard! negb (bool_decide (v = [])) else "groups_claim must not be empty"%string in Ok (p {{ op_GroupsClaim := v }}, plain)
  else if says k "roles_claim" then
    guard! negb (bool_decide (v = [])) else "roles_claim must not be empty"%string in Ok (p {{ op_RolesClaim := v }}, plain)
  else if says k "client_certificate" then
    guard! negb (bool_decide (v = [])) else "client_certificate must not be empty"%string in Ok (p {{ op_CertFile := v }}, plain)
  else if says k "client_key" then
    guard! negb (bool_decide (v = [])) else "client_key must not be empty"%string in Ok (p {{ op_KeyFile := v }}, plain)
  else Err "unknown key"%string.

(** The checks after the keys. *)
Definition oidc_checks (p : OIDCProvider) (plain : bool) : option err :=
  if bool_decide (op_Name p = []) then Some "name is required"%string
  else if bool_decide (op_Issuer p = []) then Some "issuer is required"%string
  else if bool_decide (op_ClientID p = []) then Some "client_id is required"%string
  else if bool_decide (op_ClientSecret p = []) && bool_decide (op_CertFile p = []) && bool_decide (op_KeyFile p = [])
    then Some "client_secret, client_secret_file, or client_certificate with client_key is required"%string
  else if plain && negb (bool_decide (op_SecretFile p = [])) then Some "give client_secret or client_secret_file, not both"%string
  else if negb (bool_decide (op_ClientSecret p = [])) && (negb (bool_decide (op_CertFile p = [])) || negb (bool_decide (op_KeyFile p = [])))
    then Some "give a client secret or a client certificate, not both"%string
  else if negb (Bool.eqb (bool_decide (op_CertFile p = [])) (bool_decide (op_KeyFile p = [])))
    then Some "client_certificate and client_key go together"%string
  else None.

(** [walkOIDC] *)
Definition walkOIDC (item : node) : res err OIDCProvider :=
  let! items := pairs item in
  let! (p, plain) :=
    fold_res (fun '(p, plain) '(k, v) => let! v := yamlValue json_strings (n_Value k) v in oidc_key p plain (n_Value k) v)
      (new_provider (n_Line item), false) items in
  match oidc_checks p plain with
  | Some e => Err e
  | None =>
      if bool_decide (op_CertFile p = []) then Ok p
      else let! (key, thumbprint, expires) := client_cert (op_CertFile p) (op_KeyFile p) in
           Ok (p {{ op_ClientKey := Some key; op_thumbprint := thumbprint; op_CertExpires := expires }})
  end.
End OidcConfig.

(** * [resolveOIDC] *)

(** The items by name. *)
Definition add_provider (m : gmap bytes OIDCProvider) (p : OIDCProvider) : res err (gmap bytes OIDCProvider) :=
  guard! negb (bool_decide (is_Some (m !! op_Name p))) else "the name is already used"%string in
  Ok (<[op_Name p := p {{ op_referenced := [] }}]> m).

(** What a serve entry adds to the item it names; [op_referenced] is a set. *)
Definition add_referenced (l : list bytes) (x : bytes) : list bytes := if contains l x then l else l ++ [x].
Definition refer (m : gmap bytes OIDCProvider) (s : ServiceRoute) : res err (gmap bytes OIDCProvider) :=
  if bool_decide (sr_OIDC s = []) then Ok m
  else match m !! sr_OIDC s with
       | None => Err "there is no oidc item of that name"%string
       | Some p =>
           let refs := foldl add_referenced (op_referenced p)
             (((fun g => lit "g:" ++ g) <$> sr_RequireGroups s) ++ ((fun g => lit "r:" ++ g) <$> sr_RequireRoles s)) in
           Ok (<[sr_OIDC s := p {{ op_referenced := refs }}]> m)
       end.

(** The warnings about one item. *)
Definition oidc_used (rules : list Rule) (name : bytes) : bool :=
  existsb (fun r => existsb (fun s => bool_decide (sr_OIDC s = name)) (r_Routes r)) rules.
Definition oidc_warnings (now : Z) (rules : list Rule) (name : bytes) (p : OIDCProvider) : list warning :=
  (if negb (bool_decide (op_CertFile p = [])) && (op_CertExpires p - now <? 30 * 24 * 60 * minute) then [ClientCertExpires name] else [])
  ++ (if oidc_used rules name then [] else [UnusedOIDC name]).

(** [resolveOIDC]: the items it leaves in [c.OIDC], by name, and the
    configuration with its warnings; [s.oidc] is the item [sr_OIDC] names. *)
Definition resolveOIDC (now : Z) (c : Config) (providers : list OIDCProvider) : res err (Config * gmap bytes OIDCProvider) :=
  let! m := fold_res add_provider ∅ providers in
  let! m := fold_res refer m (c_Rules c ≫= r_Routes) in
  Ok (c {{ c_Warnings ::= fun w => w ++ (map_to_list m ≫= fun e => oidc_warnings now (c_Rules c) e.1 e.2) }}, m).

(** * What an item that loads has *)

Record provider_ok (p : OIDCProvider) : Prop := {
  v_named : op_Name p ≠ [] ∧ op_Issuer p ≠ [] ∧ op_ClientID p ≠ [];
  v_client : (op_ClientSecret p ≠ [] ∧ op_CertFile p = [] ∧ op_KeyFile p = [] ∧ op_ClientKey p = None) ∨
             (op_ClientSecret p = [] ∧ op_CertFile p ≠ [] ∧ op_KeyFile p ≠ [] ∧ is_Some (op_ClientKey p));
  v_scopes : lit "openid" ∈ op_Scopes p;
  v_session : minute <= op_Session p <= maxSession;
  v_claims : op_GroupsClaim p ≠ [] ∧ op_RolesClaim p ≠ [];
}.

(** What every key keeps. *)
Definition provider_kept (p : OIDCProvider) : Prop :=
  (lit "openid" ∈ op_Scopes p) ∧ minute <= op_Session p <= maxSession ∧ op_GroupsClaim p ≠ [] ∧ op_RolesClaim p ≠ [] ∧ op_ClientKey p = None.

Section Walk.
Context (json_strings : list bytes → bytes) (url_parse : bytes → option parsed_url) (read_text : bytes → option bytes) (file_exists : bytes → bool).
Context (parse_duration : bytes → option Z) (client_cert : bytes → bytes → res err (bytes * bytes * Z)).

Lemma oidc_key_kept p plain k v p' plain' : provider_kept p →
  oidc_key url_parse read_text file_exists parse_duration p plain k v = Ok (p', plain') → provider_kept p'.
Proof.
  intros (H1 & H2 & H3 & H4 & H5). unfold oidc_key.
  repeat match goal with |- (if says ?k ?t then _ else _) = _ → _ => destruct (says k t) end; [..|done].
  all: repeat match goal with
    | |- (if ?g then _ else _) = _ → _ => destruct g eqn:?; [|done]
    | |- match ?r with _ => _ end = _ → _ => destruct r eqn:?; try done
    end; intros [= <- <-]; unfold provider_kept; destruct p; cbn in *; unfold constant; split_and!; try done; bool_prop; try assumption; try lia; try (by left).
Qed.

Lemma walkOIDC_ok item p : walkOIDC json_strings url_parse read_text file_exists parse_duration client_cert item = Ok p → provider_ok p.
Proof.
  unfold walkOIDC. destruct (pairs item) as [items|]; [|done]. destruct (fold_res _ _ items) as [[q plain]|] eqn:E; [|done].
  assert (provider_kept q) as (K1 & K2 & K3 & K4 & K5).
  { change q with (q, plain).1. revert E. apply (fold_res_ind (fun s => provider_kept s.1)).
    - intros [p0 b0] [k v] [p1 b1] _ Hk. cbn. destruct (yamlValue _ _ _); [|done]. by apply oidc_key_kept.
    - unfold provider_kept. split_and!; try done. by left. }
  destruct (oidc_checks q plain) eqn:Ec; [done|]. unfold oidc_checks in Ec.
  repeat match type of Ec with (if ?b then _ else _) = None => let H := fresh "C" in destruct b eqn:H; [discriminate|] end. clear Ec.
  assert (op_Name q ≠ [] ∧ op_Issuer q ≠ [] ∧ op_ClientID q ≠ []) as Hn by (apply bool_decide_eq_false in C, C0, C1; done).
  intros H.
  destruct (bool_decide_reflect (op_CertFile q = [])) as [H1|H1], (bool_decide_reflect (op_KeyFile q = [])) as [H2|H2], (bool_decide_reflect (op_ClientSecret q = [])) as [H3|H3]; try discriminate.
  - injection H as <-. split; try done. by left.
  - destruct (client_cert _ _) as [[[key th] ex]|]; [|done]. injection H as <-. split; try done. right. cbn. by split_and!; [..|eexists].
Qed.
End Walk.

Lemma add_providers_ok l m m' : (∀ n p, m !! n = Some p → op_Name p = n ∧ provider_ok p) → Forall provider_ok l →
  fold_res add_provider m l = Ok m' → (∀ n p, m' !! n = Some p → op_Name p = n ∧ provider_ok p).
Proof.
  revert m. induction l as [|p l IH]; intros m Hm Hl; cbn [fold_res]; [by intros [= <-]|]. unfold add_provider at 1.
  destruct (bool_decide _); [done|]. cbn [negb]. apply Forall_cons in Hl as [Hp Hl]. apply IH; [|done].
  intros n q. rewrite lookup_insert_Some. intros [[<- <-]|[_ H]]; [|by apply Hm]. split; [done|]. by destruct Hp; split.
Qed.

Lemma refer_ok m s m' : (∀ n p, m !! n = Some p → op_Name p = n ∧ provider_ok p) → refer m s = Ok m' →
  (∀ n p, m' !! n = Some p → op_Name p = n ∧ provider_ok p) ∧ dom m' = dom m ∧ (sr_OIDC s = [] ∨ is_Some (m !! sr_OIDC s)).
Proof.
  intros Hm. unfold refer. destruct (bool_decide_reflect (sr_OIDC s = [])) as [|Hn]; [intros [= <-]; by auto|].
  destruct (m !! sr_OIDC s) as [p|] eqn:E; [|done]. intros [= <-]. split_and!; [| |by right].
  - intros n q. rewrite lookup_insert_Some. intros [[<- <-]|[_ H]]; [|by apply Hm]. destruct (Hm _ _ E) as [? Hp]. split; [done|]. by destruct Hp; split.
  - apply dom_insert_lookup_L. eauto.
Qed.

Lemma resolveOIDC_ok now c providers c' m : Forall provider_ok providers → resolveOIDC now c providers = Ok (c', m) →
  (∃ w, c' = c {{ c_Warnings := w }}) ∧ (∀ n p, m !! n = Some p → op_Name p = n ∧ provider_ok p) ∧
  (∀ r s, r ∈ c_Rules c → s ∈ r_Routes r → sr_OIDC s = [] ∨ is_Some (m !! sr_OIDC s)).
Proof.
  intros Hp. unfold resolveOIDC. destruct (fold_res add_provider _ _) as [m0|] eqn:E0; [|done].
  destruct (fold_res refer m0 _) as [m1|] eqn:E1; [|done]. intros H. assert (m1 = m) as -> by congruence.
  split; [exists (c_Warnings c ++ (map_to_list m ≫= fun e => oidc_warnings now (c_Rules c) e.1 e.2)); injection H as <-; by destruct c|]. clear H.
  pose proof (add_providers_ok _ _ _ ltac:(by intros ? ? ?%lookup_empty_Some) Hp E0) as Hm0.
  enough (∀ l m0, (∀ n p, m0 !! n = Some p → op_Name p = n ∧ provider_ok p) → fold_res refer m0 l = Ok m →
    (∀ n p, m !! n = Some p → op_Name p = n ∧ provider_ok p) ∧ dom m = dom m0 ∧ (∀ s, s ∈ l → sr_OIDC s = [] ∨ is_Some (m !! sr_OIDC s))) as Hl.
  { destruct (Hl _ _ Hm0 E1) as (H1 & _ & H3). split; [done|]. intros r s Hr Hs. apply H3, list_elem_of_bind. eauto. }
  clear. induction l as [|s l IH]; intros m0 Hm; cbn [fold_res]; [intros [= <-]; split_and!; [done..|by intros ? ?%not_elem_of_nil]|].
  destruct (refer m0 s) as [m1|] eqn:E; [|done]. apply refer_ok in E as (H1 & H2 & H3); [|done]. intros H.
  destruct (IH m1 H1 H) as (I1 & I2 & I3). split_and!; [done|congruence|]. intros s' [->|Hs']%elem_of_cons; [|by apply I3].
  destruct H3 as [H3|H3]; [by left|right]. apply elem_of_dom. rewrite I2, H2. by apply elem_of_dom.
Qed.
