(* ===== verification/ConfigLoad.v ===== *)
(** ConfigLoad: from the text of [config.yaml] to the configuration the proxy
    runs ([LoadConfig] of [config.go], the walk of [config_yaml.go], the
    console's rule of [console_config.go]), and what every configuration that
    loads guarantees. Reading the text into YAML nodes is a parameter, with
    what the files before take as parameters. *)

From S2P Require Import Prelude GoStr NetIP NetIPText Sni Rules CertNames Config Password ServeConfig RuleBuild Http Oidc Yaml OidcConfig.

Definition acmeFolder : bytes := lit "acme".

(** What the walk has read so far: the variables of [LoadConfig]. *)
Record loading := mkLoading { ld_g : globals; ld_raws : list rawRule; ld_auths : list Rules.BasicAuth; ld_providers : list OIDCProvider }.
Definition set_listeners (st : loading) (f : list Listener → list Listener) : loading :=
  st {{ ld_g ::= fun g => set_cfg g (fun c => c {{ c_Listeners ::= f }}) }}.

Section Walk.
Context (json_strings : list bytes → bytes) (url_parse : bytes → option parsed_url) (read_text : bytes → option bytes) (file_exists : bytes → bool).
Context (parse_duration parse_date parse_rfc3339 : bytes → option Z) (client_cert : bytes → bytes → res err (bytes * bytes * Z)).

(** * Sections *)

(** The keys of [global] and [logging]. *)
Definition global_item (st : loading) (kv : node * node) : res err loading :=
  let! value := yamlValue json_strings (n_Value kv.1) kv.2 in
  let! g := apply_global (ld_g st) (n_Value kv.1) value in
  Ok (st {{ ld_g := g }}).
Definition logging_item (st : loading) (kv : node * node) : res err loading :=
  let! value := yamlValue json_strings (n_Value kv.1) kv.2 in
  let! log := apply_logging (c_Log (gl_cfg (ld_g st))) (n_Value kv.1) value in
  Ok (st {{ ld_g ::= fun g => set_cfg g (fun c => c {{ c_Log := log }}) }}).

(** One listener: its keys are applied to a listener of its own, the last of
    the list. *)
Definition listener_key (l : Listener) (kv : node * node) : res err Listener :=
  let key := n_Value kv.1 in
  let! value := yamlValue json_strings key kv.2 in
  let l := if says key "bind" then l {{ l_bindSet := true }} else if says key "port" then l {{ l_portSet := true }} else l in
  listenerOption l key value.
Definition walk_listener (st : loading) (item : node) : res err loading :=
  let! items := pairs item in
  let! l := fold_res listener_key (new_listener [] (n_Line item) (lit "0.0.0.0") [lit "0.0.0.0"] 0) items in
  Ok (set_listeners st (fun ls => ls ++ [l])).

(** * Rules *)

(** The case [host] of [apply]. *)
Definition host_key (r : rawRule) (key v : bytes) : res err rawRule :=
  if says key "action" then Ok (r {{ rw_action := Some v }})
  else if says key "cert" then Ok (r {{ rw_cert := Some v }})
  else if says key "cert_domains" then Ok (r {{ rw_certDomains := Some v }})
  else if says key "cert_validate_script" then Ok (r {{ rw_certScript := Some v }})
  else if says key "cert_validate_args" then Ok (r {{ rw_certArgs := Some v }})
  else if says key "upstream_tls" then Ok (r {{ rw_upstreamTLS := Some v }})
  else if says key "upstream_tls_verify" then Ok (r {{ rw_upstreamVerify := Some v }})
  else if says key "upstream_sni" then Ok (r {{ rw_upstreamSNI := Some v }})
  else if says key "max_aggregated_speed" then Ok (r {{ rw_aggSpeed := Some v }})
  else if says key "max_single_connection_speed" then Ok (r {{ rw_connSpeed := Some v }})
  else Err "unknown key in a rule"%string.

(** [walkServe] *)
Definition serve_item (st : Z * rawRule) (item : node) : res err (Z * rawRule) :=
  let n := st.1 + 1 in
  let! items := pairs item in
  let! opts := key_values json_strings items in
  Ok (n, st.2 {{ rw_serviceRules ::= fun l => l ++ [mkRawService (lit "serve " ++ itoa n) opts (n_Line item)] }}).
Definition walkServe (r : rawRule) (v : node) : res err rawRule :=
  let! (n, r) := eachItem serve_item v (0, r) in Ok r.

(** One key of a rule, in [walkRoutes]. *)
Definition rule_key (r : rawRule) (kv : node * node) : res err rawRule :=
  let key := n_Value kv.1 in
  if says key "serve" then walkServe r kv.2
  else
    let! value := yamlValue json_strings key kv.2 in
    if says key "domain" then Ok (r {{ rw_pattern := Some value }})
    else if says key "pattern" || says key "target_host" || says key "target_port" || says key "proxy_version" || says key "listener"
      then Err "unknown key in a rule"%string
    else if says key "target" then Ok (r {{ rw_target := Some value; rw_targetLine := n_Line kv.1 }})
    else if says key "proxy" then
      let low := to_lower value in
      if says low "v1" || says low "v2" then Ok (r {{ rw_proxy := Some (lit "true"); rw_proxyVersion := Some (drop 1 value) }})
      else if says low "none" || says low "false" || bool_decide (low = []) then Ok (r {{ rw_proxy := Some (lit "false") }})
      else Err "proxy must be v1 or v2, or none"%string
    else host_key r key value.

Definition walk_rule (listener : bytes) (raws : list rawRule) (rule : node) : res err (list rawRule) :=
  let! items := pairs rule in
  let! r := fold_res rule_key (zero_raw {{ rw_line := n_Line rule; rw_listener := Some listener }}) items in
  Ok (raws ++ [r]).

(** The keys of a routes item. *)
Definition routes_key (st : option bytes * option node) (kv : node * node) : res err (option bytes * option node) :=
  let key := n_Value kv.1 in
  if says key "listener" then let! v := yamlValue json_strings (lit "listener") kv.2 in Ok (Some v, st.2)
  else if says key "rules" then Ok (st.1, Some kv.2)
  else Err "unknown key in a routes item"%string.

(** [walkRoutes] *)
Definition walkRoutes (st : loading) (group : node) : res err loading :=
  let! items := pairs group in
  let! (listener, rules) := fold_res routes_key (None, None) items in
  match listener with
  | None => Err "a routes item needs listener: <name>"%string
  | Some listener =>
      match rules with
      | None => Ok st
      | Some rules => let! raws := eachItem (walk_rule listener) rules (ld_raws st) in Ok (st {{ ld_raws := raws }})
      end
  end.

(** * basic_auth *)

Definition user_item (a : Rules.BasicAuth) (u : node) : res err Rules.BasicAuth :=
  let! fields := pairs u in
  let! opts := key_values json_strings fields in
  addUser parse_date parse_rfc3339 a opts.
Definition basic_auth_key (a : Rules.BasicAuth) (kv : node * node) : res err Rules.BasicAuth :=
  let key := n_Value kv.1 in
  if says key "name" then
    guard! listenerName (n_Value kv.2) else "name must be 1-64 letters, digits, spaces"%string in
    Ok (mkBasicAuth (n_Value kv.2) (ba_Line a) (ba_Users a))
  else if says key "users" then eachItem user_item kv.2 a
  else Err "unknown key in basic_auth (name, users)"%string.
(** [walkBasicAuth] *)
Definition walkBasicAuth (item : node) : res err Rules.BasicAuth :=
  let! items := pairs item in
  fold_res basic_auth_key (mkBasicAuth [] (n_Line item) ∅) items.

(** * The file *)

(** One section, in [walkYAML]. *)
Definition walk_section (st : loading) (kv : node * node) : res err loading :=
  let key := n_Value kv.1 in
  if says key "global" || says key "logging" then
    if is_null kv.2 then Ok st
    else
      let! items := pairs kv.2 in
      fold_res (if says key "global" then global_item else logging_item) st items
  else if says key "listeners" then eachItem walk_listener kv.2 st
  else if says key "routes" then eachItem walkRoutes kv.2 st
  else if says key "basic_auth" then
    eachItem (fun st item => let! a := walkBasicAuth item in Ok (st {{ ld_auths ::= fun l => l ++ [a] }})) kv.2 st
  else if says key "oidc" then
    eachItem (fun st item => let! p := walkOIDC json_strings url_parse read_text file_exists parse_duration client_cert item in
                             Ok (st {{ ld_providers ::= fun l => l ++ [p] }})) kv.2 st
  else if says key "console" then Err "the console is not configured in this file"%string
  else Err "unknown section"%string.

(** [parseYAML] and [walkYAML]; an empty file is an empty mapping. *)
Context (yaml_parse : bytes → res err (option node)).       (* yaml.Unmarshal: the document's root, if any *)
Definition parseYAML (text : bytes) : res err node :=
  let! root := yaml_parse text in
  let root := default (Node MappingNode (lit "!!map") [] 0 []) root in
  guard! bool_decide (n_Kind root = MappingNode) else "the file is a mapping of sections"%string in
  Ok root.
Definition walkYAML (st : loading) (text : bytes) : res err loading :=
  let! root := parseYAML text in
  let! top := pairs root in
  fold_res walk_section st top.
End Walk.

(** * The console's rule *)

(** [resolveConsoleAlias] *)
Definition resolveConsoleAlias (c : Config) (con : option ConsoleConfig) (raws : list rawRule) : res err unit :=
  match con with
  | Some _ => Ok tt
  | None =>
      guard! negb (existsb (fun l => bool_decide (l_Name l = consoleAlias)) (c_Listeners c)) else "this proxy has no console (-noconsole)"%string in
      guard! negb (existsb (fun r => bool_decide (rw_listener r = Some consoleAlias)) raws) else "this proxy has no console (-noconsole)"%string in
      Ok tt
  end.

Section Load.
Context (json_args : bytes → option (list bytes)) (url_parse : bytes → option parsed_url) (read_file : bytes → res err bytes).

(** The rule [addConsoleRule] builds. *)
Definition console_raw (con : ConsoleConfig) : rawRule :=
  zero_raw {{ rw_listener := Some consoleAlias; rw_cert := Some (if con_certificate con then lit "local-ca" else con_Cert con); rw_console := true;
              rw_pattern := Some (if con_NoSNI con then noSNI else con_Domain con);
              rw_certDomains := if is_valid (con_IP con) then Some (addr_string (con_IP con)) else None }}.

(** Whether a rule of the file has the console's name. *)
Definition console_clash (con : ConsoleConfig) (r : Rule) : bool :=
  bool_decide (r_Listener r = consoleAlias) &&
  ((con_NoSNI con && bool_decide (r_Kind r = kindNone)) ||
   (negb (con_NoSNI con) && bool_decide (r_Kind r = kindLiteral) && bool_decide (literalName (r_Source r) = con_Domain con))).

(** [addConsoleRule] *)
Definition addConsoleRule (c : Config) (con : option ConsoleConfig) : res err Config :=
  match con with
  | None => Ok c
  | Some con =>
      guard! negb (existsb (console_clash con) (c_Rules c)) else "the web console's domain can't have a rule of its own there"%string in
      let! rule := buildRule json_args url_parse read_file c (console_raw con) in
      Ok (c {{ c_Rules ::= fun l => l ++ [rule {{ r_fixedCert := con_certificate con }}] }})
  end.

(** [ConsoleRule] *)
Definition ConsoleRule (c : Config) : option Rule := find r_Console (c_Rules c).

(** * Priorities *)

(** [prioritise]: the listeners with their routes, and the warnings. *)
Fixpoint prioritise_listeners (rules : list Rule) (ls : list Listener) : res err (list Listener * list warning) :=
  match ls with
  | [] => Ok ([], [])
  | l :: ls =>
      let! (routes, pairs) := or_fail "a rule can never match" (prioritiseListener rules (l_Name l)) in
      let! (ls, w) := prioritise_listeners rules ls in
      Ok (l {{ l_routes := routes }} :: ls, ((fun p => RuleOrder p.1 p.2) <$> pairs) ++ w)
  end.
Definition prioritise (c : Config) : res err Config :=
  let! (ls, w) := prioritise_listeners (c_Rules c) (c_Listeners c) in
  Ok (c {{ c_Listeners := ls; c_Warnings ::= fun l => l ++ w }}).

(** A listener's routes hold pointers into [c.Rules], which [resolveServe] and
    [resolveOIDC] complete after the priorities are made. *)
Definition relink (c : Config) : Config :=
  c {{ c_Listeners ::= fmap (fun l => match prioritiseListener (c_Rules c) (l_Name l) with Ok (routes, _) => l {{ l_routes := routes }} | Err _ => l end) }}.

(** * Warnings *)

Definition any_target (r : Rule) : bool :=
  r_Allow r && bool_decide (r_Kind r = kindCatchAll) && contains (replace_all2 (r_TargetHost r) (ch "$") (ch "$") []) (ch "$").

(** [AutoDomains] *)
Definition AutoDomains (c : Config) : list bytes :=
  foldl (fun out d => if contains out d then out else out ++ [d]) [] (filter (fun r => r_Cert r = lit "auto") (c_Rules c) ≫= r_CertDomains).

Definition acme_warnings (c : Config) : list warning :=
  if bool_decide (AutoDomains c = []) then []
  else
    let v4Only := forallb (fun l => forallb (fun b => match parse_addr b with Some a => is4 (unmap a) | None => false end) (l_Binds l)) (c_Listeners c) in
    (if existsb (fun l => l_Port l =? 443) (c_Listeners c) then [] else [No443])
    ++ (if v4Only then match find (fun ip => match parse_addr ip with Some a => is6 a | None => false end) (c_PublicIPs c) with Some ip => [IPv6Only ip] | None => [] end else [])
    ++ (if bool_decide (c_PublicIPs c = []) then [NoPublicIP] else []).

(** * [LoadConfig] *)

(** The rules of the file, in order. *)
Definition build_rules (c : Config) (raws : list rawRule) : res err (list Rule) :=
  mapM_res (fun r => buildRule json_args url_parse read_file c r) raws.

(** After the walk: the listeners, then the rules. *)
Definition settle (con : option ConsoleConfig) (st : loading) : res err Config :=
  let c := (gl_cfg (ld_g st)) {{ c_CertPath := path_join (c_CARoot (gl_cfg (ld_g st))) acmeFolder }} in
  let! _ := resolveConsoleAlias c con (ld_raws st) in
  let! c := placeConsoleListener c con in
  let c := c {{ c_BufferPoolMaxIdle := if gl_poolMaxIdle (ld_g st) <? 0 then 2 * c_MaxConnections c else gl_poolMaxIdle (ld_g st) }} in
  let! c := resolveListeners c in
  let! c := if gl_httpRedirect (ld_g st) then makeRedirectListener c else Ok c in
  let! rules := build_rules c (ld_raws st) in
  addConsoleRule (c {{ c_Rules := rules }}) con.

(** Then what the rules name, and the warnings. *)
Definition finish_load (now : Z) (con : option ConsoleConfig) (st : loading) : res err (Config * gmap bytes OIDCProvider) :=
  let! c := settle con st in
  let! c := prioritise c in
  let c := c {{ c_Warnings ::= fun w => w ++ ((fun r => AnyTarget (r_Line r)) <$> filter (fun r => any_target r = true) (c_Rules c)) }} in
  let! c := resolveServe c (ld_auths st) in
  let! (c, oidc) := resolveOIDC now c (ld_providers st) in
  let c := c {{ c_Warnings ::= fun w => w ++ acme_warnings c }} in
  guard! bool_decide (c_PublicIPs c = []) || negb (bool_decide (c_DNSResolvers c = [])) || negb (existsb (fun r => bool_decide (r_Cert r = lit "auto")) (c_Rules c))
    else "cert: auto with public_ip_address needs dns_resolvers in global"%string in
  Ok (relink c, oidc).
End Load.

Section LoadConfig.
Context (json_strings : list bytes → bytes) (json_args : bytes → option (list bytes)) (url_parse : bytes → option parsed_url).
Context (read_text : bytes → option bytes) (read_file : bytes → res err bytes) (file_exists : bytes → bool).
Context (parse_duration parse_date parse_rfc3339 : bytes → option Z) (client_cert : bytes → bytes → res err (bytes * bytes * Z)).
Context (yaml_parse : bytes → res err (option node)) (fileHash : bytes → bytes).

Definition LoadConfig (now : Z) (text : bytes) (con : option ConsoleConfig) : res err (Config * gmap bytes OIDCProvider) :=
  let st := mkLoading (mkGlobals (defaultConfig (fileHash text)) (-1) false) [] [] [] in
  let! st := walkYAML json_strings url_parse read_text file_exists parse_duration parse_date parse_rfc3339 client_cert yaml_parse st text in
  finish_load json_args url_parse read_file now con st.
End LoadConfig.

(** * What every configuration that loads guarantees *)

(** ** What the walk keeps *)

(** The walk's state: the numbers in range, names no key of a rule confuses,
    rules that are the file's own. *)
Record walked (st : loading) : Prop := {
  w_numbers : config_ok (gl_cfg (ld_g st)) ∧ -1 <= gl_poolMaxIdle (ld_g st) < 2 ^ 31;
  w_rest : c_Rules (gl_cfg (ld_g st)) = [] ∧ c_Console (gl_cfg (ld_g st)) = None;
  w_names : Forall (fun l => 0 ∉ l_Name l) (c_Listeners (gl_cfg (ld_g st)));
  w_raws : Forall (fun r => rw_console r = false) (ld_raws st);
  w_providers : Forall provider_ok (ld_providers st);
}.

(** What the sections' keys leave alone. *)
Definition same_rest (c c' : Config) : Prop :=
  c_Rules c' = c_Rules c ∧ c_Console c' = c_Console c ∧ c_Listeners c' = c_Listeners c.

Lemma apply_number_rest c key value c' : apply_number c key value = Some (Ok c') → same_rest c c'.
Proof.
  unfold apply_number. repeat match goal with |- (if ?b then _ else _) = _ → _ => destruct b end; try done; intros [= H]; revert H.
  all: match goal with |- match ?r with _ => _ end = _ → _ => destruct r as [n|] eqn:E; [|done] end.
  all: repeat match goal with |- (if ?b then _ else _) = _ → _ => destruct b eqn:? end; try done; injection 1 as <-; by destruct c.
Qed.

Lemma apply_switch_rest c key value c' : apply_switch c key value = Some (Ok c') → same_rest c c'.
Proof.
  unfold apply_switch. repeat match goal with |- (if ?b then _ else _) = _ → _ => destruct b end; try done; intros [= H]; revert H.
  all: destruct (parseBool value); [|done]; injection 1 as <-; by destruct c.
Qed.

Lemma apply_text_rest c key value c' : apply_text c key value = Ok c' → same_rest c c'.
Proof.
  unfold apply_text.
  repeat match goal with
  | |- (if ?b then _ else _) = _ → _ => destruct b
  | |- match ?r with _ => _ end = _ → _ => destruct r
  end; try done; injection 1 as <-; by destruct c.
Qed.

Lemma apply_global_rest g key value g' : apply_global g key value = Ok g' → same_rest (gl_cfg g) (gl_cfg g').
Proof.
  unfold apply_global. destruct (global_gone key); [done|].
  destruct (says key _); [destruct (num value); [|done]; intros [= <-]; by destruct g|].
  destruct (says key _); [destruct (parseBool value); [|done]; intros [= <-]; by destruct g|].
  destruct (apply_number _ _ _) as [[c|]|] eqn:E1; [|done|].
  { intros [= <-]. destruct g. by apply apply_number_rest in E1. }
  destruct (apply_switch _ _ _) as [[c|]|] eqn:E2; [|done|].
  { intros [= <-]. destruct g. by apply apply_switch_rest in E2. }
  destruct (apply_text _ _ _) as [c|] eqn:E3; [|done]. intros [= <-]. destruct g. by apply apply_text_rest in E3.
Qed.

(** A listener's name is one of a listener, and has no NUL. *)
Lemma listenerName_no_nul v : listenerName v = true → 0 ∉ v.
Proof.
  unfold listenerName. intros H Hin. bool_prop.
  repeat match goal with H : forallb _ _ = true |- _ => rewrite forallb_forall in H; apply list_elem_of_In in Hin; specialize (H _ Hin); by vm_compute in H end.
Qed.

Lemma listenerOption_name l key value l' : 0 ∉ l_Name l → listenerOption l key value = Ok l' → 0 ∉ l_Name l'.
Proof.
  intros Hl. unfold listenerOption. destruct (says key "name").
  { destruct (_ || _) eqn:E; [|done]. intros [= <-]. destruct l; cbn. apply orb_true_iff in E as [E|E]; [apply bool_decide_eq_true in E as ->; by apply (bool_decide_unpack _)|by apply listenerName_no_nul]. }
  repeat match goal with
  | |- (if ?b then _ else _) = _ → _ => destruct b
  | |- match ?r with _ => _ end = _ → _ => destruct r
  end; try done; intros [= <-]; by destruct l.
Qed.

Section WalkFacts.
Context (json_strings : list bytes → bytes) (url_parse : bytes → option parsed_url) (read_text : bytes → option bytes) (file_exists : bytes → bool).
Context (parse_duration parse_date parse_rfc3339 : bytes → option Z) (client_cert : bytes → bytes → res err (bytes * bytes * Z)).
Context (yaml_parse : bytes → res err (option node)).

Lemma global_item_walked st kv st' : walked st → global_item json_strings st kv = Ok st' → walked st'.
Proof.
  intros [[H1 H2] [H3 H3'] H4 H5 H6]. unfold global_item. destruct (yamlValue _ _ _) as [v|]; [|done].
  destruct (apply_global _ _ _) as [g|] eqn:E; [|done]. intros [= <-].
  assert (apply_globals (ld_g st) [(n_Value kv.1, v)] = Ok g) as E1 by (cbn; by rewrite E).
  destruct (apply_globals_ok _ _ _ H1 H2 E1) as [K1 K2]. apply apply_global_rest in E as (R1 & R2 & R3).
  destruct st; cbn in *. split; cbn; unfold constant; [done|split; congruence|by rewrite R3|done..].
Qed.

Lemma set_log_ok c log : config_ok c → config_ok (c {{ c_Log := log }}).
Proof. intros []. by split. Qed.

Lemma logging_item_walked st kv st' : walked st → logging_item json_strings st kv = Ok st' → walked st'.
Proof.
  intros [[H1 H2] H3 H4 H5 H6]. unfold logging_item. destruct (yamlValue _ _ _) as [v|]; [|done].
  destruct (apply_logging _ _ _) as [log|]; [|done]. intros [= <-]. apply (set_log_ok _ log) in H1.
  destruct st as [g raws auths provs], g; cbn in *. by split.
Qed.

Lemma set_listeners_ok c ls : config_ok c → config_ok (c {{ c_Listeners := ls }}).
Proof. intros []. by split. Qed.

Lemma walk_listener_walked st item st' : walked st → walk_listener json_strings st item = Ok st' → walked st'.
Proof.
  intros [[H1 H2] H3 H4 H5 H6]. unfold walk_listener. destruct (pairs item) as [items|]; [|done].
  destruct (fold_res _ _ items) as [l|] eqn:E; [|done]. intros [= <-].
  assert (0 ∉ l_Name l) as Hl.
  { revert E. apply (fold_res_ind (fun l => 0 ∉ l_Name l)); [|by apply not_elem_of_nil].
    intros l0 [k v] l1 _ Hl0. unfold listener_key. cbn [fst snd]. destruct (yamlValue _ _ _) as [value|]; [|done].
    apply listenerOption_name. destruct (says _ "bind"); [by destruct l0|]. destruct (says _ "port"); by destruct l0. }
  apply (set_listeners_ok _ (c_Listeners (gl_cfg (ld_g st)) ++ [l])) in H1.
  destruct st as [g raws auths provs], g as [c pool redirect]; cbn in *. split; cbn; [done..| |done|done].
  apply Forall_app; split; [done|]. by apply Forall_singleton.
Qed.

Lemma rule_key_console r kv r' : rw_console r = false → rule_key json_strings r kv = Ok r' → rw_console r' = false.
Proof.
  intros Hr. unfold rule_key. destruct (says _ "serve").
  { unfold walkServe. destruct (eachItem _ _ _) as [[n r1]|] eqn:E; [|done]. intros [= <-]. change r1 with (n, r1).2. revert E.
    apply (eachItem_ind (fun s => rw_console s.2 = false)); [|done]. intros [n0 r0] item [n2 r2] H. unfold serve_item. cbn [fst snd] in *.
    destruct (pairs item); [|done]. destruct (key_values _ _); [|done]. intros [= <- <-]. by destruct r0. }
  destruct (yamlValue _ _ _) as [v|]; [|done]. unfold host_key.
  repeat match goal with |- (if ?b then _ else _) = _ → _ => destruct b end; try done; intros [= <-]; by destruct r.
Qed.

Lemma walkRoutes_walked st item st' : walked st → walkRoutes json_strings st item = Ok st' → walked st'.
Proof.
  intros [H1 H3 H4 H5 H6]. unfold walkRoutes. destruct (pairs item) as [items|]; [|done]. destruct (fold_res _ _ items) as [[[l|] rules]|]; [|done..].
  destruct rules as [rules|]; [|by intros [= <-]]. destruct (eachItem _ _ _) as [raws|] eqn:E; [|done]. intros [= <-].
  assert (Forall (fun r => rw_console r = false) raws) as Hr; [|by destruct st].
  revert E. apply (eachItem_ind (Forall (fun r => rw_console r = false))); [|done]. intros raws0 rule raws1 H0. unfold walk_rule. destruct (pairs rule) as [ks|]; [|done].
  destruct (fold_res _ _ ks) as [r|] eqn:E; [|done]. intros [= <-]. apply Forall_app; split; [done|]. apply Forall_singleton.
  revert E. apply (fold_res_ind (fun r => rw_console r = false)); [|done]. intros r0 kv r1 _. apply rule_key_console.
Qed.

Lemma walk_section_walked st kv st' : walked st →
  walk_section json_strings url_parse read_text file_exists parse_duration parse_date parse_rfc3339 client_cert st kv = Ok st' → walked st'.
Proof.
  intros Hst. unfold walk_section. destruct (_ || _).
  { destruct (is_null _); [by intros [= <-]|]. destruct (pairs _) as [items|]; [|done]. apply fold_res_ind; [|done].
    intros s x s' _. destruct (says _ "global"); [apply global_item_walked|apply logging_item_walked]. }
  destruct (says _ "listeners"); [apply eachItem_ind; [apply walk_listener_walked|done]|].
  destruct (says _ "routes"); [apply eachItem_ind; [apply walkRoutes_walked|done]|].
  destruct (says _ "basic_auth").
  { apply eachItem_ind; [|done]. intros s item s' [H1 H3 H4 H5 H6]. destruct (walkBasicAuth _ _ _ item) as [a|]; [|done]. intros [= <-]. by destruct s. }
  destruct (says _ "oidc"); [|by destruct (says _ "console")].
  apply eachItem_ind; [|done]. intros s item s' [H1 H3 H4 H5 H6]. destruct (walkOIDC _ _ _ _ _ _ item) as [p|] eqn:E; [|done]. intros [= <-].
  apply walkOIDC_ok in E. destruct s; cbn in *. split; cbn; try done. apply Forall_app; split; [done|]. by apply Forall_singleton.
Qed.

Lemma walkYAML_walked st text st' : walked st →
  walkYAML json_strings url_parse read_text file_exists parse_duration parse_date parse_rfc3339 client_cert yaml_parse st text = Ok st' → walked st'.
Proof.
  intros Hst. unfold walkYAML. destruct (parseYAML _ _) as [root|]; [|done]. destruct (pairs root) as [top|]; [|done].
  apply fold_res_ind; [|done]. intros s kv s' _. apply walk_section_walked.
Qed.
End WalkFacts.

(** ** Completing rules keeps what was checked of them *)

(** A rule and the one [resolveServe] makes of it. *)
Definition completes (r r' : Rule) : Prop := ∃ routes, r' = r {{ r_Routes := routes }} ∧
  Forall2 (fun s s' => s' = s ∨ ∃ a, s' = s {{ sr_auth := Some a }}) (r_Routes r) routes.

Lemma resolve_rule_completes m r r' : resolve_rule m r = Ok r' → completes r r'.
Proof.
  unfold resolve_rule. destruct (mapM_res _ _) as [routes|] eqn:E; [|done]. intros [= <-]. exists routes. split; [done|].
  apply mapM_res_Forall2 in E. eapply Forall2_impl; [exact E|]. intros s s'. cbn. unfold resolve_route.
  destruct (bool_decide _); [intros [= <-]; by left|]. destruct (m !! _) as [a|]; [|done]. intros [= <-]. right. by exists a.
Qed.

Lemma completes_serves r r' : completes r r' → Serves r' = Serves r.
Proof. intros (routes & -> & H%Forall2_length). unfold Serves. destruct r; cbn in *. unfold constant, len. by rewrite H. Qed.

Lemma completes_routes r r' : completes r r' → (sr_Prefix <$> r_Routes r') = sr_Prefix <$> r_Routes r ∧ (Forall entry_ok (r_Routes r) → Forall entry_ok (r_Routes r')).
Proof.
  intros (routes & -> & H). destruct r; cbn in *. unfold constant. clear -H.
  induction H as [|s s' l l' Hs _ [IH1 IH2]]; [done|]. cbn. rewrite IH1. split.
  - f_equal. destruct Hs as [->|[a ->]]; [done|by destruct s].
  - intros [He Hl]%Forall_cons. constructor; [|by apply IH2]. destruct Hs as [->|[a ->]]; [done|by apply entry_ok_auth].
Qed.

Lemma rule_ok_completes c r r' : completes r r' → rule_ok c r → rule_ok c r'.
Proof.
  intros Hc [K1 K2 K3 K4 K5 K6 K7 K8]. pose proof (completes_serves _ _ Hc) as Hs. pose proof (completes_routes _ _ Hc) as [Hp He].
  assert (r_Routes r' = [] ↔ r_Routes r = []) as Hn.
  { destruct Hc as (routes & -> & H). destruct r; cbn in *. unfold constant. split; intros ->; by inversion H. }
  destruct Hc as (routes & -> & H). split.
  - by destruct r.
  - destruct K2 as (expr & P1 & P2 & P3). exists expr. by destruct r.
  - intros Ha Hse. rewrite Hs in Hse. change (r_Allow r = true) in Ha. destruct (K3 Ha Hse) as (T1 & T2 & T3). by destruct r.
  - intros Ha. change (r_Allow r = false) in Ha. destruct (K4 Ha) as (D1 & D2 & D3). split; [|split; [by apply Hn|by destruct r]].
    unfold no_cert in *. by rewrite D1.
  - destruct K5 as [Hx|[Hx|Hx]]; [left|right; left|right; right].
    + unfold no_cert in *. by rewrite Hx.
    + destruct Hx as [A1 A2 A3 A4 A5 A6 A7]. split; by destruct r.
    + destruct Hx as [A1 A2 [B1 B2 B3 B4] A4 A5]. split; [..|split| |]; by destruct r.
  - rewrite Hs. destruct K6 as [U1 U2]. split; [exact U1|exact U2].
  - destruct K7 as (R1 & R2 & R3). split_and!; [by rewrite Hp|by apply He|]. intros Hne. destruct R3 as [R3 R4]; [by rewrite <- Hn|]. by destruct r.
  - by destruct r.
Qed.

Lemma rule_ok_config c c' r : (is_Some (find_listener c (r_Listener r)) → is_Some (find_listener c' (r_Listener r))) → c_AcmeAgreeTOS c' = c_AcmeAgreeTOS c →
  rule_ok c r → rule_ok c' r.
Proof.
  intros Hl Ha [K1 K2 K3 K4 K5 K6 K7 K8]. split; auto. destruct K5 as [?|[Hx|?]]; [by left| |by auto]. right; left. destruct Hx as [A1 A2 A3 A4 A5 A6 A7]. split; try done. congruence.
Qed.

Lemma find_listener_names c name : is_Some (find_listener c name) ↔ name ∈ l_Name <$> c_Listeners c.
Proof.
  unfold find_listener. rewrite list_elem_of_fmap. split.
  - intros [l Hl]. apply find_some in Hl as [Hin He]. apply bool_decide_eq_true in He. exists l. split; [done|by apply list_elem_of_In].
  - intros (l & -> & Hl). destruct (find _ _) as [l'|] eqn:E; [eauto|]. pose proof (find_none _ _ E l) as Hn.
    apply list_elem_of_In in Hl. specialize (Hn Hl). cbv beta in Hn. by rewrite bool_decide_true in Hn.
Qed.

(** ** Priorities do not depend on what completes a rule *)

Definition same_name (r r' : Rule) : Prop := r_Listener r' = r_Listener r ∧ r_Kind r' = r_Kind r ∧ r_Source r' = r_Source r.

Lemma collect_all_same rs rs' c c' : Forall2 same_name rs rs' → dom (c_literals c') = dom (c_literals c) → (∀ k, is_Some (c_first c' k) ↔ is_Some (c_first c k)) →
  is_ok (collect_all c' rs') = is_ok (collect_all c rs).
Proof.
  intros H. revert c c'. induction H as [|r r' rs rs' (_ & Hk & Hs) _ IH]; intros c c' Hd Hf; [done|]. cbn [collect_all].
  unfold collect, wildcard_key. rewrite Hk, Hs.
  assert (∀ k, match c_literals c' !! k with Some _ => true | None => false end = match c_literals c !! k with Some _ => true | None => false end) as Hl.
  { intros k. destruct (c_literals c' !! k) eqn:E1, (c_literals c !! k) eqn:E2; try done; exfalso.
    - apply elem_of_dom_2 in E1. rewrite Hd in E1. by apply elem_of_dom in E1 as [? ?]; congruence.
    - apply elem_of_dom_2 in E2. rewrite <- Hd in E2. by apply elem_of_dom in E2 as [? ?]; congruence. }
  assert (∀ k, match c_first c' k with Some _ => true | None => false end = match c_first c k with Some _ => true | None => false end) as Hfirst.
  { intros k. pose proof (Hf k) as [H1 H2]. destruct (c_first c' k), (c_first c k); try done; exfalso; [destruct H1; [by eexists|done]|destruct H2; [by eexists|done]]. }
  destruct (r_Kind r).
  - specialize (Hfirst kindNone). destruct (c_first c' kindNone), (c_first c kindNone); try done. apply IH; [done|]. intros k. cbn. by destruct (decide _).
  - specialize (Hl (literalName (r_Source r))). destruct (c_literals c' !! _), (c_literals c !! _); try done. apply IH; [|done]. cbn. by rewrite !dom_insert_L, Hd.
  - specialize (Hl (key_sep ++ literalName (r_Source r))). destruct (c_literals c' !! _), (c_literals c !! _); try done. apply IH; [|done]. cbn. by rewrite !dom_insert_L, Hd.
  - specialize (Hfirst kindCatchAll). destruct (c_first c' kindCatchAll), (c_first c kindCatchAll); try done. apply IH; [done|]. intros k. cbn. by destruct (decide _).
Qed.

Lemma prioritise_same rs rs' name : Forall2 same_name rs rs' → is_ok (prioritiseListener rs' name) = is_ok (prioritiseListener rs name).
Proof.
  intros H. unfold prioritiseListener. assert (Forall2 same_name (listener_rules rs name) (listener_rules rs' name)) as Hf.
  { unfold listener_rules. induction H as [|r r' rs rs' Hr _ IH]; [constructor|]. destruct Hr as (Hl & Hr). rewrite !filter_cons, Hl.
    destruct (decide _); [constructor; [by split|done]|done]. }
  pose proof (collect_all_same _ _ (mkCollecting ∅ (fun _ => None) []) (mkCollecting ∅ (fun _ => None) []) Hf eq_refl ltac:(done)) as Hc.
  destruct (collect_all _ (listener_rules rs' name)), (collect_all _ (listener_rules rs name)); done.
Qed.

(** ** After the walk *)

(** What the listeners of a configuration are. *)
Definition listeners_ok (ls : list Listener) : Prop :=
  ls ≠ [] ∧ Forall listener_ok ls ∧ (∀ i j p l, (j < i)%nat → ls !! j = Some p → ls !! i = Some l → apart p l).

Lemma place_console_names con ls placed ls' p : place_console con ls placed = Ok (ls', p) → Forall (fun l => 0 ∉ l_Name l) ls → Forall (fun l => 0 ∉ l_Name l) ls'.
Proof.
  revert placed ls' p. induction ls as [|l ls IH]; intros placed ls' p; cbn [place_console]; [by intros [= <- _]|].
  destruct (negb (equal_fold _ _)).
  - destruct (place_console con ls placed) as [[k q]|] eqn:E; [|done]. intros [= <- _] [? ?]%Forall_cons. constructor; [done|by eapply IH].
  - destruct (negb placed); [|done]. destruct (negb _); [|done]. destruct (place_console con ls true) as [[k q]|] eqn:E; [|done].
    intros [= <- _] [? ?]%Forall_cons. constructor; [|by eapply IH]. destruct l; cbn. by apply (bool_decide_unpack _).
Qed.

Lemma placeConsole_spec c con c' : placeConsoleListener c con = Ok c' → Forall (fun l => 0 ∉ l_Name l) (c_Listeners c) →
  ∃ ls, c' = match con with Some k => c {{ c_Console := Some k; c_Listeners := ls }} | None => c end ∧ Forall (fun l => 0 ∉ l_Name l) (c_Listeners c').
Proof.
  intros H Hn. unfold placeConsoleListener in H. destruct con as [con|]; [|injection H as <-; by exists []].
  destruct (place_console _ _ _) as [[ls placed]|] eqn:E; [|done]. apply place_console_names in E; [|done]. injection H as <-.
  eexists. split; [done|]. destruct c; cbn. unfold constant. destruct placed; [done|]. apply Forall_app; split; [done|].
  apply Forall_singleton. by apply (bool_decide_unpack _).
Qed.

Lemma resolveListeners_spec c c' : resolveListeners c = Ok c' →
  listeners_ok (c_Listeners c) ∧ ∃ b bs p, c' = c {{ c_Bind := b; c_Binds := bs; c_Port := p }}.
Proof.
  unfold resolveListeners, listeners_ok. destruct (c_Listeners c) as [|first ls]; [done|].
  destruct (check_listeners [] (first :: ls)) as [[]|] eqn:E; [|done]. apply check_listeners_spec in E as [H1 H2]. intros [= <-].
  split; [|by eexists _, _, _]. split_and!; [done|done|]. intros i j p l Hij Hj Hi. by eapply H2.
Qed.

Lemma makeRedirect_spec c c' : makeRedirectListener c = Ok c' → ∃ o, c' = c {{ c_Redirect := o }}.
Proof. unfold makeRedirectListener. destruct (forallb _ _); [|done]. intros [= <-]. by eexists. Qed.

(** The listeners with their routes. *)
Lemma prioritise_listeners_spec rules ls ls' w : prioritise_listeners rules ls = Ok (ls', w) →
  Forall2 (fun l l' => ∃ routes, l' = l {{ l_routes := routes }} ∧ is_ok (prioritiseListener rules (l_Name l)) = true) ls ls'.
Proof.
  revert ls' w. induction ls as [|l ls IH]; intros ls' w; cbn [prioritise_listeners]; [by intros [= <- _]|].
  destruct (prioritiseListener rules (l_Name l)) as [[routes pairs]|] eqn:E; [|done]. cbn [or_fail].
  destruct (prioritise_listeners rules ls) as [[k w']|]; [|done]. intros [= <- _]. constructor; [|by eapply IH]. exists routes. by rewrite E.
Qed.

Lemma listeners_ok_routes (f : Listener → Listener) ls : (∀ l, ∃ routes, f l = l {{ l_routes := routes }}) → listeners_ok ls → listeners_ok (f <$> ls).
Proof.
  intros Hf (H1 & H2 & H3). split_and!.
  - by destruct ls.
  - apply Forall_fmap. eapply Forall_impl; [exact H2|]. intros l Hl. cbn. destruct (Hf l) as [r ->]. by destruct l.
  - intros i j p l Hij. rewrite !list_lookup_fmap. destruct (ls !! j) as [p0|] eqn:Ej, (ls !! i) as [l0|] eqn:Ei; try done. intros [= <-] [= <-].
    specialize (H3 _ _ _ _ Hij Ej Ei). destruct (Hf p0) as [r1 ->], (Hf l0) as [r2 ->]. by destruct p0, l0.
Qed.

Section LoadFacts.
Context (json_args : bytes → option (list bytes)) (url_parse : bytes → option parsed_url) (read_file : bytes → res err bytes).

Lemma addConsole_spec c con c' : addConsoleRule json_args url_parse read_file c con = Ok c' →
  match con with
  | None => c' = c
  | Some con => ∃ r, c' = c {{ c_Rules := c_Rules c ++ [r] }} ∧ rule_ok c r ∧ r_Console r = true ∧ r_Listener r = consoleAlias
  end.
Proof.
  unfold addConsoleRule. destruct con as [con|]; [|by intros [= <-]]. destruct (negb _); [|done].
  destruct (buildRule _ _ _ _ _) as [r|] eqn:E; [|done]. apply buildRule_ok in E as (Hr & Hl & Hc). intros [= <-].
  exists (r {{ r_fixedCert := con_certificate con }}). split; [by destruct c|].
  change (Some consoleAlias = Some (r_Listener r)) in Hl. change (r_Console r = true) in Hc. injection Hl as Hl. split; [|by destruct r].
  destruct Hr as [K1 K2 K3 K4 K5 K6 K7 K8]. split; try (by destruct r).
  - intros Ha. destruct (K4 Ha) as (D1 & D2 & D3). split; [|by destruct r]. unfold no_cert in *. by rewrite D1.
  - destruct K5 as [Hx|[Hx|Hx]]; [left|right; left|right; right].
    + unfold no_cert in *. by rewrite Hx.
    + destruct Hx as [A1 A2 A3 A4 A5 A6 A7]. split; by destruct r.
    + destruct Hx as [A1 A2 [B1 B2 B3 B4] A4 A5]. split; [..|split| |]; by destruct r.
Qed.

Lemma build_rules_spec c raws rules : build_rules json_args url_parse read_file c raws = Ok rules → Forall (fun r => rw_console r = false) raws →
  Forall (fun r => rule_ok c r ∧ r_Console r = false) rules.
Proof.
  intros H%mapM_res_Forall2 Hr. induction H as [|raw r raws rules Hb _ IH]; [constructor|]. apply Forall_cons in Hr as [Hc Hr].
  apply buildRule_ok in Hb as (Hok & _ & Hb). constructor; [split; [done|congruence]|by apply IH].
Qed.
End LoadFacts.

(** The item a route names, as its rule was completed. *)
Lemma resolveServe_spec c auths c' : resolveServe c auths = Ok c' →
  ∃ m rules w, c' = c {{ c_BasicAuth := m; c_Rules := rules; c_Warnings := w }} ∧ Forall2 completes (c_Rules c) rules ∧
    (∀ n a, m !! n = Some a → ba_Name a = n ∧ ba_Users a ≠ ∅) ∧
    (∀ r s, r ∈ rules → s ∈ r_Routes r → sr_BasicAuth s = [] ∨ ∃ a, m !! sr_BasicAuth s = Some a ∧ sr_auth s = Some a).
Proof.
  unfold resolveServe. destruct (collect_auths auths ∅) as [m|] eqn:Em; [|done]. destruct (mapM_res _ (c_Rules c)) as [rules|] eqn:Er; [|done].
  intros [= <-]. exists m, rules, (c_Warnings c ++ (UnusedBasicAuth <$> filter (fun n => auth_used rules n = false) (fst <$> map_to_list m))). split; [by destruct c|]. apply mapM_res_Forall2 in Er. split_and!.
  - eapply Forall2_impl; [exact Er|]. intros r r'. apply resolve_rule_completes.
  - intros n a Ha. destruct (collect_auths_ok _ _ _ Em _ _ Ha) as [H|(_ & H2 & H3)]; [by apply lookup_empty_Some in H|done].
  - intros r s Hr Hs. destruct (Forall2_elem_r _ _ _ _ Er Hr) as (r0 & Hr0 & Hres). unfold resolve_rule in Hres.
    destruct (mapM_res _ (r_Routes r0)) as [routes|] eqn:Es; [|done]. injection Hres as <-.
    change (s ∈ routes) in Hs. apply mapM_res_Forall2 in Es. destruct (Forall2_elem_r _ _ _ _ Es Hs) as (s0 & Hs0 & Hrs). unfold resolve_route in Hrs.
    destruct (bool_decide_reflect (sr_BasicAuth s0 = [])) as [Hb|Hb]; [injection Hrs as <-; by left|].
    destruct (m !! sr_BasicAuth s0) as [a|] eqn:Ea; [|done]. injection Hrs as <-. right. exists a. by destruct s0.
Qed.

(** A configuration the proxy may run. *)
Record loaded (con : option ConsoleConfig) (c : Config) (oidc : gmap bytes OIDCProvider) : Prop := {
  ok_numbers : config_ok c ∧ 0 <= c_BufferPoolMaxIdle c < 2 ^ 32;
  ok_listeners : listeners_ok (c_Listeners c);
  ok_rules : Forall (rule_ok c) (c_Rules c);
  ok_keys : Forall (fun r => 0 ∉ r_Listener r) (c_Rules c);
  ok_routes : Forall (fun l => ∃ w, prioritiseListener (c_Rules c) (l_Name l) = Ok (l_routes l, w)) (c_Listeners c);
  ok_sign_in : ∀ r s, r ∈ c_Rules c → s ∈ r_Routes r →
    (sr_BasicAuth s = [] ∨ ∃ a, c_BasicAuth c !! sr_BasicAuth s = Some a ∧ sr_auth s = Some a ∧ ba_Name a = sr_BasicAuth s ∧ ba_Users a ≠ ∅) ∧
    (sr_OIDC s = [] ∨ ∃ p, oidc !! sr_OIDC s = Some p ∧ op_Name p = sr_OIDC s ∧ provider_ok p);
  ok_console : c_Console c = con ∧
    match con with
    | None => Forall (fun r => r_Console r = false) (c_Rules c)
    | Some _ => ∃ rules r, c_Rules c = rules ++ [r] ∧ Forall (fun r => r_Console r = false) rules ∧ r_Console r = true ∧ r_Listener r = consoleAlias
    end;
}.

(** From the listeners on: a configuration whose listeners are settled and
    whose rules are built. *)
Definition built (con : option ConsoleConfig) (c : Config) : Prop :=
  config_ok c ∧ 0 <= c_BufferPoolMaxIdle c < 2 ^ 32 ∧ listeners_ok (c_Listeners c) ∧ Forall (fun l => 0 ∉ l_Name l) (c_Listeners c) ∧
  Forall (rule_ok c) (c_Rules c) ∧ c_Console c = con ∧
  match con with
  | None => Forall (fun r => r_Console r = false) (c_Rules c)
  | Some _ => ∃ rules r, c_Rules c = rules ++ [r] ∧ Forall (fun r => r_Console r = false) rules ∧ r_Console r = true ∧ r_Listener r = consoleAlias
  end.

Lemma settle_built json_args url_parse read_file con st c : walked st → settle json_args url_parse read_file con st = Ok c → built con c.
Proof.
  intros [[W1 W2] [W3 W3'] W4 W5 W6]. unfold settle. set (c0 := _ {{ c_CertPath := _ }}).
  assert (config_ok c0 ∧ c_Rules c0 = [] ∧ c_Console c0 = None ∧ Forall (fun l => 0 ∉ l_Name l) (c_Listeners c0)) as (A1 & A2 & A3 & A4).
  { subst c0. destruct W1. by split; [split|]. }
  clearbody c0. destruct (resolveConsoleAlias _ _ _); [|done]. destruct (placeConsoleListener c0 con) as [c1|] eqn:E1; [|done].
  apply placeConsole_spec in E1 as (ls & E1 & B4); [|done].
  assert (config_ok c1 ∧ c_Console c1 = con) as (B1 & B3) by (rewrite E1; destruct con; [destruct A1; by split|by split]).
  clear E1 A1 A2 A3 A4 c0 ls W1 W3 W3' W4. set (c2 := c1 {{ c_BufferPoolMaxIdle := _ }}).
  assert (config_ok c2 ∧ c_Console c2 = con ∧ Forall (fun l => 0 ∉ l_Name l) (c_Listeners c2) ∧ 0 <= c_BufferPoolMaxIdle c2 < 2 ^ 32) as (C1 & C2 & C3 & C4).
  { split; [destruct B1; by split|]. split; [done|]. split; [done|].
    change (0 <= (if gl_poolMaxIdle (ld_g st) <? 0 then 2 * c_MaxConnections c1 else gl_poolMaxIdle (ld_g st)) < 2 ^ 32).
    destruct B1 as [_ Hc _ _ _ _]. apply Forall_cons in Hc as [Hc _]. unfold count_ok in Hc. destruct (Z.ltb_spec (gl_poolMaxIdle (ld_g st)) 0); lia. }
  clearbody c2. clear B1 B3 B4 c1. destruct (resolveListeners c2) as [c3|] eqn:E3; [|done]. apply resolveListeners_spec in E3 as (D0 & b & bs & p & E3).
  assert (config_ok c3 ∧ c_Console c3 = con ∧ Forall (fun l => 0 ∉ l_Name l) (c_Listeners c3) ∧ 0 <= c_BufferPoolMaxIdle c3 < 2 ^ 32 ∧ listeners_ok (c_Listeners c3)) as (D1 & D2 & D3 & D4 & D5).
  { rewrite E3. destruct C1. by split; [split|]. }
  clear E3 D0 C1 C2 C3 C4 c2. set (r4 := if gl_httpRedirect _ then _ else _).
  assert (∀ c4, r4 = Ok c4 → config_ok c4 ∧ c_Console c4 = con ∧ Forall (fun l => 0 ∉ l_Name l) (c_Listeners c4) ∧ 0 <= c_BufferPoolMaxIdle c4 < 2 ^ 32 ∧ listeners_ok (c_Listeners c4)) as E4.
  { intros c4. subst r4. destruct (gl_httpRedirect _); [intros [o ->]%makeRedirect_spec; destruct D1; by split; [split|]|by intros [= <-]]. }
  destruct r4 as [c4|]; [|done]. destruct (E4 c4 eq_refl) as (F1 & F2 & F3 & F4 & F5). clear E4 D1 D2 D3 D4 D5 c3.
  destruct (build_rules _ _ _ _ _) as [rules|] eqn:E5; [|done]. apply build_rules_spec in E5; [|done].
  assert (Forall (rule_ok (c4 {{ c_Rules := rules }})) rules ∧ Forall (fun r => r_Console r = false) rules) as (G1 & G2).
  { split; (eapply Forall_impl; [exact E5|]); intros r []; [|done]. by eapply (rule_ok_config c4). }
  intros H%addConsole_spec. unfold built. destruct con as [con|].
  - destruct H as (r & -> & Hr & Hc & Hl). split; [destruct F1; by split|]. refine (conj F4 (conj F5 (conj F3 (conj _ (conj F2 _))))); [|by exists rules, r].
    change (Forall (rule_ok (c4 {{ c_Rules := rules ++ [r] }})) (rules ++ [r])). apply Forall_app; split; [|apply Forall_singleton; by eapply (rule_ok_config (c4 {{ c_Rules := rules }}))].
    eapply Forall_impl; [exact G1|]. intros r' Hr'. by eapply (rule_ok_config (c4 {{ c_Rules := rules }})).
  - subst c. split; [destruct F1; by split|]. exact (conj F4 (conj F5 (conj F3 (conj G1 (conj F2 G2))))).
Qed.

Lemma completes_same r r' : completes r r' → same_name r r' ∧ r_Console r' = r_Console r ∧ r_Listener r' = r_Listener r.
Proof. intros (routes & -> & _). by destruct r. Qed.

Lemma rule_has_listener c r : rule_ok c r → r_Listener r ∈ l_Name <$> c_Listeners c.
Proof. intros H%k_listener. by apply find_listener_names. Qed.

(** The listeners [prioritise] leaves, as to names. *)
Lemma prioritise_spec c c' : prioritise c = Ok c' → ∃ ls w, c' = c {{ c_Listeners := ls; c_Warnings := w }} ∧
  Forall2 (fun l l' => ∃ routes, l' = l {{ l_routes := routes }} ∧ is_ok (prioritiseListener (c_Rules c) (l_Name l)) = true) (c_Listeners c) ls.
Proof.
  unfold prioritise. destruct (prioritise_listeners _ _) as [[ls w]|] eqn:E; [|done]. intros [= <-].
  exists ls, (c_Warnings c ++ w). split; [by destruct c|]. by apply prioritise_listeners_spec in E.
Qed.

(** Relinked twice is relinked once: only the routes change. *)
Definition relinked (rules : list Rule) (l : Listener) : Listener :=
  match prioritiseListener rules (l_Name l) with Ok (routes, _) => l {{ l_routes := routes }} | Err _ => l end.

Lemma relinked_routes rules l : ∃ routes, relinked rules l = l {{ l_routes := routes }}.
Proof. unfold relinked. destruct (prioritiseListener _ _) as [[routes w]|]; [by exists routes|exists (l_routes l); by destruct l]. Qed.

Lemma routed_names (ls ls' : list Listener) (P : Listener → Prop) :
  Forall2 (fun l l' => ∃ routes, l' = l {{ l_routes := routes }} ∧ P l) ls ls' → l_Name <$> ls' = l_Name <$> ls ∧ Forall P ls ∧ (listeners_ok ls → listeners_ok ls').
Proof.
  intros H. split_and!.
  - induction H as [|l l' ls ls' (routes & -> & _) _ IH]; [done|]. rewrite !fmap_cons, IH. by destruct l.
  - induction H as [|l l' ls ls' (routes & _ & Hp) _ IH]; by constructor.
  - intros (H1 & H2 & H3). split_and!.
    + destruct H; [done|]. done.
    + clear H1 H3. induction H as [|l l' ls ls' (routes & -> & _) _ IH]; [done|]. apply Forall_cons in H2 as [Hl H2]. constructor; [by destruct l|by apply IH].
    + intros i j p l Hij Hj Hi. destruct (Forall2_lookup_r _ _ _ _ _ H Hj) as (p0 & Hp0 & r1 & -> & _), (Forall2_lookup_r _ _ _ _ _ H Hi) as (l0 & Hl0 & r2 & -> & _).
      specialize (H3 _ _ _ _ Hij Hp0 Hl0). by destruct p0, l0.
Qed.

Lemma finish_loaded json_args url_parse read_file now con st c oidc : walked st →
  finish_load json_args url_parse read_file now con st = Ok (c, oidc) → loaded con c oidc.
Proof.
  intros Hw. unfold finish_load. destruct (settle _ _ _ con st) as [c1|] eqn:E1; [|done].
  apply settle_built in E1 as (A1 & A2 & A3 & A4 & A5 & A6 & A7); [|done].
  destruct (prioritise c1) as [c2|] eqn:E2; [|done]. apply prioritise_spec in E2 as (ls & w2 & -> & Hls). apply routed_names in Hls as (Hnames & Hprio & Hlok).
  set (c3 := _ {{ c_Warnings ::= _ }}). destruct (resolveServe c3 (ld_auths st)) as [c4|] eqn:E4; [|done].
  apply resolveServe_spec in E4 as (m & rules & w4 & -> & Hcomp & Hm & Hsign). change (c_Rules c3) with (c_Rules c1) in Hcomp.
  destruct (resolveOIDC now _ _) as [[c5 oidc']|] eqn:E5; [|done]. apply resolveOIDC_ok in E5 as ([w5 ->] & Hp & Hoidc); [|by destruct Hw].
  match goal with |- (if ?b then _ else _) = _ → _ => destruct b; [|done] end. intros Heq. assert (oidc' = oidc) as -> by congruence.
  match type of Heq with Ok (relink ?x, _) = _ => set (c6 := x) in Heq end. assert (c = relink c6) as -> by congruence. clear Heq.
  assert (c_Listeners (relink c6) = relinked rules <$> ls) as El by done. assert (c_Rules (relink c6) = rules) as Er by done.
  assert (∀ r, rule_ok c1 r → rule_ok (relink c6) r) as Hmove.
  { intros r. apply rule_ok_config; [|done]. rewrite !find_listener_names, El, <- list_fmap_compose.
    assert (l_Name ∘ relinked rules <$> ls = l_Name <$> ls) as ->; [|by rewrite Hnames].
    apply list_fmap_ext. intros i l _. unfold compose. destruct (relinked_routes rules l) as [routes ->]. by destruct l. }
  assert (Forall2 (fun r r' => rule_ok c1 r' ∧ same_name r r' ∧ r_Console r' = r_Console r ∧ r_Listener r' = r_Listener r) (c_Rules c1) rules) as Hboth.
  { clear -Hcomp A5. induction Hcomp as [|r r' l l' Hc _ IH]; [constructor|]. apply Forall_cons in A5 as [Hr A5]. constructor; [|by apply IH].
    split; [by eapply rule_ok_completes|]. by apply completes_same. }
  assert (Forall (rule_ok c1) rules) as Hrules.
  { clear -Hboth. induction Hboth as [|r r' l l' [Hr _] _ IH]; by constructor. }
  split.
  - split; [destruct A1; by split|exact A2].
  - rewrite El. apply listeners_ok_routes; [apply relinked_routes|by apply Hlok].
  - rewrite Er. eapply Forall_impl; [exact Hrules|exact Hmove].
  - rewrite Er. eapply Forall_impl; [exact Hrules|]. intros r Hr%rule_has_listener. apply list_elem_of_fmap in Hr as (l & -> & Hl).
    rewrite Forall_forall in A4. by apply A4.
  - rewrite El, Er. apply Forall_fmap, Forall_forall. intros l Hl. unfold compose.
    assert (is_ok (prioritiseListener rules (l_Name l)) = true) as Hok.
    { rewrite (prioritise_same (c_Rules c1) rules) by (eapply Forall2_impl; [exact Hboth|]; by intros ?? (_ & ? & _)).
      assert (l_Name l ∈ l_Name <$> c_Listeners c1) as Hin by (rewrite <- Hnames; apply list_elem_of_fmap; eauto).
      apply list_elem_of_fmap in Hin as (l0 & -> & Hl0). rewrite Forall_forall in Hprio. by apply Hprio. }
    unfold relinked. destruct (prioritiseListener rules (l_Name l)) as [[routes w]|] eqn:E; [|done]. exists w.
    change (prioritiseListener rules (l_Name l) = Ok (routes, w)). done.
  - rewrite Er. intros r s Hr Hs. split.
    + destruct (Hsign r s Hr Hs) as [|(a & Ha & Hs')]; [by left|right]. exists a. destruct (Hm _ _ Ha). by split_and!.
    + destruct (Hoidc r s Hr Hs) as [|[p Hpr]]; [by left|right]. exists p. destruct (Hp _ _ Hpr). by split_and!.
  - rewrite Er. split; [exact A6|]. clear -A7 Hboth. destruct con as [con|].
    + destruct A7 as (rs & r & E & H1 & H2 & H3). rewrite E in Hboth. apply Forall2_app_inv_l in Hboth as (rs' & k & Hrs & Hk & ->).
      apply Forall2_cons_inv_l in Hk as (r' & k' & (_ & _ & Hc & Hl) & ->%Forall2_nil_inv_l & ->). exists rs', r'. split_and!; [done| |congruence..].
      clear -Hrs H1. induction Hrs as [|x y l l' (_ & _ & Hc & _) _ IH]; [done|]. apply Forall_cons in H1 as []. constructor; [congruence|by apply IH].
    + clear -Hboth A7. induction Hboth as [|x y l l' (_ & _ & Hc & _) _ IH]; [done|]. apply Forall_cons in A7 as []. constructor; [congruence|by apply IH].
Qed.

(** * Properties *)


(** A file with a listener, a wildcard rule, a rule that serves a folder to a
    team, and the console beside them. *)
Definition n_word (s : string) : node := Node ScalarNode (lit "!!str") (lit s) 1 [].
Definition n_list (l : list node) : node := Node SequenceNode (lit "!!seq") [] 1 l.
Definition n_map (line : Z) (l : list (string * node)) : node := Node MappingNode (lit "!!map") [] line (l ≫= fun e => [n_word e.1; e.2]).
Definition w_file : node := n_map 1
  [("global", n_map 2 [("idle_timeout", n_word "90"); ("http_to_https_redirect", n_word "true")]);
   ("listeners", n_list [n_map 4 [("name", n_word "web"); ("port", n_word "8443"); ("bind", n_list [n_word "10.0.0.1"; n_word "10.0.0.2"])]]);
   ("routes", n_list [n_map 6 [("listener", n_word "web"); ("rules", n_list
      [n_map 7 [("domain", n_word "*.example.com"); ("target", n_word "${1}.lan:443"); ("proxy", n_word "v2")];
       n_map 9 [("domain", n_word "docs.example.com"); ("cert", n_word "local-ca"); ("serve", n_list
         [n_map 10 [("type", n_word "static_content"); ("prefix", n_word "/"); ("base_dir", n_word "/srv"); ("basic_auth", n_word "team")]])]])]]);
   ("basic_auth", n_list [n_map 12 [("name", n_word "team"); ("users", n_list [n_map 13 [("username", n_word "ann"); ("password_plain", n_word "pw")]])]])]%string.
Definition w_console : ConsoleConfig := mkConsoleConfig (lit "0.0.0.0") [lit "0.0.0.0"] 443 (lit "admin.example.com") (lit "local-ca") [] false.
Definition w_none {A B} (_ : A) : option B := None.
Definition w_loaded : res err (Config * gmap bytes OIDCProvider) :=
  LoadConfig (fun _ => []) w_none w_none w_none (fun _ => Err "no file"%string) (fun _ => false) w_none w_none w_none (fun _ _ => Err "no file"%string)
    (fun _ => Ok (Some w_file)) (fun x => x) 0 [] (Some w_console).

