(* ===== verification/Sections.v ===== *)
(** Sections: editing [config.yaml] one rule, listener or basic_auth group at
    a time ([sections.go]): the file's tree, the place of an item in it, and
    what each edit leaves of the rest. A node of the tree is where it sits;
    how it is written (its style, its comments) is left out. *)

From S2P Require Import Prelude GoStr Config ServeConfig Yaml ConfigLoad.

(** * Places in a tree *)

Definition with_content (n : node) (c : list node) : node := match n with Node k t v l _ => Node k t v l c end.
Definition with_value (n : node) (v : bytes) : node := match n with Node k t _ l c => Node k t v l c end.
Definition with_tag (n : node) (t : bytes) : node := match n with Node k _ v l c => Node k t v l c end.

(** The node at a path of positions, and [f] done to it. *)
Fixpoint sub (p : list nat) (n : node) : option node :=
  match p with
  | [] => Some n
  | i :: p => match n_Content n !! i with Some m => sub p m | None => None end
  end.
Fixpoint change (p : list nat) (f : node → node) (n : node) : node :=
  match p with
  | [] => f n
  | i :: p => with_content n (alter (change p f) i (n_Content n))
  end.

(** [n.Content = append(n.Content, l...)], and [slices.Delete] of one. *)
Definition append_to (l : list node) (n : node) : node := with_content n (n_Content n ++ l).
Definition delete_from (i : nat) (n : node) : node := with_content n (delete i (n_Content n)).

(** The first item for which [f] answers, with its position. *)
Fixpoint find_at {A B} (f : A → option B) (l : list A) : option (nat * B) :=
  match l with
  | [] => None
  | x :: l => match f x with Some b => Some (0%nat, b) | None => match find_at f l with Some (i, b) => Some (S i, b) | None => None end end
  end.

(** [mapGet]: where the value of a key is, and the value. *)
Fixpoint value_at (content : list node) (key : bytes) : option nat :=
  match content with
  | k :: _ :: content => if bool_decide (n_Value k = key) then Some 1%nat else (fun i => S (S i)) <$> value_at content key
  | _ => None
  end.
Definition map_at (m : node) (key : bytes) : option nat := value_at (n_Content m) key.
Definition mapGet (m : node) (key : bytes) : option node := map_at m key ≫= fun i => n_Content m !! i.

(** * Values from the console

    What JSON gives; a number is its text, as [strconv.FormatFloat] writes
    it. *)
#[warnings="-register-all"]
Inductive jvalue := JNull | JBool (b : bool) | JNum (text : bytes) | JStr (s : bytes) | JArr (l : list jvalue) | JObj (m : gmap bytes jvalue).

Definition texts (l : list string) : list bytes := lit <$> l.
Definition ruleKeys : list bytes := texts ["domain"; "action"; "target"; "cert"; "cert_domains"; "cert_validate_script"; "cert_validate_args";
  "upstream_tls"; "upstream_tls_verify"; "upstream_sni"; "proxy"; "max_aggregated_speed"; "max_single_connection_speed"; "serve"]%string.
Definition listenerKeys : list bytes := texts ["name"; "bind"; "port"; "proxy_trust_source"; "max_connections";
  "handshake_timeout"; "idle_timeout"; "half_close_timeout"; "max_aggregated_speed"; "max_single_connection_speed"]%string.
Definition serveKeys : list bytes := texts ["type"; "prefix"; "target"; "base_dir"; "directory_listing"; "strip_prefix"; "force_host"; "tls_verify"; "basic_auth"; "oidc"; "require_mfa"; "require_groups"; "require_roles"; "identity_secret"; "identity_secret_file"]%string.

Definition word (s : bytes) : node := Node ScalarNode (lit "!!str") s 0 [].
Definition seq (l : list node) : node := Node SequenceNode (lit "!!seq") [] 0 l.
Definition mapping (l : list node) : node := Node MappingNode (lit "!!map") [] 0 l.

(** [scalar] *)
Definition scalar (s : bytes) : node :=
  let tag :=
    if bool_decide (is_Some (parse_uint s 63)) && (says s "0" || negb (has_prefix s (lit "0"))) then lit "!!int"
    else if says s "true" || says s "false" then lit "!!bool"
    else lit "!!str" in
  Node ScalarNode tag s 0 [].

(** [sameValue] *)
Fixpoint sameValue (a b : node) : bool :=
  match a, b with
  | Node ka _ va _ ca, Node kb _ vb _ cb =>
      bool_decide (ka = kb) &&
      (if bool_decide (ka = ScalarNode) then bool_decide (va = vb)
       else (fix same ca cb := match ca, cb with
             | [], [] => true
             | a :: ca, b :: cb => sameValue a b && same ca cb
             | _, _ => false
             end) ca cb)
  end.

(** [slices.Index], -1 when it is not there. *)
Definition index_of (keys : list bytes) (k : bytes) : Z := from_option (fun e => Z.of_nat e.1) (-1) (list_find (fun x => x = k) keys).

(** Where a new key goes: before the first that comes after it in [keys]. *)
Fixpoint insert_at (keys : list bytes) (k : bytes) (content : list node) : nat :=
  match content with
  | c :: _ :: rest => if index_of keys k <? index_of keys (n_Value c) then 0%nat else S (S (insert_at keys k rest))
  | _ => length content
  end.

(** One key of [setMapping]: the key goes, is replaced, stays as written, or is added. *)
Definition set_key (keys : list bytes) (content : list node) (k : bytes) (value : option node) : list node :=
  match value, value_at content k with
  | None, Some i => take (i - 1) content ++ drop (i + 1) content
  | None, None => content
  | Some v, Some i => if bool_decide (from_option (fun old => sameValue old v) false (content !! i) = true) then content else <[i := v]> content
  | Some v, None => let at_ := insert_at keys k content in take at_ content ++ [word k; v] ++ drop at_ content
  end.

(** [setMapping], strict as every caller has it; [value] is [valueNode]. *)
Definition setMapping (value : bytes → jvalue → res err (option node)) (m : node) (keys : list bytes) (values : gmap bytes jvalue) : res err node :=
  guard! forallb (fun e => contains keys e.1) (map_to_list values) else "unknown key"%string in
  let! content := fold_res (fun content k =>
    match values !! k with
    | None => Ok content
    | Some v => let! n := value k v in Ok (set_key keys content k n)
    end) (n_Content m) keys in
  Ok (with_content m content).

(** [valueNode] but for the entries of [serve], none of whose keys is [serve]. *)
Definition one_item (it : jvalue) : res err (list node) :=
  match it with
  | JStr s => let s := trim_space s in Ok (if bool_decide (s = []) then [] else [scalar s])
  | _ => Err "a list of values"%string
  end.
Fixpoint all_items (f : jvalue → res err (list node)) (l : list jvalue) : res err (list node) :=
  match l with
  | [] => Ok []
  | it :: l => let! a := f it in let! b := all_items f l in Ok (a ++ b)
  end.
Definition seq_or_none (l : list node) : option node := match l with [] => None | _ => Some (seq l) end.
Definition plain_value (items : jvalue → res err (list node)) (v : jvalue) : res err (option node) :=
  match v with
  | JNull => Ok None
  | JStr s =>
      let s := trim_space s in
      guard! negb (contains_any s [13; 10]) else "values cannot span lines"%string in
      Ok (if bool_decide (s = []) then None else Some (scalar s))
  | JArr l => let! l := all_items items l in Ok (seq_or_none l)
  | JBool b => Ok (Some (scalar (if b then lit "true" else lit "false")))
  | JNum text => Ok (Some (scalar text))
  | JObj _ => Err "unexpected value"%string
  end.
Definition serve_entry (it : jvalue) : res err (list node) :=
  match it with
  | JObj m =>
      let! entry := setMapping (fun _ => plain_value one_item) (mapping []) serveKeys m in
      Ok (match n_Content entry with [] => [] | _ => [entry] end)
  | _ => Err "serve entry is not an object"%string
  end.
Definition valueNode (key : bytes) (v : jvalue) : res err (option node) :=
  plain_value (if says key "serve" then serve_entry else one_item) v.
Definition set_mapping := setMapping valueNode.

(** [nodeValue] and [nodeValues]: the other way. *)
Fixpoint nodeValue (n : node) : jvalue :=
  match n with
  | Node kind tag v _ content =>
      match kind with
      | ScalarNode => JStr (if says tag "!!null" then [] else v)
      | SequenceNode => JArr (nodeValue <$> content)
      | MappingNode => JObj ((fix pairs out content := match content with k :: v :: content => pairs (<[n_Value k := nodeValue v]> out) content | _ => out end) ∅ content)
      | AliasNode => JStr []
      end
  end.
Definition nodeValues (m : node) : gmap bytes jvalue :=
  (fix pairs out content := match content with k :: v :: content => pairs (<[n_Value k := nodeValue v]> out) content | _ => out end) ∅ (n_Content m).
(** [ruleValues] *)
Definition ruleValues (group rule : node) : gmap bytes jvalue :=
  match mapGet group (lit "listener") with Some l => <[lit "listener" := JStr (n_Value l)]> (nodeValues rule) | None => nodeValues rule end.

(** * Sections of the file *)

(** [section]: the root with the list, and where the list is. *)
Definition section (root : node) (key : bytes) : node * nat :=
  match map_at root key with
  | Some i =>
      match n_Content root !! i with
      | Some v => if bool_decide (n_Kind v = SequenceNode) then (root, i) else (change [i] (fun _ => seq []) root, i)
      | None => (root, i)
      end
  | None => (append_to [word key; seq []] root, S (length (n_Content root)))
  end.

(** Where a rule is: its section in the root, its routes item there, the
    item's list of rules, its place in the list. *)
Record place := mkPlace { pl_section : nat; pl_group : nat; pl_list : nat; pl_item : nat }.
Definition group_path (p : place) : list nat := [pl_section p; pl_group p].
Definition list_path (p : place) : list nat := [pl_section p; pl_group p; pl_list p].
Definition item_path (p : place) : list nat := [pl_section p; pl_group p; pl_list p; pl_item p].

Definition starts_on (line : Z) (n : node) : option unit :=
  if bool_decide (n_Line n = line) && bool_decide (n_Kind n = MappingNode) then Some tt else None.
Definition list_at (m : node) (key : bytes) : option (nat * node) :=
  match map_at m key with
  | Some i => match n_Content m !! i with Some v => if bool_decide (n_Kind v = SequenceNode) then Some (i, v) else None | None => None end
  | None => None
  end.

(** [ruleAt] *)
Definition ruleAt (root : node) (line : Z) : option place :=
  match list_at root (lit "routes") with
  | Some (i, routes) =>
      match find_at (fun g => match list_at g (lit "rules") with
                              | Some (k, rs) => (fun r => (k, r.1)) <$> find_at (starts_on line) (n_Content rs)
                              | None => None end) (n_Content routes) with
      | Some (j, (k, r)) => Some (mkPlace i j k r)
      | None => None
      end
  | None => None
  end.

(** The item of a list whose [name_key] says [name]. *)
Definition named (name_key name : bytes) (g : node) : option unit :=
  match mapGet g name_key with Some n => if bool_decide (n_Value n = name) then Some tt else None | None => None end.

(** [groupFor]: the root with the routes item, and where the item is. *)
Definition groupFor (root : node) (listener : bytes) : node * list nat :=
  let '(root, i) := section root (lit "routes") in
  let groups := from_option n_Content [] (n_Content root !! i) in
  match find_at (named (lit "listener") listener) groups with
  | Some (j, _) =>
      let p := [i; j] in
      (match sub p root ≫= fun g => map_at g (lit "rules") with
       | Some _ => root
       | None => change p (append_to [scalar (lit "rules"); seq []]) root
       end, p)
  | None =>
      (change [i] (append_to [mapping [scalar (lit "listener"); scalar listener; scalar (lit "rules"); seq []]]) root, [i; length groups])
  end.

(** [dropEmptyGroup] of the group at [i], [j] *)
Definition dropEmptyGroup (root : node) (i j : nat) : node :=
  match sub [i; j] root ≫= fun g => mapGet g (lit "rules") with
  | Some rs => if (0 <? length (n_Content rs))%nat then root else change [i] (delete_from j) root
  | None => change [i] (delete_from j) root
  end.

(** [dst.Content = append(dst.Content, rule)], [dst] the rules of [groupFor]'s item. *)
Definition add_rule (root : node) (listener : bytes) (rule : node) : res err node :=
  let '(root, p) := groupFor root listener in
  match sub p root ≫= fun g => map_at g (lit "rules") with
  | Some k => Ok (change (p ++ [k]) (append_to [rule]) root)
  | None => Err "nil pointer"%string
  end.

Section Edits.
Context (encode : node → bytes).                             (* encodeNode: the tree written, indented by two *)
Context (yaml_parse : bytes → res err (option node)).        (* yaml.Unmarshal: the document's root, if any *)

(** [loadDoc]; a [yamlDoc] is its root. *)
Definition loadDoc : bytes → res err node := parseYAML yaml_parse.

(** What an edit answers: the tree as edited and the item it wrote. *)
Definition answer (A : Type) : Type := res err (node * A).

(** [editRule]'s change of the tree *)
Definition edit_rule (root : node) (line : Z) (values : gmap bytes jvalue) (del : bool) : answer (option node) :=
  let listener := match values !! lit "listener" with Some (JStr s) => s | _ => [] end in
  let values := delete (lit "listener") values in
  if (line =? 0) && negb del then
    guard! negb (bool_decide (listener = [])) else "listener is required"%string in
    let! rule := set_mapping (mapping []) ruleKeys values in
    let! root := add_rule root listener rule in
    Ok (root, Some rule)
  else
    match ruleAt root line with
    | None => Err "there is no rule at this line any more"%string
    | Some p =>
        let without r := dropEmptyGroup (change (list_path p) (delete_from (pl_item p)) r) (pl_section p) (pl_group p) in
        if del then Ok (without root, None)
        else
          match sub (item_path p) root, sub (group_path p) root with
          | Some r, Some group =>
              let! rule := set_mapping r ruleKeys values in
              let root := change (item_path p) (fun _ => rule) root in
              if negb (bool_decide (listener = [])) && negb (bool_decide (n_Value <$> mapGet group (lit "listener") = Some listener)) then
                let! root := add_rule (without root) listener rule in
                Ok (root, Some rule)
              else Ok (root, Some rule)
          | _, _ => Err "nil pointer"%string
          end
    end.

(** [editRule]: the text written back, the rule as written *)
Definition editRule (text : bytes) (line : Z) (values : gmap bytes jvalue) (del : bool) : res err (bytes * bytes * node) :=
  let! root := loadDoc text in
  let! (root, rule) := edit_rule root line values del in
  Ok (encode root, from_option encode [] rule, root).

(** [listenerAt] *)
Definition listenerAt (root : node) (line : Z) : option (nat * nat) :=
  match list_at root (lit "listeners") with
  | Some (i, ls) => (fun e => (i, e.1)) <$> find_at (starts_on line) (n_Content ls)
  | None => None
  end.

(** The rename of a listener in its routes items. *)
Definition rename_in (name_key old new : bytes) (g : node) : node :=
  match map_at g name_key with
  | Some i => change [i] (fun n => if bool_decide (n_Value n = old) then with_value n new else n) g
  | None => g
  end.
Definition on_content (f : node → node) (n : node) : node := with_content n (f <$> n_Content n).

(** [editListener]'s change of the tree *)
Definition edit_listener (root : node) (line : Z) (values : gmap bytes jvalue) (del : bool) : answer (option node) :=
  if line =? 0 then
    let! l := set_mapping (mapping []) listenerKeys values in
    let '(root, i) := section root (lit "listeners") in
    Ok (change [i] (append_to [l]) root, Some l)
  else
    match listenerAt root line with
    | None => Err "there is no listener at this line any more"%string
    | Some (i, j) =>
        if del then Ok (change [i] (delete_from j) root, None)
        else
          match sub [i; j] root with
          | None => Err "nil pointer"%string
          | Some l =>
              let oldName := from_option n_Value [] (mapGet l (lit "name")) in
              let! l := set_mapping l listenerKeys values in
              let root := change [i; j] (fun _ => l) root in
              let newName := match values !! lit "name" with Some (JStr s) => s | _ => [] end in
              let root :=
                if negb (bool_decide (newName = [])) && negb (bool_decide (newName = oldName)) && negb (bool_decide (oldName = [])) then
                  match map_at root (lit "routes") with
                  | Some k => change [k] (on_content (rename_in (lit "listener") oldName newName)) root
                  | None => root
                  end
                else root in
              Ok (root, Some l)
          end
    end.

(** [editListener] *)
Definition editListener (text : bytes) (line : Z) (values : gmap bytes jvalue) (del : bool) : res err (bytes * bytes * node) :=
  let! root := loadDoc text in
  let! (root, l) := edit_listener root line values del in
  Ok (encode root, from_option encode [] l, root).

(** [fileValues]: the rules and listeners by the line they start on; the last
    one on a line is the one shown. *)
Definition by_line (f : node → gmap bytes jvalue) (out : gmap Z (gmap bytes jvalue)) (n : node) : gmap Z (gmap bytes jvalue) :=
  if bool_decide (n_Kind n = MappingNode) then <[n_Line n := f n]> out else out.
Definition contents (n : option node) : list node := from_option n_Content [] n.
Definition fileValues (text : bytes) : gmap Z (gmap bytes jvalue) * gmap Z (gmap bytes jvalue) :=
  match loadDoc text with
  | Err _ => (∅, ∅)
  | Ok root =>
      (foldl (fun out g => foldl (by_line (ruleValues g)) out (contents (mapGet g (lit "rules")))) ∅ (contents (mapGet root (lit "routes"))),
       foldl (by_line nodeValues) ∅ (contents (mapGet root (lit "listeners"))))
  end.

(** * basic_auth *)

(** [authEdit] *)
Inductive authOp := add_group | rename_group | delete_group | add_user | delete_user | set_password | set_disabled | set_expiry | unknown_op.
Record authEdit := mkAuthEdit { ae_Op : authOp; ae_Group : bytes; ae_NewName : bytes; ae_User : bytes; ae_Password : bytes; ae_Disabled : bool; ae_Expires : bytes }.

(** [setUserKey]; without a value the key goes. *)
Definition setUserKey (key value : bytes) (u : node) : node :=
  match map_at u key with
  | Some i =>
      if bool_decide (value = []) then with_content u (take (i - 1) (n_Content u) ++ drop (i + 1) (n_Content u))
      else change [i] (fun _ => word value) u
  | None => if bool_decide (value = []) then u else append_to [scalar key; word value] u
  end.

(** [authGroup]: where the group is, in the section and in the list. *)
Definition authGroup (root : node) (name : bytes) : option (nat * nat) :=
  match list_at root (lit "basic_auth") with
  | Some (i, ba) => (fun e => (i, e.1)) <$> find_at (named (lit "name") name) (n_Content ba)
  | None => None
  end.

(** [authUsers]: the group with its list of users, and where it is. *)
Definition authUsers (g : node) : node * nat :=
  match list_at g (lit "users") with
  | Some (i, _) => (g, i)
  | None => (append_to [scalar (lit "users"); seq []] g, S (length (n_Content g)))
  end.

(** [userNode] *)
Definition userNode (user hash : bytes) : node := mapping [scalar (lit "username"); scalar user; scalar (lit "password_hash"); word hash].

(** The values of a key of the serve entries that name an item ([authRefs] of
    a basic_auth group, [oidcRefs] of an oidc item); and the same renamed. *)
Definition serve_entries (r : node) : list node := contents (snd <$> list_at r (lit "serve")).
Definition refs_of (key name : bytes) (e : node) : list node :=
  match mapGet e key with Some v => if bool_decide (n_Value v = name) then [v] else [] | None => [] end.
Definition refs_in (key : bytes) (root : node) (name : bytes) : list node :=
  contents (mapGet root (lit "routes")) ≫= fun g => contents (mapGet g (lit "rules")) ≫= fun r => serve_entries r ≫= refs_of key name.
Definition authRefs : node → bytes → list node := refs_in (lit "basic_auth").
Definition on_key (key : bytes) (f : node → node) (m : node) : node :=
  match map_at m key with Some i => change [i] f m | None => m end.
Definition on_list (key : bytes) (f : node → node) (m : node) : node :=
  match list_at m key with Some (i, _) => change [i] f m | None => m end.
Definition rename_refs_in (key old new : bytes) : node → node :=
  on_key (lit "routes") (on_content (on_key (lit "rules") (on_content (on_list (lit "serve") (on_content (rename_in key old new)))))).
Definition rename_refs : bytes → bytes → node → node := rename_refs_in (lit "basic_auth").

(** [findUser]: the group with its list of users, where it is, and which
    user it is. *)
Definition findUser (g : node) (user : bytes) : node * nat * option nat :=
  let '(g, k) := authUsers g in
  (g, k, fst <$> find_at (named (lit "username") user) (from_option n_Content [] (n_Content g !! k))).

Section Auth.
Context (parse_date parse_rfc3339 : bytes → option Z).       (* time.Parse: a day's start, a time *)
Context (hash : bytes → res err bytes).                      (* hashPassword: see Password *)

(** One user of the group at [i], [j] changed in place. *)
Definition on_user (root : node) (i j : nat) (g : node) (user : bytes) (f : node → res err node) : res err node :=
  match findUser g user with
  | (g, k, Some u) =>
      match sub [k; u] g with
      | Some n => let! n := f n in Ok (change [i; j] (fun _ => change [k; u] (fun _ => n) g) root)
      | None => Err "nil pointer"%string
      end
  | _ => Err "there is no such user any more"%string
  end.
Definition newHash (password : bytes) : res err bytes :=
  guard! negb (bool_decide (password = [])) else "the password must not be empty"%string in
  hash password.

(** [editBasicAuth]'s change of the tree *)
Definition edit_basic_auth (root : node) (e : authEdit) : res err node :=
  match authGroup root (ae_Group e) with
  | None =>
      match ae_Op e with
      | add_group =>
          let! h := newHash (ae_Password e) in
          let '(group, k) := authUsers (mapping [scalar (lit "name"); scalar (ae_Group e)]) in
          let group := change [k] (append_to [userNode (ae_User e) h]) group in
          let '(root, i) := section root (lit "basic_auth") in
          Ok (change [i] (append_to [group]) root)
      | _ => Err "there is no such basic_auth group any more"%string
      end
  | Some (i, j) =>
      match sub [i; j] root with
      | None => Err "nil pointer"%string
      | Some g =>
          match ae_Op e with
          | add_group => Err "there is already such a basic_auth group"%string
          | rename_group =>
              guard! negb (bool_decide (ae_NewName e = [])) && negb (bool_decide (ae_NewName e = ae_Group e)) else "give the group a new name"%string in
              match authGroup root (ae_NewName e) with
              | Some _ => Err "there is already such a basic_auth group"%string
              | None => Ok (rename_refs (ae_Group e) (ae_NewName e) (change [i; j] (on_key (lit "name") (fun n => with_value n (ae_NewName e))) root))
              end
          | delete_group =>
              guard! bool_decide (authRefs root (ae_Group e) = []) else "basic_auth is used by serve entries: change them first"%string in
              Ok (change [i] (delete_from j) root)
          | add_user =>
              match findUser g (ae_User e) with
              | (_, _, Some _) => Err "the group already has such a user"%string
              | (g, _, None) =>
                  let! h := newHash (ae_Password e) in
                  let '(g, k) := authUsers g in
                  Ok (change [i; j] (fun _ => change [k] (append_to [userNode (ae_User e) h]) g) root)
              end
          | delete_user =>
              match findUser g (ae_User e) with
              | (_, _, None) => Err "there is no such user any more"%string
              | (g, k, Some u) =>
                  if (length (contents (n_Content g !! k)) =? 1)%nat then Err "the group's only user: delete the group instead"%string
                  else Ok (change [i; j] (fun _ => change [k] (delete_from u) g) root)
              end
          | set_password =>
              on_user root i j g (ae_User e) (fun u =>
                let! h := newHash (ae_Password e) in
                Ok (setUserKey (lit "password_hash") h (setUserKey (lit "password_plain") [] u)))
          | set_disabled =>
              on_user root i j g (ae_User e) (fun u =>
                let u := setUserKey (lit "disabled") (if ae_Disabled e then lit "true" else []) u in
                Ok (if ae_Disabled e then on_key (lit "disabled") (fun n => with_tag n (lit "!!bool")) u else u))
          | set_expiry =>
              on_user root i j g (ae_User e) (fun u =>
                let expires := trim_space (ae_Expires e) in
                let! _ := (if bool_decide (expires = []) then Ok 0 else parseExpiry parse_date parse_rfc3339 expires) in
                Ok (setUserKey (lit "expires") expires u))
          | unknown_op => Err "unknown change"%string
          end
      end
  end.

(** [editBasicAuth] *)
Definition editBasicAuth (text : bytes) (e : authEdit) : res err bytes :=
  let! root := loadDoc text in
  let! root := edit_basic_auth root e in
  Ok (encode root).
End Auth.
End Edits.
