(* ===== verification/SectionEdits.v ===== *)
(** SectionEdits: what the edits of [Sections] do to the file's rules,
    listeners and basic_auth groups, and that they do nothing else. *)

From S2P Require Import Prelude GoStr Config ServeConfig Yaml ConfigLoad Sections.

(** * Facts about places *)

Lemma find_at_some {A B} (f : A → option B) l i b : find_at f l = Some (i, b) → ∃ x, l !! i = Some x ∧ f x = Some b.
Proof.
  revert i. induction l as [|x l IH]; intros i; [done|]. cbn [find_at]. destruct (f x) as [b'|] eqn:E; [intros [= <- <-]; by exists x|].
  destruct (find_at f l) as [[i' b']|]; [|done]. intros [= <- <-]. by apply IH.
Qed.
Lemma find_at_none {A B} (f : A → option B) l : find_at f l = None → ∀ x, x ∈ l → f x = None.
Proof.
  induction l as [|x l IH]; [intros _ y Hy; by apply not_elem_of_nil in Hy|]. cbn [find_at]. destruct (f x) eqn:E; [done|].
  destruct (find_at f l) as [[]|]; [done|]. intros _ y [->|Hy]%elem_of_cons; [done|by apply IH].
Qed.

Lemma value_at_key c k i : value_at c k = Some i → ∃ j n, i = S j ∧ Nat.Odd i ∧ c !! j = Some n ∧ n_Value n = k ∧ is_Some (c !! i).
Proof.
  revert i. assert (∀ n c i, (length c < n)%nat → value_at c k = Some i → ∃ j n, i = S j ∧ Nat.Odd i ∧ c !! j = Some n ∧ n_Value n = k ∧ is_Some (c !! i)) as H; [|intros i; by apply (H (S (length c))); lia].
  clear c. induction n as [|n IH]; intros c i Hn; [lia|]. destruct c as [|a [|b c]]; [done..|]. cbn [value_at].
  destruct (bool_decide_reflect (n_Value a = k)); [intros [= <-]; exists 0%nat, a; split_and!; try done; by exists 0%nat|].
  intros (i' & Hi & ->)%fmap_Some. apply IH in Hi as (j & x & -> & [o Ho] & Hj & Hk & Hv); [|cbn in Hn; lia].
  exists (S (S j)), x. split_and!; try done. exists (S o). lia.
Qed.

Lemma value_at_alter c k f i : Nat.Odd i → value_at (alter f i c) k = value_at c k.
Proof.
  intros Hi. assert (∀ n c i, (length c < n)%nat → Nat.Odd i → value_at (alter f i c) k = value_at c k) as H; [|by apply (H (S (length c))); [lia|]].
  clear. induction n as [|n IH]; intros c i Hn [o ->]; [lia|]. replace (2 * o + 1)%nat with (S (2 * o)) by lia.
  destruct c as [|a [|b c]]; [done|by destruct o|]. destruct o as [|o]; [done|]. replace (S (2 * S o)) with (S (S (2 * o + 1))) by lia.
  cbn. rewrite IH; [done|cbn in Hn; lia|by exists o].
Qed.

Lemma value_at_app c k a b : Nat.Even (length c) → value_at (c ++ [a; b]) k =
  match value_at c k with Some i => Some i | None => if bool_decide (n_Value a = k) then Some (S (length c)) else None end.
Proof.
  assert (∀ n c, (length c < n)%nat → Nat.Even (length c) → value_at (c ++ [a; b]) k =
    match value_at c k with Some i => Some i | None => if bool_decide (n_Value a = k) then Some (S (length c)) else None end) as H; [|by apply (H (S (length c))); lia].
  clear. induction n as [|n IH]; intros c Hn He; [lia|]. destruct c as [|x [|y c]]; [by cbn|by destruct He; cbn in *; lia|]. cbn.
  destruct (bool_decide (n_Value x = k)); [done|]. rewrite IH; [|cbn in Hn; lia|destruct He as [e He]; exists (e - 1)%nat; cbn in He; lia].
  destruct (value_at c k); [done|]. by destruct (bool_decide _).
Qed.

Lemma mapGet_at m k i : map_at m k = Some i → ∃ v, n_Content m !! i = Some v ∧ mapGet m k = Some v.
Proof. intros Hi. unfold mapGet. rewrite Hi. by destruct (value_at_key _ _ _ Hi) as (j & n & -> & _ & _ & _ & [v Hv]); exists v. Qed.
Lemma mapGet_none m k : mapGet m k = None ↔ map_at m k = None.
Proof. split; [|by unfold mapGet; intros ->]. destruct (map_at m k) as [i|] eqn:E; [|done]. destruct (mapGet_at _ _ _ E) as (v & _ & ->). done. Qed.
Lemma map_at_other m k k' i : map_at m k = Some i → k ≠ k' → map_at m k' ≠ Some i.
Proof.
  intros H1 Hn H2. apply value_at_key in H1 as (j & n & -> & _ & Hj & <- & _), H2 as (j' & n' & [= <-] & _ & Hj' & <- & _). congruence.
Qed.

Lemma content_change1 i f n : n_Content (change [i] f n) = alter f i (n_Content n).
Proof. by destruct n. Qed.
Lemma content_with n c : n_Content (with_content n c) = c.
Proof. by destruct n. Qed.
Lemma kind_change i p f n : n_Kind (change (i :: p) f n) = n_Kind n.
Proof. by destruct n. Qed.

(** A value changed: that key has it, the others are as they were. *)
Lemma map_at_change m i f k k' : map_at m k = Some i → map_at (change [i] f m) k' = map_at m k'.
Proof. intros Hi. unfold map_at. rewrite content_change1. apply value_at_alter. by apply value_at_key in Hi as (j & n & -> & ? & _). Qed.
Lemma mapGet_change m i f k : map_at m k = Some i → mapGet (change [i] f m) k = f <$> mapGet m k.
Proof.
  intros Hi. unfold mapGet. rewrite (map_at_change _ _ _ _ _ Hi), Hi, content_change1. cbn. apply list_lookup_alter_eq.
Qed.
Lemma mapGet_change_ne m i f k k' : map_at m k = Some i → k ≠ k' → mapGet (change [i] f m) k' = mapGet m k'.
Proof.
  intros Hi Hn. unfold mapGet. rewrite (map_at_change _ _ _ _ _ Hi), content_change1. destruct (map_at m k') as [i'|] eqn:E; [|done]. cbn.
  apply list_lookup_alter_ne. intros ->. by apply (map_at_other _ _ _ _ Hi Hn).
Qed.

Definition evenly (n : node) : Prop := Nat.Even (length (n_Content n)).
Lemma evenly_change i f n : evenly n → evenly (change [i] f n).
Proof. unfold evenly. by rewrite content_change1, length_alter. Qed.
Lemma evenly_append n a b : evenly n → evenly (append_to [a; b] n).
Proof. unfold evenly. destruct n; cbn. rewrite length_app. intros [e ->]. exists (S e). cbn. lia. Qed.

Lemma map_at_append m a b k : evenly m → map_at (append_to [a; b] m) k =
  match map_at m k with Some i => Some i | None => if bool_decide (n_Value a = k) then Some (S (length (n_Content m))) else None end.
Proof. intros Hm. unfold map_at. destruct m; cbn. by apply value_at_app. Qed.
Lemma content_append l m : n_Content (append_to l m) = n_Content m ++ l.
Proof. by destruct m. Qed.
Lemma mapGet_append_ne m a b k : evenly m → n_Value a ≠ k → mapGet (append_to [a; b] m) k = mapGet m k.
Proof.
  intros Hm Hn. unfold mapGet. rewrite map_at_append, (bool_decide_false (_ = k)) by done.
  destruct (map_at m k) as [i|] eqn:E; [|done]. cbn. rewrite content_append. destruct (mapGet_at _ _ _ E) as (v & Hv & _).
  rewrite lookup_app_l by (by eapply lookup_lt_Some). done.
Qed.
Lemma mapGet_append m a b : evenly m → mapGet m (n_Value a) = None → map_at (append_to [a; b] m) (n_Value a) = Some (S (length (n_Content m))) ∧ mapGet (append_to [a; b] m) (n_Value a) = Some b.
Proof.
  intros Hm Hn%mapGet_none. unfold mapGet. rewrite map_at_append, Hn, bool_decide_true by done. split; [done|]. cbn.
  rewrite content_append, lookup_app_r by lia. by replace (S _ - _)%nat with 1%nat by lia.
Qed.

#[local] Arguments change : simpl never.

(** The items of a mapping's list. *)
Definition seq_items (m : node) (k : bytes) : list node := contents (snd <$> list_at m k).
Lemma list_at_spec m k i v : list_at m k = Some (i, v) ↔ map_at m k = Some i ∧ mapGet m k = Some v ∧ n_Kind v = SequenceNode.
Proof.
  unfold list_at. split.
  - destruct (map_at m k) as [i'|] eqn:E; [|done]. destruct (mapGet_at _ _ _ E) as (v' & -> & ->). case_bool_decide; [|done]. by intros [= <- <-].
  - intros (E & Hg & Hk). rewrite E. destruct (mapGet_at _ _ _ E) as (v' & -> & Hg'). rewrite Hg in Hg'. injection Hg' as <-. by rewrite bool_decide_true.
Qed.
Lemma list_at_change m i f v k : list_at m k = Some (i, v) → n_Kind (f v) = SequenceNode → list_at (change [i] f m) k = Some (i, f v).
Proof.
  rewrite !list_at_spec. intros (Hi & Hg & _) Hk. split_and!; [by rewrite (map_at_change _ _ _ _ _ Hi)|by rewrite (mapGet_change _ _ _ _ Hi), Hg|done].
Qed.
Lemma seq_items_list m k i v : list_at m k = Some (i, v) → seq_items m k = n_Content v.
Proof. unfold seq_items. by intros ->. Qed.
Lemma seq_items_get m k v : mapGet m k = Some v → seq_items m k = if bool_decide (n_Kind v = SequenceNode) then n_Content v else [].
Proof.
  intros Hg. unfold seq_items. destruct (list_at m k) as [[i v']|] eqn:E.
  - apply list_at_spec in E as (_ & Hg' & Hk). rewrite Hg in Hg'. injection Hg' as <-. by rewrite bool_decide_true.
  - case_bool_decide as Hk; [|done]. exfalso. destruct (map_at m k) as [i|] eqn:Ei; [|by apply mapGet_none in Ei; rewrite Ei in Hg].
    by rewrite (proj2 (list_at_spec m k i v)) in E.
Qed.
Lemma seq_items_same m m' k : mapGet m' k = mapGet m k → seq_items m' k = seq_items m k.
Proof.
  intros Hg. destruct (mapGet m k) as [v|] eqn:E; [by rewrite !(seq_items_get _ _ v)|].
  unfold seq_items, list_at. apply mapGet_none in E, Hg. by rewrite E, Hg.
Qed.

(** [section]: a list is there; what it held, and the rest, are as they were. *)
Lemma section_spec root k root' i : evenly root → section root k = (root', i) →
  (∃ v, list_at root' k = Some (i, v) ∧ n_Content v = seq_items root k) ∧ (∀ k', k' ≠ k → mapGet root' k' = mapGet root k') ∧ evenly root' ∧ n_Kind root' = n_Kind root.
Proof.
  intros He. unfold section. destruct (map_at root k) as [i'|] eqn:Ei.
  - destruct (mapGet_at _ _ _ Ei) as (v & -> & Hg). case_bool_decide as Hk; intros [= <- <-].
    + split_and!; try done. exists v. split; [by apply list_at_spec|]. by rewrite (seq_items_get _ _ v), bool_decide_true.
    + split_and!; [|intros k' Hk'; by apply (mapGet_change_ne _ _ _ k)|by apply evenly_change|by destruct root].
      exists (seq []). split; [|by rewrite (seq_items_get _ _ v), bool_decide_false].
      apply list_at_spec. split_and!; [exact (eq_trans (map_at_change _ _ _ _ _ Ei) Ei)|by rewrite (mapGet_change _ _ _ _ Ei), Hg|done].
  - intros [= <- <-]. assert (mapGet root (n_Value (word k)) = None) as Hn by (by apply mapGet_none). destruct (mapGet_append _ _ (seq []) He Hn) as [H1 H2].
    split_and!; [|intros k' Hk'; apply mapGet_append_ne; [done|by intros <-]|by apply evenly_append|by destruct root].
    exists (seq []). split; [by apply list_at_spec|]. unfold seq_items, list_at. by rewrite Ei.
Qed.

(** * Items in two levels: the rules of the listeners, the users of the groups *)

Section Items.
Context (sec nk lk : bytes) (Hkeys : nk ≠ lk).

Definition rows (g : node) : list (option bytes * node) := (fun r => (n_Value <$> mapGet g nk, r)) <$> seq_items g lk.
Definition items (root : node) : list (option bytes * node) := seq_items root sec ≫= rows.

Definition group_ok (g : node) : Prop := evenly g ∧ ∀ v, mapGet g lk = Some v → n_Kind v = SequenceNode.
Definition tidy (root : node) : Prop := evenly root ∧ Forall group_ok (seq_items root sec).

(** The section's list changed. *)
Lemma section_change root i v f : list_at root sec = Some (i, v) → n_Kind (f v) = SequenceNode →
  seq_items (change [i] f root) sec = n_Content (f v) ∧ (∀ k, k ≠ sec → mapGet (change [i] f root) k = mapGet root k) ∧ (evenly root → evenly (change [i] f root)).
Proof.
  intros Hl Hk. split_and!; [by rewrite (seq_items_list _ _ i (f v)); [|apply list_at_change]| |apply evenly_change].
  intros k Hn. apply list_at_spec in Hl as (Hi & _). by apply (mapGet_change_ne _ _ _ sec).
Qed.

(** One group changed. *)
Lemma group_change root i v j g f : list_at root sec = Some (i, v) → n_Content v !! j = Some g →
  ∃ l1 l2, seq_items root sec = l1 ++ g :: l2 ∧ length l1 = j ∧
    seq_items (change [i; j] f root) sec = l1 ++ f g :: l2 ∧ (∀ k, k ≠ sec → mapGet (change [i; j] f root) k = mapGet root k) ∧ (evenly root → evenly (change [i; j] f root)).
Proof.
  intros Hl Hg. destruct (list_elem_of_split_length _ _ _ Hg) as (l1 & l2 & Hc & ->). exists l1, l2.
  pose proof (proj1 (list_at_spec _ _ _ _) Hl) as (_ & _ & Hk). rewrite (seq_items_list _ _ _ _ Hl). change (change [i; length l1] f root) with (change [i] (change [length l1] f) root).
  destruct (section_change _ _ _ (change [length l1] f) Hl) as (H1 & H2 & H3); [by rewrite kind_change|].
  split_and!; try done. rewrite H1, content_change1, Hc. by rewrite alter_app_r_alt, Nat.sub_diag by lia.
Qed.

(** Where an item is. *)
Definition placed (root : node) (p : place) (g rs r : node) : Prop :=
  ∃ v, list_at root sec = Some (pl_section p, v) ∧ n_Content v !! pl_group p = Some g ∧
    list_at g lk = Some (pl_list p, rs) ∧ n_Content rs !! pl_item p = Some r.

Lemma placed_sub root p g rs r : placed root p g rs r →
  sub (group_path p) root = Some g ∧ sub (list_path p) root = Some rs ∧ sub (item_path p) root = Some r.
Proof.
  intros (v & Hv & Hg & Hrs & Hr). unfold group_path, list_path, item_path. cbn [sub].
  apply list_at_spec in Hv as (Hi & Hm & _), Hrs as (Hj & Hn & _).
  destruct (mapGet_at _ _ _ Hi) as (v' & -> & Hm'). rewrite Hm in Hm'. injection Hm' as <-. rewrite Hg.
  destruct (mapGet_at _ _ _ Hj) as (v' & -> & Hn'). rewrite Hn in Hn'. injection Hn' as <-. by rewrite Hr.
Qed.

Lemma rows_list g k rs : list_at g lk = Some (k, rs) → rows g = pair (n_Value <$> mapGet g nk) <$> n_Content rs.
Proof. intros Hl. unfold rows. by rewrite (seq_items_list _ _ _ _ Hl). Qed.

(** A group's list changed: the rows are those of the list. *)
Lemma rows_change g k rs f : list_at g lk = Some (k, rs) → n_Kind (f rs) = SequenceNode →
  rows (change [k] f g) = pair (n_Value <$> mapGet g nk) <$> n_Content (f rs) ∧ (group_ok g → group_ok (change [k] f g)).
Proof.
  intros Hl Hk. pose proof (list_at_change _ _ _ _ _ Hl Hk) as Hl'. pose proof (proj1 (list_at_spec _ _ _ _) Hl) as (Hi & Hg & _). split.
  - rewrite (rows_list _ _ _ Hl'). by rewrite (mapGet_change_ne _ _ _ lk nk).
  - intros [He Hv]. split; [by apply evenly_change|]. intros v. rewrite (mapGet_change _ _ _ _ Hi), Hg. by intros [= <-].
Qed.

Lemma list_change root p v g rs : list_at root sec = Some (pl_section p, v) → n_Content v !! pl_group p = Some g → list_at g lk = Some (pl_list p, rs) → ∃ a b, items root = a ++ (pair (n_Value <$> mapGet g nk) <$> n_Content rs) ++ b ∧
  ∀ f, n_Kind (f rs) = SequenceNode →
    items (change (list_path p) f root) = a ++ (pair (n_Value <$> mapGet g nk) <$> n_Content (f rs)) ++ b ∧
    (∀ k, k ≠ sec → mapGet (change (list_path p) f root) k = mapGet root k) ∧ (tidy root → tidy (change (list_path p) f root)).
Proof.
  intros Hv Hg Hrs.
  destruct (group_change root _ v _ g id Hv Hg) as (l1 & l2 & Hs & Hj & _).
  exists (l1 ≫= rows), (l2 ≫= rows). split; [unfold items; by rewrite Hs, bind_app, bind_cons, (rows_list _ _ _ Hrs)|].
  intros f Hk. destruct (rows_change _ _ _ _ Hrs Hk) as [Hr Hok].
  destruct (group_change root _ v _ g (change [pl_list p] f) Hv Hg) as (l1' & l2' & Hs' & Hj' & Hc & Ho & He).
  rewrite Hs in Hs'. apply app_inj_1 in Hs' as [<- [= <-]]; [|congruence]. change (change (list_path p) f root) with (change [pl_section p; pl_group p] (change [pl_list p] f) root).
  split_and!; [unfold items; by rewrite Hc, bind_app, bind_cons, Hr|done|]. intros [H1 H2]. split; [by apply He|]. rewrite Hc.
  rewrite Hs in H2. apply Forall_app in H2 as [H2 H3]. inversion H3; subst. apply Forall_app. split; [done|]. constructor; [by apply Hok|done].
Qed.
End Items.

(** * A mapping's keys *)

Definition flat (ps : list (node * node)) : list node := ps ≫= fun e => [e.1; e.2].
Definition key_texts (ps : list (node * node)) : list bytes := (fun e => n_Value e.1) <$> ps.

Lemma evenly_flat n : evenly n ↔ (∃ ps, n_Content n = flat ps).
Proof.
  unfold evenly. split.
  - generalize (n_Content n). intros c. assert (∀ m c, (length c < m)%nat → Nat.Even (length c) → ∃ ps, c = flat ps) as H; [|apply (H (S (length c))); lia].
    clear. induction m as [|m IH]; intros c Hm He; [lia|]. destruct c as [|k [|v c]]; [by exists []|by destruct He; cbn in *; lia|].
    destruct (IH c) as [ps ->]; [cbn in Hm; lia|destruct He as [e He]; exists (e - 1)%nat; cbn in He; lia|]. by exists ((k, v) :: ps).
  - intros [ps ->]. clear. exists (length ps). induction ps as [|e ps IH]; [done|]. change (flat (e :: ps)) with (e.1 :: e.2 :: flat ps). cbn [length]. lia.
Qed.

(** Where a key is in the pairs. *)
Lemma value_at_flat ps k :
  (value_at (flat ps) k = None ∧ k ∉ key_texts ps) ∨
  (∃ l1 e l2, ps = l1 ++ e :: l2 ∧ n_Value e.1 = k ∧ (k ∉ key_texts l1) ∧ value_at (flat ps) k = Some (S (length (flat l1)))).
Proof.
  induction ps as [|e ps IH]; [left; split; [done|apply not_elem_of_nil]|]. change (flat (e :: ps)) with (e.1 :: e.2 :: flat ps). cbn [value_at].
  destruct (bool_decide_reflect (n_Value e.1 = k)) as [Hk|Hk].
  { right. exists [], e, ps. split_and!; try done. apply not_elem_of_nil. }
  destruct IH as [[-> Hn]|(l1 & e' & l2 & -> & Hk' & Hn & ->)].
  - left. split; [done|]. unfold key_texts. cbn [fmap list_fmap]. by apply not_elem_of_cons.
  - right. exists (e :: l1), e', l2. split_and!; try done. unfold key_texts. cbn [fmap list_fmap]. by apply not_elem_of_cons.
Qed.
Lemma flat_app l1 l2 : flat (l1 ++ l2) = flat l1 ++ flat l2.
Proof. apply bind_app. Qed.

Lemma key_texts_app l1 l2 : key_texts (l1 ++ l2) = key_texts l1 ++ key_texts l2.
Proof. apply fmap_app. Qed.

(** What a mapping has for a key that it has once. *)
Definition value_of (ps : list (node * node)) (k : bytes) : option node := snd <$> find (fun e => bool_decide (n_Value e.1 = k)) ps.
Lemma mapGet_flat m ps k : n_Content m = flat ps → mapGet m k = value_of ps k.
Proof.
  intros Hc. unfold mapGet, map_at. rewrite Hc. clear. induction ps as [|e ps IH]; [done|].
  change (flat (e :: ps)) with (e.1 :: e.2 :: flat ps). unfold value_of. cbn [value_at find]. case_bool_decide; [done|].
  fold (value_of ps k). rewrite <- IH. by destruct (value_at (flat ps) k).
Qed.

(** One key of [setMapping], on pairs: that key only. *)
Definition settles (value : option node) (now : option node) : Prop :=
  match value with
  | None => now = None
  | Some v => ∃ v', now = Some v' ∧ (v' = v ∨ sameValue v' v = true)
  end.
Definition others (ks : list bytes) (ps : list (node * node)) : list (node * node) := filter (fun e => n_Value e.1 ∉ ks) ps.

Lemma insert_at_flat keys k ps : ∃ l1 l2, ps = l1 ++ l2 ∧ insert_at keys k (flat ps) = length (flat l1).
Proof.
  induction ps as [|e ps IH]; [by exists [], []|]. change (flat (e :: ps)) with (e.1 :: e.2 :: flat ps). cbn [insert_at].
  destruct (_ <? _); [by exists [], (e :: ps)|]. destruct IH as (l1 & l2 & -> & ->). by exists (e :: l1), l2.
Qed.
Lemma value_of_app l1 l2 k : k ∉ key_texts l1 → value_of (l1 ++ l2) k = value_of l2 k.
Proof.
  unfold key_texts, value_of. induction l1 as [|e l1 IH]; [done|]. cbn [fmap list_fmap app find]. intros [Hk Hn]%not_elem_of_cons.
  rewrite bool_decide_false by congruence. by apply IH.
Qed.
Lemma value_of_none ps k : k ∉ key_texts ps → value_of ps k = None.
Proof. intros Hn. by rewrite <- (app_nil_r ps), value_of_app. Qed.

Lemma set_key_spec keys ps k value : NoDup (key_texts ps) → ∃ ps', set_key keys (flat ps) k value = flat ps' ∧
  NoDup (key_texts ps') ∧ settles value (value_of ps' k) ∧ others [k] ps' = others [k] ps.
Proof.
  intros Hnd. unfold set_key. destruct (value_at_flat ps k) as [[-> Hn]|(l1 & e & l2 & -> & Hk & Hn & ->)].
  - destruct value as [v|]; [|exists ps; split_and!; try done; by apply value_of_none].
    destruct (insert_at_flat keys k ps) as (l1 & l2 & -> & ->). rewrite flat_app, take_app_length, drop_app_length.
    rewrite key_texts_app in *. apply not_elem_of_app in Hn as [Hn1 Hn2]. exists (l1 ++ (word k, v) :: l2).
    split_and!; [by rewrite flat_app| | |].
    + rewrite key_texts_app. change (key_texts ((word k, v) :: l2)) with (k :: key_texts l2). rewrite <- Permutation_middle. apply NoDup_cons. split; [|done]. by apply not_elem_of_app.
    + rewrite value_of_app by done. exists v. split; [|by left]. unfold value_of. cbn [find fst]. by rewrite bool_decide_true.
    + unfold others. rewrite !filter_app, filter_cons_False; [done|]. cbn. set_solver.
  - rewrite key_texts_app in Hnd. apply NoDup_app in Hnd as (Hnd1 & Hd & Hnd2). change (key_texts (e :: l2)) with (n_Value e.1 :: key_texts l2) in *. rewrite Hk in *.
    apply NoDup_cons in Hnd2 as [Hn2 Hnd2]. rewrite flat_app. change (flat (e :: l2)) with ([e.1] ++ e.2 :: flat l2).
    assert (others [k] (l1 ++ e :: l2) = others [k] l1 ++ others [k] l2) as Hoth by (unfold others; rewrite filter_app, filter_cons_False; [done|]; rewrite Hk; set_solver).
    assert ((flat l1 ++ [e.1] ++ e.2 :: flat l2) !! S (length (flat l1)) = Some e.2) as Hlook by (rewrite lookup_app_r by lia; by replace (S _ - _)%nat with 1%nat by lia).
    destruct value as [v|].
    + rewrite Hlook. cbn [from_option]. destruct (bool_decide_reflect (sameValue e.2 v = true)) as [Hs|Hs].
      * exists (l1 ++ e :: l2). split_and!; [by rewrite flat_app| | |done].
        -- rewrite key_texts_app. change (key_texts (e :: l2)) with (n_Value e.1 :: key_texts l2). rewrite Hk. apply NoDup_app. split_and!; [done..|]. by constructor.
        -- rewrite value_of_app by done. exists e.2. split; [|by right]. unfold value_of. cbn [find]. by rewrite bool_decide_true.
      * exists (l1 ++ (e.1, v) :: l2). split_and!.
        -- rewrite insert_app_r_alt by lia. replace (S _ - _)%nat with 1%nat by lia. by rewrite flat_app.
        -- rewrite key_texts_app. change (key_texts ((e.1, v) :: l2)) with (n_Value e.1 :: key_texts l2). rewrite Hk. apply NoDup_app. split_and!; [done..|]. by constructor.
        -- rewrite value_of_app by done. exists v. split; [|by left]. unfold value_of. cbn [find fst]. by rewrite bool_decide_true.
        -- rewrite Hoth. unfold others. rewrite filter_app, filter_cons_False; [done|]. cbn. rewrite Hk. set_solver.
    + exists (l1 ++ l2). split_and!.
      * replace (S _ - 1)%nat with (length (flat l1)) by lia. rewrite take_app_length.
        replace (S (length (flat l1)) + 1)%nat with (length (flat l1) + 2)%nat by lia. rewrite <- drop_drop, drop_app_length. by rewrite flat_app.
      * rewrite key_texts_app. apply NoDup_app. split_and!; [done| |done]. intros x Hx Hx2. apply (Hd x Hx). by right.
      * apply value_of_none. rewrite key_texts_app. by apply not_elem_of_app.
      * rewrite Hoth. unfold others. by rewrite filter_app.
Qed.

Lemma value_of_others ks ps k : k ∉ ks → value_of (others ks ps) k = value_of ps k.
Proof.
  intros Hk. unfold others, value_of. induction ps as [|e ps IH]; [done|]. rewrite filter_cons. cbn [find].
  destruct (decide (n_Value e.1 ∉ ks)) as [Hin|Hin]; cbn [find]; destruct (bool_decide_reflect (n_Value e.1 = k)) as [He|]; try done. subst k. by destruct Hin.
Qed.

Lemma others_more k ks ps ps' : k ∈ ks → others [k] ps' = others [k] ps → others ks ps' = others ks ps.
Proof.
  intros Hk H. assert (∀ l, others ks l = others ks (others [k] l)) as Hl; [|by rewrite Hl, H, <- Hl].
  intros l. unfold others. rewrite list_filter_filter. apply list_filter_iff. intros e. set_solver.
Qed.

Section SetMapping.
Context (value : bytes → jvalue → res err (option node)) (keys : list bytes) (values : gmap bytes jvalue).

(** The keys given are set or gone, the others are as they were, in their
    order. *)
Definition mapping_set (ps ps' : list (node * node)) : Prop :=
  NoDup (key_texts ps') ∧
  (∀ k v, values !! k = Some v → k ∈ keys ∧ ∃ o, value k v = Ok o ∧ settles o (value_of ps' k)) ∧
  others (elements (dom values)) ps' = others (elements (dom values)) ps.

Lemma set_fold ks ps content : NoDup ks → NoDup (key_texts ps) →
  fold_res (fun content k => match values !! k with
                             | None => Ok content
                             | Some v => let! n := value k v in Ok (set_key keys content k n)
                             end) (flat ps) ks = Ok content →
  ∃ ps', content = flat ps' ∧ NoDup (key_texts ps') ∧
    (∀ k v, k ∈ ks → values !! k = Some v → ∃ o, value k v = Ok o ∧ settles o (value_of ps' k)) ∧
    (∀ k, k ∉ ks → value_of ps' k = value_of ps k) ∧
    others (elements (dom values)) ps' = others (elements (dom values)) ps.
Proof.
  intros Hks. revert ps. induction Hks as [|k ks Hk Hks IH]; intros ps Hps; cbn [fold_res].
  { intros [= <-]. exists ps. split_and!; try done. intros k v Hk. by apply not_elem_of_nil in Hk. }
  destruct (values !! k) as [v|] eqn:Ev.
  - destruct (value k v) as [o|] eqn:Eo; [|done]. destruct (set_key_spec keys ps k o Hps) as (ps1 & -> & Hps1 & Hs & Hoth).
    intros H. destruct (IH ps1 Hps1 H) as (ps' & -> & H1 & H2 & H3 & H4). exists ps'. split_and!; try done.
    + intros k' v' [->|Hk']%elem_of_cons Hv'; [|by apply H2]. exists o. rewrite Hv' in Ev. injection Ev as ->. by rewrite H3.
    + intros k' [Hne Hn]%not_elem_of_cons. rewrite H3 by done. rewrite <- (value_of_others [k] ps1), Hoth, value_of_others; [done|set_solver..].
    + rewrite H4. apply (others_more k); [|done]. apply elem_of_elements, elem_of_dom. by eexists.
  - intros H. destruct (IH ps Hps H) as (ps' & -> & H1 & H2 & H3 & H4). exists ps'. split_and!; try done.
    + intros k' v' [->|Hk']%elem_of_cons Hv'; [congruence|by apply H2].
    + intros k' [Hne Hn]%not_elem_of_cons. by apply H3.
Qed.

Lemma setMapping_spec m ps m' : n_Content m = flat ps → NoDup (key_texts ps) → NoDup keys →
  setMapping value m keys values = Ok m' → n_Kind m' = n_Kind m ∧ ∃ ps', n_Content m' = flat ps' ∧ mapping_set ps ps'.
Proof.
  intros Hc Hps Hks. unfold setMapping. destruct (forallb _ _) eqn:Ef; [|done]. rewrite Hc.
  destruct (fold_res _ _ _) as [content|] eqn:E; [|done]. intros [= <-]. split; [by destruct m|].
  apply (set_fold keys ps) in E as (ps' & -> & H1 & H2 & _ & H4); [|done..]. exists ps'. split; [by destruct m|]. split_and!; try done.
  intros k v Hv. rewrite forallb_forall in Ef. assert (k ∈ keys) as Hin.
  { specialize (Ef (k, v)). rewrite <- list_elem_of_In, elem_of_map_to_list in Ef. by apply Ef, bool_decide_eq_true in Hv. }
  split; [done|by apply H2].
Qed.
End SetMapping.

(** ** What the loader reads of a value written *)

Definition read_back (n : option node) : option (bytes + list bytes) :=
  match n with
  | Some (Node ScalarNode _ v _ _) => Some (inl v)
  | Some (Node SequenceNode _ _ _ c) => if forallb (fun n => bool_decide (n_Kind n = ScalarNode)) c then Some (inr (n_Value <$> c)) else None
  | _ => None
  end.
(** A value from the console, as it is meant: without the white space around,
    nothing when it is empty. *)
Definition item_text (it : jvalue) : list bytes :=
  match it with JStr s => if bool_decide (trim_space s = []) then [] else [trim_space s] | _ => [] end.
Definition meant (v : jvalue) : option (bytes + list bytes) :=
  match v with
  | JStr s => if bool_decide (trim_space s = []) then None else Some (inl (trim_space s))
  | JArr l => match l ≫= item_text with [] => None | texts => Some (inr texts) end
  | JBool b => Some (inl (if b then lit "true" else lit "false"))
  | JNum text => Some (inl text)
  | _ => None
  end.

Lemma one_items l items : all_items one_item l = Ok items → Forall (fun n => n_Kind n = ScalarNode) items ∧ n_Value <$> items = l ≫= item_text.
Proof.
  revert items. induction l as [|it l IH]; intros items; cbn [all_items]; [by intros [= <-]|].
  destruct (one_item it) as [a|] eqn:Ea; [|done]. destruct (all_items one_item l) as [b|] eqn:Eb; [|done]. intros [= <-].
  destruct (IH b eq_refl) as [H1 H2]. rewrite bind_cons, fmap_app, H2. destruct it as [| | |s| |]; try done. cbn [one_item] in Ea. unfold item_text. case_bool_decide; injection Ea as <-.
  - by split.
  - split; [by constructor|done].
Qed.

Lemma same_reads a b : sameValue a b = true → n_Kind a ≠ MappingNode → (∀ n, n ∈ n_Content b → n_Kind n = ScalarNode) → read_back (Some a) = read_back (Some b).
Proof.
  destruct a as [ka ta va la ca], b as [kb tb vb lb cb]. cbn [sameValue]. intros [->%bool_decide_eq_true Hs]%andb_true_iff Hk Hb.
  destruct kb; try done; [|cbn in Hs |- *; by apply bool_decide_eq_true in Hs as ->].
  assert (Forall (fun n => n_Kind n = ScalarNode) ca ∧ n_Value <$> ca = n_Value <$> cb) as [Hca Hv].
  { cbn in Hs, Hb. clear Hk. revert cb Hs Hb. induction ca as [|x ca IH]; intros [|y cb]; try done. intros [Hxy Hs]%andb_true_iff Hb.
    destruct (IH cb Hs) as [H1 H2]; [intros n Hn; apply Hb; by right|]. pose proof (Hb y ltac:(by left)) as Hy.
    destruct x as [kx tx vx lx cx], y as [ky ty vy ly cy]. cbn in Hxy, Hy. subst ky. apply andb_true_iff in Hxy as [->%bool_decide_eq_true Hxy].
    rewrite bool_decide_true in Hxy by done. apply bool_decide_eq_true in Hxy as ->. cbn. rewrite H2. split; [by constructor|done]. }
  cbn in *. rewrite Hv. replace (forallb _ ca) with true; [replace (forallb _ cb) with true; [done|]|]; symmetry; apply forallb_forall; intros n Hn%list_elem_of_In; apply bool_decide_eq_true; [by apply Hb|].
  by apply (proj1 (Forall_forall _ _) Hca).
Qed.

Lemma value_read k v o now : k ≠ lit "serve" → valueNode k v = Ok o → settles o now → read_back now = meant v.
Proof.
  intros Hk. unfold valueNode. assert (says k "serve" = false) as -> by (by apply bool_decide_eq_false).
  assert (∀ n, settles (Some n) now → n_Kind n ≠ MappingNode → (∀ x, x ∈ n_Content n → n_Kind x = ScalarNode) → read_back now = read_back (Some n)) as Hn.
  { intros n (v' & -> & [->|Hs]) Hm Hx; [done|]. apply same_reads; [done| |done]. intros Hk'. destruct v', n. cbn in *. apply andb_true_iff in Hs as [Hs%bool_decide_eq_true _]. congruence. }
  destruct v as [|b|text|s|l|m]; cbn [plain_value meant]; try done.
  - by intros [= <-] ->.
  - intros [= <-] Hs. rewrite (Hn _ Hs); [by destruct b|done|]. by destruct b; intros x ?%not_elem_of_nil.
  - intros [= <-] Hs. rewrite (Hn _ Hs); [done|done|]. by intros x ?%not_elem_of_nil.
  - destruct (contains_any _ _); [done|]. cbn [negb]. case_bool_decide; intros [= <-]; [by intros ->|]. intros Hs. rewrite (Hn _ Hs); [done|done|]. by intros x ?%not_elem_of_nil.
  - destruct (all_items one_item l) as [items|] eqn:E; [|done]. intros [= <-] Hs. apply one_items in E as [H1 H2]. destruct items as [|n items].
    + cbn in Hs. subst now. by rewrite <- H2.
    + rewrite (Hn _ Hs); [|done|by apply Forall_forall]. rewrite <- H2. cbn [seq_or_none read_back seq].
      replace (forallb _ _) with true; [done|]. symmetry. apply forallb_forall. intros x Hx%list_elem_of_In. apply bool_decide_eq_true. by apply (proj1 (Forall_forall _ _) H1).
Qed.

(** A mapping without repeated keys. *)
Definition keyed (n : node) : Prop := ∃ ps, n_Content n = flat ps ∧ NoDup (key_texts ps).

(** [m'] is [m] with the values: what is read of each key given is what was
    meant; the other keys are as they were, in their order. *)
Definition says_values (keys : list bytes) (values : gmap bytes jvalue) (m m' : node) : Prop := ∃ ps ps',
  n_Content m = flat ps ∧ n_Content m' = flat ps' ∧ NoDup (key_texts ps') ∧
  others (elements (dom values)) ps' = others (elements (dom values)) ps ∧
  ∀ k v, values !! k = Some v → k ∈ keys ∧ (k ≠ lit "serve" → read_back (mapGet m' k) = meant v).
Definition written_by (keys : list bytes) (values : gmap bytes jvalue) (m m' : node) : Prop :=
  set_mapping m keys values = Ok m' ∧ (keyed m → says_values keys values m m').

Lemma set_mapping_written m keys values m' : NoDup keys → set_mapping m keys values = Ok m' → written_by keys values m m'.
Proof.
  intros Hks Hs. split; [done|]. intros (ps & Hc & Hnd). destruct (setMapping_spec _ _ _ _ ps _ Hc Hnd Hks Hs) as (_ & ps' & Hc' & H1 & H2 & H3).
  exists ps, ps'. split_and!; try done. intros k v Hv. destruct (H2 k v Hv) as (Hk & o & Ho & Hset). split; [done|]. intros Hne.
  rewrite (mapGet_flat _ _ _ Hc'). by apply (value_read k v o).
Qed.
Lemma ruleKeys_distinct : NoDup ruleKeys.
Proof. apply (bool_decide_eq_true_1 _). vm_compute. reflexivity. Qed.
Lemma listenerKeys_distinct : NoDup listenerKeys.
Proof. apply (bool_decide_eq_true_1 _). vm_compute. reflexivity. Qed.
#[export] Hint Resolve set_mapping_written ruleKeys_distinct listenerKeys_distinct : go.

(** * The rules of the file *)

Abbreviation routes_key := (lit "routes") (only parsing).
Definition file_rules : node → list (option bytes * node) := items (lit "routes") (lit "listener") (lit "rules").
(** Every routes item of the file is a mapping, its rules a list. *)
Definition routes_tidy : node → Prop := tidy (lit "routes") (lit "rules").

Lemma ruleAt_placed root line p : ruleAt root line = Some p →
  ∃ g rs r, placed (lit "routes") (lit "rules") root p g rs r ∧ n_Line r = line ∧ n_Kind r = MappingNode.
Proof.
  unfold ruleAt. destruct (list_at root _) as [[i v]|] eqn:Hv; [|done]. destruct (find_at _ (n_Content v)) as [[j [k r]]|] eqn:Hg; [|done].
  intros [= <-]. apply find_at_some in Hg as (g & Hg & Hf). destruct (list_at g _) as [[k' rs]|] eqn:Hrs; [|done].
  apply fmap_Some in Hf as ([r' []] & Hr & [= -> ->]). apply find_at_some in Hr as (n & Hn & Hs). unfold starts_on in Hs.
  destruct (bool_decide_reflect (n_Line n = line)); [|done]. destruct (bool_decide_reflect (n_Kind n = MappingNode)); [|done].
  exists g, rs, n. split_and!; try done. by exists v.
Qed.

Lemma item_change sec nk lk root p g rs r : nk ≠ lk → placed sec lk root p g rs r → ∃ l1 l2,
  items sec nk lk root = l1 ++ (n_Value <$> mapGet g nk, r) :: l2 ∧
  (∀ f, items sec nk lk (change (item_path p) f root) = l1 ++ (n_Value <$> mapGet g nk, f r) :: l2 ∧
    (∀ k, k ≠ sec → mapGet (change (item_path p) f root) k = mapGet root k) ∧ (tidy sec lk root → tidy sec lk (change (item_path p) f root))) ∧
  items sec nk lk (change (list_path p) (delete_from (pl_item p)) root) = l1 ++ l2 ∧
  (∀ k, k ≠ sec → mapGet (change (list_path p) (delete_from (pl_item p)) root) k = mapGet root k) ∧
  (tidy sec lk root → tidy sec lk (change (list_path p) (delete_from (pl_item p)) root)).
Proof.
  intros Hne (v & Hv & Hg & Hrs & Hr). destruct (list_change sec nk lk Hne root p v g rs Hv Hg Hrs) as (a & b & Hi & Hc).
  apply list_at_spec in Hrs as (_ & _ & Hk). destruct (list_elem_of_split_length _ _ _ Hr) as (c1 & c2 & Hcs & Hj).
  set (L := n_Value <$> mapGet g nk) in *. exists (a ++ (pair L <$> c1)), ((pair L <$> c2) ++ b).
  rewrite Hi, Hcs, fmap_app, <- !app_assoc. split; [done|]. split.
  - intros f. change (change (item_path p) f root) with (change (list_path p) (change [pl_item p] f) root).
    destruct (Hc (change [pl_item p] f)) as (H1 & H2 & H3); [by rewrite kind_change|]. split_and!; [|done..].
    rewrite H1, content_change1, Hcs, alter_app_r_alt, Hj, Nat.sub_diag by lia. change (alter f 0%nat (r :: c2)) with (f r :: c2). by rewrite fmap_app, <- !app_assoc.
  - destruct (Hc (delete_from (pl_item p))) as (H1 & H2 & H3); [by destruct rs|]. split_and!; [|done..].
    rewrite H1. assert (n_Content (delete_from (pl_item p) rs) = c1 ++ c2) as -> by (rewrite Hj; destruct rs; cbn in *; subst; apply delete_middle). by rewrite fmap_app, <- !app_assoc.
Qed.

(** A routes item without rules goes; no rule does. *)
Lemma dropEmptyGroup_spec nk root i v j g : list_at root (lit "routes") = Some (i, v) → n_Content v !! j = Some g →
  items (lit "routes") nk (lit "rules") (dropEmptyGroup root i j) = items (lit "routes") nk (lit "rules") root ∧
  (∀ k, k ≠ lit "routes" → mapGet (dropEmptyGroup root i j) k = mapGet root k) ∧ (routes_tidy root → routes_tidy (dropEmptyGroup root i j)).
Proof.
  intros Hv Hg. pose proof (proj1 (list_at_spec _ _ _ _) Hv) as (Hi & Hm & Hk). unfold dropEmptyGroup. cbn [sub].
  destruct (mapGet_at _ _ _ Hi) as (v' & -> & Hm'). rewrite Hm in Hm'. injection Hm' as <-. rewrite Hg. cbn [mbind option_bind].
  assert (∀ rs, mapGet g (lit "rules") = rs → length (contents rs) = 0%nat → 
    items (lit "routes") nk (lit "rules") (change [i] (delete_from j) root) = items (lit "routes") nk (lit "rules") root ∧
    (∀ k, k ≠ lit "routes" → mapGet (change [i] (delete_from j) root) k = mapGet root k) ∧ (routes_tidy root → routes_tidy (change [i] (delete_from j) root))) as Hdrop.
  { intros rs Hrs Hl. destruct (section_change (lit "routes") root i v (delete_from j) Hv) as (H1 & H2 & H3); [by destruct v|].
    destruct (list_elem_of_split_length _ _ _ Hg) as (l1 & l2 & Hc & Hj).
    assert (n_Content (delete_from j v) = l1 ++ l2) as Hd by (rewrite Hj; destruct v; cbn in *; subst; apply delete_middle).
    assert (rows nk (lit "rules") g = []) as Hr.
    { unfold rows. destruct rs as [rs|]; [|by unfold seq_items, list_at; apply mapGet_none in Hrs; rewrite Hrs].
      rewrite (seq_items_get _ _ _ Hrs). cbn in Hl. apply nil_length_inv in Hl. rewrite Hl. by case_bool_decide. }
    split_and!; [|done|].
    - unfold items. rewrite H1, Hd, (seq_items_list _ _ _ _ Hv), Hc, !bind_app, bind_cons, Hr. done.
    - intros [He Hf]. split; [by apply H3|]. rewrite H1, Hd. rewrite (seq_items_list _ _ _ _ Hv), Hc in Hf.
      apply Forall_app in Hf as [Hf1 [_ Hf2]%Forall_cons]. apply Forall_app. by split. }
  destruct (mapGet g (lit "rules")) as [rs|] eqn:E; [|by apply (Hdrop None)].
  destruct (Nat.ltb_spec 0 (length (n_Content rs))); [done|]. apply (Hdrop (Some rs)); [done|]. cbn. lia.
Qed.

(** Two changes at the same place are one; only what is there matters. *)
Lemma change_change p q f g n : change (p ++ q) f (change p g n) = change p (fun m => change q f (g m)) n.
Proof.
  revert n. induction p as [|i p IH]; intros n; [done|]. destruct n as [k t v l c]. cbn [app]. unfold change; fold change. cbn. f_equal.
  revert i. induction c as [|m c IHc]; intros [|i]; cbn; try done; f_equal; [apply IH|apply IHc].
Qed.
Lemma change_app p q f n : change (p ++ q) f n = change p (change q f) n.
Proof. revert n. induction p as [|i p IH]; intros n; [done|]. cbn [app]. unfold change; fold change. f_equal. apply list_alter_ext; [|done]. intros m _. apply IH. Qed.
Lemma sub_change p f n m : sub p n = Some m → sub p (change p f n) = Some (f m).
Proof.
  revert n. induction p as [|i p IH]; intros n; [by intros [= ->]|]. destruct n as [k t v l c]. unfold change; fold change. cbn.
  rewrite list_lookup_alter_eq. destruct (c !! i); [|done]. cbn. apply IH.
Qed.

(** A routes item with its list of rules. *)
Definition with_rules (g : node) : node :=
  match map_at g (lit "rules") with Some _ => g | None => append_to [scalar (lit "rules"); seq []] g end.
Lemma with_rules_spec g : group_ok (lit "rules") g → group_ok (lit "rules") (with_rules g) ∧
  mapGet (with_rules g) (lit "listener") = mapGet g (lit "listener") ∧
  ∃ k rs, list_at (with_rules g) (lit "rules") = Some (k, rs) ∧ n_Content rs = seq_items g (lit "rules").
Proof.
  intros [He Hk]. unfold with_rules. destruct (map_at g (lit "rules")) as [k|] eqn:Ek.
  - destruct (mapGet_at _ _ _ Ek) as (rs & _ & Hg). split_and!; [done..|]. exists k, rs. split; [by apply list_at_spec; split_and!; [| |apply Hk]|].
    by rewrite (seq_items_get _ _ _ Hg), bool_decide_true by (by apply Hk).
  - assert (mapGet g (n_Value (scalar (lit "rules"))) = None) as Hn by (by apply mapGet_none).
    destruct (mapGet_append _ _ (seq []) He Hn) as [H1 H2]. change (n_Value (scalar (lit "rules"))) with (lit "rules") in H1, H2.
    split_and!; [split; [by apply evenly_append|]|by rewrite mapGet_append_ne|].
    + intros w. rewrite H2. by intros [= <-].
    + exists (S (length (n_Content g))), (seq []). split; [by apply list_at_spec|]. unfold seq_items, list_at. by rewrite Ek.
Qed.

Lemma change_id p f n m : sub p n = Some m → f m = m → change p f n = n.
Proof.
  revert n. induction p as [|i p IH]; intros n; [by intros [= <-]|]. destruct n as [k t v l c]. unfold change; fold change. cbn. intros Hs Hf. f_equal.
  rewrite <- (list_alter_id id c i) at 2 by done. apply list_alter_ext; [|done]. intros x Hx. rewrite Hx in Hs. by apply IH.
Qed.
Lemma change_ext p f f' n m : sub p n = Some m → f m = f' m → change p f n = change p f' n.
Proof.
  revert n. induction p as [|i p IH]; intros n; [by intros [= <-]|]. destruct n as [k t v l c]. unfold change; fold change. cbn. intros Hs Hf. f_equal.
  apply list_alter_ext; [|done]. intros x Hx. rewrite Hx in Hs. by apply IH.
Qed.

(** [groupFor]: no rule is touched, and the listener's item is there, with a list. *)
Lemma groupFor_spec root listener : routes_tidy root → ∃ root1 i j v g k rs, groupFor root listener = (root1, [i; j]) ∧
  routes_tidy root1 ∧ (∀ k, k ≠ lit "routes" → mapGet root1 k = mapGet root k) ∧ file_rules root1 = file_rules root ∧
  list_at root1 (lit "routes") = Some (i, v) ∧ n_Content v !! j = Some g ∧ list_at g (lit "rules") = Some (k, rs) ∧
  n_Value <$> mapGet g (lit "listener") = Some listener.
Proof.
  intros [He Hok]. unfold groupFor. destruct (section root (lit "routes")) as [root1 i] eqn:Es.
  destruct (section_spec _ _ _ _ He Es) as ((v & Hv & Hc) & Ho1 & He1 & _).
  pose proof (proj1 (list_at_spec _ _ _ _) Hv) as (Hi & Hm & Hk). destruct (mapGet_at _ _ _ Hi) as (v' & Hr & Hm'). rewrite Hm in Hm'. injection Hm' as <-.
  assert (file_rules root1 = file_rules root) as Hfr by (unfold file_rules, items; by rewrite (seq_items_list _ _ _ _ Hv), Hc).
  rewrite <- Hc in Hok. rewrite Hr. cbn [from_option]. destruct (find_at _ (n_Content v)) as [[j []]|] eqn:Ef.
  - (* It is there: its list of rules is added if it has none. *)
    apply find_at_some in Ef as (g & Hg & Hn). unfold named in Hn. destruct (mapGet g (lit "listener")) as [n|] eqn:El; [|done].
    destruct (bool_decide_reflect (n_Value n = listener)) as [Hn'|]; [|done].
    assert (sub [i; j] root1 = Some g) as Hsub by (cbn [sub]; by rewrite Hr, Hg).
    destruct (with_rules_spec g) as (Hg2 & Hl2 & k & rs & Hrs & Hcs); [by eapply Forall_lookup_1|].
    exists (change [i; j] with_rules root1), i, j, (change [j] with_rules v), (with_rules g), k, rs.
    destruct (group_change (lit "routes") root1 i v j g with_rules Hv Hg) as (l1 & l2 & Hs & Hj & Hs2 & Ho2 & He2).
    split_and!; [| |intros k' Hk'; by rewrite Ho2, Ho1| | | |done|by rewrite Hl2, El, <- Hn'].
    + rewrite Hsub. cbn [mbind option_bind]. f_equal. destruct (map_at g (lit "rules")) eqn:E.
      * symmetry. apply (change_id _ _ _ _ Hsub). unfold with_rules. by rewrite E.
      * apply (change_ext _ _ _ _ _ Hsub). unfold with_rules. by rewrite E.
    + split; [by apply He2|]. rewrite Hs2. rewrite (seq_items_list _ _ _ _ Hv) in Hs. rewrite Hs in Hok. apply Forall_app in Hok as [H1 [_ H2]%Forall_cons].
      apply Forall_app. split; [done|by constructor].
    + rewrite <- Hfr. unfold file_rules, items. rewrite Hs, Hs2, !bind_app, !bind_cons. do 2 f_equal. unfold rows.
      by rewrite Hl2, (seq_items_list _ _ _ _ Hrs), Hcs.
    + apply (list_at_change root1 i (change [j] with_rules) v); [done|by rewrite kind_change].
    + rewrite content_change1, list_lookup_alter_eq, Hg. done.
  - (* A new item, at the end. *)
    set (g := mapping [scalar (lit "listener"); scalar listener; scalar (lit "rules"); seq []]).
    destruct (section_change (lit "routes") root1 i v (append_to [g]) Hv) as (H1 & H2 & H3); [by destruct v|].
    exists (change [i] (append_to [g]) root1), i, (length (n_Content v)), (append_to [g] v), g, 3%nat, (seq []).
    split_and!; try done.
    + split; [by apply H3|]. rewrite H1, content_append. apply Forall_app. split; [done|]. constructor; [|done].
      split; [by exists 2%nat|]. intros w. cbn. by intros [= <-].
    + intros k' Hk'. by rewrite H2, Ho1.
    + rewrite <- Hfr. unfold file_rules, items. rewrite H1, content_append, bind_app, (seq_items_list _ _ _ _ Hv). cbn. by rewrite app_nil_r.
    + apply (list_at_change root1 i (append_to [g]) v); [done|by destruct v].
    + rewrite content_append, lookup_app_r, Nat.sub_diag by lia. done.
Qed.

(** A rule is added among those of its listener, where nobody else is. *)
Lemma add_rule_spec root listener rule : routes_tidy root → ∃ root' l1 l2, add_rule root listener rule = Ok root' ∧
  file_rules root = l1 ++ l2 ∧ file_rules root' = l1 ++ (Some listener, rule) :: l2 ∧
  (∀ k, k ≠ lit "routes" → mapGet root' k = mapGet root k) ∧ routes_tidy root'.
Proof.
  intros Hok. destruct (groupFor_spec root listener Hok) as (root1 & i & j & v & g & k & rs & Hg & Hok1 & Ho & Hfr & Hv & Hgj & Hrs & Hn).
  unfold add_rule. rewrite Hg. destruct (proj1 (list_at_spec _ _ _ _) Hv) as (Hi & Hm & _). destruct (mapGet_at _ _ _ Hi) as (v' & Hr & Hm'). rewrite Hm in Hm'. injection Hm' as <-.
  assert (sub [i; j] root1 = Some g) as -> by (cbn [sub]; by rewrite Hr, Hgj). cbn [mbind option_bind].
  destruct (proj1 (list_at_spec _ _ _ _) Hrs) as (-> & _ & Hk). rewrite <- Hfr.
  destruct (list_change (lit "routes") (lit "listener") (lit "rules") ltac:(done) root1 (mkPlace i j k 0) v g rs Hv Hgj Hrs) as (a & b & H1 & H2).
  destruct (H2 (append_to [rule])) as (H3 & H4 & H5); [by destruct rs|]. rewrite Hn in H1, H3.
  exists (change [i; j; k] (append_to [rule]) root1), (a ++ (pair (Some listener) <$> n_Content rs)), b. split_and!.
  - done.
  - unfold file_rules. by rewrite H1, app_assoc.
  - unfold file_rules. change [i; j; k] with (list_path (mkPlace i j k 0)). rewrite H3, content_append, fmap_app, <- !app_assoc. done.
  - intros k' Hk'. change [i; j; k] with (list_path (mkPlace i j k 0)). by rewrite H4, Ho.
  - change [i; j; k] with (list_path (mkPlace i j k 0)). by apply H5.
Qed.

(** A rule out of the file: the others stay. *)
Definition without_rule (p : place) (root : node) : node :=
  dropEmptyGroup (change (list_path p) (delete_from (pl_item p)) root) (pl_section p) (pl_group p).

Lemma without_rule_spec root p g rs r : placed (lit "routes") (lit "rules") root p g rs r → ∃ l1 l2,
  file_rules root = l1 ++ (n_Value <$> mapGet g (lit "listener"), r) :: l2 ∧
  (∀ f, file_rules (change (item_path p) f root) = l1 ++ (n_Value <$> mapGet g (lit "listener"), f r) :: l2 ∧
    (∀ k, k ≠ lit "routes" → mapGet (change (item_path p) f root) k = mapGet root k) ∧ (routes_tidy root → routes_tidy (change (item_path p) f root))) ∧
  file_rules (without_rule p root) = l1 ++ l2 ∧
  (∀ k, k ≠ lit "routes" → mapGet (without_rule p root) k = mapGet root k) ∧ (routes_tidy root → routes_tidy (without_rule p root)).
Proof.
  intros Hp. destruct (item_change (lit "routes") (lit "listener") (lit "rules") root p g rs r ltac:(done) Hp) as (l1 & l2 & H1 & H2 & H3 & H4 & H5).
  exists l1, l2. split_and!; [done|done|..]; destruct Hp as (v & Hv & Hg & Hrs & Hr);
    pose proof (proj1 (list_at_spec _ _ _ _) Hrs) as (_ & _ & Hk).
  all: set (root' := change (list_path p) (delete_from (pl_item p)) root) in *.
  all: assert (list_at root' (lit "routes") = Some (pl_section p, change [pl_group p; pl_list p] (delete_from (pl_item p)) v)) as Hv'
    by (apply (list_at_change root _ (change [pl_group p; pl_list p] (delete_from (pl_item p))) v); [done|rewrite kind_change; by apply list_at_spec in Hv as (_ & _ & ?)]).
  all: assert (n_Content (change [pl_group p; pl_list p] (delete_from (pl_item p)) v) !! pl_group p = Some (change [pl_list p] (delete_from (pl_item p)) g)) as Hg'
    by (change (change [pl_group p; pl_list p] ?f v) with (change [pl_group p] (change [pl_list p] f) v); by rewrite content_change1, list_lookup_alter_eq, Hg).
  all: destruct (dropEmptyGroup_spec (lit "listener") root' _ _ _ _ Hv' Hg') as (D1 & D2 & D3).
  all: change (without_rule p root) with (dropEmptyGroup root' (pl_section p) (pl_group p)).
  - unfold file_rules. by rewrite D1.
  - intros k Hk'. by rewrite D2, H4.
  - intros Hok. by apply D3, H5.
Qed.

(** A rule changed, then taken out, is taken out. *)
Lemma without_changed p f root : without_rule p (change (item_path p) f root) = without_rule p root.
Proof.
  unfold without_rule. f_equal. change (item_path p) with (list_path p ++ [pl_item p]). rewrite change_app.
  pose proof (change_change (list_path p) [] (delete_from (pl_item p)) (change [pl_item p] f) root) as H. rewrite app_nil_r in H. rewrite H.
  clear H. generalize (list_path p). intros q. revert root. induction q as [|i q IH]; intros n; unfold change; fold change.
  - destruct n as [k t v l c]. cbn. f_equal. generalize (pl_item p). intros i. revert i. induction c as [|m c IHc]; intros [|i]; cbn; try done. f_equal. apply IHc.
  - f_equal. apply list_alter_ext; [|done]. intros m _. apply IH.
Qed.

Section EditFacts.
Context (root : node) (values : gmap bytes jvalue).

Definition given_listener : bytes := match values !! lit "listener" with Some (JStr s) => s | _ => [] end.
Definition rule_values : gmap bytes jvalue := delete (lit "listener") values.

(** What an edit of the rule at [line] makes of the file's rules. *)
Definition rule_edited (line : Z) (del : bool) (root' : node) (written : option node) : Prop :=
  if (line =? 0) && negb del then
    ∃ rule l1 l2, written = Some rule ∧ written_by ruleKeys rule_values (mapping []) rule ∧ given_listener ≠ [] ∧
      file_rules root = l1 ++ l2 ∧ file_rules root' = l1 ++ (Some given_listener, rule) :: l2
  else
    ∃ L r l1 l2, n_Line r = line ∧ n_Kind r = MappingNode ∧ file_rules root = l1 ++ (L, r) :: l2 ∧
      if del then written = None ∧ file_rules root' = l1 ++ l2
      else ∃ rule, written = Some rule ∧ written_by ruleKeys rule_values r rule ∧
        ((given_listener = [] ∨ L = Some given_listener) ∧ file_rules root' = l1 ++ (L, rule) :: l2 ∨
         given_listener ≠ [] ∧ L ≠ Some given_listener ∧ ∃ l3 l4, l1 ++ l2 = l3 ++ l4 ∧ file_rules root' = l3 ++ (Some given_listener, rule) :: l4).

Lemma edit_rule_spec line del : routes_tidy root →
  match edit_rule root line values del with
  | Ok (root', written) => rule_edited line del root' written ∧ (∀ k, k ≠ lit "routes" → mapGet root' k = mapGet root k) ∧ routes_tidy root'
  | Err e => line = 0 ∧ del = false ∧ given_listener = [] ∨ ruleAt root line = None ∨ ∃ r, set_mapping r ruleKeys rule_values = Err e
  end.
Proof.
  intros Hok. unfold edit_rule, rule_edited. fold given_listener rule_values. destruct ((line =? 0) && negb del) eqn:El.
  - apply andb_true_iff in El as [->%Z.eqb_eq Hd]. destruct del; [done|].
    destruct (bool_decide_reflect (given_listener = [])) as [|Hl]; cbn [negb]; [by left|].
    destruct (set_mapping _ _ _) as [rule|e] eqn:Er; [|by right; right; exists (mapping [])].
    destruct (add_rule_spec root given_listener rule Hok) as (root' & l1 & l2 & -> & H1 & H2 & H3 & H4). split; [|done].
    exists rule, l1, l2. split_and!; auto with go.
  - destruct (ruleAt root line) as [p|] eqn:Ep; [|by right; left]. fold (without_rule p root).
    destruct (ruleAt_placed _ _ _ Ep) as (g & rs & r & Hp & Hline & Hk).
    destruct (without_rule_spec _ _ _ _ _ Hp) as (l1 & l2 & H1 & H2 & H3 & H4 & H5). set (L := n_Value <$> mapGet g (lit "listener")) in *.
    destruct del.
    { split; [|by split; [|apply H5]]. by exists L, r, l1, l2. }
    destruct (placed_sub _ _ _ _ _ _ _ Hp) as (Hsg & _ & Hsr). rewrite Hsg, Hsr. destruct (set_mapping r ruleKeys rule_values) as [rule|e] eqn:Er; [|by right; right; exists r].
    destruct (H2 (fun _ => rule)) as (C1 & C2 & C3). fold (without_rule p (change (item_path p) (fun _ => rule) root)). rewrite without_changed. fold L.
    destruct (bool_decide_reflect (given_listener = [])) as [Hl|Hl]; cbn [negb andb].
    + split; [|by split; [|apply C3]]. exists L, r, l1, l2. split_and!; try done. exists rule. split_and!; [done|auto with go|]. left. split; [by left|done].
    + destruct (bool_decide_reflect (L = Some given_listener)) as [HL|HL]; cbn [negb].
      * split; [|by split; [|apply C3]]. exists L, r, l1, l2. split_and!; try done. exists rule. split_and!; [done|auto with go|]. left. split; [by right|done].
      * destruct (add_rule_spec (without_rule p root) given_listener rule (H5 Hok)) as (root' & l3 & l4 & -> & A1 & A2 & A3 & A4).
        split; [|by split; [intros k Hk'; rewrite A3, H4|]]. exists L, r, l1, l2. split_and!; try done. exists rule. split_and!; [done|auto with go|].
        right. split_and!; [done..|]. exists l3, l4. by rewrite <- H3.
Qed.
End EditFacts.

(** * The listeners of the file *)

Definition file_listeners (root : node) : list node := seq_items root (lit "listeners").

(** The items of a name renamed. *)
Definition renamed (old new : bytes) (e : option bytes * node) : option bytes * node :=
  if bool_decide (e.1 = Some old) then (Some new, e.2) else e.

Lemma rename_rows nk lk old new g : nk ≠ lk → rows nk lk (rename_in nk old new g) = renamed old new <$> rows nk lk g.
Proof.
  intros Hne. unfold rename_in. destruct (map_at g nk) as [i|] eqn:Ei.
  - destruct (mapGet_at _ _ _ Ei) as (n & _ & Hg). unfold rows. rewrite (mapGet_change _ _ _ _ Ei), Hg. cbn [fmap option_fmap option_map].
    rewrite (seq_items_same g) by (by apply (mapGet_change_ne _ _ _ nk)). rewrite <- list_fmap_compose. apply list_fmap_ext. intros _ r _. cbn. unfold renamed. cbn.
    destruct (bool_decide_reflect (n_Value n = old)) as [He|He]; [rewrite bool_decide_true by congruence; by destruct n|by rewrite bool_decide_false by congruence].
  - unfold rows. rewrite (proj2 (mapGet_none g nk) Ei). rewrite <- list_fmap_compose. apply list_fmap_ext. intros _ r _. done.
Qed.

Lemma rename_items sec nk lk old new root k : nk ≠ lk → map_at root sec = Some k →
  items sec nk lk (change [k] (on_content (rename_in nk old new)) root) = renamed old new <$> items sec nk lk root.
Proof.
  intros Hne Hk. destruct (mapGet_at _ _ _ Hk) as (v & _ & Hg). unfold items.
  rewrite (seq_items_get _ _ _ Hg), (seq_items_get (change _ _ _) sec (on_content (rename_in nk old new) v)) by (by rewrite (mapGet_change _ _ _ _ Hk), Hg).
  replace (n_Kind (on_content _ v)) with (n_Kind v) by (by destruct v). case_bool_decide; [|done].
  replace (n_Content (on_content _ v)) with (rename_in nk old new <$> n_Content v) by (by destruct v).
  induction (n_Content v) as [|g l IH]; [done|]. rewrite fmap_cons, !bind_cons, fmap_app, IH. by rewrite rename_rows.
Qed.

Lemma listenerAt_spec root line i j : listenerAt root line = Some (i, j) →
  ∃ v l l1 l2, list_at root (lit "listeners") = Some (i, v) ∧ n_Content v = l1 ++ l :: l2 ∧ j = length l1 ∧ n_Line l = line ∧ n_Kind l = MappingNode.
Proof.
  unfold listenerAt. destruct (list_at root _) as [[i' v]|] eqn:Hv; [|done]. intros ([j' []] & Hf & [= -> ->])%fmap_Some.
  apply find_at_some in Hf as (l & Hl & Hs). destruct (list_elem_of_split_length _ _ _ Hl) as (l1 & l2 & Hc & ->).
  unfold starts_on in Hs. destruct (bool_decide_reflect (n_Line l = line)); [|done]. destruct (bool_decide_reflect (n_Kind l = MappingNode)); [|done].
  by exists v, l, l1, l2.
Qed.

Section ListenerFacts.
Context (root : node) (values : gmap bytes jvalue).

Definition given_name : bytes := match values !! lit "name" with Some (JStr s) => s | _ => [] end.
Definition renames (l : node) : bool :=
  negb (bool_decide (given_name = [])) && negb (bool_decide (given_name = from_option n_Value [] (mapGet l (lit "name")))) &&
  negb (bool_decide (from_option n_Value [] (mapGet l (lit "name")) = [])).

(** What an edit of the listener at [line] makes of the file's listeners and
    rules. *)
Definition listener_edited (line : Z) (del : bool) (root' : node) (written : option node) : Prop :=
  if line =? 0 then
    ∃ l, written = Some l ∧ written_by listenerKeys values (mapping []) l ∧
      file_listeners root' = file_listeners root ++ [l] ∧ file_rules root' = file_rules root
  else
    ∃ l l1 l2, n_Line l = line ∧ n_Kind l = MappingNode ∧ file_listeners root = l1 ++ l :: l2 ∧
      if del then written = None ∧ file_listeners root' = l1 ++ l2 ∧ file_rules root' = file_rules root
      else ∃ l', written = Some l' ∧ written_by listenerKeys values l l' ∧ file_listeners root' = l1 ++ l' :: l2 ∧
        file_rules root' = (if renames l then renamed (from_option n_Value [] (mapGet l (lit "name"))) given_name <$> file_rules root else file_rules root).

Lemma file_rules_same root' : mapGet root' (lit "routes") = mapGet root (lit "routes") → file_rules root' = file_rules root.
Proof. intros H. unfold file_rules, items. by rewrite (seq_items_same root). Qed.

Lemma edit_listener_spec line del : evenly root →
  match edit_listener root line values del with
  | Ok (root', written) => listener_edited line del root' written ∧ (∀ k, k ≠ lit "listeners" → k ≠ lit "routes" → mapGet root' k = mapGet root k)
  | Err e => line ≠ 0 ∧ listenerAt root line = None ∨ ∃ l, set_mapping l listenerKeys values = Err e
  end.
Proof.
  intros He. unfold edit_listener, listener_edited. destruct (Z.eqb_spec line 0) as [Hz|Hz].
  - destruct (set_mapping _ _ _) as [l|e] eqn:El; [|by right; exists (mapping [])]. destruct (section root (lit "listeners")) as [root1 i] eqn:Es.
    destruct (section_spec _ _ _ _ He Es) as ((v & Hv & Hc) & Ho & _). destruct (section_change _ root1 i v (append_to [l]) Hv) as (H1 & H2 & _); [by destruct v; apply list_at_spec in Hv as (_ & _ & ?)|].
    split; [|intros k Hk1 Hk2; by rewrite H2, Ho]. exists l. split_and!; auto with go; [unfold file_listeners; by rewrite H1, content_append, Hc|].
    apply file_rules_same. by rewrite H2, Ho.
  - destruct (listenerAt root line) as [[i j]|] eqn:Ea; [|by left]. destruct (listenerAt_spec _ _ _ _ Ea) as (v & l & l1 & l2 & Hv & Hc & -> & Hl & Hk).
    pose proof (proj1 (list_at_spec _ _ _ _) Hv) as (Hi & Hm & Hkv). assert (file_listeners root = l1 ++ l :: l2) as Hfl by (unfold file_listeners; by rewrite (seq_items_list _ _ _ _ Hv)).
    destruct del.
    + destruct (section_change _ root i v (delete_from (length l1)) Hv) as (H1 & H2 & _); [by destruct v|]. split; [|intros k Hk1 Hk2; by rewrite H2].
      exists l, l1, l2. split_and!; try done; [|by apply file_rules_same; rewrite H2].
      unfold file_listeners. rewrite H1. destruct v; cbn in *. subst. by rewrite delete_middle.
    + destruct (mapGet_at _ _ _ Hi) as (v' & Hr & Hm'). rewrite Hm in Hm'. injection Hm' as <-. 
      assert (n_Content v !! length l1 = Some l) as Hj by (by rewrite Hc, list_lookup_middle).
      assert (sub [i; length l1] root = Some l) as -> by (cbn [sub]; by rewrite Hr, Hj).
      destruct (set_mapping l listenerKeys values) as [l'|e] eqn:El; [|by right; exists l].
      destruct (group_change _ root i v (length l1) l (fun _ => l') Hv Hj) as (m1 & m2 & Hs & Hlen & Hs2 & Ho & _).
      rewrite (seq_items_list _ _ _ _ Hv), Hc in Hs. apply app_inj_1 in Hs as [<- [= <-]]; [|done]. fold given_name. fold (renames l).
      set (root1 := change [i; length l1] (fun _ => l') root) in *. assert (file_rules root1 = file_rules root) as Hfr by (apply file_rules_same; by rewrite Ho).
      destruct (renames l) eqn:Ern.
      * destruct (map_at root1 (lit "routes")) as [k|] eqn:Ek.
        -- split; [|intros k' Hk1 Hk2; by rewrite (mapGet_change_ne _ _ _ (lit "routes")), Ho]. exists l, l1, l2. split_and!; try done. exists l'. split_and!; auto with go.
           ++ unfold file_listeners. rewrite <- Hs2. apply seq_items_same. by apply (mapGet_change_ne _ _ _ (lit "routes")).
           ++ rewrite Ern, <- Hfr. by apply rename_items.
        -- split; [|intros k' Hk1 Hk2; by rewrite Ho]. exists l, l1, l2. split_and!; try done. exists l'. split_and!; auto with go.
           rewrite Ern, <- Hfr. unfold file_rules, items, seq_items, list_at. by rewrite Ek.
      * split; [|intros k' Hk1 Hk2; by rewrite Ho]. exists l, l1, l2. split_and!; try done. exists l'. rewrite Ern. split_and!; auto with go.
Qed.
End ListenerFacts.

(** * The basic_auth groups of the file *)

Definition file_groups (root : node) : list node := seq_items root (lit "basic_auth").
Definition group_users (g : node) : list node := seq_items g (lit "users").
Definition called (key name : bytes) (n : node) : Prop := n_Value <$> mapGet n key = Some name.
Definition auth_tidy (root : node) : Prop :=
  tidy (lit "basic_auth") (lit "users") root ∧ Forall (fun g => Forall keyed (group_users g)) (file_groups root).

Lemma named_some key name n : named key name n = Some tt ↔ called key name n.
Proof.
  unfold named, called. destruct (mapGet n key) as [v|]; [|done]. cbn. destruct (bool_decide_reflect (n_Value v = name)) as [->|Hn]; [done|].
  split; [done|]. intros [= ?]. done.
Qed.
Lemma find_named key name l : match find_at (named key name) l with
  | Some (i, _) => ∃ l1 n l2, l = l1 ++ n :: l2 ∧ i = length l1 ∧ called key name n
  | None => Forall (fun n => ¬ called key name n) l
  end.
Proof.
  destruct (find_at _ l) as [[i []]|] eqn:E.
  - apply find_at_some in E as (n & Hn & Hc%named_some). destruct (list_elem_of_split_length _ _ _ Hn) as (l1 & l2 & -> & ->). by exists l1, n, l2.
  - apply Forall_forall. intros n Hn Hc%named_some. by rewrite (find_at_none _ _ E n Hn) in Hc.
Qed.

Lemma authGroup_spec root name : match authGroup root name with
  | Some (i, j) => ∃ v g l1 l2, list_at root (lit "basic_auth") = Some (i, v) ∧ file_groups root = l1 ++ g :: l2 ∧ n_Content v = l1 ++ g :: l2 ∧ j = length l1 ∧ called (lit "name") name g
  | None => Forall (fun g => ¬ called (lit "name") name g) (file_groups root)
  end.
Proof.
  unfold authGroup, file_groups, seq_items. destruct (list_at root _) as [[i v]|] eqn:Hv; [|constructor]. cbn [fmap option_fmap option_map snd contents].
  pose proof (find_named (lit "name") name (n_Content v)) as H. destruct (find_at _ _) as [[j []]|]; [|done].
  destruct H as (l1 & g & l2 & Hc & -> & Hn). by exists v, g, l1, l2.
Qed.

(** [authUsers]: the list of users is there; the rest is as it was. *)
Lemma authUsers_spec g : group_ok (lit "users") g → ∃ g' k us, authUsers g = (g', k) ∧ list_at g' (lit "users") = Some (k, us) ∧
  n_Content us = group_users g ∧ group_ok (lit "users") g' ∧ ∀ key, key ≠ lit "users" → mapGet g' key = mapGet g key.
Proof.
  intros [He Hk]. unfold authUsers. destruct (list_at g (lit "users")) as [[i us]|] eqn:El.
  - exists g, i, us. split_and!; try done. symmetry. by apply seq_items_list with (i := i).
  - assert (mapGet g (n_Value (scalar (lit "users"))) = None) as Hn.
    { change (n_Value (scalar (lit "users"))) with (lit "users"). destruct (mapGet g (lit "users")) as [v|] eqn:E; [|done]. pose proof (Hk v eq_refl).
      destruct (map_at g (lit "users")) as [i|] eqn:Ei; [|by apply mapGet_none in Ei; rewrite Ei in E]. by rewrite (proj2 (list_at_spec g (lit "users") i v)) in El. }
    destruct (mapGet_append _ _ (seq []) He Hn) as [H1 H2]. change (n_Value (scalar (lit "users"))) with (lit "users") in H1, H2.
    eexists _, _, (seq []). split_and!; [done|by apply list_at_spec|unfold group_users, seq_items; by rewrite El| |].
    + split; [by apply evenly_append|]. intros v. rewrite H2. by intros [= <-].
    + intros key Hkey. apply mapGet_append_ne; [done|]. by intros <-.
Qed.

Lemma findUser_spec g user : group_ok (lit "users") g → ∃ g' k us o, findUser g user = (g', k, o) ∧ list_at g' (lit "users") = Some (k, us) ∧
  n_Content us = group_users g ∧ group_ok (lit "users") g' ∧ (∀ key, key ≠ lit "users" → mapGet g' key = mapGet g key) ∧
  match o with
  | Some i => ∃ m1 u m2, group_users g = m1 ++ u :: m2 ∧ i = length m1 ∧ called (lit "username") user u
  | None => Forall (fun u => ¬ called (lit "username") user u) (group_users g)
  end.
Proof.
  intros Hok. destruct (authUsers_spec g Hok) as (g' & k & us & Ha & Hl & Hc & Hok' & Ho). unfold findUser. rewrite Ha.
  pose proof (proj1 (list_at_spec _ _ _ _) Hl) as (Hk & Hm & _). destruct (mapGet_at _ _ _ Hk) as (us' & Hr & Hm'). rewrite Hm in Hm'. injection Hm' as <-.
  rewrite Hr. cbn [from_option]. rewrite Hc. pose proof (find_named (lit "username") user (group_users g)) as H.
  exists g', k, us. destruct (find_at _ _) as [[i []]|]; [exists (Some i)|exists None]; by split_and!.
Qed.

(** A user's key set or removed: that key only. *)
Lemma setUserKey_spec key value u ps : n_Content u = flat ps → NoDup (key_texts ps) → ∃ ps', n_Content (setUserKey key value u) = flat ps' ∧
  NoDup (key_texts ps') ∧ n_Value <$> value_of ps' key = (if bool_decide (value = []) then None else Some value) ∧ others [key] ps' = others [key] ps.
Proof.
  intros Hc Hnd. unfold setUserKey, map_at. rewrite Hc. destruct (value_at_flat ps key) as [[-> Hn]|(l1 & e & l2 & -> & Hk & Hn & ->)].
  - case_bool_decide as Hv.
    + exists ps. split_and!; try done. by rewrite value_of_none.
    + exists (ps ++ [(scalar key, word value)]). split_and!.
      * rewrite content_append, Hc, flat_app. done.
      * rewrite key_texts_app. apply NoDup_app. split_and!; [done| |by apply NoDup_singleton]. by intros x Hx ->%list_elem_of_singleton.
      * rewrite value_of_app by done. unfold value_of. cbn [find fst]. by rewrite bool_decide_true.
      * unfold others. rewrite filter_app, filter_cons_False; [by rewrite app_nil_r|]. cbn. set_solver.
  - rewrite key_texts_app in Hnd. apply NoDup_app in Hnd as (Hnd1 & Hd & Hnd2). change (key_texts (e :: l2)) with (n_Value e.1 :: key_texts l2) in *. rewrite Hk in *.
    apply NoDup_cons in Hnd2 as [Hn2 Hnd2].
    assert (others [key] (l1 ++ e :: l2) = others [key] l1 ++ others [key] l2) as Hoth by (unfold others; rewrite filter_app, filter_cons_False; [done|]; rewrite Hk; set_solver).
    case_bool_decide as Hv.
    + exists (l1 ++ l2). split_and!.
      * rewrite content_with.
        rewrite !flat_app. change (flat (e :: l2)) with ([e.1; e.2] ++ flat l2). replace (S _ - 1)%nat with (length (flat l1)) by lia. rewrite take_app_length.
        replace (S (length (flat l1)) + 1)%nat with (length (flat l1) + 2)%nat by lia. by rewrite <- drop_drop, drop_app_length.
      * rewrite key_texts_app. apply NoDup_app. split_and!; [done| |done]. intros x Hx Hx2. apply (Hd x Hx). by right.
      * rewrite value_of_none; [done|]. rewrite key_texts_app. by apply not_elem_of_app.
      * rewrite Hoth. unfold others. by rewrite filter_app.
    + exists (l1 ++ (e.1, word value) :: l2). split_and!.
      * rewrite content_change1, Hc, !flat_app. change (flat (e :: l2)) with ([e.1] ++ e.2 :: flat l2). rewrite alter_app_r_alt by lia.
        by replace (S _ - _)%nat with 1%nat by lia.
      * rewrite key_texts_app. change (key_texts ((e.1, word value) :: l2)) with (n_Value e.1 :: key_texts l2). rewrite Hk. apply NoDup_app. split_and!; [done..|]. by constructor.
      * rewrite value_of_app by done. unfold value_of. cbn [find fst]. by rewrite bool_decide_true.
      * rewrite Hoth. unfold others. rewrite filter_app, filter_cons_False; [done|]. cbn. rewrite Hk. set_solver.
Qed.

(** ** References to items *)

Definition ref_name (key : bytes) (e : node) : list bytes := from_option (fun v => [n_Value v]) [] (mapGet e key).
Definition ref_names_in (key : bytes) (root : node) : list bytes :=
  contents (mapGet root (lit "routes")) ≫= fun g => contents (mapGet g (lit "rules")) ≫= fun r => serve_entries r ≫= ref_name key.
Definition ref_names : node → list bytes := ref_names_in (lit "basic_auth").
Definition rename_name (old new n : bytes) : bytes := if bool_decide (n = old) then new else n.

Lemma bind_nil {A B} (f : A → list B) l : l ≫= f = [] ↔ Forall (fun x => f x = []) l.
Proof.
  induction l as [|x l IH]; [done|]. rewrite bind_cons, Forall_cons, <- IH. split; [by intros [? ?]%app_nil|by intros [-> ->]].
Qed.
Lemma refs_none key root group : refs_in key root group = [] ↔ (group ∉ ref_names_in key root).
Proof.
  unfold refs_in, ref_names_in. assert (∀ {A} (f : A → list node) (h : A → list bytes) l, (∀ x, f x = [] ↔ (group ∉ h x)) → l ≫= f = [] ↔ (group ∉ l ≫= h)) as H.
  { intros A f h l Hx. rewrite bind_nil, Forall_forall. split.
    - intros Hl (x & Hin & Hl')%list_elem_of_bind. by apply (proj1 (Hx x) (Hl x Hl')).
    - intros Hn x Hl. apply Hx. intros Hin. apply Hn, list_elem_of_bind. by exists x. }
  apply H. intros g. apply H. intros r. apply H. intros e. unfold refs_of, ref_name. destruct (mapGet e key) as [v|]; cbn [from_option]; [|set_solver].
  case_bool_decide; set_solver.
Qed.

Lemma on_key_get k f m : mapGet (on_key k f m) k = f <$> mapGet m k.
Proof. unfold on_key. destruct (map_at m k) as [i|] eqn:E; [by apply mapGet_change|]. by rewrite (proj2 (mapGet_none m k) E). Qed.
Lemma on_key_other k f m k' : k ≠ k' → mapGet (on_key k f m) k' = mapGet m k'.
Proof. intros Hn. unfold on_key. destruct (map_at m k) as [i|] eqn:E; [by apply (mapGet_change_ne _ _ _ k)|done]. Qed.
Lemma contents_on_key k f m : contents (mapGet (on_key k (on_content f) m) k) = f <$> contents (mapGet m k).
Proof. rewrite on_key_get. destruct (mapGet m k) as [v|]; [by destruct v|done]. Qed.
Lemma contents_on_list k f m : seq_items (on_list k (on_content f) m) k = f <$> seq_items m k.
Proof.
  unfold on_list. destruct (list_at m k) as [[i v]|] eqn:E; [|unfold seq_items; by rewrite E].
  rewrite (seq_items_list _ _ _ _ E), (seq_items_list _ _ i (on_content f v)); [by destruct v|]. apply list_at_change; [done|].
  apply list_at_spec in E as (_ & _ & ?). by destruct v.
Qed.
Lemma rename_in_name k old new e : n_Value <$> mapGet (rename_in k old new e) k = rename_name old new <$> (n_Value <$> mapGet e k).
Proof.
  change (rename_in k old new e) with (on_key k (fun n => if bool_decide (n_Value n = old) then with_value n new else n) e). rewrite on_key_get.
  destruct (mapGet e k) as [n|]; [|done]. cbn. unfold rename_name. case_bool_decide; [by destruct n|done].
Qed.
Lemma fmap_bind_eq {A B} (f : A → A) (h : A → list B) (r : B → B) l : (∀ x, h (f x) = r <$> h x) → (f <$> l) ≫= h = r <$> (l ≫= h).
Proof. intros Hf. induction l as [|x l IH]; [done|]. by rewrite fmap_cons, !bind_cons, fmap_app, IH, Hf. Qed.

Lemma rename_refs_names key old new root : ref_names_in key (rename_refs_in key old new root) = rename_name old new <$> ref_names_in key root.
Proof.
  unfold ref_names_in, rename_refs_in. rewrite contents_on_key. apply fmap_bind_eq. intros g. rewrite contents_on_key. apply fmap_bind_eq. intros r.
  change (serve_entries ?x) with (seq_items x (lit "serve")). rewrite contents_on_list. apply fmap_bind_eq. intros e. unfold ref_name.
  pose proof (rename_in_name key old new e) as H. destruct (mapGet (rename_in _ _ _ _) _), (mapGet e _); try done. cbn in H |- *. by injection H as ->.
Qed.
Lemma ref_names_same key root root' : mapGet root' (lit "routes") = mapGet root (lit "routes") → ref_names_in key root' = ref_names_in key root.
Proof. unfold ref_names_in. by intros ->. Qed.

(** ** What an edit leaves *)

Section AuthFacts.
Context (parse_date parse_rfc3339 : bytes → option Z) (hash : bytes → res err bytes) (root : node) (e : authEdit).

(** The password's hash. *)
Definition hashed (h : bytes) : Prop := ae_Password e ≠ [] ∧ hash (ae_Password e) = Ok h.

(** A user's keys [ks] say what they are given, the others are as they were. *)
Definition user_set (ks : list (bytes * bytes)) (u u' : node) : Prop := ∃ ps ps',
  n_Content u = flat ps ∧ n_Content u' = flat ps' ∧ NoDup (key_texts ps') ∧ others ks.*1 ps' = others ks.*1 ps ∧
  Forall (fun kv => n_Value <$> value_of ps' kv.1 = (if bool_decide (kv.2 = []) then None else Some kv.2)) ks.

Definition user_edited (u u' : node) : Prop :=
  match ae_Op e with
  | set_password => ∃ h, hashed h ∧ user_set [(lit "password_plain", []); (lit "password_hash", h)] u u'
  | set_disabled => user_set [(lit "disabled", if ae_Disabled e then lit "true" else [])] u u'
  | set_expiry => (trim_space (ae_Expires e) = [] ∨ is_ok (parseExpiry parse_date parse_rfc3339 (trim_space (ae_Expires e))) = true) ∧
                  user_set [(lit "expires", trim_space (ae_Expires e))] u u'
  | _ => False
  end.

Definition group_edited (g g' : node) : Prop :=
  mapGet g' (lit "name") = mapGet g (lit "name") ∧
  match ae_Op e with
  | add_user => Forall (fun u => ¬ called (lit "username") (ae_User e) u) (group_users g) ∧
                ∃ h, hashed h ∧ group_users g' = group_users g ++ [userNode (ae_User e) h]
  | delete_user => ∃ m1 u m2, group_users g = m1 ++ u :: m2 ∧ called (lit "username") (ae_User e) u ∧ group_users g' = m1 ++ m2 ∧ m1 ++ m2 ≠ []
  | _ => ∃ m1 u m2 u', group_users g = m1 ++ u :: m2 ∧ called (lit "username") (ae_User e) u ∧ group_users g' = m1 ++ u' :: m2 ∧ user_edited u u'
  end.

Definition groups_edited (root' : node) : Prop :=
  match ae_Op e with
  | add_group => Forall (fun g => ¬ called (lit "name") (ae_Group e) g) (file_groups root) ∧ ∃ h g, hashed h ∧
      file_groups root' = file_groups root ++ [g] ∧ called (lit "name") (ae_Group e) g ∧ group_users g = [userNode (ae_User e) h] ∧ ref_names root' = ref_names root
  | rename_group => ae_NewName e ≠ [] ∧ Forall (fun g => ¬ called (lit "name") (ae_NewName e) g) (file_groups root) ∧
      (∃ l1 g g' l2, file_groups root = l1 ++ g :: l2 ∧ called (lit "name") (ae_Group e) g ∧
        file_groups root' = l1 ++ g' :: l2 ∧ called (lit "name") (ae_NewName e) g' ∧ group_users g' = group_users g) ∧
      ref_names root' = rename_name (ae_Group e) (ae_NewName e) <$> ref_names root
  | delete_group => (ae_Group e ∉ ref_names root) ∧ (∃ l1 g l2, file_groups root = l1 ++ g :: l2 ∧ called (lit "name") (ae_Group e) g ∧ file_groups root' = l1 ++ l2) ∧
      ref_names root' = ref_names root
  | _ => (∃ l1 g g' l2, file_groups root = l1 ++ g :: l2 ∧ called (lit "name") (ae_Group e) g ∧ file_groups root' = l1 ++ g' :: l2 ∧ group_edited g g') ∧
      ref_names root' = ref_names root
  end.

(** One group replaced. *)
Lemma replace_group i v l1 g l2 g' : list_at root (lit "basic_auth") = Some (i, v) → n_Content v = l1 ++ g :: l2 →
  file_groups (change [i; length l1] (fun _ => g') root) = l1 ++ g' :: l2 ∧ ref_names (change [i; length l1] (fun _ => g') root) = ref_names root ∧
  (∀ k, k ≠ lit "basic_auth" → mapGet (change [i; length l1] (fun _ => g') root) k = mapGet root k).
Proof.
  intros Hv Hc. assert (n_Content v !! length l1 = Some g) as Hg by (by rewrite Hc, list_lookup_middle).
  destruct (group_change _ root i v _ g (fun _ => g') Hv Hg) as (m1 & m2 & Hs & Hl & Hs2 & Ho & _).
  rewrite (seq_items_list _ _ _ _ Hv), Hc in Hs. apply app_inj_1 in Hs as [<- [= <-]]; [|done]. split_and!; [done|by apply ref_names_same, Ho|done].
Qed.

Lemma group_here i v l1 g l2 : list_at root (lit "basic_auth") = Some (i, v) → n_Content v = l1 ++ g :: l2 → sub [i; length l1] root = Some g.
Proof.
  intros (Hi & Hm & _)%list_at_spec Hc. destruct (mapGet_at _ _ _ Hi) as (v' & Hr & Hm'). rewrite Hm in Hm'. injection Hm' as <-.
  cbn [sub]. by rewrite Hr, Hc, list_lookup_middle.
Qed.

(** [on_user]: that user of that group. *)
Lemma on_user_spec i v l1 g l2 f root' : list_at root (lit "basic_auth") = Some (i, v) → n_Content v = l1 ++ g :: l2 → group_ok (lit "users") g →
  on_user root i (length l1) g (ae_User e) f = Ok root' → ∃ g' m1 u m2 u',
    group_users g = m1 ++ u :: m2 ∧ called (lit "username") (ae_User e) u ∧ f u = Ok u' ∧
    file_groups root' = l1 ++ g' :: l2 ∧ mapGet g' (lit "name") = mapGet g (lit "name") ∧ group_users g' = m1 ++ u' :: m2 ∧
    ref_names root' = ref_names root ∧ (∀ k, k ≠ lit "basic_auth" → mapGet root' k = mapGet root k).
Proof.
  intros Hv Hc Hok. unfold on_user. destruct (findUser_spec g (ae_User e) Hok) as (g1 & k & us & o & -> & Hl & Hus & Hok1 & Ho & Hfound).
  destruct o as [j|]; [|done]. destruct Hfound as (m1 & u & m2 & Hu & -> & Hn).
  pose proof (proj1 (list_at_spec _ _ _ _) Hl) as (Hk & Hm & _). destruct (mapGet_at _ _ _ Hk) as (us' & Hr & Hm'). rewrite Hm in Hm'. injection Hm' as <-.
  assert (n_Content us !! length m1 = Some u) as Hj by (by rewrite Hus, Hu, list_lookup_middle).
  assert (sub [k; length m1] g1 = Some u) as -> by (cbn [sub]; by rewrite Hr, Hj). destruct (f u) as [u'|] eqn:Ef; [|done]. intros [= <-].
  destruct (group_change _ g1 k us _ u (fun _ => u') Hl Hj) as (p1 & p2 & Hs & Hlen & Hs2 & Ho2 & _).
  rewrite (seq_items_list _ _ _ _ Hl), Hus, Hu in Hs. apply app_inj_1 in Hs as [<- [= <-]]; [|done].
  destruct (replace_group i v l1 g l2 (change [k; length m1] (fun _ => u') g1) Hv Hc) as (R1 & R2 & R3).
  exists (change [k; length m1] (fun _ => u') g1), m1, u, m2, u'. split_and!; try done. by rewrite Ho2, Ho.
Qed.
End AuthFacts.

Section AuthTheorem.
Context (parse_date parse_rfc3339 : bytes → option Z) (hash : bytes → res err bytes) (root : node) (e : authEdit).

Lemma newHash_ok h : newHash hash (ae_Password e) = Ok h → hashed hash e h.
Proof. unfold newHash, hashed. destruct (bool_decide_reflect (ae_Password e = [])); [done|]. done. Qed.

(** An edit of one user. *)
Lemma user_edit_spec i v l1 g l2 f root' : list_at root (lit "basic_auth") = Some (i, v) → file_groups root = l1 ++ g :: l2 → n_Content v = l1 ++ g :: l2 →
  group_ok (lit "users") g → Forall keyed (group_users g) → called (lit "name") (ae_Group e) g →
  (∀ u u', keyed u → f u = Ok u' → user_edited parse_date parse_rfc3339 hash e u u') →
  ae_Op e ∈ [set_password; set_disabled; set_expiry] →
  on_user root i (length l1) g (ae_User e) f = Ok root' →
  groups_edited parse_date parse_rfc3339 hash root e root' ∧ ∀ k, k ≠ lit "basic_auth" → mapGet root' k = mapGet root k.
Proof.
  intros Hv Hfg Hc Hok Hkeyed Hn Hf Hop Hr. destruct (on_user_spec _ _ _ _ _ _ _ _ _ Hv Hc Hok Hr) as (g' & m1 & u & m2 & u' & Hu & Hun & Hfu & Hg & Hname & Hu' & Hrefs & Ho).
  split; [|done]. assert (keyed u) as Hk by (rewrite Hu in Hkeyed; by apply Forall_app in Hkeyed as [_ [? _]%Forall_cons]).
  unfold groups_edited, group_edited. pose proof (Hf u u' Hk Hfu) as Hue. rewrite !elem_of_cons in Hop.
  destruct Hop as [->|[->|[->|Hop%not_elem_of_nil]]]; [..|done]; (split; [|done]); exists l1, g, g', l2; (split_and!; try done); by exists m1, u, m2, u'.
Qed.

Lemma set_one key value u : keyed u → user_set [(key, value)] u (setUserKey key value u).
Proof.
  intros (ps & Hc & Hnd). destruct (setUserKey_spec key value u ps Hc Hnd) as (ps' & Hc' & Hnd' & Hv & Ho).
  exists ps, ps'. split_and!; try done. by constructor.
Qed.

(** Only the text of the value counts. *)
Lemma set_one_tag key f value u u' : (∀ n, n_Value (f n) = n_Value n) → user_set [(key, value)] u u' → user_set [(key, value)] u (on_key key f u').
Proof.
  intros Hf (ps & ps' & Hc & Hc' & Hnd & Ho & [Hv _]%Forall_cons). cbn [fst snd fmap list_fmap] in *.
  unfold on_key, map_at. rewrite Hc'. destruct (value_at_flat ps' key) as [[-> Hn]|(l1 & x & l2 & -> & Hk & Hn & ->)]; [exists ps, ps'; split_and!; try done; by constructor|].
  exists ps, (l1 ++ (x.1, f x.2) :: l2). split_and!; [done| |by rewrite key_texts_app in *| |].
  - rewrite content_change1, Hc', !flat_app. change (flat (x :: l2)) with ([x.1] ++ x.2 :: flat l2). rewrite alter_app_r_alt by lia. by replace (S _ - _)%nat with 1%nat by lia.
  - cbn [fmap list_fmap fst]. rewrite <- Ho. unfold others. rewrite !filter_app, !filter_cons_False; [done|cbn; rewrite Hk; set_solver..].
  - constructor; [|done]. cbn [fst snd]. rewrite <- Hv, !value_of_app by done. unfold value_of. cbn [find fst]. rewrite bool_decide_true by done. cbn. by rewrite Hf.
Qed.

Lemma set_two k1 k2 v1 v2 u : k1 ≠ k2 → keyed u → user_set [(k1, v1); (k2, v2)] u (setUserKey k2 v2 (setUserKey k1 v1 u)).
Proof.
  intros Hne (ps & Hc & Hnd). destruct (setUserKey_spec k1 v1 u ps Hc Hnd) as (ps1 & Hc1 & Hnd1 & Hv1 & Ho1).
  destruct (setUserKey_spec k2 v2 _ ps1 Hc1 Hnd1) as (ps2 & Hc2 & Hnd2 & Hv2 & Ho2). exists ps, ps2. split_and!; try done.
  - cbn [fmap list_fmap fst]. rewrite (others_more k2 _ ps1 ps2); [|set_solver|done]. by rewrite (others_more k1 _ ps ps1); [|set_solver|].
  - repeat constructor; [|done]. cbn [fst snd]. rewrite <- Hv1, <- (value_of_others [k2] ps2), Ho2, value_of_others; [done|set_solver..].
Qed.

(** The users' list of a group changed, in the group. *)
Lemma users_change g1 k us f l1 : list_at g1 (lit "users") = Some (k, us) → n_Kind (f us) = SequenceNode →
  n_Content (f us) = l1 → group_users (change [k] f g1) = l1 ∧ mapGet (change [k] f g1) (lit "name") = mapGet g1 (lit "name").
Proof. intros Hl Hk <-. destruct (section_change _ g1 k us f Hl Hk) as (H1 & H2 & _). split; [done|by apply H2]. Qed.

Lemma group_edit i v l1 g l2 g' root' : list_at root (lit "basic_auth") = Some (i, v) → file_groups root = l1 ++ g :: l2 → n_Content v = l1 ++ g :: l2 →
  called (lit "name") (ae_Group e) g → ae_Op e ∈ [add_user; delete_user] → group_edited parse_date parse_rfc3339 hash e g g' →
  root' = change [i; length l1] (fun _ => g') root →
  groups_edited parse_date parse_rfc3339 hash root e root' ∧ ∀ k, k ≠ lit "basic_auth" → mapGet root' k = mapGet root k.
Proof.
  intros Hv Hfg Hc Hn Hop Hg ->. destruct (replace_group root i v l1 g l2 g' Hv Hc) as (R1 & R2 & R3). split; [|done].
  unfold groups_edited. rewrite !elem_of_cons in Hop. destruct Hop as [Eop|[Eop|Hop%not_elem_of_nil]]; [..|done]; rewrite Eop; (split; [|done]); by exists l1, g, g', l2.
Qed.

Lemma add_group_spec h root1 i g k : evenly root → hashed hash e h → ae_Op e = add_group → Forall (fun g => ¬ called (lit "name") (ae_Group e) g) (file_groups root) →
  authUsers (mapping [scalar (lit "name"); scalar (ae_Group e)]) = (g, k) → section root (lit "basic_auth") = (root1, i) →
  let root' := change [i] (append_to [change [k] (append_to [userNode (ae_User e) h]) g]) root1 in
  groups_edited parse_date parse_rfc3339 hash root e root' ∧ ∀ k, k ≠ lit "basic_auth" → mapGet root' k = mapGet root k.
Proof.
  intros He Hh Eop Hno [= <- <-] Es root'. destruct (section_spec _ _ _ _ He Es) as ((v & Hv & Hc) & Ho & _).
  destruct (section_change _ root1 i v (append_to [mapping [scalar (lit "name"); scalar (ae_Group e); scalar (lit "users"); seq [userNode (ae_User e) h]]]) Hv) as (H1 & H2 & _); [by destruct v; apply list_at_spec in Hv as (_ & _ & ?)|].
  change (change [i] _ root1) with root' in H1. assert (∀ k, k ≠ lit "basic_auth" → mapGet root' k = mapGet root1 k) as H3 by exact H2.
  assert (∀ k, k ≠ lit "basic_auth" → mapGet root' k = mapGet root k) as Hoth by (intros k Hk; by rewrite H3, Ho).
  split; [|done]. unfold groups_edited. rewrite Eop. split; [done|]. exists h. eexists. split_and!; [done|unfold file_groups; by rewrite H1, content_append, Hc|done|done|by apply ref_names_same, Hoth].
Qed.

Lemma rename_group_spec i v l1 g l2 : list_at root (lit "basic_auth") = Some (i, v) → file_groups root = l1 ++ g :: l2 → n_Content v = l1 ++ g :: l2 →
  called (lit "name") (ae_Group e) g → ae_Op e = rename_group → ae_NewName e ≠ [] → Forall (fun g => ¬ called (lit "name") (ae_NewName e) g) (file_groups root) →
  let root' := rename_refs (ae_Group e) (ae_NewName e) (change [i; length l1] (on_key (lit "name") (fun n => with_value n (ae_NewName e))) root) in
  groups_edited parse_date parse_rfc3339 hash root e root' ∧ ∀ k, k ≠ lit "basic_auth" → k ≠ lit "routes" → mapGet root' k = mapGet root k.
Proof.
  intros Hv Hfg Hc Hn Eop Hne Hno root'. set (f := on_key (lit "name") (fun n => with_value n (ae_NewName e))) in *.
  destruct (replace_group root i v l1 g l2 (f g) Hv Hc) as (R1 & R2 & R3).
  assert (change [i; length l1] (fun _ => f g) root = change [i; length l1] f root) as Heq by (apply (change_ext _ _ _ _ g); [by apply (group_here _ _ _ _ _ l2 Hv)|done]).
  rewrite Heq in R1, R2, R3. assert (∀ k, k ≠ lit "routes" → mapGet root' k = mapGet (change [i; length l1] f root) k) as Hk by (intros k Hk; by apply on_key_other).
  split; [|intros k Hk1 Hk2; by rewrite Hk, R3]. unfold groups_edited. rewrite Eop. split_and!; [done|done| |].
  - exists l1, g, (f g), l2. split_and!; [done|done| | |].
    + unfold file_groups in *. rewrite <- R1. apply seq_items_same. by apply Hk.
    + unfold called, f. rewrite on_key_get. unfold called in Hn. destruct (mapGet g (lit "name")) as [n|]; [|done]. by destruct n.
    + unfold group_users, f. apply seq_items_same. by apply on_key_other.
  - unfold root', rename_refs. transitivity (rename_name (ae_Group e) (ae_NewName e) <$> ref_names (change [i; length l1] f root)); [apply rename_refs_names|by rewrite R2].
Qed.
Lemma add_user_spec i v l1 g l2 root' : list_at root (lit "basic_auth") = Some (i, v) → file_groups root = l1 ++ g :: l2 → n_Content v = l1 ++ g :: l2 →
  group_ok (lit "users") g → called (lit "name") (ae_Group e) g → ae_Op e = add_user →
  match findUser g (ae_User e) with
  | (_, _, Some _) => Err "the group already has such a user"%string
  | (g, _, None) =>
      let! h := newHash hash (ae_Password e) in
      let '(g, k) := authUsers g in
      Ok (change [i; length l1] (fun _ => change [k] (append_to [userNode (ae_User e) h]) g) root)
  end = Ok root' →
  groups_edited parse_date parse_rfc3339 hash root e root' ∧ ∀ k, k ≠ lit "basic_auth" → mapGet root' k = mapGet root k.
Proof.
  intros Hv Hfg Hc Hok Hn Eop. destruct (findUser_spec g (ae_User e) Hok) as (g1 & k & us & o & -> & Hl & Hus & _ & Ho & Hno). destruct o as [|]; [done|].
  destruct (newHash hash (ae_Password e)) as [h|] eqn:Eh; [|done]. apply newHash_ok in Eh.
  assert (authUsers g1 = (g1, k)) as -> by (unfold authUsers; by rewrite Hl). intros [= <-].
  destruct (users_change g1 k us (append_to [userNode (ae_User e) h]) (group_users g ++ [userNode (ae_User e) h]) Hl) as [U1 U2];
    [by destruct us; apply list_at_spec in Hl as (_ & _ & ?)|by rewrite content_append, Hus|].
  eapply (group_edit i v l1 g l2); try done; [rewrite Eop; set_solver|]. split; [by rewrite U2, Ho|]. rewrite Eop. split; [done|]. by exists h.
Qed.

Lemma delete_user_spec i v l1 g l2 root' : list_at root (lit "basic_auth") = Some (i, v) → file_groups root = l1 ++ g :: l2 → n_Content v = l1 ++ g :: l2 →
  group_ok (lit "users") g → called (lit "name") (ae_Group e) g → ae_Op e = delete_user →
  match findUser g (ae_User e) with
  | (_, _, None) => Err "there is no such user any more"%string
  | (g, k, Some u) =>
      if (length (contents (n_Content g !! k)) =? 1)%nat then Err "the group's only user: delete the group instead"%string
      else Ok (change [i; length l1] (fun _ => change [k] (delete_from u) g) root)
  end = Ok root' →
  groups_edited parse_date parse_rfc3339 hash root e root' ∧ ∀ k, k ≠ lit "basic_auth" → mapGet root' k = mapGet root k.
Proof.
  intros Hv Hfg Hc Hok Hn Eop. destruct (findUser_spec g (ae_User e) Hok) as (g1 & k & us & o & -> & Hl & Hus & _ & Ho & Hfound). destruct o as [j|]; [|done].
  destruct Hfound as (m1 & u & m2 & Hu & -> & Hun). destruct (proj1 (list_at_spec _ _ _ _) Hl) as (Hi & Hm & Hk).
  destruct (mapGet_at _ _ _ Hi) as (us' & Hr & Hm'). rewrite Hm in Hm'. injection Hm' as <-. rewrite Hr. cbn [contents from_option].
  destruct (Nat.eqb_spec (length (n_Content us)) 1) as [|Hlen]; [done|]. intros [= <-].
  destruct (users_change g1 k us (delete_from (length m1)) (m1 ++ m2) Hl) as [U1 U2];
    [by destruct us|rewrite Hus, Hu in *; destruct us; cbn in *; subst; apply delete_middle|].
  eapply (group_edit i v l1 g l2); try done; [rewrite Eop; set_solver|]. split; [by rewrite U2, Ho|]. rewrite Eop. exists m1, u, m2. split_and!; try done.
  intros Hnil. apply Hlen. rewrite Hus, Hu, length_app. apply app_nil in Hnil as [-> ->]. done.
Qed.

Lemma edit_auth_spec root' : auth_tidy root → edit_basic_auth parse_date parse_rfc3339 hash root e = Ok root' →
  groups_edited parse_date parse_rfc3339 hash root e root' ∧ ∀ k, k ≠ lit "basic_auth" → k ≠ lit "routes" → mapGet root' k = mapGet root k.
Proof.
  intros [[He Hoks] Hkeyed]. unfold edit_basic_auth. pose proof (authGroup_spec root (ae_Group e)) as Hg. destruct (authGroup root (ae_Group e)) as [[i j]|].
  - destruct Hg as (v & g & l1 & l2 & Hv & Hfg & Hc & -> & Hn). rewrite (group_here _ _ _ _ _ _ Hv Hc).
    assert (group_ok (lit "users") g ∧ Forall keyed (group_users g)) as [Hok Hgk].
    { unfold file_groups in *. rewrite Hfg in Hoks, Hkeyed. apply Forall_app in Hoks as [_ [? _]%Forall_cons], Hkeyed as [_ [? _]%Forall_cons]. done. }
    assert (∀ P, (P ∧ ∀ k, k ≠ lit "basic_auth" → mapGet root' k = mapGet root k) → P ∧ ∀ k, k ≠ lit "basic_auth" → k ≠ lit "routes" → mapGet root' k = mapGet root k) as Hweak by naive_solver.
    destruct (ae_Op e) eqn:Eop; try done.
    + (* rename_group *)
      destruct (bool_decide_reflect (ae_NewName e = [])) as [|Hne]; [done|]. cbn [negb andb]. destruct (negb _); [|done].
      pose proof (authGroup_spec root (ae_NewName e)) as Hno. destruct (authGroup root (ae_NewName e)); [done|]. intros [= <-].
      by apply (rename_group_spec i v l1 g l2).
    + (* delete_group *)
      destruct (bool_decide_reflect (authRefs root (ae_Group e) = [])) as [Hr%refs_none|]; [|done]. intros [= <-]. apply Hweak.
      destruct (section_change _ root i v (delete_from (length l1)) Hv) as (H1 & H2 & _); [by destruct v; apply list_at_spec in Hv as (_ & _ & ?)|].
      split; [|done]. unfold groups_edited. rewrite Eop. split_and!; [done| |by apply ref_names_same, H2].
      exists l1, g, l2. split_and!; [done..|]. unfold file_groups. rewrite H1. destruct v; cbn in *. subst. by rewrite delete_middle.
    + (* add_user *)
      intros Hr. apply Hweak. by apply (add_user_spec i v l1 g l2 root').
    + (* delete_user *)
      intros Hr. apply Hweak. by apply (delete_user_spec i v l1 g l2 root').
    + (* set_password *)
      intros Hr. apply Hweak. eapply (user_edit_spec i v l1 g l2); try done; [|rewrite Eop; set_solver]. intros u u' Hk Hf.
      destruct (newHash hash (ae_Password e)) as [h|] eqn:Eh; [|done]. injection Hf as <-. unfold user_edited. rewrite Eop. exists h. split; [by apply newHash_ok|].
      by apply set_two.
    + (* set_disabled *)
      intros Hr. apply Hweak. eapply (user_edit_spec i v l1 g l2); try done; [|rewrite Eop; set_solver]. intros u u' Hk [= <-]. unfold user_edited. rewrite Eop.
      pose proof (set_one (lit "disabled") (if ae_Disabled e then lit "true" else []) u Hk) as Hs.
      destruct (ae_Disabled e); [|done]. apply set_one_tag; [by intros []|done].
    + (* set_expiry *)
      intros Hr. apply Hweak. eapply (user_edit_spec i v l1 g l2); try done; [|rewrite Eop; set_solver]. intros u u' Hk Hf. unfold user_edited. rewrite Eop.
      destruct (bool_decide_reflect (trim_space (ae_Expires e) = [])) as [Hx|Hx]; cbn in Hf.
      * injection Hf as <-. split; [by left|by apply set_one].
      * destruct (parseExpiry parse_date parse_rfc3339 (trim_space (ae_Expires e))) as [t|] eqn:Ex; [|done]. injection Hf as <-. split; [by right|by apply set_one].
  - destruct (ae_Op e) eqn:Eop; try done. destruct (newHash hash (ae_Password e)) as [h|] eqn:Eh; [|done]. apply newHash_ok in Eh.
    destruct (authUsers _) as [g k] eqn:Eg. destruct (section root _) as [root1 i] eqn:Es. intros [= <-].
    destruct (add_group_spec h root1 i g k He Eh Eop Hg Eg Es) as [H1 H2]. split; [done|]. intros k' Hk' _. by apply H2.
Qed.
End AuthTheorem.

(** * Theorems *)


(** The console's edit of a listener in [config.yaml] does that and
    nothing else: a new one comes last, a deleted one is the one at the line
    given, a changed one stays in its place with the values typed. When the
    edit renames it, the rules that were its old name's, and no others, are
    the new name's, in the same order; otherwise no rule is touched. No other
    section changes, and an edit fails only for a line without a listener or a
    value that is refused. *)
Theorem edit_listener_exact (root : node) (values : gmap bytes jvalue) (line : Z) (del : bool) : evenly root →
  match edit_listener root line values del with
  | Ok (root', written) => listener_edited root values line del root' written ∧ (∀ k, k ≠ lit "listeners" → k ≠ lit "routes" → mapGet root' k = mapGet root k)
  | Err e => line ≠ 0 ∧ listenerAt root line = None ∨ ∃ l, set_mapping l listenerKeys values = Err e
  end.
Proof. apply edit_listener_spec. Qed.

(** C26: The console's edits of the basic_auth groups. Whatever an edit is, the
    groups and users it does not name stay as they are, in their order. A
    group is added with its first user, and only under a name no group has;
    renamed, every serve entry that named it, and no other, names it anew, and
    its users stay; deleted only when no serve entry names it. A user is added
    once, its password only as its hash; the last user of a group is never
    deleted; a new password's hash replaces the old one and a password written
    in plain text is gone; disabling and the expiry change that key of that
    user and nothing else of it. *)
Theorem edit_auth_exact (parse_date parse_rfc3339 : bytes → option Z) (hash : bytes → res err bytes) (root root' : node) (e : authEdit) :
  auth_tidy root → edit_basic_auth parse_date parse_rfc3339 hash root e = Ok root' →
  groups_edited parse_date parse_rfc3339 hash root e root' ∧ ∀ k, k ≠ lit "basic_auth" → k ≠ lit "routes" → mapGet root' k = mapGet root k.
Proof. apply edit_auth_spec. Qed.

(** ** Witnesses *)

Definition demo_rule (line : Z) (domain target : string) : node := n_map line [("domain", n_word domain); ("target", n_word target)]%string.
Definition demo_serving : node := n_map 11 [("domain", n_word "c.lan");
  ("serve", n_list [n_map 12 [("type", n_word "static_content"); ("basic_auth", n_word "team")]%string])]%string.
Definition demo_file : node := n_map 1 [
  ("listeners", n_list [n_map 2 [("name", n_word "lan"); ("port", n_word "8443")]%string; n_map 4 [("name", n_word "web"); ("port", n_word "443")]%string]);
  ("routes", n_list [
    n_map 6 [("listener", n_word "lan"); ("rules", n_list [demo_rule 8 "a.lan" "10.0.0.1:443"; demo_rule 9 "b.lan" "10.0.0.2:443"])]%string;
    n_map 10 [("listener", n_word "web"); ("rules", n_list [demo_serving])]%string]);
  ("basic_auth", n_list [n_map 14 [("name", n_word "team");
    ("users", n_list [n_map 16 [("username", n_word "jack"); ("password_plain", n_word "secret")]%string; n_map 17 [("username", n_word "jill")]%string])]%string])]%string.

Lemma demo_routes_tidy : routes_tidy demo_file.
Proof.
  split; [by apply Nat.even_spec; vm_compute|]. repeat constructor; cbn; (try by apply Nat.even_spec; vm_compute); by intros ? [= <-].
Qed.
(** The rule of line 8 moves to the other listener, with another target. *)
Definition demo_values : gmap bytes jvalue := list_to_map [(lit "listener", JStr (lit "web")); (lit "target", JStr (lit " 10.0.0.9:443 "))].
Definition demo_moved : option (node * option node) := match edit_rule demo_file 8 demo_values false with Ok r => Some r | Err _ => None end.

(** The listener of line 2 gets another name. *)
Definition demo_rename : gmap bytes jvalue := list_to_map [(lit "name", JStr (lit "home"))].
Lemma edit_listener_exact_witness : evenly demo_file ∧ match edit_listener demo_file 2 demo_rename false with
  | Ok (root', written) => listener_edited demo_file demo_rename 2 false root' written ∧
      (fun e => (e.1, n_Line e.2)) <$> file_rules root' = [(Some (lit "home"), 8); (Some (lit "home"), 9); (Some (lit "web"), 11)]
  | Err _ => False
  end.
Proof.
  pose proof (proj1 demo_routes_tidy) as He. split; [exact He|]. pose proof (edit_listener_exact demo_file demo_rename 2 false He) as H.
  destruct (edit_listener demo_file 2 demo_rename false) as [[root' written]|] eqn:E; [|exfalso; revert E; vm_compute; discriminate].
  split; [exact (proj1 H)|]. clear H.
  assert (root' = match edit_listener demo_file 2 demo_rename false with Ok (r, _) => r | _ => demo_file end) as -> by (by rewrite E). vm_compute. reflexivity.
Defined.

(** A group is renamed; a user's password, plain so far, is set. *)
Lemma demo_auth_tidy : auth_tidy demo_file.
Proof.
  split; [split; [by apply Nat.even_spec; vm_compute|]|].
  - repeat constructor; [by apply Nat.even_spec; vm_compute|]. cbn. by intros ? [= <-].
  - repeat constructor.
    + exists [(n_word "username", n_word "jack"); (n_word "password_plain", n_word "secret")]. split; [done|]. apply (bool_decide_eq_true_1 _). by vm_compute.
    + exists [(n_word "username", n_word "jill")]. split; [done|]. apply (bool_decide_eq_true_1 _). by vm_compute.
Qed.
Definition demo_auth (op : authOp) : authEdit := mkAuthEdit op (lit "team") (lit "staff") (lit "jack") (lit "better") false [].
Definition demo_hash (p : bytes) : res err bytes := Ok (lit "$argon2id$" ++ p).
Definition demo_edited (op : authOp) : node := match edit_basic_auth w_none w_none demo_hash demo_file (demo_auth op) with Ok root => root | Err _ => demo_file end.
Lemma edit_auth_exact_witness : ref_names (demo_edited rename_group) = [lit "staff"] ∧
  groups_edited w_none w_none demo_hash demo_file (demo_auth rename_group) (demo_edited rename_group) ∧
  (fun u => (n_Value <$> mapGet u (lit "password_plain"), n_Value <$> mapGet u (lit "password_hash"))) <$> (file_groups (demo_edited set_password) ≫= group_users)
    = [(None, Some (lit "$argon2id$better")); (None, None)].
Proof.
  split; [vm_compute; reflexivity|]. split; [|vm_compute; reflexivity].
  refine (proj1 (edit_auth_exact w_none w_none demo_hash demo_file (demo_edited rename_group) (demo_auth rename_group) demo_auth_tidy _)). vm_compute. reflexivity.
Defined.

(** ** Where the edits fall short *)

(** A routes item with nothing after [rules:] loads, and takes no rule: the
    rule is put inside a scalar, of which only its text is written. *)
Definition demo_empty : node := n_map 1 [("routes", n_list [n_map 2 [("listener", n_word "lan"); ("rules", Node ScalarNode (lit "!!null") [] 3 [])]%string])]%string.
Example new_rule_lost : match edit_rule demo_empty 0 (<[lit "listener" := JStr (lit "lan")]> demo_values) false with
  | Ok (root', Some _) => sub [1; 0; 3]%nat root' = Some (Node ScalarNode (lit "!!null") [] 3 [mapping [word (lit "target"); scalar (lit "10.0.0.9:443")]]) ∧ file_rules root' = []
  | _ => False
  end.
Proof. vm_compute. by split. Qed.

(** Of two rules on one line the page shows the second, and an edit of that
    line changes the first. *)
Definition demo_flow : node := n_map 1 [("routes", n_list [n_map 2 [("listener", n_word "lan"); ("rules", n_list [demo_rule 3 "a.lan" "10.0.0.1:443"; demo_rule 3 "b.lan" "10.0.0.2:443"])]%string])]%string.
Example other_rule_deleted :
  (fun v => v !! lit "domain") <$> (fileValues (fun _ => Ok (Some demo_flow)) []).1 !! 3 = Some (Some (JStr (lit "b.lan"))) ∧
  match edit_rule demo_flow 3 ∅ true with Ok (root', _) => file_rules root' = [(Some (lit "lan"), demo_rule 3 "b.lan" "10.0.0.2:443")] | Err _ => False end.
Proof. vm_compute. by split. Qed.

(** A listener renamed with a space at the end loses it, the name in its
    routes does not: the file no longer loads, and the edit is refused. *)
Example rename_untrimmed : match edit_listener demo_file 2 (list_to_map [(lit "name", JStr (lit "home "))]) false with
  | Ok (root', Some l) => n_Value <$> mapGet l (lit "name") = Some (lit "home") ∧ (file_rules root').*1 = [Some (lit "home "); Some (lit "home "); Some (lit "web")]
  | _ => False
  end.
Proof. vm_compute. by split. Qed.
