(* ===== verification/Saves.v ===== *)
(** Saves: the console's saves of [config.yaml] ([console.go],
    [console_rules.go], [console_auth.go]): the text as a whole, a rule, a
    listener, a basic_auth group; any number of them at once, beside other
    programs that write the file. *)

From S2P Require Import Prelude GoStr Rules CertNames Config Yaml ConfigLoad Sections SectionEdits.

Definition maxBackups : nat := 10.

(** [fileVersion]: the modification time as text, and the hash. *)
Definition fileVersion : Type := bytes * bytes.

(** What a request asks to be saved. *)
Inductive saving :=
| SaveText (text : bytes)
| SaveRule (line : Z) (values : gmap bytes jvalue) (del : bool)
| SaveListener (line : Z) (values : gmap bytes jvalue) (del : bool)
| SaveAuth (e : authEdit).

(** How a request is answered: the proxy's trouble, the file changed since the
    page loaded it, the edit or its result refused, nothing to change, saved. *)
Inductive answered := Trouble | Changed | Refused (e : err) | Unchanged | Saved.

(** Where a save is. It waits for [configFileMu] and holds it from [Locked] to
    [Pruned]; [Ready]: the new text is there and loads; [Backed]: the backup
    of that name is written; [Written]: so is the file. *)
Inductive saving_pc :=
| Queued | Locked | Read (onDisk : bytes) | Ready (onDisk full : bytes) | Backed (onDisk full name : bytes) | Written (onDisk name : bytes) | Pruned
| Done (a : answered).
Record save := mkSave { sv_what : saving; sv_base : fileVersion; sv_pc : saving_pc }.

(** One write of the file: who (another program if nobody), what it replaced
    and by what; for a save, the text it had read, and whether no other
    program wrote the file since it read it. *)
Record write := mkWrite { wr_by : option nat; wr_before : bytes; wr_after : bytes; wr_read : bytes; wr_quiet : bool }.

(** The file, its modification time, its backups by name; [configFileMu]; the
    saves; every write so far, oldest first; whether another program has
    written the file since the holder of [configFileMu] read it. *)
Record saves := mkSaves {
  fs_text : bytes; fs_mtime : Z; fs_backups : gmap bytes bytes; fs_mu : option nat;
  fs_saves : list save; fs_writes : list write; fs_outside : bool;
}.
Definition new_saves (text : bytes) (mtime : Z) : saves := mkSaves text mtime ∅ None [] [] false.

(** [pruneBackups]: the oldest go, by their names, while there are too many. *)
Definition backupFiles (backups : gmap bytes bytes) : list bytes := stable_sort str_less (elements (dom backups)).
Definition pruneBackups (backups : gmap bytes bytes) : gmap bytes bytes :=
  foldl (fun b name => delete name b) backups (take (length (backupFiles backups) - maxBackups) (backupFiles backups)).

(** How [writeFileAtomic] ends: the file is there, it is not, it is but the
    folder could not be synchronised. *)
Inductive wrote := Wrote | NotWritten | WroteUnsure.

Section Saves.
Context (fileHash : bytes → bytes).                          (* fileHash: the SHA-256 in hexadecimal *)
Context (loadConfig : bytes → res err Config).               (* loadConfig: ConfigLoad.LoadConfig with the console's settings *)
Context (certs_Check : Config → res err unit).               (* CertManager.Check: the CAs the rules name are on the disk *)
Context (encode : node → bytes) (yaml_parse : bytes → res err (option node)) (parse_date parse_rfc3339 : bytes → option Z). (* see Sections *)
Context (hashPassword : bytes → res err bytes).              (* hashPassword: see Password *)

Definition versionOf (mtime : Z) (data : bytes) : fileVersion := (itoa mtime, fileHash data).

(** [check] *)
Definition check (text : bytes) : res err Config := let! cfg := loadConfig text in let! _ := certs_Check cfg in Ok cfg.

(** A listener that is deleted: the console's, and one with rules, are not. *)
Definition not_held (line : Z) (cur : Config) : res err unit :=
  fold_res (fun _ l =>
    if negb (l_Line l =? line) then Ok tt
    else if l_Console l then Err "the web console's listener can't be deleted"%string
    else if existsb (fun r => bool_decide (r_Listener r = l_Name l) && negb (r_Console r)) (c_Rules cur) then Err "the listener still has rules"%string
    else Ok tt) tt (c_Listeners cur).

(** The new text: [configSave], [ruleEdit], [listenerChange], [authSave]. *)
Definition edited (what : saving) (onDisk : bytes) : res err bytes :=
  match what with
  | SaveText text => Ok text
  | SaveRule line values del => let! r := editRule encode yaml_parse onDisk line values del in Ok r.1.1
  | SaveListener line values del =>
      let! _ := (if del then match loadConfig onDisk with Ok cur => not_held line cur | Err _ => Ok tt end else Ok tt) in
      let! r := editListener encode yaml_parse onDisk line values del in Ok r.1.1
  | SaveAuth e =>
      editBasicAuth encode yaml_parse parse_date parse_rfc3339 hashPassword onDisk
        (mkAuthEdit (ae_Op e) (trim_space (ae_Group e)) (trim_space (ae_NewName e)) (trim_space (ae_User e)) (ae_Password e) (ae_Disabled e) (ae_Expires e))
  end.

(** What the outside answers to the steps of a save: whether a call failed,
    how a write ended, the name of a backup (the clock), the modification
    time. *)
Record outside := mkOutside { o_ok : bool; o_wrote : wrote; o_name : bytes; o_mtime : Z }.

Definition save_step (i : nat) (o : outside) (s : saves) : option saves :=
  let 'mkSaves text mtime backups mu ts ws out := s in
  match ts !! i with
  | None => None
  | Some (mkSave what base pc) =>
      let at_ pc := <[i := mkSave what base pc]> ts in
      let go pc := Some (mkSaves text mtime backups mu (at_ pc) ws out) in
      let end_ a := Some (mkSaves text mtime backups None (at_ (Done a)) ws out) in
      match pc with
      | Queued => match mu with None => Some (mkSaves text mtime backups (Some i) (at_ Locked) ws out) | Some _ => None end
      | Locked => if o_ok o then Some (mkSaves text mtime backups mu (at_ (Read text)) ws false) else end_ Trouble
      | Read onDisk =>
          if negb (o_ok o) then end_ Trouble
          else
            let ver := versionOf mtime onDisk in
            if negb (bool_decide (base = ver)) then end_ Changed
            else match edited what onDisk with
                 | Err e => end_ (Refused e)
                 | Ok full =>
                     match check full with
                     | Err e => end_ (Refused e)
                     | Ok _ => if bool_decide (full = onDisk) then end_ Unchanged else go (Ready onDisk full)
                     end
                 end
      | Ready onDisk full =>
          match o_wrote o with
          | Wrote => Some (mkSaves text mtime (<[o_name o := onDisk]> backups) mu (at_ (Backed onDisk full (o_name o))) ws out)
          | WroteUnsure => Some (mkSaves text mtime (<[o_name o := onDisk]> backups) None (at_ (Done Trouble)) ws out)
          | NotWritten => end_ Trouble
          end
      | Backed onDisk full name =>
          let ws' := ws ++ [mkWrite (Some i) text full onDisk (negb out)] in
          match o_wrote o with
          | Wrote => Some (mkSaves full (o_mtime o) backups mu (at_ (Written onDisk name)) ws' out)
          | WroteUnsure => Some (mkSaves full (o_mtime o) backups None (at_ (Done Trouble)) ws' out)
          | NotWritten => end_ Trouble
          end
      | Written onDisk name => Some (mkSaves text mtime (pruneBackups backups) mu (at_ Pruned) ws out)
      | Pruned => if o_ok o then end_ Saved else end_ Trouble
      | Done _ => None
      end
  end.

(** Requests arrive, other programs write the file, the saves go on. *)
Inductive saves_step : saves → saves → Prop :=
| Arrives text mtime backups mu ts ws out what base :
    saves_step (mkSaves text mtime backups mu ts ws out) (mkSaves text mtime backups mu (ts ++ [mkSave what base Queued]) ws out)
| OtherWrites text mtime backups mu ts ws out text' mtime' :
    saves_step (mkSaves text mtime backups mu ts ws out) (mkSaves text' mtime' backups mu ts (ws ++ [mkWrite None text text' text true]) true)
| SaveGoes s s' i o : save_step i o s = Some s' → saves_step s s'.

(** * What the saves keep true *)

Definition inside (pc : saving_pc) : bool := match pc with Queued | Done _ => false | _ => true end.
Definition past (pc : saving_pc) : bool := match pc with Written _ _ | Pruned | Done _ => true | _ => false end.

(** The text an accepted save writes, of the text it read. *)
Definition accepted (sv : save) (read full : bytes) : Prop :=
  (sv_base sv).2 = fileHash read ∧ edited (sv_what sv) read = Ok full ∧ is_ok (check full) = true.
Definition pc_ok (s : saves) (sv : save) : Prop :=
  match sv_pc sv with
  | Read onDisk => fs_outside s = false → fs_text s = onDisk
  | Ready onDisk full => (fs_outside s = false → fs_text s = onDisk) ∧ accepted sv onDisk full
  | Backed onDisk full name => (fs_outside s = false → fs_text s = onDisk) ∧ accepted sv onDisk full ∧ fs_backups s !! name = Some onDisk
  | Written onDisk name => fs_backups s !! name = Some onDisk
  | _ => True
  end.
Definition others_wrote (ws : list write) : Prop := ∃ w, w ∈ ws ∧ wr_by w = None.
Definition write_ok (ts : list save) (ws : list write) (w : write) : Prop :=
  match wr_by w with
  | Some i => ∃ sv, ts !! i = Some sv ∧ past (sv_pc sv) = true ∧ accepted sv (wr_read w) (wr_after w) ∧
      if wr_quiet w then wr_before w = wr_read w else others_wrote ws
  | None => True
  end.

(** What the file held before the writes left, and after all of them. *)
Fixpoint chained (text : bytes) (ws : list write) (now : bytes) : Prop :=
  match ws with [] => now = text | w :: ws => wr_before w = text ∧ chained (wr_after w) ws now end.

Record saves_ok (start : bytes) (s : saves) : Prop := {
  sk_mu : ∀ i sv, fs_saves s !! i = Some sv → inside (sv_pc sv) = true → fs_mu s = Some i;
  sk_pcs : Forall (pc_ok s) (fs_saves s);
  sk_writes : Forall (write_ok (fs_saves s) (fs_writes s)) (fs_writes s);
  sk_once : NoDup (omap wr_by (fs_writes s));
  sk_outside : fs_outside s = true → others_wrote (fs_writes s);
  sk_chain : chained start (fs_writes s) (fs_text s);
}.

Lemma chained_snoc text ws now w : chained text ws now → wr_before w = now → chained text (ws ++ [w]) (wr_after w).
Proof. revert text. induction ws as [|w' ws IH]; intros text; cbn; [intros -> H; by split|]. intros [H1 H2] H. split; [done|by apply IH]. Qed.
Lemma others_wrote_more ws w : others_wrote ws → others_wrote (ws ++ [w]).
Proof. intros (w' & Hw & Hb). exists w'. split; [|done]. apply elem_of_app. by left. Qed.

(** A save that goes on keeps what the writes say of it. *)
Lemma write_ok_move ts ws w i sv pc : ts !! i = Some sv → (past (sv_pc sv) = true → past pc = true) →
  write_ok ts ws w → write_ok (<[i := mkSave (sv_what sv) (sv_base sv) pc]> ts) ws w.
Proof.
  intros Hi Hp. unfold write_ok. destruct (wr_by w) as [j|]; [|done]. intros (sv' & Hj & Hpast & Hacc & Hq).
  destruct (decide (i = j)) as [<-|Hne]; [|exists sv'; by rewrite list_lookup_insert_ne].
  rewrite Hi in Hj. injection Hj as <-. eexists. rewrite list_lookup_insert_eq by (by eapply lookup_lt_Some). split_and!; [done|by apply Hp|exact Hacc|done].
Qed.
Lemma write_ok_more ts ws ws' w : write_ok ts ws w → (others_wrote ws → others_wrote ws') → write_ok ts ws' w.
Proof.
  unfold write_ok. destruct (wr_by w); [|done]. intros (sv & H1 & H2 & H3 & H4) Hw. exists sv. split_and!; try done. destruct (wr_quiet w); [done|by apply Hw].
Qed.

(** The save [i] goes on, without a write of the file. *)
Lemma saves_ok_go start text mtime backups backups' mu mu' ts ws out out' i sv pc :
  saves_ok start (mkSaves text mtime backups mu ts ws out) → ts !! i = Some sv → (past (sv_pc sv) = true → past pc = true) →
  (∀ j, j ≠ i → mu = Some j → mu' = Some j) → (inside pc = true → mu' = Some i) →
  pc_ok (mkSaves text mtime backups' mu' ts ws out') (mkSave (sv_what sv) (sv_base sv) pc) →
  (out' = true → out = true) → (mu ≠ Some i → out' = out ∧ backups' = backups) →
  saves_ok start (mkSaves text mtime backups' mu' (<[i := mkSave (sv_what sv) (sv_base sv) pc]> ts) ws out').
Proof.
  intros [H1 H2 H3 H4 H5 H6] Hi Hp Hmu Hin Hpc Hout Hsame. cbn in *. split; cbn; try done.
  - intros j sv' [(-> & <- & _)|[Hne Hj]]%list_lookup_insert_Some Hins; [by apply Hin|]. apply Hmu; [done|by eapply H1].
  - apply Forall_lookup. intros j sv' [(-> & <- & _)|[Hne Hj]]%list_lookup_insert_Some; [done|].
    pose proof (Forall_lookup_1 _ _ _ _ H2 Hj) as Hok. unfold pc_ok in *. cbn in *.
    destruct (decide (mu = Some i)) as [->|Hm].
    + assert (inside (sv_pc sv') = false) as Hnone by (destruct (inside (sv_pc sv')) eqn:E; [|done]; specialize (H1 j sv' Hj E); congruence). by destruct (sv_pc sv').
    + destruct (Hsame Hm) as [-> ->]. done.
  - eapply Forall_impl; [exact H3|]. intros w. by apply write_ok_move.
  - intros Ho. by apply H5, Hout.
Qed.

(** The save [i] writes the file. *)
Lemma saves_ok_write start text full mtime mtime' backups mu' ts ws out i sv pc read :
  saves_ok start (mkSaves text mtime backups (Some i) ts ws out) → ts !! i = Some sv → past (sv_pc sv) = false → past pc = true →
  accepted sv read full → (out = false → text = read) → (inside pc = true → mu' = Some i) → (mu' = Some i ∨ mu' = None) →
  pc_ok (mkSaves full mtime' backups mu' ts ws out) (mkSave (sv_what sv) (sv_base sv) pc) →
  saves_ok start (mkSaves full mtime' backups mu' (<[i := mkSave (sv_what sv) (sv_base sv) pc]> ts) (ws ++ [mkWrite (Some i) text full read (negb out)]) out).
Proof.
  intros [H1 H2 H3 H4 H5 H6] Hi Hp Hp' Hacc Hq Hin Hmu Hpc. cbn in *.
  assert (∀ j sv', ts !! j = Some sv' → j ≠ i → inside (sv_pc sv') = false) as Hnone.
  { intros j sv' Hj Hne. destruct (inside (sv_pc sv')) eqn:E; [|done]. specialize (H1 j sv' Hj E). congruence. }
  assert (i ∉ omap wr_by ws) as Hfresh.
  { intros (w & Hw & Hb)%list_elem_of_omap. pose proof (proj1 (Forall_forall _ _) H3 w Hw) as Hok. unfold write_ok in Hok. rewrite Hb in Hok.
    destruct Hok as (sv' & Hj & Hpast & _). rewrite Hi in Hj. injection Hj as <-. congruence. }
  split; cbn.
  - intros j sv' [(-> & <- & _)|[Hne Hj]]%list_lookup_insert_Some Hins; [by apply Hin|]. by rewrite (Hnone j sv') in Hins.
  - apply Forall_lookup. intros j sv' [(-> & <- & _)|[Hne Hj]]%list_lookup_insert_Some; [done|].
    pose proof (Hnone j sv' Hj ltac:(done)) as Hn. unfold pc_ok. by destruct (sv_pc sv').
  - apply Forall_app. split.
    + eapply Forall_impl; [exact H3|]. intros w Hw. eapply write_ok_more; [by apply write_ok_move; [..|exact Hw]; [done|congruence]|apply others_wrote_more].
    + constructor; [|done]. unfold write_ok. cbn. eexists. rewrite list_lookup_insert_eq by (by eapply lookup_lt_Some). split_and!; [done|done|exact Hacc|].
      destruct out; cbn; [|by apply Hq]. apply others_wrote_more. by apply H5.
  - rewrite omap_app. cbn. apply NoDup_app. split_and!; [done| |apply NoDup_singleton]. intros j Hj ->%list_elem_of_singleton. done.
  - intros Ho. by apply others_wrote_more, H5.
  - by apply (chained_snoc _ _ text).
Qed.

Lemma save_step_ok start i o s s' : saves_ok start s → save_step i o s = Some s' → saves_ok start s'.
Proof.
  intros Hok Hs. pose proof Hok as [H1 H2 _ _ _ _]. destruct s as [text mtime backups mu ts ws out]. cbn in *.
  destruct (ts !! i) as [sv|] eqn:Hi; [|done]. pose proof (Forall_lookup_1 _ _ _ _ H2 Hi) as Hpc. pose proof (H1 i sv Hi) as Hmu.
  destruct sv as [what base pc]. unfold pc_ok in Hpc. cbn in Hpc, Hmu.
  assert (∀ a, mu = Some i → (past pc = true → true = true) → saves_ok start (mkSaves text mtime backups None (<[i := mkSave what base (Done a)]> ts) ws out)) as Hend.
  { intros a Hm _. eapply (saves_ok_go start text mtime backups backups mu None ts ws out out i _ (Done a) Hok Hi); try done. intros j Hne Hj. congruence. }
  destruct pc as [| |onDisk|onDisk full|onDisk full name|onDisk name| |a]; cbn in Hmu; try (specialize (Hmu eq_refl) as ->).
  - destruct mu; [done|]. injection Hs as <-. by eapply (saves_ok_go start text mtime backups backups None (Some i) ts ws out out i _ Locked Hok Hi).
  - destruct (o_ok o); injection Hs as <-; [|by apply Hend]. by eapply (saves_ok_go start text mtime backups backups (Some i) (Some i) ts ws out false i _ (Read text) Hok Hi).
  - destruct (o_ok o); cbn in Hs; [|injection Hs as <-; by apply Hend]. destruct (bool_decide_reflect (base = versionOf mtime onDisk)) as [Hb|]; cbn in Hs; [|injection Hs as <-; by apply Hend].
    destruct (edited what onDisk) as [full|] eqn:Ee; [|injection Hs as <-; by apply Hend].
    destruct (check full) as [cfg|] eqn:Ec; [|injection Hs as <-; by apply Hend]. case_bool_decide; injection Hs as <-; [by apply Hend|].
    eapply (saves_ok_go start text mtime backups backups (Some i) (Some i) ts ws out out i _ (Ready onDisk full) Hok Hi); try done.
    split; [done|]. split_and!; cbn; [by rewrite Hb|done|by rewrite Ec].
  - destruct Hpc as [Hq Hacc]. destruct (o_wrote o); injection Hs as <-.
    + eapply (saves_ok_go start text mtime backups _ (Some i) (Some i) ts ws out out i _ (Backed onDisk full (o_name o)) Hok Hi); try done.
      split_and!; [done|exact Hacc|apply lookup_insert_eq].
    + by apply Hend.
    + eapply (saves_ok_go start text mtime backups _ (Some i) None ts ws out out i _ (Done Trouble) Hok Hi); try done. intros j Hne Hj. congruence.
  - destruct Hpc as (Hq & Hacc & Hb). destruct (o_wrote o); injection Hs as <-.
    + eapply (saves_ok_write start text full mtime (o_mtime o) backups (Some i) ts ws out i _ (Written onDisk name) onDisk Hok Hi); try done. by left.
    + by apply Hend.
    + eapply (saves_ok_write start text full mtime (o_mtime o) backups None ts ws out i _ (Done Trouble) onDisk Hok Hi); try done. by right.
  - injection Hs as <-. eapply (saves_ok_go start text mtime backups _ (Some i) (Some i) ts ws out out i _ Pruned Hok Hi); done.
  - destruct (o_ok o); injection Hs as <-; by apply Hend.
  - done.
Qed.

Lemma saves_step_ok start s s' : saves_ok start s → saves_step s s' → saves_ok start s'.
Proof.
  intros Hok Hs. destruct Hs as [text mtime backups mu ts ws out what base|text mtime backups mu ts ws out text' mtime'|s s' i o Hs].
  - destruct Hok as [H1 H2 H3 H4 H5 H6]. split; cbn in *; try done.
    + intros j sv [Hj|[_ Hj]]%lookup_app_Some Hin; [by eapply H1|]. apply list_lookup_singleton_Some in Hj as [_ <-]. done.
    + apply Forall_app. split; [done|by repeat constructor].
    + eapply Forall_impl; [exact H3|]. unfold write_ok. intros w. destruct (wr_by w); [|done]. intros (sv & Hj & Hr). exists sv. split; [by apply lookup_app_l_Some|done].
  - destruct Hok as [H1 H2 H3 H4 H5 H6]. cbn in *. assert (others_wrote (ws ++ [mkWrite None text text' text true])) as Hoth.
    { eexists. split; [apply elem_of_app; right; by left|done]. }
    split; cbn; try done.
    + eapply Forall_impl; [exact H2|]. unfold pc_ok. intros sv. cbn. destruct (sv_pc sv); try done; cbn; naive_solver.
    + apply Forall_app. split; [|by repeat constructor]. eapply Forall_impl; [exact H3|]. intros w Hw. eapply write_ok_more; [exact Hw|apply others_wrote_more].
    + rewrite omap_app. cbn. by rewrite app_nil_r.
    + by apply (chained_snoc _ _ text).
  - by eapply save_step_ok.
Qed.
End Saves.

(** * Backups *)

Lemma delete_all_lookup (b : gmap bytes bytes) names k :
  foldl (fun b name => delete name b) b names !! k = if bool_decide (k ∈ names) then None else b !! k.
Proof.
  revert b. induction names as [|n names IH]; intros b; [done|]. cbn [foldl]. rewrite IH. destruct (decide (n = k)) as [->|Hne].
  - rewrite lookup_delete_eq, (bool_decide_true (k ∈ k :: names)) by (by left). by destruct (bool_decide _).
  - rewrite lookup_delete_ne by done. destruct (bool_decide_reflect (k ∈ names)) as [Hk|Hk].
    + by rewrite bool_decide_true by (by right).
    + rewrite bool_decide_false; [done|]. intros [->|?]%elem_of_cons; done.
Qed.

(** The newest stay, at most ten, as they are. *)
Lemma pruneBackups_spec b : pruneBackups b ⊆ b ∧ (size (pruneBackups b) <= maxBackups)%nat ∧
  (∀ old new, old ∈ dom b → old ∉ dom (pruneBackups b) → new ∈ dom (pruneBackups b) → str_less new old = false).
Proof.
  set (names := backupFiles b). set (k := (length names - maxBackups)%nat).
  assert (∀ n, pruneBackups b !! n = if bool_decide (n ∈ take k names) then None else b !! n) as Hl by (intros n; apply delete_all_lookup).
  assert (∀ n, n ∈ names ↔ n ∈ dom b) as Hn by (intros n; unfold names, backupFiles; by rewrite elem_of_stable_sort, elem_of_elements).
  assert (NoDup names) as Hnd by (unfold names, backupFiles; rewrite stable_sort_perm; apply NoDup_elements).
  assert (∀ n, n ∈ dom (pruneBackups b) ↔ n ∈ drop k names) as Hkept.
  { intros n. rewrite elem_of_dom, Hl. pose proof Hnd as Hsplit. rewrite <- (take_drop k names) in Hsplit. apply NoDup_app in Hsplit as (_ & Hd & _).
    case_bool_decide as Ht; [split; [by intros []|intros H; by destruct (Hd n Ht)]|]. rewrite <- elem_of_dom, <- Hn, <- (take_drop k names) at 1.
    rewrite elem_of_app. naive_solver. }
  split_and!.
  - apply map_subseteq_spec. intros n v. rewrite Hl. by case_bool_decide.
  - rewrite <- size_dom. assert (dom (pruneBackups b) = list_to_set (drop k names)) as ->.
    { apply set_eq. intros n. by rewrite Hkept, elem_of_list_to_set. }
    rewrite size_list_to_set; [|by apply (NoDup_drop k) in Hnd || (rewrite <- (take_drop k names) in Hnd; by apply NoDup_app in Hnd as (_ & _ & ?))].
    rewrite length_drop. lia.
  - intros old new Ho Hno Hnew. apply Hkept in Hnew. rewrite Hkept in Hno. rewrite <- Hn, <- (take_drop k names), elem_of_app in Ho.
    destruct Ho as [Ho|]; [|done]. apply (stable_sort_sorted str_less (elements (dom b))). fold (backupFiles b) names.
    apply list_elem_of_lookup in Ho as [i Hi], Hnew as [j Hj]. exists i, (k + j)%nat. pose proof (lookup_lt_Some _ _ _ Hi) as Hlt. rewrite length_take in Hlt.
    split_and!; [lia|by rewrite lookup_take_Some in Hi; destruct Hi|by rewrite <- lookup_drop].
Qed.

(** * Theorems *)


(** ** Witness

    Two pages have the same text open; both save. *)
Definition demo_load (_ : bytes) : res err Config := Ok (defaultConfig []).
Definition demo_saves_step := save_step (fun x => x) demo_load (fun _ => Ok tt) n_Value (fun _ => Ok None) (fun _ => None) (fun _ => None) Ok.
Inductive demo_turn := TArrives (what : saving) (base : fileVersion) | TGoes (i : nat).
Definition demo_outside : outside := mkOutside true Wrote (lit "config.yaml.20260101T000000.000Z.bak") 9.
Definition demo_turn_step (s : saves) (t : demo_turn) : option saves :=
  let 'mkSaves text mtime backups mu ts ws out := s in
  match t with
  | TArrives what base => Some (mkSaves text mtime backups mu (ts ++ [mkSave what base Queued]) ws out)
  | TGoes i => demo_saves_step i demo_outside s
  end.
Definition demo_old : bytes := lit "global: {}".
Definition demo_turns : list demo_turn :=
  [TArrives (SaveText (lit "one")) (versionOf (fun x => x) 5 demo_old); TArrives (SaveText (lit "two")) (versionOf (fun x => x) 5 demo_old)] ++
  (TGoes <$> [0; 0; 0; 0; 0; 0; 0; 1; 1; 1]%nat).
Definition demo_saved_twice : option saves := foldl (fun s t => s ≫= fun s => demo_turn_step s t) (Some (new_saves demo_old 5)) demo_turns.
Lemma demo_turns_reach ts s : foldl (fun s t => s ≫= fun s => demo_turn_step s t) (Some (new_saves demo_old 5)) ts = Some s →
  rtc (saves_step (fun x => x) demo_load (fun _ => Ok tt) n_Value (fun _ => Ok None) (fun _ => None) (fun _ => None) Ok) (new_saves demo_old 5) s.
Proof.
  revert s. induction ts as [|t ts IH] using rev_ind; intros s; [intros [= <-]; apply rtc_refl|]. rewrite foldl_app. cbn [foldl].
  destruct (foldl _ _ ts) as [s1|]; [|done]. cbn [mbind option_bind]. intros He. eapply rtc_r; [by apply IH|]. destruct s1 as [text mtime backups mu sv ws out]. destruct t; cbn [demo_turn_step] in He.
  - injection He as <-. apply Arrives.
  - by eapply SaveGoes.
Qed.
