(* ===== verification/OidcEdit.v ===== *)
(** OidcEdit: the OpenID Connect items of [config.yaml] as the console changes
    them ([console_oidc.go]): what is written into the file, what into files of
    its own beside it, and which files go when a change is saved or is not.
    The making of a certificate, the clock and the disk answer; the file is a
    tree of [Sections]. *)

From S2P Require Import Prelude GoStr NetIP Http Rules Config ServeConfig Oidc Yaml OidcConfig ConfigLoad Sections SectionEdits Saves.

(** * Redirect URIs *)

(** [callbackFor] *)
Definition callbackFor (listeners : list Listener) (r : Rule) : bytes :=
  if contains_any (r_Source r) (lit "*$") then []
  else
    let port := from_option l_Port 0 (find (fun l => bool_decide (l_Name l = r_Listener r)) listeners) in
    let host := if negb (port =? 443) && negb (port =? 0) then join_host_port (r_Source r) (itoa port) else r_Source r in
    lit "https://" ++ host ++ oidcCallback.

(** [callbackCandidates] *)
Definition callbackCandidates (listeners : list Listener) (rules : list Rule) : list bytes :=
  foldl (fun out r =>
    let u := callbackFor listeners r in
    if negb (bool_decide (r_Routes r = [])) && negb (r_Console r) && negb (bool_decide (u = [])) && negb (contains out u) then out ++ [u] else out)
    [] rules.

(** The candidates: each once, those of the rules that serve here one name. *)
Lemma callbacks_exact listeners rules : NoDup (callbackCandidates listeners rules) ∧
  ∀ u, u ∈ callbackCandidates listeners rules ↔ ∃ r, r ∈ rules ∧ r_Routes r ≠ [] ∧ r_Console r = false ∧ callbackFor listeners r = u ∧ u ≠ [].
Proof.
  unfold callbackCandidates. assert (∀ out, NoDup out → let l := foldl (fun out r => let u := callbackFor listeners r in
      if negb (bool_decide (r_Routes r = [])) && negb (r_Console r) && negb (bool_decide (u = [])) && negb (contains out u) then out ++ [u] else out) out rules in
    NoDup l ∧ ∀ u, u ∈ l ↔ u ∈ out ∨ ∃ r, r ∈ rules ∧ r_Routes r ≠ [] ∧ r_Console r = false ∧ callbackFor listeners r = u ∧ u ≠ []) as H.
  { induction rules as [|r rules IH]; intros out Hout; cbn [foldl]; [split; [done|]; intros u; split; [by left|]; intros [?|(r & Hr & _)]; [done|by apply not_elem_of_nil in Hr]|].
    set (u := callbackFor listeners r). assert (∀ b : bool, b = true ↔ (r_Routes r ≠ [] ∧ r_Console r = false ∧ u ≠ [] ∧ (u ∉ out)) → 
      let l := foldl (fun out r => let u := callbackFor listeners r in
        if negb (bool_decide (r_Routes r = [])) && negb (r_Console r) && negb (bool_decide (u = [])) && negb (contains out u) then out ++ [u] else out) (if b then out ++ [u] else out) rules in
      NoDup l ∧ ∀ u', u' ∈ l ↔ u' ∈ out ∨ ∃ r', r' ∈ r :: rules ∧ r_Routes r' ≠ [] ∧ r_Console r' = false ∧ callbackFor listeners r' = u' ∧ u' ≠ []) as Hb.
    { intros b Hb. destruct (IH (if b then out ++ [u] else out)) as [I1 I2].
      - destruct b; [|done]. apply NoDup_app. split_and!; [done| |apply NoDup_singleton]. intros x Hx ->%list_elem_of_singleton. by apply (proj1 Hb eq_refl).
      - split; [exact I1|]. intros u'. rewrite I2. setoid_rewrite elem_of_cons. destruct b.
        + destruct (proj1 Hb eq_refl) as (B1 & B2 & B3 & B4). rewrite elem_of_app, list_elem_of_singleton. naive_solver.
        + split; [naive_solver|]. intros [?|(r' & [->|Hr] & R1 & R2 & R3 & R4)]; [by left| |naive_solver]. left. fold u in R3. subst u'.
          destruct (decide (u ∈ out)); [done|]. assert (false = true) by (by apply Hb). done. }
    apply Hb. rewrite !andb_true_iff, !negb_true_iff. unfold contains. rewrite !bool_decide_eq_false. tauto. }
  destruct (H [] ltac:(constructor)) as [H1 H2]. split; [done|]. intros u. rewrite H2. split; [intros [Hu|?]; [by apply not_elem_of_nil in Hu|done]|by right].
Qed.

(** [formatSession] *)
Definition formatSession (d : Z) : bytes :=
  if Z.rem d (60 * minute) =? 0 then itoa (Z.quot d (60 * minute)) ++ lit "h" else itoa (Z.quot d minute) ++ lit "m".

(** * One change *)

(** [oidcEdit] *)
Record oidcEdit := mkOidcEdit {
  oe_Op : bytes; oe_Name : bytes; oe_NewName : bytes; oe_Issuer : bytes; oe_ClientID : bytes;
  oe_Credential : bytes; oe_Secret : bytes; oe_CertPEM : bytes; oe_KeyPEM : bytes;
  oe_Scopes : list bytes; oe_Session : bytes; oe_MFAAcr : list bytes; oe_CAFile : bytes;
  oe_UsernameClaim : bytes; oe_GroupsClaim : bytes; oe_RolesClaim : bytes;
}.

(** [oidcEditResult], its notes for the log left out. *)
Record oidcEditResult := mkResult { er_certPEM : bytes; er_cleanup : list bytes; er_obsolete : list bytes }.
Definition no_result : oidcEditResult := mkResult [] [] [].

(** Files by their path. *)
Abbreviation files := (gmap bytes bytes).

(** How the write of a file goes: the folder is made, [writeFileAtomic] ends,
    the mode is set. *)
Record writing := mkWriting { wi_dir : bool; wi_wrote : wrote; wi_mode : bool }.
(** What a change hears: the time as a stamp, the certificate and key made, how
    its writes go. *)
Record calls := mkCalls { ca_stamp : bytes; ca_cert : res err (bytes * bytes); ca_first : writing; ca_second : writing }.

(** [filepath.Dir] *)
Definition file_dir (p : bytes) : bytes := path_clean (match last_index_byte p slash with Some i => take (S i) p | None => [] end).

(** [fileSlug] *)
Definition fileSlug (name : bytes) : bytes :=
  trim ((fun b => if is_lower b || is_digit b then b else ch "-") <$> to_lower name) (lit "-").

(** [oidcItem]: where the item is, in the root and in the list. *)
Definition oidcItem (root : node) (name : bytes) : option (nat * nat) :=
  match list_at root (lit "oidc") with
  | Some (i, l) => (fun e => (i, e.1)) <$> find_at (named (lit "name") name) (n_Content l)
  | None => None
  end.

(** [oidcRefs] *)
Definition oidcRefs : node → bytes → list node := refs_in (lit "oidc").

Definition fileKeys : list bytes := texts ["client_secret_file"; "client_certificate"; "client_key"]%string.
Definition credentialKeys : list bytes := lit "client_secret" :: fileKeys.

(** The keys an item has of a list, with their texts. *)
Definition keys_of (keys : list bytes) (item : node) : list (bytes * bytes) :=
  keys ≫= fun k => from_option (fun v => [(k, n_Value v)]) [] (mapGet item k).

(** The files an item uses that are in the folder: [old]. *)
Definition old_files (dir : bytes) (item : node) : list bytes :=
  filter (fun p => file_dir (path_clean p) = path_clean dir) (snd <$> keys_of fileKeys item).

(** [write]: the files, those to remove if the change is not saved, and how it
    went. The temporary file of a write that fails is left out. *)
Definition write_file (w : writing) (path data : bytes) (fs : files) (cleanup : list bytes) : files * list bytes * option err :=
  if negb (wi_dir w) then (fs, cleanup, Some "mkdir"%string)
  else match wi_wrote w with
       | NotWritten => (fs, cleanup, Some "write"%string)
       | WroteUnsure => (<[path := data]> fs, cleanup, Some "sync"%string)
       | Wrote => (<[path := data]> fs, cleanup ++ [path], if wi_mode w then None else Some "chmod"%string)
       end.
Definition key_then_cert (c : calls) (base key cert : bytes) (fs : files) : files * list bytes * option err :=
  match write_file (ca_first c) (base ++ lit ".key") key fs [] with
  | (fs, cleanup, None) => write_file (ca_second c) (base ++ lit ".crt") cert fs cleanup
  | r => r
  end.
Definition cert_keys (base : bytes) : list (bytes * bytes) :=
  [(lit "client_certificate", base ++ lit ".crt"); (lit "client_key", base ++ lit ".key")].

(** The credential: the keys it is written as, and a certificate made. *)
Definition credential (item : option node) (e : oidcEdit) (base : bytes) (c : calls) (fs : files) :
    files * list bytes * res err (list (bytes * bytes) * bytes) :=
  let how := oe_Credential e in
  let after '(fs, cleanup, failed) keys pem := (fs, cleanup, match failed with Some m => Err m | None => Ok (keys, pem) end) in
  if says how "keep" || says how "" then
    match item with
    | None => (fs, [], Err "choose how the proxy authenticates: a client secret or a certificate"%string)
    | Some item => (fs, [], Ok (keys_of credentialKeys item, []))
    end
  else if says how "secret" then
    if bool_decide (oe_Secret e = []) then (fs, [], Err "the client secret must not be empty"%string)
    else after (write_file (ca_first c) (base ++ lit ".secret") (oe_Secret e ++ [10]) fs []) [(lit "client_secret_file", base ++ lit ".secret")] []
  else if says how "generate" then
    match ca_cert c with
    | Err m => (fs, [], Err m)
    | Ok (cert, key) => after (key_then_cert c base key cert fs) (cert_keys base) cert
    end
  else if says how "upload" then
    if negb (contains_str (oe_CertPEM e) (lit "BEGIN CERTIFICATE")) || negb (contains_str (oe_KeyPEM e) (lit "PRIVATE KEY"))
    then (fs, [], Err "paste the certificate and its private key, PEM"%string)
    else after (key_then_cert c base (trim_space (oe_KeyPEM e) ++ [10]) (trim_space (oe_CertPEM e) ++ [10]) fs) (cert_keys base) []
  else (fs, [], Err "unknown credential"%string).

(** [set] and [list]: a key with its value, without one nothing. *)
Definition set_value (k v : bytes) : list (bytes * node) :=
  let v := trim_space v in if bool_decide (v = []) then [] else [(k, scalar v)].
Definition list_value (k : bytes) (vs : list bytes) : list (bytes * node) :=
  let vs := filter (fun v => v <> []) (trim_space <$> vs) in
  if bool_decide (vs = []) then [] else [(k, seq (scalar <$> vs))].

(** The item, in the order its keys are written. *)
Definition oidc_values (e : oidcEdit) (name : bytes) (cred : list (bytes * bytes)) : list (bytes * node) :=
  set_value (lit "name") name ++ set_value (lit "issuer") (oe_Issuer e) ++ set_value (lit "client_id") (oe_ClientID e) ++
  (cred ≫= fun kv => set_value kv.1 kv.2) ++
  (if bool_decide (oe_Scopes e = oidcDefaultScopes) then [] else list_value (lit "scopes") (oe_Scopes e)) ++
  (let s := trim_space (oe_Session e) in
   if negb (bool_decide (s = [])) && negb (bool_decide (s = formatSession oidcDefaultSession)) then set_value (lit "session") s else []) ++
  list_value (lit "mfa_acr_values") (oe_MFAAcr e) ++ set_value (lit "ca_file") (oe_CAFile e) ++ set_value (lit "username_claim") (oe_UsernameClaim e) ++
  (let g := trim_space (oe_GroupsClaim e) in if says g "groups" then [] else set_value (lit "groups_claim") g) ++
  (let r := trim_space (oe_RolesClaim e) in if says r "roles" then [] else set_value (lit "roles_claim") r).
Definition oidc_node (e : oidcEdit) (name : bytes) (cred : list (bytes * bytes)) : node :=
  mapping (oidc_values e name cred ≫= fun kv => [scalar kv.1; kv.2]).

(** The item gone, and the section when it was the last. *)
Definition delete_item (root : node) (i j : nat) : node :=
  let root := change [i] (delete_from j) root in
  match n_Content root !! i ≫= head ∘ n_Content with
  | Some _ => root
  | None => with_content root (take (i - 1) (n_Content root) ++ drop (i + 1) (n_Content root))
  end.
Definition add_item (root m : node) : node := let '(root, i) := section root (lit "oidc") in change [i] (append_to [m]) root.

Section Edits.
Context (encode : node → bytes) (yaml_parse : bytes → res err (option node)). (* see Sections *)
Context (dir : bytes).                                       (* the folder of the secrets *)

(** The names of the item, and its name from now on. *)
Definition old_name (e : oidcEdit) : bytes := trim_space (oe_Name e).
Definition renames (e : oidcEdit) : bool :=
  let new := trim_space (oe_NewName e) in says (oe_Op e) "update" && negb (bool_decide (new = [])) && negb (bool_decide (new = old_name e)).
Definition new_name (e : oidcEdit) : bytes := if renames e then trim_space (oe_NewName e) else old_name e.

(** [base], of the item's name *)
Definition base_path (name : bytes) (c : calls) : bytes := path_join dir (fileSlug name ++ lit "-" ++ ca_stamp c).

(** [editOIDC]'s change of the tree and of the files *)
Definition edit_oidc (root : node) (e : oidcEdit) (c : calls) (fs : files) : files * oidcEditResult * res err node :=
  let refuse m := (fs, no_result, Err m) in
  let was := old_name e in
  let at_ := oidcItem root was in
  if says (oe_Op e) "add" && bool_decide (is_Some at_) then refuse "there is already such an oidc item"%string
  else if negb (says (oe_Op e) "add") && negb (bool_decide (is_Some at_)) then refuse "there is no such oidc item any more"%string
  else
    let item := at_ ≫= fun p => sub [p.1; p.2] root in
    let old := from_option (old_files dir) [] item in
    if says (oe_Op e) "delete" then
      if negb (bool_decide (oidcRefs root was = [])) then (fs, mkResult [] [] old, Err "oidc is used by serve entries: change them first"%string)
      else match at_ with
           | Some (i, j) => (fs, mkResult [] [] old, Ok (delete_item root i j))
           | None => refuse "nil pointer"%string
           end
    else
      let name := new_name e in
      if renames e && bool_decide (is_Some (oidcItem root name)) then refuse "there is already such an oidc item"%string
      else if negb (listenerName name) then refuse "the name must be 1-64 letters, digits, spaces"%string
      else if bool_decide (trim_space (oe_ClientID e) = []) then refuse "the client id is required"%string
      else
        match credential item e (base_path name c) c fs with
        | (fs, cleanup, Err m) => (fs, mkResult [] cleanup [], Err m)
        | (fs, cleanup, Ok (cred, pem)) =>
            let m := oidc_node e name cred in
            (fs, mkResult pem cleanup (filter (fun f => f ∉ cred.*2) old),
             Ok (match at_ with
                 | None => add_item root m
                 | Some (i, j) =>
                     let root := change [i; j] (fun _ => m) root in
                     if bool_decide (name = was) then root else rename_refs_in (lit "oidc") was name root
                 end))
        end.

(** [editOIDC] *)
Definition editOIDC (text : bytes) (e : oidcEdit) (c : calls) (fs : files) : files * oidcEditResult * res err bytes :=
  match loadDoc yaml_parse text with
  | Err m => (fs, no_result, Err m)
  | Ok root =>
      match edit_oidc root e c fs with
      | (fs, r, Ok root) => (fs, r, Ok (encode root))
      | (fs, r, Err m) => (fs, r, Err m)
      end
  end.

(** [undo], [forget]: [os.Remove] of each. *)
Definition remove_all (paths : list bytes) (fs : files) : files := foldl (fun fs p => delete p fs) fs paths.
Definition undo (r : oidcEditResult) : files → files := remove_all (er_cleanup r).
Definition forget (r : oidcEditResult) : files → files := remove_all (er_obsolete r).

(** * A save *)

Context (fileHash : bytes → bytes).                          (* see Saves *)
Context (loadConfig : files → bytes → res err Config).       (* loadConfig: LoadConfig, which reads the files *)
Context (certs_Check : Config → res err unit).               (* see Saves *)

(** The file, its modification time, its backups by name, the other files. *)
Record disk := mkDisk { dk_text : bytes; dk_mtime : Z; dk_backups : gmap bytes bytes; dk_files : files }.
(** What a save hears: whether the file could be read, what its edit hears, how
    the writes of the backup and of the file end, the backup's name, the new
    modification time, whether it could be read. *)
Record hears := mkHears { he_read : bool; he_calls : calls; he_backup : wrote; he_write : wrote; he_name : bytes; he_mtime : Z; he_stat : bool }.

(** [commitWith] *)
Definition commitWith (o : hears) (full : bytes) (d : disk) : disk * answered :=
  let 'mkDisk onDisk mtime backups fs := d in
  if bool_decide (full = onDisk) then (d, Unchanged)
  else
    let kept := <[he_name o := onDisk]> backups in
    match he_backup o with
    | NotWritten => (d, Trouble)
    | WroteUnsure => (mkDisk onDisk mtime kept fs, Trouble)
    | Wrote =>
        match he_write o with
        | NotWritten => (mkDisk onDisk mtime kept fs, Trouble)
        | WroteUnsure => (mkDisk full (he_mtime o) kept fs, Trouble)
        | Wrote => (mkDisk full (he_mtime o) (pruneBackups kept) fs, if he_stat o then Saved else Trouble)
        end
    end.

(** [oidcSave], all of it under [configFileMu]. *)
Definition oidcSave (base : fileVersion) (e : oidcEdit) (o : hears) (d : disk) : disk * answered :=
  let 'mkDisk onDisk mtime backups fs := d in
  if negb (he_read o) then (d, Trouble)
  else if negb (bool_decide (base = versionOf fileHash mtime onDisk)) then (d, Changed)
  else
    match editOIDC onDisk e (he_calls o) fs with
    | (fs, r, Err m) => (mkDisk onDisk mtime backups (undo r fs), Refused m)
    | (fs, r, Ok full) =>
        match Saves.check (loadConfig fs) certs_Check full with
        | Err m => (mkDisk onDisk mtime backups (undo r fs), Refused m)
        | Ok _ => commitWith o full (mkDisk onDisk mtime backups (forget r fs))
        end
    end.
End Edits.

(** * The files of a change *)

(** The paths a change may write, and what a saved one has written. *)
Definition new_paths (base : bytes) : list bytes := [base ++ lit ".secret"; base ++ lit ".key"; base ++ lit ".crt"].
Definition written_files (e : oidcEdit) (base : bytes) (c : calls) : list (bytes * bytes) :=
  let how := oe_Credential e in
  if says how "secret" then [(base ++ lit ".secret", oe_Secret e ++ [10])]
  else if says how "generate" then
    match ca_cert c with Ok (cert, key) => [(base ++ lit ".key", key); (base ++ lit ".crt", cert)] | Err _ => [] end
  else if says how "upload" then [(base ++ lit ".key", trim_space (oe_KeyPEM e) ++ [10]); (base ++ lit ".crt", trim_space (oe_CertPEM e) ++ [10])]
  else [].

(** The writes end known: no file is there whose folder could not be
    synchronised. *)
Definition sure (c : calls) : Prop := wi_wrote (ca_first c) ≠ WroteUnsure ∧ wi_wrote (ca_second c) ≠ WroteUnsure.

Lemma new_paths_differ base : NoDup (new_paths base).
Proof. unfold new_paths. repeat constructor; rewrite ?elem_of_cons, ?not_elem_of_cons; set_unfold; intros H; repeat destruct H as [H|H]; try done; apply app_inv_head in H; discriminate. Qed.

(** What a list of writes has done so far: [ws] are there and are to be removed
    if the change is not saved, the rest is as it was. *)
Definition wrote_only (known : Prop) (fs : files) (ws : list (bytes * bytes)) (fs' : files) (cleanup paths : list bytes) : Prop :=
  (∀ p, p ∉ paths → fs' !! p = fs !! p) ∧ cleanup = ws.*1 ∧ (ws.*1 ⊆ paths) ∧ (∀ p t, (p, t) ∈ ws → fs' !! p = Some t) ∧
  (known → ∀ p, p ∉ ws.*1 → fs' !! p = fs !! p).

Lemma write_file_only known w p t fs0 ws fs cleanup paths fs' cleanup' failed :
  wrote_only known fs0 ws fs cleanup paths → p ∈ paths → p ∉ ws.*1 → (known → wi_wrote w ≠ WroteUnsure) →
  write_file w p t fs cleanup = (fs', cleanup', failed) →
  ∃ ws', wrote_only known fs0 ws' fs' cleanup' paths ∧ (ws' = ws ∨ ws' = ws ++ [(p, t)]) ∧ (failed = None → ws' = ws ++ [(p, t)]).
Proof.
  intros (H1 & -> & H3 & H4 & H5) Hp Hn Hk. unfold write_file. destruct (wi_dir w); cbn [negb]; [|intros [= <- <- <-]; exists ws; by split_and!; [split_and!|left|]].
  assert (∀ q, q ∉ paths → <[p:=t]> fs !! q = fs0 !! q) as H1' by (intros q Hq; rewrite lookup_insert_ne by (by intros <-); by apply H1).
  destruct (wi_wrote w) eqn:Ew; intros [= <- <- <-].
  - exists (ws ++ [(p, t)]). split_and!; [|by right|done]. unfold wrote_only. rewrite fmap_app. cbn. split_and!; [done..| | |].
    + set_solver.
    + intros q x [Hq|[= -> ->]%list_elem_of_singleton]%elem_of_app; [|by rewrite lookup_insert_eq].
      rewrite lookup_insert_ne; [by apply H4|]. intros <-. apply Hn, list_elem_of_fmap. by exists (p, x).
    + intros Hkn q Hq. rewrite lookup_insert_ne by set_solver. apply H5; set_solver.
  - exists ws. split_and!; [by split_and!|by left|done].
  - exists ws. split_and!; [|by left|done]. split_and!; [done..| |].
    + intros q x Hq. rewrite lookup_insert_ne; [by apply H4|]. intros <-. apply Hn, list_elem_of_fmap. by exists (p, x).
    + intros Hkn. by destruct (Hk Hkn).
Qed.

Lemma credential_wrote item e base c fs fs' cleanup r :
  credential item e base c fs = (fs', cleanup, r) →
  ∃ ws, wrote_only (sure c) fs ws fs' cleanup (new_paths base) ∧ (is_ok r = true → ws = written_files e base c).
Proof.
  assert (wrote_only (sure c) fs [] fs [] (new_paths base)) as H0 by (split_and!; [done..|set_solver|by intros ? ? ?%not_elem_of_nil|done]).
  assert (∀ key cert fs' cleanup failed, key_then_cert c base key cert fs = (fs', cleanup, failed) →
    ∃ ws, wrote_only (sure c) fs ws fs' cleanup (new_paths base) ∧ (failed = None → ws = [(base ++ lit ".key", key); (base ++ lit ".crt", cert)])) as Hboth.
  { intros key cert fs1 cl1 failed. unfold key_then_cert. destruct (write_file (ca_first c) _ _ _ _) as [[fs2 cl2] f2] eqn:E1.
    eapply write_file_only in E1 as (ws & Hw & Hws & Hok); [|exact H0|unfold new_paths; set_solver|set_solver|by intros [? _]].
    destruct f2; [intros [= <- <- <-]; by exists ws|]. rewrite (Hok eq_refl) in Hw. intros E2.
    eapply write_file_only in E2 as (ws2 & Hw2 & _ & Hok2); [|exact Hw|unfold new_paths; set_solver| |by intros [_ ?]].
    - exists ws2. split; [done|]. intros Hf. by rewrite (Hok2 Hf).
    - cbn. intros Heq%list_elem_of_singleton. apply app_inv_head in Heq. discriminate. }
  unfold credential, written_files. destruct (says (oe_Credential e) "keep" || says (oe_Credential e) "") eqn:Ek.
  { destruct item; intros [= <- <- <-]; exists []; (split; [done|]); [|done]. intros _. unfold says in *.
    apply orb_true_iff in Ek as [Ek|Ek]; apply bool_decide_eq_true in Ek as ->; done. }
  destruct (says (oe_Credential e) "secret").
  { destruct (bool_decide _); [intros [= <- <- <-]; exists []; by split|].
    destruct (write_file _ _ _ _ _) as [[fs2 cl2] f2] eqn:E1. intros [= <- <- <-].
    eapply write_file_only in E1 as (ws & Hw & Hws & Hok); [|exact H0|unfold new_paths; set_solver|set_solver|by intros [? _]].
    exists ws. split; [done|]. destruct f2; [done|]. intros _. by rewrite (Hok eq_refl). }
  destruct (says (oe_Credential e) "generate").
  { destruct (ca_cert c) as [[cert key]|m]; [|intros [= <- <- <-]; exists []; by split].
    destruct (key_then_cert _ _ _ _ _) as [[fs2 cl2] f2] eqn:E1. intros [= <- <- <-]. destruct (Hboth _ _ _ _ _ E1) as (ws & Hw & Hok).
    exists ws. split; [done|]. destruct f2; [done|]. intros _. by apply Hok. }
  destruct (says (oe_Credential e) "upload"); [|intros [= <- <- <-]; exists []; by split].
  destruct (negb _ || negb _); [intros [= <- <- <-]; exists []; by split|].
  destruct (key_then_cert _ _ _ _ _) as [[fs2 cl2] f2] eqn:E1. intros [= <- <- <-]. destruct (Hboth _ _ _ _ _ E1) as (ws & Hw & Hok).
  exists ws. split; [done|]. destruct f2; [done|]. intros _. by apply Hok.
Qed.

Lemma credential_keys item e base c fs fs' cleanup cred pem :
  credential item e base c fs = (fs', cleanup, Ok (cred, pem)) →
  ((written_files e base c).*1 ⊆ cred.*2) ∧
  if says (oe_Credential e) "keep" || says (oe_Credential e) "" then ∃ it, item = Some it ∧ cred = keys_of credentialKeys it
  else if says (oe_Credential e) "secret" then cred = [(lit "client_secret_file", base ++ lit ".secret")] else cred = cert_keys base.
Proof.
  unfold credential, written_files. destruct (says (oe_Credential e) "keep" || says (oe_Credential e) "") eqn:Ek.
  { destruct item as [it|]; [|done]. intros [= <- <- <- <-]. split; [|by exists it]. unfold says in *.
    apply orb_true_iff in Ek as [Ek|Ek]; apply bool_decide_eq_true in Ek as ->; cbn; set_solver. }
  destruct (says (oe_Credential e) "secret").
  { destruct (bool_decide _); [done|]. destruct (write_file _ _ _ _ _) as [[? ?] [|]]; intros [= <- <- <- <-]. by split. }
  destruct (says (oe_Credential e) "generate").
  { destruct (ca_cert c) as [[cert key]|m]; [|done]. destruct (key_then_cert _ _ _ _ _) as [[? ?] [|]]; intros [= <- <- <- <-]. split; [|done]. cbn. set_solver. }
  destruct (says (oe_Credential e) "upload"); [|done]. destruct (negb _ || negb _); [done|].
  destruct (key_then_cert _ _ _ _ _) as [[? ?] [|]]; intros [= <- <- <- <-]. split; [|done]. cbn. set_solver.
Qed.

(** The item a change is about, as it was. *)
Definition item_of (root : node) (e : oidcEdit) (item : node) : Prop :=
  ∃ i j, oidcItem root (old_name e) = Some (i, j) ∧ sub [i; j] root = Some item.

Lemma edit_oidc_files dir root e c fs fs' r a :
  edit_oidc dir root e c fs = (fs', r, a) →
  let base := base_path dir (new_name e) c in
  ∃ ws, wrote_only (sure c) fs ws fs' (er_cleanup r) (new_paths base) ∧
    (∀ p, p ∈ er_obsolete r → ∃ item, item_of root e item ∧ p ∈ old_files dir item) ∧
    (is_ok a = true → says (oe_Op e) "delete" = false → ws = written_files e base c ∧ ∀ p, p ∈ ws.*1 → p ∉ er_obsolete r).
Proof.
  set (base := base_path dir (new_name e) c).
  assert (wrote_only (sure c) fs [] fs [] (new_paths base)) as H0 by (split_and!; [done..|set_solver|by intros ? ? ?%not_elem_of_nil|done]).
  assert (∀ p, p ∈ from_option (old_files dir) [] (oidcItem root (old_name e) ≫= λ q, sub [q.1; q.2] root) → ∃ item, item_of root e item ∧ p ∈ old_files dir item) as Hold.
  { intros p. destruct (oidcItem root (old_name e)) as [[i j]|] eqn:Ei; [|by intros ?%not_elem_of_nil]. cbn [mbind option_bind fst snd].
    destruct (sub [i; j] root) as [item|] eqn:Es; [|by intros ?%not_elem_of_nil]. intros Hp. exists item. split; [|done]. by exists i, j. }
  assert (∀ m : err, (fs, no_result, Err m) = (fs', r, a) → ∃ ws, wrote_only (sure c) fs ws fs' (er_cleanup r) (new_paths base) ∧
    (∀ p, p ∈ er_obsolete r → ∃ item, item_of root e item ∧ p ∈ old_files dir item) ∧
    (is_ok a = true → says (oe_Op e) "delete" = false → ws = written_files e base c ∧ ∀ p, p ∈ ws.*1 → p ∉ er_obsolete r)) as Href.
  { intros m [= <- <- <-]. exists []. split_and!; [done|by intros ? ?%not_elem_of_nil|done]. }
  unfold edit_oidc. destruct (says (oe_Op e) "add" && _); [by apply Href|]. destruct (negb (says (oe_Op e) "add") && _); [by apply Href|].
  destruct (says (oe_Op e) "delete") eqn:Ed.
  { destruct (negb _); [intros [= <- <- <-]; by exists []|]. destruct (oidcItem root (old_name e)) as [[i j]|]; [|by apply Href]. intros [= <- <- <-]. by exists []. }
  destruct (renames e && _); [by apply Href|]. destruct (negb (listenerName _)); [by apply Href|]. destruct (bool_decide _); [by apply Href|].
  destruct (credential _ _ _ _ _) as [[fs1 cleanup] [[cred pem]|m]] eqn:Ec; intros [= <- <- <-];
    destruct (credential_wrote _ _ _ _ _ _ _ _ Ec) as (ws & Hw & Hws); exists ws; cbn [er_cleanup er_obsolete]; (split; [done|]).
  - split; [intros p [_ Hp]%list_elem_of_filter; by apply Hold|]. intros _ _. rewrite (Hws eq_refl). split; [done|].
    intros p Hp [Hn _]%list_elem_of_filter. apply Hn. by apply (proj1 (credential_keys _ _ _ _ _ _ _ _ _ Ec)).
  - split; [by intros ? ?%not_elem_of_nil|done].
Qed.

(** The secret is not seen by the file: what it is written as does not depend
    on it. *)
Definition with_secret (e : oidcEdit) (s : bytes) : oidcEdit :=
  match e with
  | mkOidcEdit op name new issuer client cred _ cert key scopes session mfa ca user groups roles =>
      mkOidcEdit op name new issuer client cred s cert key scopes session mfa ca user groups roles
  end.
Lemma credential_unseen item e s base c fs : oe_Secret e ≠ [] → s ≠ [] →
  (credential item (with_secret e s) base c fs).1.2 = (credential item e base c fs).1.2 ∧ (credential item (with_secret e s) base c fs).2 = (credential item e base c fs).2.
Proof.
  destruct e. cbn. intros H1 H2. unfold credential. cbn. rewrite !bool_decide_false by done.
  repeat case_match; try (by split); unfold write_file in *; repeat case_match; simplify_eq; by split.
Qed.
Lemma edit_oidc_unseen dir root e s c fs : oe_Secret e ≠ [] → s ≠ [] → (edit_oidc dir root (with_secret e s) c fs).2 = (edit_oidc dir root e c fs).2.
Proof.
  intros H1 H2. unfold edit_oidc.
  assert (old_name (with_secret e s) = old_name e ∧ new_name (with_secret e s) = new_name e ∧ renames (with_secret e s) = renames e ∧ oe_Op (with_secret e s) = oe_Op e ∧
    oe_ClientID (with_secret e s) = oe_ClientID e ∧ ∀ name cred, oidc_node (with_secret e s) name cred = oidc_node e name cred) as (-> & -> & -> & -> & -> & Hn) by (by destruct e).
  set (item := _ ≫= _). destruct (credential_unseen item e s (base_path dir (new_name e) c) c fs H1 H2) as [E1 E2].
  repeat (case_match; try done); simplify_eq/=; by rewrite ?Hn.
Qed.

Lemma lookup_remove_all ps fs p : remove_all ps fs !! p = if bool_decide (p ∈ ps) then None else fs !! p.
Proof.
  unfold remove_all. revert fs. induction ps as [|q ps IH]; intros fs; [by rewrite bool_decide_false by apply not_elem_of_nil|]. cbn [foldl]. rewrite IH.
  destruct (decide (p = q)) as [->|Hn].
  - rewrite lookup_delete_eq. rewrite (bool_decide_true (q ∈ q :: ps)) by (by left). by destruct (bool_decide _).
  - rewrite lookup_delete_ne by done. rewrite (bool_decide_ext (p ∈ q :: ps) (p ∈ ps)); [done|]. set_solver.
Qed.

(** * The items of the file *)

Definition oidc_items (root : node) : list node := seq_items root (lit "oidc").

Lemma oidcItem_spec root name : match oidcItem root name with
  | Some (i, j) => ∃ v l1 m l2, list_at root (lit "oidc") = Some (i, v) ∧ oidc_items root = l1 ++ m :: l2 ∧ n_Content v = l1 ++ m :: l2 ∧ j = length l1 ∧ called (lit "name") name m
  | None => Forall (fun m => ¬ called (lit "name") name m) (oidc_items root)
  end.
Proof.
  unfold oidcItem, oidc_items, seq_items. destruct (list_at root _) as [[i v]|] eqn:Hv; [|constructor]. cbn [fmap option_fmap option_map snd contents].
  pose proof (find_named (lit "name") name (n_Content v)) as H. destruct (find_at _ _) as [[j []]|]; [|done].
  destruct H as (l1 & m & l2 & Hc & -> & Hn). by exists v, l1, m, l2.
Qed.

(** An item replaced, added, gone. *)
Lemma replace_item root i v l1 m l2 m' : list_at root (lit "oidc") = Some (i, v) → n_Content v = l1 ++ m :: l2 →
  let root' := change [i; length l1] (fun _ => m') root in
  oidc_items root' = l1 ++ m' :: l2 ∧ ∀ k, k ≠ lit "oidc" → mapGet root' k = mapGet root k.
Proof.
  intros Hv Hc root'. destruct (group_change (lit "oidc") root i v (length l1) m (fun _ => m') Hv) as (l1' & l2' & Hs & Hl & Hs' & Ho & _).
  - rewrite Hc, lookup_app_r, Nat.sub_diag by lia. done.
  - split; [|done]. unfold oidc_items, root'. etransitivity; [exact Hs'|]. rewrite (seq_items_list _ _ _ _ Hv), Hc in Hs. by apply app_inj_1 in Hs as [-> [= ->]].
Qed.
Lemma add_item_spec root m : evenly root →
  oidc_items (add_item root m) = oidc_items root ++ [m] ∧ ∀ k, k ≠ lit "oidc" → mapGet (add_item root m) k = mapGet root k.
Proof.
  intros He. unfold add_item. destruct (section root (lit "oidc")) as [root1 i] eqn:Es.
  destruct (section_spec _ _ _ _ He Es) as ((v & Hv & Hc) & Ho & _).
  destruct (section_change _ root1 i v (append_to [m]) Hv) as (H1 & H2 & _); [by destruct v; apply list_at_spec in Hv as (_ & _ & ?)|].
  unfold oidc_items. rewrite H1, content_append, Hc. split; [done|]. intros k Hk. by rewrite H2, Ho.
Qed.
Lemma delete_item_spec root i v l1 m l2 : keyed root → list_at root (lit "oidc") = Some (i, v) → n_Content v = l1 ++ m :: l2 →
  let root' := delete_item root i (length l1) in
  oidc_items root' = l1 ++ l2 ∧ ∀ k, k ≠ lit "oidc" → mapGet root' k = mapGet root k.
Proof.
  intros (ps & Hps & Hnd) Hv Hc root'. pose proof Hv as (Hi & Hg & Hkd)%list_at_spec.
  destruct (section_change _ root i v (delete_from (length l1)) Hv) as (H1 & H2 & _); [by destruct v|].
  assert (n_Content (delete_from (length l1) v) = l1 ++ l2) as Hd.
  { destruct v; cbn in *. subst content. by rewrite delete_middle. }
  rewrite Hd in H1. unfold root', delete_item. set (root1 := change [i] (delete_from (length l1)) root) in *.
  assert (n_Content root1 !! i = Some (delete_from (length l1) v)) as Hi1.
  { destruct (mapGet_at _ _ _ Hi) as (v' & Hv' & Hg'). rewrite Hg in Hg'. injection Hg' as <-. unfold root1. by rewrite content_change1, list_lookup_alter_eq, Hv'. }
  rewrite Hi1. cbn [mbind option_bind compose]. rewrite Hd. destruct (l1 ++ l2) as [|x l] eqn:El; [|by split].
  cbn [head]. destruct (value_at_flat ps (lit "oidc")) as [[Hn _]|(a & e & b & -> & Hke & Hna & Hat)].
  { unfold map_at in Hi. by rewrite Hps, Hn in Hi. }
  unfold map_at in Hi. rewrite Hps, Hat in Hi. injection Hi as <-.
  assert (n_Content root1 = flat (a ++ (e.1, delete_from (length l1) v) :: b)) as Hc1.
  { unfold root1. rewrite content_change1, Hps, !flat_app. rewrite alter_app_r_alt by lia. f_equal. replace (S _ - _)%nat with 1%nat by lia. cbn.
    f_equal. f_equal. destruct (mapGet_at _ _ _ (eq_trans (f_equal (fun c => value_at c (lit "oidc")) Hps) Hat)) as (v' & Hv' & Hg'). rewrite Hg in Hg'. injection Hg' as <-.
    rewrite Hps, flat_app, lookup_app_r in Hv' by lia. replace (S _ - _)%nat with 1%nat in Hv' by lia. by injection Hv' as ->. }
  rewrite Hc1, !flat_app. replace (S (length (flat a)) - 1)%nat with (length (flat a)) by lia. rewrite take_app_length.
  replace (S (length (flat a)) + 1)%nat with (length (flat a) + 2)%nat by lia. rewrite <- drop_drop, drop_app_length. change (drop 2 (flat ((e.1, delete_from (length l1) v) :: b))) with (flat b).
  rewrite key_texts_app in Hnd. apply NoDup_app in Hnd as (_ & Hdis & Hndb). change (key_texts (e :: b)) with (n_Value e.1 :: key_texts b) in *. rewrite Hke in *.
  apply NoDup_cons in Hndb as [Hnb _].
  assert (∀ k, mapGet (with_content root1 (flat a ++ flat b)) k = value_of (a ++ b) k) as Hget by (intros k; apply mapGet_flat; by rewrite content_with, flat_app).
  split.
  - unfold oidc_items, seq_items, list_at. assert (mapGet (with_content root1 (flat a ++ flat b)) (lit "oidc") = None) as Hno.
    { rewrite Hget. apply value_of_none. rewrite key_texts_app. by apply not_elem_of_app. }
    by rewrite (proj1 (mapGet_none _ _) Hno).
  - intros k Hk. rewrite Hget, (mapGet_flat root _ k Hps). rewrite <- (value_of_others [lit "oidc"] (a ++ b)), <- (value_of_others [lit "oidc"] (a ++ e :: b)) by set_solver.
    f_equal. unfold others. rewrite !filter_app, filter_cons_False; [done|]. rewrite Hke. set_solver.
Qed.

Section Saves.
Context (encode : node → bytes) (yaml_parse : bytes → res err (option node)) (dir : bytes).
Context (fileHash : bytes → bytes) (loadConfig : files → bytes → res err Config) (certs_Check : Config → res err unit).

Lemma commit_files o full d d' a : commitWith o full d = (d', a) → dk_files d' = dk_files d ∧ (dk_text d' = dk_text d ∨ dk_text d' = full) ∧ a ≠ Changed ∧ (∀ m, a ≠ Refused m) ∧ (a = Saved ∨ a = Unchanged → dk_text d' = full).
Proof.
  destruct d as [text mtime backups fs]. unfold commitWith. repeat case_match; intros [= <- <-]; cbn; bool_prop; split_and!; auto; try done; by intros [?|?].
Qed.

Lemma editOIDC_files text e c fs fs' r a : editOIDC encode yaml_parse dir text e c fs = (fs', r, a) →
  let here := base_path dir (new_name e) c in
  ∃ ws, wrote_only (sure c) fs ws fs' (er_cleanup r) (new_paths here) ∧
    (∀ p, p ∈ er_obsolete r → ∃ root item, loadDoc yaml_parse text = Ok root ∧ item_of root e item ∧ p ∈ old_files dir item) ∧
    (is_ok a = true → says (oe_Op e) "delete" = false → ws = written_files e here c ∧ ∀ p, p ∈ ws.*1 → p ∉ er_obsolete r).
Proof.
  unfold editOIDC. destruct (loadDoc yaml_parse text) as [root|m].
  - destruct (edit_oidc dir root e c fs) as [[fs1 r1] a1] eqn:E. destruct (edit_oidc_files _ _ _ _ _ _ _ _ E) as (ws & H1 & H2 & H3).
    intros H. exists ws. destruct a1; injection H as <- <- <-; (split_and!; [done| |done]); intros p (item & Hi & Hp)%H2; by exists root, item.
  - intros [= <- <- <-]. exists []. split_and!; [|by intros ? ?%not_elem_of_nil|done].
    split_and!; [done..|set_solver|by intros ? ? ?%not_elem_of_nil|done].
Qed.
(** A change undone: its files are gone, and the rest is as it was. *)
Lemma undone known fs ws fs' cleanup paths : wrote_only known fs ws fs' cleanup paths →
  (∀ p, p ∉ paths → remove_all cleanup fs' !! p = fs !! p) ∧ (known → (∀ p, p ∈ paths → fs !! p = None) → remove_all cleanup fs' = fs).
Proof.
  intros (H1 & -> & H3 & _ & H5). split.
  - intros p Hp. rewrite lookup_remove_all, bool_decide_false by set_solver. by apply H1.
  - intros Hk Hf. apply map_eq. intros p. rewrite lookup_remove_all. case_bool_decide as Hp; [|by apply H5]. symmetry. apply Hf, H3, Hp.
Qed.

(** C38: A change to an OpenID Connect item, whatever the disk does to it: the
    configuration file is as it was or, if it was the version the page had,
    a text that loads; no file is touched but those the change names after the
    item and the moment, and those in the folder of secrets that the item
    named before, which may go; a change refused, or come too late, leaves
    the file, its backups and (its names being new) every other file as they
    were; after one that is saved, what it wrote is there; and the text does
    not depend on the secret. *)
Theorem oidc_files base e o d d' a :
  oidcSave encode yaml_parse dir fileHash loadConfig certs_Check base e o d = (d', a) →
  let c := he_calls o in
  let here := base_path dir (new_name e) c in
  (dk_text d' = dk_text d ∨
   base = versionOf fileHash (dk_mtime d) (dk_text d) ∧ ∃ fs, is_ok (Saves.check (loadConfig fs) certs_Check (dk_text d')) = true) ∧
  (∀ p, p ∉ new_paths here → dk_files d' !! p = dk_files d !! p ∨
     dk_files d' !! p = None ∧ ∃ root item, loadDoc yaml_parse (dk_text d) = Ok root ∧ item_of root e item ∧ p ∈ old_files dir item) ∧
  match a with
  | Changed | Refused _ =>
      dk_text d' = dk_text d ∧ dk_mtime d' = dk_mtime d ∧ dk_backups d' = dk_backups d ∧
      (sure c → (∀ p, p ∈ new_paths here → dk_files d !! p = None) → dk_files d' = dk_files d)
  | Saved | Unchanged =>
      (editOIDC encode yaml_parse dir (dk_text d) e c (dk_files d)).2 = Ok (dk_text d') ∧
      (says (oe_Op e) "delete" = false → ∀ p t, (p, t) ∈ written_files e here c → dk_files d' !! p = Some t)
  | Trouble => True
  end ∧
  (∀ s fs, oe_Secret e ≠ [] → s ≠ [] →
     (editOIDC encode yaml_parse dir (dk_text d) (with_secret e s) c fs).2 = (editOIDC encode yaml_parse dir (dk_text d) e c fs).2).
Proof.
  intros H c here. split_and!; [| | |intros s fs H1 H2; unfold editOIDC; destruct (loadDoc yaml_parse (dk_text d)) as [root|]; [|done];
    pose proof (edit_oidc_unseen dir root e s c fs H1 H2) as Hs; repeat case_match; simplify_eq/=; done].
  all: revert H; destruct d as [text mtime backups fs]; unfold oidcSave; fold c; cbn [dk_text dk_mtime dk_backups dk_files].
  all: destruct (negb (he_read o)); [intros [= <- <-]; by auto|].
  all: destruct (bool_decide_reflect (base = versionOf fileHash mtime text)) as [Hv|_]; cbn [negb]; [|intros [= <- <-]; by auto].
  all: destruct (editOIDC encode yaml_parse dir text e c fs) as [[fs1 r] a1] eqn:E; destruct (editOIDC_files _ _ _ _ _ _ _ E) as (ws & Hw & Ho & Hok).
  all: destruct (undone _ _ _ _ _ _ Hw) as [Hu1 Hu2].
  all: destruct a1 as [full|m]; [destruct (Saves.check (loadConfig fs1) certs_Check full) as [cfg|m] eqn:Ec|].
  - intros (_ & Ht & _)%commit_files. cbn in Ht. destruct Ht as [Ht|Ht]; [by left|right]. split; [done|]. exists fs1. by rewrite Ht, Ec.
  - intros [= <- <-]. by left.
  - intros [= <- <-]. by left.
  - intros (Hf & _)%commit_files. cbn in Hf. rewrite Hf. intros p Hp. unfold forget. rewrite lookup_remove_all. case_bool_decide as Hpo; [right|left; by apply (proj1 Hw)].
    split; [done|by apply Ho].
  - intros [= <- <-] p Hp. left. by apply Hu1.
  - intros [= <- <-] p Hp. left. by apply Hu1.
  - intros (Hf & _ & Hn1 & Hn2 & Hs)%commit_files. cbn in Hf. 
    assert (a = Saved ∨ a = Unchanged → full = dk_text d' ∧ (says (oe_Op e) "delete" = false → ∀ p t, (p, t) ∈ written_files e here c → dk_files d' !! p = Some t)) as Ha.
    { intros Ha. split; [symmetry; by apply Hs|]. intros Hd p t Hp. destruct (Hok eq_refl Hd) as [-> Hno]. rewrite Hf. unfold forget. rewrite lookup_remove_all.
      rewrite bool_decide_false by (apply Hno, list_elem_of_fmap; by exists (p, t)). destruct Hw as (_ & _ & _ & Hw & _). by apply Hw. }
    destruct a as [| |m| |]; try done; [by destruct (Hn2 m)|..]; destruct Ha as [-> Ha]; auto.
  - intros [= <- <-]. by split_and!.
  - intros [= <- <-]. by split_and!.
Qed.
End Saves.

(** ** Witness

    A file with two items; the first gets a new secret. *)

Definition demo_item (name secret : string) : node :=
  n_map 3 [("name", n_word name); ("issuer", n_word "https://id.example"); ("client_id", n_word "app"); ("client_secret_file", n_word secret)]%string.
Definition demo_use (name : string) : node := n_map 9 [("type", n_word "static"); ("oidc", n_word name)]%string.
Definition demo_items (first second : string) : node := n_map 1
  [("oidc", n_list [demo_item "corp" first; demo_item "lab" second]);
   ("routes", n_list [n_map 7 [("listener", n_word "lan"); ("rules", n_list [n_map 8 [("domain", n_word "a.lan"); ("serve", n_list [demo_use "corp"])]])]])]%string.
Definition demo_dir : bytes := lit "/etc/oidc".
Definition demo_change (op how : string) : oidcEdit :=
  mkOidcEdit (lit op) (lit "corp") (lit "work") (lit "https://id.example/") (lit "app") (lit how) (lit "s3cret") [] [] [lit "openid"; lit "email"] (lit "8h") [lit "2"] [] [] [] (lit "roles").
Definition demo_calls : calls := mkCalls (lit "20260101T000000") (Err "no"%string) (mkWriting true Wrote true) (mkWriting true Wrote true).
Definition demo_hears (write : wrote) : hears := mkHears true demo_calls Wrote write (lit "config.yaml.bak") 9 true.
Definition demo_disk (text : string) : disk := mkDisk (lit text) 5 ∅ {[lit "/etc/oidc/old" := lit "before"]}.
Definition demo_oidc_load (_ : files) (_ : bytes) : res err Config := Ok (defaultConfig []).
(** The trees by their text, and the other way. *)
Definition demo_parse (text : bytes) : res err (option node) :=
  Ok (Some (if says text "shared" then demo_items "/etc/oidc/old" "/etc/oidc/old" else demo_items "/etc/oidc/old" "/etc/lab")).
Definition demo_save (load : files → bytes → res err Config) (e : oidcEdit) (o : hears) (d : disk) : disk * answered :=
  oidcSave (fun n => from_option n_Value [] (mapGet (from_option id n (head (oidc_items n))) (lit "client_secret_file"))) demo_parse demo_dir (fun x => x) load (fun _ => Ok tt)
    (versionOf (fun x => x) 5 (dk_text d)) e o d.

Lemma oidc_files_witness :
  let '(d', a) := demo_save demo_oidc_load (demo_change "update" "secret") (demo_hears Wrote) (demo_disk "own") in
  a = Saved ∧ dk_files d' !! lit "/etc/oidc/work-20260101T000000.secret" = Some (lit "s3cret" ++ [10]) ∧ dk_files d' !! lit "/etc/oidc/old" = None.
Proof.
  destruct (demo_save demo_oidc_load (demo_change "update" "secret") (demo_hears Wrote) (demo_disk "own")) as [d' a] eqn:E.
  pose proof (oidc_files _ _ _ _ _ _ _ _ _ _ _ _ E) as (_ & _ & H & _).
  assert (a = (demo_save demo_oidc_load (demo_change "update" "secret") (demo_hears Wrote) (demo_disk "own")).2) as Ha by (by rewrite E).
  assert (d' = (demo_save demo_oidc_load (demo_change "update" "secret") (demo_hears Wrote) (demo_disk "own")).1) as Hd by (by rewrite E).
  clear E. assert (a = Saved) as -> by (rewrite Ha; vm_compute; reflexivity). split; [done|]. split; [|rewrite Hd; vm_compute; reflexivity].
  apply (proj2 H); [done|]. vm_compute. by left.
Defined.

(** ** Where files go that are in use

    [forget] comes before the file is written: when that fails, the
    configuration on the disk names a secret that is gone, and the new one
    stays. *)
Example forgotten_before_saved :
  let '(d', a) := demo_save demo_oidc_load (demo_change "update" "secret") (demo_hears NotWritten) (demo_disk "own") in
  a = Trouble ∧ dk_text d' = lit "own" ∧ dk_files d' !! lit "/etc/oidc/old" = None ∧ is_Some (dk_files d' !! lit "/etc/oidc/work-20260101T000000.secret").
Proof. vm_compute. split_and!; [done..|by eexists]. Qed.

(** Of two items with the same file, one changes, and the other's secret is
    gone. *)
Example shared_file_forgotten :
  let '(d', a) := demo_save demo_oidc_load (demo_change "update" "secret") (demo_hears Wrote) (demo_disk "shared") in
  a = Saved ∧ dk_files d' !! lit "/etc/oidc/old" = None ∧
  match edit_oidc demo_dir (demo_items "/etc/oidc/old" "/etc/oidc/old") (demo_change "update" "secret") demo_calls ∅ with
  | (_, _, Ok root) => (fun m => n_Value <$> mapGet m (lit "client_secret_file")) <$> oidc_items root =
      [Some (lit "/etc/oidc/work-20260101T000000.secret"); Some (lit "/etc/oidc/old")]
  | _ => False
  end.
Proof. vm_compute. by split_and!. Qed.

(** Within one second two changes of an item have the same file: the second,
    refused, takes away what the first had saved. *)
Example same_second :
  let here := lit "/etc/oidc/work-20260101T000000.secret" in
  let '(d', a) := demo_save (fun _ _ => Err "issuer"%string) (demo_change "update" "secret") (demo_hears Wrote) (mkDisk (lit "own") 5 ∅ {[here := lit "in use"]}) in
  a = Refused "issuer"%string ∧ dk_text d' = lit "own" ∧ dk_files d' !! here = None.
Proof. vm_compute. by split_and!. Qed.
