(* ===== verification/OidcRead.v ===== *)
(** OidcRead: an OpenID Connect item written by the console ([OidcEdit]) is
    read by the configuration ([OidcConfig]) as what the wizard says, and the
    rest of the file is as it was. *)

From S2P Require Import Prelude GoStr NetIP Http Rules Config ServeConfig Oidc Yaml OidcConfig ConfigLoad Sections SectionEdits Saves OidcEdit.

(** * What an item written is read as *)

Lemma drop_while_head p s : from_option p false (head (drop_while p s)) = false.
Proof. induction s as [|b s IH]; [done|]. cbn. destruct (p b) eqn:E; [done|by cbn]. Qed.
Lemma drop_while_id p s : from_option p false (head s) = false → drop_while p s = s.
Proof. destruct s as [|b s]; [done|]. cbn. by intros ->. Qed.
Lemma drop_while_suffix p s : ∃ a, s = a ++ drop_while p s.
Proof. induction s as [|b s [a IH]]; [by exists []|]. cbn. destruct (p b); [exists (b :: a); cbn; by rewrite <- IH|by exists []]. Qed.
(** Trimmed, a text starts and ends with a byte that stays. *)
Lemma trimmed_edges p s : from_option p false (head (trim_func p s)) = false ∧ from_option p false (last (trim_func p s)) = false.
Proof.
  unfold trim_func. set (t := drop_while p s). destruct (drop_while_suffix p (reverse t)) as [a Ha]. split.
  - set (u := drop_while p (reverse t)) in *. assert (t = reverse u ++ reverse a) as Ht by (rewrite <- reverse_app, <- Ha; by rewrite reverse_involutive).
    pose proof (drop_while_head p s) as H. fold t in H. rewrite Ht in H. by destruct (reverse u).
  - pose proof (drop_while_head p (reverse t)) as H. destruct (drop_while p (reverse t)) as [|x l]; [done|]. by rewrite reverse_cons, last_snoc.
Qed.

Lemma trim_edges s : from_option is_space false (head s) = false → from_option is_space false (last s) = false → trim_space s = s.
Proof.
  intros H1 H2. unfold trim_space, trim_func. rewrite (drop_while_id _ s) by done. rewrite drop_while_id; [by rewrite reverse_involutive|].
  destruct s as [|x s] using rev_ind; [done|]. by rewrite reverse_snoc, last_snoc in *.
Qed.

Lemma trim_spaces s : trim_space (trim_space s) = trim_space s.
Proof. apply trim_edges; apply trimmed_edges. Qed.
Lemma head_join w ws : w ≠ [] → head (join (lit "; ") (w :: ws)) = head w.
Proof. intros Hw. destruct w as [|b w]; [done|]. by destruct ws. Qed.
Lemma last_join ws : Forall (fun w => w ≠ []) ws → last (join (lit "; ") ws) = last ws ≫= last.
Proof.
  induction 1 as [|w ws Hw Hws IH]; [done|]. destruct ws as [|w' ws]; [done|]. change (join (lit "; ") (w :: w' :: ws)) with (w ++ lit "; " ++ join (lit "; ") (w' :: ws)).
  rewrite last_cons_cons. rewrite last_app, last_app, IH. apply Forall_cons in Hws as [Hw' Hws].
  destruct (last (w' :: ws) ≫= last) eqn:E; [done|]. exfalso.
  rewrite last_cons in E. destruct (last ws) as [x|] eqn:Ex; cbn in E; [|by apply last_None in E].
  apply last_None in E as ->. apply last_Some_elem_of in Ex. by apply (proj1 (Forall_forall _ _) Hws) in Ex.
Qed.
Lemma trim_join ws : Forall (fun w => w ≠ [] ∧ trim_space w = w) ws → trim_space (join (lit "; ") ws) = join (lit "; ") ws.
Proof.
  intros H. destruct ws as [|w ws]; [done|]. pose proof H as [[Hne Ht] _]%Forall_cons. apply trim_edges.
  - rewrite head_join by done. rewrite <- Ht. apply trimmed_edges.
  - rewrite last_join by (eapply Forall_impl; [exact H|]; by intros ? []). destruct (last (w :: ws)) as [x|] eqn:E; [|done]. cbn [mbind option_bind].
    apply last_Some_elem_of in E. apply (proj1 (Forall_forall _ _) H) in E as [_ <-]. apply trimmed_edges.
Qed.

(** The value written for a key. *)
Definition assoc {V} (l : list (bytes * V)) (k : bytes) : option V := snd <$> find (fun e => bool_decide (e.1 = k)) l.
Lemma assoc_app {V} (a b : list (bytes * V)) k : assoc (a ++ b) k = match assoc a k with Some v => Some v | None => assoc b k end.
Proof. unfold assoc. induction a as [|x a IH]; [done|]. cbn [app find]. by destruct (bool_decide _). Qed.
Definition given (v : bytes) : option node := if bool_decide (trim_space v = []) then None else Some (scalar (trim_space v)).
Lemma assoc_set k v k' : assoc (set_value k v) k' = if bool_decide (k = k') then given v else None.
Proof. unfold set_value, given, assoc. destruct (bool_decide (trim_space v = [])); cbn; by destruct (bool_decide (k = k')). Qed.
Lemma assoc_set_ne k v k' : k ≠ k' → assoc (set_value k v) k' = None.
Proof. intros Hn. by rewrite assoc_set, bool_decide_false. Qed.
Definition given_list (vs : list bytes) : option node :=
  let vs := filter (fun v => v <> []) (trim_space <$> vs) in if bool_decide (vs = []) then None else Some (seq (scalar <$> vs)).
Lemma assoc_list k vs k' : assoc (list_value k vs) k' = if bool_decide (k = k') then given_list vs else None.
Proof. unfold list_value, given_list, assoc. destruct (bool_decide (filter _ _ = [])); cbn; by destruct (bool_decide (k = k')). Qed.
Lemma assoc_cred cred k : Forall (fun kv => kv.1 ≠ k) cred → assoc (cred ≫= fun kv => set_value kv.1 kv.2) k = None.
Proof.
  induction 1 as [|kv cred Hn Hc IH]; [done|]. rewrite bind_cons, assoc_app, IH, assoc_set_ne by done. done.
Qed.

Lemma pairs_flat m ps l : n_Content m = flat ps → pairs m = Ok l → l = ps.
Proof.
  unfold pairs. intros ->. destruct (bool_decide _); [|done]. generalize (@nil bytes). revert l. induction ps as [|e ps IH]; intros l seen; [by intros [= <-]|].
  change (flat (e :: ps)) with (e.1 :: e.2 :: flat ps). cbn [pairs_go]. destruct (bool_decide _); [|done]. destruct (negb _); [|done].
  destruct (pairs_go _ (flat ps)) as [rest|] eqn:E; [|done]. intros [= <-]. by rewrite (IH _ _ E), <- surjective_pairing.
Qed.

Section Reading.
Context (json_strings : list bytes → bytes) (url_parse : bytes → option parsed_url).
Context (read_text : bytes → option bytes) (file_exists : bytes → bool) (parse_duration : bytes → option Z) (client_cert : bytes → bytes → res err (bytes * bytes * Z)).

Abbreviation walk_key := (oidc_key url_parse read_text file_exists parse_duration).
Definition walk_step (s : OIDCProvider * bool) (e : node * node) : res err (OIDCProvider * bool) :=
  let! v := yamlValue json_strings (n_Value e.1) e.2 in walk_key s.1 s.2 (n_Value e.1) v.

(** A field set by one key has what that key says, or is as it was. *)
Lemma walk_field {F} (get : OIDCProvider * bool → F) (key : bytes) (P : bytes → F → Prop) l s s' :
  (∀ p plain k v s', k ∈ key_texts l → walk_key p plain k v = Ok s' → if bool_decide (k = key) then P v (get s') else get s' = get (p, plain)) →
  NoDup (key_texts l) → fold_res walk_step s l = Ok s' →
  match value_of l key with Some v => ∃ text, yamlValue json_strings key v = Ok text ∧ P text (get s') | None => get s' = get s end.
Proof.
  revert s. induction l as [|e l IH]; intros s Hk; [by intros _ [= <-]|]. change (key_texts (e :: l)) with (n_Value e.1 :: key_texts l) in *.
  intros [Hn Hnd]%NoDup_cons. cbn [fold_res]. destruct (walk_step s e) as [s1|] eqn:E; [|done]. intros Hf.
  assert (∀ p plain k v s', k ∈ key_texts l → walk_key p plain k v = Ok s' → if bool_decide (k = key) then P v (get s') else get s' = get (p, plain)) as Hk'
    by (intros p plain k v s0 Hin; apply Hk; by right).
  pose proof (IH _ Hk' Hnd Hf) as H. unfold walk_step in E. destruct (yamlValue _ _ _) as [v|] eqn:Ev; [|done]. destruct s as [p plain]. cbn [fst snd] in E.
  apply Hk in E; [|by left]. unfold value_of in *. cbn [find]. destruct (bool_decide_reflect (n_Value e.1 = key)) as [<-|]; cbn [fmap option_fmap option_map snd].
  - assert (value_of l (n_Value e.1) = None) as Hno by (by apply value_of_none). unfold value_of in Hno. rewrite Hno in H. exists v. split; [done|]. by rewrite H.
  - destruct (find _ l) as [e'|]; [done|]. cbn in H |- *. congruence.
Qed.

(** Words that separate when they are written as a list and read again. *)
Definition word_ok (seps : bytes) (w : bytes) : Prop := Forall (fun b => byte_ok b ∧ b ∉ seps) w.

Lemma fields_word p w s : Forall (fun b => byte_ok b ∧ p b = false) w → p (ch ";") = true →
  fields_func p (w ++ ch ";" :: s) = (if bool_decide (w = []) then [] else [w]) ++ fields_func p s.
Proof.
  intros Hw Hp. unfold fields_func. rewrite fmap_app, fmap_cons, Hp.
  assert (((fun b => if p b then 256 else b) <$> w) = w) as ->.
  { induction Hw as [|b w [_ Hb] Hw IH]; [done|]. cbn. by rewrite Hb, IH. }
  rewrite split_join_cons by (intros Hin; apply (proj1 (Forall_forall _ _) Hw) in Hin as [[_ ?] _]; lia).
  destruct (bool_decide_reflect (w = [])) as [->|Hn]; [by rewrite filter_cons_False by naive_solver|by rewrite filter_cons_True].
Qed.
Lemma fields_last p w : Forall (fun b => byte_ok b ∧ p b = false) w → fields_func p w = if bool_decide (w = []) then [] else [w].
Proof.
  intros Hw. unfold fields_func. assert (((fun b => if p b then 256 else b) <$> w) = w) as ->.
  { induction Hw as [|b w [_ Hb] Hw IH]; [done|]. cbn. by rewrite Hb, IH. }
  rewrite split_byte_none by (intros Hin; apply (proj1 (Forall_forall _ _) Hw) in Hin as [[_ ?] _]; lia).
  destruct (bool_decide_reflect (w = [])) as [->|Hn]; [by rewrite filter_cons_False by naive_solver|by rewrite filter_cons_True].
Qed.

(** The list of scopes: what was written. *)
Definition scope_sep (r : Z) : bool := (r =? ch ";") || (r =? 32) || (r =? ch ",").
Lemma sep_false w : word_ok (lit "; ,") w → Forall (fun b => byte_ok b ∧ scope_sep b = false) w.
Proof.
  intros H. eapply Forall_impl; [exact H|]. intros b [Hb Hn]. split; [done|]. unfold scope_sep. repeat rewrite orb_false_iff. rewrite !Z.eqb_neq. cbn in Hn. set_solver.
Qed.
Lemma fields_space s : fields_func scope_sep (32 :: s) = fields_func scope_sep s.
Proof. unfold fields_func. rewrite fmap_cons. change (scope_sep 32) with true. cbn [split_byte]. done. Qed.
Lemma scopes_read ws : Forall (fun w => w ≠ [] ∧ word_ok (lit "; ,") w) ws → fields_func scope_sep (join (lit "; ") ws) = ws.
Proof.
  induction 1 as [|w ws [Hne Hw%sep_false] Hws IH]; [done|]. destruct ws as [|w' ws]; [change (join (lit "; ") [w]) with w; by rewrite fields_last, bool_decide_false|].
  change (join (lit "; ") (w :: w' :: ws)) with (w ++ ch ";" :: 32 :: join (lit "; ") (w' :: ws)).
  rewrite fields_word, bool_decide_false, fields_space by done. by rewrite IH.
Qed.

(** Other lists: what was written. *)
Definition list_sep (r : Z) : bool := (r =? ch ";") || (r =? ch ",").
Lemma list_read ws : Forall (fun w => w ≠ [] ∧ trim_space w = w ∧ word_ok (lit ";,") w) ws →
  splitList (join (lit "; ") ws) = ws ∧ splitList (32 :: join (lit "; ") ws) = ws.
Proof.
  assert (∀ w, word_ok (lit ";,") w → Forall (fun b => byte_ok b ∧ list_sep b = false) w) as Hsep.
  { intros w H. eapply Forall_impl; [exact H|]. intros b [Hb Hn]. split; [done|]. unfold list_sep. rewrite orb_false_iff, !Z.eqb_neq. cbn in Hn. set_solver. }
  assert (∀ w, trim_space (32 :: w) = trim_space w) as Hsp by done.
  induction 1 as [|w ws (Hne & Ht & Hw%Hsep) Hws [IH1 IH2]]; [done|].
  assert (Forall (fun b => byte_ok b ∧ list_sep b = false) (32 :: w)) as Hw' by (constructor; [split; [unfold byte_ok; lia|done]|done]).
  unfold splitList in *. change (λ r : Z, (r =? ch ";") || (r =? ch ",")) with list_sep in *.
  destruct ws as [|w' ws].
  - change (join (lit "; ") [w]) with w. rewrite !fields_last, !bool_decide_false by done. cbn [fmap list_fmap]. rewrite Hsp, Ht. by rewrite !filter_cons_True.
  - change (join (lit "; ") (w :: w' :: ws)) with (w ++ ch ";" :: 32 :: join (lit "; ") (w' :: ws)). 
    rewrite (fields_word list_sep w) by done. change (32 :: w ++ ?s) with ((32 :: w) ++ s). rewrite (fields_word list_sep (32 :: w)), !bool_decide_false by done.
    cbn [app fmap list_fmap]. rewrite Hsp, Ht. rewrite !filter_cons_True by done. by rewrite IH2.
Qed.

(** What the wizard says, as the configuration has it. *)
Definition text_of (cred : list (bytes * bytes)) (k : bytes) : bytes := default [] (trim_space <$> assoc cred k).
Definition given_words (vs : list bytes) : list bytes := filter (fun v => v <> []) (trim_space <$> vs).
Definition wizard_says (e : oidcEdit) (name : bytes) (cred : list (bytes * bytes)) (p : OIDCProvider) : Prop :=
  op_Name p = trim_space name ∧ op_Issuer p = trim_suffix (trim_space (oe_Issuer e)) (lit "/") ∧ op_ClientID p = trim_space (oe_ClientID e) ∧
  op_CAFile p = trim_space (oe_CAFile e) ∧ op_UserClaim p = trim_space (oe_UsernameClaim e) ∧
  op_GroupsClaim p = (if bool_decide (trim_space (oe_GroupsClaim e) = []) then lit "groups" else trim_space (oe_GroupsClaim e)) ∧
  op_RolesClaim p = (if bool_decide (trim_space (oe_RolesClaim e) = []) then lit "roles" else trim_space (oe_RolesClaim e)) ∧
  (let s := trim_space (oe_Session e) in
   if bool_decide (s = []) || bool_decide (s = lit "8h") then op_Session p = 8 * 60 * minute else parse_duration s = Some (op_Session p)) ∧
  (Forall (word_ok (lit "; ,")) (given_words (oe_Scopes e)) →
   op_Scopes p = lit "openid" :: (let ws := given_words (oe_Scopes e) in if bool_decide (ws = []) then [lit "profile"; lit "email"] else filter (fun s => s <> lit "openid") ws)) ∧
  (Forall (word_ok (lit ";,")) (given_words (oe_MFAAcr e)) → op_MFAAcr p = given_words (oe_MFAAcr e)) ∧
  op_SecretFile p = text_of cred (lit "client_secret_file") ∧ op_CertFile p = text_of cred (lit "client_certificate") ∧ op_KeyFile p = text_of cred (lit "client_key") ∧
  (if bool_decide (op_SecretFile p = []) then op_ClientSecret p = text_of cred (lit "client_secret")
   else ∃ b, read_text (op_SecretFile p) = Some b ∧ op_ClientSecret p = trim_space b).

Lemma fold_res_ext {S A} (f g : S → A → res err S) l s : (∀ s x, f s x = g s x) → fold_res f s l = fold_res g s l.
Proof. intros H. revert s. induction l as [|x l IH]; intros s; [done|]. cbn [fold_res]. rewrite H. by destruct (g s x). Qed.
Lemma value_of_assoc l k : value_of ((fun kv => (scalar kv.1, kv.2)) <$> l) k = assoc l k.
Proof. unfold value_of, assoc. induction l as [|e l IH]; [done|]. cbn [fmap list_fmap find fst]. change (n_Value (scalar e.1)) with e.1. destruct (bool_decide _); [done|exact IH]. Qed.
Lemma scalar_text key t : says key "cert_validate_args" = false → yamlValue json_strings key (scalar t) = Ok t.
Proof. intros Hk. unfold yamlValue, scalar. cbn [n_Kind]. rewrite Hk. unfold is_null. cbn [n_Tag n_Value]. by repeat case_match. Qed.
Lemma list_text key vs : says key "cert_validate_args" = false → yamlValue json_strings key (seq (scalar <$> vs)) = Ok (join (lit "; ") vs).
Proof.
  intros Hk. unfold yamlValue, seq. cbn [n_Kind n_Content]. rewrite Hk. assert (n_Value <$> (scalar <$> vs) = vs) as -> by (rewrite <- list_fmap_compose; by apply list_fmap_id).
  replace (forallb _ _) with true; [done|]. symmetry. apply forallb_forall. intros x (v & -> & _)%list_elem_of_In%list_elem_of_fmap. by apply bool_decide_eq_true.
Qed.

(** A walk over the values of a mapping, key by key. *)
Lemma walk_mapping l p : walkOIDC json_strings url_parse read_text file_exists parse_duration client_cert (mapping (l ≫= fun kv => [scalar kv.1; kv.2])) = Ok p →
  NoDup l.*1 ∧ ∃ q plain, oidc_checks q plain = None ∧
    fold_res walk_step (new_provider 0, false) ((fun kv => (scalar kv.1, kv.2)) <$> l) = Ok (q, plain) ∧
    ∃ key th ex, p = mkProvider (op_Name q) (op_Line q) (op_Issuer q) (op_ClientID q) (op_ClientSecret q) key th (op_Scopes q) (op_Session q) (op_MFAAcr q) (op_CAFile q)
      (op_UserClaim q) (op_GroupsClaim q) (op_RolesClaim q) (op_referenced q) (op_SecretFile q) (op_CertFile q) (op_KeyFile q) ex.
Proof.
  unfold walkOIDC. destruct (pairs _) as [items|] eqn:Ep; [|done]. pose proof (pairs_keys _ _ Ep) as [_ Hnd].
  apply (pairs_flat _ ((fun kv => (scalar kv.1, kv.2)) <$> l)) in Ep as ->.
  2:{ cbn [n_Content mapping]. clear. induction l as [|e l IH]; [done|]. rewrite fmap_cons, bind_cons. change (flat (?x :: ?y)) with (x.1 :: x.2 :: flat y). cbn. by rewrite <- IH. }
  rewrite (fold_res_ext _ walk_step) by (by intros [p0 plain0] [k v]). change (n_Line (mapping _)) with 0.
  destruct (fold_res _ _ _) as [[q plain]|] eqn:Ef; [|done]. destruct (oidc_checks q plain) eqn:Ec; [done|]. intros H. split.
  - revert Hnd. clear. induction l as [|e l IH]; [constructor|]. cbn [fmap list_fmap fst]. change (n_Value (scalar e.1)) with e.1. intros [Hn Hnd]%NoDup_cons.
    constructor; [|by apply IH]. intros Hin. apply Hn. clear -Hin. induction l as [|x l IH]; [by apply not_elem_of_nil in Hin|]. cbn in *. apply elem_of_cons in Hin as [->|Hin]; [by left|right; by apply IH].
  - exists q, plain. split_and!; try done. destruct (bool_decide _).
    + injection H as <-. exists (op_ClientKey q), (op_thumbprint q), (op_CertExpires q). by destruct q.
    + destruct (client_cert _ _) as [[[key th] ex]|]; [|done]. injection H as <-. exists (Some key), th, ex. by destruct q.
Qed.

Lemma assoc_cred_get cred k : NoDup cred.*1 → assoc (cred ≫= fun kv => set_value kv.1 kv.2) k = assoc cred k ≫= given.
Proof.
  unfold assoc. induction cred as [|kv cred IH]; [done|]. cbn [fmap list_fmap]. intros [Hn Hnd]%NoDup_cons. rewrite bind_cons. fold (assoc (set_value kv.1 kv.2 ++ (cred ≫= λ kv, set_value kv.1 kv.2)) k).
  rewrite assoc_app, assoc_set. cbn [find]. destruct (bool_decide_reflect (kv.1 = k)) as [<-|Hk]; [|by apply IH]. cbn [fmap option_fmap option_map mbind option_bind snd].
  destruct (given kv.2); [done|]. apply assoc_cred. apply Forall_forall. intros x Hx Heq. apply Hn. rewrite <- Heq. apply list_elem_of_fmap. by exists x.
Qed.

(** What each key sets. *)
Definition key_sets (p : OIDCProvider) (plain : bool) (k v : bytes) (q : OIDCProvider) (plain' : bool) : Prop :=
  let v := trim_space v in
  (k = lit "name" ∧ q = p {{ op_Name := v }} ∧ plain' = plain) ∨
  (k = lit "issuer" ∧ q = p {{ op_Issuer := trim_suffix v (lit "/") }} ∧ plain' = plain) ∨
  (k = lit "client_id" ∧ q = p {{ op_ClientID := v }} ∧ plain' = plain) ∨
  (k = lit "client_secret" ∧ q = p {{ op_ClientSecret := v }} ∧ plain' = true) ∨
  (k = lit "client_secret_file" ∧ (v ≠ [] ∧ ∃ b, read_text v = Some b ∧ q = p {{ op_ClientSecret := trim_space b; op_SecretFile := v }}) ∧ plain' = plain) ∨
  (k = lit "scopes" ∧ q = p {{ op_Scopes := lit "openid" :: filter (fun s => s <> lit "openid") (fields_func scope_sep v) }} ∧ plain' = plain) ∨
  (k = lit "session" ∧ (∃ d, parse_duration v = Some d ∧ q = p {{ op_Session := d }}) ∧ plain' = plain) ∨
  (k = lit "mfa_acr_values" ∧ q = p {{ op_MFAAcr := splitList v }} ∧ plain' = plain) ∨
  (k = lit "ca_file" ∧ q = p {{ op_CAFile := v }} ∧ plain' = plain) ∨
  (k = lit "username_claim" ∧ q = p {{ op_UserClaim := v }} ∧ plain' = plain) ∨
  (k = lit "groups_claim" ∧ q = p {{ op_GroupsClaim := v }} ∧ plain' = plain) ∨
  (k = lit "roles_claim" ∧ q = p {{ op_RolesClaim := v }} ∧ plain' = plain) ∨
  (k = lit "client_certificate" ∧ q = p {{ op_CertFile := v }} ∧ plain' = plain) ∨
  (k = lit "client_key" ∧ q = p {{ op_KeyFile := v }} ∧ plain' = plain).
Ltac one_of := first [solve [left; split_and!; eauto] | solve [split_and!; eauto] | right; one_of].
Lemma walk_key_sets p plain k v s : walk_key p plain k v = Ok s → key_sets p plain k v s.1 s.2.
Proof.
  unfold oidc_key, key_sets, says.
  repeat match goal with |- (if bool_decide (k = ?t) then _ else _) = _ → _ => destruct (bool_decide_reflect (k = t)) as [->|_] end; [..|done].
  all: repeat match goal with
  | |- (if ?g then _ else _) = _ → _ => destruct g eqn:?; [|done]
  | |- match ?r with _ => _ end = _ → _ => destruct r eqn:?; try done
  end; intros [= <-]; cbn [fst snd]; bool_prop.
  all: one_of.
Qed.
Ltac key_cases :=
  let p := fresh in let b := fresh in let k := fresh in let v := fresh in let s := fresh in let Hs := fresh in let Heq := fresh in
  intros p b k v [s ?] Hin Hs%walk_key_sets; cbn [fst snd] in *; destruct p;
  repeat destruct Hs as [(-> & Heq & ->)|Hs]; [..|destruct Hs as (-> & Heq & ->)];
  (match goal with |- context[bool_decide (lit ?a = lit ?b)] => first [rewrite (bool_decide_true (lit a = lit b)) by reflexivity | rewrite (bool_decide_false (lit a = lit b)) by done] end);
  naive_solver.

(** What the fields are after a walk. *)
Definition field_is {F} (l : list (bytes * node)) (key : string) (P : bytes → F → Prop) (start now : F) : Prop :=
  match assoc l (lit key) with Some v => ∃ text, yamlValue json_strings (lit key) v = Ok text ∧ P text now | None => now = start end.
Lemma walk_fields l q plain : NoDup l.*1 →
  fold_res walk_step (new_provider 0, false) ((fun kv => (scalar kv.1, kv.2)) <$> l) = Ok (q, plain) →
  field_is l "name" (fun v x => x = trim_space v) [] (op_Name q) ∧
  field_is l "issuer" (fun v x => x = trim_suffix (trim_space v) (lit "/")) [] (op_Issuer q) ∧
  field_is l "client_id" (fun v x => x = trim_space v) [] (op_ClientID q) ∧
  field_is l "ca_file" (fun v x => x = trim_space v) [] (op_CAFile q) ∧
  field_is l "username_claim" (fun v x => x = trim_space v) [] (op_UserClaim q) ∧
  field_is l "groups_claim" (fun v x => x = trim_space v) (lit "groups") (op_GroupsClaim q) ∧
  field_is l "roles_claim" (fun v x => x = trim_space v) (lit "roles") (op_RolesClaim q) ∧
  field_is l "session" (fun v x => parse_duration (trim_space v) = Some x) (8 * 60 * minute) (op_Session q) ∧
  field_is l "scopes" (fun v x => x = lit "openid" :: filter (fun s => s <> lit "openid") (fields_func scope_sep (trim_space v))) oidcDefaultScopes (op_Scopes q) ∧
  field_is l "mfa_acr_values" (fun v x => x = splitList (trim_space v)) [] (op_MFAAcr q) ∧
  field_is l "client_certificate" (fun v x => x = trim_space v) [] (op_CertFile q) ∧
  field_is l "client_key" (fun v x => x = trim_space v) [] (op_KeyFile q) ∧
  field_is l "client_secret_file" (fun v x => x = trim_space v ∧ x ≠ []) [] (op_SecretFile q) ∧
  field_is l "client_secret" (fun v x => x = true) false plain ∧
  ((lit "client_secret_file" ∉ l.*1) → field_is l "client_secret" (fun v x => x = trim_space v) [] (op_ClientSecret q)) ∧
  ((lit "client_secret" ∉ l.*1) → field_is l "client_secret_file" (fun v x => ∃ b, read_text (trim_space v) = Some b ∧ x = trim_space b) [] (op_ClientSecret q)).
Proof.
  intros Hnd Hf. assert (key_texts ((fun kv => (scalar kv.1, kv.2)) <$> l) = l.*1) as Hkt by (unfold key_texts; rewrite <- list_fmap_compose; done).
  assert (∀ {F} (get : OIDCProvider * bool → F) key (P : bytes → F → Prop),
    (∀ p plain k v s', k ∈ l.*1 → walk_key p plain k v = Ok s' → if bool_decide (k = lit key) then P v (get s') else get s' = get (p, plain)) →
    field_is l key P (get (new_provider 0, false)) (get (q, plain))) as H.
  { intros F get key P Hs. unfold field_is. rewrite <- value_of_assoc. apply walk_field; [by rewrite Hkt|by rewrite Hkt|done]. }
  split_and!.
  - apply (H _ (fun s => op_Name s.1)). key_cases.
  - apply (H _ (fun s => op_Issuer s.1)). key_cases.
  - apply (H _ (fun s => op_ClientID s.1)). key_cases.
  - apply (H _ (fun s => op_CAFile s.1)). key_cases.
  - apply (H _ (fun s => op_UserClaim s.1)). key_cases.
  - apply (H _ (fun s => op_GroupsClaim s.1)). key_cases.
  - apply (H _ (fun s => op_RolesClaim s.1)). key_cases.
  - apply (H _ (fun s => op_Session s.1)). key_cases.
  - apply (H _ (fun s => op_Scopes s.1)). key_cases.
  - apply (H _ (fun s => op_MFAAcr s.1)). key_cases.
  - apply (H _ (fun s => op_CertFile s.1)). key_cases.
  - apply (H _ (fun s => op_KeyFile s.1)). key_cases.
  - apply (H _ (fun s => op_SecretFile s.1)). key_cases.
  - apply (H _ (fun s => s.2)). key_cases.
  - intros Hno. apply (H _ (fun s => op_ClientSecret s.1)). key_cases.
  - intros Hno. apply (H _ (fun s => op_ClientSecret s.1)). key_cases.
Qed.

(** The values of an item, key by key. *)
Lemma oidc_values_assoc e name cred : Forall (fun kv => kv.1 ∈ credentialKeys) cred → NoDup cred.*1 →
  let l := oidc_values e name cred in
  assoc l (lit "name") = given name ∧ assoc l (lit "issuer") = given (oe_Issuer e) ∧ assoc l (lit "client_id") = given (oe_ClientID e) ∧
  (∀ k, k ∈ credentialKeys → assoc l k = assoc cred k ≫= given) ∧
  assoc l (lit "scopes") = (if bool_decide (oe_Scopes e = oidcDefaultScopes) then None else given_list (oe_Scopes e)) ∧
  assoc l (lit "session") = (let s := trim_space (oe_Session e) in if negb (bool_decide (s = [])) && negb (bool_decide (s = lit "8h")) then given s else None) ∧
  assoc l (lit "mfa_acr_values") = given_list (oe_MFAAcr e) ∧ assoc l (lit "ca_file") = given (oe_CAFile e) ∧ assoc l (lit "username_claim") = given (oe_UsernameClaim e) ∧
  assoc l (lit "groups_claim") = (if says (trim_space (oe_GroupsClaim e)) "groups" then None else given (trim_space (oe_GroupsClaim e))) ∧
  assoc l (lit "roles_claim") = (if says (trim_space (oe_RolesClaim e)) "roles" then None else given (trim_space (oe_RolesClaim e))).
Proof.
  intros Hc Hnd l.
  assert (∀ k, k ∉ credentialKeys → assoc (cred ≫= fun kv => set_value kv.1 kv.2) k = None) as Hcred.
  { intros k Hk. apply assoc_cred. eapply Forall_impl; [exact Hc|]. by intros kv Hin <-. }
  change (formatSession oidcDefaultSession) with (lit "8h") in *.
  assert (∀ (b : bool) v k, assoc (if b then set_value k v else []) k = if b then given v else None) as Hif1 by (intros [] v k; [by rewrite assoc_set, bool_decide_true|done]).
  assert (∀ (b : bool) v k k', k ≠ k' → assoc (if b then set_value k v else []) k' = None) as Hif2 by (intros [] v k k' Hn; [by rewrite assoc_set, bool_decide_false|done]).
  assert (∀ (b : bool) v k, assoc (if b then [] else set_value k v) k = if b then None else given v) as Hif3 by (intros [] v k; [done|by rewrite assoc_set, bool_decide_true]).
  assert (∀ (b : bool) v k k', k ≠ k' → assoc (if b then [] else set_value k v) k' = None) as Hif4 by (intros [] v k k' Hn; [done|by rewrite assoc_set, bool_decide_false]).
  assert (∀ (b : bool) v k, assoc (if b then [] else list_value k v) k = if b then None else given_list v) as Hif5 by (intros [] v k; [done|by rewrite assoc_list, bool_decide_true]).
  assert (∀ (b : bool) v k k', k ≠ k' → assoc (if b then [] else list_value k v) k' = None) as Hif6 by (intros [] v k k' Hn; [done|by rewrite assoc_list, bool_decide_false]).
  unfold l, oidc_values; cbn zeta. change (formatSession oidcDefaultSession) with (lit "8h").
  assert (∀ (o : option node), match o with Some v => Some v | None => None end = o) as Ho by (by intros []).
  split_and!.
  4:{ intros k Hk. rewrite !assoc_app, assoc_cred_get by done.
      assert (k ≠ lit "name" ∧ k ≠ lit "issuer" ∧ k ≠ lit "client_id" ∧ k ≠ lit "scopes" ∧ k ≠ lit "session" ∧ k ≠ lit "mfa_acr_values" ∧ k ≠ lit "ca_file" ∧ k ≠ lit "username_claim" ∧ k ≠ lit "groups_claim" ∧ k ≠ lit "roles_claim") as (?&?&?&?&?&?&?&?&?&?).
      { unfold credentialKeys, fileKeys, texts in Hk. cbn [fmap list_fmap] in Hk. set_unfold in Hk. repeat destruct Hk as [->|Hk]; [..|done]; by split_and!. }
      rewrite !assoc_set_ne, Hif2, !Hif4, Hif6, assoc_list, (bool_decide_false (lit "mfa_acr_values" = k)) by done. by rewrite Ho. }
  all: rewrite !assoc_app, Hcred by (by vm_compute; set_solver); rewrite ?Hif1, ?Hif3, ?Hif5, ?assoc_set, ?assoc_list.
  all: rewrite ?Hif2, ?Hif4, ?Hif6 by done.
  all: repeat match goal with |- context[bool_decide (lit ?a = lit ?b)] => first [rewrite (bool_decide_true (lit a = lit b)) by reflexivity | rewrite (bool_decide_false (lit a = lit b)) by done] end; by rewrite ?Ho.
Qed.

Lemma field_given {F} l key (P : bytes → F → Prop) start now v : says (lit key) "cert_validate_args" = false →
  assoc l (lit key) = given v → field_is l key P start now → if bool_decide (trim_space v = []) then now = start else P (trim_space v) now.
Proof.
  intros Hk Ha. unfold field_is. rewrite Ha. unfold given. destruct (bool_decide _); [done|]. rewrite scalar_text by done. by intros (text & [= <-] & H).
Qed.
Lemma field_text l key start now v : says (lit key) "cert_validate_args" = false → start = [] →
  assoc l (lit key) = given v → field_is l key (fun v x => x = trim_space v) start now → now = trim_space v.
Proof.
  intros Hk -> Ha H. pose proof (field_given _ _ _ _ _ _ Hk Ha H) as Hg. destruct (bool_decide_reflect (trim_space v = [])) as [->|]; [done|]. by rewrite trim_spaces in Hg.
Qed.
Lemma field_list {F} l key (P : bytes → F → Prop) start now vs : says (lit key) "cert_validate_args" = false →
  assoc l (lit key) = given_list vs → field_is l key P start now → if bool_decide (given_words vs = []) then now = start else P (join (lit "; ") (given_words vs)) now.
Proof.
  intros Hk Ha. unfold field_is. rewrite Ha. unfold given_list. fold (given_words vs). cbn zeta. destruct (bool_decide _); [done|]. rewrite list_text by done. by intros (text & [= <-] & H).
Qed.
Lemma given_words_trimmed vs : Forall (fun w => w ≠ [] ∧ trim_space w = w) (given_words vs).
Proof. apply Forall_forall. intros w [Hw (v & -> & _)%list_elem_of_fmap]%list_elem_of_filter. split; [done|apply trim_spaces]. Qed.

Lemma text_given (cred : list (bytes * bytes)) k : text_of cred k = from_option trim_space [] (assoc cred k).
Proof. unfold text_of. by destruct (assoc cred k). Qed.
Lemma field_cred {F} l cred key (P : bytes → F → Prop) start now : says (lit key) "cert_validate_args" = false →
  assoc l (lit key) = assoc cred (lit key) ≫= given → field_is l key P start now →
  if bool_decide (text_of cred (lit key) = []) then now = start else P (text_of cred (lit key)) now.
Proof.
  intros Hk Ha H. rewrite text_given. destruct (assoc cred (lit key)) as [v|]; cbn [mbind option_bind from_option] in *; [by apply (field_given l key)|].
  unfold field_is in H. by rewrite Ha in H.
Qed.
Lemma text_of_trimmed cred k : trim_space (text_of cred k) = text_of cred k.
Proof. rewrite text_given. destruct (assoc cred k); [apply trim_spaces|done]. Qed.

Lemma wizard_read e name cred p : Forall (fun kv => kv.1 ∈ credentialKeys) cred → NoDup cred.*1 →
  walkOIDC json_strings url_parse read_text file_exists parse_duration client_cert (oidc_node e name cred) = Ok p → wizard_says e name cred p.
Proof.
  intros Hc Hnd Hw. destruct (walk_mapping _ _ Hw) as (Hl & q & plain & Hck & Hf & key & th & ex & ->).
  destruct (oidc_values_assoc e name cred Hc Hnd) as (A1 & A2 & A3 & A4 & A5 & A6 & A7 & A8 & A9 & A10 & A11).
  destruct (walk_fields _ _ _ Hl Hf) as (F1 & F2 & F3 & F4 & F5 & F6 & F7 & F8 & F9 & F10 & F11 & F12 & F13 & F14 & F15 & F16).
  unfold wizard_says. cbn [op_Name op_Issuer op_ClientID op_ClientSecret op_Scopes op_Session op_MFAAcr op_CAFile op_UserClaim op_GroupsClaim op_RolesClaim op_SecretFile op_CertFile op_KeyFile].
  assert (∀ key, lit key ∈ credentialKeys → assoc (oidc_values e name cred) (lit key) = assoc cred (lit key) ≫= given) as Ac by (intros; by apply A4).
  apply (field_cred _ cred) in F11; [|done|apply Ac; vm_compute; set_solver]. apply (field_cred _ cred) in F12; [|done|apply Ac; vm_compute; set_solver].
  pose proof (field_cred _ cred "client_secret_file" _ _ _ eq_refl (Ac "client_secret_file" ltac:(vm_compute; set_solver)) F13) as G13.
  split_and!.
  - exact (field_text _ "name" _ _ _ eq_refl eq_refl A1 F1).
  - apply (field_given _ "issuer" _ _ _ _ eq_refl A2) in F2. destruct (bool_decide_reflect (trim_space (oe_Issuer e) = [])) as [->|]; [done|]. by rewrite trim_spaces in F2.
  - exact (field_text _ "client_id" _ _ _ eq_refl eq_refl A3 F3).
  - exact (field_text _ "ca_file" _ _ _ eq_refl eq_refl A8 F4).
  - exact (field_text _ "username_claim" _ _ _ eq_refl eq_refl A9 F5).
  - unfold says in A10. destruct (bool_decide_reflect (trim_space (oe_GroupsClaim e) = lit "groups")) as [Hg|Hg].
    + unfold field_is in F6. rewrite A10 in F6. by rewrite Hg.
    + apply (field_given _ "groups_claim" _ _ _ _ eq_refl A10) in F6. rewrite !trim_spaces in F6. revert F6. by destruct (bool_decide (trim_space (oe_GroupsClaim e) = [])).
  - unfold says in A11. destruct (bool_decide_reflect (trim_space (oe_RolesClaim e) = lit "roles")) as [Hg|Hg].
    + unfold field_is in F7. rewrite A11 in F7. by rewrite Hg.
    + apply (field_given _ "roles_claim" _ _ _ _ eq_refl A11) in F7. rewrite !trim_spaces in F7. revert F7. by destruct (bool_decide (trim_space (oe_RolesClaim e) = [])).
  - cbn zeta in A6 |- *. rewrite <- negb_orb in A6. destruct (bool_decide (trim_space (oe_Session e) = []) || bool_decide (trim_space (oe_Session e) = lit "8h")) eqn:Es.
    + unfold field_is in F8. by rewrite A6 in F8.
    + apply (field_given _ "session" _ _ _ _ eq_refl A6) in F8. rewrite !trim_spaces in F8. apply orb_false_iff in Es as [Es _]. by rewrite Es in F8.
  - intros Hw'. destruct (bool_decide_reflect (oe_Scopes e = oidcDefaultScopes)) as [Hd|Hd].
    + unfold field_is in F9. rewrite A5 in F9. rewrite F9, Hd. vm_compute. done.
    + apply (field_list _ "scopes" _ _ _ _ eq_refl A5) in F9. cbn zeta. destruct (bool_decide _); [done|].
      rewrite trim_join in F9 by apply given_words_trimmed. rewrite scopes_read in F9; [done|].
      apply Forall_and. split; [eapply Forall_impl; [apply given_words_trimmed|]; by intros ? []|done].
  - intros Hw'. apply (field_list _ "mfa_acr_values" _ _ _ _ eq_refl A7) in F10. destruct (bool_decide_reflect (given_words (oe_MFAAcr e) = [])) as [->|]; [done|].
    rewrite trim_join in F10 by apply given_words_trimmed.
    assert (Forall (fun w => w ≠ [] ∧ trim_space w = w ∧ word_ok (lit ";,") w) (given_words (oe_MFAAcr e))) as Hall; [|by rewrite (proj1 (list_read _ Hall)) in F10].
    pose proof (given_words_trimmed (oe_MFAAcr e)) as Ht. clear -Ht Hw'. induction Ht as [|w ws [H1 H2] Ht IH]; [constructor|]. apply Forall_cons in Hw' as [? ?]. constructor; [done|by apply IH].
  - destruct (bool_decide_reflect (text_of cred (lit "client_secret_file") = [])) as [->|]; [done|]. destruct G13 as [-> _]. apply text_of_trimmed.
  - destruct (bool_decide_reflect (text_of cred (lit "client_certificate") = [])) as [->|]; [done|]. rewrite F11. apply text_of_trimmed.
  - destruct (bool_decide_reflect (text_of cred (lit "client_key") = [])) as [->|]; [done|]. rewrite F12. apply text_of_trimmed.
  - assert (∀ k, k ∈ (oidc_values e name cred).*1 → is_Some (assoc (oidc_values e name cred) k)) as Hin.
    { intros k (kv & -> & Hkv)%list_elem_of_fmap. unfold assoc. destruct (find _ _) eqn:E; [by eexists|]. apply list_elem_of_In in Hkv. apply (find_none _ _ E) in Hkv. by apply bool_decide_eq_false in Hkv. }
    assert (plain && negb (bool_decide (op_SecretFile q = [])) = false) as Hone.
    { unfold oidc_checks in Hck. repeat match type of Hck with (if ?b then _ else _) = None => let H := fresh "C" in destruct b eqn:H; [discriminate|] end. done. }
    destruct (bool_decide_reflect (op_SecretFile q = [])) as [Hsf|Hsf].
    + assert (lit "client_secret_file" ∉ (oidc_values e name cred).*1) as Hno.
      { intros [v Hv]%Hin. unfold field_is in F13. rewrite Hv in F13. by destruct F13 as (? & _ & _ & ?). }
      pose proof (field_cred _ cred "client_secret" _ _ _ eq_refl (Ac "client_secret" ltac:(vm_compute; set_solver)) (F15 Hno)) as G.
      destruct (bool_decide_reflect (text_of cred (lit "client_secret") = [])) as [->|]; [done|]. by rewrite text_of_trimmed in G.
    + rewrite andb_true_r in Hone. assert (lit "client_secret" ∉ (oidc_values e name cred).*1) as Hno.
      { intros [v Hv]%Hin. unfold field_is in F14. rewrite Hv in F14. destruct F14 as (? & _ & ?). congruence. }
      pose proof (field_cred _ cred "client_secret_file" _ _ _ eq_refl (Ac "client_secret_file" ltac:(vm_compute; set_solver)) (F16 Hno)) as G.
      destruct (bool_decide_reflect (text_of cred (lit "client_secret_file") = [])) as [He|]; [done|]. destruct G13 as [-> _]. done.
Qed.
End Reading.


(** * An edit, read again *)

Lemma keys_of_fst keys item : (keys_of keys item).*1 = filter (fun k => is_Some (mapGet item k)) keys.
Proof.
  unfold keys_of. induction keys as [|k keys IH]; [done|]. rewrite bind_cons, fmap_app, IH, filter_cons.
  destruct (mapGet item k); cbn; [by rewrite decide_True by eauto|]. rewrite decide_False; [done|]. by intros [? ?].
Qed.
Lemma credential_known item e base c fs fs' cleanup cred pem : credential item e base c fs = (fs', cleanup, Ok (cred, pem)) →
  Forall (fun kv => kv.1 ∈ credentialKeys) cred ∧ NoDup cred.*1.
Proof.
  intros [_ H]%credential_keys. destruct (_ || _).
  - destruct H as (it & _ & ->). split.
    + assert (Forall (fun k => k ∈ credentialKeys) (keys_of credentialKeys it).*1) as H; [|by apply Forall_fmap in H].
      rewrite keys_of_fst. apply Forall_forall. by intros k [_ Hk]%list_elem_of_filter.
    + rewrite keys_of_fst. apply NoDup_filter. apply (bool_decide_eq_true_1 _). vm_compute. reflexivity.
  - destruct (says _ _); subst cred; (split; [repeat constructor; apply (bool_decide_eq_true_1 _); vm_compute; reflexivity|apply (bool_decide_eq_true_1 _); vm_compute; reflexivity]).
Qed.

Lemma trim_newline s : trim_space (s ++ [10]) = trim_space s.
Proof.
  unfold trim_space, trim_func. assert (drop_while is_space (s ++ [10]) = match drop_while is_space s with [] => [] | t => t ++ [10] end) as ->.
  { induction s as [|b s IH]; [done|]. cbn. by destruct (is_space b). }
  destruct (drop_while is_space s) as [|b t]; [done|]. rewrite reverse_snoc. by cbn.
Qed.
(** A path in a rooted folder, named by its extension, is as it is written. *)
Lemma path_join_rooted dir x : is_rooted dir = true → ∃ s, path_join dir x = slash :: s.
Proof.
  unfold is_rooted. intros [d ->]%has_prefix_spec. change (lit "/") with [slash]. cbn [app]. unfold path_join. rewrite filter_cons_True by done.
  assert (∃ t, join (lit "/") ((slash :: d) :: filter (fun s => s <> []) [x]) = slash :: t) as [t ->] by (destruct (filter _ _); cbn; eauto).
  destruct (path_clean_rooted t) as (cs & _ & -> & _). eauto.
Qed.
Lemma trim_path dir name c ext : is_rooted dir = true → from_option is_space false (last ext) = false → ext ≠ [] →
  trim_space (base_path dir name c ++ ext) = base_path dir name c ++ ext.
Proof.
  intros Hd Hl He. apply trim_edges.
  - destruct (path_join_rooted dir (fileSlug name ++ lit "-" ++ ca_stamp c) Hd) as [s Hs]. unfold base_path. by rewrite Hs.
  - rewrite last_app. destruct (last ext) eqn:E; [done|]. by apply last_None in E.
Qed.

Lemma rename_self n (l : list bytes) : rename_name n n <$> l = l.
Proof. induction l as [|x l IH]; [done|]. cbn. rewrite IH. f_equal. unfold rename_name. by case_bool_decide. Qed.

Section Edited.
Context (json_strings : list bytes → bytes) (url_parse : bytes → option parsed_url) (file_exists : bytes → bool).
Context (parse_duration : bytes → option Z) (client_cert : bytes → bytes → res err (bytes * bytes * Z)).
Context (dir : bytes).

(** What is read of an item written with that credential. *)
Lemma item_read root e item c fs fs1 fs' r cleanup cred pem root' p :
  is_rooted dir = true → says (oe_Op e) "delete" = false →
  edit_oidc dir root e c fs = (fs', r, Ok root') → credential item e (base_path dir (new_name e) c) c fs1 = (fs', cleanup, Ok (cred, pem)) →
  walkOIDC json_strings url_parse (fun q => fs' !! q) file_exists parse_duration client_cert (oidc_node e (new_name e) cred) = Ok p →
  wizard_says (fun q => fs' !! q) parse_duration e (new_name e) cred p ∧ (says (oe_Credential e) "secret" = true → op_ClientSecret p = trim_space (oe_Secret e)).
Proof.
  intros Hd Hdel H Hc Hw. destruct (credential_known _ _ _ _ _ _ _ _ _ Hc) as [K1 K2].
  pose proof (wizard_read _ _ _ _ _ _ _ _ _ _ K1 K2 Hw) as Hs. split; [done|]. intros Hsec.
  destruct (edit_oidc_files _ _ _ _ _ _ _ _ H) as (ws & Hwr & _ & Hok). destruct (Hok eq_refl Hdel) as [-> _].
  destruct (credential_keys _ _ _ _ _ _ _ _ _ Hc) as [_ Hck]. unfold says in Hck, Hsec. apply bool_decide_eq_true in Hsec. rewrite Hsec in Hck. cbn [orb] in Hck.
  change (bool_decide (lit "secret" = lit "keep")) with false in Hck. change (bool_decide (lit "secret" = lit "")) with false in Hck. change (bool_decide (lit "secret" = lit "secret")) with true in Hck. cbn [orb] in Hck. subst cred.
  set (here := base_path dir (new_name e) c) in *. destruct Hs as (_ & _ & _ & _ & _ & _ & _ & _ & _ & _ & Hsf & _ & _ & Hcs).
  rewrite text_given in Hsf. change (assoc [(lit "client_secret_file", here ++ lit ".secret")] (lit "client_secret_file")) with (Some (here ++ lit ".secret")) in Hsf.
  cbn [from_option] in Hsf. unfold here in Hsf. rewrite trim_path in Hsf by done. fold here in Hsf. rewrite Hsf in Hcs. rewrite bool_decide_false in Hcs by (by destruct here).
  destruct Hcs as (b & Hb & ->). destruct Hwr as (_ & _ & _ & Hwr & _). rewrite (Hwr _ (oe_Secret e ++ [10])) in Hb; [injection Hb as <-; apply trim_newline|].
  unfold written_files, says. rewrite Hsec. change (bool_decide (lit "secret" = lit "secret")) with true. by left.
Qed.

End Edited.

(** ** Witness

    The item renamed, its credential a new secret: read back. *)

Definition demo_edited_oidc : files * oidcEditResult * res err node := edit_oidc demo_dir (demo_items "/etc/oidc/old" "/etc/lab") (demo_change "update" "secret") demo_calls ∅.
Definition demo_walk (fs : files) (item : node) : res err OIDCProvider :=
  walkOIDC (fun _ => []) (fun _ => Some (mkParsedURL (lit "https") (lit "id.example") false [] [] [])) (fun q => fs !! q) (fun _ => true) (fun _ => None) (fun _ _ => Err "no"%string) item.
