(* ===== verification/Console.v ===== *)
(** Console: who the web console answers ([console.go]): the checks every
    request passes, sign-ins and their sessions, with any number of requests,
    sign-ins and changes of the password at once; and the order in which the
    rules page lists rules ([console_rules.go]). *)

From S2P Require Import Prelude GoStr NetIP Rules Config Password Http.

(** * The order of the rules page

    [evaluationOrder]: [sort.SliceStable] by kind, then literal characters. *)
Definition listed_before (a b : Rule) : bool :=
  if negb (kind_num (r_Kind a) =? kind_num (r_Kind b)) then kind_num (r_Kind a) <? kind_num (r_Kind b)
  else bool_decide (r_Kind a = kindWildcard) && (r_literalChars b <? r_literalChars a).
Definition evaluationOrder (rules : list Rule) : list Rule := stable_sort listed_before rules.

(** What the page shows under a listener: its rules, in that order. *)
Definition listed (rules : list Rule) (listener : bytes) : list Rule := listener_rules (evaluationOrder rules) listener.

Lemma listed_filter {A} (P : A → Prop) `{∀ x, Decision (P x)} l x y : before (filter P l) x y ↔ P x ∧ P y ∧ before l x y.
Proof.
  induction l as [|z l IH]; [split; [intros (i & j & _ & Hi & _); done|intros (_ & _ & i & j & _ & Hi & _); done]|].
  rewrite filter_cons. destruct (decide (P z)) as [Hz|Hz]; rewrite !before_cons, ?IH, ?list_elem_of_filter; [naive_solver|].
  split; [naive_solver|]. intros (Hx & Hy & [[-> _]|Hb]); done.
Qed.
Lemma before_nodup {A} (l : list A) x y : NoDup l → before l x y → ¬ before l y x.
Proof.
  intros Hl (i & j & Hij & Hi & Hj) (i' & j' & Hij' & Hi' & Hj').
  pose proof (NoDup_lookup _ _ _ _ Hl Hi Hj'). pose proof (NoDup_lookup _ _ _ _ Hl Hj Hi'). lia.
Qed.
Lemma find_before {A} (p : A → bool) l x : x ∈ l → p x = true → ∃ y, find p l = Some y ∧ p y = true ∧ (x = y ∨ before l y x).
Proof.
  induction l as [|z l IH]; [by intros ?%not_elem_of_nil|]. cbn [find]. intros Hx Hp. destruct (p z) eqn:Ez.
  - exists z. split_and!; [done..|]. apply elem_of_cons in Hx as [->|Hx]; [by left|]. right. apply before_cons. by left.
  - apply elem_of_cons in Hx as [->|Hx]; [congruence|]. destruct (IH Hx Hp) as (y & ? & ? & [?|?]); exists y; split_and!; try done; [by left|].
    right. apply before_cons. by right.
Qed.

Lemma listed_before_spec x y : listed_before x y = true ↔
  kind_num (r_Kind x) < kind_num (r_Kind y) ∨ r_Kind x = kindWildcard ∧ r_Kind y = kindWildcard ∧ r_literalChars y < r_literalChars x.
Proof.
  unfold listed_before. destruct (Z.eqb_spec (kind_num (r_Kind x)) (kind_num (r_Kind y))) as [E|E]; cbn [negb].
  - apply kind_num_inj in E. rewrite andb_true_iff, bool_decide_eq_true, Z.ltb_lt, E. split; [naive_solver|]. intros [H|H]; [lia|naive_solver].
  - rewrite Z.ltb_lt. split; [by left|]. intros [?|(H1 & H2 & _)]; [done|]. by rewrite H1, H2 in E.
Qed.

Lemma rules_nodup all name routes w : prioritiseListener all name = Ok (routes, w) → NoDup (listener_rules all name).
Proof.
  unfold prioritiseListener. destruct (collect_all _ _) as [c|] eqn:E; [|done]. intros _.
  apply (collect_all_ok _ _ []) in E as Hc; [|apply collected_start]. apply (collected_nodup _ _ Hc).
Qed.
(** One name has at most one literal rule. *)
Lemma same_kind_same all name routes w r f sni : prioritiseListener all name = Ok (routes, w) →
  r ∈ listener_rules all name → f ∈ listener_rules all name → rule_matches r sni = true → rule_matches f sni = true →
  r_Kind r = r_Kind f → r_Kind r ≠ kindWildcard → r = f.
Proof.
  unfold prioritiseListener. destruct (collect_all _ _) as [c|] eqn:E; [|done]. intros _ Hr Hf Hmr Hmf Hk Hw.
  apply (collect_all_ok _ _ []) in E as Hc; [|apply collected_start]. cbn [app] in Hc. destruct (r_Kind r) eqn:Ek; try done.
  - pose proof (collected_first _ _ Hc r Hr ltac:(by left)). pose proof (collected_first _ _ Hc f Hf ltac:(by left)). congruence.
  - apply literal_matches in Hmr, Hmf; [|done..]. pose proof (collected_all _ _ Hc r Hr Ek) as H1. pose proof (collected_all _ _ Hc f Hf ltac:(done)) as H2. congruence.
  - pose proof (collected_first _ _ Hc r Hr ltac:(by right)). pose proof (collected_first _ _ Hc f Hf ltac:(by right)). congruence.
Qed.

Definition tried (stopped : bytes → bool) (sni : bytes) (r : Rule) : bool := rule_matches r sni && negb (stopped (Key r)).

(** The rules page lists a listener's rules in the order they are tried:
    for every name, and whichever rules are stopped, the proxy goes by the
    first of the rules as listed that matches the name and is not stopped, and
    by none exactly when there is none. *)
Theorem listed_as_tried all name routes w sni stopped :
  Forall pattern_ok all → prioritiseListener all name = Ok (routes, w) → 0 ∉ sni →
  RouteExcept routes sni stopped = match find (tried stopped sni) (listed all name) with
    | Some r => decide_rule r sni (submatches r sni)
    | None => no_decision
    end.
Proof.
  intros Hp Hl H0. assert (∀ r, r ∈ listed all name ↔ r ∈ listener_rules all name) as Hin.
  { intros r. unfold listed, listener_rules. rewrite !list_elem_of_filter. unfold evaluationOrder. by rewrite elem_of_stable_sort. }
  destruct (route_takes all name routes w sni stopped Hp Hl H0) as [[-> Hnone]|(r & (Hr & Hst & Hm & Hbest) & ->)].
  - destruct (find _ _) as [f|] eqn:Ef; [|done]. apply find_some in Ef as [Hf%list_elem_of_In [Hm Hst%negb_true_iff]%andb_true_iff].
    rewrite (Hnone f) in Hm; [done|by apply Hin|done].
  - destruct (find_before (tried stopped sni) (listed all name) r) as (f & -> & [Hmf Hsf%negb_true_iff]%andb_true_iff & Hb);
      [by apply Hin|unfold tried; by rewrite Hm, Hst|]. enough (r = f) as -> by done. destruct Hb as [?|Hb]; [done|].
    apply (listed_filter (fun r => r_Listener r = name)) in Hb as (Hnf & Hnr & Hb).
    assert (f ∈ listener_rules all name) as Hf.
    { apply list_elem_of_filter. split; [done|]. destruct Hb as (i & _ & _ & Hi & _). apply list_elem_of_lookup_2, elem_of_stable_sort in Hi. done. }
    pose proof (stable_sort_stable _ _ _ _ Hb) as Hs. apply stable_sort_before in Hb.
    2: { intros x y z Hxy Hyz. apply not_true_iff_false. rewrite listed_before_spec. apply not_true_iff_false in Hxy, Hyz. rewrite listed_before_spec in Hxy, Hyz.
         rewrite !kind_num_inj in *. lia. }
    2: { intros x y Hxy. apply not_true_iff_false. rewrite listed_before_spec in *. rewrite !kind_num_inj in *. lia. }
    destruct (decide (r_Kind r = r_Kind f ∧ r_Kind r ≠ kindWildcard)) as [[Hk Hw]|Hk]; [by eapply same_kind_same|].
    destruct (Hbest f Hf Hsf Hmf) as [?|[Hms|[Hms Hrf]]]; [done|..]; exfalso.
    + apply not_true_iff_false in Hb. rewrite listed_before_spec in Hb. apply more_specific_spec in Hms. apply Hb. destruct Hms as [?|[Hkk ?]]; [by left|right].
      destruct (r_Kind r) eqn:Ek; try (exfalso; apply Hk; split; congruence). split_and!; congruence || lia.
    + apply (before_nodup (listener_rules all name) r f); [by eapply rules_nodup|done|]. destruct Hs as [Hs|Hs].
      * exfalso. apply not_true_iff_false in Hms. apply Hms, more_specific_spec. apply listed_before_spec in Hs as [?|(? & ? & ?)]; [by left|]. right. split; [congruence|done].
      * apply listed_filter. by split_and!.
Qed.

(** * The checks of every request *)

(** [knownHost] *)
Definition knownHost (domain host : bytes) : bool :=
  if negb (bool_decide (domain = [])) then
    match parse_addr domain with
    | Some want => match parse_addr host with Some got => bool_decide (unmap got = want) | None => false end
    | None => bool_decide (host = domain)
    end
  else bool_decide (is_Some (parse_addr host)).

(** The host a request is for, as [guard] compares it. *)
Definition guard_host (host : bytes) : bytes :=
  let host := match split_host_port host with Some (h, _) => h | None => host end in
  to_lower (trim host (lit "[]")).

(** Who may be connected to, in the Content-Security-Policy. *)
Definition connect_src (host : bytes) : bytes :=
  let origin :=
    match split_host_port host with
    | None => host
    | Some (name, port) =>
        if negb (bool_decide (port = [])) && bool_decide (trim port (lit "0123456789") = []) then
          (if contains name (ch ":") then lit "[" ++ name ++ lit "]" else name) ++ lit ":" ++ port
        else []
    end in
  lit "'self'" ++ (if bool_decide (origin = []) then [] else lit " ws://" ++ origin ++ lit " wss://" ++ origin).
Definition policy (host : bytes) : bytes :=
  lit "default-src 'self'; style-src 'self' 'unsafe-inline'; script-src 'self' 'unsafe-inline'; connect-src " ++ connect_src host ++ lit "; frame-ancestors 'none'".

(** [guard]: the status refused with, if it is. *)
Definition is_post (q : request) : bool := bool_decide (rq_Method q = lit "POST").
Definition guard (domain : bytes) (q : request) : option Z :=
  if negb (knownHost domain (guard_host (rq_Host q))) then Some 403
  else if is_post q && negb (has_prefix (hdr_get (rq_Header q) (lit "Content-Type")) (lit "application/json")) then Some 415
  else None.

(** * Sessions

    Besides the CSRF token and the expiry, which the code keeps, a session
    here has what it was signed in with, against which hash, and when. *)

Definition sessionCookie : bytes := lit "tlsproxy_session".
Definition sessionLifetime : Z := 12 * 3600 * second.

Record session := mkSession { ss_csrf : bytes; ss_expires : Z; ss_hash : bytes; ss_password : bytes; ss_since : Z }.

(** What a request asks for, past [guard]: a sign-in, with the password its
    body gives if it is JSON, signing out, or anything else under [/api]. *)
Inductive ask := Login (password : option bytes) | Logout | Api.

(** Where a request is. A sign-in waits for [verifyMu], holds it, and checks
    the password against the hash read. [Handled]: a handler runs for it; the
    moment, the cookie, its session, and the hash and the domain then. *)
Inductive asking :=
| Arrived | Guarded (domain : bytes) | Waits | Holds | Checking (hash : bytes) | Leaves
| Answered (status : Z)
| Handled (at_ : Z) (domain id : bytes) (s : session) (hash : bytes).

(** [update]: waits for [verifyMu], holds it, done. *)
Inductive updating := UWaits | UHolds | UDone.
Inductive task := TAsk (q : request) (a : ask) (st : asking) | TUpdate (cfg : ConsoleConfig) (st : updating).

(** [co_verify]: who holds [verifyMu]; [co_checks]: the passwords checked so
    far, when, and whether they were right. *)
Record console := mkConsole {
  co_hash : bytes; co_domain : bytes; co_sessions : gmap bytes session; co_failures : Z; co_lockedUntil : Z;
  co_verify : option nat; co_now : Z; co_tasks : list task; co_checks : list (Z * bool);
}.
Definition new_console (now : Z) : console := mkConsole [] [] ∅ 0 0 None now [] [].

(** [session]: the session of a request's cookie, unless it has expired; one
    that has goes. *)
Definition session_of (now : Z) (q : request) (sessions : gmap bytes session) : option (bytes * session) * gmap bytes session :=
  match find_cookie (rq_Header q) sessionCookie with
  | None => (None, sessions)
  | Some id =>
      match sessions !! id with
      | Some s => if ss_expires s <? now then (None, delete id sessions) else (Some (id, s), sessions)
      | None => (None, sessions)
      end
  end.

(** How long sign-ins are refused after the [failures]th in a row, from the
    fifth on. *)
Definition lock_time (failures : Z) : Z := Z.min (Z.shiftl (30 * second) (Z.min (failures - 5) 5)) (15 * 60 * second).

Section Steps.
Context (checkPassword : bytes → bytes → bool).              (* checkPassword of password.go: see Password *)

(** The end of a sign-in, under [mu]; [tokens] are the two random ones. *)
Definition finish_login (i : nat) (q : request) (hash password : bytes) (tokens : option (bytes * bytes)) (s : console) : console :=
  let 'mkConsole h dom ss fails lock ver now ts checks := s in
  let ok := checkPassword hash password in
  let done status := <[i := TAsk q (Login (Some password)) (Answered status)]> ts in
  if negb ok then
    let fails := fails + 1 in
    mkConsole h dom ss fails (if 5 <=? fails then now + lock_time fails else lock) None now (done 401) (checks ++ [(now, false)])
  else
    let ss := filter (fun e => (ss_expires e.2 <? now) = false) ss in
    match tokens with
    | None => mkConsole h dom ss 0 lock None now (done 500) (checks ++ [(now, true)])
    | Some (id, csrf) => mkConsole h dom (<[id := mkSession csrf (now + sessionLifetime) hash password now]> ss) 0 lock None now (done 200) (checks ++ [(now, true)])
    end.

(** One step of a task: what it does under a lock, or between two. *)
Definition task_step (i : nat) (tokens : option (bytes * bytes)) (s : console) : option console :=
  let 'mkConsole h dom ss fails lock ver now ts checks := s in
  let move t := Some (mkConsole h dom ss fails lock ver now (<[i := t]> ts) checks) in
  match ts !! i with
  | Some (TAsk q a st) =>
      match st with
      | Arrived => move (TAsk q a (match guard dom q with Some status => Answered status | None => Guarded dom end))
      | Guarded d =>
          match a with
          | Login None => move (TAsk q a (Answered 400))
          | Login (Some _) => move (TAsk q a Waits)
          | _ =>
              let '(found, ss) := session_of now q ss in
              let st := match found with
                        | None => Answered 401
                        | Some (id, se) =>
                            if is_post q && negb (bool_decide (hdr_get (rq_Header q) (lit "X-CSRF-Token") = ss_csrf se)) then Answered 403
                            else match a with Logout => Leaves | _ => Handled now d id se h end
                        end in
              Some (mkConsole h dom ss fails lock ver now (<[i := TAsk q a st]> ts) checks)
          end
      | Waits => match ver with None => Some (mkConsole h dom ss fails lock (Some i) now (<[i := TAsk q a Holds]> ts) checks) | Some _ => None end
      | Holds =>
          if now <? lock then Some (mkConsole h dom ss fails lock None now (<[i := TAsk q a (Answered 429)]> ts) checks)
          else move (TAsk q a (Checking h))
      | Checking hash => match a with Login (Some password) => Some (finish_login i q hash password tokens s) | _ => None end
      | Leaves =>
          let ss := match find_cookie (rq_Header q) sessionCookie with Some id => delete id ss | None => ss end in
          Some (mkConsole h dom ss fails lock ver now (<[i := TAsk q a (Answered 200)]> ts) checks)
      | Answered _ | Handled _ _ _ _ _ => None
      end
  | Some (TUpdate cfg st) =>
      match st with
      | UWaits => match ver with None => Some (mkConsole h dom ss fails lock (Some i) now (<[i := TUpdate cfg UHolds]> ts) checks) | Some _ => None end
      | UHolds =>
          let new := con_PasswordHash cfg in
          let changed := negb (bool_decide (new = [])) && negb (bool_decide (new = h)) in
          Some (mkConsole (if changed then new else h) (con_Domain cfg) (if changed then ∅ else ss) fails lock None now (<[i := TUpdate cfg UDone]> ts) checks)
      | UDone => None
      end
  | None => None
  end.

(** Requests arrive, the console's settings are applied, time passes, and the
    tasks go on, in any order. *)
Inductive console_step : console → console → Prop :=
| Asks h dom ss fails lock ver now ts checks q a :
    console_step (mkConsole h dom ss fails lock ver now ts checks) (mkConsole h dom ss fails lock ver now (ts ++ [TAsk q a Arrived]) checks)
| Updates h dom ss fails lock ver now ts checks cfg :
    console_step (mkConsole h dom ss fails lock ver now ts checks) (mkConsole h dom ss fails lock ver now (ts ++ [TUpdate cfg UWaits]) checks)
| TimePasses h dom ss fails lock ver now now' ts checks : now <= now' →
    console_step (mkConsole h dom ss fails lock ver now ts checks) (mkConsole h dom ss fails lock ver now' ts checks)
| Goes s s' i tokens : task_step i tokens s = Some s' → console_step s s'.
End Steps.

(** * Who is let in *)

Section Facts.
Context (checkPassword : bytes → bytes → bool).

(** A session of the password now in force, signed in with it. *)
Definition session_ok (hash : bytes) (now : Z) (s : session) : Prop :=
  ss_hash s = hash ∧ checkPassword hash (ss_password s) = true ∧ ss_expires s = ss_since s + sessionLifetime ∧ ss_since s <= now.

(** What is so when a handler runs for a request. *)
Definition let_in (q : request) (at_ : Z) (domain id : bytes) (s : session) (hash : bytes) : Prop :=
  guard domain q = None ∧ find_cookie (rq_Header q) sessionCookie = Some id ∧
  (is_post q = true → hdr_get (rq_Header q) (lit "X-CSRF-Token") = ss_csrf s) ∧
  session_ok hash at_ s ∧ at_ <= ss_expires s.

Definition holds_verify (t : task) : bool :=
  match t with TAsk _ _ Holds | TAsk _ _ (Checking _) | TUpdate _ UHolds => true | _ => false end.
Definition task_ok (s : console) (t : task) : Prop :=
  match t with
  | TAsk q _ (Guarded d) => guard d q = None
  | TAsk q _ (Checking hash) => hash = co_hash s ∧ co_lockedUntil s <= co_now s
  | TAsk q _ (Handled at_ d id se hash) => let_in q at_ d id se hash ∧ at_ <= co_now s
  | _ => True
  end.

(** The wrong passwords since the last right one. *)
Definition wrong_in_a_row (checks : list (Z * bool)) : Z := foldl (fun n c => if c.2 : bool then 0 else n + 1) 0 checks.
Definition spaced (checks : list (Z * bool)) : Prop := ∀ l1 c l2, checks = l1 ++ c :: l2 → 5 <= wrong_in_a_row l1 →
  ∃ t, last l1 = Some (t, false) ∧ t + lock_time (wrong_in_a_row l1) <= c.1.

Record console_ok (s : console) : Prop := {
  ck_sessions : map_Forall (fun _ => session_ok (co_hash s) (co_now s)) (co_sessions s);
  ck_verify : ∀ i t, co_tasks s !! i = Some t → holds_verify t = true → co_verify s = Some i;
  ck_tasks : Forall (task_ok s) (co_tasks s);
  ck_failures : co_failures s = wrong_in_a_row (co_checks s);
  ck_locked : 5 <= co_failures s → ∃ t, last (co_checks s) = Some (t, false) ∧ co_lockedUntil s = t + lock_time (co_failures s);
  ck_spaced : spaced (co_checks s);
}.

#[local] Arguments wrong_in_a_row : simpl never.
Lemma wrong_snoc checks t (b : bool) : wrong_in_a_row (checks ++ [(t, b)]) = if b then 0 else wrong_in_a_row checks + 1.
Proof. unfold wrong_in_a_row. by rewrite foldl_app. Qed.
Lemma spaced_snoc checks t b : spaced checks → (5 <= wrong_in_a_row checks → ∃ t0, last checks = Some (t0, false) ∧ t0 + lock_time (wrong_in_a_row checks) <= t) →
  spaced (checks ++ [(t, b)]).
Proof.
  intros Hs Ht l1 c l2 He H5. destruct l2 as [|c2 l2] using rev_ind.
  - apply app_inj_tail in He as [-> <-]. by apply Ht.
  - clear IHl2. change (l1 ++ c :: l2 ++ [c2]) with (l1 ++ (c :: l2) ++ [c2]) in He. rewrite app_assoc in He. apply app_inj_tail in He as [-> _]. by eapply Hs.
Qed.

Lemma not_holding s t : holds_verify t = false → task_ok s t → ∀ s', co_now s <= co_now s' → task_ok s' t.
Proof. destruct t as [q a []|]; cbn; try done. intros _ [H1 H2] s' Hn. split; [done|lia]. Qed.

(** A task goes on; whoever has [verifyMu] keeps it, or the task takes it or
    gives it back. *)
Lemma ok_goes h dom ss ss' fails lock ver ver' now ts checks i t t' :
  console_ok (mkConsole h dom ss fails lock ver now ts checks) → ts !! i = Some t →
  (∀ j, j ≠ i → ver = Some j → ver' = Some j) → (holds_verify t' = true → ver' = Some i) →
  map_Forall (fun _ => session_ok h now) ss' → task_ok (mkConsole h dom ss fails lock ver now ts checks) t' →
  console_ok (mkConsole h dom ss' fails lock ver' now (<[i := t']> ts) checks).
Proof.
  intros [H1 H2 H3 H4 H5 H6] Hi Hv Ht Hss Hok. cbn in *. split; cbn; try done.
  - intros j u [(-> & <- & _)|[Hne Hj]]%list_lookup_insert_Some Hu; [by apply Ht|]. apply Hv; [done|]. by eapply H2.
  - apply Forall_insert; [|done]. exact H3.
Qed.

(** The holder of [verifyMu] changes the password or the counts, and lets go
    of it. *)
Lemma ok_settles h h' dom dom' ss ss' fails fails' lock lock' now ts checks checks' i t t' :
  console_ok (mkConsole h dom ss fails lock (Some i) now ts checks) → ts !! i = Some t → holds_verify t' = false →
  task_ok (mkConsole h dom ss fails lock (Some i) now ts checks) t' → map_Forall (fun _ => session_ok h' now) ss' →
  fails' = wrong_in_a_row checks' → (5 <= fails' → ∃ t, last checks' = Some (t, false) ∧ lock' = t + lock_time fails') → spaced checks' →
  console_ok (mkConsole h' dom' ss' fails' lock' None now (<[i := t']> ts) checks').
Proof.
  intros [H1 H2 H3 H4 H5 H6] Hi Ht Hok Hss Hf Hl Hsp. cbn in *. 
  assert (∀ j u, ts !! j = Some u → j ≠ i → holds_verify u = false) as Hnone.
  { intros j u Hj Hne. destruct (holds_verify u) eqn:E; [|done]. specialize (H2 j u Hj E). congruence. }
  split; cbn; try done.
  - intros j u [(-> & <- & _)|[Hne Hj]]%list_lookup_insert_Some Hu; [congruence|]. by rewrite (Hnone j u) in Hu.
  - apply Forall_lookup. intros j u [(-> & <- & _)|[Hne Hj]]%list_lookup_insert_Some.
    + by eapply not_holding.
    + eapply not_holding; [by eapply Hnone|by eapply Forall_lookup_1|]. done.
Qed.

Lemma session_later h now now' s : session_ok h now s → now <= now' → session_ok h now' s.
Proof. intros (H1 & H2 & H3 & H4) Hn. split_and!; [done..|lia]. Qed.

Lemma session_of_spec now q ss : match session_of now q ss with
  | (found, ss') => ss' ⊆ ss ∧ match found with
      | Some (id, s) => find_cookie (rq_Header q) sessionCookie = Some id ∧ ss !! id = Some s ∧ now <= ss_expires s
      | None => True
      end
  end.
Proof.
  unfold session_of. destruct (find_cookie _ _) as [id|]; [|done]. destruct (ss !! id) as [s|] eqn:E; [|done].
  destruct (Z.ltb_spec (ss_expires s) now); [|done]. split; [apply delete_subseteq|done].
Qed.

Lemma finish_login_ok i q hash password tokens s : console_ok s → co_tasks s !! i = Some (TAsk q (Login (Some password)) (Checking hash)) →
  console_ok (finish_login checkPassword i q hash password tokens s).
Proof.
  intros Hok Hi. pose proof Hok as [H1 H2 H3 H4 H5 H6]. destruct s as [h dom ss fails lock ver now ts checks]. cbn in *.
  assert (ver = Some i) as -> by (by eapply H2). destruct (Forall_lookup_1 _ _ _ _ H3 Hi) as [Hh Hl]. cbn in Hh, Hl. subst hash.
  assert (∀ b, spaced (checks ++ [(now, b)])) as Hsp.
  { intros b. apply spaced_snoc; [done|]. intros H. rewrite <- H4 in H. destruct (H5 H) as (t & Ht & Hlock). exists t. split; [done|]. cbn. rewrite <- H4. lia. }
  destruct (checkPassword h password) eqn:Ep; cbn [negb].
  - assert (map_Forall (fun _ => session_ok h now) (filter (fun e => (ss_expires e.2 <? now) = false) ss)) as Hss by (intros k se [Hk _]%map_lookup_filter_Some; by eapply H1).
    assert (∀ ss' status, map_Forall (fun _ => session_ok h now) ss' →
      console_ok (mkConsole h dom ss' 0 lock None now (<[i := TAsk q (Login (Some password)) (Answered status)]> ts) (checks ++ [(now, true)]))) as Hdone.
    { intros ss' status Hss'. eapply ok_settles; try done. by rewrite wrong_snoc. }
    destruct tokens as [[id csrf]|]; [|by apply Hdone]. apply Hdone, map_Forall_insert_2; [|done]. split_and!; [done..|]. cbn. lia.
  - eapply ok_settles; try done; [by rewrite wrong_snoc, <- H4|]. intros Hf. exists now. rewrite last_snoc. split; [done|]. by rewrite (proj2 (Z.leb_le 5 (fails + 1)) Hf).
Qed.

Lemma task_step_ok i tokens s s' : console_ok s → task_step checkPassword i tokens s = Some s' → console_ok s'.
Proof.
  intros Hok Hs. pose proof Hok as [H1 H2 H3 H4 H5 H6]. destruct s as [h dom ss fails lock ver now ts checks]. cbn in *.
  destruct (ts !! i) as [[q a st|cfg st]|] eqn:Hi; [| |done]; pose proof (Forall_lookup_1 _ _ _ _ H3 Hi) as Ht; pose proof (H2 i _ Hi) as Hv.
  - destruct st as [|d| | |hash| |status|at_ d id se hash]; try done.
    + injection Hs as <-. eapply ok_goes; try done; destruct (guard dom q) eqn:Eg; done.
    + destruct a as [[p|]| |]; [injection Hs as <-; by eapply ok_goes..| |].
      all: pose proof (session_of_spec now q ss) as Hso; destruct (session_of now q ss) as [found ss'] eqn:Es; destruct Hso as [Hsub Hfound]; injection Hs as <-.
      all: assert (map_Forall (fun _ => session_ok h now) ss') as Hss' by (intros k se Hk; eapply H1, lookup_weaken; done).
      all: destruct found as [[id se]|]; [|by eapply ok_goes]; destruct Hfound as (Hc & Hse & Hex).
      all: destruct (is_post q && _) eqn:Ec; [by eapply ok_goes|]; eapply ok_goes; try done.
      cbn. split; [|lia]. split_and!; [done|done| |by eapply H1|lia]. intros Hp. rewrite Hp in Ec. cbn in Ec. apply negb_false_iff, bool_decide_eq_true in Ec. done.
    + destruct ver; [done|]. injection Hs as <-. by eapply ok_goes.
    + specialize (Hv eq_refl) as ->. destruct (Z.ltb_spec now lock); injection Hs as <-.
      * eapply ok_goes; done || (by intros j Hne [= ->]).
      * by eapply ok_goes.
    + destruct a as [[p|]| |]; try done. injection Hs as <-. by apply (finish_login_ok i q hash p tokens (mkConsole h dom ss fails lock ver now ts checks)).
    + injection Hs as <-. eapply ok_goes; try done. destruct (find_cookie _ _); [|done]. intros k se Hk. eapply H1. by eapply lookup_delete_Some in Hk as [_ ?].
  - destruct st; try done.
    + destruct ver; [done|]. injection Hs as <-. by eapply ok_goes.
    + specialize (Hv eq_refl) as ->. injection Hs as <-. eapply ok_settles; try done. destruct (negb _ && negb _); done.
Qed.

Lemma console_step_ok s s' : console_ok s → console_step checkPassword s s' → console_ok s'.
Proof.
  intros Hok Hs. destruct Hs as [h dom ss fails lock ver now ts checks q a|h dom ss fails lock ver now ts checks cfg|h dom ss fails lock ver now now' ts checks Hle|s s' i tokens Hs].
  4: by eapply task_step_ok.
  all: destruct Hok as [H1 H2 H3 H4 H5 H6]; cbn in *.
  1, 2: split; cbn; try done; [|apply Forall_app; split; [done|by repeat constructor]]; intros i t [Hi|[_ Hi]]%lookup_app_Some Ht; [by eapply H2|];
    apply list_lookup_singleton_Some in Hi as [_ <-]; done.
  split; cbn; try done.
  - intros k se Hk. eapply session_later; [by eapply H1|done].
  - eapply Forall_impl; [exact H3|]. intros [q a []|]; cbn; try done; intros [? ?]; (split; [done|lia]).
Qed.
End Facts.

Lemma lock_time_range n : 5 <= n → 30 * second <= lock_time n <= 15 * 60 * second.
Proof.
  intros Hn. unfold lock_time, second. rewrite Z.shiftl_mul_pow2 by lia.
  assert (1 <= 2 ^ Z.min (n - 5) 5); [|lia]. assert (0 < 2 ^ Z.min (n - 5) 5); [|lia]. apply Z.pow_pos_nonneg; lia.
Qed.
Lemma lock_time_most n : 10 <= n → lock_time n = 15 * 60 * second.
Proof. intros Hn. unfold lock_time. rewrite (Z.min_r (n - 5) 5) by lia. reflexivity. Qed.

Section Reached.
Context (checkPassword : bytes → bytes → bool) (start : Z).

Lemma console_reached s : rtc (console_step checkPassword) (new_console start) s → console_ok checkPassword s.
Proof.
  intros Hs. apply (rtc_invariant _ (console_ok checkPassword)) in Hs; [done| |].
  - intros s1 s2 Hok Hst. by eapply console_step_ok.
  - split; cbn; try done. intros l1 c l2 He. by destruct l1.
Qed.

(** Wrong passwords one after the other, from the fifth on. *)
Lemma spaced_run checks l1 mid l2 t0 : spaced checks → checks = l1 ++ mid ++ l2 → 5 <= wrong_in_a_row l1 → last l1 = Some (t0, false) →
  Forall (fun c => c.2 = false) mid → ∀ c, last mid = Some c → 30 * second * len mid <= c.1 - t0.
Proof.
  intros Hsp He H5 Hl Hf. revert l1 t0 He H5 Hl. induction Hf as [|[t b] mid Hb Hf IH]; intros l1 t0 He H5 Hl c Hc; [done|]. cbn in Hb. subst b.
  destruct (Hsp l1 (t, false) (mid ++ l2) He H5) as (t1 & Ht1 & Hle). rewrite Hl in Ht1. injection Ht1 as <-.
  pose proof (lock_time_range _ H5) as Hr. cbn [fst] in Hle. rewrite len_cons.
  assert (last (l1 ++ [(t, false)]) = Some (t, false)) as Hlast by apply last_snoc.
  destruct mid as [|c2 mid]; [injection Hc as <-; cbn [fst]; rewrite len_nil; lia|].
  assert (30 * second * len (c2 :: mid) <= c.1 - t); [|lia].
  apply (IH (l1 ++ [(t, false)])); [by rewrite He, <- app_assoc|rewrite wrong_snoc; change (5 <= wrong_in_a_row l1 + 1); lia|done|done].
Qed.
End Reached.

(** * Theorems *)


(** C10: Guessing the console's password is slow, however many clients guess at
    once. At most one password is checked at a time; from the fifth wrong one
    in a row on, none is checked until 30 s have passed since the last, twice
    as long after each further one, at most 15 minutes, which it is from the
    tenth on. So [n] wrong passwords in a row after the fifth take at least
    [n] times 30 s. *)
Theorem sign_ins_limited (checkPassword : bytes → bytes → bool) (start : Z) (s : console) :
  rtc (console_step checkPassword) (new_console start) s →
  (∀ l1 c l2, co_checks s = l1 ++ c :: l2 → 5 <= wrong_in_a_row l1 →
     ∃ t, last l1 = Some (t, false) ∧ t + lock_time (wrong_in_a_row l1) <= c.1 ∧
       30 * second <= lock_time (wrong_in_a_row l1) ∧ (10 <= wrong_in_a_row l1 → lock_time (wrong_in_a_row l1) = 15 * 60 * second)) ∧
  (∀ l1 mid l2 t0 c, co_checks s = l1 ++ mid ++ l2 → 5 <= wrong_in_a_row l1 → last l1 = Some (t0, false) →
     Forall (fun c => c.2 = false) mid → last mid = Some c → 30 * second * len mid <= c.1 - t0) ∧
  (∀ i j q q' a a' h h', co_tasks s !! i = Some (TAsk q a (Checking h)) → co_tasks s !! j = Some (TAsk q' a' (Checking h')) → i = j).
Proof.
  intros Hs. apply console_reached in Hs as [_ H2 _ _ _ H6]. split_and!.
  - intros l1 c l2 He H5. destruct (H6 l1 c l2 He H5) as (t & Ht & Hle). exists t. split_and!; [done|done|by apply lock_time_range|by apply lock_time_most].
  - intros l1 mid l2 t0 c He H5 Hl Hf Hc. by eapply spaced_run.
  - intros i j q q' a a' h h' Hi Hj. pose proof (H2 i _ Hi eq_refl). pose proof (H2 j _ Hj eq_refl). congruence.
Qed.

(** ** Witnesses *)

Lemma listed_as_tried_witness : ∃ routes w, prioritiseListener w_rules (lit "lan") = Ok (routes, w) ∧
  r_Line <$> listed w_rules (lit "lan") = [9; 7; 5; 3] ∧
  RouteExcept routes (lit "api-2.example.com") (fun _ => false) = match find (tried (fun _ => false) (lit "api-2.example.com")) (listed w_rules (lit "lan")) with
    | Some r => decide_rule r (lit "api-2.example.com") (submatches r (lit "api-2.example.com"))
    | None => no_decision
    end.
Proof.
  do 2 eexists. split; [vm_compute; reflexivity|]. split; [vm_compute; reflexivity|].
  eapply (listed_as_tried w_rules (lit "lan")); [apply w_rules_ok|vm_compute; reflexivity|apply w_sni_plain].
Defined.

(** The password is its own hash; it is set, somebody signs in and saves. *)
Definition demo_check (hash password : bytes) : bool := bool_decide (hash = password).
Definition demo_request (method : string) (hs : list (bytes * bytes)) : request :=
  mkRequest (lit method) (1, 1) (lit "admin.lan:443") [] [] [] [] [] (foldl (fun h e => hdr_add h e.1 e.2) ∅ hs) [] None None.
Definition demo_json : bytes * bytes := (lit "Content-Type", lit "application/json").
Definition demo_save : request := demo_request "POST" [demo_json; (lit "Cookie", sessionCookie ++ lit "=aa11"); (lit "X-CSRF-Token", lit "bb22")].
Inductive demo_event := DAsk (q : request) (a : ask) | DUpdate (cfg : ConsoleConfig) | DPass (to : Z) | DGo (i : nat).
Definition demo_do (s : console) (e : demo_event) : option console :=
  let 'mkConsole h dom ss fails lock ver now ts checks := s in
  match e with
  | DAsk q a => Some (mkConsole h dom ss fails lock ver now (ts ++ [TAsk q a Arrived]) checks)
  | DUpdate cfg => Some (mkConsole h dom ss fails lock ver now (ts ++ [TUpdate cfg UWaits]) checks)
  | DPass to => if now <=? to then Some (mkConsole h dom ss fails lock ver to ts checks) else None
  | DGo i => task_step demo_check i (Some (lit "aa11", lit "bb22")) s
  end.
Definition demo_run (es : list demo_event) : option console := foldl (fun s e => s ≫= fun s => demo_do s e) (Some (new_console 0)) es.
Lemma console_demo_runs es s : demo_run es = Some s → rtc (console_step demo_check) (new_console 0) s.
Proof.
  unfold demo_run. revert s. induction es as [|e es IH] using rev_ind; intros s; [intros [= <-]; apply rtc_refl|]. rewrite foldl_app. cbn.
  destruct (foldl _ _ es) as [s1|]; [|done]. cbn. intros He. eapply rtc_r; [by apply IH|]. destruct s1 as [h dom ss fails lock ver now ts checks]. destruct e; cbn [demo_do] in He.
  - injection He as <-. apply Asks.
  - injection He as <-. apply Updates.
  - destruct (Z.leb_spec now to); [|done]. injection He as <-. by apply TimePasses.
  - by eapply Goes.
Qed.
Definition demo_setup : list demo_event := [DUpdate (mkConsoleConfig [] [] 443 (lit "admin.lan") [] (lit "pw") false); DGo 0; DGo 0].
Definition demo_saved : list demo_event := demo_setup ++
  [DAsk (demo_request "POST" [demo_json]) (Login (Some (lit "pw"))); DPass (5 * second); DGo 1; DGo 1; DGo 1; DGo 1; DGo 1; DAsk demo_save Api; DPass (7 * second); DGo 2; DGo 2].

(** Six wrong guesses, the last one as soon as it is let. *)
Definition demo_guess (i : nat) : list demo_event := [DAsk (demo_request "POST" [demo_json]) (Login (Some (lit "guess"))); DGo i; DGo i; DGo i; DGo i; DGo i].
Definition demo_guesses : list demo_event := demo_setup ++ concat (demo_guess <$> [1; 2; 3; 4; 5]%nat) ++ [DPass (30 * second)] ++ demo_guess 6.
Lemma sign_ins_limited_witness : match demo_run demo_guesses with
  | Some s => co_checks s = replicate 5 (0, false) ++ [(30 * second, false)] ∧ 30 * second * 1 <= 30 * second - 0
  | None => False
  end.
Proof.
  destruct (demo_run demo_guesses) as [s|] eqn:E; [|exfalso; revert E; vm_compute; discriminate].
  assert (co_checks s = replicate 5 (0, false) ++ [(30 * second, false)]) as Hc.
  { assert (s = default (new_console 0) (demo_run demo_guesses)) as -> by (by rewrite E). vm_compute. reflexivity. }
  split; [exact Hc|]. destruct (sign_ins_limited demo_check 0 s (console_demo_runs _ _ E)) as (_ & H & _).
  refine (H (replicate 5 (0, false)) [(30 * second, false)] [] 0 (30 * second, false) _ _ _ _ _);
    [by rewrite Hc|vm_compute; discriminate|reflexivity|by repeat constructor|reflexivity].
Defined.

(** ** The policy names what the check leaves out *)

(** "Only the checked name and a numeric port go into the header": the zone of
    an address is anything, and goes in too. *)
Example zone_in_policy : guard [] (mkRequest (lit "GET") (1, 1) (lit "[fe80::1%;img-src]") [] [] [] [] [] ∅ [] None None) = None ∧
  connect_src (lit "[fe80::1%;img-src]") = lit "'self' ws://[fe80::1%;img-src] wss://[fe80::1%;img-src]".
Proof. vm_compute. by split. Qed.
