(* ===== verification/WebSocket.v ===== *)
(** WebSocket: the console's WebSocket server ([websocket.go]): who may open
    one, the frames it writes, and what it makes of those it reads. SHA-1 and
    [net/url] are parameters. *)

From S2P Require Import Prelude GoStr Http.

Definition wsOpText : Z := 1.
Definition wsOpClose : Z := 8.
Definition wsOpPing : Z := 9.
Definition wsOpPong : Z := 10.
Definition wsMaxClientFrame : Z := 4096.
Definition wsGUID : bytes := lit "258EAFA5-E914-47DA-95CA-C5AB0DC85B11".

(** * The handshake *)

(** [headerHasToken] *)
Definition headerHasToken (h : Header) (name token : bytes) : bool :=
  existsb (fun v => existsb (fun part => equal_fold (trim_space part) token) (split_byte v (ch ","))) (hdr_values h name).

Section Upgrade.
Context (url_host : bytes → option bytes).                   (* url.Parse: the host, if it parses *)
Context (sha1 : bytes → bytes) (b64_std : bytes → bytes).    (* sha1.Sum, base64.StdEncoding *)

(** [sameOrigin] *)
Definition sameOrigin (q : request) : bool :=
  let origin := hdr_get (rq_Header q) (lit "Origin") in
  if bool_decide (origin = []) then true
  else match url_host origin with Some host => equal_fold host (rq_Host q) | None => false end.

(** [upgradeWebSocket]: the status refused with, or the response. *)
Definition upgradeWebSocket (q : request) : res Z bytes :=
  let h := rq_Header q in
  let key := hdr_get h (lit "Sec-WebSocket-Key") in
  guard! headerHasToken h (lit "Connection") (lit "upgrade") && headerHasToken h (lit "Upgrade") (lit "websocket") &&
         bool_decide (hdr_get h (lit "Sec-WebSocket-Version") = lit "13") && negb (bool_decide (key = [])) else 400 in
  guard! sameOrigin q else 403 in
  Ok (lit "HTTP/1.1 101 Switching Protocols" ++ [13; 10] ++ lit "Upgrade: websocket" ++ [13; 10] ++ lit "Connection: Upgrade" ++ [13; 10] ++
      lit "Sec-WebSocket-Accept: " ++ b64_std (sha1 (key ++ wsGUID)) ++ [13; 10; 13; 10]).
End Upgrade.

(** * Frames *)

Definition put_be64 (n : Z) : bytes := (fun i => u8 (Z.shiftr n i)) <$> [56; 48; 40; 32; 24; 16; 8; 0].
Definition be_value (b : bytes) : Z := foldl (fun n c => Z.lor (Z.shiftl n 8) c) 0 b.

(** [writeFrame]: the bytes written. *)
Definition writeFrame (op : Z) (payload : bytes) : bytes :=
  let n := len payload in
  [Z.lor 128 op] ++
  (if n <? 126 then [u8 n]
   else if n <=? 65535 then [126; u8 (Z.shiftr n 8); u8 n]
   else 127 :: put_be64 n) ++ payload.

(** How [readLoop] ends: the client closed, the stream ended or failed, the
    client broke the rules, a reply could not be written. *)
Inductive ws_end := Closed | Gone | Unmasked | TooLarge | Unwritten.

(** [io.ReadFull] of [n] bytes. *)
Definition take_full (n : Z) (s : bytes) : option (bytes * bytes) :=
  if n <=? len s then Some (take (Z.to_nat n) s, drop (Z.to_nat n) s) else None.

Fixpoint unmask (mask : bytes) (i : nat) (payload : bytes) : bytes :=
  match payload with
  | [] => []
  | b :: payload => Z.lxor b (default 0 (mask !! (i mod 4)%nat)) :: unmask mask (S i) payload
  end.

(** One turn of [readLoop]: a frame and what follows it. *)
Definition read_frame (s : bytes) : res ws_end (Z * bytes * bytes) :=
  match take_full 2 s with
  | Some ([b0; b1], s) =>
      let op := Z.land b0 15 in
      guard! negb (Z.land b1 128 =? 0) else Unmasked in
      let n := Z.land b1 127 in
      match (if n =? 126 then '(b, s) ← take_full 2 s; Some (be_value b, s)
             else if n =? 127 then '(b, s) ← take_full 8 s; Some (be_value b, s)
             else Some (n, s)) with
      | None => Err Gone
      | Some (n, s) =>
          guard! n <=? wsMaxClientFrame else TooLarge in
          match take_full 4 s with
          | None => Err Gone
          | Some (mask, s) =>
              match take_full n s with
              | None => Err Gone
              | Some (payload, s) => Ok (op, unmask mask 0 payload, s)
              end
          end
      end
  | _ => Err Gone
  end.

(** [readLoop] on all the client sends, [fuel] turns at most: what it wrote
    and how it ended; [writes]: how many replies can be written. *)
Fixpoint readLoop (fuel writes : nat) (s : bytes) : list bytes * ws_end :=
  match fuel with
  | O => ([], Gone)
  | S fuel =>
      match read_frame s with
      | Err e => ([], e)
      | Ok (op, payload, s) =>
          if op =? wsOpClose then
            (match writes with O => [] | S _ => [writeFrame wsOpClose (take (Nat.min (length payload) 2) payload)] end, Closed)
          else if op =? wsOpPing then
            match writes with
            | O => ([], Unwritten)
            | S writes => let '(out, e) := readLoop fuel writes s in (writeFrame wsOpPong payload :: out, e)
            end
          else readLoop fuel writes s
      end
  end.
(** Every frame has six bytes at least. *)
Definition read_loop (writes : nat) (s : bytes) : list bytes * ws_end := readLoop (S (length s)) writes s.

(** * What clients send *)

Record frame := mkFrame { fr_first : Z; fr_payload : bytes; fr_mask : bytes }.
Definition frame_op (f : frame) : Z := Z.land (fr_first f) 15.
Definition frame_ok (f : frame) : Prop := byte_ok (fr_first f) ∧ bytes_ok (fr_payload f) ∧ len (fr_payload f) <= wsMaxClientFrame ∧ length (fr_mask f) = 4%nat ∧ bytes_ok (fr_mask f).
(** A frame as RFC 6455 has clients write it: masked. *)
Definition client_frame (f : frame) : bytes :=
  let n := len (fr_payload f) in
  [fr_first f] ++ (if n <? 126 then [Z.lor 128 n] else [254; u8 (Z.shiftr n 8); u8 n]) ++ fr_mask f ++ unmask (fr_mask f) 0 (fr_payload f).

(** What they get: pongs to their pings until they close. *)
Fixpoint replies (fs : list frame) : list bytes * ws_end :=
  match fs with
  | [] => ([], Gone)
  | f :: fs =>
      if frame_op f =? wsOpClose then ([writeFrame wsOpClose (take 2 (fr_payload f))], Closed)
      else if frame_op f =? wsOpPing then ((writeFrame wsOpPong (fr_payload f) :: (replies fs).1), (replies fs).2)
      else replies fs
  end.

Lemma unmask_unmask mask i payload : unmask mask i (unmask mask i payload) = payload.
Proof. revert i. induction payload as [|b payload IH]; intros i; [done|]. cbn [unmask]. by rewrite Z.lxor_assoc, Z.lxor_nilpotent, Z.lxor_0_r, IH. Qed.
Lemma length_unmask mask i payload : length (unmask mask i payload) = length payload.
Proof. revert i. induction payload as [|b payload IH]; intros i; [done|]. cbn. by rewrite IH. Qed.
Lemma take_full_app n (a s : bytes) : n = len a → take_full n (a ++ s) = Some (a, s).
Proof.
  intros ->. unfold take_full. rewrite len_app. rewrite (proj2 (Z.leb_le _ _)) by (pose proof (len_nonneg s); lia). by rewrite take_len_app, drop_len_app.
Qed.

Lemma low7 n : 0 <= n < 128 → (Z.land (Z.lor 128 n) 128 =? 0) = false ∧ Z.land (Z.lor 128 n) 127 = n.
Proof.
  intros Hn. assert (n ∈ (Z.of_nat <$> seq 0 128)) as Hin.
  { apply list_elem_of_fmap. exists (Z.to_nat n). split; [lia|]. apply elem_of_seq. lia. }
  assert (Forall (fun n => (Z.land (Z.lor 128 n) 128 =? 0) = false ∧ Z.land (Z.lor 128 n) 127 = n) (Z.of_nat <$> seq 0 128)) as Hall.
  { apply (bool_decide_eq_true_1 _). vm_compute. reflexivity. }
  by apply (proj1 (Forall_forall _ _) Hall).
Qed.

Lemma read_client_frame f s : frame_ok f → read_frame (client_frame f ++ s) = Ok (frame_op f, fr_payload f, s).
Proof.
  intros (H1 & H2 & H3 & H4 & H5). unfold client_frame, read_frame. set (n := len (fr_payload f)) in *. pose proof (len_nonneg (fr_payload f)) as H0. fold n in H0.
  assert (take_full 4 (fr_mask f ++ unmask (fr_mask f) 0 (fr_payload f) ++ s) = Some (fr_mask f, unmask (fr_mask f) 0 (fr_payload f) ++ s)) as Hmask by (apply take_full_app; unfold len; by rewrite H4).
  assert (take_full n (unmask (fr_mask f) 0 (fr_payload f) ++ s) = Some (unmask (fr_mask f) 0 (fr_payload f), s)) as Hpay by (apply take_full_app; unfold n, len; by rewrite length_unmask).
  destruct (Z.ltb_spec n 126).
  - rewrite <- !app_assoc. change ([fr_first f] ++ [Z.lor 128 n] ++ ?x) with ([fr_first f; Z.lor 128 n] ++ x). rewrite take_full_app by done.
    destruct (low7 n) as [-> ->]; [lia|]. cbn [negb]. rewrite (proj2 (Z.eqb_neq n 126)), (proj2 (Z.eqb_neq n 127)), (proj2 (Z.leb_le n _)) by lia.
    by rewrite Hmask, Hpay, unmask_unmask.
  - rewrite <- !app_assoc. change ([fr_first f] ++ [254; ?a; ?b] ++ ?x) with ([fr_first f; 254] ++ [a; b] ++ x). rewrite take_full_app by done.
    change (negb (Z.land 254 128 =? 0)) with true. change (Z.land 254 127) with 126. cbn iota. change (126 =? 126) with true. cbn iota.
    rewrite take_full_app by done. cbn [mbind option_bind]. unfold wsMaxClientFrame in *.
    assert (be_value [u8 (Z.shiftr n 8); u8 n] = n) as ->.
    { transitivity (be16 (u8 (Z.shiftr n 8)) (u8 n)); [|apply be16_put; lia]. unfold be_value, be16. cbn [foldl]. by rewrite Z.shiftl_0_l, Z.lor_0_l. }
    rewrite (proj2 (Z.leb_le n 4096)) by lia. by rewrite Hmask, Hpay, unmask_unmask.
Qed.

Lemma read_frame_shorter s op payload s' : read_frame s = Ok (op, payload, s') → (length s' < length s)%nat ∧ len payload <= wsMaxClientFrame.
Proof.
  assert (∀ n s a r, take_full n s = Some (a, r) → (length r <= length s)%nat ∧ (0 <= n → len a = n)) as Ht.
  { intros n s0 a r. unfold take_full. destruct (Z.leb_spec n (len s0)); [|done]. intros [= <- <-]. rewrite length_drop. split; [lia|].
    intros Hn. unfold len in *. rewrite length_take. lia. }
  unfold read_frame. destruct (take_full 2 s) as [[b s1]|] eqn:E1; [|done]. pose proof E1 as E1'. apply Ht in E1 as [L1 _].
  assert (length s1 < length s)%nat as L1'. { unfold take_full in E1'. destruct (Z.leb_spec 2 (len s)) as [H|]; [|done]. injection E1' as _ <-. rewrite length_drop. unfold len in H. lia. }
  destruct b as [|b0 [|b1 [|]]]; try done. destruct (negb _); [|done].
  destruct (if _ =? 126 then _ else _) as [[n s2]|] eqn:E2; [|done].
  assert (length s2 <= length s1)%nat as L2.
  { destruct (_ =? 126); [|destruct (_ =? 127)]; [..|injection E2 as _ <-; lia]; (destruct (take_full _ s1) as [[b s3]|] eqn:E3; [|done]); cbn in E2; injection E2 as _ <-; by apply Ht in E3 as [? _]. }
  destruct (Z.leb_spec n wsMaxClientFrame); [|done]. destruct (take_full 4 s2) as [[mask s3]|] eqn:E3; [|done]. apply Ht in E3 as [L3 _].
  destruct (take_full n s3) as [[p s4]|] eqn:E4; [|done]. intros [= <- <- <-]. pose proof E4 as E4'. apply Ht in E4 as [L4 H4]. split; [lia|]. unfold len. rewrite length_unmask. fold (len p).
  destruct (Z.le_gt_cases 0 n) as [Hn|Hn]; [by rewrite H4|]. unfold take_full in E4'. destruct (n <=? len s3); [|done]. injection E4' as <- _. replace (Z.to_nat n) with 0%nat by lia. done.
Qed.

(** The turns given are enough. *)
Lemma readLoop_enough fuel fuel' writes s : (length s < fuel)%nat → (length s < fuel')%nat → readLoop fuel writes s = readLoop fuel' writes s.
Proof.
  revert fuel' writes s. induction fuel as [|fuel IH]; intros fuel' writes s Hf Hf'; [lia|]. destruct fuel' as [|fuel']; [lia|]. cbn [readLoop].
  destruct (read_frame s) as [[[op payload] s']|e] eqn:E; [|done]. apply read_frame_shorter in E as [L _].
  assert (∀ w, readLoop fuel w s' = readLoop fuel' w s') as Hw by (intros w; apply IH; lia).
  destruct (op =? wsOpClose); [done|]. destruct (op =? wsOpPing); [destruct writes; [done|by rewrite Hw]|done].
Qed.

(** What a client reads of a frame from the server: unmasked, in one piece. *)
Definition server_frame (s : bytes) : option (Z * bytes * bytes) :=
  '(b, s) ← take_full 2 s;
  match b with
  | [b0; b1] =>
      '(n, s) ← (if b1 =? 126 then '(b, s) ← take_full 2 s; Some (be_value b, s)
                 else if b1 =? 127 then '(b, s) ← take_full 8 s; Some (be_value b, s)
                 else if b1 <? 126 then Some (b1, s) else None);
      '(payload, s) ← take_full n s;
      if Z.land b0 240 =? 128 then Some (Z.land b0 15, payload, s) else None
  | _ => None
  end.

Lemma be_value_snoc l b : be_value (l ++ [b]) = Z.lor (Z.shiftl (be_value l) 8) b.
Proof. unfold be_value. by rewrite foldl_app. Qed.
Lemma shift_low n : 0 <= n → Z.lor (Z.shiftl (Z.shiftr n 8) 8) (u8 n) = n.
Proof.
  intros Hn. unfold u8. apply Z.bits_inj'. intros i Hi. rewrite Z.lor_spec. destruct (Z.lt_ge_cases i 8).
  - rewrite Z.shiftl_spec_low by lia. by rewrite Z.mod_pow2_bits_low by lia.
  - rewrite Z.shiftl_spec, Z.shiftr_spec, Z.mod_pow2_bits_high by lia. rewrite orb_false_r. f_equal. lia.
Qed.
Lemma be_put64 n : 0 <= n < 2 ^ 64 → be_value (put_be64 n) = n.
Proof.
  intros Hn. assert (∀ k : nat, (k <= 8)%nat → be_value ((fun i => u8 (Z.shiftr n i)) <$> ((fun j => 8 * (7 - Z.of_nat j)) <$> seq 0 k)) = Z.shiftr n (8 * (8 - Z.of_nat k))) as H.
  { induction k as [|k IH]; intros Hk.
    - cbn. symmetry. rewrite Z.shiftr_div_pow2 by lia. apply Z.div_small. lia.
    - rewrite seq_S, !fmap_app. cbn [fmap list_fmap]. rewrite be_value_snoc, IH by lia.
      replace (8 * (8 - Z.of_nat k)) with (8 * (7 - Z.of_nat (0 + k)) + 8) by lia. rewrite <- Z.shiftr_shiftr by lia. rewrite shift_low; [|apply Z.shiftr_nonneg; lia].
      f_equal. lia. }
  specialize (H 8%nat ltac:(lia)). exact H.
Qed.

Lemma first_byte op : 0 <= op < 16 → (Z.land (Z.lor 128 op) 240 =? 128) = true ∧ Z.land (Z.lor 128 op) 15 = op.
Proof.
  intros Hn. assert (op ∈ (Z.of_nat <$> seq 0 16)) as Hin by (apply list_elem_of_fmap; exists (Z.to_nat op); split; [lia|apply elem_of_seq; lia]).
  assert (Forall (fun n => (Z.land (Z.lor 128 n) 240 =? 128) = true ∧ Z.land (Z.lor 128 n) 15 = n) (Z.of_nat <$> seq 0 16)) as Hall.
  { apply (bool_decide_eq_true_1 _). vm_compute. reflexivity. }
  by apply (proj1 (Forall_forall _ _) Hall).
Qed.

Lemma server_frame_written op payload s : 0 <= op < 16 → len payload < 2 ^ 63 → server_frame (writeFrame op payload ++ s) = Some (op, payload, s).
Proof.
  intros Hop Hlen. pose proof (len_nonneg payload) as H0. unfold server_frame, writeFrame. destruct (first_byte op Hop) as [F1 F2]. set (n := len payload) in *.
  assert (take_full n (payload ++ s) = Some (payload, s)) as Hpay by (by apply take_full_app).
  destruct (Z.ltb_spec n 126); [|destruct (Z.leb_spec n 65535)]; rewrite <- !app_assoc.
  - change ([?a] ++ [?b] ++ ?x) with ([a; b] ++ x). rewrite take_full_app by done. cbn [mbind option_bind].
    assert (u8 n = n) as -> by (unfold u8; apply Z.mod_small; lia). rewrite (proj2 (Z.eqb_neq n 126)), (proj2 (Z.eqb_neq n 127)), (proj2 (Z.ltb_lt n 126)) by lia.
    cbn [mbind option_bind]. rewrite Hpay. cbn [mbind option_bind]. by rewrite F1, F2.
  - change ([?a] ++ [126; ?b; ?c] ++ ?x) with ([a; 126] ++ [b; c] ++ x). rewrite take_full_app by done. cbn [mbind option_bind]. change (126 =? 126) with true. cbn iota.
    rewrite take_full_app by done. cbn [mbind option_bind].
    assert (be_value [u8 (Z.shiftr n 8); u8 n] = n) as ->.
    { transitivity (be16 (u8 (Z.shiftr n 8)) (u8 n)); [|apply be16_put; lia]. unfold be_value, be16. cbn [foldl]. by rewrite Z.shiftl_0_l, Z.lor_0_l. }
    rewrite Hpay. cbn [mbind option_bind]. by rewrite F1, F2.
  - change ([?a] ++ (127 :: put_be64 n) ++ ?x) with ([a; 127] ++ put_be64 n ++ x). rewrite take_full_app by done. cbn [mbind option_bind]. change (127 =? 126) with false. change (127 =? 127) with true. cbn iota.
    rewrite take_full_app by done. cbn [mbind option_bind]. rewrite be_put64 by lia. rewrite Hpay. cbn [mbind option_bind]. by rewrite F1, F2.
Qed.

Lemma client_frame_length f : (0 < length (client_frame f))%nat.
Proof. unfold client_frame. rewrite length_app. cbn. lia. Qed.

Lemma readLoop_replies fs fuel writes : Forall frame_ok fs → (length (concat (client_frame <$> fs)) < fuel)%nat → (length fs <= writes)%nat →
  readLoop fuel writes (concat (client_frame <$> fs)) = replies fs.
Proof.
  intros Hf. revert fuel writes. induction Hf as [|f fs Hok Hf IH]; intros fuel writes Hfuel Hw; destruct fuel as [|fuel]; try (cbn in Hfuel; lia); [done|].
  cbn [fmap list_fmap concat readLoop replies] in *. rewrite read_client_frame by done. rewrite length_app in Hfuel. pose proof (client_frame_length f).
  destruct writes as [|writes]; [cbn in Hw; lia|]. cbn [length] in Hw. destruct (frame_op f =? wsOpClose).
  - do 3 f_equal. destruct (fr_payload f) as [|a [|b l]]; try done. by rewrite Nat.min_r by (cbn; lia).
  - destruct (frame_op f =? wsOpPing); [|apply IH; lia]. rewrite IH by lia. by destruct (replies fs).
Qed.

(** The console's WebSocket keeps to its protocol. A client that masks its
    frames as RFC 6455 says, none above 4096 bytes, gets exactly a pong with
    the same bytes for each of its pings, in their order, until it closes,
    which is answered with a close of its status, or goes away; whatever else
    it sends is read over. Whatever arrives, frame or not, the loop ends after
    finitely many turns, and no frame it accepts is above 4096 bytes. What it
    writes, of any length, is read by the client as the frame it is. *)
Theorem websocket_answers :
  (∀ fs writes, Forall frame_ok fs → (length fs <= writes)%nat → read_loop writes (concat (client_frame <$> fs)) = replies fs) ∧
  (∀ fuel writes s, (length s < fuel)%nat → readLoop fuel writes s = read_loop writes s) ∧
  (∀ s op payload s', read_frame s = Ok (op, payload, s') → len payload <= wsMaxClientFrame) ∧
  (∀ op payload s, 0 <= op < 16 → len payload < 2 ^ 63 → server_frame (writeFrame op payload ++ s) = Some (op, payload, s)).
Proof.
  split_and!.
  - intros fs writes Hf Hw. unfold read_loop. apply readLoop_replies; (done || lia).
  - intros fuel writes s Hf. unfold read_loop. apply readLoop_enough; lia.
  - intros s op payload s' H. by apply read_frame_shorter in H as [_ H].
  - apply server_frame_written.
Qed.

(** A ping, some text, a close with a status. *)
Example websocket_runs :
  read_loop 9 (concat (client_frame <$> [mkFrame 137 (lit "hi") [1; 2; 3; 4]; mkFrame 129 (lit "text") [5; 6; 7; 8]; mkFrame 136 [3; 232] [9; 9; 9; 9]]))
  = ([[138; 2] ++ lit "hi"; [136; 2; 3; 232]], Closed).
Proof. vm_compute. reflexivity. Qed.

(** A browser on another site is refused, one on the console's is not. *)
Example websocket_origin : let h := foldl (fun h e => hdr_add h (lit e.1) (lit e.2)) ∅
    [("Connection", "keep-alive, Upgrade"); ("Upgrade", "websocket"); ("Sec-WebSocket-Version", "13"); ("Sec-WebSocket-Key", "k"); ("Origin", "o")]%string in
  let q host := mkRequest (lit "GET") (1, 1) (lit host) [] [] [] [] [] h [] None None in
  let up host := upgradeWebSocket (fun _ => Some (lit "Admin.lan")) (fun x => x) (fun x => x) (q host) in
  is_ok (up "admin.lan"%string) = true ∧ up "other.lan"%string = Err 403.
Proof. vm_compute. by split. Qed.

Lemma websocket_answers_witness : read_loop 1 (concat (client_frame <$> [mkFrame 137 (lit "hi") [1; 2; 3; 4]])) = replies [mkFrame 137 (lit "hi") [1; 2; 3; 4]].
Proof.
  apply (proj1 websocket_answers); [|cbn; lia]. repeat constructor; (try (cbn; done)); apply (bool_decide_eq_true_1 _); vm_compute; reflexivity.
Defined.
