(* ===== verification/Flows.v ===== *)
(** Flows: the log of connections the console shows ([flows.go], and what
    [stats.go] does of it): each connection's events, the last ones closed, and
    what a page that opens is told; any number of connections and pages at
    once, action by action. *)

From S2P Require Import Prelude GoStr Sni Rules Limit.
From Stdlib Require Import Floats.SpecFloat.

Definition flowHistory : Z := 2000.
Definition flowRecent : Z := 35000.
Definition maxSnapshotFlows : nat := 5000.

(** * Views *)

(** [flowHow], but for the relay, which a view fills in. *)
Record flowHow := mkHow {
  fh_Via : bytes; fh_ViaVersion : Z; fh_TLS : bytes; fh_ClientTLS : bytes; fh_ALPN : bytes; fh_Upstream : bytes; fh_Resumed : bool;
  fh_ProxyOut : Z; fh_ConnLimit : float64; fh_ShareLimit : float64; fh_Cached : bool;
}.
Definition no_how : flowHow := mkHow [] 0 [] [] [] [] false 0 (f_of_int 0) (f_of_int 0) false.

(** [ConnState]: what a view shows of it; times in milliseconds. *)
Record ConnState := mkConn {
  cs_ID : Z; cs_Listener : bytes; cs_Src : bytes; cs_Local : bytes; cs_SNI : bytes; cs_routed : bool; cs_Dst : bytes; cs_Peer : bytes;
  cs_rulePattern : bytes; cs_RuleKey : bytes; cs_Mode : bytes; cs_Start : Z; cs_result : bytes; cs_endReason : bytes; cs_how : flowHow;
  cs_relaying : Z; cs_spliced : Z; cs_BytesUp : Z; cs_BytesDown : Z;
}.

(** [flowView] *)
Record flowView := mkView {
  fv_ID : Z; fv_Seq : Z; fv_Listener : bytes; fv_Src : bytes; fv_Local : bytes; fv_SNI : bytes; fv_Routed : bool; fv_Dst : bytes; fv_Peer : bytes;
  fv_Rule : bytes; fv_RuleKey : bytes; fv_Terminated : bool; fv_Started : Z; fv_Ended : Z; fv_BytesUp : Z; fv_BytesDown : Z;
  fv_Result : bytes; fv_Reason : bytes; fv_how : flowHow; fv_Relay : bytes;
}.

(** [flow]: the view of a connection, its number given. *)
Definition relay_of (relaying spliced : Z) : bytes :=
  if relaying =? 0 then [] else if spliced =? relaying then lit "splice" else if spliced =? 0 then lit "copy" else lit "splice+copy".
Definition flow (c : ConnState) (seq : Z) : flowView :=
  mkView (cs_ID c) seq (cs_Listener c) (cs_Src c) (cs_Local c) (cs_SNI c) (cs_routed c) (cs_Dst c) (cs_Peer c)
    (cs_rulePattern c) (cs_RuleKey c) (negb (bool_decide (cs_Mode c = []))) (cs_Start c) 0 (cs_BytesUp c) (cs_BytesDown c)
    (cs_result c) (cs_endReason c) (cs_how c) (relay_of (cs_relaying c) (cs_spliced c)).
(** [end]'s view, closed [now]. *)
Definition ended (c : ConnState) (seq now : Z) : flowView :=
  let 'mkView id seq l src local sni routed dst peer rule key term started _ up down result reason how relay := flow c seq in
  mkView id seq l src local sni routed dst peer rule key term started now up down (if bool_decide (result = []) then lit "closed" else result) reason how relay.
(** [refused]'s view. *)
Definition refused (id seq : Z) (listener : bytes) (start now : Z) (src local reason : bytes) : flowView :=
  mkView id seq listener src local [] false [] [] [] [] false start now 0 0 (lit "rejected") reason no_how [].

(** [flowEvent] *)
Inductive event_type := ev_open | ev_route | ev_close.
Record flowEvent := mkEvent { fe_Type : event_type; fe_Flow : flowView }.

(** * The log *)

(** Where a connection's goroutine is. [Told t]: about to look whether a page
    watches, to tell it [t]; [Tells t]: one does; [Sends t v]: [v] is taken. [Ends v]: [record] of [v]
    is next to take a slot; [Has v k]: it has the [k]th; [Stored v k]: it is
    there, and [record] looks for pages. *)
Inductive conn_pc :=
| Arrived | Told (t : event_type) | Tells (t : event_type) | Sends (t : event_type) (v : flowView) | Opens | Removed
| Ends (v : flowView) | Has (v : flowView) (k : Z) | Stored (v : flowView) (k : Z) | Closes (v : flowView) (k : Z) | Gone (v : flowView) (k : Z).

(** A page's goroutine, up to its first snapshot. [Lists]: it goes through the
    table, those in [must] being there since it began; [Views]: it takes the
    views of those it found; [Reads k]: the slot [k] is the next; [Watches]:
    the snapshot is sent; [Leaves]: it is counted no more. *)
Inductive page_pc :=
| Subscribed | Counted | Lists (must found : list nat) | Views (left : list nat) (more : bool) (active : list flowView)
| Reads (k : Z) (more : bool) (active closed : list flowView) | Watches (more : bool) (active closed : list flowView) | Leaves | Left.
(** What it is told: the events put into its queue, oldest first. *)
Record page := mkPage { pg_since : Z; pg_events : list flowEvent; pg_pc : page_pc }.

(** [flowLog], with the table of open connections, by their place in [conns]:
    each with what it is now and where its goroutine is; [since] the views are
    numbered by [flowSeq]. *)
Record flowLog := mkLog {
  fl_viewers : Z; fl_closed : gmap Z flowView; fl_next : Z; fl_seq : Z;
  fl_table : gset nat; fl_conns : list (ConnState * conn_pc); fl_pages : list page;
}.
Definition newFlowLog : flowLog := mkLog 0 ∅ 0 0 ∅ [] [].

(** [Send]: each receiver there is gets it. *)
Definition has_receiver (pc : page_pc) : bool := match pc with Left => false | _ => true end.
Definition put (ev : flowEvent) (p : page) : page :=
  if has_receiver (pg_pc p) then mkPage (pg_since p) (pg_events p ++ [ev]) (pg_pc p) else p.
(** A connection leaves the table: a page going through it need not find it. *)
Definition forgets (i : nat) (p : page) : page :=
  match pg_pc p with
  | Lists must found => mkPage (pg_since p) (pg_events p) (Lists (filter (fun j => j <> i) must) found)
  | _ => p
  end.

(** The next action of connection [i]; [now] is the time, [goes] what it is
    about, when it is between two events: to tell that it is routed, or to
    end. *)
Definition conn_step (i : nat) (now : Z) (goes : bool) (s : flowLog) : option flowLog :=
  let 'mkLog viewers slots next seq table conns pages := s in
  match conns !! i with
  | None => None
  | Some (c, pc) =>
      let at_ pc := <[i := (c, pc)]> conns in
      match pc with
      | Arrived => Some (mkLog viewers slots next seq ({[i]} ∪ table) (at_ (Told ev_open)) pages)
      | Told t => Some (mkLog viewers slots next seq table (at_ (if viewers =? 0 then Opens else Tells t)) pages)
      | Tells t => Some (mkLog viewers slots next (seq + 1) table (at_ (Sends t (flow c (seq + 1)))) pages)
      | Sends t v => Some (mkLog viewers slots next seq table (at_ Opens) (put (mkEvent t v) <$> pages))
      | Opens => Some (if goes then mkLog viewers slots next seq table (at_ (Told ev_route)) pages
                       else mkLog viewers slots next seq (table ∖ {[i]}) (at_ Removed) (forgets i <$> pages))
      | Removed => Some (mkLog viewers slots next (seq + 1) table (at_ (Ends (ended c (seq + 1) now))) pages)
      | Ends v => Some (mkLog viewers slots (next + 1) seq table (at_ (Has v next)) pages)
      | Has v k => Some (mkLog viewers (<[k mod flowHistory := v]> slots) next seq table (at_ (Stored v k)) pages)
      | Stored v k => Some (mkLog viewers slots next seq table (at_ (if viewers =? 0 then Gone v k else Closes v k)) pages)
      | Closes v k => Some (mkLog viewers slots next seq table (at_ (Gone v k)) (put (mkEvent ev_close v) <$> pages))
      | Gone _ _ => None
      end
  end.

(** [closedSince]'s look at one slot, and the order of what it found. *)
Definition seen (since : Z) (slot : option flowView) : list flowView :=
  match slot with Some v => if since <=? fv_Ended v then [v] else [] | None => [] end.
Definition closed_before (a b : flowView) : bool :=
  if negb (fv_Ended a =? fv_Ended b) then fv_Ended a <? fv_Ended b else fv_Seq a <? fv_Seq b.

(** The next action of page [j]: while it goes through the table, it finds
    [found], or ends. *)
Definition page_step (j : nat) (found : option nat) (s : flowLog) : option flowLog :=
  let 'mkLog viewers slots next seq table conns pages := s in
  match pages !! j with
  | None => None
  | Some (mkPage since evs pc) =>
      let at_ pc := <[j := mkPage since evs pc]> pages in
      match pc with
      | Subscribed => Some (mkLog (viewers + 1) slots next seq table conns (at_ Counted))
      | Counted => Some (mkLog viewers slots next seq table conns (at_ (Lists (elements table) [])))
      | Lists must l =>
          match found with
          | Some i =>
              if bool_decide (i ∈ table) && negb (bool_decide (i ∈ l)) then
                if (length l =? maxSnapshotFlows)%nat then Some (mkLog viewers slots next seq table conns (at_ (Views l true [])))
                else Some (mkLog viewers slots next seq table conns (at_ (Lists must (l ++ [i]))))
              else None
          | None => if forallb (fun i => bool_decide (i ∈ l)) must then Some (mkLog viewers slots next seq table conns (at_ (Views l false []))) else None
          end
      | Views (i :: l) more active =>
          match conns !! i with
          | Some (c, _) => Some (mkLog viewers slots next (seq + 1) table conns (at_ (Views l more (active ++ [flow c (seq + 1)]))))
          | None => None
          end
      | Views [] more active => Some (mkLog viewers slots next seq table conns (at_ (Reads 0 more active [])))
      | Reads k more active closed =>
          Some (mkLog viewers slots next seq table conns
            (at_ (if k =? flowHistory then Watches more active (stable_sort closed_before closed)
                  else Reads (k + 1) more active (closed ++ seen since (slots !! k)))))
      | Watches _ _ _ => Some (mkLog (viewers - 1) slots next seq table conns (at_ Leaves))
      | Leaves => Some (mkLog viewers slots next seq table conns (at_ Left))
      | Left => None
      end
  end.

(** Connections are accepted or refused, what is known of them changes, pages
    open, and all of them go on, in any order. *)
Inductive flow_step : flowLog → flowLog → Prop :=
| Accepts viewers slots next seq table conns pages c :
    flow_step (mkLog viewers slots next seq table conns pages) (mkLog viewers slots next seq table (conns ++ [(c, Arrived)]) pages)
| Refuses viewers slots next seq table conns pages c start now reason :
    flow_step (mkLog viewers slots next seq table conns pages)
      (mkLog viewers slots next (seq + 1) table (conns ++ [(c, Ends (refused (cs_ID c) (seq + 1) (cs_Listener c) start now (cs_Src c) (cs_Local c) reason))]) pages)
| Learns viewers slots next seq table conns pages i c c' pc : conns !! i = Some (c, pc) → cs_ID c' = cs_ID c →
    flow_step (mkLog viewers slots next seq table conns pages) (mkLog viewers slots next seq table (<[i := (c', pc)]> conns) pages)
| Watching viewers slots next seq table conns pages since :
    flow_step (mkLog viewers slots next seq table conns pages) (mkLog viewers slots next seq table conns (pages ++ [mkPage since [] Subscribed]))
| ConnGoes s s' i now goes : conn_step i now goes s = Some s' → flow_step s s'
| PageGoes s s' j found : page_step j found s = Some s' → flow_step s s'.

(** * What stays true *)

Definition counted (pc : page_pc) : bool := match pc with Subscribed | Leaves | Left => false | _ => true end.
Definition in_table (pc : conn_pc) : bool := match pc with Told _ | Tells _ | Sends _ _ | Opens => true | _ => false end.
(** Told to be open, if a page was there to hear it. *)
Definition announced (pc : conn_pc) : bool :=
  match pc with Told ev_open | Tells ev_open | Sends ev_open _ => false | Told _ | Tells _ | Sends _ _ | Opens => true | _ => false end.
Definition held (pc : conn_pc) : option (flowView * Z) := match pc with Has v k | Stored v k | Closes v k | Gone v k => Some (v, k) | _ => None end.
Definition stored (pc : conn_pc) : option (flowView * Z) := match pc with Stored v k | Closes v k | Gone v k => Some (v, k) | _ => None end.

(** Another connection has the slot as well. *)
Definition taken (conns : list (ConnState * conn_pc)) (k : Z) : Prop :=
  ∃ j c pc v k', conns !! j = Some (c, pc) ∧ held pc = Some (v, k') ∧ k' ≠ k ∧ k' mod flowHistory = k mod flowHistory.

(** What a page knows of a connection gone, and of one open. *)
Definition close_told (conns : list (ConnState * conn_pc)) (p : page) (v : flowView) (k : Z) : Prop :=
  let known found := mkEvent ev_close v ∈ pg_events p ∨ v ∈ found ∨ fv_Ended v < pg_since p ∨ taken conns k in
  match pg_pc p with
  | Reads r _ _ found => r <= k mod flowHistory ∨ known found
  | Watches _ _ found => known found
  | _ => True
  end.
Definition open_told (p : page) (i : nat) (c : ConnState) : Prop :=
  let heard := ∃ v, mkEvent ev_open v ∈ pg_events p ∧ fv_ID v = cs_ID c in
  let shown active := ∃ v, v ∈ active ∧ fv_ID v = cs_ID c in
  match pg_pc p with
  | Lists must found => heard ∨ i ∈ must ∨ i ∈ found
  | Views l more active => heard ∨ i ∈ l ∨ shown active ∨ more = true
  | Reads _ more active _ | Watches more active _ => heard ∨ shown active ∨ more = true
  | _ => True
  end.
(** The snapshot of a page: what is closed is so since it asked for. *)
Definition fresh (p : page) : Prop :=
  match pg_pc p with
  | Reads r _ _ found => 0 <= r <= flowHistory ∧ Forall (fun v => pg_since p <= fv_Ended v) found
  | Watches _ _ found => Forall (fun v => pg_since p <= fv_Ended v) found ∧ (∀ a b, before found a b → closed_before b a = false)
  | _ => True
  end.
Definition page_ok (conns : list (ConnState * conn_pc)) (p : page) : Prop :=
  (∀ i c v k, conns !! i = Some (c, Gone v k) → close_told conns p v k) ∧
  (∀ i c pc, conns !! i = Some (c, pc) → announced pc = true → open_told p i c) ∧ fresh p.

(** The slots of the history: each connection that has one has its own number,
    and its view is there unless another has the slot as well. The table:
    those open. *)
Definition slots_ok (next : Z) (slots : gmap Z flowView) (conns : list (ConnState * conn_pc)) : Prop :=
  (∀ i c pc v k, conns !! i = Some (c, pc) → held pc = Some (v, k) → 0 <= k < next) ∧
  (∀ i j c c' pc pc' v v' k, conns !! i = Some (c, pc) → conns !! j = Some (c', pc') → held pc = Some (v, k) → held pc' = Some (v', k) → i = j) ∧
  (∀ i c pc v k, conns !! i = Some (c, pc) → stored pc = Some (v, k) → slots !! (k mod flowHistory) = Some v ∨ taken conns k).
Definition table_ok (table : gset nat) (conns : list (ConnState * conn_pc)) : Prop :=
  ∀ i, i ∈ table ↔ ∃ c pc, conns !! i = Some (c, pc) ∧ in_table pc = true.

(** A view about to be sent is of its connection. *)
Definition sends_ok (conns : list (ConnState * conn_pc)) : Prop := ∀ i c t v, conns !! i = Some (c, Sends t v) → fv_ID v = cs_ID c.

Record flows_ok (s : flowLog) : Prop := {
  fk_viewers : fl_viewers s = len (filter (fun p => counted (pg_pc p) = true) (fl_pages s));
  fk_next : 0 <= fl_next s;
  fk_table : table_ok (fl_table s) (fl_conns s);
  fk_slots : slots_ok (fl_next s) (fl_closed s) (fl_conns s);
  fk_sends : sends_ok (fl_conns s);
  fk_pages : Forall (page_ok (fl_conns s)) (fl_pages s);
}.

Lemma lookup_snoc_cases {A} (l : list A) x i y : (l ++ [x]) !! i = Some y → l !! i = Some y ∨ (i = length l ∧ y = x).
Proof.
  intros H. destruct (decide (i < length l)%nat) as [Hi|Hi]; [left; by rewrite lookup_app_l in H|right].
  rewrite lookup_app_r in H by lia. destruct (i - length l)%nat eqn:E; [|done]. injection H as <-. split; [lia|done].
Qed.

(** The connections go on: nobody's number changes, slots stay theirs. *)
Definition goes_on (conns conns' : list (ConnState * conn_pc)) : Prop :=
  ∀ j c pc, conns !! j = Some (c, pc) → ∃ c' pc', conns' !! j = Some (c', pc') ∧ ∀ h, held pc = Some h → held pc' = Some h.
Lemma goes_on_snoc conns x : goes_on conns (conns ++ [x]).
Proof. intros j c pc Hj. exists c, pc. split; [|done]. rewrite lookup_app_l; [done|by eapply lookup_lt_Some]. Qed.
Lemma goes_on_insert conns i c c' pc pc' : conns !! i = Some (c, pc) → (∀ h, held pc = Some h → held pc' = Some h) → goes_on conns (<[i := (c', pc')]> conns).
Proof.
  intros Hi Hh j cj pj Hj. destruct (decide (i = j)) as [<-|Hn].
  - exists c', pc'. split; [apply list_lookup_insert_eq; by eapply lookup_lt_Some|]. intros h. rewrite Hi in Hj. injection Hj as <- <-. apply Hh.
  - exists cj, pj. split; [by rewrite list_lookup_insert_ne|done].
Qed.
Lemma taken_mono conns conns' k : goes_on conns conns' → taken conns k → taken conns' k.
Proof. intros Hg (j & c & pc & v & k' & Hj & Hh & Hk). destruct (Hg _ _ _ Hj) as (c' & pc' & Hj' & Hh'). exists j, c', pc', v, k'. split_and!; [done|by apply Hh'|apply Hk..]. Qed.

Lemma close_told_mono conns conns' p p' v k : goes_on conns conns' → (∀ ev, ev ∈ pg_events p → ev ∈ pg_events p') → pg_since p' = pg_since p → pg_pc p' = pg_pc p →
  close_told conns p v k → close_told conns' p' v k.
Proof.
  intros Hg He Hs Hp. unfold close_told. rewrite Hs, Hp. pose proof (taken_mono _ _ k Hg) as Ht. destruct (pg_pc p); try done; naive_solver.
Qed.
Lemma open_told_mono p p' i c c' : (∀ ev, ev ∈ pg_events p → ev ∈ pg_events p') → pg_pc p' = pg_pc p → cs_ID c' = cs_ID c → open_told p i c → open_told p' i c'.
Proof. intros He Hp Hc. unfold open_told. rewrite Hp, Hc. destruct (pg_pc p); try done; naive_solver. Qed.

(** A page while connections go on: only the one that moves needs a look. *)
Lemma page_ok_conn conns i c c' pc pc' p p' :
  conns !! i = Some (c, pc) → cs_ID c' = cs_ID c → (∀ h, held pc = Some h → held pc' = Some h) →
  (∀ ev, ev ∈ pg_events p → ev ∈ pg_events p') → pg_since p' = pg_since p →
  pg_pc p' = pg_pc p ∨ (announced pc' = false ∧ p' = forgets i p) →
  (∀ v k, pc' = Gone v k → pc = Gone v k ∨ close_told (<[i := (c', pc')]> conns) p' v k) →
  (announced pc' = true → announced pc = true ∨ open_told p' i c') →
  page_ok conns p → page_ok (<[i := (c', pc')]> conns) p'.
Proof.
  intros Hi Hc Hh He Hs Hp Hclose Hopen (K1 & K2 & K3). pose proof (goes_on_insert conns i c c' pc pc' Hi Hh) as Hg.
  assert (∀ v k, close_told conns p v k → close_told (<[i:=(c', pc')]> conns) p' v k) as Hct.
  { intros v k Hk. destruct Hp as [Hp|[_ ->]]; [by eapply close_told_mono|]. unfold forgets. destruct (pg_pc p) eqn:E; try (by eapply close_told_mono; [..|exact Hk]). done. }
  split_and!.
  - intros j cj v k Hj. apply list_lookup_insert_Some in Hj as [(<- & [= -> ->] & _)|[_ Hj]].
    + destruct (Hclose _ _ eq_refl) as [->|?]; [|done]. by apply Hct, (K1 i c).
    + by apply Hct, (K1 j cj).
  - intros j cj pj Hj Ha. apply list_lookup_insert_Some in Hj as [(<- & [= -> ->] & _)|[Hn Hj]].
    + destruct (Hopen Ha) as [Ha'|?]; [|done]. destruct Hp as [Hp|[Hf _]]; [|congruence]. by eapply open_told_mono; [..|by apply (K2 i c pc)].
    + pose proof (K2 j cj pj Hj Ha) as Ho. destruct Hp as [Hp|[_ ->]]; [by eapply open_told_mono|]. unfold forgets in *. destruct (pg_pc p) eqn:E; try done.
      unfold open_told in *. rewrite E in Ho. cbn. destruct Ho as [?|[?|?]]; [by left| |by auto]. right. left. by apply list_elem_of_filter.
  - unfold fresh in *. destruct Hp as [Hp|[_ ->]]; [by rewrite Hp, Hs|]. unfold forgets. by destruct (pg_pc p) eqn:E; rewrite ?E.
Qed.

Lemma put_facts ev p : pg_since (put ev p) = pg_since p ∧ pg_pc (put ev p) = pg_pc p ∧ (∀ e, e ∈ pg_events p → e ∈ pg_events (put ev p)) ∧
  (has_receiver (pg_pc p) = true → ev ∈ pg_events (put ev p)).
Proof. unfold put. destruct (has_receiver (pg_pc p)); cbn; split_and!; try done; intros; apply elem_of_app; [by left|right; by left]. Qed.
Lemma forgets_facts i p : pg_since (forgets i p) = pg_since p ∧ (∀ e, e ∈ pg_events p → e ∈ pg_events (forgets i p)) ∧ counted (pg_pc (forgets i p)) = counted (pg_pc p).
Proof. unfold forgets. by destruct (pg_pc p) eqn:E; rewrite ?E. Qed.

(** Nobody watches: no page is counted. *)
Lemma nobody_counted s p : flows_ok s → fl_viewers s = 0 → p ∈ fl_pages s → counted (pg_pc p) = false.
Proof.
  intros [Hv _ _ _ _ _] H0 Hp. rewrite H0 in Hv. destruct (counted (pg_pc p)) eqn:E; [|done]. exfalso.
  assert (p ∈ filter (fun p => counted (pg_pc p) = true) (fl_pages s)) as Hin by (by apply list_elem_of_filter). destruct (filter _ _); [by apply not_elem_of_nil in Hin|]. unfold len in Hv. cbn in Hv. lia.
Qed.
Lemma counted_told conns p v k i c : counted (pg_pc p) = false → close_told conns p v k ∧ open_told p i c.
Proof. unfold close_told, open_told. by destruct (pg_pc p). Qed.

Lemma stored_held pc v k : stored pc = Some (v, k) → held pc = Some (v, k).
Proof. by destruct pc. Qed.

Lemma slots_ok_same next slots conns i c c' pc pc' : conns !! i = Some (c, pc) → held pc' = held pc → stored pc' = stored pc →
  slots_ok next slots conns → slots_ok next slots (<[i := (c', pc')]> conns).
Proof.
  intros Hi Hh Hs (H1 & H2 & H3). assert (goes_on conns (<[i := (c', pc')]> conns)) as Hg by (eapply goes_on_insert; [done|by rewrite Hh]).
  assert (∀ j cj pj, <[i := (c', pc')]> conns !! j = Some (cj, pj) → ∃ c0 p0, conns !! j = Some (c0, p0) ∧ held pj = held p0 ∧ stored pj = stored p0) as Hl.
  { intros j cj pj [(<- & [= -> ->] & _)|[_ Hj]]%list_lookup_insert_Some; eauto 6. }
  split_and!.
  - intros j cj pj v k (c0 & p0 & H0 & -> & _)%Hl. by apply H1 with (1 := H0).
  - intros j j' cj cj' pj pj' v v' k (c0 & p0 & H0 & -> & _)%Hl (c1 & p1 & H4 & -> & _)%Hl. by apply H2 with (1 := H0) (2 := H4).
  - intros j cj pj v k (c0 & p0 & H0 & _ & ->)%Hl Hst. destruct (H3 _ _ _ _ _ H0 Hst); [by left|right; by eapply taken_mono].
Qed.
Lemma slots_ok_snoc next slots conns c pc : held pc = None → slots_ok next slots conns → slots_ok next slots (conns ++ [(c, pc)]).
Proof.
  intros Hh (H1 & H2 & H3).
  assert (∀ j cj pj h, (conns ++ [(c, pc)]) !! j = Some (cj, pj) → held pj = Some h → conns !! j = Some (cj, pj)) as Hl.
  { intros j cj pj h [Hj|[_ [= -> ->]]]%lookup_snoc_cases; [done|congruence]. }
  split_and!.
  - intros j cj pj v k Hj Hk. by eapply H1; [by eapply Hl|].
  - intros j j' cj cj' pj pj' v v' k Hj Hj' Hk Hk'. by eapply H2; [by eapply (Hl j)|by eapply (Hl j')|..].
  - intros j cj pj v k Hj Hk. pose proof (Hl _ _ _ _ Hj (stored_held _ _ _ Hk)) as Hj0. destruct (H3 _ _ _ _ _ Hj0 Hk); [by left|right]. eapply taken_mono; [apply goes_on_snoc|done].
Qed.
(** A slot is taken. *)
Lemma slots_ok_take next slots conns i c v : conns !! i = Some (c, Ends v) → 0 <= next → slots_ok next slots conns → slots_ok (next + 1) slots (<[i := (c, Has v next)]> conns).
Proof.
  intros Hi H0 (H1 & H2 & H3). assert (goes_on conns (<[i := (c, Has v next)]> conns)) as Hg by (by eapply goes_on_insert).
  split_and!.
  - intros j cj pj vj k [(<- & [= <- <-] & _)|[_ Hj]]%list_lookup_insert_Some Hk; [injection Hk as <- <-; lia|]. pose proof (H1 _ _ _ _ _ Hj Hk). lia.
  - intros j j' cj cj' pj pj' vj vj' k [(<- & [= <- <-] & _)|[Hn Hj]]%list_lookup_insert_Some [(<- & [= <- <-] & _)|[Hn' Hj']]%list_lookup_insert_Some Hk Hk'; [done|..].
    + injection Hk as <- <-. pose proof (H1 _ _ _ _ _ Hj' Hk'). lia.
    + injection Hk' as <- <-. pose proof (H1 _ _ _ _ _ Hj Hk). lia.
    + by eapply (H2 j j').
  - intros j cj pj vj k [(<- & [= <- <-] & _)|[_ Hj]]%list_lookup_insert_Some Hk; [done|]. destruct (H3 _ _ _ _ _ Hj Hk); [by left|right; by eapply taken_mono].
Qed.
(** A view is put into its slot. *)
Lemma slots_ok_store next slots conns i c v k : conns !! i = Some (c, Has v k) → slots_ok next slots conns → slots_ok next (<[k mod flowHistory := v]> slots) (<[i := (c, Stored v k)]> conns).
Proof.
  intros Hi (H1 & H2 & H3). assert (goes_on conns (<[i := (c, Stored v k)]> conns)) as Hg by (by eapply goes_on_insert).
  assert (∀ j cj pj, <[i := (c, Stored v k)]> conns !! j = Some (cj, pj) → ∃ c0 p0, conns !! j = Some (c0, p0) ∧ held pj = held p0) as Hl.
  { intros j cj pj [(<- & [= <- <-] & _)|[_ Hj]]%list_lookup_insert_Some; eauto. }
  split_and!.
  - intros j cj pj vj kj (c0 & p0 & H0 & ->)%Hl. by apply H1 with (1 := H0).
  - intros j j' cj cj' pj pj' vj vj' kj (c0 & p0 & H0 & ->)%Hl (c1 & p1 & H4 & ->)%Hl. by apply H2 with (1 := H0) (2 := H4).
  - intros j cj pj vj kj [(<- & [= <- <-] & _)|[Hn Hj]]%list_lookup_insert_Some Hk; [injection Hk as <- <-; left; apply lookup_insert_eq|].
    destruct (decide (kj mod flowHistory = k mod flowHistory)) as [Hr|Hr].
    + right. exists i, c, (Stored v k), v, k. split_and!; [apply list_lookup_insert_eq; by eapply lookup_lt_Some|done| |done]. intros ->. apply Hn. eapply (H2 i j); [done|done|done|by apply stored_held].
    + rewrite lookup_insert_ne by done. destruct (H3 _ _ _ _ _ Hj Hk); [by left|right; by eapply taken_mono].
Qed.

Lemma table_ok_same table conns i c c' pc pc' : conns !! i = Some (c, pc) → in_table pc' = in_table pc → table_ok table conns → table_ok table (<[i := (c', pc')]> conns).
Proof.
  intros Hi Ht H j. rewrite (H j). split.
  - intros (cj & pj & Hj & Hin). destruct (decide (i = j)) as [<-|Hn]; [|exists cj, pj; by rewrite list_lookup_insert_ne].
    exists c', pc'. split; [apply list_lookup_insert_eq; by eapply lookup_lt_Some|congruence].
  - intros (cj & pj & [(<- & [= -> ->] & _)|[_ Hj]]%list_lookup_insert_Some & Hin); [|by exists cj, pj]. exists c, pc. split; [done|congruence].
Qed.
Lemma table_ok_snoc table conns c pc : in_table pc = false → table_ok table conns → table_ok table (conns ++ [(c, pc)]).
Proof.
  intros Ht H j. rewrite (H j). split.
  - intros (cj & pj & Hj & Hin). exists cj, pj. split; [|done]. rewrite lookup_app_l; [done|by eapply lookup_lt_Some].
  - intros (cj & pj & [Hj|[_ [= -> ->]]]%lookup_snoc_cases & Hin); [by exists cj, pj|congruence].
Qed.

Lemma count_map (f : page → page) pages : (∀ p, counted (pg_pc (f p)) = counted (pg_pc p)) →
  len (filter (fun p => counted (pg_pc p) = true) (f <$> pages)) = len (filter (fun p => counted (pg_pc p) = true) pages).
Proof.
  intros Hf. induction pages as [|p pages IH]; [done|]. rewrite fmap_cons, !filter_cons. rewrite Hf. unfold len in *. destruct (decide _); cbn; lia.
Qed.
Lemma put_counted ev p : counted (pg_pc (put ev p)) = counted (pg_pc p).
Proof. f_equal. apply put_facts. Qed.

(** One page of many, while a connection moves: it is as it was, or it is told. *)
Lemma pages_ok_conn conns i c pc pc' (f : page → page) pages :
  conns !! i = Some (c, pc) → (∀ h, held pc = Some h → held pc' = Some h) →
  (∀ p, pg_since (f p) = pg_since p ∧ (∀ ev, ev ∈ pg_events p → ev ∈ pg_events (f p)) ∧ (pg_pc (f p) = pg_pc p ∨ (announced pc' = false ∧ f p = forgets i p))) →
  (∀ p v k, p ∈ pages → pc' = Gone v k → close_told (<[i := (c, pc')]> conns) (f p) v k) →
  (∀ p, p ∈ pages → announced pc' = true → announced pc = true ∨ open_told (f p) i c) →
  Forall (page_ok conns) pages → Forall (page_ok (<[i := (c, pc')]> conns)) (f <$> pages).
Proof.
  intros Hi Hh Hf Hc Ho Hp. apply Forall_fmap, Forall_forall. intros p Hin. destruct (Hf p) as (F1 & F2 & F3).
  eapply page_ok_conn; [done|done|done|done|done|done| | |by apply (proj1 (Forall_forall _ _) Hp)].
  - intros v k Heq. right. by apply Hc.
  - by apply Ho.
Qed.

Lemma conn_step_ok i now goes s s' : conn_step i now goes s = Some s' → flows_ok s → flows_ok s'.
Proof.
  intros Hst Hok. pose proof (nobody_counted s) as Hnc. destruct Hok as [K1 K2 K3 K4 K6 K5].
  assert (∀ p, fl_viewers s = 0 → p ∈ fl_pages s → counted (pg_pc p) = false) as Hno by (intros p Hv Hp; by apply Hnc). clear Hnc.
  destruct s as [viewers slots next seq table conns pages]. cbn in *. destruct (conns !! i) as [[c pc]|] eqn:Hi; [|done].
  assert (id <$> pages = pages) as Hid by apply list_fmap_id.
  assert (∀ pc', (∀ h, held pc = Some h → held pc' = Some h) →
    (∀ p v k, p ∈ pages → pc' = Gone v k → close_told (<[i := (c, pc')]> conns) p v k) →
    (∀ p, p ∈ pages → announced pc' = true → announced pc = true ∨ open_told p i c) → Forall (page_ok (<[i := (c, pc')]> conns)) pages) as Hpages.
  { intros pc' Hh Hcl Hop. rewrite <- Hid. apply (pages_ok_conn conns i c pc pc' id); try done. intros p. split_and!; auto. }
  assert (∀ pc' ev, (∀ h, held pc = Some h → held pc' = Some h) →
    (∀ p v k, p ∈ pages → pc' = Gone v k → close_told (<[i := (c, pc')]> conns) (put ev p) v k) →
    (∀ p, p ∈ pages → announced pc' = true → announced pc = true ∨ open_told (put ev p) i c) → Forall (page_ok (<[i := (c, pc')]> conns)) (put ev <$> pages)) as Hput.
  { intros pc' ev Hh Hcl Hop. apply (pages_ok_conn conns i c pc pc' (put ev)); try done. intros p. destruct (put_facts ev p) as (P1 & P2 & P3 & _). split_and!; auto. }
  assert (∀ pc', (∀ t v, pc' = Sends t v → fv_ID v = cs_ID c) → sends_ok (<[i := (c, pc')]> conns)) as Hsends.
  { intros pc' Hs j cj t v [(<- & [= <- ->] & _)|[_ Hj]]%list_lookup_insert_Some; [by eapply Hs|by eapply K6]. }
  destruct pc; try done; injection Hst as <-.
  - split; cbn; try done.
    + intros j. rewrite elem_of_union, elem_of_singleton, (K3 j). split.
      * intros [->|(cj & pj & Hj & Hin)]; [exists c, (Told ev_open); split; [apply list_lookup_insert_eq; by eapply lookup_lt_Some|done]|].
        exists cj, pj. split; [|done]. rewrite list_lookup_insert_ne; [done|]. intros <-. rewrite Hi in Hj. by injection Hj as <- <-.
      * intros (cj & pj & [(<- & _)|[_ Hj]]%list_lookup_insert_Some & Hin); [by left|right; eauto].
    + by apply slots_ok_same with (c := c) (pc := Arrived).
    + by apply Hsends.
    + by apply Hpages.
  - destruct (viewers =? 0) eqn:Ev; (split; cbn; [done|done|by apply table_ok_same with (c := c) (pc := Told t)|by apply slots_ok_same with (c := c) (pc := Told t)|by apply Hsends|]).
    + apply Hpages; [done|done|]. intros p Hp _. right. apply Z.eqb_eq in Ev. by apply (counted_told [] p (ended c 0 0) 0), Hno.
    + apply Hpages; [done|done|]. intros p Hp Ha. left. by destruct t.
  - split; cbn; [done|done|by apply table_ok_same with (c := c) (pc := Tells t)|by apply slots_ok_same with (c := c) (pc := Tells t)|apply Hsends; by intros ? ? [= _ <-]|]. apply Hpages; [done|done|]. intros p Hp Ha. left. by destruct t.
  - split; cbn; [by rewrite count_map by apply put_counted|done|by apply table_ok_same with (c := c) (pc := Sends t v)|by apply slots_ok_same with (c := c) (pc := Sends t v)|by apply Hsends|].
    apply Hput; [done|done|]. intros p Hp _.
    destruct (put_facts (mkEvent t v) p) as (_ & P2 & _ & P4). pose proof (K6 _ _ _ _ Hi) as Hid'. destruct t; [right|by left..].
    unfold open_told. rewrite P2. destruct (pg_pc p); try done; cbn in P4; left; eauto.
  - destruct goes; [split; cbn; [done|done|by apply table_ok_same with (c := c) (pc := Opens)|by apply slots_ok_same with (c := c) (pc := Opens)|by apply Hsends|by apply Hpages; auto]|].
    split; cbn.
    + rewrite count_map; [done|]. intros p. apply forgets_facts.
    + done.
    + intros j. rewrite elem_of_difference, not_elem_of_singleton, (K3 j). split.
      * intros [(cj & pj & Hj & Hin) Hn]. exists cj, pj. by rewrite list_lookup_insert_ne.
      * intros (cj & pj & [(<- & [= <- <-] & _)|[Hn Hj]]%list_lookup_insert_Some & Hin); [done|]. split; [eauto|done].
    + by apply slots_ok_same with (c := c) (pc := Opens).
    + by apply Hsends.
    + apply (pages_ok_conn conns i c Opens Removed (forgets i)); try done. intros p. destruct (forgets_facts i p) as (F1 & F2 & _). split_and!; auto.
  - split; cbn; [done|done|by apply table_ok_same with (c := c) (pc := Removed)|by apply slots_ok_same with (c := c) (pc := Removed)|by apply Hsends|by apply Hpages].
  - split; cbn; [done|lia|by apply table_ok_same with (c := c) (pc := Ends v)|by apply slots_ok_take|by apply Hsends|by apply Hpages].
  - split; cbn; [done|done|by apply table_ok_same with (c := c) (pc := Has v k)|by apply slots_ok_store|by apply Hsends|by apply Hpages].
  - destruct (viewers =? 0) eqn:Ev; (split; cbn; [done|done|by apply table_ok_same with (c := c) (pc := Stored v k)|by apply slots_ok_same with (c := c) (pc := Stored v k)|by apply Hsends|]).
    + apply Hpages; [done| |done]. intros p v0 k0 Hp _. apply Z.eqb_eq in Ev. apply (counted_told _ p v0 k0 i c). by apply Hno.
    + by apply Hpages.
  - split; cbn; [by rewrite count_map by apply put_counted|done|by apply table_ok_same with (c := c) (pc := Closes v k)|by apply slots_ok_same with (c := c) (pc := Closes v k)|by apply Hsends|].
    apply Hput; [done| |done]. intros p v0 k0 Hp [= <- <-]. destruct (put_facts (mkEvent ev_close v) p) as (_ & P2 & _ & P4). unfold close_told. rewrite P2.
    destruct (pg_pc p); try done; cbn in P4; auto 6.
Qed.

(** A page moves; the others and the connections stay. *)
Lemma count_insert pages j p p' : pages !! j = Some p → len (filter (fun p => counted (pg_pc p) = true) (<[j := p']> pages)) =
  len (filter (fun p => counted (pg_pc p) = true) pages) - (if counted (pg_pc p) then 1 else 0) + (if counted (pg_pc p') then 1 else 0).
Proof.
  revert j. induction pages as [|q pages IH]; intros j; [done|]. destruct j as [|j].
  - intros [= <-]. cbn [insert list_insert]. rewrite !filter_cons. unfold len. destruct (decide (counted (pg_pc q) = true)) as [H1|H1], (decide (counted (pg_pc p') = true)) as [H2|H2]; cbn [length]; rewrite ?H1, ?H2, ?(not_true_is_false _ H1), ?(not_true_is_false _ H2); lia.
  - intros Hj. change (<[S j:=p']> (q :: pages)) with (q :: <[j:=p']> pages). rewrite !filter_cons. specialize (IH _ Hj). unfold len in *. destruct (decide (counted (pg_pc q) = true)); cbn [length]; lia.
Qed.
Lemma pages_ok_insert conns pages j p' : page_ok conns p' → Forall (page_ok conns) pages → Forall (page_ok conns) (<[j := p']> pages).
Proof. intros Hp H. by apply Forall_insert. Qed.

Lemma page_step_ok j found s s' : page_step j found s = Some s' → flows_ok s → flows_ok s'.
Proof.
  intros Hst [K1 K2 K3 K4 K6 K5]. destruct s as [viewers slots next seq table conns pages]. cbn in *.
  destruct (pages !! j) as [[since evs pc]|] eqn:Hj; [|done]. pose proof (Forall_lookup_1 _ _ _ _ K5 Hj) as (P1 & P2 & P3).
  assert (∀ pc' viewers' seq', viewers' = viewers - (if counted pc then 1 else 0) + (if counted pc' then 1 else 0) → page_ok conns (mkPage since evs pc') →
    flows_ok (mkLog viewers' slots next seq' table conns (<[j := mkPage since evs pc']> pages))) as H.
  { intros pc' viewers' seq' -> Hp. split; cbn; [by rewrite (count_insert _ _ _ _ Hj), K1|done..|by apply pages_ok_insert]. }
  assert (∀ i, i ∈ table → is_Some (conns !! i)) as Htab by (intros i (c & pc0 & Hi & _)%K3; eauto).
  destruct pc as [| |must l|l more active|k more active found'|more active found'| |]; try done; cbn in H.
  - injection Hst as <-. apply H; [cbn; lia|]. by split_and!.
  - injection Hst as <-. apply H; [cbn; lia|]. split_and!; [done| |done]. intros i c pc Hi Ha. unfold open_told. cbn. right. left. apply elem_of_elements, K3. exists c, pc. split; [done|]. by destruct pc as [|[]|[]|[]| | | | | | |].
  - destruct found as [i|].
    + destruct (bool_decide_reflect (i ∈ table)) as [Hi|]; [|done]. destruct (negb _); [|done]. cbn in Hst. destruct (_ =? _)%nat; injection Hst as <-; (apply H; [cbn; lia|]); (split_and!; [done| |done]).
      * intros i' c pc Hi' Ha. unfold open_told. cbn. auto.
      * intros i' c pc Hi' Ha. pose proof (P2 i' c pc Hi' Ha) as Ho. unfold open_told in *. cbn in *. rewrite elem_of_app. naive_solver.
    + destruct (forallb _ must) eqn:Em; [|done]. injection Hst as <-. apply H; [cbn; lia|]. split_and!; [done| |done].
      intros i' c pc Hi' Ha. pose proof (P2 i' c pc Hi' Ha) as Ho. unfold open_told in *. cbn in *. destruct Ho as [?|[Hm|?]]; [auto| |auto].
      right. left. apply (proj1 (forallb_forall _ _)) with (x := i') in Em; [by apply bool_decide_eq_true in Em|by apply list_elem_of_In].
  - destruct l as [|i l].
    + injection Hst as <-. apply H; [cbn; lia|]. split_and!; [| |split; [split; [done|unfold flowHistory; lia]|constructor]].
      * intros i c v k Hi. unfold close_told. cbn. left. apply Z.mod_pos_bound. unfold flowHistory. lia.
      * intros i c pc Hi Ha. pose proof (P2 i c pc Hi Ha) as Ho. unfold open_told in *. cbn in *. destruct Ho as [?|[Hn%not_elem_of_nil|?]]; [by left|done|by right].
    + destruct (conns !! i) as [[c pc]|] eqn:Hi; [|done]. injection Hst as <-. apply H; [cbn; lia|]. split_and!; [done| |done].
      intros i' c' pc' Hi' Ha. pose proof (P2 i' c' pc' Hi' Ha) as Ho. unfold open_told in *. cbn in *. destruct Ho as [?|[[->|Hl]%elem_of_cons|[(v & Hv & Hid)|?]]]; [auto| |auto| |auto].
      * right. right. left. rewrite Hi in Hi'. injection Hi' as <- <-. exists (flow c (seq + 1)). split; [apply elem_of_app; right; by left|done].
      * right. right. left. exists v. split; [apply elem_of_app; by left|done].
  - destruct P3 as [Hk Hfr]. destruct (k =? flowHistory) eqn:Ek; injection Hst as <-; (apply H; [cbn; lia|]).
    + apply Z.eqb_eq in Ek as ->. split_and!.
      * intros i c v k Hi. pose proof (P1 i c v k Hi) as Ht. unfold close_told in *. cbn in *. rewrite elem_of_stable_sort.
        destruct Ht as [Ht|Ht]; [|done]. pose proof (Z.mod_pos_bound k flowHistory ltac:(done)). unfold flowHistory in *. lia.
      * done.
      * split; [by rewrite stable_sort_perm|]. intros a b. cbn. apply stable_sort_before.
        -- intros x y z. unfold closed_before. repeat case_match; bool_prop; lia.
        -- intros x y. unfold closed_before. repeat case_match; bool_prop; lia.
    + apply Z.eqb_neq in Ek. split_and!.
      * intros i c v k' Hi. pose proof (P1 i c v k' Hi) as Ht. unfold close_told in *. cbn in *. rewrite elem_of_app.
        destruct Ht as [Hr|Ht]; [|naive_solver]. destruct (decide (k = k' mod flowHistory)) as [->|Hne]; [right|left; lia].
        destruct K4 as (_ & _ & K4). destruct (K4 i c _ v k' Hi eq_refl) as [Hs|Ht]; [|by auto]. rewrite Hs. cbn.
        destruct (since <=? fv_Ended v) eqn:Es; [right; left; right; by left|]. right. right. left. lia.
      * done.
      * split; [lia|]. cbn. apply Forall_app. split; [done|]. unfold seen. destruct (slots !! k) as [v|]; [|constructor]. destruct (since <=? fv_Ended v) eqn:Es; [|constructor]. constructor; [lia|constructor].
  - injection Hst as <-. apply H; [cbn; lia|]. by split_and!.
  - injection Hst as <-. apply H; [cbn; lia|]. by split_and!.
Qed.

Lemma flow_step_ok s s' : flow_step s s' → flows_ok s → flows_ok s'.
Proof.
  intros [viewers slots next seq table conns pages c|viewers slots next seq table conns pages c start now reason|viewers slots next seq table conns pages i c c' pc Hi Hc|
    viewers slots next seq table conns pages since|s1 s2 i now goes Hst|s1 s2 j found Hst] Hok; [..|by eapply conn_step_ok|by eapply page_step_ok].
  all: destruct Hok as [K1 K2 K3 K4 K6 K5]; cbn in *.
  1,2: assert (∀ pc, held pc = None → announced pc = false → Forall (page_ok conns) pages → Forall (page_ok (conns ++ [(c, pc)])) pages) as Hp by (
    intros pc Hh Ha HF; eapply Forall_impl; [exact HF|]; intros p (P1 & P2 & P3); split_and!; [|by intros i0 c0 pc0 [Hi0|[_ [= -> ->]]]%lookup_snoc_cases Ha0; [eapply P2|congruence]|done];
    intros i0 c0 v k [Hi0|[_ [= -> <-]]]%lookup_snoc_cases; [|done]; eapply close_told_mono; [apply goes_on_snoc|done..|by eapply P1]).
  - split; cbn; [done|done|by apply table_ok_snoc|by apply slots_ok_snoc| |by apply Hp]. intros i c0 t v [Hi|[_ [=]]]%lookup_snoc_cases. by eapply K6.
  - split; cbn; [done|done|by apply table_ok_snoc|by apply slots_ok_snoc| |by apply Hp]. intros i c0 t v [Hi|[_ [=]]]%lookup_snoc_cases. by eapply K6.
  - split; cbn; [done|done|by eapply table_ok_same|by eapply slots_ok_same| |].
    + intros j cj t v [(<- & [= <- ->] & _)|[_ Hj]]%list_lookup_insert_Some; [rewrite Hc; by eapply K6|by eapply K6].
    + eapply Forall_impl; [exact K5|]. intros p Hp. eapply page_ok_conn; [done|done|done|done|done|by left| | |done].
      * intros v k Heq. by left.
      * by left.
  - split; cbn; [|done..|].
    + rewrite filter_app, filter_cons_False by done. by rewrite filter_nil, app_nil_r.
    + apply Forall_app. split; [done|]. constructor; [by split_and!|constructor].
Qed.

(** * Nothing falls between *)


(** ** Witness

    A connection opens before anybody watches; a page opens while it closes:
    its last view is stored after the page has read that slot, and it is told
    so. Another stays open, and is in the snapshot. *)

Definition demo_conn (id : Z) : ConnState := mkConn id (lit "https") (lit "10.0.0.9:4000") (lit "10.0.0.1:443") (lit "a.lan") true (lit "10.0.0.2:443") [] (lit "a.lan") [] [] 100 [] [] no_how 0 0 0 0.
Inductive demo_act := DAccept (id : Z) | DWatch (since : Z) | DConn (i : nat) (goes : bool) | DPage (j : nat) (found : option nat).
Definition demo_act_step (s : flowLog) (a : demo_act) : option flowLog :=
  let 'mkLog viewers slots next seq table conns pages := s in
  match a with
  | DAccept id => Some (mkLog viewers slots next seq table (conns ++ [(demo_conn id, Arrived)]) pages)
  | DWatch since => Some (mkLog viewers slots next seq table conns (pages ++ [mkPage since [] Subscribed]))
  | DConn i goes => conn_step i 200 goes s
  | DPage j found => page_step j found s
  end.
Definition demo_flow_run (acts : list demo_act) : option flowLog := foldl (fun s a => s ≫= fun s => demo_act_step s a) (Some newFlowLog) acts.
Lemma demo_flow_reach acts s : demo_flow_run acts = Some s → rtc flow_step newFlowLog s.
Proof.
  unfold demo_flow_run. revert s. induction acts as [|a acts IH] using rev_ind; intros s; [by intros [= <-]|]. rewrite foldl_app. cbn [foldl].
  destruct (foldl _ _ acts) as [s1|]; [|done]. cbn [mbind option_bind]. intros He. eapply rtc_r; [by apply IH|]. destruct s1 as [viewers slots next seq table conns pages].
  destruct a; cbn [demo_act_step] in He; [injection He as <-; constructor|injection He as <-; constructor|by eapply ConnGoes|by eapply PageGoes].
Qed.
Definition demo_close_late : list demo_act :=
  [DAccept 7; DAccept 8; DConn 0 true; DConn 0 true; DConn 1 true; DConn 1 true; DWatch 150; DPage 0 None; DPage 0 None; DConn 0 false;
   DPage 0 (Some 1%nat); DPage 0 None; DPage 0 None; DPage 0 None; DPage 0 None] ++ replicate 1999 (DPage 0 None) ++
  [DConn 0 true; DConn 0 true; DConn 0 true; DConn 0 true; DConn 0 true; DPage 0 None].
Definition demo_closed_view : flowView := ended (demo_conn 7) 2 200.
Definition demo_late : flowLog := default newFlowLog (demo_flow_run demo_close_late).
Definition demo_late_page : page := mkPage 150 [mkEvent ev_close demo_closed_view] (Watches false [flow (demo_conn 8) 1] []).

(** ** Numbers

    A snapshot may have a view of a connection, open, that is newer by its
    number than the last, closed: it was in the table when the snapshot found
    it. To keep the highest is not enough; closed is last. *)
Definition demo_older_close : list demo_act :=
  [DAccept 7; DConn 0 true; DConn 0 true; DWatch 150; DPage 0 None; DPage 0 None; DPage 0 (Some 0%nat); DPage 0 None;
   DConn 0 false; DConn 0 true; DConn 0 true; DConn 0 true; DConn 0 true; DConn 0 true; DPage 0 None].
Example closed_is_older : match demo_flow_run demo_older_close with
  | Some s => match fl_pages s with
              | [p] => (fun e => (fe_Type e, fv_Seq (fe_Flow e), fv_Ended (fe_Flow e))) <$> pg_events p = [(ev_close, 1, 200)] ∧
                  match pg_pc p with Views [] false [v] => fv_ID v = 7 ∧ fv_Seq v = 2 ∧ fv_Ended v = 0 | _ => False end
              | _ => False
              end
  | None => False
  end.
Proof. vm_compute. by split_and!. Qed.

(** * Counters

    [prepare]: the counters of the rules and listeners there are, those there
    were kept, the others gone. *)
Record RuleStats := mkRuleStats { rs_Active : Z; rs_Total : Z; rs_BytesUp : Z; rs_BytesDown : Z }.
Definition no_stats : RuleStats := mkRuleStats 0 0 0 0.
Definition made (m : gmap bytes RuleStats) (key : bytes) : gmap bytes RuleStats := match m !! key with Some _ => m | None => <[key := no_stats]> m end.
Definition prepare (keys : list bytes) (m : gmap bytes RuleStats) : gmap bytes RuleStats := filter (fun e => e.1 ∈ keys) (foldl made m keys).
Lemma prepare_exact keys m k : prepare keys m !! k = if bool_decide (k ∈ keys) then Some (default no_stats (m !! k)) else None.
Proof.
  assert (∀ l m, foldl made m l !! k = if bool_decide (k ∈ l) then Some (default no_stats (m !! k)) else m !! k) as H.
  { clear. induction l as [|x l IH]; intros m; [by rewrite bool_decide_false by apply not_elem_of_nil|]. cbn [foldl]. rewrite IH. unfold made.
    destruct (decide (k = x)) as [->|Hn].
    - rewrite (bool_decide_true (x ∈ x :: l)) by (by left). destruct (m !! x) eqn:E; rewrite ?lookup_insert_eq, ?E; by destruct (bool_decide _).
    - rewrite (bool_decide_ext (k ∈ x :: l) (k ∈ l)) by (rewrite elem_of_cons; naive_solver). destruct (m !! x); by rewrite ?lookup_insert_ne. }
  unfold prepare. rewrite map_lookup_filter, H. destruct (bool_decide_reflect (k ∈ keys)) as [Hk|Hk]; cbn.
  - destruct (m !! k); cbn; by rewrite option_guard_True.
  - destruct (m !! k); cbn; [by rewrite option_guard_False|done].
Qed.

(** [sample], [Rates]: one sample a second in a ring, and the difference of
    the newest and the oldest. *)
Definition rateWindow : Z := 5.
Record rateSample := mkSample { ra_at : Z; ra_up : Z; ra_down : Z; ra_accepted : Z }.
Record rates := mkRates { ra_samples : gmap Z rateSample; ra_n : Z }.
Definition sample (x : rateSample) (r : rates) : rates := mkRates (<[ra_n r mod (rateWindow + 1) := x]> (ra_samples r)) (ra_n r + 1).
(** [Duration.Seconds]; it is above zero when the duration is. *)
Definition Seconds (d : Z) : float64 := SFadd 53 1024 (f_of_int (Z.quot d 1000000000)) (f_div (f_of_int (Z.rem d 1000000000)) (f_of_int 1000000000)).
Definition Rates (r : rates) : float64 * float64 * float64 :=
  if ra_n r <? 2 then (f_of_int 0, f_of_int 0, f_of_int 0)
  else
    match ra_samples r !! ((ra_n r - 1) mod (rateWindow + 1)), ra_samples r !! (Z.max 0 (ra_n r - (rateWindow + 1)) mod (rateWindow + 1)) with
    | Some newest, Some oldest =>
        let d := time_sub (ra_at newest) (ra_at oldest) in
        let secs := Seconds d in
        if d <=? 0 then (f_of_int 0, f_of_int 0, f_of_int 0)
        else (f_div (f_of_int (ra_up newest - ra_up oldest)) secs, f_div (f_of_int (ra_down newest - ra_down oldest)) secs,
              f_div (f_of_int (ra_accepted newest - ra_accepted oldest)) secs)
    | _, _ => (f_of_int 0, f_of_int 0, f_of_int 0)
    end.
(** The ring has the samples of the window: the last six. *)
Definition samples_of (l : list rateSample) : rates := foldl (fun r x => sample x r) (mkRates ∅ 0) l.
Lemma rates_window l i x : l !! i = Some x → (length l <= i + 6)%nat → ra_n (samples_of l) = len l ∧ ra_samples (samples_of l) !! (Z.of_nat i mod 6) = Some x.
Proof.
  revert i x. assert (∀ l, ra_n (samples_of l) = len l) as Hn.
  { clear. intros l. unfold samples_of. induction l as [|x l IH] using rev_ind; [done|]. rewrite foldl_app. cbn. rewrite IH. unfold len. rewrite length_app. cbn. lia. }
  induction l as [|y l IH] using rev_ind; intros i x; [done|]. intros Hi Hl. split; [apply Hn|]. unfold samples_of in *. rewrite foldl_app. cbn [foldl sample ra_samples].
  rewrite Hn. rewrite length_app in Hl. cbn in Hl. change (rateWindow + 1) with 6. apply lookup_snoc_cases in Hi as [Hi|[-> ->]]; [|apply lookup_insert_eq].
  pose proof (lookup_lt_Some _ _ _ Hi) as Hlt. rewrite lookup_insert_ne; [by apply IH; [|lia]|]. unfold len. intros Heq.
  pose proof (Z.div_mod (Z.of_nat (length l)) 6 ltac:(done)). pose proof (Z.div_mod (Z.of_nat i) 6 ltac:(done)). lia.
Qed.
