(* ===== verification/Serve.v ===== *)
(** Serve: requests on the connections a rule serves itself ([serve.go]):
    the rule a request's Host routes to now, its route, who may see it, and
    the hand-over of a connection to its listener's web server. The folders
    of the system and what [Password] and [Oidc] take as parameters are
    parameters; the console only answers. *)

From S2P Require Import Prelude GoStr NetIP Rules Config Password ServeConfig Http StaticFiles ReverseProxy Oidc.

(** * The folder of a static route *)

(** [staticDir]; once closed, every call on its root fails. *)
Record staticDir := mkDir { sd_root : option root; sd_tried : option Z; sd_closed : bool }.
Definition new_dir : staticDir := mkDir None None false.

(** [staticDir.open]: the folder if it is open, tried at most once a second. *)
Definition open_dir (open_root : Z → option root) (d : staticDir) (now : Z) : staticDir :=
  match sd_root d with
  | Some _ => d
  | None =>
      if sd_closed d || match sd_tried d with Some t => now - t <? second | None => false end then d
      else mkDir (open_root now) (Some now) false
  end.
(** [staticDir.close] *)
Definition closed_root : root := mkRoot (fun _ => None) (fun _ => None) (fun _ => None).
Definition close_dir (d : staticDir) : staticDir := mkDir ((fun _ => closed_root) <$> sd_root d) (sd_tried d) true.

(** * Handing a connection over *)

(** A configuration's web servers by listener, and whether each still takes
    connections ([serveState.web]; [None] is a configuration that serves
    nothing). *)
Abbreviation webs := (option (gmap bytes bool)).
(** [webFor] *)
Definition webFor (rt : webs) (listener : bytes) : option bool := rt ≫= (fun m => m !! listener).

Inductive handed := Handed | KilledByReload | Panics | StillTrying.
#[export] Instance handed_eq_dec : EqDecision handed.
Proof. solve_decision. Defined.

(** The loop of [serveHere]. Each turn finds the configuration then running,
    and the connection's listener by name, twice: a reload may rename it. *)
Fixpoint hand_over (rt : webs) (name : bytes) (turns : list (webs * bytes * bytes)) : handed :=
  match webFor rt name with
  | None => Panics (* push of a nil web server *)
  | Some true => Handed
  | Some false =>
      match turns with
      | [] => StillTrying
      | (rt, name, name') :: turns => if bool_decide (webFor rt name = None) then KilledByReload else hand_over rt name' turns
      end
  end.

(** * Requests *)

(** [requestName] *)
Definition requestName (host : bytes) : bytes :=
  let host := match split_host_port host with Some (h, _) => h | None => host end in
  let host := to_lower (trim host (lit "[]")) in
  match parse_addr host with Some _ => [] | None => host end.

(** [servedConn]: the listener it belongs to now, and the rule's key without
    it. *)
Record servedConn := mkServed { sc_listener : bytes; sc_pattern : bytes }.
Definition ruleKey (c : servedConn) : bytes := sc_listener c ++ key_sep ++ sc_pattern c.
Definition served_of (r : Rule) (listener : bytes) : servedConn := mkServed listener (cut_byte (Key r) 0).2.

Inductive answer :=
| Misdirected                                   (* 421 *)
| ConsoleDown
| ToConsole
| Callback (r : callback_result)                (* OIDC's own paths *)
| Logout (forget : list set_cookie) (location : option bytes)
| FolderRedirect (prefix : bytes)
| NoRoute                                       (* 404 *)
| Unauthorized (why : option refusal)           (* 401; [None]: no credentials *)
| OIDCRefused (r : gate_result)                 (* OIDC has answered *)
| DirUnavailable                                (* 503 *)
| File (s : ServiceRoute) (q : request) (a : file_answer) (looked : list bytes)
| Proxied (s : ServiceRoute) (q : request)
| Nothing.

(** What requests change: the passwords remembered, the folders open, and
    what is known of the identity providers. *)
Record serving := mkServing { sv_good : gmap bytes Z; sv_dirs : gmap (bytes * bytes) staticDir; sv_clients : gmap bytes oidcClient }.

Section Serve.
Context (IDKey : bytes → bytes → Z → Z → Z → Z → bytes) (PBKDF2 : bytes → bytes → Z → Z → bytes) (sha256 : bytes → bytes).
Context (open_root : bytes → Z → option root).                                (* os.OpenRoot *)
Context (console_running : bool).
Context (get_discovery : bytes → Z → res err oidcDiscovery) (get_keys : bytes → Z → res err (gmap bytes pubkey)) (ca_file : bytes → res err unit).
Context (json_header : bytes → option jwt_header) (json_claims : bytes → option claims) (verify_sig : bytes → pubkey → bytes → bytes → bool).
Context (post_form : bytes → list (bytes * bytes) → option (bytes * bytes) → Z → res err token_answer) (client_assertion : OIDCProvider → bytes → Z → res err bytes).
Context (seal : bytes → bytes → sealed → bytes) (open_sealed : bytes → bytes → option sealed).

(** [/docs] for the prefix [/docs/]. *)
Definition folder_of (route : option ServiceRoute) (path : bytes) (x : ServiceRoute) : bool :=
  let folder := trim_suffix (sr_Prefix x) (lit "/") in
  (1 <? len (sr_Prefix x)) && negb (bool_decide (folder = sr_Prefix x)) && bool_decide (path = folder) &&
  match route with None => true | Some r => len (sr_Prefix r) <? len folder end.

(** The [basic_auth] part: the request sent on, or why not. *)
Definition basic_guard (good : gmap bytes Z) (s : ServiceRoute) (q : request) (now : Z) : gmap bytes Z * (request + option refusal) :=
  match sr_auth s with
  | None => (good, inl q)
  | Some a =>
      match basic_credentials (rq_Header q) with
      | None => (good, inr None)
      | Some (user, password) =>
          match check IDKey PBKDF2 sha256 good a user password now with
          | (good, Some why) => (good, inr (Some why))
          | (good, None) =>
              (good, inl (mkRequest (rq_Method q) (rq_Proto q) (rq_Host q) (rq_Scheme q) (rq_URLHost q) (rq_Path q) (rq_RawPath q) (rq_RawQuery q)
                 (hdr_del (rq_Header q) (lit "Authorization")) (rq_RemoteAddr q) (rq_Local q) (Some (basic_identity user))))
          end
      end
  end.
(** The [oidc] part: the request sent on, without the proxy's cookies. *)
Definition oidc_guard (m : gmap bytes oidcClient) (provider : bytes → option OIDCProvider) (s : ServiceRoute) (q : request) (now : Z) (rn : randoms)
    : gmap bytes oidcClient * (request + gate_result) :=
  match provider (sr_OIDC s) with
  | None => (m, inl q)
  | Some p =>
      match gate get_discovery ca_file sha256 seal open_sealed m q p s now rn with
      | (m, LetIn id) =>
          (m, inl (mkRequest (rq_Method q) (rq_Proto q) (rq_Host q) (rq_Scheme q) (rq_URLHost q) (rq_Path q) (rq_RawPath q) (rq_RawQuery q)
             (stripOIDCCookies (rq_Header q)) (rq_RemoteAddr q) (rq_Local q) (Some id)))
      | (m, r) => (m, inr r)
      end
  end.

(** [oidcAuth.handle] *)
Definition oidc_handle (st : serving) (provider : bytes → option OIDCProvider) (rule : Rule) (q : request) (now : Z) (rn : randoms) : option (serving * answer) :=
  if negb (has_prefix (rq_Path q) oidcPathPrefix) || bool_decide (providersOf provider rule = []) then None
  else if bool_decide (rq_Path q = oidcCallback) then
    let '(m, r) := callback get_discovery get_keys ca_file json_header json_claims verify_sig post_form client_assertion sha256 seal open_sealed
                     (sv_clients st) q (providersOf provider rule) now rn in
    Some (mkServing (sv_good st) (sv_dirs st) m, Callback r)
  else if bool_decide (rq_Path q = oidcLogout) then
    let '(m, forget, location) := logout get_discovery ca_file sha256 (sv_clients st) q (providersOf provider rule) now in
    Some (mkServing (sv_good st) (sv_dirs st) m, Logout forget location)
  else None.

(** What the route answers. *)
Definition answer_route (st : serving) (rule : Rule) (s : ServiceRoute) (q : request) (now : Z) : serving * answer :=
  if bool_decide (sr_Type s = routeStatic) then
    let key := (Key rule, sr_Prefix s) in
    let d := open_dir (open_root (sr_BaseDir s)) (default new_dir (sv_dirs st !! key)) now in
    (mkServing (sv_good st) (<[key := d]> (sv_dirs st)) (sv_clients st),
     match sd_root d with
     | None => DirUnavailable
     | Some r => let '(a, looked) := serveFile q s r in File s q a looked
     end)
  else if bool_decide (sr_Type s = routeProxy) then (st, Proxied s q)
  else (st, Nothing).

(** [serveRequest]: what runs when it comes is the routes and providers of
    the configuration, the rules stopped from the console, the connection,
    the time and random text. *)
Record running := mkRunning {
  ru_byListener : gmap bytes Routes; ru_provider : bytes → option OIDCProvider; ru_stopped : bytes → bool; ru_conn : servedConn; ru_now : Z; ru_randoms : randoms;
}.
Definition routed (ru : running) (q : request) : RouteDecision :=
  match ru_byListener ru !! sc_listener (ru_conn ru) with
  | Some l => RouteExcept l (requestName (rq_Host q)) (ru_stopped ru)
  | None => no_decision
  end.
(** From the route on. *)
Definition serve_route (st : serving) (ru : running) (rule : Rule) (s : ServiceRoute) (q : request) : serving * answer :=
  match basic_guard (sv_good st) s q (ru_now ru) with
  | (good, inr why) => (mkServing good (sv_dirs st) (sv_clients st), Unauthorized why)
  | (good, inl q) =>
      match oidc_guard (sv_clients st) (ru_provider ru) s q (ru_now ru) (ru_randoms ru) with
      | (m, inr r) => (mkServing good (sv_dirs st) m, OIDCRefused r)
      | (m, inl q) => answer_route (mkServing good (sv_dirs st) m) rule s q (ru_now ru)
      end
  end.
Definition serveRequest (st : serving) (ru : running) (q : request) : serving * answer :=
  match d_Rule (routed ru q) with
  | None => (st, Misdirected)
  | Some rule =>
      if negb (bool_decide (Key rule = ruleKey (ru_conn ru))) || negb (Serves rule) then (st, Misdirected)
      else if r_Console rule then (st, if console_running then ToConsole else ConsoleDown)
      else
        match oidc_handle st (ru_provider ru) rule q (ru_now ru) (ru_randoms ru) with
        | Some r => r
        | None =>
            let route := RouteFor rule (rq_Path q) in
            match find (folder_of route (rq_Path q)) (r_Routes rule) with
            | Some x => (st, FolderRedirect (sr_Prefix x))
            | None => match route with None => (st, NoRoute) | Some s => serve_route st ru rule s q end
            end
        end
  end.
End Serve.

(** * Who is let in *)

Section Guards.
Context (IDKey : bytes → bytes → Z → Z → Z → Z → bytes) (PBKDF2 : bytes → bytes → Z → Z → bytes) (sha256 : bytes → bytes).
Hypothesis sha256_inj : ∀ x y, sha256 x = sha256 y → x = y. (* no collisions *)

(** The credentials of a request, checked with nothing remembered. *)
Definition signs_in (a : Rules.BasicAuth) (q : request) (now : Z) (user : bytes) : Prop :=
  ∃ password, basic_credentials (rq_Header q) = Some (user, password) ∧ may_sign_in IDKey PBKDF2 a user password now = None.
Definition refused (a : Rules.BasicAuth) (q : request) (now : Z) (why : option refusal) : Prop :=
  match why with
  | None => basic_credentials (rq_Header q) = None
  | Some w => ∃ user password, basic_credentials (rq_Header q) = Some (user, password) ∧ may_sign_in IDKey PBKDF2 a user password now = Some w
  end.

Lemma basic_guard_spec good s q now good' r :
  remembers IDKey PBKDF2 sha256 good → (∀ a, sr_auth s = Some a → item_ok a) →
  basic_guard IDKey PBKDF2 sha256 good s q now = (good', r) →
  remembers IDKey PBKDF2 sha256 good' ∧
  match r with
  | inl q' =>
      match sr_auth s with
      | None => q' = q
      | Some a => ∃ user, signs_in a q now user ∧ rq_Header q' = hdr_del (rq_Header q) (lit "Authorization") ∧ rq_User q' = Some (basic_identity user)
      end
  | inr why => ∃ a, sr_auth s = Some a ∧ refused a q now why
  end.
Proof.
  intros Hr Hok. unfold basic_guard. destruct (sr_auth s) as [a|]; [|by injection 1 as <- <-].
  destruct (basic_credentials (rq_Header q)) as [[user password]|] eqn:Ec; [|injection 1 as <- <-; by eauto].
  pose proof (check_remembers IDKey PBKDF2 sha256 good a user password now sha256_inj (Hok _ eq_refl) Hr) as Hc.
  destruct (check _ _ _ _ _ _ _ _) as [good1 [why|]]; destruct Hc as [Hg Hm]; injection 1 as <- <-; (split; [done|]).
  - exists a. split; [done|]. by exists user, password.
  - exists user. split; [by exists password|done].
Qed.
End Guards.

(** * Properties *)

Section Property.
Context (IDKey : bytes → bytes → Z → Z → Z → Z → bytes) (PBKDF2 : bytes → bytes → Z → Z → bytes) (sha256 : bytes → bytes).
Context (open_root : bytes → Z → option root) (console_running : bool).
Context (get_discovery : bytes → Z → res err oidcDiscovery) (get_keys : bytes → Z → res err (gmap bytes pubkey)) (ca_file : bytes → res err unit).
Context (json_header : bytes → option jwt_header) (json_claims : bytes → option claims) (verify_sig : bytes → pubkey → bytes → bytes → bool).
Context (post_form : bytes → list (bytes * bytes) → option (bytes * bytes) → Z → res err token_answer) (client_assertion : OIDCProvider → bytes → Z → res err bytes).
Context (seal : bytes → bytes → sealed → bytes) (open_sealed : bytes → bytes → option sealed).

Definition serve_request : serving → running → request → serving * answer :=
  serveRequest IDKey PBKDF2 sha256 open_root console_running get_discovery get_keys ca_file json_header json_claims verify_sig
    post_form client_assertion seal open_sealed.

(** The request a route is reached with. *)
Definition reached (a : answer) : option (ServiceRoute * request) :=
  match a with File s q _ _ | Proxied s q => Some (s, q) | _ => None end.

Lemma answer_route_reached st rule s q now st' a : answer_route open_root st rule s q now = (st', a) →
  sv_good st' = sv_good st ∧ (∀ s' q', reached a = Some (s', q') → s' = s ∧ q' = q) ∧ (∀ why, a ≠ Unauthorized why).
Proof.
  unfold answer_route. destruct (bool_decide (sr_Type s = routeStatic)).
  - destruct (sd_root _) as [r|]; [destruct (serveFile q s r)|]; intros [= <- <-]; split_and!; try done; by intros ? ? [= <- <-].
  - destruct (bool_decide _); intros [= <- <-]; split_and!; try done; by intros ? ? [= <- <-].
Qed.

Lemma oidc_guard_spec m provider s q now rn m' q' :
  oidc_guard sha256 get_discovery ca_file seal open_sealed m provider s q now rn = (m', inl q') →
  match provider (sr_OIDC s) with
  | None => q' = q
  | Some p => ∃ id, (gate get_discovery ca_file sha256 seal open_sealed m q p s now rn).2 = LetIn id ∧
                rq_Header q' = stripOIDCCookies (rq_Header q) ∧ rq_User q' = Some id
  end.
Proof.
  unfold oidc_guard. destruct (provider _) as [p|]; [|by intros [= _ <-]]. destruct (gate _ _ _ _ _ _ _ _ _ _ _) as [m1 r]. destruct r; intros [= _ <-]. by eexists.
Qed.

Lemma oidc_handle_only st provider rule q now rn st' a :
  oidc_handle sha256 get_discovery get_keys ca_file json_header json_claims verify_sig post_form client_assertion seal open_sealed st provider rule q now rn = Some (st', a) →
  sv_good st' = sv_good st ∧ reached a = None ∧ (∀ why, a ≠ Unauthorized why).
Proof.
  unfold oidc_handle. destruct (negb _ || _); [done|]. destruct (bool_decide (rq_Path q = oidcCallback)).
  - destruct (callback _ _ _ _ _ _ _ _ _ _ _ _ _ _ _ _) as [m r]. by intros [= <- <-].
  - destruct (bool_decide _); [|done]. destruct (logout _ _ _ _ _ _ _) as [[m f] l]. by intros [= <- <-].
Qed.

Lemma serve_route_spec st ru rule s q st' a :
  (∀ x y, sha256 x = sha256 y → x = y) → remembers IDKey PBKDF2 sha256 (sv_good st) → (∀ a, sr_auth s = Some a → item_ok a) →
  serve_route IDKey PBKDF2 sha256 open_root get_discovery ca_file seal open_sealed st ru rule s q = (st', a) →
  remembers IDKey PBKDF2 sha256 (sv_good st') ∧
  (∀ why, a = Unauthorized why → ∃ item, sr_auth s = Some item ∧ refused IDKey PBKDF2 item q (ru_now ru) why) ∧
  (∀ s' q', reached a = Some (s', q') → s' = s ∧ ∃ q1,
     match sr_auth s with
     | None => q1 = q
     | Some item => ∃ user, signs_in IDKey PBKDF2 item q (ru_now ru) user ∧ rq_Header q1 = hdr_del (rq_Header q) (lit "Authorization") ∧ rq_User q1 = Some (basic_identity user)
     end ∧
     match ru_provider ru (sr_OIDC s) with
     | None => q' = q1
     | Some p => ∃ id, (gate get_discovery ca_file sha256 seal open_sealed (sv_clients st) q1 p s (ru_now ru) (ru_randoms ru)).2 = LetIn id ∧
                   rq_Header q' = stripOIDCCookies (rq_Header q1) ∧ rq_User q' = Some id
     end).
Proof.
  intros Hinj Hr Hok. unfold serve_route. destruct (basic_guard _ _ _ _ _ _ _) as [good [q1|why]] eqn:Eb;
    destruct (basic_guard_spec _ _ _ Hinj _ _ _ _ _ _ Hr Hok Eb) as [Hg Hb].
  2: { intros [= <- <-]. split; [done|]. split; [|done]. intros w [= <-]. done. }
  destruct (oidc_guard _ _ _ _ _ _ _ _ _ _ _) as [m [q2|r]] eqn:Eo; [|by intros [= <- <-]].
  intros Ha. apply answer_route_reached in Ha as (H1 & H2 & H3). cbn in H1. rewrite H1. split; [done|]. split; [by intros why ?%H3|].
  intros s' q' [-> ->]%H2. split; [done|]. exists q1. split; [done|]. by eapply oidc_guard_spec.
Qed.

(** C40: A request reaches a route only as the route of its path in the rule
    its Host routes to now, on a connection of that same rule (otherwise it
    is misdirected, 421); a route with [basic_auth] only with credentials its
    item takes at that time, remembered ones or not, and without passing them
    on, as that user; a route with [oidc] only with an identity the gate
    admits, and without the proxy's own cookies; and no one whose credentials
    are good is answered 401. *)
Theorem guarded (st st' : serving) (ru : running) (q : request) (a : answer) :
  (∀ x y, sha256 x = sha256 y → x = y) → remembers IDKey PBKDF2 sha256 (sv_good st) →
  (∀ rule s item, d_Rule (routed ru q) = Some rule → s ∈ r_Routes rule → sr_auth s = Some item → item_ok item) →
  serve_request st ru q = (st', a) →
  remembers IDKey PBKDF2 sha256 (sv_good st') ∧
  (∀ why, a = Unauthorized why → ∃ rule s item, d_Rule (routed ru q) = Some rule ∧ RouteFor rule (rq_Path q) = Some s ∧
     sr_auth s = Some item ∧ refused IDKey PBKDF2 item q (ru_now ru) why) ∧
  (∀ s q', reached a = Some (s, q') →
     ∃ l rule q1, ru_byListener ru !! sc_listener (ru_conn ru) = Some l ∧
       d_Rule (RouteExcept l (requestName (rq_Host q)) (ru_stopped ru)) = Some rule ∧ Key rule = ruleKey (ru_conn ru) ∧
       RouteFor rule (rq_Path q) = Some s ∧
       match sr_auth s with
       | None => q1 = q
       | Some item => ∃ user, signs_in IDKey PBKDF2 item q (ru_now ru) user ∧
                        rq_Header q1 = hdr_del (rq_Header q) (lit "Authorization") ∧ rq_User q1 = Some (basic_identity user)
       end ∧
       match ru_provider ru (sr_OIDC s) with
       | None => q' = q1
       | Some p => ∃ id, (gate get_discovery ca_file sha256 seal open_sealed (sv_clients st) q1 p s (ru_now ru) (ru_randoms ru)).2 = LetIn id ∧
                     rq_Header q' = stripOIDCCookies (rq_Header q1) ∧ rq_User q' = Some id
       end).
Proof.
  intros Hinj Hr Hok. unfold serve_request, serveRequest. destruct (d_Rule (routed ru q)) as [rule|] eqn:Ed; [|by intros [= <- <-]].
  destruct (negb _ || negb _) eqn:Ek; [by intros [= <- <-]|]. apply orb_false_iff in Ek as [Ek _]. apply negb_false_iff, bool_decide_eq_true in Ek.
  destruct (r_Console rule); [by destruct console_running; intros [= <- <-]|].
  destruct (oidc_handle _ _ _ _ _ _ _ _ _ _ _ _ _ _ _ _ _) as [[st1 a1]|] eqn:Eh.
  { intros [= <- <-]. destruct (oidc_handle_only _ _ _ _ _ _ _ _ Eh) as (H1 & H2 & H3). rewrite H1. split; [done|]. split; [by intros why ?%H3|congruence]. }
  cbn zeta. destruct (find _ _) as [x|]; [by intros [= <- <-]|]. destruct (RouteFor rule (rq_Path q)) as [s|] eqn:Es; [|by intros [= <- <-]].
  assert (∀ item, sr_auth s = Some item → item_ok item) as Hok'.
  { intros item. apply (Hok rule s); [done|]. unfold RouteFor in Es. by apply find_some in Es as [Es%list_elem_of_In _]. }
  intros Ha. destruct (serve_route_spec _ _ _ _ _ _ _ Hinj Hr Hok' Ha) as (H1 & H2 & H3). split; [done|]. split.
  - intros why (item & Hi & Hw)%H2. exists rule, s, item. done.
  - intros s' q' [-> (q1 & Hb & Hg)]%H3. unfold routed in Ed. destruct (ru_byListener ru !! _) as [l|] eqn:El; [|done].
    exists l, rule, q1. done.
Qed.
End Property.

(** * Handing over *)

(** A connection whose listener keeps its name is never lost to a nil web
    server: its first configuration serves there. *)
Lemma hand_over_safe rt name turns :
  webFor rt name ≠ None → Forall (fun t => t.1.2 = name ∧ t.2 = name) turns → hand_over rt name turns ≠ Panics.
Proof.
  intros Hw H. revert rt Hw. induction H as [|[[rt' n1] n2] turns [H1 H2] _ IH]; intros rt Hw; cbn in *; destruct (webFor rt name) as [[]|] eqn:E; try done.
  subst. case_bool_decide; [done|]. by apply IH.
Qed.

(** One that a reload renames during the TLS handshake is: the configuration
    it came with serves nothing under the new name. *)
Lemma hand_over_renamed (m : gmap bytes bool) name turns : m !! name = None → hand_over (Some m) name turns = Panics.
Proof. intros H. destruct turns; cbn; by rewrite H. Qed.

(** * Witnesses *)

Definition w_derive_id (_ _ : bytes) (_ _ _ _ : Z) : bytes := [].
Definition w_derive_key (_ _ : bytes) (_ _ : Z) : bytes := [].
Definition w_team : Rules.BasicAuth := mkBasicAuth (lit "team") 1 {[lit "ann" := Credential (lit "pw") [] false None]}.
Definition w_route (prefix : string) (auth : option Rules.BasicAuth) : ServiceRoute :=
  mkServiceRoute [] 0 routeProxy (lit prefix) (Some (mkURL (lit "http") (lit "10.0.0.1:8080"))) false [] true [] false
    (match auth with Some a => ba_Name a | None => [] end) auth [] false [] [] [] [].
Definition w_guarded : Rule := zero_rule {{ r_Routes := [w_route "/api/" (Some w_team); w_route "/" None] }}.
Definition w_routes_of : Routes := mkRoutes {[lit "www.example.com" := w_guarded]} [].
Definition w_running : running :=
  mkRunning {[ [] := w_routes_of ]} (fun _ => None) (fun _ => false) (served_of w_guarded []) 100 (mkRandoms [] [] [] [] []).
Definition w_api_request : request :=
  mkRequest (lit "GET") (1, 1) (lit "www.example.com:443") [] [] (lit "/api/x") [] []
    (<[lit "Authorization" := [lit "Basic YW5uOnB3"]]> (<[lit "Accept" := [lit "*/*"]]> ∅)) (lit "192.0.2.1:5000") None None.
Definition w_start : serving := mkServing ∅ ∅ ∅.
Definition w_serve_request : serving → running → request → serving * answer :=
  serve_request w_derive_id w_derive_key (fun x => x) (fun _ _ => None) false w_disco w_keys w_ca w_header w_claims_of w_verify w_post w_assert w_seal w_open.
Definition w_answered : serving * answer := w_serve_request w_start w_running w_api_request.

Lemma guarded_witness :
  (reached w_answered.2 = Some (w_route "/api/" (Some w_team),
     mkRequest (lit "GET") (1, 1) (lit "www.example.com:443") [] [] (lit "/api/x") [] [] {[lit "Accept" := [lit "*/*"]]} (lit "192.0.2.1:5000") None
       (Some (basic_identity (lit "ann"))))) ∧
  remembers w_derive_id w_derive_key (fun x => x) (sv_good w_answered.1) ∧
  (∀ why, w_answered.2 = Unauthorized why → ∃ rule s item, d_Rule (routed w_running w_api_request) = Some rule ∧ RouteFor rule (rq_Path w_api_request) = Some s ∧
     sr_auth s = Some item ∧ refused w_derive_id w_derive_key item w_api_request (ru_now w_running) why) ∧
  (∀ s q', reached w_answered.2 = Some (s, q') →
     ∃ l rule q1, ru_byListener w_running !! sc_listener (ru_conn w_running) = Some l ∧
       d_Rule (RouteExcept l (requestName (rq_Host w_api_request)) (ru_stopped w_running)) = Some rule ∧ Key rule = ruleKey (ru_conn w_running) ∧
       RouteFor rule (rq_Path w_api_request) = Some s ∧
       match sr_auth s with
       | None => q1 = w_api_request
       | Some item => ∃ user, signs_in w_derive_id w_derive_key item w_api_request (ru_now w_running) user ∧
                        rq_Header q1 = hdr_del (rq_Header w_api_request) (lit "Authorization") ∧ rq_User q1 = Some (basic_identity user)
       end ∧
       match ru_provider w_running (sr_OIDC s) with
       | None => q' = q1
       | Some p => ∃ id, (gate w_disco w_ca (fun x => x) w_seal w_open (sv_clients w_start) q1 p s (ru_now w_running) (ru_randoms w_running)).2 = LetIn id ∧
                     rq_Header q' = stripOIDCCookies (rq_Header q1) ∧ rq_User q' = Some id
       end).
Proof.
  split; [vm_compute; reflexivity|].
  apply (guarded w_derive_id w_derive_key (fun x => x) (fun _ _ => None) false w_disco w_keys w_ca w_header w_claims_of w_verify w_post w_assert w_seal w_open
    w_start w_answered.1 w_running w_api_request w_answered.2).
  - done.
  - intros k until. unfold w_start. cbn [sv_good]. by rewrite lookup_empty.
  - intros rule s item Hrule Hs Hi. assert (d_Rule (routed w_running w_api_request) = Some w_guarded) as Hd by (vm_compute; reflexivity).
    rewrite Hd in Hrule. injection Hrule as <-. apply elem_of_cons in Hs as [Hs|Hs%list_elem_of_singleton]; subst s; [|done]. injection Hi as <-.
    intros user cred. unfold w_team, ba_Users. intros [<- <-]%lookup_singleton_Some. split; [apply (bool_decide_unpack _); by vm_compute|by apply not_elem_of_nil].
  - symmetry. apply surjective_pairing.
Defined.

(** A path with dot segments is matched as it is written: under a guarded
    prefix only to whoever cleans it. *)
Lemma dot_segments_pass : let path := lit "/x/../admin/users" in
  let route prefix oidc := mkServiceRoute [] 0 routeProxy (lit prefix) None false [] true [] false [] None (lit oidc) false [] [] [] [] in
  let rule := zero_rule {{ r_Routes := [route "/admin/"%string "corp"%string; route "/"%string ""%string] }} in
  path_clean path = lit "/admin/users" ∧
  sr_Prefix <$> RouteFor rule path = Some (lit "/") ∧ sr_Prefix <$> RouteFor rule (path_clean path) = Some (lit "/admin/").
Proof. split_and!; vm_compute; reflexivity. Qed.
