(* ===== verification/Certs.v ===== *)
(** Certs: the certificate manager ([CertManager] of [certs.go]): which names
    have an automatic certificate, when each is due, the jobs that ask the CA
    for them, the script that decides about names nobody listed, and what a
    handshake is served meanwhile. Everybody who uses it at once: handshakes,
    the worker, its jobs, reloads and the console. The CA, DNS, the script,
    files and keys are the outside. *)

From S2P Require Import Prelude GoStr NetIP Sni Rules CertNames Limit Config Http ConfigLoad Prog.
From S2P Require Ring.

(** * Certificates and names *)

(** A [tls.Certificate] with its leaf, as every certificate kept here has. *)
Record cert := mkCert { ct_id : Z; ct_NotBefore : Z; ct_NotAfter : Z }.
#[export] Instance cert_eq_dec : EqDecision cert.
Proof. solve_decision. Defined.

Definition certRetryInterval : Z := 6 * 3600 * second.
Definition validateRejectTTL : Z := 600 * second.
Definition maxParallelJobs : Z := 4.
Definition maxCandidates : Z := 64.
Definition maxRejected : Z := 1024.
Definition certAttempts : nat := 3.
Definition day_ : Z := 24 * 3600 * second.

(** [renewAt]: a product of durations wraps. *)
Definition renewAt (leaf : cert) (thresholdDays : Z) : Z :=
  let threshold := i64 (i64 (i64 thresholdDays * 24) * (3600 * second)) in
  let third := Z.quot (time_sub (ct_NotAfter leaf) (ct_NotBefore leaf)) 3 in
  ct_NotAfter leaf - (if third <? threshold then third else threshold).

(** [cfg.Route] of the configuration itself: its first listener's rules. *)
Definition base_route (cfg : Config) (name : bytes) : RouteDecision :=
  match c_Listeners cfg with l :: _ => Route (l_routes l) name | [] => no_decision end.

(** [scriptFor] *)
Definition scriptFor (cfg : Config) (domain : bytes) : bytes :=
  if negb (validDomain domain) || bool_decide (head domain = Some (ch "-")) then []
  else match d_Rule (base_route cfg domain) with
       | Some r => if negb (bool_decide (r_Cert r = lit "auto")) || contains (r_CertDomains r) domain then [] else r_CertValidateScript r
       | None => []
       end.

(** [scriptArgs] *)
Fixpoint expand_all (domain : bytes) (m : list Z) (args : list bytes) : option (list bytes) :=
  match args with
  | [] => Some []
  | a :: args => match expand a domain m with Ok v => (v ::.) <$> expand_all domain m args | Err _ => None end
  end.
Definition scriptArgs (cfg : Config) (domain : bytes) : list bytes :=
  match d_Rule (base_route cfg domain) with
  | None => [domain]
  | Some r =>
      let m := default [0; len domain] (r_Pattern r ≫= fun re => FindStringSubmatchIndex re domain) in
      match expand_all domain m (r_CertValidateArgs r) with
      | Some (a :: out) => a :: out
      | _ => [domain]
      end
  end.

(** [time.Time.UTC().Format("2006-01-02")]: the day since the epoch. *)
Definition day_of (t : Z) : Z := t / day_.

(** [certStatus], up to the count of days left; and ["issued"]. *)
Inductive status := NoCertificate | Expired (day : Z) | Expiring (day : Z) | Valid (day : Z) | Issued.
#[export] Instance status_eq_dec : EqDecision status.
Proof. solve_decision. Defined.
Definition certStatus (c : option cert) (thresholdDays now : Z) : status :=
  match c with
  | None => NoCertificate
  | Some leaf =>
      if ct_NotAfter leaf <? now then Expired (day_of (ct_NotAfter leaf))
      else if renewAt leaf thresholdDays <? now then Expiring (day_of (ct_NotAfter leaf))
      else Valid (day_of (ct_NotAfter leaf))
  end.

(** [certJob] *)
Record certJob := mkJob { j_domain : bytes; j_urgent : bool; j_due : Z }.

(** * The manager *)

(** What the outside says. *)
Inductive script_answer := Accepts | Refuses | GivesNoAnswer.
#[export] Instance script_answer_eq_dec : EqDecision script_answer.
Proof. solve_decision. Defined.
Inductive dns_answer := NoSuchName | NoResponse | Addresses (l : list addr).
Inductive issue_err := Permanent | Transient.
#[export] Instance issue_err_eq_dec : EqDecision issue_err.
Proof. solve_decision. Defined.
(** Why a name waits for its next attempt. *)
Inductive wait_reason := NotIssued (e : issue_err) | NotRenewed.

#[export] Instance placeholder_key_eq_dec : EqDecision placeholder_key.
Proof. solve_decision. Defined.
#[export] Instance placeholder_key_countable : Countable placeholder_key.
Proof.
  refine (inj_countable' (fun k => match k with OwnName d => inl d | RuleName l s => inr (l, s) end)
    (fun k => match k with inl d => OwnName d | inr (l, s) => RuleName l s end) _). by intros [].
Defined.

(** [certView] *)
Record certView := mkView {
  v_cfg : option (Z * Config); v_auto : gmap bytes cert; v_challenges : gmap bytes cert;
  v_dynamic : gset bytes; v_candidates : gset bytes; v_rejected : gmap bytes Z; v_placeholders : gmap placeholder_key cert;
}.
Definition empty_view : certView := mkView None ∅ ∅ ∅ ∅ ∅ ∅.

(** [CertManager]: a configuration is known by its pointer, the number of the
    [Apply] that made it current, and its context is done once another is;
    [m_spawned] are the goroutines of jobs that have not run yet, [m_applying]
    how many hold [applyMu], [m_wake] whether the worker has been woken. *)
Record manager := mkManager {
  m_gen : Z; m_cfg : option (Z * Config); m_view : certView; m_proposals : Ring.ring bytes;
  m_auto : gmap bytes cert; m_challenges : gmap bytes cert; m_placeholders : gmap placeholder_key cert;
  m_nextTry : gmap bytes Z; m_lastError : gmap bytes wait_reason; m_announced : gmap bytes status;
  m_dynamic : gset bytes; m_candidates : gset bytes; m_rejected : gmap bytes Z; m_queueFull : Z;
  m_inFlight : gset bytes; m_spawned : list (Z * Config * certJob); m_applying : Z; m_wake : bool;
}.

Definition newCertManager : manager :=
  mkManager 0 None empty_view (Ring.newRing maxCandidates) ∅ ∅ ∅ ∅ ∅ ∅ ∅ ∅ ∅ 0 ∅ [] 0 false.

(** [unlock]: the maps as they are now. *)
Definition snapshot (m : manager) : certView :=
  mkView (m_cfg m) (m_auto m) (m_challenges m) (m_dynamic m) (m_candidates m) (m_rejected m) (m_placeholders m).
Definition unlock (m : manager) : manager := m {{ m_view := snapshot m }}.

(** The configuration of number [g], if it is still current ([m.cfg == cfg]). *)
Definition current_config (m : manager) (g : Z) : option Config :=
  match m_cfg m with Some (h, cfg) => if h =? g then Some cfg else None | None => None end.
Definition is_current (m : manager) (g : Z) : bool := bool_decide (is_Some (current_config m g)).

(** [managedLocked] *)
Definition managed (m : manager) (cfg : Config) : list bytes :=
  AutoDomains cfg ++ stable_sort str_less (filter (fun d => d ∉ AutoDomains cfg) (elements (m_dynamic m))).

(** ** The critical sections of [mu] *)

(** [Apply]'s: the configuration, and the names it still covers. *)
Definition set_config (m : manager) (cfg : Config) (entries : list (bytes * bool)) : manager :=
  let g := m_gen m + 1 in
  let covered d := negb (bool_decide (scriptFor cfg d = [])) in
  let dynamic := filter (fun d => covered d = true) (m_dynamic m) in
  let candidates := filter (fun d => covered d = true) (m_candidates m) in
  let found := filter (fun d => (d ∉ dynamic) ∧ covered d = true) (fst <$> (filter (fun e => e.2 = true ∧ validDomain e.1 = true) entries)) in
  unlock (m {{ m_gen := g; m_cfg := Some (g, cfg); m_rejected := ∅; m_dynamic := dynamic; m_candidates := candidates ∪ list_to_set found }}).

(** [announce]: what is remembered of each managed name, to log changes. *)
Definition announce (m : manager) (g : Z) (now : Z) : manager :=
  match current_config m g with
  | None => unlock m
  | Some cfg =>
    let current := managed m cfg in
    let said := foldl (fun a d => <[d := certStatus (m_auto m !! d) (c_ExpiryThresholdDays cfg) now]> a) (m_announced m) current in
    let gone d := bool_decide (d ∈ dom said ∧ d ∉ current) in
    unlock (m {{ m_announced := filter (fun e => gone e.1 = false) said;
                 m_nextTry ::= filter (fun e => gone e.1 = false); m_lastError ::= filter (fun e => gone e.1 = false) }})
  end.

(** [adoptCandidates], what is on disk being [disk]. *)
Definition adopt (m : manager) (g : Z) (disk : bytes → option cert) (now : Z) : manager :=
  match current_config m g with
  | None => unlock m
  | Some cfg =>
    let covered d := negb (bool_decide (scriptFor cfg d = [])) in
    let good d := match disk d with Some fc => negb (ct_NotAfter fc <? now) | None => false end in
    let adopted := elements (filter (fun d => covered d && good d = true) (m_candidates m)) in
    unlock (m {{ m_candidates ::= filter (fun d => covered d && negb (good d) = true);
                 m_auto ::= fun a => foldl (fun a d => match disk d with Some fc => <[d := fc]> a | None => a end) a adopted;
                 m_dynamic ::= fun s => s ∪ list_to_set adopted }})
  end.

(** [propose]; whether the name is queued. *)
Definition propose (m : manager) (sni : bytes) (now : Z) : manager * bool :=
  match m_cfg m with
  | None => (unlock m, false)
  | Some (_, cfg) =>
      if bool_decide (scriptFor cfg sni = []) then (unlock m, false)
      else if maxCandidates <=? Z.of_nat (size (m_candidates m)) then
        (unlock (if 60 * second <? now - m_queueFull m then m {{ m_queueFull := now }} else m), false)
      else (unlock (m {{ m_candidates ::= fun s => s ∪ {[sni]} }}), true)
  end.

(** [pendingJobs] *)
Definition job_of (m : manager) (cfg : Config) (now : Z) (d : bytes) : option certJob :=
  if bool_decide (d ∈ m_inFlight m) || match m_nextTry m !! d with Some t => now <? t | None => false end then None
  else match m_auto m !! d with
       | None => Some (mkJob d true 0)
       | Some leaf =>
           if ct_NotAfter leaf <? now then Some (mkJob d true 0)
           else if renewAt leaf (c_ExpiryThresholdDays cfg) <? now then Some (mkJob d false (ct_NotAfter leaf))
           else None
       end.
Definition job_before (i j : certJob) : bool :=
  if negb (Bool.eqb (j_urgent i) (j_urgent j)) then j_urgent i else j_due i <? j_due j.
Definition pendingJobs (m : manager) (now : Z) : list certJob :=
  match m_cfg m with
  | None => []
  | Some (_, cfg) => stable_sort job_before (omap (job_of m cfg now) (managed m cfg ++ stable_sort str_less (elements (m_candidates m))))
  end.

(** [startJob], up to its goroutine. *)
Definition startJob (m : manager) (g : Z) (job : certJob) : manager * bool :=
  match m_cfg m with
  | Some (h, cfg) =>
      if negb (h =? g) || bool_decide (j_domain job ∈ m_inFlight m) || (maxParallelJobs <=? Z.of_nat (size (m_inFlight m))) then (unlock m, false)
      else (unlock (m {{ m_inFlight ::= fun s => s ∪ {[j_domain job]}; m_spawned ::= fun l => l ++ [(h, cfg, job)] }}), true)
  | None => (unlock m, false)
  end.

(** One of the goroutines that are ready runs. *)
Definition run_next (m : manager) (n : nat) : manager * option (Z * Config * certJob) :=
  ((m {{ m_spawned ::= delete n }}), m_spawned m !! n).

Definition endJob (m : manager) (d : bytes) : manager := unlock (m {{ m_inFlight ::= fun s => s ∖ {[d]} }}).

(** [scriptAllows] where no script is in charge any more. *)
Definition drop_uncovered (m : manager) (g : Z) (d : bytes) : manager :=
  if is_current m g then unlock (m {{ m_candidates ::= fun s => s ∖ {[d]}; m_dynamic ::= fun s => s ∖ {[d]} }}) else unlock m.

(** [scriptAllows] once the script has answered. *)
Definition decide_name (m : manager) (g : Z) (d : bytes) (usable : bool) (answer : script_answer) (now : Z) : manager * bool :=
  if negb (is_current m g) then (unlock m, false)
  else match answer with
  | Accepts => (unlock (m {{ m_candidates ::= fun s => s ∖ {[d]}; m_dynamic ::= fun s => s ∪ {[d]} }}), true)
  | _ =>
      if usable then
        (unlock (m {{ m_nextTry ::= <[d := now + certRetryInterval]>; m_lastError ::= <[d := NotRenewed]> }}), false)
      else
        let rejected := if maxRejected <=? Z.of_nat (size (m_rejected m)) then ∅ else m_rejected m in
        (unlock (m {{ m_candidates ::= fun s => s ∖ {[d]}; m_dynamic ::= fun s => s ∖ {[d]}; m_auto ::= delete d;
                      m_nextTry ::= delete d; m_lastError ::= delete d; m_rejected := <[d := now + validateRejectTTL]> rejected }}), false)
  end.

(** [issue]'s answer to the CA's challenge, and [installCertificate]'s end. *)
Definition set_challenge (m : manager) (g : Z) (late : bool) (d : bytes) (answer : cert) : manager * bool :=
  if negb (is_current m g) || late then (unlock m, false)
  else (unlock (m {{ m_challenges ::= <[d := answer]> }}), true).
Definition del_challenge (m : manager) (d : bytes) : manager := unlock (m {{ m_challenges ::= delete d }}).
Definition install (m : manager) (d : bytes) (c : cert) : manager :=
  unlock (m {{ m_auto ::= <[d := c]>; m_placeholders ::= delete (OwnName d); m_announced ::= <[d := Issued]> }}).

(** The end of [runJobContext]. *)
Definition finish_job (m : manager) (g : Z) (d : bytes) (e : option issue_err) (now : Z) : manager :=
  if negb (is_current m g) then unlock m
  else match e with
  | None => unlock (m {{ m_nextTry ::= delete d; m_lastError ::= delete d }})
  | Some e => unlock (m {{ m_nextTry ::= <[d := now + certRetryInterval]>; m_lastError ::= <[d := NotIssued e]> }})
  end.

(** [RemoveCertificate] of an automatic name: [there], its folder exists;
    [moved], the folder could be archived or was not there. *)
Definition autoRemovable (c : option cert) (failed there : bool) (now : Z) : bool :=
  match c with None => there | Some leaf => failed || (ct_NotAfter leaf <? now) end.
Definition remove_name (m : manager) (d : bytes) (now : Z) (there moved : bool) : manager * bool :=
  match m_cfg m with
  | None => (unlock m, false)
  | Some (_, cfg) =>
      if negb (contains (managed m cfg) d) || bool_decide (d ∈ m_inFlight m)
         || negb (autoRemovable (m_auto m !! d) (bool_decide (is_Some (m_lastError m !! d))) there now) || negb moved
      then (unlock m, false)
      else (unlock (m {{ m_auto ::= delete d; m_dynamic ::= fun s => s ∖ {[d]}; m_nextTry ::= delete d; m_lastError ::= delete d }}), true)
  end.

(** [RetryNow] *)
Definition retry_now (m : manager) (d : bytes) : manager * bool :=
  let known := match m_cfg m with Some (_, cfg) => contains (managed m cfg) d | None => false end in
  (unlock (if known then m {{ m_nextTry ::= delete d }} else m), known).

(** A placeholder kept for the next handshake. *)
Definition keep_placeholder (m : manager) (key : placeholder_key) (ph : cert) : manager :=
  let kept := if 256 <? Z.of_nat (size (m_placeholders m)) then ∅ else m_placeholders m in
  unlock (m {{ m_placeholders := <[key := ph]> kept }}).

(** * The calls *)

(** The critical sections first, then what the outside answers. *)
Inductive act : Type → Type :=
| LockApply : act unit
| UnlockApply : act unit
| SetConfig (cfg : Config) (entries : list (bytes * bool)) : act Z
| SetAuto (d : bytes) (c : cert) : act unit                      (* loadAutoFromDisk *)
| Announce (g now : Z) : act unit
| ReadConfig : act (option (Z * Config))
| Known (sni : bytes) : act bool
| Propose (sni : bytes) (now : Z) : act bool
| Adopt (g : Z) (disk : bytes → option cert) (now : Z) : act unit
| Pending (now : Z) : act (list certJob)
| StartJob (g : Z) (job : certJob) : act bool
| RunNext (n : nat) : act (option (Z * Config * certJob))
| EndJob (d : bytes) : act unit
| JobState (g : Z) (d : bytes) : act (option (option wait_reason * option cert))
| DropUncovered (g : Z) (d : bytes) : act unit
| DecideName (g : Z) (d : bytes) (usable : bool) (answer : script_answer) (now : Z) : act bool
| Cancelled (g : Z) : act bool                                   (* jobCtx.Err() *)
| SetChallenge (g : Z) (late : bool) (d : bytes) (answer : cert) : act bool
| DelChallenge (d : bytes) : act unit
| IsCurrent (g : Z) (late : bool) : act bool
| Install (d : bytes) (c : cert) : act unit
| FinishJob (g : Z) (d : bytes) (e : option issue_err) (now : Z) : act unit
| RemoveName (d : bytes) (now : Z) (there moved : bool) : act bool
| RetryNow (d : bytes) : act bool
| CurrentView : act certView
| PushProposal (sni : bytes) : act bool
| PopProposal : act (option bytes)
| KeepPlaceholder (key : placeholder_key) (ph : cert) : act unit
| Wake : act unit
| Now : act Z
| OpenLocalCAs (cfg : Config) : act bool
| ScriptsThere (cfg : Config) : act bool                         (* checkScripts *)
| ReadCertFolder (path : bytes) : act (list (bytes * bool))      (* names, and whether each is a folder *)
| Disk (path : bytes) : act (bytes → option cert)                (* what every folder holds, while mu is held *)
| LoadCert (path d : bytes) : act (option cert)
| Script (script : bytes) (args : list bytes) : act script_answer
| Sleep : act bool                                               (* waitForRetry *)
| Late : act bool                                                (* the attempt's time has run out *)
| Lookup (server domain : bytes) : act dns_answer
| Account : act bool                                             (* acmeClient *)
| RegisterAccount (email : bytes) : act bool
| AuthorizeOrder (d : bytes) : act (option (list bytes))
| GetAuthorization (url : bytes) : act (option (bool * list (bytes * bytes)))   (* valid already; type and token *)
| ChallengeCert (token d : bytes) : act (option cert)
| AcceptChallenge (token : bytes) : act bool
| WaitAuthorization (url : bytes) : act bool
| WaitOrder : act bool
| CreateOrderCert (d : bytes) : act (option bytes)               (* a key, and the chain for it *)
| MakeFolder (path d : bytes) : act bool
| WriteKey (path d : bytes) : act bool
| WriteCert (path d chain : bytes) : act bool
| FolderThere (path d : bytes) : act bool
| ArchiveAnswer (path d : bytes) : act bool
| MuBusy : act bool                                              (* TryLock fails *)
| SelfSigned (name : bytes) : act (option cert)
| LocalCert (id name : bytes) : act (option cert)
| WaitForWake : act unit.

Abbreviation call a := (Prog.call (act := act) a).
Abbreviation prog := (prog act).

(** Every critical section; [None]: the outside answers. *)
Definition perform (X : Type) (a : act X) (m : manager) : option (X * manager) :=
  match a in act X return option (X * manager) with
  | LockApply => Some (tt, m {{ m_applying ::= Z.add 1 }})
  | UnlockApply => Some (tt, m {{ m_applying ::= Z.add (-1) }})
  | SetConfig cfg entries => let m := set_config m cfg entries in Some (m_gen m, m)
  | SetAuto d c => Some (tt, unlock (m {{ m_auto ::= <[d := c]> }}))
  | Announce g now => Some (tt, announce m g now)
  | ReadConfig => Some (m_cfg m, m)
  | Known sni => Some (bool_decide (sni ∈ m_candidates m ∪ m_dynamic m), m)
  | Propose sni now => let '(m, queued) := propose m sni now in Some (queued, m)
  | Adopt g disk now => Some (tt, adopt m g disk now)
  | Pending now => Some (pendingJobs m now, m)
  | StartJob g job => let '(m, started) := startJob m g job in Some (started, m)
  | RunNext n => let '(m, job) := run_next m n in Some (job, m)
  | EndJob d => Some (tt, endJob m d)
  | JobState g d => Some (if is_current m g then Some (m_lastError m !! d, m_auto m !! d) else None, m)
  | DropUncovered g d => Some (tt, drop_uncovered m g d)
  | DecideName g d usable answer now => let '(m, ok) := decide_name m g d usable answer now in Some (ok, m)
  | Cancelled g => Some (negb (is_current m g), m)
  | SetChallenge g late d c => let '(m, ok) := set_challenge m g late d c in Some (ok, m)
  | DelChallenge d => Some (tt, del_challenge m d)
  | IsCurrent g late => Some (is_current m g && negb late, m)
  | Install d c => Some (tt, install m d c)
  | FinishJob g d e now => Some (tt, finish_job m g d e now)
  | RemoveName d now there moved => let '(m, ok) := remove_name m d now there moved in Some (ok, m)
  | RetryNow d => let '(m, ok) := retry_now m d in Some (ok, m)
  | CurrentView => Some (m_view m, m)
  | PushProposal sni => let '(q, ok) := Ring.TryPush (m_proposals m) sni in Some (ok, m {{ m_proposals := q }})
  | PopProposal => let '(q, x) := Ring.TryPop (m_proposals m) in Some (x, m {{ m_proposals := q }})
  | KeepPlaceholder key ph => Some (tt, keep_placeholder m key ph)
  | Wake => Some (tt, m {{ m_wake := true }})
  | WaitForWake => Some (tt, m {{ m_wake := false }})
  | _ => None
  end.

(** * The programs *)

(** [scriptAllows] *)
Definition scriptAllows (g : Z) (cfg : Config) (job : certJob) (current : option cert) : prog bool :=
  let d := j_domain job in
  let script := scriptFor cfg d in
  let* now := call Now in
  let usable := match current with Some c => now <? ct_NotAfter c | None => false end in
  if bool_decide (script = []) then call (DropUncovered g d) ;;; Ret false
  else
    let* answer := call (Script script (scriptArgs cfg d)) in
    let* now := call Now in
    call (DecideName g d usable answer now).

(** [ctx.Err() != nil] of an attempt's context: its job's is done, or its time
    has run out. *)
Definition ctx_done (g : Z) : prog bool :=
  let* gone := call (Cancelled g) in
  if gone then Ret true else call Late.

(** [checkDNS]: [None] when the name leads here. *)
Definition dnsAttempts : nat := 3.
Definition dns_server (server : bytes) : bytes :=
  match split_host_port server with Some _ => server | None => join_host_port server (lit "53") end.
Fixpoint ask_dns (g : Z) (cfg : Config) (d : bytes) (attempt n : nat) : prog (option issue_err) :=
  match n with
  | O => Ret (Some Transient)
  | S n =>
      let* over := ctx_done g in
      if over then Ret (Some Transient)
      else match c_DNSResolvers cfg !! (attempt mod length (c_DNSResolvers cfg))%nat with
      | None => Ret (Some Transient)      (* a division by zero: [LoadConfig] asks for a resolver *)
      | Some server =>
          let* answer := call (Lookup (dns_server server) d) in
          match answer with
          | NoSuchName => Ret (Some Transient)
          | NoResponse => ask_dns g cfg d (S attempt) n
          | Addresses addrs =>
              let got := (fun a => addr_string (unmap a)) <$> addrs in
              let foreign := filter (fun ip => ip ∉ c_PublicIPs cfg) got in
              Ret (if bool_decide (foreign = []) && negb (bool_decide (got = [])) then None else Some Permanent)
          end
      end
  end.
Definition checkDNS (g : Z) (cfg : Config) (d : bytes) : prog (option issue_err) :=
  if bool_decide (c_PublicIPs cfg = []) then Ret None else ask_dns g cfg d 0 dnsAttempts.

(** [installCertificate] *)
Definition installCertificate (g : Z) (cfg : Config) (d chain : bytes) : prog (option issue_err) :=
  call LockApply ;;;
  finally
    (let* late := call Late in
     let* current := call (IsCurrent g late) in
     if negb current then Ret (Some Transient)
     else
       let* ok := call (MakeFolder (c_CertPath cfg) d) in
       if negb ok then Ret (Some Transient) else
       let* ok := call (WriteKey (c_CertPath cfg) d) in
       if negb ok then Ret (Some Transient) else
       let* ok := call (WriteCert (c_CertPath cfg) d chain) in
       if negb ok then Ret (Some Transient) else
       let* loaded := call (LoadCert (c_CertPath cfg) d) in
       match loaded with
       | None => Ret (Some Transient)
       | Some fc => call (Install d fc) ;;; Ret None
       end)
    (call UnlockApply).

(** [issue], from the order's authorizations on; the last challenge of type
    tls-alpn-01 is taken. *)
Definition tls_alpn (challenges : list (bytes * bytes)) : option bytes :=
  snd <$> last (filter (fun c => c.1 = lit "tls-alpn-01") challenges).
Fixpoint authorize (g : Z) (d : bytes) (urls : list bytes) (k : prog (option issue_err)) : prog (option issue_err) :=
  match urls with
  | [] => k
  | url :: urls =>
      let* authz := call (GetAuthorization url) in
      match authz with
      | None => Ret (Some Transient)
      | Some (true, _) => authorize g d urls k
      | Some (false, challenges) =>
          match tls_alpn challenges with
          | None => Ret (Some Transient)
          | Some token =>
              let* answer := call (ChallengeCert token d) in
              match answer with
              | None => Ret (Some Transient)
              | Some answer =>
                  let* late := call Late in
                  let* ok := call (SetChallenge g late d answer) in
                  if negb ok then Ret (Some Transient)
                  else
                    finally
                      (let* ok := call (AcceptChallenge token) in
                       if negb ok then Ret (Some Transient) else
                       let* ok := call (WaitAuthorization url) in
                       if negb ok then Ret (Some Permanent) else
                       authorize g d urls k)
                      (call (DelChallenge d))
              end
          end
      end
  end.

(** [issue] *)
Definition issue (g : Z) (cfg : Config) (d : bytes) : prog (option issue_err) :=
  let* over := ctx_done g in
  if over then Ret (Some Transient) else
  let* e := checkDNS g cfg d in
  match e with
  | Some e => Ret (Some e)
  | None =>
      let* ok := call Account in
      if negb ok then Ret (Some Transient) else
      let* ok := call (RegisterAccount (c_AcmeEmail cfg)) in
      if negb ok then Ret (Some Transient) else
      let* order := call (AuthorizeOrder d) in
      match order with
      | None => Ret (Some Transient)
      | Some urls =>
          authorize g d urls
            (let* ok := call WaitOrder in
             if negb ok then Ret (Some Transient) else
             let* chain := call (CreateOrderCert d) in
             match chain with
             | None => Ret (Some Transient)
             | Some chain => installCertificate g cfg d chain
             end)
      end
  end.

(** The attempts of [runJobContext]: [None] when the job's context is done,
    or else the last error. *)
Fixpoint attempts (g : Z) (cfg : Config) (d : bytes) (n : nat) : prog (option (option issue_err)) :=
  match n with
  | O => Ret (Some None)
  | S n =>
      let* gone := call (Cancelled g) in
      if gone then Ret None else
      let* e := issue g cfg d in
      let* gone := call (Cancelled g) in
      if gone then Ret None
      else match e, n with
      | None, _ => Ret (Some None)
      | Some Permanent, _ | Some _, O => Ret (Some e)
      | Some Transient, _ =>
          let* slept := call Sleep in
          if slept then attempts g cfg d n else Ret None
      end
  end.

(** [runJobContext] *)
Definition runJobContext (g : Z) (cfg : Config) (job : certJob) : prog unit :=
  let d := j_domain job in
  let* state := call (JobState g d) in
  match state with
  | None => Ret tt
  | Some (_, current) =>
      let* allowed := (if contains (AutoDomains cfg) d then Ret true else scriptAllows g cfg job current) in
      if negb allowed then Ret tt
      else
        let* e := attempts g cfg d certAttempts in
        match e with
        | None => Ret tt
        | Some e => let* now := call Now in call (FinishJob g d e now)
        end
  end.

(** A job's goroutine. *)
Definition job_main (n : nat) : prog unit :=
  let* next := call (RunNext n) in
  match next with
  | None => Ret tt
  | Some (g, cfg, job) => finally (runJobContext g cfg job) (call (EndJob (j_domain job)) ;;; call Wake)
  end.

(** [takeProposals], of at most [n] names (a pop may fail although the queue
    is not empty). *)
Fixpoint takeProposals (n : nat) : prog unit :=
  match n with
  | O => Ret tt
  | S n =>
      let* sni := call PopProposal in
      match sni with
      | None => Ret tt
      | Some sni =>
          let* known := call (Known sni) in
          (if known then Ret tt
           else
             let* now := call Now in
             let* queued := call (Propose sni now) in
             if queued then call Wake else Ret tt) ;;;
          takeProposals n
      end
  end.

Fixpoint start_jobs (g : Z) (jobs : list certJob) : prog unit :=
  match jobs with
  | [] => Ret tt
  | job :: jobs => let* started := call (StartJob g job) in if started then start_jobs g jobs else Ret tt
  end.

(** One turn of [worker]; the local CAs' part is not modelled. *)
Definition worker_turn (n : nat) : prog unit :=
  takeProposals n ;;;
  let* cfg := call ReadConfig in
  match cfg with
  | None => call WaitForWake       (* startJob starts nothing *)
  | Some (g, cfg) =>
      let* disk := call (Disk (c_CertPath cfg)) in
      let* now := call Now in
      call (Adopt g disk now) ;;;
      let* now := call Now in
      call (Announce g now) ;;;
      let* now := call Now in
      let* jobs := call (Pending now) in
      start_jobs g jobs ;;;
      call WaitForWake
  end.

(** [Apply] *)
Fixpoint load_all (path : bytes) (names : list bytes) : prog unit :=
  match names with
  | [] => Ret tt
  | d :: names =>
      let* fc := call (LoadCert path d) in
      (match fc with Some fc => call (SetAuto d fc) | None => Ret tt end) ;;;
      load_all path names
  end.
Definition Apply (cfg : Config) : prog bool :=
  call LockApply ;;;
  finally
    (let* ok := call (OpenLocalCAs cfg) in
     if negb ok then Ret false else
     let* ok := call (ScriptsThere cfg) in
     if negb ok then Ret false else
     let* entries := call (ReadCertFolder (c_CertPath cfg)) in
     let* g := call (SetConfig cfg entries) in
     load_all (c_CertPath cfg) (AutoDomains cfg) ;;;
     let* now := call Now in
     call (Announce g now) ;;;
     call Wake ;;;
     Ret true)
    (call UnlockApply).

(** [CertificateForClient]: what a handshake presents. *)
Inductive served := FixedCert | Presented (c : cert) | Refused.
Definition localCertificate (rule : Rule) (hello : helloInfo) (dialed : addr) : prog served :=
  match LocalCAName rule (SNI hello) (SNIIP hello) dialed with
  | Err _ => Ret Refused
  | Ok name => let* c := call (LocalCert (LocalCA rule) name) in Ret (match c with Some c => Presented c | None => Refused end)
  end.
Definition proposes (rule : Rule) (sni : bytes) (v : certView) (now : Z) : bool :=
  negb (bool_decide (r_CertValidateScript rule = [])) && negb (contains (r_CertDomains rule) sni)
  && negb (bool_decide (sni ∈ v_dynamic v)) && negb (bool_decide (sni ∈ v_candidates v))
  && match v_rejected v !! sni with Some t => t <? now | None => true end.
(** The certificate in the view, if there is one: its own, or the placeholder
    that is not about to expire. *)
Definition own_cert (rule : Rule) (sni : bytes) (v : certView) : option cert :=
  if bool_decide (r_Cert rule = lit "auto") then v_auto v !! sni else None.
Definition cert_in_view (rule : Rule) (sni : bytes) (v : certView) (now : Z) : option cert :=
  match own_cert rule sni v with
  | Some c => Some c
  | None =>
      match v_placeholders v !! (placeholderFor rule sni).1 with
      | Some c => if ct_NotAfter c - 3600 * second <? now then None else Some c
      | None => None
      end
  end.
Definition CertificateForClient (rule : Rule) (hello : helloInfo) (dialed : addr) : prog served :=
  let sni := SNI hello in
  if r_fixedCert rule then Ret FixedCert
  else if negb (bool_decide (LocalCA rule = [])) then localCertificate rule hello dialed
  else
    let* v := call CurrentView in
    let* now := call Now in
    let propose := bool_decide (r_Cert rule = lit "auto") && negb (bool_decide (is_Some (own_cert rule sni v))) && proposes rule sni v now in
    let* now := call Now in
    (if propose then let* pushed := call (PushProposal sni) in if pushed then call Wake else Ret tt else Ret tt) ;;;
    match cert_in_view rule sni v now with
    | Some c => Ret (Presented c)
    | None =>
        let* ph := call (SelfSigned (placeholderFor rule sni).2) in
        match ph with
        | None => Ret Refused
        | Some ph =>
            let* busy := call MuBusy in
            (if busy then Ret tt else call (KeepPlaceholder (placeholderFor rule sni).1 ph)) ;;;
            Ret (Presented ph)
        end
    end.

(** [RemoveCertificate] of an automatic name, and [RetryNow]. What the disk
    answers while mu is held is asked for first. *)
Definition RemoveCertificate (d : bytes) : prog unit :=
  let* cfg := call ReadConfig in
  let path := match cfg with Some (_, cfg) => c_CertPath cfg | None => [] end in
  let* there := call (FolderThere path d) in
  let* moved := call (ArchiveAnswer path d) in
  let* now := call Now in
  let* removed := call (RemoveName d now there moved) in
  if removed then call Wake else Ret tt.
Definition Retry (d : bytes) : prog unit :=
  let* known := call (RetryNow d) in
  if known then call Wake else Ret tt.

(** Who uses the manager. *)
Inductive user :=
| Reload (cfg : Config) | WorkerTurn (n : nat) | JobRuns (n : nat)
| Handshake (rule : Rule) (hello : helloInfo) (dialed : addr) | ConsoleRemoves (d : bytes) | ConsoleRetries (d : bytes).
Definition main (c : user) : prog unit :=
  match c with
  | Reload cfg => Apply cfg ;;; Ret tt
  | WorkerTurn n => worker_turn n
  | JobRuns n => job_main n
  | Handshake rule hello dialed => CertificateForClient rule hello dialed ;;; Ret tt
  | ConsoleRemoves d => RemoveCertificate d
  | ConsoleRetries d => Retry d
  end.
