(* ===== verification/CertJobs.v ===== *)
(** CertJobs: everybody who uses the certificate manager at once ([Certs]):
    what each may do, and what is true of the manager whatever they do. *)

From S2P Require Import Prelude GoStr NetIP Sni Rules CertNames Limit Config Http ConfigLoad Prog Certs.
From S2P Require Ring.

(** * What a user does

    A job has a name in flight, asks the script in charge of it, asks the CA
    only if the name is listed or accepted, at most [certAttempts] times, and
    puts every answer to a challenge away; who holds [applyMu] lets go of
    it. *)
Record life := mkLife {
  lf_job : option (Z * Config * bytes);       (* the configuration it is for, its name *)
  lf_locked : bool; lf_current : bool;        (* applyMu held; and its configuration found current since *)
  lf_loading : option Config;                 (* the configuration a reload made current *)
  lf_answers : nat;                           (* answers to challenges in the map *)
  lf_said : option script_answer; lf_allowed : bool;
  lf_orders : nat;
}.
Definition idle : life := mkLife None false false None 0 None false 0.

Definition held (s : life) : list bytes := match lf_job s with Some (_, _, d) => [d] | None => [] end.
Definition ours (s : life) (g : Z) (d : bytes) : bool :=
  match lf_job s with Some (h, _, e) => (h =? g) && bool_decide (e = d) | None => false end.
(** Whether the CA may be asked for the name. *)
Definition may_ask (s : life) (d : bytes) : bool :=
  match lf_job s with Some (_, cfg, e) => bool_decide (e = d) && (contains (AutoDomains cfg) d || lf_allowed s) | None => false end.
Definition in_charge (s : life) (script : bytes) (args : list bytes) : bool :=
  match lf_job s with
  | Some (_, cfg, d) => bool_decide (script = scriptFor cfg d) && negb (bool_decide (script = [])) && bool_decide (args = scriptArgs cfg d)
  | None => false
  end.

(** What nobody does while it has a job: it is the worker's, the console's or
    a handshake's to do. *)
Definition jobless (s : life) : option life := match lf_job s with None => Some s | Some _ => None end.

Definition watch (X : Type) (a : act X) : X → life → option life :=
  match a in act X return X → life → option life with
  | LockApply => fun _ s => if lf_locked s then None else Some (s {{ lf_locked := true }})
  | UnlockApply => fun _ s => if lf_locked s then Some (s {{ lf_locked := false; lf_current := false; lf_loading := None }}) else None
  | SetConfig cfg _ => fun _ s =>
      match lf_job s with None => if lf_locked s then Some (s {{ lf_loading := Some cfg }}) else None | Some _ => None end
  | SetAuto d _ => fun _ s =>
      match lf_loading s with Some cfg => if lf_locked s && contains (AutoDomains cfg) d then jobless s else None | None => None end
  | Announce _ _ | Adopt _ _ _ | RetryNow _ | KeepPlaceholder _ _ => fun _ => jobless
  | Propose _ _ | StartJob _ _ | RemoveName _ _ _ _ => fun _ => jobless
  | RunNext _ => fun x s =>
      match lf_job s, x with
      | None, Some (g, cfg, job) => Some (s {{ lf_job := Some (g, cfg, j_domain job) }})
      | None, None => Some s
      | Some _, _ => None
      end
  | EndJob d => fun _ s =>
      match lf_job s with
      | Some (_, _, e) =>
          if bool_decide (e = d) && (lf_answers s =? 0)%nat && negb (lf_locked s)
          then Some (s {{ lf_job := None; lf_said := None; lf_allowed := false }}) else None
      | None => None
      end
  | JobState g d => fun _ s => if ours s g d then Some s else None
  | DropUncovered g d => fun _ s => if ours s g d then Some s else None
  | FinishJob g d _ _ => fun _ s => if ours s g d then Some s else None
  | Script script args => fun x s => if in_charge s script args && negb (lf_allowed s) then Some (s {{ lf_said := Some x }}) else None
  | DecideName g d _ answer _ => fun x s =>
      if ours s g d && bool_decide (lf_said s = Some answer) then Some (s {{ lf_allowed := x }}) else None
  | SetChallenge g _ d _ => fun x s =>
      if ours s g d && may_ask s d then Some (if x then s {{ lf_answers := S (lf_answers s) }} else s) else None
  | DelChallenge d => fun _ s =>
      match lf_job s, lf_answers s with
      | Some (_, _, e), S n => if bool_decide (e = d) then Some (s {{ lf_answers := n }}) else None
      | _, _ => None
      end
  | IsCurrent g _ => fun x s =>
      match lf_job s with Some (h, _, _) => if (h =? g) && lf_locked s then Some (s {{ lf_current := x }}) else None | None => None end
  | WriteKey _ d => fun _ s => if may_ask s d && lf_current s then Some s else None
  | WriteCert _ d _ => fun _ s => if may_ask s d && lf_current s then Some s else None
  | Install d _ => fun _ s => if may_ask s d && lf_current s then Some s else None
  | AuthorizeOrder d => fun _ s => if may_ask s d && (lf_orders s <? certAttempts)%nat then Some (s {{ lf_orders := S (lf_orders s) }}) else None
  | ChallengeCert _ d => fun _ s => if may_ask s d then Some s else None
  | CreateOrderCert d => fun _ s => if may_ask s d then Some s else None
  | _ => fun _ s => Some s
  end.

(** At the end nothing is held. *)
Definition over (s : life) : Prop := lf_job s = None ∧ lf_locked s = false ∧ lf_answers s = 0%nat.
Abbreviation obeys := (obeys watch).

(** ** Every user obeys *)

Lemma watched_call {X A} (a : act X) (k : X → prog A) s Q :
  (∀ x, match watch X a x s with Some s' => obeys (k x) s' Q | None => False end) → obeys (let* x := call a in k x) s Q.
Proof. done. Qed.

(** A call nobody watches. *)
Tactic Notation "next" ident(x) := apply watched_call; intros x; cbn [watch].

Lemma ours_job s g cfg d : lf_job s = Some (g, cfg, d) → ours s g d = true.
Proof. intros E. unfold ours. by rewrite E, Z.eqb_refl, bool_decide_eq_true_2. Qed.

Definition at_rest (s : life) : Prop := lf_locked s = false ∧ lf_current s = false ∧ lf_loading s = None.

Lemma ctx_done_obeys g s (Q : bool → life → Prop) : (∀ b, Q b s) → obeys (ctx_done g) s Q.
Proof. intros H. unfold ctx_done. next x. destruct x; [apply H|]. next x. apply H. Qed.

Lemma ask_dns_obeys g cfg d i n s : obeys (ask_dns g cfg d i n) s (fun _ s' => s' = s).
Proof.
  revert i. induction n as [|n IH]; intros i; cbn [ask_dns]; [done|].
  eapply obeys_bind; [by apply (ctx_done_obeys _ _ (fun _ s' => s' = s))|]. intros over s' ->.
  destruct over; [done|]. destruct (_ !! _); [|done]. next x. by destruct x.
Qed.

Lemma install_obeys g cfg d chain s c : lf_job s = Some (g, c, d) → may_ask s d = true → at_rest s →
  obeys (installCertificate g cfg d chain) s (fun _ s' => s' = s).
Proof.
  intros Ej Ha (El & Ec & Eo). unfold installCertificate. next u. rewrite El.
  assert (∀ b, s {{ lf_locked := true; lf_current := b }} {{ lf_locked := false; lf_current := false; lf_loading := None }} = s) as Hback by (intros b; destruct s; cbn in *; by subst).
  eapply (obeys_finally _ _ _ _ (fun _ s' => ∃ b, s' = s {{ lf_locked := true; lf_current := b }})).
  - next late. next current. cbn [lf_job lf_locked]. change (lf_job (s {{ lf_locked := true }})) with (lf_job s). rewrite Ej, Z.eqb_refl. cbn [andb].
    destruct current; cbn [negb]; [|by exists false].
    assert (may_ask (s {{ lf_locked := true }} {{ lf_current := true }}) d = true) as Ha' by exact Ha.
    next x. destruct x; [|by exists true]. next x. rewrite Ha'. destruct x; [|by exists true]. next x. rewrite Ha'. destruct x; [|by exists true].
    next x. destruct x; [|by exists true]. next x. rewrite Ha'. by exists true.
  - intros a s' [b ->]. next u'. apply Hback.
Qed.

Definition answering (s : life) (n : nat) : life := s {{ lf_answers := n }}.

Lemma authorize_obeys g d urls k s c : lf_job s = Some (g, c, d) → may_ask s d = true →
  (∀ n, obeys k (answering s n) (fun _ s' => s' = answering s n)) →
  ∀ n, obeys (authorize g d urls k) (answering s n) (fun _ s' => s' = answering s n).
Proof.
  intros Ej Ha Hk. induction urls as [|url urls IH]; intros n; cbn [authorize]; [apply Hk|].
  next authz. destruct authz as [[[] challenges]|]; [apply IH| |done]. destruct (tls_alpn challenges); [|done].
  next answer. change (may_ask (answering s n) d) with (may_ask s d). rewrite Ha. destruct answer; [|done].
  next late. next set. change (ours (answering s n) g d) with (ours s g d). change (may_ask (answering s n) d) with (may_ask s d).
  rewrite (ours_job _ _ _ _ Ej), Ha. cbn [andb]. destruct set; cbn [negb]; [|done].
  change ((answering s n) {{ lf_answers := S (lf_answers (answering s n)) }}) with (answering s (S n)).
  eapply (obeys_finally _ _ _ _ (fun _ s' => s' = answering s (S n))).
  - next x. destruct x; [|done]. next x. destruct x; [|done]. apply IH.
  - intros a s' ->. next u. change (lf_job (answering s (S n))) with (lf_job s). rewrite Ej. change (lf_answers (answering s (S n))) with (S n). cbn iota.
    by rewrite bool_decide_eq_true_2.
Qed.

(** An order counts, once. *)
Definition ordered (s : life) (n : nat) : life := s {{ lf_orders := n }}.

Lemma issue_obeys g cfg d s c n : lf_job s = Some (g, c, d) → may_ask s d = true → at_rest s → (n < certAttempts)%nat →
  obeys (issue g cfg d) (ordered s n) (fun _ s' => ∃ n', (n' <= S n)%nat ∧ s' = ordered s n').
Proof.
  intros Ej Ha Hr Hn. assert (∃ n', (n' <= S n)%nat ∧ ordered s n = ordered s n') as Hsame by (exists n; split; [lia|done]).
  unfold issue. eapply obeys_bind; [by apply (ctx_done_obeys _ _ (fun _ s' => s' = ordered s n))|]. intros o s' ->. destruct o; [done|].
  eapply (obeys_bind _ _ _ _ (fun _ s' => s' = ordered s n)).
  { unfold checkDNS. destruct (bool_decide _); [done|]. apply ask_dns_obeys. }
  intros e s' ->. destruct e; [done|]. next x. destruct x; [|done]. next x. destruct x; [|done].
  next order. change (may_ask (ordered s n) d) with (may_ask s d). rewrite Ha. change (lf_orders (ordered s n)) with n. cbn [andb].
  destruct (Nat.ltb_spec n certAttempts) as [_|]; [|lia]. change ((ordered s n) {{ lf_orders := S n }}) with (ordered s (S n)).
  destruct order as [urls|]; [|cbn; by exists (S n)].
  apply (obeys_mono _ _ _ (fun _ s' => s' = ordered s (S n))); [|by intros _ s' ->; exists (S n)].
  change (ordered s (S n)) with (answering (ordered s (S n)) (lf_answers s)).
  apply (authorize_obeys g d urls _ (ordered s (S n)) c Ej Ha). intros m. set (sm := answering _ m).
  next x. destruct x; [|done]. next chain. change (may_ask sm d) with (may_ask s d). rewrite Ha.
  destruct chain; [|done]. by apply (install_obeys g cfg d _ sm c).
Qed.

Lemma attempts_obeys g cfg d s c k : lf_job s = Some (g, c, d) → may_ask s d = true → at_rest s →
  ∀ n, (n + k <= certAttempts)%nat → obeys (attempts g cfg d k) (ordered s n) (fun _ s' => ∃ n', s' = ordered s n').
Proof.
  intros Ej Ha Hr. induction k as [|k IH]; intros n Hn; cbn [attempts]; [by exists n|].
  next gone. destruct gone; [by exists n|]. eapply obeys_bind; [eapply (issue_obeys g cfg d s c n); try done; lia|].
  intros e s' (n' & Hn' & ->). next gone. destruct gone; [by exists n'|].
  destruct e as [[]|]; destruct k as [|k]; try (by exists n').
  next slept. destruct slept; [|by exists n']. apply IH. lia.
Qed.

Lemma script_obeys g cfg job current s : lf_job s = Some (g, cfg, j_domain job) → lf_allowed s = false →
  obeys (scriptAllows g cfg job current) s
    (fun ok s' => ∃ said, s' = s {{ lf_said := said; lf_allowed := lf_allowed s' }} ∧ (ok = true → lf_allowed s' = true)).
Proof.
  intros Ej Ha. unfold scriptAllows. next now. destruct (bool_decide_reflect (scriptFor cfg (j_domain job) = [])) as [|Hs].
  - next u. rewrite (ours_job _ _ _ _ Ej). exists (lf_said s). by destruct s.
  - next answer. unfold in_charge. rewrite Ej, Ha. rewrite (bool_decide_eq_true_2 (_ = scriptFor cfg (j_domain job))), (bool_decide_eq_false_2 (scriptFor _ _ = [])), bool_decide_eq_true_2 by done. cbn [negb andb].
    next now'. next ok. change (ours _ g (j_domain job)) with (ours s g (j_domain job)). rewrite (ours_job _ _ _ _ Ej).
    rewrite bool_decide_eq_true_2 by done. exists (Some answer). by destruct s.
Qed.

Lemma runJob_obeys g cfg job s : lf_job s = Some (g, cfg, j_domain job) → at_rest s → lf_allowed s = false → lf_orders s = 0%nat →
  obeys (runJobContext g cfg job) s
    (fun _ s' => lf_job s' = lf_job s ∧ lf_locked s' = false ∧ lf_answers s' = lf_answers s).
Proof.
  intros Ej Hr Ha Ho. unfold runJobContext. next state. rewrite (ours_job _ _ _ _ Ej). destruct state as [[_' current]|]; [|by destruct Hr].
  eapply (obeys_bind _ _ _ _ (fun ok s' => lf_job s' = lf_job s ∧ at_rest s' ∧ lf_answers s' = lf_answers s ∧ lf_orders s' = 0%nat ∧
    (ok = true → may_ask s' (j_domain job) = true))).
  - destruct (contains (AutoDomains cfg) (j_domain job)) eqn:Ec.
    + split_and!; try done; try apply Hr. intros _. unfold may_ask. rewrite Ej, Ec. by rewrite bool_decide_eq_true_2.
    + eapply obeys_mono; [by apply script_obeys|]. intros ok s' (said & Hs' & Hok).
      assert (lf_job s' = lf_job s) as Hj by (by rewrite Hs'). split_and!; try (by rewrite Hs'); try (rewrite Hs'; apply Hr).
      intros Hx. unfold may_ask. rewrite Hj, Ej. rewrite bool_decide_eq_true_2 by done. rewrite Hok by done. by rewrite orb_true_r.
  - intros ok s' (Hj & Hr' & Han & Ho' & Hask). destruct ok; cbn [negb]; [|by destruct Hr'].
    rewrite Ej in Hj. assert (s' = ordered s' 0) as E by (destruct s'; cbn in *; by subst).
    pose proof (attempts_obeys g cfg (j_domain job) s' cfg certAttempts Hj (Hask eq_refl) Hr' 0 ltac:(lia)) as Hat. rewrite <- E in Hat.
    eapply obeys_bind; [exact Hat|].
    assert (∀ n, lf_job (ordered s' n) = lf_job s ∧ lf_locked (ordered s' n) = false ∧ lf_answers (ordered s' n) = lf_answers s) as Hend
      by (intros n; rewrite Ej; by destruct Hr').
    intros e s'' [n ->]. destruct e as [e|]; [|exact (Hend n)].
    next now. next u. change (ours _ g (j_domain job)) with (ours s' g (j_domain job)). rewrite (ours_job _ _ _ _ Hj). exact (Hend n).
Qed.

Lemma quiet_obeys {A} (p : prog A) (Q : A → life → Prop) s : obeys p s (fun _ s' => s' = s) → (∀ a, Q a s) → obeys p s Q.
Proof. intros H HQ. apply (obeys_mono _ _ _ _ _ H). intros a s' ->. apply HQ. Qed.

Lemma takeProposals_obeys n s : lf_job s = None → obeys (takeProposals n) s (fun _ s' => s' = s).
Proof.
  intros Hj. assert (jobless s = Some s) as Hn by (unfold jobless; by rewrite Hj).
  induction n as [|n IH]; cbn [takeProposals]; [done|]. next sni. destruct sni; [|done]. next known. destruct known; [done|].
  next now. next queued. rewrite Hn. destruct queued; [|done]. by next u.
Qed.

Lemma start_jobs_obeys g jobs s : lf_job s = None → obeys (start_jobs g jobs) s (fun _ s' => s' = s).
Proof.
  intros Hj. induction jobs as [|j jobs IH]; cbn [start_jobs]; [done|]. next x. unfold jobless. rewrite Hj. by destruct x.
Qed.

Lemma worker_obeys n s : lf_job s = None → obeys (worker_turn n) s (fun _ s' => s' = s).
Proof.
  intros Hj. assert (jobless s = Some s) as Hn by (unfold jobless; by rewrite Hj).
  unfold worker_turn. eapply obeys_bind; [by apply takeProposals_obeys|]. intros _ s' ->.
  next cfg. destruct cfg as [[g cfg]|]; [|by next u]. next disk. next now. next u. rewrite Hn. next now'. next u'. rewrite Hn. next now2. next jobs.
  eapply obeys_bind; [by apply start_jobs_obeys|]. intros _ s' ->. by next u2.
Qed.

Lemma load_all_obeys path cfg names s : lf_job s = None → lf_locked s = true → lf_loading s = Some cfg → (∀ d, d ∈ names → d ∈ AutoDomains cfg) →
  obeys (load_all path names) s (fun _ s' => s' = s).
Proof.
  intros Hj Hl Hc. induction names as [|d names IH]; intros Hn; cbn [load_all]; [done|].
  next fc. destruct fc as [fc|]; [|apply IH; intros; apply Hn; by right].
  next u. rewrite Hc, Hl. unfold contains. rewrite bool_decide_eq_true_2 by (apply Hn; left). cbn [andb]. unfold jobless. rewrite Hj. apply IH. intros; apply Hn; by right.
Qed.

Lemma Apply_obeys cfg : obeys (Apply cfg) idle (fun _ => over).
Proof.
  unfold Apply. next u. cbn [lf_locked idle].
  eapply (obeys_finally _ _ _ _ (fun _ s' => s' = idle {{ lf_locked := true }} ∨ s' = idle {{ lf_locked := true; lf_loading := Some cfg }})).
  - next ok. destruct ok; [|by left]. next ok. destruct ok; [|by left]. next entries. next g. cbn [lf_job lf_locked idle].
    eapply obeys_bind; [by apply (load_all_obeys _ cfg)|]. intros _ s' ->. next now. next u'. next u2. by right.
  - intros a s' [-> | ->]; next u'; by split_and!.
Qed.

Lemma handshake_obeys rule hello dialed s : lf_job s = None → obeys (CertificateForClient rule hello dialed) s (fun _ s' => s' = s).
Proof.
  intros Hj. assert (jobless s = Some s) as Hn by (unfold jobless; by rewrite Hj).
  unfold CertificateForClient, localCertificate. destruct (r_fixedCert rule); [done|]. destruct (negb _).
  { destruct (LocalCAName _ _ _ _); [|done]. by next c. }
  next v. next now. next now'. destruct (_ && _).
  - next pushed. destruct pushed; [next u|]; (destruct (cert_in_view rule _ v now'); [done|]);
      next ph; (destruct ph; [|done]); next busy; (destruct busy; [done|]); next u'; by rewrite Hn.
  - destruct (cert_in_view rule _ v now'); [done|]. next ph. destruct ph; [|done]. next busy. destruct busy; [done|]. next u'. by rewrite Hn.
Qed.

Lemma job_obeys n : obeys (job_main n) idle (fun _ => over).
Proof.
  unfold job_main. next j. destruct j as [[[g cfg] job]|]; [|by split_and!]. cbn [lf_job idle]. set (s := idle {{ lf_job := _ }}).
  eapply obeys_finally; [by apply (runJob_obeys g cfg job s)|]. intros _ s' (Hj & Hl & Ha). next u. rewrite Hj, Hl, Ha. cbn.
  rewrite bool_decide_eq_true_2 by done. intros _. by split_and!.
Qed.

Lemma over_idle : over idle.
Proof. by split_and!. Qed.

Lemma main_obeys c : obeys (main c) idle (fun _ => over).
Proof.
  destruct c as [cfg|n|n|rule hello dialed|d|d]; cbn [main].
  - eapply obeys_bind; [apply Apply_obeys|]. by intros a s'.
  - apply (quiet_obeys _ (fun _ => over)); [by apply worker_obeys|intros _; apply over_idle].
  - apply job_obeys.
  - eapply obeys_bind; [by apply handshake_obeys|]. intros a s' ->. apply over_idle.
  - unfold RemoveCertificate. next cfg. next there. next moved. next now. next removed. destruct removed; [|apply over_idle]. next u. apply over_idle.
  - unfold Retry. next known. destruct known; [|apply over_idle]. next u. apply over_idle.
Qed.

(** * What is true of the manager *)

(** Apart from what handshakes see of it. *)
Record body_ok (m : manager) : Prop := {
  b_gen : ∀ g cfg, m_cfg m = Some (g, cfg) → g = m_gen m;
  b_covered : ∀ d, d ∈ m_dynamic m ∪ m_candidates m → ∃ g cfg, m_cfg m = Some (g, cfg) ∧ scriptFor cfg d ≠ [];
  b_rejected : Z.of_nat (size (m_rejected m)) <= maxRejected;
  b_placeholders : Z.of_nat (size (m_placeholders m)) <= 257;
  b_few : Z.of_nat (size (m_inFlight m)) <= maxParallelJobs;
}.
Definition manager_ok (m : manager) : Prop := m_view m = snapshot m ∧ body_ok m.

Lemma unlock_ok m : body_ok m → manager_ok (unlock m).
Proof. intros H. split; [done|]. by destruct H. Qed.

Ltac body := split; cbn; unfold constant; try done.

Lemma new_ok : manager_ok newCertManager.
Proof. split; [done|]. body. Qed.

Lemma current_config_spec m g cfg : current_config m g = Some cfg ↔ m_cfg m = Some (g, cfg).
Proof.
  unfold current_config. destruct (m_cfg m) as [[h c]|]; [|done]. destruct (Z.eqb_spec h g) as [->|]; split; intros E; congruence.
Qed.
Lemma is_current_spec m g : is_current m g = true ↔ ∃ cfg, m_cfg m = Some (g, cfg).
Proof.
  unfold is_current. rewrite bool_decide_eq_true. split; intros [c H]; exists c; by apply current_config_spec.
Qed.

Lemma size_insert_le {V} (m : gmap bytes V) d v n : Z.of_nat (size m) < n → Z.of_nat (size (<[d := v]> m)) <= n.
Proof. intros H. destruct (m !! d) eqn:E; [rewrite map_size_insert_Some by eauto; lia|rewrite map_size_insert_None by done; lia]. Qed.
Lemma size_delete_le {K} `{Countable K} {V} (m : gmap K V) k : (size (delete k m) <= size m)%nat.
Proof. rewrite map_size_delete. destruct (m !! k); cbn; lia. Qed.

(** Names come only where a script is in charge of them. *)
Lemma body_names (m : manager) (dyn cand : gset bytes) : body_ok m →
  (∀ d, d ∈ dyn ∪ cand → d ∈ m_dynamic m ∪ m_candidates m ∨ ∃ g cfg, m_cfg m = Some (g, cfg) ∧ scriptFor cfg d ≠ []) →
  ∀ d, d ∈ dyn ∪ cand → ∃ g cfg, m_cfg m = Some (g, cfg) ∧ scriptFor cfg d ≠ [].
Proof. intros Hb H d [Hd|?]%H; [by apply (b_covered _ Hb)|done]. Qed.

(** Maps nobody is bound by. *)
Ltac same_body Hb := destruct Hb; body.

Lemma set_config_ok m cfg entries : body_ok m → manager_ok (set_config m cfg entries).
Proof.
  intros Hb. unfold set_config. apply unlock_ok. destruct Hb. body; [congruence|].
  intros d Hd. exists (m_gen m + 1), cfg. split; [done|].
  assert (negb (bool_decide (scriptFor cfg d = [])) = true → scriptFor cfg d ≠ []) as Hcov by (by rewrite negb_true_iff, bool_decide_eq_false).
  rewrite !elem_of_union, !elem_of_filter, elem_of_list_to_set, list_elem_of_filter in Hd. naive_solver.
Qed.

Lemma announce_ok m g now : body_ok m → manager_ok (announce m g now).
Proof. intros Hb. unfold announce. destruct (current_config m g); apply unlock_ok; same_body Hb. Qed.

Lemma adopt_ok m g disk now : body_ok m → manager_ok (adopt m g disk now).
Proof.
  intros Hb. unfold adopt. destruct (current_config m g) as [cfg|]; [|by apply unlock_ok]. apply unlock_ok. pose proof (b_covered _ Hb) as Hc.
  destruct Hb. body. intros d Hd. apply Hc.
  rewrite !elem_of_union, elem_of_list_to_set, elem_of_elements, !elem_of_filter in Hd. set_solver.
Qed.

Lemma propose_ok m sni now : body_ok m → manager_ok (propose m sni now).1.
Proof.
  intros Hb. unfold propose. destruct (m_cfg m) as [[g cfg]|] eqn:Ec; [|by apply unlock_ok].
  destruct (bool_decide_reflect (scriptFor cfg sni = [])); [by apply unlock_ok|].
  destruct (_ <=? _); apply unlock_ok; [destruct (_ <? _); same_body Hb|].
  pose proof (b_covered _ Hb) as Hc. destruct Hb. body. intros d Hd.
  destruct (decide (d = sni)) as [->|]; [by exists g, cfg|]. apply Hc. set_solver.
Qed.

Lemma startJob_ok m g job : body_ok m → manager_ok (startJob m g job).1.
Proof.
  intros Hb. unfold startJob. destruct (m_cfg m) as [[h cfg]|] eqn:Ec; [|by apply unlock_ok].
  destruct (_ || _) eqn:Eo; apply unlock_ok; [done|]. apply orb_false_iff in Eo as [_ Hs%Z.leb_gt].
  destruct Hb. body. fold (m_inFlight m).
  rewrite size_union_alt. pose proof (subseteq_size ({[j_domain job]} ∖ m_inFlight m) {[j_domain job]} ltac:(set_solver)) as Hle.
  rewrite size_singleton in Hle. lia.
Qed.

Lemma endJob_ok m d : body_ok m → manager_ok (endJob m d).
Proof.
  intros Hb. apply unlock_ok. pose proof (subseteq_size (m_inFlight m ∖ {[d]}) (m_inFlight m) ltac:(set_solver)).
  destruct Hb. body. fold (m_inFlight m). lia.
Qed.

Lemma drop_uncovered_ok m g d : body_ok m → manager_ok (drop_uncovered m g d).
Proof.
  intros Hb. unfold drop_uncovered. destruct (is_current m g); apply unlock_ok; [|done]. pose proof (b_covered _ Hb) as Hc.
  destruct Hb. body. intros e He. apply Hc. set_solver.
Qed.

Lemma decide_name_ok m g d usable answer now : (∀ cfg, m_cfg m = Some (g, cfg) → scriptFor cfg d ≠ []) →
  body_ok m → manager_ok (decide_name m g d usable answer now).1.
Proof.
  intros Hd Hb. unfold decide_name. destruct (is_current m g) eqn:Ec; cbn [negb]; [|by apply unlock_ok].
  apply is_current_spec in Ec as [cfg Ec]. pose proof (b_covered _ Hb) as Hc.
  assert (body_ok m → ∀ dyn cand : gset bytes, dyn ∪ cand ⊆ m_dynamic m ∪ m_candidates m ∪ {[d]} →
    ∀ e, e ∈ dyn ∪ cand → ∃ g cfg, m_cfg m = Some (g, cfg) ∧ scriptFor cfg e ≠ []) as Hn.
  { intros _ dyn cand Hs. apply body_names; [done|]. intros e He. destruct (decide (e = d)) as [->|]; [right; eauto|left; set_solver]. }
  destruct answer; [apply unlock_ok; specialize (Hn Hb); destruct Hb; body; apply Hn; set_solver| |].
  all: destruct usable; apply unlock_ok; [same_body Hb|]; specialize (Hn Hb); destruct Hb; body; [apply Hn; set_solver|].
  all: apply size_insert_le; destruct (Z.leb_spec maxRejected (Z.of_nat (size (m_rejected m)))); [done|lia].
Qed.

Lemma install_ok m d c : body_ok m → manager_ok (install m d c).
Proof.
  intros Hb. apply unlock_ok. pose proof (size_delete_le (m_placeholders m) (OwnName d)). destruct Hb. body. fold (m_placeholders m). lia.
Qed.

Lemma remove_name_ok m d now there moved : body_ok m → manager_ok (remove_name m d now there moved).1.
Proof.
  intros Hb. unfold remove_name. destruct (m_cfg m) as [[g cfg]|] eqn:Ec; [|by apply unlock_ok].
  destruct (_ || _); apply unlock_ok; [done|]. pose proof (b_covered _ Hb) as Hc. destruct Hb. body.
  intros e He. apply Hc. set_solver.
Qed.

Lemma keep_placeholder_ok m key ph : body_ok m → manager_ok (keep_placeholder m key ph).
Proof.
  intros Hb. apply unlock_ok. destruct Hb. body. fold (m_placeholders m).
  destruct (Z.ltb_spec 256 (Z.of_nat (size (m_placeholders m)))).
  - rewrite map_size_insert_None by done. done.
  - set (n := size (m_placeholders m)) in *. destruct (m_placeholders m !! key) eqn:E; [rewrite map_size_insert_Some by eauto; lia|].
    rewrite map_size_insert_None by done. lia.
Qed.

Abbreviation answers := (answers perform).

(** What each call may change of what users hold. *)
Definition moves_jobs (X : Type) (a : act X) : bool := match a with StartJob _ _ | RunNext _ | EndJob _ => true | _ => false end.
Definition moves_config (X : Type) (a : act X) : bool := match a with SetConfig _ _ => true | _ => false end.
Definition moves_lock (X : Type) (a : act X) : bool := match a with LockApply | UnlockApply => true | _ => false end.
Definition moves_answers (X : Type) (a : act X) : bool := match a with SetChallenge _ _ _ _ | DelChallenge _ => true | _ => false end.

Record frame (X : Type) (a : act X) (u u' : manager) : Prop := {
  f_jobs : moves_jobs X a = false → m_inFlight u' = m_inFlight u ∧ m_spawned u' = m_spawned u;
  f_config : moves_config X a = false → m_cfg u' = m_cfg u ∧ m_gen u' = m_gen u;
  f_lock : moves_lock X a = false → m_applying u' = m_applying u;
  f_answers : moves_answers X a = false → m_challenges u' = m_challenges u;
}.

Lemma answers_frame X (a : act X) u x u' : answers a u x u' → frame X a u u'.
Proof.
  unfold Prog.answers. destruct a; cbn [perform]; unfold announce, adopt, propose, startJob, run_next, drop_uncovered, decide_name,
    set_challenge, finish_job, remove_name, retry_now; repeat case_match; intros Ha;
    simplify_eq; try match goal with H : _ ∧ _ |- _ => destruct H as [-> ->] end; try subst u'; by split.
Qed.

Definition sound (X : Type) (a : act X) (u : manager) : Prop :=
  match a with DecideName g d _ _ _ => ∀ cfg, m_cfg u = Some (g, cfg) → scriptFor cfg d ≠ [] | _ => True end.

Lemma answers_ok X (a : act X) u x u' : answers a u x u' → sound X a u → manager_ok u → manager_ok u'.
Proof.
  intros Ha Hs [Hv Hb]. assert (manager_ok u) as Hu by (by split). unfold Prog.answers in Ha.
  destruct a; cbn [perform sound] in *;
    try (match type of Ha with _ ∧ _ => destruct Ha as [-> ->] end);
    try (repeat match type of Ha with context [let '(_, _) := ?e in _] => let q := fresh in destruct e as [? ?] eqn:q end; destruct Ha as [-> ->]);
    try exact Hu; try (by rewrite Ha); try (split; [done|by destruct Hb]);
    try (apply unlock_ok; by destruct Hb);
    try (match goal with q : ?e = (?m, _) |- manager_ok ?m => replace m with e.1 by (by rewrite q) end);
    eauto using set_config_ok, announce_ok, adopt_ok, propose_ok, startJob_ok, endJob_ok, drop_uncovered_ok, decide_name_ok, install_ok,
      remove_name_ok, keep_placeholder_ok.
  - split; [done|by destruct Hb].
  - unfold set_challenge. destruct (_ || _); apply unlock_ok; [done|by destruct Hb].
  - unfold finish_job. destruct (negb _); [by apply unlock_ok|]. destruct e; apply unlock_ok; by destruct Hb.
  - unfold retry_now. apply unlock_ok. destruct (match m_cfg u with Some _ => _ | None => _ end); by destruct Hb.
Qed.

(** * What they hold of it *)

Definition locks (ls : list life) : Z := sum_of (fun s => if lf_locked s then 1 else 0) ls.

(** What one user knows is so. *)
Record life_ok (u : manager) (s : life) : Prop := {
  l_config : ∀ g cfg d, lf_job s = Some (g, cfg, d) → g <= m_gen u ∧ (g = m_gen u → m_cfg u = Some (g, cfg));
  l_script : ∀ g cfg d, lf_job s = Some (g, cfg, d) → lf_said s ≠ None → scriptFor cfg d ≠ [];
  l_allowed : lf_allowed s = true → lf_said s = Some Accepts;
  l_current : lf_current s = true → lf_locked s = true ∧ ∃ g cfg d, lf_job s = Some (g, cfg, d) ∧ g = m_gen u;
  l_loading : ∀ cfg, lf_loading s = Some cfg → lf_locked s = true ∧ ∃ g, m_cfg u = Some (g, cfg);
  l_idle : lf_job s = None → lf_answers s = 0%nat ∧ lf_said s = None;
}.

Record kept (u : manager) (ls : list life) : Prop := {
  k_ok : manager_ok u;
  k_flight : elements (m_inFlight u) ≡ₚ ((fun e => j_domain e.2) <$> m_spawned u) ++ (ls ≫= held);
  k_spawned : Forall (fun e => e.1.1 <= m_gen u ∧ (e.1.1 = m_gen u → m_cfg u = Some e.1)) (m_spawned u);
  k_lives : Forall (life_ok u) ls;
  k_lock : m_applying u = locks ls;
  k_answers : ∀ d, is_Some (m_challenges u !! d) → ∃ s, s ∈ ls ∧ (0 < lf_answers s)%nat ∧ d ∈ held s;
}.

(** The users of a list but one. *)
Lemma insert_rest {A} (l : list A) i x y : l !! i = Some x → l ≡ₚ x :: delete i l ∧ <[i := y]> l ≡ₚ y :: delete i l.
Proof.
  intros Hi. split; [by apply delete_Permutation|]. pose proof (lookup_lt_Some _ _ _ Hi).
  rewrite (delete_Permutation (<[i := y]> l) i y) by (by apply list_lookup_insert_eq). apply reflexive_eq. f_equal.
  apply list_eq. intros j. destruct (decide (j < i)%nat).
  - rewrite !list_lookup_delete_lt by done. by rewrite list_lookup_insert_ne by lia.
  - rewrite !list_lookup_delete_ge by lia. by rewrite list_lookup_insert_ne by lia.
Qed.

(** Only one holds [applyMu]. *)
Lemma one_lock ls i j s t : locks ls <= 1 → ls !! i = Some s → ls !! j = Some t → lf_locked s = true → lf_locked t = true → i = j.
Proof.
  intros Hl Hi Hj Hs Ht. destruct (decide (i = j)) as [|Hne]; [done|]. exfalso.
  pose proof (sum_of_insert (fun s => if lf_locked s then 1 else 0) ls i s idle Hi) as H1.
  assert (<[i := idle]> ls !! j = Some t) as Hj' by (by rewrite list_lookup_insert_ne).
  pose proof (sum_of_ge (fun s => if lf_locked s then 1 else 0) _ j t ltac:(intros y _; cbn; destruct (lf_locked y); lia) Hj') as H2.
  cbv beta in H1, H2. rewrite Ht in H2.
  rewrite Hs in H1. change (lf_locked idle) with false in H1. cbv iota in H1, H2. unfold locks in Hl. lia.
Qed.

Lemma jobless_same s s' : jobless s = Some s' → s' = s.
Proof. unfold jobless. destruct (lf_job s); [done|]. by intros [= <-]. Qed.
Lemma watch_job X (a : act X) x s s' : watch X a x s = Some s' → moves_jobs X a = false → lf_job s' = lf_job s.
Proof. destruct a; cbn [watch moves_jobs]; unfold jobless; intros H Hm; repeat case_match; by simplify_eq. Qed.
Lemma watch_locked X (a : act X) x s s' : watch X a x s = Some s' → moves_lock X a = false → lf_locked s' = lf_locked s.
Proof. destruct a; cbn [watch moves_lock]; unfold jobless; intros H Hm; repeat case_match; by simplify_eq. Qed.

Definition spawned_names (u : manager) : list bytes := (fun e => j_domain e.2) <$> m_spawned u.

Lemma flight_step X (a : act X) x s s' u u' rest : watch X a x s = Some s' → answers a u x u' →
  elements (m_inFlight u) ≡ₚ spawned_names u ++ held s ++ rest → elements (m_inFlight u') ≡ₚ spawned_names u' ++ held s' ++ rest.
Proof.
  intros Hw Ha HP. destruct (moves_jobs X a) eqn:Em.
  - destruct a; try discriminate Em; cbn [watch] in Hw; unfold Prog.answers in Ha; cbn [perform] in Ha.
    + destruct (startJob u g job) as [m ok] eqn:Es. destruct Ha as [-> ->]. apply jobless_same in Hw as ->.
      unfold startJob in Es. destruct (m_cfg u) as [[h cfg]|]; [|by injection Es as <- <-].
      destruct (_ || _) eqn:Eo; injection Es as <- <-; [done|]. apply orb_false_iff in Eo as [[_ Hin%bool_decide_eq_false]%orb_false_iff _].
      unfold spawned_names. change (elements (m_inFlight u ∪ {[j_domain job]}) ≡ₚ (j_domain ∘ snd <$> m_spawned u ++ [(h, cfg, job)]) ++ held s ++ rest).
      rewrite elements_disj_union, elements_singleton by set_solver. rewrite HP, fmap_app. cbn [fmap list_fmap compose snd].
      rewrite <- !app_assoc. apply Permutation_app_head. rewrite app_assoc. apply Permutation_app_comm.
    + destruct Ha as [-> ->]. destruct (lf_job s) as [[[g0 cfg0] d0]|] eqn:Ej; [by destruct (m_spawned u !! n)|].
      assert (held s = []) as Hh by (unfold held; by rewrite Ej). rewrite Hh in HP.
      destruct (m_spawned u !! n) as [[[g cfg] job]|] eqn:En; injection Hw as <-.
      * assert (spawned_names u ≡ₚ j_domain job :: spawned_names (u {{ m_spawned ::= delete n }})) as Hs.
        { unfold spawned_names. rewrite (delete_Permutation _ _ _ En) at 1. done. }
        rewrite HP, Hs. cbn. by rewrite Permutation_middle.
      * rewrite Hh. rewrite HP. unfold spawned_names. change (m_spawned (u {{ m_spawned ::= delete n }})) with (delete n (m_spawned u)).
        apply lookup_ge_None in En. rewrite delete_take_drop, take_ge, drop_ge, app_nil_r by lia. done.
    + destruct Ha as [_ ->]. destruct (lf_job s) as [[[g0 cfg0] e]|] eqn:Ej; [|done].
      destruct (bool_decide_reflect (e = d)) as [->|]; [|done]. destruct (_ && _); [|done]. injection Hw as <-.
      assert (held s = [d]) as Hh by (unfold held; by rewrite Ej). rewrite Hh in HP.
      change (elements (m_inFlight u ∖ {[d]}) ≡ₚ spawned_names u ++ [] ++ rest).
      assert (elements (m_inFlight u) ≡ₚ d :: elements (m_inFlight u ∖ {[d]})) as He.
      { assert (d ∈ m_inFlight u) as Hin by (apply elem_of_elements; rewrite HP; set_solver).
        pose proof (union_difference_singleton_L d (m_inFlight u) Hin) as E. rewrite E at 1. by rewrite elements_disj_union, elements_singleton by set_solver. }
      rewrite He in HP. rewrite (Permutation_app_comm (spawned_names u)) in HP. cbn in HP. apply Permutation_cons_inv in HP. rewrite HP.
      cbn. by rewrite (Permutation_app_comm rest).
  - destruct (answers_frame _ _ _ _ _ Ha) as [Hf _ _ _]. destruct (Hf Em) as [E1 E2]. unfold spawned_names. rewrite E1, E2.
    unfold held. by rewrite (watch_job _ _ _ _ _ Hw Em).
Qed.

Definition spawned_ok (u : manager) : Prop := Forall (fun e => e.1.1 <= m_gen u ∧ (e.1.1 = m_gen u → m_cfg u = Some e.1)) (m_spawned u).

Lemma spawned_step X (a : act X) x u u' : answers a u x u' → manager_ok u → spawned_ok u → spawned_ok u'.
Proof.
  intros Ha [_ Hb] Hs. pose proof (answers_frame _ _ _ _ _ Ha) as [Hj Hc _ _]. unfold spawned_ok in *.
  destruct (moves_config X a) eqn:Em.
  { destruct a; try discriminate Em. destruct Ha as [_ ->]. eapply Forall_impl; [exact Hs|]. intros e [Hle _].
    change (m_gen (set_config u cfg entries)) with (m_gen u + 1). split; [lia|lia]. }
  destruct (Hc eq_refl) as [-> ->]. destruct (moves_jobs X a) eqn:Em'; [|destruct (Hj eq_refl) as [_ ->]; exact Hs].
  destruct a; try discriminate Em'; unfold Prog.answers in Ha; cbn [perform] in Ha.
  - destruct (startJob u g job) as [m ok] eqn:Es. destruct Ha as [_ ->]. unfold startJob in Es.
    destruct (m_cfg u) as [[h cfg]|] eqn:Ec; [|by injection Es as <- <-].
    destruct (_ || _); injection Es as <- <-; [done|]. apply Forall_app. split; [done|]. apply Forall_singleton. cbn.
    rewrite (b_gen _ Hb _ _ Ec). split; [lia|by intros _].
  - destruct Ha as [_ ->]. by apply Forall_delete.
  - by destruct Ha as [_ ->].
Qed.

Lemma life_same u u' s : m_cfg u' = m_cfg u → m_gen u' = m_gen u → life_ok u s → life_ok u' s.
Proof. intros E1 E2 []. split; rewrite ?E1, ?E2; done. Qed.

(** A new configuration is nobody's but its own. *)
Lemma life_reloaded u cfg entries s : lf_locked s = false → life_ok u s → life_ok (set_config u cfg entries) s.
Proof.
  intros Hl [H1 H2 H3 H4 H5 H6]. split; try done.
  - intros g c d Hj. destruct (H1 _ _ _ Hj) as [Hle _]. change (m_gen (set_config u cfg entries)) with (m_gen u + 1). split; lia.
  - intros Hc. destruct (H4 Hc) as [? _]. congruence.
  - intros c Hc. destruct (H5 _ Hc) as [? _]. congruence.
Qed.

Lemma own_step X (a : act X) x s s' u u' : watch X a x s = Some s' → answers a u x u' → manager_ok u → spawned_ok u →
  life_ok u s → life_ok u' s'.
Proof.
  intros Hw Ha Hm Hsp Hl. pose proof (answers_frame _ _ _ _ _ Ha) as [_ Hc _ _].
  destruct (moves_config X a) eqn:Em.
  { destruct a; try discriminate Em. cbn [watch] in Hw. destruct Ha as [_ ->]. destruct s as [jb lk cu ld an sa al od].
    destruct Hl as [H1 H2 H3 H4 H5 H6]. cbn in *. destruct jb; [done|]. destruct lk; [|done]. injection Hw as <-. split; cbn; try done.
    - intros Hcur. destruct (H4 Hcur) as (_ & ? & ? & ? & ? & _). congruence.
    - intros c [= <-]. split; [done|]. by exists (m_gen u + 1). }
  destruct (Hc eq_refl) as [E1 E2]. clear Hc. apply (life_same u); [done..|]. clear E1 E2.
  destruct a; cbn [watch] in Hw; try discriminate Em; try (injection Hw as <-; exact Hl); try (apply jobless_same in Hw as ->; exact Hl);
    try (repeat case_match; by (apply jobless_same in Hw as -> || simplify_eq)).
  all: destruct s as [jb lk cu ld an sa al od]; destruct Hl as [H1 H2 H3 H4 H5 H6]; unfold ours, may_ask, in_charge in Hw;
    cbn in Hw, H1, H2, H3, H4, H5, H6.
  - destruct lk; [done|]. injection Hw as <-. split; cbn; naive_solver.
  - destruct lk; [|done]. injection Hw as <-. by split.
  - destruct Ha as [-> _]. destruct jb as [|]; [done|]. destruct (m_spawned u !! n) as [[[g cfg] job]|] eqn:En; injection Hw as <-; [|by split].
    destruct (H6 eq_refl) as [-> ->]. pose proof (Forall_lookup_1 _ _ _ _ Hsp En) as [Hle Hcur]. cbn in Hle, Hcur.
    split; cbn; try done; [by intros ??? [= <- <- <-]|naive_solver].
  - destruct jb as [[[g0 cfg] e]|]; [|done]. destruct (_ && _ && _) eqn:Eb; [|done]. apply andb_true_iff in Eb as [[_ Ea%Nat.eqb_eq]%andb_true_iff ->%negb_true_iff].
    injection Hw as <-. split; cbn; try done. naive_solver.
  - destruct jb as [[[g0 cfg] e]|]; [|done]. destruct (_ && _) eqn:Eb; [|done]. injection Hw as <-.
    apply andb_true_iff in Eb as [_ ->%bool_decide_eq_true]. split; cbn; try done. unfold constant. intros ->. f_equal.
    unfold Prog.answers in Ha. cbn [perform] in Ha. unfold decide_name in Ha. destruct (negb _); [by destruct Ha|].
    destruct answer; [done|..]; destruct usable; by destruct Ha.
  - destruct jb as [[[g0 cfg] e]|]; [|done]. destruct (_ && _); [|done]. destruct x; injection Hw as <-; by split.
  - destruct jb as [[[g0 cfg] e]|]; [|done]. destruct an as [|an]; [done|]. destruct (bool_decide _); [|done]. injection Hw as <-. by split.
  - destruct jb as [[[h cfg] d]|]; [|done]. destruct (Z.eqb_spec h g) as [->|]; [|done]. destruct lk; [|done]. injection Hw as <-.
    destruct Ha as [-> _]. split; cbn; try done. unfold constant. intros [Hc _]%andb_true_iff. split; [done|].
    apply is_current_spec in Hc as [c Hc]. exists g, cfg, d. split; [done|]. by apply (b_gen _ (proj2 Hm) g c).
  - destruct jb as [[[g cfg] e]|]; [|done]. destruct (_ && _) eqn:Eb; [|done]. injection Hw as <-.
    apply andb_true_iff in Eb as [[[->%bool_decide_eq_true Hs%negb_true_iff%bool_decide_eq_false]%andb_true_iff _]%andb_true_iff ->%negb_true_iff].
    split; cbn; try done. by intros ??? [= <- <- <-] _.
  - destruct jb as [[[g0 cfg] e]|]; [|done]. destruct (_ && _); [|done]. injection Hw as <-. by split.
Qed.

Lemma lock_step X (a : act X) x s s' u u' : watch X a x s = Some s' → answers a u x u' →
  m_applying u' - m_applying u = (if lf_locked s' then 1 else 0) - (if lf_locked s then 1 else 0).
Proof.
  intros Hw Ha. destruct (moves_lock X a) eqn:Em.
  - destruct a; try discriminate Em; cbn [watch] in Hw; destruct Ha as [_ ->]; destruct (lf_locked s); try done; injection Hw as <-.
    + change (1 + m_applying u - m_applying u = 1 - 0). lia.
    + change (-1 + m_applying u - m_applying u = 0 - 1). lia.
  - rewrite (watch_locked _ _ _ _ _ Hw Em), (f_lock _ _ _ _ (answers_frame _ _ _ _ _ Ha) Em). lia.
Qed.

(** An answer in the map is one of the user's that put it there. *)
Lemma answers_step X (a : act X) x s s' u u' d : watch X a x s = Some s' → answers a u x u' → life_ok u s →
  is_Some (m_challenges u' !! d) →
  ((0 < lf_answers s')%nat ∧ d ∈ held s') ∨ (is_Some (m_challenges u !! d) ∧ ((0 < lf_answers s)%nat ∧ d ∈ held s → (0 < lf_answers s')%nat ∧ d ∈ held s')).
Proof.
  intros Hw Ha Hl Hd. destruct (moves_answers X a) eqn:Em.
  - destruct a; try discriminate Em; cbn [watch] in Hw; unfold Prog.answers in Ha; cbn [perform] in Ha.
    + destruct (set_challenge u g late d0 answer) as [m ok] eqn:Es. destruct Ha as [-> ->]. destruct (ours s g d0 && _) eqn:Eo; [|done].
      apply andb_true_iff in Eo as [Eo _]. unfold set_challenge in Es. destruct (negb (is_current u g) || late); injection Es as <- <-; injection Hw as <-; [by right|].
      destruct (decide (d = d0)) as [->|Hne].
      * left. split; [cbn; unfold constant; lia|]. unfold ours in Eo. unfold held. cbn. destruct s as [[[[g0 cfg] e]|]]; cbn in *; [|done].
        apply andb_true_iff in Eo as [_ ->%bool_decide_eq_true]. set_solver.
      * right. change (is_Some (<[d0 := answer]> (m_challenges u) !! d)) in Hd. rewrite lookup_insert_ne in Hd by done. split; [done|].
        intros [Hlt Hin]. split; [cbn; unfold constant; lia|done].
    + destruct Ha as [_ ->]. change (is_Some (delete d0 (m_challenges u) !! d)) in Hd.
      destruct (decide (d0 = d)) as [->|Hne]; [rewrite lookup_delete_eq in Hd; by destruct Hd|]. rewrite lookup_delete_ne in Hd by done.
      right. split; [done|]. intros [_ Hin]. exfalso. unfold held in Hin. destruct (lf_job s) as [[[g0 cfg] e]|]; [|set_solver].
      destruct (lf_answers s); [done|]. destruct (bool_decide_reflect (e = d0)); [|done]. set_solver.
  - rewrite (f_answers _ _ _ _ (answers_frame _ _ _ _ _ Ha) Em) in Hd. right. split; [done|].
    assert (∀ X (a : act X) x, watch X a x s = Some s' → moves_answers X a = false → moves_jobs X a = false → lf_answers s' = lf_answers s) as Hsame.
    { clear. intros X a x. destruct a; cbn [watch moves_answers moves_jobs]; unfold jobless; intros H Hm Hj; repeat case_match; by simplify_eq. }
    destruct (moves_jobs X a) eqn:Ej.
    2: { unfold held. by rewrite (Hsame _ _ _ Hw Em Ej), (watch_job _ _ _ _ _ Hw Ej). }
    destruct a; try discriminate Ej; cbn [watch] in Hw.
    + by apply jobless_same in Hw as ->.
    + destruct (lf_job s) eqn:Es; [done|]. unfold held. rewrite Es. intros [_ ?%not_elem_of_nil]. done.
    + destruct (lf_job s) as [[[g0 cfg] e]|] eqn:Es; [|done]. destruct (_ && _ && _) eqn:Eb; [|done].
      apply andb_true_iff in Eb as [[_ Ea%Nat.eqb_eq]%andb_true_iff _]. intros [Hlt _]. lia.
Qed.

(** A decision is asked for where a script is in charge. *)
Lemma watch_sound X (a : act X) x s s' u : watch X a x s = Some s' → manager_ok u → life_ok u s → sound X a u.
Proof.
  intros Hw [_ Hb] Hl. destruct a; try done. cbn [watch sound] in *. destruct (_ && _) eqn:Eo; [|done]. apply andb_true_iff in Eo as [Eo Hs%bool_decide_eq_true].
  intros cfg Hc. unfold ours in Eo. destruct (lf_job s) as [[[h c] e]|] eqn:Ej; [|done].
  apply andb_true_iff in Eo as [->%Z.eqb_eq ->%bool_decide_eq_true].
  destruct (l_config _ _ Hl _ _ _ Ej) as [_ Hcur]. rewrite (Hcur (b_gen _ Hb _ _ Hc)) in Hc. injection Hc as ->.
  apply (l_script _ _ Hl _ _ _ Ej). by rewrite Hs.
Qed.

Lemma manager_kept_start u ls : kept u ls → kept u (ls ++ [idle]).
Proof.
  intros [H1 H2 H3 H4 H5 H6]. split; try done.
  - rewrite bind_app. cbn. by rewrite app_nil_r.
  - apply Forall_app. split; [done|]. apply Forall_singleton. by split.
  - unfold locks. rewrite sum_of_snoc. cbn. rewrite Z.add_0_r. exact H5.
  - intros d Hd. destruct (H6 d Hd) as (s & Hs & ?). exists s. split; [set_solver|done].
Qed.

Definition one_at_a_time (u : manager) : bool := m_applying u <=? 1.

Lemma kept_act u ls i s X (a : act X) x s' u' : kept u ls → ls !! i = Some s →
  watch X a x s = Some s' → answers a u x u' → one_at_a_time u' = true → kept u' (<[i := s']> ls).
Proof.
  intros [H1 H2 H3 H4 H5 H6] Hi Hw Ha Hone. destruct (insert_rest ls i s s' Hi) as [HPs HPs'].
  pose proof (Forall_lookup_1 _ _ _ _ H4 Hi) as Hl. pose proof (lookup_lt_Some _ _ _ Hi) as Hlt.
  split.
  - eapply answers_ok; [exact Ha| |done]. by eapply watch_sound.
  - rewrite HPs in H2. rewrite HPs'. cbn in *. by eapply flight_step.
  - by eapply spawned_step.
  - apply Forall_forall. intros t Ht. apply list_elem_of_lookup in Ht as [j Hj]. apply list_lookup_insert_Some in Hj as [(<- & <- & _)|[Hne Hj]].
    { by eapply own_step. }
    pose proof (Forall_lookup_1 _ _ _ _ H4 Hj) as Ht. destruct (moves_config X a) eqn:Em.
    + destruct a; try discriminate Em. pose proof Ha as [_ ->]. apply life_reloaded; [|done].
      destruct (lf_locked t) eqn:Et; [|done]. exfalso. apply Hne. apply (one_lock ls i j s t); try done.
      * rewrite <- H5. by apply Z.leb_le in Hone.
      * cbn [watch] in Hw. destruct (lf_job s); [done|]. by destruct (lf_locked s).
    + destruct (f_config _ _ _ _ (answers_frame _ _ _ _ _ Ha) Em). by apply (life_same u).
  - unfold locks. rewrite (sum_of_insert _ _ _ _ s' Hi). pose proof (lock_step _ _ _ _ _ _ _ Hw Ha). unfold locks in H5. lia.
  - intros d Hd. assert (s' ∈ <[i := s']> ls) as Hin by (apply list_elem_of_lookup; exists i; by apply list_lookup_insert_eq).
    destruct (answers_step _ _ _ _ _ _ _ d Hw Ha Hl Hd) as [?|[Hold Hstay]]; [by exists s'|].
    destruct (H6 d Hold) as (t & Ht & Hta). apply list_elem_of_lookup in Ht as [j Hj]. destruct (decide (i = j)) as [<-|Hne].
    + assert (t = s) as -> by congruence. exists s'. split; [done|]. by apply Hstay.
    + exists t. split; [|done]. apply list_elem_of_lookup. exists j. by rewrite list_lookup_insert_ne.
Qed.

(** Everybody who uses the manager, in any order; [applyMu] is waited for. *)
Abbreviation world := (world act user manager).
Abbreviation step := (step_while perform (fun _ => True) main (fun u => one_at_a_time u = true)).
Definition started : world := mkWorld newCertManager [].
Abbreviation known := (known (fun _ : user => True) (fun _ => watch) idle (fun _ => over)).

Lemma kept_new : kept newCertManager [].
Proof. split; [apply new_ok|done|by constructor..|done|]. intros d [c Hc]. done. Qed.

Lemma reachable_kept w : rtc step started w → ∃ ls, Forall2 known (threads w) ls ∧ kept (shared w) ls.
Proof.
  apply (watched_while perform (fun _ => True) main (fun _ => watch) idle (fun _ => over) kept (fun u => one_at_a_time u = true)).
  - intros c _. apply main_obeys.
  - apply manager_kept_start.
  - intros u ls i s c X a x s' u' _. apply kept_act.
  - apply kept_new.
Qed.

(** * What a user's calls so far say *)

(** The job it runs, with the configuration it is for; and its name. *)
Definition took (X : Type) (a : act X) : X → option (Z * Config * certJob) → option (Z * Config * certJob) :=
  match a in act X return X → option (Z * Config * certJob) → option (Z * Config * certJob) with
  | RunNext _ => fun x l => match x with Some j => Some j | None => l end
  | EndJob _ => fun _ _ => None
  | _ => fun _ l => l
  end.
Definition running (h : list (event act)) : option (Z * Config * certJob) :=
  foldl (fun l e => took _ (ev_call e) (ev_answer e) l) None h.
Definition named (j : Z * Config * certJob) : Z * Config * bytes := (j.1, j_domain j.2).
Definition holding (h : list (event act)) : list bytes := match running h with Some j => [j_domain j.2] | None => [] end.

(** How often it has asked the CA for a certificate. *)
Definition is_order (e : event act) : bool := match ev_call e with AuthorizeOrder _ => true | _ => false end.
Definition orders (h : list (event act)) : nat := length (filter (fun e => is_order e = true) h).

(** The name is listed, or the script in charge has just accepted it. *)
Definition approved (cfg : Config) (d : bytes) (h : list (event act)) : Prop :=
  d ∈ AutoDomains cfg ∨
  scriptFor cfg d ≠ [] ∧ Event _ (Script (scriptFor cfg d) (scriptArgs cfg d)) Accepts ∈ h.

Record told (h : list (event act)) (s : life) : Prop := {
  t_running : lf_job s = named <$> running h;
  t_orders : orders h = lf_orders s ∧ (lf_orders s <= certAttempts)%nat;
  t_said : ∀ g cfg d a, lf_job s = Some (g, cfg, d) → lf_said s = Some a →
    Event _ (Script (scriptFor cfg d) (scriptArgs cfg d)) a ∈ h ∧ scriptFor cfg d ≠ [];
  t_idle : lf_job s = None → lf_said s = None;
}.

Lemma watch_orders X (a : act X) x s s' : watch X a x s = Some s' →
  lf_orders s' = (lf_orders s + if is_order (Event _ a x) then 1 else 0)%nat ∧
  (is_order (Event _ a x) = true → lf_orders s < certAttempts)%nat.
Proof.
  intros H. split.
  2: { destruct a; try done. intros _. cbn [watch] in H. destruct (may_ask s d); [|done]. by destruct (Nat.ltb_spec (lf_orders s) certAttempts). }
  revert H. unfold is_order. destruct a; cbn; unfold jobless; intros H; repeat case_match; simplify_eq; cbn; unfold constant; lia.
Qed.

Lemma watch_took X (a : act X) x s s' j : watch X a x s = Some s' → lf_job s = named <$> j → lf_job s' = named <$> took X a x j.
Proof.
  intros H Hj. destruct (moves_jobs X a) eqn:Em.
  - destruct a; try discriminate Em; cbn [watch took] in *.
    + by apply jobless_same in H as ->.
    + destruct (lf_job s) eqn:Ej; [done|]. destruct x as [[[g cfg] job]|]; injection H as <-; [done|]. by rewrite <- Hj.
    + destruct (lf_job s) as [[[g cfg] e]|]; [|done]. destruct (_ && _); [|done]. by injection H as <-.
  - rewrite (watch_job _ _ _ _ _ H Em), Hj. by destruct a.
Qed.

(** What a call leaves of the job and of the script's answer. *)
Lemma watch_said X (a : act X) x s s' : watch X a x s = Some s' →
  (lf_job s' = lf_job s ∧ lf_said s' = lf_said s) ∨
  (lf_job s' = None ∧ lf_said s' = None) ∨
  (∃ n g cfg job, Event X a x = Event _ (RunNext n) (Some (g, cfg, job)) ∧ lf_job s = None ∧ lf_job s' = Some (g, cfg, j_domain job) ∧ lf_said s' = lf_said s) ∨
  (∃ g cfg d b, lf_job s = Some (g, cfg, d) ∧ lf_job s' = lf_job s ∧ scriptFor cfg d ≠ [] ∧
     Event X a x = Event _ (Script (scriptFor cfg d) (scriptArgs cfg d)) b ∧ lf_said s' = Some b).
Proof.
  destruct a; cbn [watch]; try (unfold jobless; intros H; left; repeat case_match; by simplify_eq).
  - destruct (lf_job s) as [|] eqn:Ej; [done|]. destruct x as [[[g cfg] job]|]; intros [= <-].
    + right; right; left. by exists n, g, cfg, job.
    + left. by rewrite Ej.
  - destruct (lf_job s) as [[[g cfg] e]|]; [|done]. destruct (_ && _); [|done]. intros [= <-]. right; left. done.
  - unfold in_charge. destruct (lf_job s) as [[[g cfg] d]|] eqn:Ej; [|done]. destruct (_ && _) eqn:Eb; [|done]. intros [= <-].
    apply andb_true_iff in Eb as [[[->%bool_decide_eq_true Hs%negb_true_iff%bool_decide_eq_false]%andb_true_iff ->%bool_decide_eq_true]%andb_true_iff _].
    do 3 right. by exists g, cfg, d, x.
Qed.

Lemma in_last {A} (y : A) l : y ∈ l ++ [y].
Proof. apply elem_of_app. right. apply list_elem_of_singleton. done. Qed.

Lemma watch_told X (a : act X) x s s' h : watch X a x s = Some s' → told h s → told (h ++ [Event _ a x]) s'.
Proof.
  intros Hw [H1 H2 H4 H5]. assert (∀ e, e ∈ h → e ∈ h ++ [Event _ a x]) as Hin by (intros e He; apply elem_of_app; by left). split.
  - unfold running. rewrite foldl_app. fold (running h). by apply (watch_took _ _ _ s).
  - unfold orders. rewrite filter_app, length_app. fold (orders h). destruct H2 as [E H2], (watch_orders _ _ _ _ _ Hw) as [-> Hlt]. rewrite E.
    rewrite filter_cons, filter_nil. destruct (is_order _); case_decide; try done; cbn; [specialize (Hlt eq_refl)|]; lia.
  - intros g cfg d b Hj Hb. destruct (watch_said _ _ _ _ _ Hw) as [[E E']|[[E _]|[(n & g0 & c0 & job & E & Ej & _ & E')|(g0 & c0 & d0 & b0 & Ej & E & Hs & He & Eb)]]].
    + rewrite E in Hj. rewrite E' in Hb. destruct (H4 _ _ _ _ Hj Hb) as [He ?]. split; [by apply Hin|done].
    + by rewrite E in Hj.
    + rewrite E', (H5 Ej) in Hb. done.
    + rewrite E, Ej in Hj. injection Hj as <- <- <-. rewrite Eb in Hb. injection Hb as <-. rewrite He. split; [apply in_last|done].
  - intros Hj. destruct (watch_said _ _ _ _ _ Hw) as [[E E']|[[_ E]|[(n & g0 & c0 & job & _ & _ & E & _)|(g0 & c0 & d0 & b0 & Ej & E & _)]]]; [|done|by rewrite E in Hj|by rewrite E, Ej in Hj].
    rewrite E'. apply H5. by rewrite <- E.
Qed.

Lemma told_so h s : run watch h idle = Some s → told h s.
Proof.
  revert s. induction h as [|e h IH] using rev_ind; intros s; [intros [= <-]; split; try done; split; [done|cbn; lia]|].
  rewrite run_app. destruct (run watch h idle) as [s0|]; [|done]. cbn. destruct e as [X a x]. cbn. destruct (watch X a x s0) as [s1|] eqn:E; [|done].
  intros [= <-]. eapply watch_told; [done|]. by apply IH.
Qed.

(** All that is known of one user of a world that can be reached. *)
Lemma known_thread w ls i t : Forall2 known (threads w) ls → kept (shared w) ls → threads w !! i = Some t →
  ∃ s, ls !! i = Some s ∧ run watch (past t) idle = Some s ∧ told (past t) s ∧ life_ok (shared w) s ∧ obeys (left t) s (fun _ => over).
Proof.
  intros HF Hk Hi. destruct (Forall2_lookup_l _ _ _ _ _ HF Hi) as (s & Hs & _ & Hr & Ho). exists s. split_and!; try done.
  - by apply told_so.
  - by apply (Forall_lookup_1 _ _ _ _ (k_lives _ _ Hk) Hs).
Qed.

Lemma all_holding ts ls : Forall2 known ts ls → (ts ≫= fun t => holding (past t)) = ls ≫= held.
Proof.
  induction 1 as [|t s ts ls (_ & Hr & _) _ IH]; [done|]. cbn. rewrite IH. f_equal.
  unfold holding, held. rewrite (t_running _ _ (told_so _ _ Hr)). destruct (running (past t)) as [[[g cfg] job]|]; done.
Qed.

Lemma finished_over ts ls : Forall2 known ts ls → Forall finished ts → Forall over ls.
Proof.
  induction 1 as [|t s ts ls (_ & _ & Ho) _ IH]; [done|]. intros [Hf Hts]%Forall_cons. constructor; [|by apply IH].
  unfold finished in Hf. by rewrite Hf in Ho.
Qed.

Lemma over_nothing ls : Forall over ls → (ls ≫= held) = [] ∧ locks ls = 0 ∧ (∀ s, s ∈ ls → lf_answers s = 0%nat).
Proof.
  induction 1 as [|s ls (Hj & Hl & Ha) _ (IH1 & IH2 & IH3)]; [split_and!; try done; by intros s ?%not_elem_of_nil|].
  split_and!.
  - cbn. rewrite IH1. unfold held. by rewrite Hj.
  - unfold locks, sum_of in *. cbn. by rewrite Hl, IH2.
  - intros t [->|Ht]%elem_of_cons; [done|]. by apply IH3.
Qed.

(** The calls that ask the CA for a certificate of a name, or put one in
    place. *)
Definition asks_for (X : Type) (a : act X) : option bytes :=
  match a with
  | AuthorizeOrder d | ChallengeCert _ d | CreateOrderCert d | WriteKey _ d | WriteCert _ d _ | Install d _ => Some d
  | _ => None
  end.
Definition puts_in_place (X : Type) (a : act X) : bool :=
  match a with WriteKey _ _ | WriteCert _ _ _ | Install _ _ => true | _ => false end.

Lemma asked_allowed X (a : act X) s d (P : X → life → Prop) :
  (∀ x, match watch X a x s with Some s' => P x s' | None => False end) → asks_for X a = Some d →
  may_ask s d = true ∧ (puts_in_place X a = true → lf_current s = true).
Proof.
  intros H Ha. destruct a; try discriminate Ha; injection Ha as ->;
    [specialize (H tt)|specialize (H None)|specialize (H None)|specialize (H None)|specialize (H true)|specialize (H true)];
    cbn [watch] in H; destruct (may_ask s d); try done; (split; [done|]); intros Hp; try discriminate Hp; by destruct (lf_current s).
Qed.

(** ** A job of a configuration that is no longer current *)

(** All that a reload, the console and handshakes go by. *)
Definition settled (m : manager) :=
  (m_cfg m, m_auto m, m_placeholders m, m_nextTry m, m_lastError m, m_announced m, m_dynamic m, m_candidates m, m_rejected m).

Lemma stale_step X (a : act X) x s s' u u' g cfg d : watch X a x s = Some s' → answers a u x u' →
  lf_job s = Some (g, cfg, d) → is_current u g = false → lf_current s = false → settled u' = settled u.
Proof.
  intros Hw Ha Hj Hg Hc. assert (jobless s = None) as Hn by (unfold jobless; by rewrite Hj).
  destruct a; cbn [watch] in Hw; rewrite ?Hn in Hw; try discriminate Hw; unfold Prog.answers in Ha; cbn [perform] in Ha;
    try (by rewrite Ha); try (by destruct Ha as [_ ->]).
  - rewrite Hj in Hw. done.
  - destruct (lf_loading s) as [cfg0|]; [|done]. by destruct (lf_locked s && contains (AutoDomains cfg0) d0).
  - destruct (ours s g0 d0) eqn:Eo; [|done]. unfold ours in Eo. rewrite Hj in Eo. apply andb_true_iff in Eo as [<-%Z.eqb_eq _].
    destruct Ha as [_ ->]. unfold drop_uncovered. by rewrite Hg.
  - destruct (ours s g0 d0) eqn:Eo; [|done]. unfold ours in Eo. rewrite Hj in Eo. apply andb_true_iff in Eo as [<-%Z.eqb_eq _].
    unfold decide_name in Ha. rewrite Hg in Ha. by destruct Ha as [_ ->].
  - unfold set_challenge in Ha. destruct (_ || _); by destruct Ha as [_ ->].
  - rewrite Hc, andb_false_r in Hw. done.
  - destruct (ours s g0 d0) eqn:Eo; [|done]. unfold ours in Eo. rewrite Hj in Eo. apply andb_true_iff in Eo as [<-%Z.eqb_eq _].
    destruct Ha as [_ ->]. unfold finish_job. by rewrite Hg.
  - destruct (Ring.TryPush _ _). by destruct Ha as [_ ->].
  - destruct (Ring.TryPop _). by destruct Ha as [_ ->].
Qed.

(** ** Every user comes to an end *)

(** The lock, if held, is this one's. *)
Definition may_run (ls : list life) (s : life) : Prop := locks ls <= if lf_locked s then 1 else 0.

Lemma act_allowed X (a : act X) x s s' u u' ls : watch X a x s = Some s' → answers a u x u' → m_applying u = locks ls →
  may_run ls s → one_at_a_time u' = true ∧ (locks ls + (if lf_locked s' then 1 else 0) - (if lf_locked s then 1 else 0) <= if lf_locked s' then 1 else 0).
Proof.
  intros Hw Ha Hl Hm. pose proof (lock_step _ _ _ _ _ _ _ Hw Ha) as Hs. unfold may_run in Hm. unfold one_at_a_time.
  split; [apply Z.leb_le|]; destruct (lf_locked s), (lf_locked s'); lia.
Qed.

Lemma finish_one (oracle : ∀ X, act X → X) p : ∀ w ls s i c h, Forall2 known (threads w) ls → kept (shared w) ls →
  threads w !! i = Some (mkThread c p h) → ls !! i = Some s → may_run ls s →
  ∃ w' ls', rtc step w w' ∧ Forall2 known (threads w') ls' ∧ kept (shared w') ls' ∧ length (threads w') = length (threads w) ∧
    locks ls' = 0 ∧ (∃ h', threads w' !! i = Some (mkThread c (Ret tt) h')) ∧ (∀ j, j ≠ i → threads w' !! j = threads w !! j).
Proof.
  induction p as [[]|X a k IH]; intros w ls s i c h HF Hk Hi Hs Hm.
  - exists w, ls. split_and!; try done; [|by exists h].
    destruct (known_thread _ _ _ _ HF Hk Hi) as (s0 & Hs0 & _ & _ & _ & Ho). cbn in Ho. assert (s0 = s) as -> by congruence.
    destruct Ho as (_ & El & _). unfold may_run in Hm. rewrite El in Hm. pose proof (sum_of_ge (fun s => if lf_locked s then 1 else 0) ls i s) as Hge.
    cbv beta in Hge. rewrite El in Hge. specialize (Hge ltac:(intros y _; destruct (lf_locked y); lia) Hs). unfold locks in *. cbv iota in *. lia.
  - destruct (Forall2_lookup_l _ _ _ _ _ HF Hi) as (s0 & Hs0 & Hst & Hr & Ho). assert (s0 = s) as -> by congruence. cbn [past left who] in *.
    destruct (match perform X a (shared w) with Some xu => xu | None => (oracle _ a, shared w) end) as [x u'] eqn:Ep.
    assert (answers a (shared w) x u') as Ha.
    { unfold Prog.answers. destruct (perform X a (shared w)) as [[x0 u0]|]; by injection Ep as <- <-. }
    cbn [Prog.obeys] in Ho. specialize (Ho x). destruct (watch X a x s) as [s'|] eqn:Ew; [|done].
    destruct (act_allowed _ _ _ _ _ _ _ _ Ew Ha (k_lock _ _ Hk) Hm) as [Hone Hm'].
    set (t' := mkThread c (k x) (h ++ [Event X a x])). set (w1 := mkWorld u' (<[i := t']> (threads w)) : world).
    pose proof (lookup_lt_Some _ _ _ Hi) as Hlt. pose proof (lookup_lt_Some _ _ _ Hs) as Hlt'.
    destruct (IH x w1 (<[i := s']> ls) s' i c (h ++ [Event X a x])) as (w' & ls' & H1 & H2 & H3 & H4 & H5 & H6 & H7).
    + apply Forall2_insert; [done|]. split; [done|]. split; [|done]. unfold t'. cbn [past who]. rewrite run_app, Hr. cbn. by rewrite Ew.
    + by eapply kept_act.
    + by apply list_lookup_insert_eq.
    + by apply list_lookup_insert_eq.
    + unfold may_run, locks. rewrite (sum_of_insert _ _ _ _ s' Hs). unfold locks in Hm'. lia.
    + exists w', ls'. split_and!; try done.
      * eapply rtc_l; [|exact H1]. split; [|done]. by eapply Act.
      * rewrite H4. cbn. by rewrite length_insert.
      * intros j Hj. rewrite H7 by done. cbn. by rewrite list_lookup_insert_ne.
Qed.

(** Whoever holds the lock first, then everybody in order. *)
Lemma unlock_first (oracle : ∀ X, act X → X) w ls : Forall2 known (threads w) ls → kept (shared w) ls → locks ls <= 1 →
  ∃ w' ls', rtc step w w' ∧ Forall2 known (threads w') ls' ∧ kept (shared w') ls' ∧ length (threads w') = length (threads w) ∧ locks ls' = 0.
Proof.
  intros HF Hk Hl. destruct (decide (Exists (fun s => lf_locked s = true) ls)) as [He|Hn].
  - apply Exists_exists in He as (s & Hs & El). apply list_elem_of_lookup in Hs as [i Hs].
    destruct (Forall2_lookup_r _ _ _ _ _ HF Hs) as ([c p h] & Hi & _).
    destruct (finish_one oracle p w ls s i c h HF Hk Hi Hs) as (w' & ls' & H1 & H2 & H3 & H4 & H5 & _); [unfold may_run; by rewrite El|].
    by exists w', ls'.
  - exists w, ls. split_and!; try done. unfold locks. apply sum_of_0. intros s Hs. destruct (lf_locked s) eqn:E; [|done].
    exfalso. apply Hn, Exists_exists. by exists s.
Qed.

Lemma finish_first (oracle : ∀ X, act X → X) n w ls : Forall2 known (threads w) ls → kept (shared w) ls → locks ls = 0 → (n <= length (threads w))%nat →
  ∃ w' ls', rtc step w w' ∧ Forall2 known (threads w') ls' ∧ kept (shared w') ls' ∧ length (threads w') = length (threads w) ∧ locks ls' = 0 ∧
    (∀ j t, (j < n)%nat → threads w' !! j = Some t → finished t).
Proof.
  intros HF Hk Hl. induction n as [|n IH]; intros Hn; [exists w, ls; split_and!; try done; lia|].
  destruct IH as (w1 & ls1 & R1 & HF1 & Hk1 & Hlen & Hl1 & Hf); [lia|].
  destruct (lookup_lt_is_Some_2 (threads w1) n) as [[c p h] Hi]; [lia|]. destruct (Forall2_lookup_l _ _ _ _ _ HF1 Hi) as (s & Hs & _).
  destruct (finish_one oracle p w1 ls1 s n c h HF1 Hk1 Hi Hs) as (w2 & ls2 & R2 & HF2 & Hk2 & Hlen2 & Hl2 & (h' & Hi2) & Hrest).
  { unfold may_run. rewrite Hl1. by destruct (lf_locked s). }
  exists w2, ls2. split_and!; try done; [by etransitivity|congruence|]. intros j t Hj Ht. destruct (decide (j = n)) as [->|Hne].
  - assert (t = mkThread c (Ret tt) h') as -> by congruence. done.
  - rewrite Hrest in Ht by done. apply (Hf j); [lia|done].
Qed.

(** ** When a certificate is due *)

(** A certificate is due before it expires, and not in the first two thirds of
    its life, if the threshold is one that fits ([time.Duration] is 64 bits of
    nanoseconds: 106751 days). *)
Lemma renewAt_bounds leaf days : ct_NotBefore leaf <= ct_NotAfter leaf → ct_NotAfter leaf - ct_NotBefore leaf < 2 ^ 63 → 1 <= days <= 106751 →
  ct_NotBefore leaf + (ct_NotAfter leaf - ct_NotBefore leaf) * 2 / 3 <= renewAt leaf days <= ct_NotAfter leaf ∧
  (days * day_ < (ct_NotAfter leaf - ct_NotBefore leaf) / 3 → renewAt leaf days = ct_NotAfter leaf - days * day_).
Proof.
  intros Hle Hlt Hd. unfold renewAt, time_sub, day_, second in *. set (life := ct_NotAfter leaf - ct_NotBefore leaf) in *.
  rewrite (Z.min_r _ life), (Z.max_r _ life) by lia. rewrite Z.quot_div_nonneg by lia. rewrite (i64_id days), (i64_id (days * 24)), i64_id by lia.
  destruct (Z.ltb_spec (life / 3) (days * 24 * (3600 * 1000000000))); [split; [|lia]|split; [|lia]]; split; try lia.
Qed.

(** A longer threshold wraps: a certificate is then due only centuries after
    it has expired. *)
Lemma renewAt_wraps : let leaf := mkCert 1 0 (90 * day_) in ct_NotAfter leaf + 290 * 365 * day_ < renewAt leaf 106752.
Proof. vm_compute. reflexivity. Qed.

(** ** What there is to do *)

Lemma job_before_trans i j k : job_before i j = false → job_before j k = false → job_before i k = false.
Proof. unfold job_before. destruct (j_urgent i), (j_urgent j), (j_urgent k); cbn; rewrite ?Z.ltb_ge; try done; lia. Qed.
Lemma job_before_asym i j : job_before i j = true → job_before j i = false.
Proof. unfold job_before. destruct (j_urgent i), (j_urgent j); cbn; rewrite ?Z.ltb_ge, ?Z.ltb_lt; try done; lia. Qed.

(** A name is due when nobody has its job, it does not wait for its next
    attempt, and it has no certificate or one that is due. *)
Record due_name (m : manager) (cfg : Config) (now : Z) (d : bytes) (urgent : bool) : Prop := {
  due_free : d ∉ m_inFlight m;
  due_waited : ∀ t, m_nextTry m !! d = Some t → t <= now;
  due_since : match m_auto m !! d with
              | None => urgent = true
              | Some leaf => if urgent then ct_NotAfter leaf < now else now <= ct_NotAfter leaf ∧ renewAt leaf (c_ExpiryThresholdDays cfg) < now
              end;
}.

Lemma job_of_spec m cfg now d j : job_of m cfg now d = Some j ↔
  j_domain j = d ∧ due_name m cfg now d (j_urgent j) ∧
  j_due j = (if j_urgent j then 0 else match m_auto m !! d with Some leaf => ct_NotAfter leaf | None => 0 end).
Proof.
  unfold job_of. destruct (bool_decide_reflect (d ∈ m_inFlight m)) as [Hf|Hf]; cbn [orb].
  { split; [done|]. intros (_ & [H _ _] & _). done. }
  destruct (match m_nextTry m !! d with Some t => now <? t | None => false end) eqn:En.
  { split; [done|]. intros (_ & [_ H _] & _). destruct (m_nextTry m !! d) as [t|]; [|done]. specialize (H t eq_refl). lia. }
  assert (∀ t, m_nextTry m !! d = Some t → t <= now) as Hw by (intros t Ht; rewrite Ht in En; lia).
  destruct (m_auto m !! d) as [leaf|] eqn:Ea.
  2: { split; [intros [= <-]; cbn; split_and!; try done; split; try done; by rewrite Ea|].
       intros (<- & [_ _ H] & Hd). rewrite Ea in H. destruct j; cbn in *. by subst. }
  destruct (Z.ltb_spec (ct_NotAfter leaf) now).
  { split; [intros [= <-]; cbn; split_and!; try done; split; try done; by rewrite Ea|].
    intros (<- & [_ _ H'] & Hd). rewrite Ea in H'. destruct j as [dd [] due]; cbn in *; [by subst|lia]. }
  destruct (Z.ltb_spec (renewAt leaf (c_ExpiryThresholdDays cfg)) now).
  - split; [intros [= <-]; cbn; split_and!; try done; split; try done; by rewrite Ea|].
    intros (<- & [_ _ H'] & Hd). rewrite Ea in H'. destruct j as [dd [] due]; cbn in *; [lia|by subst].
  - split; [done|]. intros (<- & [_ _ H'] & Hd). rewrite Ea in H'. destruct (j_urgent j); lia.
Qed.

Lemma elem_of_managed m cfg d : d ∈ managed m cfg ↔ d ∈ AutoDomains cfg ∨ d ∈ m_dynamic m.
Proof.
  unfold managed. rewrite elem_of_app, elem_of_stable_sort, list_elem_of_filter, elem_of_elements.
  destruct (decide (d ∈ AutoDomains cfg)); naive_solver.
Qed.

(** * Properties *)

(** C11: However reloads, the worker, its jobs, handshakes and the console
    interleave: no two jobs, running or about to, are for one name, there are
    never more than [maxParallelJobs], the names in flight are exactly theirs,
    and an answer to a challenge is there only while the job for its name is;
    once everybody is done, nothing is left of it. *)
Theorem jobs_exclusive w : rtc step started w →
  let jobs := spawned_names (shared w) ++ (threads w ≫= fun t => holding (past t)) in
  NoDup jobs ∧ len jobs <= maxParallelJobs ∧ (∀ d, d ∈ m_inFlight (shared w) ↔ d ∈ jobs) ∧
  (∀ d, is_Some (m_challenges (shared w) !! d) → d ∈ jobs) ∧
  (Forall finished (threads w) → jobs = spawned_names (shared w) ∧ m_challenges (shared w) = ∅ ∧ m_applying (shared w) = 0).
Proof.
  intros Hr. destruct (reachable_kept w Hr) as (ls & HF & Hk). rewrite (all_holding _ _ HF). pose proof (k_flight _ _ Hk) as HP.
  fold (spawned_names (shared w)) in HP. cbn zeta. split_and!.
  - rewrite <- HP. apply NoDup_elements.
  - pose proof (b_few _ (proj2 (k_ok _ _ Hk))) as Hs. unfold len. rewrite <- HP. exact Hs.
  - intros d. by rewrite <- HP, elem_of_elements.
  - intros d Hd. destruct (k_answers _ _ Hk d Hd) as (s & Hs & _ & Hd'). apply elem_of_app. right. apply list_elem_of_bind. by exists s.
  - intros Hf. destruct (over_nothing ls) as (E1 & E2 & E3); [by eapply finished_over|]. rewrite E1, app_nil_r, (k_lock _ _ Hk). split_and!; try done.
    apply map_empty. intros d. apply eq_None_not_Some. intros Hd. destruct (k_answers _ _ Hk d Hd) as (s & Hs & Hlt & _). rewrite (E3 s Hs) in Hlt. lia.
Qed.


(** What a handshake sees is what the manager has; a script is in charge,
    in the current configuration, of every name it was told to decide about or
    has accepted; what clients can make it remember is bounded; and a job of a
    configuration that is no longer current changes nothing of all that,
    whatever it is answered. *)
Theorem names_settled w : rtc step started w →
  let m := shared w in
  m_view m = snapshot m ∧
  (∀ d, d ∈ m_dynamic m ∪ m_candidates m → ∃ g cfg, m_cfg m = Some (g, cfg) ∧ scriptFor cfg d ≠ []) ∧
  Z.of_nat (size (m_rejected m)) <= maxRejected ∧ Z.of_nat (size (m_placeholders m)) <= 257 ∧
  (∀ i c X (a : act X) k h x m' g cfg job, threads w !! i = Some (mkThread c (Do a k) h) → running h = Some (g, cfg, job) → g ≠ m_gen m →
     answers a m x m' → settled m' = settled m).
Proof.
  intros Hr. destruct (reachable_kept w Hr) as (ls & HF & Hk). destruct (k_ok _ _ Hk) as [Hv Hb]. cbn zeta. split_and!.
  - exact Hv.
  - apply (b_covered _ Hb).
  - apply (b_rejected _ Hb).
  - apply (b_placeholders _ Hb).
  - intros i c X a k h x m' g cfg job Hi Hrun Hg Ha. destruct (known_thread _ _ _ _ HF Hk Hi) as (s & _ & _ & Ht & Hl & Ho). cbn [past left] in *.
    pose proof (t_running _ _ Ht) as Hj. rewrite Hrun in Hj. cbn in Hj. cbn [Prog.obeys] in Ho. specialize (Ho x).
    destruct (watch X a x s) as [s'|] eqn:Ew; [|done]. apply (stale_step _ _ _ _ _ _ _ _ _ _ Ew Ha Hj).
    + destruct (is_current (shared w) g) eqn:Ec; [|done]. apply is_current_spec in Ec as [cfg' Ec]. exfalso. by apply Hg, (b_gen _ Hb _ cfg').
    + destruct (lf_current s) eqn:Ec; [|done]. destruct (l_current _ _ Hl Ec) as (_ & g' & ? & ? & Ej & Hg'). rewrite Hj in Ej. injection Ej as <- _ _. done.
Qed.

(** C33: Nobody waits for ever for somebody else: from wherever the manager
    can get to, whatever the CA, the script and the disk answer, everybody comes
    to an end, with the lock free, no answer to a challenge left and nothing in
    flight but jobs that have not begun. *)
Theorem users_end (oracle : ∀ X, act X → X) w : rtc step started w →
  ∃ w', rtc step w w' ∧ length (threads w') = length (threads w) ∧ Forall finished (threads w') ∧
    m_applying (shared w') = 0 ∧ m_challenges (shared w') = ∅ ∧ elements (m_inFlight (shared w')) ≡ₚ spawned_names (shared w').
Proof.
  intros Hr. destruct (reachable_kept w Hr) as (ls & HF & Hk).
  assert (locks ls <= 1) as Hl.
  { rewrite <- (k_lock _ _ Hk). apply Z.leb_le. apply rtc_inv_r in Hr as [<-|(w0 & _ & _ & H)]; [done|exact H]. }
  destruct (unlock_first oracle w ls HF Hk Hl) as (w1 & ls1 & R1 & HF1 & Hk1 & Hlen1 & Hl1).
  destruct (finish_first oracle (length (threads w1)) w1 ls1 HF1 Hk1 Hl1) as (w2 & ls2 & R2 & HF2 & Hk2 & Hlen2 & Hl2 & Hf); [lia|].
  assert (Forall finished (threads w2)) as Hall.
  { apply Forall_forall. intros t Ht. apply list_elem_of_lookup in Ht as [j Hj]. apply (Hf j t); [|done]. apply lookup_lt_Some in Hj. lia. }
  destruct (over_nothing ls2) as (E1 & _ & E3); [by eapply finished_over|].
  exists w2. split_and!; [by etransitivity|congruence|done|by rewrite (k_lock _ _ Hk2)| |].
  - apply map_empty. intros d. apply eq_None_not_Some. intros Hd. destruct (k_answers _ _ Hk2 d Hd) as (s & Hs & Hlt & _). rewrite (E3 s Hs) in Hlt. lia.
  - pose proof (k_flight _ _ Hk2) as HP. by rewrite E1, app_nil_r in HP.
Qed.

(** What the worker starts on is exactly the names it manages or is to
    decide about that are due: not in flight, not waiting for their next
    attempt, without a certificate, past its end, or past its time to renew;
    those without a good certificate first, then by the end of the one they
    have. *)
Theorem pending_exact m g cfg now : m_cfg m = Some (g, cfg) →
  (∀ d urgent, (∃ j, j ∈ pendingJobs m now ∧ j_domain j = d ∧ j_urgent j = urgent) ↔
     (d ∈ AutoDomains cfg ∨ d ∈ m_dynamic m ∨ d ∈ m_candidates m) ∧ due_name m cfg now d urgent) ∧
  (∀ i j, before (pendingJobs m now) i j →
     (j_urgent j = true → j_urgent i = true) ∧
     (j_urgent i = false → j_urgent j = false →
        ∃ a b, m_auto m !! j_domain i = Some a ∧ m_auto m !! j_domain j = Some b ∧ ct_NotAfter a <= ct_NotAfter b)).
Proof.
  intros Hc. unfold pendingJobs. rewrite Hc.
  assert (∀ j, j ∈ stable_sort job_before (omap (job_of m cfg now) (managed m cfg ++ stable_sort str_less (elements (m_candidates m)))) ↔
    (j_domain j ∈ AutoDomains cfg ∨ j_domain j ∈ m_dynamic m ∨ j_domain j ∈ m_candidates m) ∧ job_of m cfg now (j_domain j) = Some j) as Hin.
  { intros j. rewrite elem_of_stable_sort, list_elem_of_omap. setoid_rewrite elem_of_app. setoid_rewrite elem_of_managed.
    setoid_rewrite elem_of_stable_sort. setoid_rewrite elem_of_elements. split.
    - intros (d & Hd & Hj). assert (j_domain j = d) as <- by (by apply job_of_spec in Hj as [? _]). split; [tauto|done].
    - intros [Hd Hj]. exists (j_domain j). split; [tauto|done]. }
  split.
  - intros d u. split.
    + intros (j & [Hd Hj]%Hin & <- & <-). split; [done|]. by apply job_of_spec in Hj as (_ & ? & _).
    + intros [Hd Hu]. set (j := mkJob d u (if u then 0 else match m_auto m !! d with Some leaf => ct_NotAfter leaf | None => 0 end)).
      exists j. split; [|done]. apply Hin. split; [done|]. by apply job_of_spec.
  - intros i j Hb. assert (i ∈ stable_sort job_before (omap (job_of m cfg now) (managed m cfg ++ stable_sort str_less (elements (m_candidates m)))) ∧
      j ∈ stable_sort job_before (omap (job_of m cfg now) (managed m cfg ++ stable_sort str_less (elements (m_candidates m))))) as [Hi Hj].
    { destruct Hb as (p & q & _ & Hp & Hq). split; apply list_elem_of_lookup; eauto. }
    apply Hin in Hi as [_ (_ & Hdi & Ei)%job_of_spec], Hj as [_ (_ & Hdj & Ej)%job_of_spec].
    apply stable_sort_before in Hb; [|apply job_before_trans|apply job_before_asym]. unfold job_before in Hb. split.
    + intros Hu. rewrite Hu in Hb. destruct (j_urgent i); [done|]. done.
    + intros Hui Huj. rewrite Hui, Huj in *. cbn in Hb. destruct Hdi as [_ _ Hdi], Hdj as [_ _ Hdj].
      destruct (m_auto m !! j_domain i) as [a|]; [|done]. destruct (m_auto m !! j_domain j) as [b|]; [|done]. exists a, b. split_and!; try done. lia.
Qed.

(** ** Witnesses: a name a client asks for, from the handshake to its
    certificate *)

Definition w_rule : Rule := zero_rule {{
  r_Listener := lit "web"; r_Line := 3; r_Source := lit "*.example.com"; r_Kind := kindWildcard; r_Allow := true;
  r_Pattern := match classify (lit "*.example.com") with Ok (_, expr, _) => compile_re false expr | Err _ => None end;
  r_Cert := lit "auto"; r_CertDomains := [lit "www.example.com"]; r_CertValidateScript := lit "/bin/ask"; r_CertValidateArgs := [lit "${1}"] }}.
Definition w_listener : Listener := (new_listener (lit "web") 1 (lit "0.0.0.0") [lit "0.0.0.0"] 443) {{ l_routes := mkRoutes ∅ [w_rule] }}.
Definition w_cfg : Config := (defaultConfig []) {{ c_Rules := [w_rule]; c_Listeners := [w_listener] }}.
Definition w_name : bytes := lit "shop.example.com".
Definition w_oracle (X : Type) (a : act X) : X :=
  match a in act X return X with
  | Now => 1000 * second
  | ReadCertFolder _ => []
  | Disk _ => fun _ => None
  | LoadCert _ d | ChallengeCert _ d | SelfSigned d => Some (mkCert (len d) 0 (90 * day_))
  | Script _ _ => Accepts
  | Late | MuBusy => false
  | AuthorizeOrder _ => Some [lit "authz"]
  | GetAuthorization _ => Some (false, [(lit "dns-01", lit "a"); (lit "tls-alpn-01", lit "b")])
  | CreateOrderCert _ => Some []
  | Lookup _ _ => NoResponse
  | SetConfig _ _ => 0
  | ReadConfig | PopProposal | JobState _ _ | RunNext _ | LocalCert _ _ => None
  | Pending _ => []
  | CurrentView => empty_view
  | OpenLocalCAs _ | ScriptsThere _ | Sleep | Account | RegisterAccount _ | AcceptChallenge _ | WaitAuthorization _ | WaitOrder
  | MakeFolder _ _ | WriteKey _ _ | WriteCert _ _ _ | FolderThere _ _ | ArchiveAnswer _ _ | Known _ | Propose _ _ | StartJob _ _
  | DecideName _ _ _ _ _ | Cancelled _ | SetChallenge _ _ _ _ | IsCurrent _ _ | RemoveName _ _ _ _ | RetryNow _ | PushProposal _ => true
  | _ => tt
  end.

Definition w_users : list user := [Reload w_cfg; Handshake w_rule (HelloInfo w_name AddrZero [] 0) AddrZero; WorkerTurn 5; JobRuns 0].
Definition w_start : world := mkWorld newCertManager ((fun c => mkThread c (main c) []) <$> w_users).
Definition w_drive (n i : nat) (w : world) : world := drive_while perform one_at_a_time w_oracle n i w.
(** The job after [n] calls. *)
Definition w_at (n : nat) : world := w_drive n 3 (w_drive 50 2 (w_drive 50 1 (w_drive 50 0 w_start))).

Lemma asking_reached n : rtc step started (w_at n).
Proof.
  assert (∀ cs ts, rtc step (mkWorld newCertManager ts) (mkWorld newCertManager (ts ++ ((fun c => mkThread c (main c) []) <$> cs)))) as Hstart.
  { intros cs. induction cs as [|c cs IH]; intros ts; cbn [fmap list_fmap]; [by rewrite app_nil_r|].
    eapply rtc_l; [split; [by apply (Start perform (fun _ => True) main (mkWorld newCertManager ts) c)|done]|]. cbn [shared threads].
    specialize (IH (ts ++ [mkThread c (main c) []])). by rewrite <- app_assoc in IH. }
  etransitivity; [apply (Hstart w_users [])|]. unfold w_at, w_drive. etransitivity; [|apply drive_while_steps].
  etransitivity; [|apply drive_while_steps]. etransitivity; apply drive_while_steps.
Qed.

(** What a user is about to call. *)
Definition next_call (t : thread act user) : option (option bytes * bool) :=
  match left t with Do a _ => Some (asks_for _ a, puts_in_place _ a) | Ret _ => None end.

Lemma jobs_exclusive_witness :
  let w := w_at 16 in
  (threads w ≫= fun t => holding (past t)) = [w_name] ∧ is_Some (m_challenges (shared w) !! w_name) ∧
  (is_Some (m_challenges (shared w) !! w_name) → w_name ∈ spawned_names (shared w) ++ (threads w ≫= fun t => holding (past t))).
Proof.
  split; [vm_compute; reflexivity|]. split; [exists (mkCert 16 0 (90 * day_)); vm_compute; reflexivity|].
  destruct (jobs_exclusive (w_at 16) (asking_reached 16)) as (_ & _ & _ & H & _). apply H.
Defined.


Lemma names_settled_witness :
  let m := shared (w_at 27) in w_name ∈ m_dynamic m ∧ ∃ g cfg, m_cfg m = Some (g, cfg) ∧ scriptFor cfg w_name ≠ [].
Proof.
  assert (w_name ∈ m_dynamic (shared (w_at 27))) as Hd by (apply (bool_decide_unpack _); vm_compute; exact I).
  split; [exact Hd|]. destruct (names_settled (w_at 27) (asking_reached 27)) as (_ & H & _). apply H, elem_of_union_l, Hd.
Defined.

Lemma users_end_witness : ∃ w', rtc step (w_at 16) w' ∧ length (threads w') = 4%nat ∧ Forall finished (threads w') ∧ m_challenges (shared w') = ∅.
Proof.
  destruct (users_end w_oracle (w_at 16) (asking_reached 16)) as (w' & H1 & H2 & H3 & _ & H5 & _). exists w'. split; [exact H1|].
  split; [|by split]. rewrite H2. vm_compute. reflexivity.
Defined.

Lemma pending_exact_witness :
  let m := newCertManager {{ m_cfg := Some (1, w_cfg); m_candidates := {[w_name]} }} in
  j_domain <$> pendingJobs m 1000 = [lit "www.example.com"; w_name] ∧
  ((∃ j, j ∈ pendingJobs m 1000 ∧ j_domain j = w_name ∧ j_urgent j = true) ↔
   (w_name ∈ AutoDomains w_cfg ∨ w_name ∈ m_dynamic m ∨ w_name ∈ m_candidates m) ∧ due_name m w_cfg 1000 w_name true).
Proof.
  split; [vm_compute; reflexivity|].
  apply (pending_exact (newCertManager {{ m_cfg := Some (1, w_cfg); m_candidates := {[w_name]} }}) 1 w_cfg 1000). reflexivity.
Defined.

(** A rule of another listener than the first has no say: the script of the
    rule that [w_name] is routed to there is never asked. *)
Lemma other_listeners_ignored :
  let first := (new_listener (lit "lan") 1 (lit "0.0.0.0") [lit "0.0.0.0"] 8443) in
  let cfg := w_cfg {{ c_Listeners := [first; w_listener] }} in
  r_CertValidateScript <$> d_Rule (Route (l_routes w_listener) w_name) = Some (lit "/bin/ask") ∧ scriptFor cfg w_name = [].
Proof. split; vm_compute; reflexivity. Qed.
