(* ===== verification/Dial.v ===== *)
(** Dial: connecting to a target ([dial.go]): names looked up through a small
    cache shared by every connection, the addresses of one family tried in
    turn, and the race between the two families. *)

From S2P Require Import Prelude GoStr NetIP Config.
From S2P Require Cache.

Definition dnsCacheTTL : Z := 5 * second.
Definition dnsCacheSize : Z := 1024.

Record dnsEntry := mkDns { dns_addrs : list addr; dns_expires : Z }.
Definition newTargetDialer : Cache.clock dnsEntry := Cache.newClock dnsCacheSize.

(** * resolve

    One call; what it asks the resolver is answered in between. *)
Inductive lookup_err := LookupFailed | NoAddresses.
Inductive resolving :=
| RStart (host : bytes)
| RLookup (host : bytes)                     (* not in the cache, or too old *)
| RPut (host : bytes) (addrs : list addr)
| RDone (host : bytes) (r : res lookup_err (list addr)) (at_ : Z).

(** Calls share the cache and the clock; [rs_told] is what the resolver told
    them, and when they put it. *)
Record resolver := mkResolver {
  rs_cache : Cache.clock dnsEntry; rs_now : Z; rs_calls : list resolving; rs_told : list (bytes * list addr * Z);
}.

(** One step of call [i]; [answer]: the resolver's, [busy]: another insert
    holds the cache's mutex. *)
Definition resolve_step (i : nat) (answer : option (list addr)) (busy : bool) (s : resolver) : option resolver :=
  let 'mkResolver c now calls told := s in
  match calls !! i with
  | Some (RStart host) =>
      match parse_addr host with
      | Some ip => Some (mkResolver c now (<[i := RDone host (Ok [ip]) now]> calls) told)
      | None =>
          let '(e, c) := Cache.Get c host in
          match e with
          | Some e =>
              if now <? dns_expires e then Some (mkResolver c now (<[i := RDone host (Ok (dns_addrs e)) now]> calls) told)
              else Some (mkResolver c now (<[i := RLookup host]> calls) told)
          | None => Some (mkResolver c now (<[i := RLookup host]> calls) told)
          end
      end
  | Some (RLookup host) =>
      match answer with
      | None => Some (mkResolver c now (<[i := RDone host (Err LookupFailed) now]> calls) told)
      | Some [] => Some (mkResolver c now (<[i := RDone host (Err NoAddresses) now]> calls) told)
      | Some addrs => Some (mkResolver c now (<[i := RPut host addrs]> calls) told)
      end
  | Some (RPut host addrs) =>
      match Cache.Put c host (mkDns addrs (now + dnsCacheTTL)) busy with
      | Some c => Some (mkResolver c now (<[i := RDone host (Ok addrs) now]> calls) (told ++ [(host, addrs, now)]))
      | None => None   (* never: the eviction hand always finds an entry *)
      end
  | _ => None
  end.

Inductive resolver_step : resolver → resolver → Prop :=
| NewCall c now calls told host : resolver_step (mkResolver c now calls told) (mkResolver c now (calls ++ [RStart host]) told)
| Passes c now now' calls told : now <= now' → resolver_step (mkResolver c now calls told) (mkResolver c now' calls told)
| Resolves s s' i answer busy : resolve_step i answer busy s = Some s' → resolver_step s s'.
Definition new_resolver (now : Z) : resolver := mkResolver newTargetDialer now [] [].

(** * Addresses of one family, one after the other *)

Section Serial.
Context {conn err : Type}.
(* the dialer: what an attempt under this timeout comes to, and when it is
   over; and whether the context has ended by then *)
Context (dial : bytes → Z → Z → res err conn * Z) (ended : Z → bool).

(** How long an attempt gets, with [left] addresses to try; the clock is read
    once. *)
Definition share (deadline now : Z) (left : nat) : Z :=
  let s := Z.quot (deadline - now) (Z.of_nat left) in
  if (s <? 2 * second) && (1 <? Z.of_nat left) then Z.min (2 * second) (deadline - now) else s.

(** The loop of [dialSerial]: the result ([None]: "no addresses to connect
    to"), and the attempts it made: the address, when, and under which timeout. *)
Fixpoint dial_go (deadline : Z) (now : Z) (targets : list bytes) (firstErr : option err)
    : res (option err) conn * list (bytes * Z * Z) :=
  match targets with
  | [] => (Err firstErr, [])
  | t :: ts =>
      let d := share deadline now (length targets) in
      match dial t now d with
      | (Ok c, _) => (Ok c, [(t, now, d)])
      | (Err e, now') =>
          let firstErr := match firstErr with None => Some e | _ => firstErr end in
          if ended now' then (Err firstErr, [(t, now, d)])
          else let '(r, l) := dial_go deadline now' ts firstErr in (r, (t, now, d) :: l)
      end
  end.
Definition dialSerial (deadline now : Z) (targets : list bytes) : res (option err) conn * list (bytes * Z * Z) :=
  dial_go deadline now targets None.
End Serial.

(** * The families *)

(** The targets of the first address's family, and those of the other. *)
Definition families (addrs : list addr) (port : Z) : list bytes * list bytes :=
  match addrs with
  | [] => ([], [])
  | a0 :: _ =>
      let first := fun a => Bool.eqb (is4 (unmap a)) (is4 (unmap a0)) in
      let target := fun a => join_host_port (addr_string a) (itoa port) in
      (target <$> filter (fun a => first a = true) addrs, target <$> filter (fun a => first a = false) addrs)
  end.

(** * The race

    Two goroutines, each with [dialSerial]'s answer to report, and the loop
    of [Dial] that waits for them, the lag and the deadline. Connections have
    numbers; [ra_open] are the open ones. *)
Section Race.
Context {err : Type}.

Inductive runner := NotStarted | Dialing | Has (r : res err nat) | Reported (r : res err nat) | Discarded.
Inductive dial_end := Connected (c : nat) | FailedWith (e : err) | OutOfTime.

Record race := mkRace {
  ra_primary : runner; ra_fallback : runner;
  ra_lag : bool;                 (* the timer is still to fire *)
  ra_started : bool; ra_failures : nat; ra_firstErr : option err;
  ra_ctx : bool;                 (* the deadline has passed *)
  ra_end : option dial_end;      (* the loop has returned *)
  ra_open : list nat; ra_next : nat;
}.

Inductive event :=
| Answers (primary : bool) (e : option err)   (* a goroutine's dialSerial returns *)
| Deadline | LoopDeadline | LoopLag
| Reports (primary : bool)                    (* a result passes the channel *)
| Discards (primary : bool).                  (* the race is over: nobody takes it *)

Definition runner_of (p : bool) (s : race) : runner := if p then ra_primary s else ra_fallback s.
Definition with_runner (p : bool) (r : runner) (s : race) : race :=
  let 'mkRace a b lag st f fe ctx en op nx := s in
  if p then mkRace r b lag st f fe ctx en op nx else mkRace a r lag st f fe ctx en op nx.
Definition start_fallback (s : race) : race :=
  let 'mkRace a b lag st f fe ctx en op nx := s in
  if st then s else mkRace a Dialing lag true f fe ctx en op nx.

Definition race_step (e : event) (s : race) : option race :=
  let 'mkRace a b lag st f fe ctx en op nx := s in
  match e with
  | Answers p failed =>
      match runner_of p s with
      | Dialing =>
          match failed with
          | Some e => Some (with_runner p (Has (Err e)) s)
          | None => Some (with_runner p (Has (Ok nx)) (mkRace a b lag st f fe ctx en (nx :: op) (S nx)))
          end
      | _ => None
      end
  | Deadline => if ctx then None else Some (mkRace a b lag st f fe true en op nx)
  | LoopDeadline =>
      match en with
      | None => if ctx then Some (mkRace a b lag st f fe ctx (Some (match fe with Some e => FailedWith e | None => OutOfTime end)) op nx) else None
      | Some _ => None
      end
  | LoopLag =>
      match en with
      | None => if lag then Some (start_fallback (mkRace a b false st f fe ctx en op nx)) else None
      | Some _ => None
      end
  | Reports p =>
      match en, runner_of p s with
      | None, Has (Ok c) => Some (with_runner p (Reported (Ok c)) (mkRace a b lag st f fe ctx (Some (Connected c)) op nx))
      | None, Has (Err e) =>
          let fe' := if p || bool_decide (fe = None) then Some e else fe in
          let s := with_runner p (Reported (Err e)) (mkRace a b lag st (S f) fe' ctx en op nx) in
          if (S f =? 2)%nat then
            let 'mkRace a b lag st f fe ctx _ op nx := s in
            Some (mkRace a b lag st f fe ctx (FailedWith <$> fe) op nx)
          else Some (start_fallback s)
      | _, _ => None
      end
  | Discards p =>
      if ctx || bool_decide (is_Some en) then
        match runner_of p s with
        | Has (Ok c) => Some (with_runner p Discarded (mkRace a b lag st f fe ctx en (filter (fun x => x ≠ c) op) nx))
        | Has (Err _) => Some (with_runner p Discarded s)
        | _ => None
        end
      else None
  end.

Definition race_start : race := mkRace Dialing NotStarted true false 0 None false None [] 0.
Definition race_moves (s s' : race) : Prop := ∃ e, race_step e s = Some s'.
End Race.

(** * What resolve answers *)

Definition told_fresh (told : list (bytes * list addr * Z)) (host : bytes) (addrs : list addr) (at_ : Z) : Prop :=
  addrs ≠ [] ∧ ∃ t, (host, addrs, t) ∈ told ∧ t <= at_ < t + dnsCacheTTL.
Definition call_ok (told : list (bytes * list addr * Z)) (c : resolving) : Prop :=
  match c with
  | RPut _ addrs => addrs ≠ []
  | RDone host (Ok addrs) at_ => (∃ ip, parse_addr host = Some ip ∧ addrs = [ip]) ∨ told_fresh told host addrs at_
  | _ => True
  end.

Record resolver_ok (s : resolver) : Prop := {
  rk_cache : Cache.clock_ok (rs_cache s);
  rk_held : ∀ k e, Cache.lookup_val (rs_cache s) k = Some e →
    dns_addrs e ≠ [] ∧ ∃ t, (k, dns_addrs e, t) ∈ rs_told s ∧ dns_expires e = t + dnsCacheTTL;
  rk_told : Forall (fun x => x.2 <= rs_now s) (rs_told s);
  rk_calls : Forall (call_ok (rs_told s)) (rs_calls s);
}.

Lemma call_ok_more told told' c : call_ok told c → call_ok (told ++ told') c.
Proof.
  destruct c as [| | |host [addrs|] at_]; try done. intros [H|(Hn & t & Ht & Hl)]; [by left|right]. split; [done|]. exists t. split; [set_solver|done].
Qed.

Lemma resolver_ok_step s s' : resolver_ok s → resolver_step s s' → resolver_ok s'.
Proof.
  intros [H1 H2 H3 H4] Hs. destruct Hs as [c now calls told host|c now now' calls told Hle|s s' i answer busy Hr]; cbn in *.
  - split; cbn; try done. apply Forall_app. split; [done|]. by repeat constructor.
  - split; cbn; try done. eapply Forall_impl; [exact H3|]. cbn. intros x ?. lia.
  - destruct s as [c now calls told]. cbn in *. destruct (calls !! i) as [[host|host|host addrs|]|] eqn:Hi; try done.
    + destruct (parse_addr host) as [ip|] eqn:Ep.
      { injection Hr as <-. split; cbn; try done. apply Forall_insert; [done|]. left. by exists ip. }
      destruct (Cache.Get_spec c host H1) as (Hg & Hok & _ & Hsame). destruct (Cache.Get c host) as [e c'] eqn:Eg. cbn in *.
      assert (resolver_ok (mkResolver c' now (<[i := RLookup host]> calls) told)) as Hmiss.
      { split; cbn; try done; [intros k e'; rewrite Hsame; apply H2|]. by apply Forall_insert. }
      destruct e as [e|]; [|by injection Hr as <-]. destruct (Z.ltb_spec now (dns_expires e)); [|by injection Hr as <-].
      injection Hr as <-. destruct (H2 host e (eq_sym Hg)) as (Hn & t & Ht & He).
      split; cbn; try done; [intros k e'; rewrite Hsame; apply H2|]. apply Forall_insert; [done|]. right. split; [done|]. exists t.
      split; [done|]. apply (proj1 (Forall_forall _ _) H3) in Ht. cbn in Ht. lia.
    + destruct answer as [[|a addrs]|]; injection Hr as <-; (split; cbn; try done; by apply Forall_insert).
    + destruct (Cache.Put_spec c host (mkDns addrs (now + dnsCacheTTL)) busy H1) as (c' & Hp & Hok & _ & Hput). rewrite Hp in Hr. injection Hr as <-.
      assert (addrs ≠ []) as Hn by (by apply (proj1 (Forall_lookup _ _) H4 i (RPut host addrs))).
      split; cbn; try done.
      * intros k e Hk. destruct (Cache.put_lookup _ _ _ _ _ _ _ Hput Hk) as [Hk'|[-> ->]].
        -- destruct (H2 _ _ Hk') as (? & t & Ht & ?). split; [done|]. exists t. split; [set_solver|done].
        -- cbn. split; [done|]. exists now. split; [set_solver|done].
      * apply Forall_app. split; [done|]. constructor; [cbn; lia|constructor].
      * apply Forall_insert; [eapply Forall_impl; [exact H4|]; intros x; apply call_ok_more|]. right. split; [done|]. exists now.
        split; [set_solver|]. unfold dnsCacheTTL, second. lia.
Qed.

(** However calls interleave, what [resolve] answers is the address itself,
    where the host is one, or what the resolver told this call or another, for
    this very name and less than [dnsCacheTTL] ago, and never nothing. *)
Theorem resolve_fresh (start : Z) (s : resolver) (host : bytes) (addrs : list addr) (at_ : Z) :
  rtc resolver_step (new_resolver start) s → RDone host (Ok addrs) at_ ∈ rs_calls s →
  (∃ ip, parse_addr host = Some ip ∧ addrs = [ip]) ∨
  addrs ≠ [] ∧ ∃ t, (host, addrs, t) ∈ rs_told s ∧ t <= at_ < t + dnsCacheTTL.
Proof.
  intros Hs Hin. assert (resolver_ok s) as [_ _ _ Hc].
  { eapply (rtc_invariant resolver_step resolver_ok); [intros x y; apply resolver_ok_step|exact Hs|].
    split; cbn; [apply Cache.newClock_ok| |constructor|constructor]. intros k e. unfold Cache.lookup_val. cbn. by rewrite lookup_empty. }
  by apply (proj1 (Forall_forall _ _) Hc _ Hin).
Qed.

(** * What dialSerial tries *)

Lemma share_bounds deadline now left : (0 < left)%nat → now <= deadline →
  Z.min (2 * second) (deadline - now) <= share deadline now left <= deadline - now.
Proof.
  intros Hl Hd. unfold share. assert (0 <= Z.quot (deadline - now) (Z.of_nat left) <= deadline - now) as Hq.
  { rewrite Z.quot_div_nonneg by lia. split; [apply Z.div_pos; lia|]. apply Z.div_le_upper_bound; [lia|]. nia. }
  destruct (Z.ltb_spec (Z.quot (deadline - now) (Z.of_nat left)) (2 * second)); destruct (Z.ltb_spec 1 (Z.of_nat left)); cbn [andb]; try lia.
  assert (left = 1%nat) as -> by lia. rewrite Z.quot_1_r in *. lia.
Qed.

Section SerialFacts.
Context {conn err : Type} (dial : bytes → Z → Z → res err conn * Z) (ended : Z → bool).

(** What an attempt came to, and when it was over. *)
Definition outcome (a : bytes * Z * Z) : res err conn * Z := dial a.1.1 a.1.2 a.2.

Lemma dial_go_spec deadline now targets fe r l : dial_go dial ended deadline now targets fe = (r, l) →
  (fst ∘ fst) <$> l `prefix_of` targets ∧
  Forall (fun a => a.1.2 <= deadline → Z.min (2 * second) (deadline - a.1.2) <= a.2 <= deadline - a.1.2) l ∧
  match r with
  | Ok c => ∃ l0 a, l = l0 ++ [a] ∧ (outcome a).1 = Ok c ∧ Forall (fun a => ∃ e, (outcome a).1 = Err e) l0
  | Err e => Forall (fun a => ∃ e, (outcome a).1 = Err e) l ∧
      ((fst ∘ fst) <$> l = targets ∨ ∃ a, last l = Some a ∧ ended (outcome a).2 = true) ∧
      e = match fe with Some e => Some e | None => head l ≫= fun a => match (outcome a).1 with Err e => Some e | Ok _ => None end end
  end.
Proof.
  revert now fe r l. induction targets as [|t ts IH]; intros now fe r l; cbn [dial_go].
  { intros [= <- <-]. split_and!; [by apply prefix_nil|constructor|constructor|by left|by destruct fe]. }
  set (d := share deadline now (length (t :: ts))). intros H.
  assert (now <= deadline → Z.min (2 * second) (deadline - now) <= d <= deadline - now) as Hd by (intros; apply share_bounds; [cbn; lia|done]).
  destruct (dial t now d) as [[c|e] now'] eqn:Ed.
  - injection H as <- <-. split_and!; [by apply prefix_cons, prefix_nil|constructor; [exact Hd|constructor]|]. exists [], (t, now, d). split_and!; [done| |constructor].
    unfold outcome. cbn. by rewrite Ed.
  - assert ((outcome (t, now, d)).1 = Err e ∧ (outcome (t, now, d)).2 = now') as [Ho Hn] by (unfold outcome; cbn; by rewrite Ed).
    destruct (ended now') eqn:Ee.
    + injection H as <- <-. split_and!; [by apply prefix_cons, prefix_nil|constructor; [exact Hd|constructor]|constructor; [by eexists|constructor]| |].
      * right. exists (t, now, d). split; [done|]. by rewrite Hn.
      * cbn. rewrite Ho. by destruct fe.
    + destruct (dial_go dial ended deadline now' ts _) as [r' l'] eqn:Eg. injection H as <- <-. destruct (IH _ _ _ _ Eg) as (Hp & Hf & Hr).
      split_and!; [by apply prefix_cons|by constructor|]. destruct r' as [c|e'].
      * destruct Hr as (l0 & a & -> & Ha & Hl0). exists ((t, now, d) :: l0), a. split_and!; [done..|]. constructor; [by eexists|done].
      * destruct Hr as (Hl & Hend & He). split_and!; [constructor; [by eexists|done]| |].
        -- destruct Hend as [Hend|(a & Ha & Hend)]; [left; cbn; by rewrite Hend|right]. exists a. split; [|done]. destruct l'; [done|]. exact Ha.
        -- rewrite He. cbn. rewrite Ho. by destruct fe.
Qed.

(** [dialSerial] tries the addresses in order, each for no longer than is left
    and for two seconds at least where that much is left; it answers with the
    first that connects, and gives up only when all have failed or the context
    has ended, with the first failure. *)
Theorem dialSerial_in_order deadline now targets :
  let '(r, l) := dialSerial dial ended deadline now targets in
  (fst ∘ fst) <$> l `prefix_of` targets ∧
  Forall (fun a => a.1.2 <= deadline → Z.min (2 * second) (deadline - a.1.2) <= a.2 <= deadline - a.1.2) l ∧
  match r with
  | Ok c => ∃ l0 a, l = l0 ++ [a] ∧ (outcome a).1 = Ok c ∧ Forall (fun a => ∃ e, (outcome a).1 = Err e) l0
  | Err e => Forall (fun a => ∃ e, (outcome a).1 = Err e) l ∧
      ((fst ∘ fst) <$> l = targets ∨ ∃ a, last l = Some a ∧ ended (outcome a).2 = true) ∧
      e = head l ≫= (fun a => match (outcome a).1 with Err e => Some e | Ok _ => None end)
  end.
Proof. unfold dialSerial. destruct (dial_go dial ended deadline now targets None) as [r l] eqn:E. exact (dial_go_spec _ _ _ _ _ _ E). Qed.
End SerialFacts.

(** ** The families *)

Lemma sublist_fmap_mono {A B} (f : A → B) l k : l `sublist_of` k → f <$> l `sublist_of` f <$> k.
Proof. induction 1; cbn; by constructor. Qed.

(** Every address is tried, in one family or the other, each in the resolver's
    order, and the first address is the first tried. *)
Lemma families_split addrs port : let target := fun a => join_host_port (addr_string a) (itoa port) in
  (families addrs port).1 ++ (families addrs port).2 ≡ₚ target <$> addrs ∧
  (families addrs port).1 `sublist_of` target <$> addrs ∧ (families addrs port).2 `sublist_of` target <$> addrs ∧
  head (families addrs port).1 = target <$> head addrs.
Proof.
  intros target. destruct addrs as [|a0 addrs]; [done|]. unfold families. cbn zeta. set (f := fun a => eqb (is4 (unmap a)) (is4 (unmap a0))).
  set (l := a0 :: addrs). assert (filter (fun a => f a = true) l ++ filter (fun a => f a = false) l ≡ₚ l) as Hp.
  { clearbody l. induction l as [|a l IH]; [done|]. rewrite !filter_cons. destruct (f a).
    - rewrite decide_True, decide_False by done. cbn. by rewrite IH.
    - rewrite decide_False, decide_True by done. by rewrite <- Permutation_middle, IH. }
  cbn [fst snd]. split_and!.
  - rewrite <- fmap_app. by apply fmap_Permutation.
  - apply sublist_fmap_mono, sublist_filter.
  - apply sublist_fmap_mono, sublist_filter.
  - unfold l. rewrite filter_cons, decide_True; [done|]. unfold f. apply eqb_reflx.
Qed.

(** ** The race *)

Section RaceFacts.
Context {err : Type}.
Abbreviation race := (race (err := err)).
Abbreviation runner := (runner (err := err)).

(** Connections a goroutine still has, and the one handed over. *)
Definition in_hand (r : runner) : list nat := match r with Has (Ok c) => [c] | _ => [] end.
Definition returned (en : option (dial_end (err := err))) : list nat := match en with Some (Connected c) => [c] | _ => [] end.
Definition failure (r : runner) : option err := match r with Reported (Err e) => Some e | _ => None end.
Definition count_failed (r : runner) : nat := match failure r with Some _ => 1 | None => 0 end.
Definition weight (r : runner) : nat := match r with NotStarted => 4 | Dialing => 3 | Has _ => 2 | _ => 0 end.
Definition race_weight (s : race) : nat :=
  weight (ra_primary s) + weight (ra_fallback s) + (if ra_lag s then 1 else 0) + (if ra_ctx s then 0 else 1) + match ra_end s with None => 1 | _ => 0 end.

Record race_ok (s : race) : Prop := {
  ro_open : ra_open s ≡ₚ in_hand (ra_primary s) ++ in_hand (ra_fallback s) ++ returned (ra_end s);
  ro_fresh : Forall (fun c => (c < ra_next s)%nat) (ra_open s);
  ro_nodup : NoDup (ra_open s);
  ro_primary : ra_primary s ≠ NotStarted;
  ro_started : ra_started s = false ↔ ra_fallback s = NotStarted;
  ro_lag : ra_started s = true → ra_lag s = false ∨ is_Some (failure (ra_primary s));
  ro_first : ra_firstErr s = match failure (ra_primary s) with Some e => Some e | None => failure (ra_fallback s) end;
  ro_failures : ra_failures s = (count_failed (ra_primary s) + count_failed (ra_fallback s))%nat;
  ro_going : ra_end s = None → (ra_failures s < 2)%nat ∧ (is_Some (failure (ra_primary s)) → ra_started s = true) ∧
    (ra_lag s = false → ra_started s = true);
  ro_result : ra_end s = None → (∀ c, ra_primary s ≠ Reported (Ok c)) ∧ (∀ c, ra_fallback s ≠ Reported (Ok c));
  ro_discarded : ra_primary s = Discarded ∨ ra_fallback s = Discarded → ra_ctx s = true ∨ is_Some (ra_end s);
  ro_end : match ra_end s with
           | Some (FailedWith e) => ra_firstErr s = Some e ∧ (ra_ctx s = true ∨ is_Some (failure (ra_primary s)) ∧ is_Some (failure (ra_fallback s)))
           | Some OutOfTime => ra_ctx s = true
           | _ => True
           end;
}.

Lemma race_start_ok : race_ok race_start.
Proof. split; cbn; try done; try naive_solver; try (split; naive_solver); constructor. Qed.

Lemma close_perm (c : nat) l rest : NoDup l → l ≡ₚ c :: rest → filter (fun x => x ≠ c) l ≡ₚ rest.
Proof.
  intros Hn Hp. rewrite Hp in Hn. apply NoDup_cons in Hn as [Hc _]. rewrite Hp, filter_cons_False by naive_solver.
  clear Hp. induction rest as [|x rest IH]; [done|]. rewrite filter_cons_True by set_solver. rewrite IH by set_solver. done.
Qed.

Lemma closed_fresh (c n : nat) l : Forall (fun x => (x < n)%nat) l → Forall (fun x => (x < n)%nat) (filter (fun x => x ≠ c) l).
Proof. intros H. apply Forall_forall. intros y [_ Hy]%list_elem_of_filter. by apply (proj1 (Forall_forall _ _) H). Qed.

Lemma open_new nx op rest : Forall (fun c => (c < nx)%nat) op → NoDup op → op ≡ₚ rest →
  Forall (fun c => (c < S nx)%nat) (nx :: op) ∧ NoDup (nx :: op).
Proof.
  intros Hf Hn _. split; [constructor; [lia|]; eapply Forall_impl; [exact Hf|]; cbn; lia|]. apply NoDup_cons. split; [|done].
  intros Hin. apply (proj1 (Forall_forall _ _) Hf) in Hin. lia.
Qed.

Ltac race_case H1 := split; [|unfold race_weight; cbn; lia]; split; cbn in *; try done;
  match goal with
  | |- _ ≡ₚ _ => rewrite H1; cbn; rewrite ?Permutation_middle; done
  | |- _ => try solve [clear H1; intuition (congruence || lia || eauto) | unfold count_failed; match goal with E : failure _ = _ |- _ => by rewrite E end]
  end.

Lemma race_ok_step e s s' : race_ok s → race_step e s = Some s' → race_ok s' ∧ (race_weight s' < race_weight s)%nat.
Proof.
  intros [H1 H2 H3 H4 H5 H6 H7 H8 H9 H10 H11 H12]. destruct s as [a b lag st f fe ctx en op nx]. cbn in *.
  destruct e as [p failed| | | |p|p].
  - (* Answers *) destruct (open_new nx op _ H2 H3 H1) as [Hf Hn]. unfold runner_of. destruct p; cbn.
    + destruct a; try done. destruct failed; injection 1 as <-; race_case H1.
    + destruct b; try done. destruct failed; injection 1 as <-; race_case H1.
  - (* Deadline *) destruct ctx; [done|]. injection 1 as <-. split; [|unfold race_weight; cbn; lia].
    split; cbn in *; try done; [by left|]. destruct en as [[]|]; try done. destruct H12. split; [done|by left].
  - (* LoopDeadline *) destruct en; [done|]. destruct ctx; [|done]. injection 1 as <-. split; [|unfold race_weight; cbn; lia].
    split; cbn in *; try done; [by destruct fe|by left|]. destruct fe; [by split; [|left]|done].
  - (* LoopLag *) destruct en; [done|]. destruct lag; [|done]. unfold start_fallback. destruct st; injection 1 as <-; [race_case H1|].
    assert (b = NotStarted) as -> by (by apply H5). race_case H1.
  - (* Reports *) destruct en; [done|]. destruct (H9 eq_refl) as (Hlt & Hst & Hlag), (H10 eq_refl) as [Ha Hb].
    unfold runner_of. destruct p; cbn.
    + destruct a as [| |[c|x]| |]; try done.
      * injection 1 as <-. race_case H1.
      * unfold count_failed in H8. cbn in *. destruct (failure b) as [y|] eqn:Eb; subst f; cbn.
        -- injection 1 as <-. assert (b = Reported (Err y)) as -> by (by destruct b as [| | |[]|]; inversion Eb). cbn in *.
           race_case H1.
        -- unfold start_fallback. destruct st; injection 1 as <-; [race_case H1|]. assert (b = NotStarted) as -> by (by apply H5). race_case H1.
    + destruct b as [| |[c|x]| |]; try done.
      * injection 1 as <-. race_case H1.
      * unfold count_failed in H8. cbn in *. assert (st = true) as -> by (destruct st; [done|]; discriminate (proj1 H5 eq_refl)).
        destruct (failure a) as [y|] eqn:Ea; subst f fe; cbn.
        -- injection 1 as <-. assert (a = Reported (Err y)) as -> by (by destruct a as [| | |[]|]; inversion Ea). race_case H1.
        -- injection 1 as <-. race_case H1.
  - (* Discards *) destruct (ctx || _) eqn:Eo; [|done]. assert (ctx = true ∨ is_Some en) as Hd.
    { apply orb_true_iff in Eo as [?|?%bool_decide_eq_true]; auto. }
    unfold runner_of. destruct p; cbn.
    + destruct a as [| |[c|x]| |]; try done; injection 1 as <-.
      * assert (filter (fun y => y ≠ c) op ≡ₚ in_hand b ++ returned en) as Hp by (by apply close_perm).
        split; [|unfold race_weight; cbn; lia]. split; cbn in *; try done; try (by apply closed_fresh); try (by apply NoDup_filter);
          try (clear H1 Hp; intuition congruence).
      * race_case H1.
    + destruct b as [| |[c|x]| |]; try done; injection 1 as <-.
      * assert (filter (fun y => y ≠ c) op ≡ₚ in_hand a ++ returned en) as Hp by (apply close_perm; [done|]; by rewrite H1, Permutation_middle).
        split; [|unfold race_weight; cbn; lia]. split; cbn in *; try done; try (by apply closed_fresh); try (by apply NoDup_filter);
          try (clear H1 Hp; intuition congruence).
      * race_case H1.
Qed.
Lemma race_reached s : rtc race_moves race_start s → race_ok s.
Proof.
  intros Hs. eapply (rtc_invariant race_moves race_ok); [|exact Hs|apply race_start_ok]. intros x y Hx [e He]. by eapply race_ok_step.
Qed.

(** Somebody can always go on, until all is over. *)
Lemma runner_moves p (s : race) : (runner_of p s = Dialing → ∃ s', race_step (Answers p None) s = Some s') ∧
  (∀ r, runner_of p s = Has r → ra_end s = None → ∃ s', race_step (Reports p) s = Some s') ∧
  (∀ r, runner_of p s = Has r → is_Some (ra_end s) → ∃ s', race_step (Discards p) s = Some s').
Proof.
  destruct s as [a b lag st f fe ctx en op nx]. cbn [race_step ra_end]. split_and!.
  - intros ->. by eexists.
  - intros [c|x] -> ->; [by eexists|]. destruct (S f =? 2)%nat; [|by eexists]. destruct p; by eexists.
  - intros r -> [d ->]. rewrite orb_true_r. destruct r; by eexists.
Qed.

Lemma race_goes_on (s : race) : race_ok s → ra_end s = None → ra_ctx s = false → ∃ e s', e ≠ Deadline ∧ race_step e s = Some s'.
Proof.
  intros [H1 H2 H3 H4 H5 H6 H7 H8 H9 H10 H11 H12] He Hc.
  destruct (runner_moves true s) as (Hd & Hh & _), (runner_moves false s) as (Hd' & Hh' & _). cbn in Hd, Hh, Hd', Hh'.
  destruct (H9 He) as (Hlt & Hst & _), (H10 He) as [Ha Hb].
  assert (ra_primary s ≠ Discarded ∧ ra_fallback s ≠ Discarded) as [Hp Hf].
  { rewrite Hc, He in H11. split; intros Hx; (destruct H11 as [?|[? ?]]; [auto|done..]). }
  destruct (ra_primary s) as [| |r|[c|x]|] eqn:Ep; try done.
  - destruct (Hd eq_refl) as [s' ?]. by exists (Answers true None), s'.
  - destruct (Hh r eq_refl He) as [s' ?]. by exists (Reports true), s'.
  - by destruct (Ha c).
  - destruct (ra_fallback s) as [| |r|[c|y]|] eqn:Ef; try done.
    + assert (ra_started s = true) as Hs by (apply Hst; by eexists). rewrite (proj2 H5 eq_refl) in Hs. done.
    + destruct (Hd' eq_refl) as [s' ?]. by exists (Answers false None), s'.
    + destruct (Hh' r eq_refl He) as [s' ?]. by exists (Reports false), s'.
    + by destruct (Hb c).
    + cbn in H8. lia.
Qed.

(** C27: However the two families' attempts, the lag and the deadline
    interleave, [Dial] ends: each move takes it closer, there is always one
    until it has returned and both goroutines are over, and then the
    connection returned is open and every other one made is closed. The second
    family is tried only once the lag is over or the first has failed; an
    error is returned only when both have failed or time is up, and it is the
    preferred family's if that one has failed. *)
Theorem dial_race (s : race) : rtc race_moves race_start s →
  (∀ s', race_moves s s' → (race_weight s' < race_weight s)%nat) ∧
  ((∀ s', ¬ race_moves s s') → ∃ d, ra_end s = Some d ∧ ra_open s ≡ₚ returned (Some d)) ∧
  (ra_end s = None → ra_ctx s = false → ∃ e s', e ≠ Deadline ∧ race_step e s = Some s') ∧
  (∀ c, ra_end s = Some (Connected c) → c ∈ ra_open s) ∧
  (∀ e, ra_end s = Some (FailedWith e) →
     (ra_ctx s = true ∨ is_Some (failure (ra_primary s)) ∧ is_Some (failure (ra_fallback s))) ∧
     (∀ e', failure (ra_primary s) = Some e' → e = e')) ∧
  (ra_fallback s ≠ NotStarted → ra_lag s = false ∨ is_Some (failure (ra_primary s))).
Proof.
  intros Hs. pose proof (race_reached _ Hs) as Hok. pose proof Hok as [H1 H2 H3 H4 H5 H6 H7 H8 H9 H10 H11 H12]. split_and!.
  - intros s' [e He]. by eapply race_ok_step.
  - intros Hstuck. destruct (ra_end s) as [d|] eqn:He.
    + exists d. split; [done|]. rewrite H1.
      assert (∀ p, in_hand (runner_of p s) = []) as Hnone.
      { intros p. destruct (runner_moves p s) as (_ & _ & Hm). destruct (runner_of p s) as [| |r| |] eqn:Er; try done. exfalso.
        destruct (Hm r eq_refl) as [s' Hs']; [rewrite He; by eexists|]. apply (Hstuck s'). by eexists. }
      by rewrite (Hnone true : in_hand (ra_primary s) = []), (Hnone false : in_hand (ra_fallback s) = []).
    + exfalso. destruct (ra_ctx s) eqn:Ec.
      * destruct s as [a b lag st f fe ctx en op nx]. cbn in He, Ec. subst. eapply Hstuck. exists LoopDeadline. reflexivity.
      * destruct (race_goes_on s Hok He Ec) as (e & s' & _ & Hm). apply (Hstuck s'). by exists e.
  - by apply race_goes_on.
  - intros c Hc. rewrite H1, Hc. set_solver.
  - intros e He. rewrite He in H12. destruct H12 as [Hf Hw]. split; [done|]. intros e' Hp. rewrite H7, Hp in Hf. by injection Hf.
  - intros Hf. apply H6. destruct (ra_started s); [done|]. by destruct Hf; apply H5.
Qed.
End RaceFacts.

(** ** Witnesses *)

(** The first family fails fast, the second connects; the first address'
    connection comes too late in another run. *)
Definition demo_race (es : list event) : race (err := bytes) := default race_start (foldl (fun s e => s ≫= race_step e) (Some race_start) es).
Lemma demo_races es s : foldl (fun s e => s ≫= race_step e) (Some race_start) es = Some s → rtc race_moves (race_start (err := bytes)) s.
Proof.
  revert s. induction es as [|e es IH] using rev_ind; intros s; [intros [= <-]; apply rtc_refl|]. rewrite foldl_app. cbn.
  destruct (foldl _ _ es) as [s1|]; [|done]. cbn. intros He. eapply rtc_r; [by apply IH|]. by exists e.
Qed.
Definition demo_late : race (err := bytes) := demo_race [LoopLag; Answers false None; Answers true None; Reports false; Discards true].

Lemma demo_late_reached : rtc race_moves (race_start (err := bytes)) demo_late.
Proof. apply (demo_races [LoopLag; Answers false None; Answers true None; Reports false; Discards true]). vm_compute. reflexivity. Qed.
Lemma dial_race_witness : ra_end demo_late = Some (Connected 0) ∧ ra_open demo_late = [0%nat] ∧ 0%nat ∈ ra_open demo_late.
Proof.
  split; [vm_compute; reflexivity|]. split; [vm_compute; reflexivity|].
  destruct (dial_race demo_late demo_late_reached) as (_ & _ & _ & H & _). apply H. vm_compute. reflexivity.
Defined.

Definition demo_host : bytes := lit "db.lan".
Definition demo_addrs : list addr := [Addr4 [10; 0; 0; 5]].
Inductive demo_move := DCall (host : bytes) | DPass (to : Z) | DStep (i : nat).
Definition demo_do (s : resolver) (m : demo_move) : option resolver :=
  let 'mkResolver c now calls told := s in
  match m with
  | DCall host => Some (mkResolver c now (calls ++ [RStart host]) told)
  | DPass to => if now <=? to then Some (mkResolver c to calls told) else None
  | DStep i => resolve_step i (Some demo_addrs) false s
  end.
Lemma demo_does ms s s' : foldl (fun s m => s ≫= fun s => demo_do s m) (Some s) ms = Some s' → rtc resolver_step s s'.
Proof.
  revert s'. induction ms as [|m ms IH] using rev_ind; intros s'; [intros [= <-]; apply rtc_refl|]. rewrite foldl_app. cbn.
  destruct (foldl _ _ ms) as [s1|]; [|done]. cbn. intros He. eapply rtc_r; [by apply IH|]. destruct s1. destruct m; cbn [demo_do] in He.
  - injection He as <-. apply NewCall.
  - destruct (Z.leb_spec rs_now0 to); [|done]. injection He as <-. by apply Passes.
  - by eapply Resolves.
Qed.
Definition demo_dials : list demo_move :=
  [DCall demo_host; DStep 0; DStep 0; DStep 0; DPass (4 * second); DCall demo_host; DStep 1].
Definition demo_again : resolver := default (new_resolver 0) (foldl (fun s m => s ≫= fun s => demo_do s m) (Some (new_resolver 0)) demo_dials).
Lemma demo_resolved : rtc resolver_step (new_resolver 0) demo_again.
Proof. apply (demo_does demo_dials). vm_compute. reflexivity. Qed.
Lemma resolve_fresh_witness :
  RDone demo_host (Ok demo_addrs) (4 * second) ∈ rs_calls demo_again ∧
  ((∃ ip, parse_addr demo_host = Some ip ∧ demo_addrs = [ip]) ∨
   demo_addrs ≠ [] ∧ ∃ t, (demo_host, demo_addrs, t) ∈ rs_told demo_again ∧ t <= 4 * second < t + dnsCacheTTL).
Proof.
  assert (RDone demo_host (Ok demo_addrs) (4 * second) ∈ rs_calls demo_again) as Hin by (apply (list_elem_of_lookup_2 _ 1%nat); vm_compute; reflexivity).
  split; [exact Hin|]. exact (resolve_fresh 0 demo_again demo_host demo_addrs (4 * second) demo_resolved Hin).
Defined.
