(* ===== verification/Rotate.v ===== *)
(** Rotate: log files with numbered generations ([rotate.go]): a line written,
    the rotation before it, the compression beside it, and what the files then
    hold of what was written, whichever system calls fail on the way. *)

From S2P Require Import Prelude GoStr Rules Config.

(** * The files

    The disk holds the files of one logger, by name; a file that is there is
    found ([os.Stat]). *)
Record fs := mkFS { files : gmap bytes bytes; calls : nat; wrote : bytes }. (* calls so far; what the logger's writes took *)

(** [generationName] *)
Definition generationName (path : bytes) (n : Z) (gz : bool) : bytes :=
  path ++ lit "." ++ itoa n ++ if gz then lit ".gz" else [].

Definition exists_ (p : bytes) (s : fs) : bool := bool_decide (is_Some (files s !! p)).

(** Where the compressing goroutine is: at generation n, with its archive
    written aside, or with the archive in place. *)
Inductive gz_pc := GzNext (n : Z) | GzRename (n : Z) | GzRemove (n : Z).

(** [FileLogger]; [l_file]: the descriptor is open (on the file at [l_path]);
    [l_compressing]: the guard is held, and by whom. *)
Record FileLogger := mkFileLogger {
  l_cfg : LogConfig; l_path : bytes; l_file : bool; l_size : Z;
  l_compressing : option gz_pc; l_rotationFailed : bool;
}.
Definition with_file (l : FileLogger) (open : bool) (size : Z) : FileLogger :=
  mkFileLogger (l_cfg l) (l_path l) open size (l_compressing l) (l_rotationFailed l).
Definition with_guard (l : FileLogger) (g : option gz_pc) : FileLogger :=
  mkFileLogger (l_cfg l) (l_path l) (l_file l) (l_size l) g (l_rotationFailed l).
Definition with_failed (l : FileLogger) : FileLogger :=
  mkFileLogger (l_cfg l) (l_path l) (l_file l) (l_size l) (l_compressing l) true.

Section Rotate.
(* What goes wrong: [Some n] where the system call with this number fails, a
   write after n bytes. *)
Context (fault : nat → option nat).
Context (gzip : bytes → bytes).

Definition fails (s : fs) : bool := bool_decide (is_Some (fault (calls s))).
Definition done (s : fs) (m : gmap bytes bytes) : fs := mkFS m (S (calls s)) (wrote s).

Definition os_remove (p : bytes) (s : fs) : bool * fs :=
  if negb (exists_ p s) || fails s then (false, done s (files s)) else (true, done s (delete p (files s))).

Definition os_rename (a b : bytes) (s : fs) : bool * fs :=
  match files s !! a with
  | Some c => if fails s then (false, done s (files s)) else (true, done s (<[b := c]> (delete a (files s))))
  | None => (false, done s (files s))
  end.

(** [openAppend]: the size of what it opened. *)
Definition openAppend (p : bytes) (s : fs) : option Z * fs :=
  if fails s then (None, done s (files s))
  else let c := default [] (files s !! p) in (Some (len c), done s (<[p := c]> (files s))).

(** [OpenFileLogger] *)
Definition OpenFileLogger (path : bytes) (cfg : LogConfig) (s : fs) : option FileLogger * fs :=
  let '(size, s) := openAppend path s in
  ((fun size => mkFileLogger cfg path true size None false) <$> size, s).

(** * Rotation *)

(** One turn of the loop that shifts generations up. *)
Definition shift_one (path : bytes) (keep : Z) (g : Z * bool) (s : fs) : bool * fs :=
  let from := generationName path g.1 g.2 in
  if exists_ from s then
    if keep <=? g.1 then os_remove from s else os_rename from (generationName path (g.1 + 1) g.2) s
  else (true, s).

Fixpoint shift_all (path : bytes) (keep : Z) (l : list (Z * bool)) (s : fs) : bool * fs :=
  match l with
  | [] => (true, s)
  | g :: l => let '(ok, s) := shift_one path keep g s in if ok then shift_all path keep l s else (false, s)
  end.

(** The generations, oldest first. *)
Fixpoint oldest_first (n : nat) : list (Z * bool) :=
  match n with O => [] | S m => (Z.of_nat n, false) :: (Z.of_nat n, true) :: oldest_first m end.

(** [rotate] *)
Definition rotate (l : FileLogger) (s : fs) : bool * FileLogger * fs :=
  let keep := log_MaxKeep (l_cfg l) in
  let '(ok, s) := shift_all (l_path l) keep (oldest_first (Z.to_nat (Z.max keep 1))) s in
  if negb ok then (false, l, s)
  else
    let l := with_file l false (l_size l) in
    let '(ok, s) := if keep =? 0 then os_remove (l_path l) s
                    else os_rename (l_path l) (generationName (l_path l) 1 false) s in
    if negb ok then
      match openAppend (l_path l) s with
      | (Some size, s) => (false, with_file l true size, s)
      | (None, s) => (false, l, s)
      end
    else
      match openAppend (l_path l) s with
      | (None, s) => (false, with_file l false 0, s)
      | (Some size, s) =>
          let l := with_file l true size in
          if keep <=? log_CompressAfter (l_cfg l) then (true, l, s)
          else (true, with_guard l (Some (GzNext (log_CompressAfter (l_cfg l) + 1))), s)
      end.

(** One turn of the compressing goroutine. [gzipFile] writes its archive
    aside, which is one call here, then renames it; what it could not write
    or rename is removed again. *)
Definition compress_step (l : FileLogger) (s : fs) : FileLogger * fs :=
  let plain := fun n => generationName (l_path l) n false in
  let packed := fun n => generationName (l_path l) n true in
  let tmp := fun n => packed n ++ lit ".tmp" in
  match l_compressing l with
  | None => (l, s)
  | Some (GzNext n) =>
      if log_MaxKeep (l_cfg l) <? n then (with_guard l None, s)
      else match files s !! plain n with
           | None => (with_guard l (Some (GzNext (n + 1))), s)
           | Some c =>
               match fault (calls s) with
               | None => (with_guard l (Some (GzRename n)), done s (<[tmp n := gzip c]> (files s)))
               | Some k =>
                   let s := done s (<[tmp n := take k (gzip c)]> (files s)) in
                   (with_guard l (Some (GzNext (n + 1))), (os_remove (tmp n) s).2)
               end
           end
  | Some (GzRename n) =>
      let '(ok, s) := os_rename (tmp n) (packed n) s in
      if ok then (with_guard l (Some (GzRemove n)), s)
      else (with_guard l (Some (GzNext (n + 1))), (os_remove (tmp n) s).2)
  | Some (GzRemove n) => (with_guard l (Some (GzNext (n + 1))), (os_remove (plain n) s).2)
  end.

(** * Writing *)

(** [io.WriteString] to the file: whether it took the whole line. *)
Definition write_string (line : bytes) (l : FileLogger) (s : fs) : bool * FileLogger * fs :=
  if negb (l_file l) then (false, l, done s (files s))
  else
    let put := match fault (calls s) with None => line | Some k => take k line end in
    (negb (fails s), with_file l true (l_size l + len put),
     mkFS (<[l_path l := default [] (files s !! l_path l) ++ put]> (files s)) (S (calls s)) (wrote s ++ put)).

(** [WriteLine] *)
Definition WriteLine (line : bytes) (l : FileLogger) (s : fs) : bool * FileLogger * fs :=
  if (log_MaxSize (l_cfg l) <=? l_size l) && negb (bool_decide (is_Some (l_compressing l))) && negb (l_rotationFailed l) then
    let '(ok, l, s) := rotate l s in
    if ok then write_string line l s else (false, with_failed l, s)
  else write_string line l s.

Definition newline : Z := 10.

(** The chunk of [text] that [WriteLines] writes next. *)
Definition next_chunk (max size : Z) (text : bytes) : bytes :=
  let room := max - size in
  if (0 <? room) && (room <? len text) then
    match index_byte (drop (Z.to_nat (room - 1)) text) newline with
    | Some e => take (Z.to_nat room - 1 + e + 1) text
    | None => text
    end
  else if room <=? 0 then
    match index_byte text newline with Some e => take (e + 1) text | None => text end
  else text.

(** [WriteLines]: every chunk has a byte, so [fuel] bytes need no more turns. *)
Fixpoint WriteLines_go (fuel : nat) (text : bytes) (l : FileLogger) (s : fs) : bool * FileLogger * fs :=
  match fuel, text with
  | S fuel, _ :: _ =>
      let chunk := next_chunk (log_MaxSize (l_cfg l)) (l_size l) text in
      let '(ok, l, s) := WriteLine chunk l s in
      if ok then WriteLines_go fuel (drop (length chunk) text) l s else (false, l, s)
  | _, _ => (true, l, s)
  end.
Definition WriteLines (text : bytes) : FileLogger → fs → bool * FileLogger * fs := WriteLines_go (length text) text.

(** What happens to a logger: lines (whole batches of them too) written one
    after the other, the compressor's turns in between. *)
Inductive log_event := Line (b : bytes) | Compressing.
Definition log_turn (x : FileLogger * fs) (e : log_event) : FileLogger * fs :=
  match e with
  | Line b => let '(_, l, s) := WriteLine b x.1 x.2 in (l, s)
  | Compressing => compress_step x.1 x.2
  end.
Definition log_run : list log_event → FileLogger * fs → FileLogger * fs := fun es x => foldl log_turn x es.

(** The lines of a text, each with its newline. *)
Fixpoint lines (text : bytes) : list bytes :=
  match text with
  | [] => []
  | b :: text =>
      if b =? newline then [b] :: lines text
      else match lines text with [] => [[b]] | w :: ws => (b :: w) :: ws end
  end.

(** Writing them one by one. *)
Fixpoint write_each (ls : list bytes) (l : FileLogger) (s : fs) : bool * FileLogger * fs :=
  match ls with
  | [] => (true, l, s)
  | b :: ls => let '(ok, l, s) := WriteLine b l s in if ok then write_each ls l s else (false, l, s)
  end.

(** [generations]: what there is, newest first. *)
Definition generations (path : bytes) (maxN : nat) (s : fs) : list bytes :=
  filter (fun p => exists_ p s)
    (concat ((fun n => [generationName path n false; generationName path n true]) <$> seqZ 1 (Z.of_nat maxN))).

End Rotate.

(** * Names *)

Lemma itoa_inj n m : 0 <= n → 0 <= m → itoa n = itoa m → n = m.
Proof.
  intros Hn Hm He. unfold itoa in He. destruct (Z.ltb_spec n 0), (Z.ltb_spec m 0); try lia.
  destruct (utoa_spec n Hn) as (_ & _ & H1), (utoa_spec m Hm) as (_ & _ & H2). congruence.
Qed.

Lemma itoa_no_dot n : 0 <= n → ch "." ∉ itoa n.
Proof.
  intros Hn Hin. pose proof (itoa_digits n Hn) as H. rewrite Forall_forall in H. apply H in Hin. done.
Qed.

(** No digit is a dot, so a number ends where its dot is. *)
Lemma dot_split (a b k1 k2 : bytes) : ch "." ∉ a → ch "." ∉ b → a ++ ch "." :: k1 = b ++ ch "." :: k2 → a = b.
Proof.
  intros Ha Hb He. apply (f_equal (fun s => split_byte s (ch "."))) in He. rewrite !split_join_cons in He by done. by injection He.
Qed.
Lemma dot_never (a b k : bytes) : ch "." ∉ a → a ≠ b ++ ch "." :: k.
Proof. intros Ha ->. set_solver. Qed.

Section Names.
Context (path : bytes).

Lemma generationName_inj n m g h : 0 <= n → 0 <= m → generationName path n g = generationName path m h → n = m ∧ g = h.
Proof.
  intros Hn Hm He. unfold generationName in He. apply app_inv_head, app_inv_head in He.
  pose proof (itoa_no_dot n Hn) as Dn. pose proof (itoa_no_dot m Hm) as Dm.
  destruct g, h; rewrite ?app_nil_r in He.
  - apply (dot_split _ _ (lit "gz") (lit "gz")) in He; [|done..]. split; [by apply itoa_inj|done].
  - symmetry in He. by apply (dot_never _ _ (lit "gz")) in He.
  - by apply (dot_never _ _ (lit "gz")) in He.
  - split; [by apply itoa_inj|done].
Qed.

Lemma generationName_path n g : generationName path n g ≠ path.
Proof.
  unfold generationName. intros He. rewrite <- (app_nil_r path) in He at 2. apply app_inv_head in He. by destruct (itoa n).
Qed.

Lemma tmp_name n m g : 0 <= n → 0 <= m → generationName path n true ++ lit ".tmp" ≠ generationName path m g.
Proof.
  intros Hn Hm He. unfold generationName in He. rewrite <- !app_assoc in He. apply app_inv_head, app_inv_head in He.
  pose proof (itoa_no_dot n Hn) as Dn. pose proof (itoa_no_dot m Hm) as Dm. destruct g.
  - change (itoa n ++ ch "." :: lit "gz.tmp" = itoa m ++ ch "." :: lit "gz") in He.
    assert (itoa n = itoa m) as E by (by eapply dot_split). rewrite E in He. by apply app_inv_head in He.
  - rewrite app_nil_r in He. symmetry in He. by apply (dot_never _ _ (lit "gz.tmp")) in He.
Qed.

Lemma tmp_path n : generationName path n true ++ lit ".tmp" ≠ path.
Proof.
  unfold generationName. rewrite <- !app_assoc. intros He. rewrite <- (app_nil_r path) in He at 2. apply app_inv_head in He. by destruct (itoa n).
Qed.
End Names.

(** * What generations hold

    Each text ever rotated is a generation, oldest first in [G]; a slot (a
    number, plain or packed) holds one of them. A generation is in two slots
    where it was packed or shifted only in part. *)

Abbreviation slots := (Z → bool → option bytes).
Definition upd (f : slots) (n : Z) (g : bool) (v : option bytes) : slots :=
  fun k h => if decide ((k, h) = (n, g)) then v else f k h.
Definition retag (tag : Z → bool → nat) (n : Z) (g : bool) (t : nat) : Z → bool → nat :=
  fun k h => if decide ((k, h) = (n, g)) then t else tag k h.

Record tells (keep : Z) (f : slots) (tag : Z → bool → nat) (G : list bytes) : Prop := mkTells {
  t_text n g x : 1 <= n <= keep → f n g = Some x → G !! tag n g = Some x;
  t_order n g k h x y : 1 <= n → n < k <= keep → f n g = Some x → f k h = Some y → (tag k h <= tag n g)%nat;
  t_same n x y : 1 <= n <= keep → f n false = Some x → f n true = Some y → tag n false = tag n true;
  t_all i : (i < length G)%nat → ∃ n g x, 1 <= n <= keep ∧ f n g = Some x ∧ tag n g = i;
}.
Definition holds (keep : Z) (f : slots) (G : list bytes) : Prop := ∃ tag, tells keep f tag G.

Section Slots.
Context (keep : Z).
Implicit Types f : slots.

Lemma tells_ext f f' tag G : (∀ n g, 1 <= n <= keep → f n g = f' n g) → tells keep f tag G → tells keep f' tag G.
Proof.
  intros He [H1 H2 H3 H4]. split.
  - intros n g x Hn Hx. apply H1; [done|]. by rewrite He.
  - intros n g k h x y Hn Hk Hx Hy. apply (H2 n g k h x y); [done..| |]; by rewrite He by lia.
  - intros n x y Hn Hx Hy. apply (H3 n x y); [done| |]; by rewrite He.
  - intros i Hi. destruct (H4 i Hi) as (n & g & x & Hn & Hx & Ht). exists n, g, x. by rewrite <- He.
Qed.
Lemma holds_ext f f' G : (∀ n g, 1 <= n <= keep → f n g = f' n g) → holds keep f G → holds keep f' G.
Proof. intros He [tag Ht]. exists tag. by eapply tells_ext. Qed.

Ltac slot_cases :=
  unfold upd, retag in *; repeat (case_decide; simplify_eq/=); try done; try lia.

(** Taking away one of two. *)
Lemma holds_drop_copy f n g x y G : 1 <= n <= keep → f n g = Some x → f n (negb g) = Some y →
  holds keep f G → holds keep (upd f n g None) G.
Proof.
  intros Hn Hx Hy [tag [H1 H2 H3 H4]]. exists tag.
  assert (tag n g = tag n (negb g)) as Ht by (destruct g; cbn in *; [symmetry|]; by eapply H3).
  split; [intros k h; slot_cases; by apply H1|intros k h k' h'; slot_cases; by apply H2|intros k; slot_cases; by apply H3|].
  intros i Hi. destruct (H4 i Hi) as (k & h & z & Hk & Hz & Hi').
  destruct (decide ((k, h) = (n, g))) as [[= -> ->]|Hne].
  - exists n, (negb g), y. split; [done|]. split; [unfold upd; rewrite decide_False; [done|by destruct g]|congruence].
  - exists k, h, z. unfold upd. by rewrite decide_False.
Qed.

(** Taking away the oldest. *)
Lemma holds_drop_last f g G : 1 <= keep → holds keep f G →
  holds keep (upd f keep g None) G ∨ (f keep (negb g) = None ∧ holds keep (upd f keep g None) (drop 1 G)).
Proof.
  intros Hk HG. destruct (f keep g) as [x|] eqn:Hx.
  2: { left. eapply holds_ext; [|done]. intros n h Hn. slot_cases. }
  destruct (f keep (negb g)) as [y|] eqn:Hy; [left; by eapply (holds_drop_copy f keep g x y)|].
  destruct HG as [tag [H1 H2 H3 H4]].
  assert (∀ h z, f keep h = Some z → h = g) as Hg by (intros h z Hz; destruct h, g; cbn in *; congruence).
  assert (tag keep g = 0%nat) as H0.
  { destruct (H4 0%nat) as (n & h & z & Hn & Hz & Ht).
    - assert (is_Some (G !! tag keep g)) as ?%lookup_lt_is_Some by (eexists; apply H1; [lia|done]). lia.
    - destruct (decide (n = keep)) as [->|]; [by rewrite <- (Hg h z)|].
      pose proof (H2 n h keep g z x ltac:(lia) ltac:(lia) Hz Hx). lia. }
  destruct (decide (Exists (fun n => Exists (fun h => is_Some (f n h) ∧ tag n h = 0%nat) [false; true]) (seqZ 1 (keep - 1)))) as [He|He].
  - (* another slot holds it still *)
    left. exists tag. split; [intros k h; slot_cases; by apply H1|intros k h k' h'; slot_cases; by apply H2|intros k; slot_cases; by apply H3|].
    intros i Hi. destruct (H4 i Hi) as (n & h & z & Hn & Hz & Ht).
    destruct (decide ((n, h) = (keep, g))) as [[= -> ->]|Hne]; [|exists n, h, z; unfold upd; by rewrite decide_False].
    apply Exists_exists in He as (n & Hin & He). apply elem_of_seqZ in Hin. apply Exists_exists in He as (h & _ & [z' Hz'] & Hn0).
    exists n, h, z'. unfold upd. rewrite decide_False by (intros [= -> _]; lia). split; [lia|]. split; [done|congruence].
  - right. split; [done|].
    assert (∀ n h z, 1 <= n <= keep → (n, h) ≠ (keep, g) → f n h = Some z → (0 < tag n h)%nat) as Hpos.
    { intros n h z Hn Hne Hz. destruct (decide (n = keep)) as [->|]; [by rewrite (Hg h z) in Hne|].
      destruct (decide (tag n h = 0%nat)) as [H|]; [|lia]. exfalso. apply He. apply Exists_exists. exists n.
      split; [apply elem_of_seqZ; lia|]. apply Exists_exists. exists h. split; [destruct h; set_solver|by eauto]. }
    exists (fun n h => pred (tag n h)). split.
    + intros n h z Hn. slot_cases. intros Hz. rewrite lookup_drop. replace (1 + pred (tag n h))%nat with (tag n h) by (pose proof (Hpos n h z); naive_solver lia). by apply H1.
    + intros n h n' h' z z'. slot_cases. intros Hn Hn' Hz Hz'. pose proof (H2 n h n' h' z z' Hn Hn' Hz Hz'). lia.
    + intros n z z'. slot_cases. intros Hn Hz Hz'. by rewrite (H3 n z z').
    + intros i Hi. rewrite length_drop in Hi. destruct (H4 (S i)) as (n & h & z & Hn & Hz & Ht); [lia|].
      exists n, h, z. assert ((n, h) ≠ (keep, g)) by (intros [= -> ->]; lia).
      unfold upd. rewrite decide_False by done. split; [done|]. split; [done|]. by rewrite Ht.
Qed.

(** Moving one up, beside nothing else than its own copy. *)
Lemma tells_move f tag n g x G : 1 <= n → n + 1 <= keep → f n g = Some x → f (n + 1) g = None →
  (∀ y, f (n + 1) (negb g) = Some y → tag (n + 1) (negb g) = tag n g) →
  tells keep f tag G → tells keep (upd (upd f n g None) (n + 1) g (Some x)) (retag tag (n + 1) g (tag n g)) G.
Proof.
  intros Hn Hk Hx Hfree Hcopy [H1 H2 H3 H4].
  assert (∀ y, f n (negb g) = Some y → tag n (negb g) = tag n g) as Hs.
  { intros y Hy. destruct g; cbn in *; [|symmetry]; (eapply H3; [lia|done..]). }
  split.
  - intros k h z Hkk. slot_cases; [intros [= <-]; apply H1; [lia|done]|by apply H1].
  - intros k h k' h' z z' Hkk Hkk'. slot_cases.
    + intros _ Hz'. apply (H2 n g k' h' x z'); [lia..|done|done].
    + intros Hz _. destruct (decide (k = n)) as [->|]; [|apply (H2 k h n g z x); [lia..|done|done]].
      assert (h = negb g) as -> by (destruct h, g; cbn; congruence). by rewrite (Hs z).
    + by apply H2.
  - intros k z z' Hkk. slot_cases; try (by apply H3).
    + intros _ Hz'. symmetry. by apply (Hcopy z').
    + intros Hz _. by apply (Hcopy z).
  - intros i Hi. destruct (H4 i Hi) as (k & h & z & Hkk & Hz & Ht). destruct (decide ((k, h) = (n, g))) as [[= -> ->]|Hne].
    + exists (n + 1), g, x. unfold upd, retag. rewrite !decide_True by done. split; [lia|done].
    + exists k, h, z. assert ((k, h) ≠ (n + 1, g)) by congruence. unfold upd, retag. rewrite !decide_False by done. done.
Qed.

(** A copy beside the other. *)
Lemma holds_copy f n x G : 1 <= n <= keep → f n false = Some x →
  holds keep f G → holds keep (upd f n true (Some x)) G.
Proof.
  intros Hn Hx [tag [H1 H2 H3 H4]]. exists (retag tag n true (tag n false)). split.
  - intros k h z Hkk. slot_cases; [intros [= <-]; by apply H1|by apply H1].
  - intros k h k' h' z z' Hkk Hkk'. slot_cases; [intros _ Hz'; by apply (H2 n false k' h' x z')|intros Hz _; by apply (H2 k h n false z x)|by apply H2].
  - intros k z z' Hkk. slot_cases. by apply H3.
  - intros i Hi. destruct (H4 i Hi) as (k & h & z & Hkk & Hz & Ht). destruct (decide ((k, h) = (n, true))) as [[= -> ->]|Hne].
    + exists n, false, x. unfold upd, retag. rewrite !decide_False by done. split; [done|]. split; [done|]. rewrite <- Ht. by eapply H3.
    + exists k, h, z. unfold upd, retag. by rewrite !decide_False.
Qed.

(** A new one. *)
Lemma holds_newest f x G : 1 <= keep → (∀ g, f 1 g = None) → holds keep f G → holds keep (upd f 1 false (Some x)) (G ++ [x]).
Proof.
  intros Hk Hfree [tag [H1 H2 H3 H4]]. exists (retag tag 1 false (length G)).
  assert (∀ k h z, 1 <= k <= keep → f k h = Some z → (tag k h < length G)%nat) as Hlt.
  { intros k h z Hkk Hz. apply lookup_lt_is_Some. eexists. by apply H1. }
  split.
  - intros k h z Hkk. slot_cases; [intros [= <-]; by rewrite list_lookup_middle|]. intros Hz. rewrite lookup_app_l by (by eapply Hlt). by apply H1.
  - intros k h k' h' z z' Hkk Hkk'. slot_cases; [intros _ Hz'; pose proof (Hlt k' h' z'); naive_solver lia|by apply H2].
  - intros k z z' Hkk. slot_cases; [by rewrite Hfree|by apply H3].
  - intros i. rewrite length_app. cbn. intros Hi. destruct (decide (i = length G)) as [->|].
    + exists 1, false, x. unfold upd, retag. by rewrite !decide_True.
    + destruct (H4 i) as (k & h & z & Hkk & Hz & Ht); [lia|]. exists k, h, z.
      assert ((k, h) ≠ (1, false)) by (intros [= -> ->]; by rewrite Hfree in Hz). unfold upd, retag. by rewrite !decide_False.
Qed.
End Slots.

(** * The files of a logger *)

Section Kept.
Context (fault : nat → option nat) (gzip gunzip : bytes → bytes).
Hypothesis gunzip_gzip : ∀ c, gunzip (gzip c) = c.
Context (path : bytes).

(** What a generation's file says. *)
Definition text_of (g : bool) (c : bytes) : bytes := if g then gunzip c else c.
Definition slot (m : gmap bytes bytes) : slots := fun n g => text_of g <$> m !! generationName path n g.

Lemma slot_delete m n g k h : 0 <= n → 0 <= k → slot (delete (generationName path n g) m) k h = upd (slot m) n g None k h.
Proof.
  intros Hn Hk. unfold slot, upd. case_decide; simplify_eq; [by rewrite lookup_delete_eq|].
  rewrite lookup_delete_ne; [done|]. intros [-> ->]%generationName_inj; [done..].
Qed.

Lemma slot_insert m n g c k h : 0 <= n → 0 <= k →
  slot (<[generationName path n g := c]> m) k h = upd (slot m) n g (Some (text_of g c)) k h.
Proof.
  intros Hn Hk. unfold slot, upd. case_decide; simplify_eq; [by rewrite lookup_insert_eq|].
  rewrite lookup_insert_ne; [done|]. intros [-> ->]%generationName_inj; [done..].
Qed.

Lemma slot_other m p k h : (∀ k h, 0 <= k → generationName path k h ≠ p) → 0 <= k →
  (∀ c, slot (<[p := c]> m) k h = slot m k h) ∧ slot (delete p m) k h = slot m k h.
Proof.
  intros Hp Hk. unfold slot. split; [intros c; rewrite lookup_insert_ne; [done|]|rewrite lookup_delete_ne; [done|]]; by apply not_eq_sym, Hp.
Qed.

Lemma slot_path m k h : 0 <= k → (∀ c, slot (<[path := c]> m) k h = slot m k h) ∧ slot (delete path m) k h = slot m k h.
Proof. apply slot_other. intros. apply generationName_path. Qed.

Lemma slot_tmp m n k h : 0 <= n → 0 <= k →
  (∀ c, slot (<[generationName path n true ++ lit ".tmp" := c]> m) k h = slot m k h) ∧
  slot (delete (generationName path n true ++ lit ".tmp") m) k h = slot m k h.
Proof. intros Hn. apply slot_other. intros k' h' Hk'. by apply not_eq_sym, tmp_name. Qed.

(** Nothing but generations moved between [s] and [s']. *)
Definition aside (s s' : fs) : Prop := files s' !! path = files s !! path ∧ wrote s' = wrote s.
#[local] Instance aside_trans : Transitive aside.
Proof. intros s1 s2 s3 [H1 H2] [H3 H4]. split; congruence. Qed.

Context (keep : Z).

(** One turn of the loop: what it leaves in its two slots. *)
Lemma shift_one_spec n g s : 1 <= n <= keep →
  let r := shift_one fault path keep (n, g) s in
  aside s r.2 ∧
  ((r.1 = false ∧ files r.2 = files s) ∨
   (r.1 = true ∧ slot (files s) n g = None ∧ files r.2 = files s) ∨
   (r.1 = true ∧ n = keep ∧ files r.2 = delete (generationName path n g) (files s)) ∨
   ∃ c, r.1 = true ∧ n < keep ∧ files s !! generationName path n g = Some c ∧
     files r.2 = <[generationName path (n + 1) g := c]> (delete (generationName path n g) (files s))).
Proof.
  intros Hn. cbn zeta. unfold shift_one. cbn [fst snd]. unfold exists_.
  destruct (files s !! generationName path n g) as [c|] eqn:E.
  - rewrite bool_decide_true by by eexists. destruct (Z.leb_spec keep n) as [Hk|Hk].
    + unfold os_remove, exists_. rewrite E, bool_decide_true by by eexists. cbn [negb orb].
      destruct (fails fault s); cbn; [split; [done|by left]|]. split; [|right; right; left; split_and!; [done|lia|done]].
      split; [cbn; by rewrite lookup_delete_ne by apply generationName_path|done].
    + unfold os_rename. rewrite E. destruct (fails fault s); cbn; [split; [done|by left]|].
      split; [|right; right; right; exists c; done].
      split; [cbn; by rewrite lookup_insert_ne, lookup_delete_ne by apply generationName_path|done].
  - rewrite bool_decide_false by (by intros [? ?]). cbn. split; [done|]. right; left. split; [done|]. split; [|done]. unfold slot. by rewrite E.
Qed.

(** A turn below the last generation. *)
Lemma shift_turn n g s tag G : 1 <= n < keep → tells keep (slot (files s)) tag G → slot (files s) (n + 1) g = None →
  (∀ x y, slot (files s) n g = Some x → slot (files s) (n + 1) (negb g) = Some y → tag (n + 1) (negb g) = tag n g) →
  let r := shift_one fault path keep (n, g) s in
  aside s r.2 ∧ (r.1 = true → slot (files r.2) n g = None) ∧
  ∃ tag', tells keep (slot (files r.2)) tag' G ∧
    (∀ k h, 0 <= k → (k, h) ≠ (n, g) → (k, h) ≠ (n + 1, g) → slot (files r.2) k h = slot (files s) k h ∧ tag' k h = tag k h) ∧
    (∀ y, slot (files r.2) (n + 1) g = Some y → slot (files s) n g = Some y ∧ tag' (n + 1) g = tag n g).
Proof.
  intros Hn Ht Hfree Hcopy. cbn zeta.
  destruct (shift_one_spec n g s ltac:(lia)) as [Ha Hr]. destruct (shift_one fault path keep (n, g) s) as [ok s1]. cbn [fst snd] in *.
  split; [done|]. destruct Hr as [[-> ->]|[(-> & Hno & ->)|[(-> & ? & _)|(c & -> & _ & Hc & He)]]]; [| |lia|].
  - split; [done|]. exists tag. split; [done|]. split; [done|]. intros y Hy. by rewrite Hfree in Hy.
  - split; [done|]. exists tag. split; [done|]. split; [done|]. intros y Hy. by rewrite Hfree in Hy.
  - assert (slot (files s) n g = Some (text_of g c)) as Hs by (unfold slot; by rewrite Hc).
    assert (∀ k h, 0 <= k → slot (files s1) k h = upd (upd (slot (files s)) n g None) (n + 1) g (Some (text_of g c)) k h) as Hf.
    { intros k h Hk. rewrite He, slot_insert by lia. unfold upd at 1 2. case_decide; [done|]. by rewrite slot_delete by lia. }
    split; [intros _; rewrite Hf by lia; unfold upd; rewrite decide_False by (intros [= ?]; lia); by rewrite decide_True|].
    exists (retag tag (n + 1) g (tag n g)). split; [|split].
    + eapply tells_ext; [|eapply tells_move]; [|lia|lia|done|done|intros y; by apply (Hcopy _ y Hs)|done]. intros k h Hk. by rewrite Hf by lia.
    + intros k h Hk Hne Hne'. rewrite Hf by lia. unfold upd, retag. by rewrite !decide_False.
    + intros y. rewrite Hf by lia. unfold upd, retag. rewrite !decide_True by done. intros [= <-]. done.
Qed.

(** A generation's two turns below the last. *)
Lemma shift_below n s G : 1 <= n < keep → holds keep (slot (files s)) G → (∀ g, slot (files s) (n + 1) g = None) →
  let r1 := shift_one fault path keep (n, false) s in
  let r := if r1.1 then shift_one fault path keep (n, true) r1.2 else r1 in
  aside s r.2 ∧ holds keep (slot (files r.2)) G ∧ (r.1 = true → ∀ g, slot (files r.2) n g = None).
Proof.
  intros Hn [tag Ht] Hfree. cbn zeta.
  destruct (shift_turn n false s tag G Hn Ht (Hfree _)) as (Ha & Hgone & tag1 & Ht1 & Hsame & Hmoved).
  { intros x y _ Hy. by rewrite Hfree in Hy. }
  destruct (shift_one fault path keep (n, false) s) as [[] s1]; cbn [fst snd] in *; [|split; [done|]; split; [by exists tag1|done]].
  destruct (Hsame n true) as [Es1 Et1]; [lia|congruence..|]. destruct (Hsame (n + 1) true) as [Es2 _]; [lia|intros [= ?]; lia|congruence|].
  destruct (shift_turn n true s1 tag1 G Hn Ht1) as (Ha2 & Hgone2 & tag2 & Ht2 & Hsame2 & _).
  { by rewrite Es2. }
  { cbn [negb]. intros x y Hx Hy. rewrite Es1 in Hx. apply Hmoved in Hy as [Hy ->]. rewrite Et1. apply (t_same _ _ _ _ Ht n y x); [lia|done..]. }
  destruct (shift_one fault path keep (n, true) s1) as [ok s2]. cbn [fst snd] in *.
  split; [by etrans|]. split; [by exists tag2|]. intros Hok g. destruct g; [by apply Hgone2|].
  destruct (Hsame2 n false) as [-> _]; [lia|congruence|intros [= ?]; lia|]. by apply Hgone.
Qed.

(** The last generation's two turns. *)
Lemma shift_last s G : 1 <= keep → holds keep (slot (files s)) G →
  let r1 := shift_one fault path keep (keep, false) s in
  let r := if r1.1 then shift_one fault path keep (keep, true) r1.2 else r1 in
  aside s r.2 ∧ (holds keep (slot (files r.2)) G ∨ holds keep (slot (files r.2)) (drop 1 G)) ∧
  (r.1 = true → ∀ g, slot (files r.2) keep g = None).
Proof.
  intros Hk HG. cbn zeta.
  assert (∀ g s G, holds keep (slot (files s)) G → let r := shift_one fault path keep (keep, g) s in
    aside s r.2 ∧ (r.1 = true → slot (files r.2) keep g = None) ∧ slot (files r.2) keep (negb g) = slot (files s) keep (negb g) ∧
    (holds keep (slot (files r.2)) G ∨ (slot (files s) keep (negb g) = None ∧ slot (files r.2) keep g = None ∧ holds keep (slot (files r.2)) (drop 1 G)))) as Hturn.
  { clear s G HG. intros g s G HG. cbn zeta. destruct (shift_one_spec keep g s ltac:(lia)) as [Ha Hr].
    destruct (shift_one fault path keep (keep, g) s) as [ok s1]. cbn [fst snd] in *. split; [done|].
    destruct Hr as [[-> ->]|[(-> & Hno & ->)|[(-> & _ & He)|(c & _ & ? & _)]]]; [split; [done|]; split; [done|by left]..| |lia].
    assert (∀ k h, 0 <= k → slot (files s1) k h = upd (slot (files s)) keep g None k h) as Hf by (intros; rewrite He; apply slot_delete; lia).
    assert (slot (files s1) keep g = None) as Hgone by (rewrite Hf by lia; unfold upd; by rewrite decide_True).
    split; [done|]. split; [rewrite Hf by lia; unfold upd; rewrite decide_False by (by destruct g); done|].
    destruct (holds_drop_last keep _ g G Hk HG) as [H|[Hn H]]; [left|right; split_and!; [done..|]];
      (eapply holds_ext; [|exact H]); intros; by rewrite Hf by lia. }
  destruct (Hturn false s G HG) as (Ha & Hgone & Hother & Hh). destruct (shift_one fault path keep (keep, false) s) as [[] s1]; cbn [fst snd negb] in *.
  2: { split; [done|]. split; [|done]. destruct Hh as [?|(_ & _ & ?)]; tauto. }
  destruct Hh as [Hh|(Hnone & _ & Hh)].
  - destruct (Hturn true s1 G Hh) as (Ha2 & Hgone2 & Hother2 & Hh2). destruct (shift_one fault path keep (keep, true) s1) as [ok s2]. cbn [fst snd negb] in *.
    split; [by etrans|]. split; [destruct Hh2 as [?|(_ & _ & ?)]; tauto|]. intros Hok []; [by apply Hgone2|]. rewrite Hother2. by apply Hgone.
  - destruct (Hturn true s1 _ Hh) as (Ha2 & Hgone2 & Hother2 & _).
    assert (slot (files s1) keep true = None) as Hno by congruence.
    assert (files (shift_one fault path keep (keep, true) s1).2 = files s1) as Hsame.
    { unfold shift_one, exists_. cbn [fst snd]. unfold slot in Hno. apply fmap_None in Hno. rewrite Hno, bool_decide_false by (by intros [? ?]). done. }
    destruct (shift_one fault path keep (keep, true) s1) as [ok s2]. cbn [fst snd negb] in *.
    split; [by etrans|]. rewrite Hsame in *. split; [by right|]. intros Hok []; [done|by apply Hgone].
Qed.

(** All of them. *)
Lemma shift_all_spec n s G : 1 <= keep → Z.of_nat n <= keep → holds keep (slot (files s)) G →
  (Z.of_nat n < keep → ∀ g, slot (files s) (Z.of_nat n + 1) g = None) →
  let r := shift_all fault path keep (oldest_first n) s in
  aside s r.2 ∧ (holds keep (slot (files r.2)) G ∨ (Z.of_nat n = keep ∧ holds keep (slot (files r.2)) (drop 1 G))) ∧
  (r.1 = true → ∀ g, slot (files r.2) 1 g = None).
Proof.
  intros Hk. revert s G. induction n as [|n IH]; intros s G Hn HG Hfree; cbn zeta.
  { cbn [oldest_first shift_all fst snd]. split; [done|]. split; [by left|]. intros _ g. apply (Hfree ltac:(lia)). }
  cbn [oldest_first shift_all]. destruct (decide (Z.of_nat (S n) = keep)) as [Heq|Hne].
  - rewrite Heq in *. destruct (shift_last s G Hk HG) as (Ha & Hh & Hgone).
    destruct (shift_one fault path keep (keep, false) s) as [[] s1]; cbn [fst snd] in *; [|split; [done|]; split; [destruct Hh; tauto|done]].
    destruct (shift_one fault path keep (keep, true) s1) as [[] s2]; cbn [fst snd] in *; [|split; [done|]; split; [destruct Hh; tauto|done]].
    destruct Hh as [Hh|Hh]; (destruct (IH s2 _ ltac:(lia) Hh) as (Ha2 & Hh2 & Hfin); [intros _ g; replace (Z.of_nat n + 1) with keep by lia; by apply Hgone|]);
      (split; [by etrans|]; split; [|done]); destruct Hh2 as [?|[? _]]; [tauto|lia|tauto|lia].
  - destruct (shift_below (Z.of_nat (S n)) s G ltac:(lia) HG (Hfree ltac:(lia))) as (Ha & Hh & Hgone).
    destruct (shift_one fault path keep (Z.of_nat (S n), false) s) as [[] s1]; cbn [fst snd] in *; [|split; [done|]; split; [tauto|done]].
    destruct (shift_one fault path keep (Z.of_nat (S n), true) s1) as [[] s2]; cbn [fst snd] in *; [|split; [done|]; split; [tauto|done]].
    destruct (IH s2 G ltac:(lia) Hh) as (Ha2 & Hh2 & Hfin); [intros _ g; replace (Z.of_nat n + 1) with (Z.of_nat (S n)) by lia; by apply Hgone|].
    split; [by etrans|]. split; [|done]. destruct Hh2 as [?|[? _]]; [tauto|lia].
Qed.

(** * The logger *)

Context (cfg : LogConfig).
Hypothesis keep_cfg : log_MaxKeep cfg = keep.
Hypothesis keep_nonneg : 0 <= keep.
Hypothesis after_nonneg : 0 <= log_CompressAfter cfg.

(** What the compressor has on disk where it is. *)
Definition packing (g : option gz_pc) (m : gmap bytes bytes) : Prop :=
  match g with
  | Some (GzNext n) => 1 <= n
  | Some (GzRename n) => 1 <= n <= keep ∧ ∃ c, m !! generationName path n false = Some c ∧ m !! (generationName path n true ++ lit ".tmp") = Some (gzip c)
  | Some (GzRemove n) => 1 <= n <= keep ∧ ∃ c z, m !! generationName path n false = Some c ∧ m !! generationName path n true = Some z
  | None => True
  end.

(** [R]: what was rotated away, and how many generations are gone since. *)
Record kept (G0 : list bytes) (live0 : bytes) (l : FileLogger) (s : fs) (R : list bytes) (k : nat) : Prop := mkKept {
  k_path : l_path l = path;
  k_cfg : l_cfg l = cfg;
  k_holds : holds keep (slot (files s)) (drop k (G0 ++ R));
  k_wrote : live0 ++ wrote s = concat R ++ default [] (files s !! path);
  k_few : (k <= length R + if l_rotationFailed l then 1 else 0)%nat;
  k_some : (k <= length (G0 ++ R))%nat;
  k_big : Forall (fun r => log_MaxSize cfg <= len r) R;
  k_size : l_file l = true → l_size l = len (default [] (files s !! path));
  k_open : l_file l = false → l_rotationFailed l = true;
  k_packing : packing (l_compressing l) (files s);
}.

Lemma packing_path g m c : packing g m → packing g (<[path := c]> m).
Proof.
  destruct g as [[n|n|n]|]; cbn; [done|..|done]; intros [Hn H]; (split; [done|]);
    destruct H as (x & H); rewrite ?lookup_insert_ne by (apply not_eq_sym; first [apply tmp_path|apply generationName_path]); eauto.
Qed.

Lemma write_string_kept G0 live0 line l s R k : kept G0 live0 l s R k →
  let r := write_string fault line l s in kept G0 live0 r.1.2 r.2 R k.
Proof.
  intros [H1 H2 H3 H4 H5 H6 H7 H8 H9 H10]. cbn zeta. unfold write_string. destruct (l_file l) eqn:Ef; cbn [negb fst snd]; [|constructor; cbn; try done; [congruence|by intros _; apply H9]].
  set (put := match fault (calls s) with None => line | Some k => take k line end). rewrite H1.
  split; cbn; rewrite ?lookup_insert_eq; cbn; try done.
  - eapply holds_ext; [|exact H3]. intros n g Hn. symmetry. apply slot_path; lia.
  - by rewrite app_assoc, H4, app_assoc.
  - intros _. rewrite (H8 eq_refl), len_app. done.
  - by apply packing_path.
Qed.

(** Before the file itself is moved. *)
Lemma shift_kept G0 live0 l s R k : kept G0 live0 l s R k → l_rotationFailed l = false →
  let r := shift_all fault path keep (oldest_first (Z.to_nat (Z.max keep 1))) s in
  aside s r.2 ∧ (r.1 = true → ∀ g, 1 <= keep → slot (files r.2) 1 g = None) ∧
  ∃ k', (k' <= S (length R))%nat ∧ (k' <= length (G0 ++ R))%nat ∧ holds keep (slot (files r.2)) (drop k' (G0 ++ R)).
Proof.
  intros [H1 H2 H3 H4 H5 H6 H7 H8 H9 H10] Hnf. rewrite Hnf in H5. cbn zeta. destruct (decide (keep = 0)) as [E0|Hne].
  - rewrite E0 in *. change (Z.to_nat (Z.max 0 1)) with 1%nat.
    assert (∀ n l s, aside s (shift_all fault path 0 ((fun g => (Z.of_nat (S n), g)) <$> l) s).2) as Ha.
    { intros n l'. induction l' as [|g l' IH]; intros s'; [done|]. cbn [fmap list_fmap shift_all].
      assert (aside s' (shift_one fault path 0 (Z.of_nat (S n), g) s').2) as Ha.
      { unfold shift_one. cbn [fst snd]. destruct (exists_ _ _); [|done]. rewrite (proj2 (Z.leb_le 0 _)) by lia.
        unfold os_remove. destruct (_ || _); [done|]. split; [|done]. cbn. by rewrite lookup_delete_ne by apply generationName_path. }
      destruct (shift_one _ _ _ _ _) as [[] s1]; [|done]. cbn [snd] in Ha. etrans; [exact Ha|apply IH]. }
    split; [apply (Ha 0%nat [false; true])|]. split; [lia|]. exists k. split; [lia|]. split; [done|].
    destruct H3 as [tag Ht]. exists tag. split; try (intros; lia). intros i Hi.
    destruct (t_all _ _ _ _ Ht i Hi) as (? & ? & ? & ? & _). lia.
  - replace (Z.max keep 1) with keep by lia.
    destruct (shift_all_spec (Z.to_nat keep) s (drop k (G0 ++ R)) ltac:(lia) ltac:(lia) H3 ltac:(lia)) as (Ha & Hh & Hg).
    split; [done|]. split; [by auto|]. destruct Hh as [Hh|[_ Hh]]; [exists k; split_and!; [lia|done..]|].
    rewrite drop_drop in Hh. destruct (decide (k = length (G0 ++ R))) as [->|].
    + exists (length (G0 ++ R)). split; [lia|]. split; [done|]. rewrite drop_ge by lia. by rewrite drop_ge in Hh by lia.
    + exists (k + 1)%nat. split; [lia|]. split; [lia|done].
Qed.

Lemma openAppend_spec p s :
  let r := openAppend fault p s in
  wrote r.2 = wrote s ∧ default [] (files r.2 !! p) = default [] (files s !! p) ∧
  match r.1 with Some size => size = len (default [] (files r.2 !! p)) ∧ ∃ c, files r.2 = <[p := c]> (files s) | None => files r.2 = files s end.
Proof.
  cbn zeta. unfold openAppend. destruct (fails fault s); cbn; [done|]. rewrite lookup_insert_eq. cbn. eauto.
Qed.

(** The live file given a number, or removed where none is kept. *)
Lemma rotated_holds G0 R k m live : (k <= S (length R))%nat → (k <= length (G0 ++ R))%nat →
  (keep = 0 → G0 = []) → holds keep (slot m) (drop k (G0 ++ R)) → (1 <= keep → ∀ g, slot m 1 g = None) →
  ∃ k', (k' <= length (R ++ [live]))%nat ∧ (k' <= length (G0 ++ R ++ [live]))%nat ∧
    holds keep (slot (if keep =? 0 then delete path m else <[generationName path 1 false := live]> (delete path m))) (drop k' (G0 ++ R ++ [live])).
Proof.
  intros Hk Hk2 H0 Hh Hfree. rewrite !length_app. cbn. destruct (Z.eqb_spec keep 0) as [E|E].
  - exists (S (length R)). rewrite (H0 E). cbn. split_and!; [lia..|]. rewrite drop_ge by (rewrite length_app; cbn; lia).
    exists (fun _ _ => 0%nat). split; intros; cbn in *; lia.
  - exists k. rewrite length_app in Hk2. split_and!; [lia..|]. rewrite app_assoc, drop_app_le by (rewrite length_app; lia).
    eapply holds_ext; [|apply (holds_newest keep _ live _ ltac:(lia) (Hfree ltac:(lia)) Hh)].
    intros n g Hn. rewrite slot_insert by lia. unfold upd. case_decide; [done|]. symmetry. apply slot_path; lia.
Qed.

Lemma rotate_kept G0 live0 l s R k : kept G0 live0 l s R k → (keep = 0 → G0 = []) →
  l_rotationFailed l = false → l_compressing l = None → log_MaxSize cfg <= l_size l →
  let r := rotate fault l s in
  ∃ R' k', kept G0 live0 (if r.1.1 then r.1.2 else with_failed r.1.2) r.2 R' k'.
Proof.
  intros HK H0 Hnf Hnc Hbig. pose proof (shift_kept _ _ _ _ _ _ HK Hnf) as (Ha & Hfree & k1 & Hk1 & Hk1' & Hh).
  destruct HK as [H1 H2 H3 H4 H5 H6 H7 H8 H9 H10].
  assert (l_file l = true) as Hopen by (destruct (l_file l); [done|by rewrite H9 in Hnf]). specialize (H8 Hopen).
  cbn zeta. unfold rotate. rewrite H1, H2, keep_cfg.
  destruct (shift_all fault path keep (oldest_first (Z.to_nat (Z.max keep 1))) s) as [ok s1]. cbn [fst snd] in *. destruct Ha as [Ha1 Ha2].
  assert (k1 <= length R + 1)%nat as Hf1 by lia.
  destruct ok; cbn [negb].
  2: { exists R, k1. split; cbn; rewrite ?Ha1, ?Ha2, ?Hnc; auto; done. }
  specialize (Hfree eq_refl). cbn zeta.
  change (l_path (with_file l false (l_size l))) with (l_path l). rewrite ?H1.
  set (move := if keep =? 0 then os_remove fault path s1 else os_rename fault path (generationName path 1 false) s1).
  assert (wrote move.2 = wrote s1 ∧ ((move.1 = false ∧ files move.2 = files s1) ∨
    ∃ live, move.1 = true ∧ files s1 !! path = Some live ∧
      files move.2 = if keep =? 0 then delete path (files s1) else <[generationName path 1 false := live]> (delete path (files s1)))) as [Hw Hmove].
  { unfold move, os_remove, os_rename, exists_. destruct (keep =? 0).
    - destruct (files s1 !! path) as [live|] eqn:E; [rewrite bool_decide_true by by eexists|rewrite bool_decide_false by (by intros [? ?])]; cbn; [|auto].
      destruct (fails fault s1); cbn; [auto|]. split; [done|]. right. by exists live.
    - destruct (files s1 !! path) as [live|] eqn:E; cbn; [|auto]. destruct (fails fault s1); cbn; [auto|]. split; [done|]. right. by exists live. }
  destruct move as [ok s2]. cbn [fst snd] in *. pose proof (openAppend_spec path s2) as (Ow & Od & Os).
  destruct (openAppend fault path s2) as [size s3]. cbn [fst snd] in *.
  assert (∀ n g, 1 <= n <= keep → slot (files s3) n g = slot (files s2) n g) as Hs3.
  { intros n g Hn. destruct size; [destruct Os as (_ & c & ->); apply slot_path; lia|by rewrite Os]. }
  destruct Hmove as [[-> Hm]|(live & -> & Hlive & Hm)]; cbn [negb].
  - assert (holds keep (slot (files s3)) (drop k1 (G0 ++ R))) as Hh3.
    { eapply holds_ext; [|exact Hh]. intros. by rewrite Hs3, Hm. }
    destruct size as [size|]; exists R, k1; (split; cbn; rewrite ?Ow, ?Od, ?Hw, ?Ha2, ?Hm, ?Ha1, ?Hnc; auto; try done; try congruence).
    intros _. destruct Os as [-> _]. by rewrite Od, Hm, Ha1.
  - assert (files s2 !! path = None) as Hgone.
    { rewrite Hm. destruct (keep =? 0); [apply lookup_delete_eq|]. rewrite lookup_insert_ne by apply generationName_path. apply lookup_delete_eq. }
    destruct (rotated_holds G0 R k1 (files s1) live Hk1 Hk1' H0 Hh ltac:(intros; by apply Hfree)) as (k2 & Hk2 & Hk2' & Hh2).
    rewrite <- Hm in Hh2. assert (holds keep (slot (files s3)) (drop k2 (G0 ++ R ++ [live]))) as Hh3 by (eapply holds_ext; [|exact Hh2]; intros; by rewrite Hs3).
    rewrite Hlive in Ha1.
    assert (live0 ++ wrote s3 = concat (R ++ [live]) ++ []) as Hwrote.
    { rewrite Ow, Hw, Ha2, H4, <- Ha1, concat_app. cbn. by rewrite !app_nil_r. }
    assert (Forall (fun r => log_MaxSize cfg <= len r) (R ++ [live])) as Hall.
    { apply Forall_app. split; [done|]. constructor; [|done]. rewrite <- Ha1 in H8. cbn in H8. lia. }
    rewrite Hgone in Od. cbn [default] in Od. change (default [] (files s3 !! path) = []) in Od.
    exists (R ++ [live]), k2. destruct size as [size|].
    + destruct Os as [-> _]. cbn [with_file l_cfg l_size l_path l_compressing l_rotationFailed]. rewrite H2. destruct (keep <=? log_CompressAfter cfg) eqn:Ec;
        (split; cbn; rewrite ?Od, ?Hnc; auto; try done; try congruence; try lia).
    + split; cbn; rewrite ?Od, ?Hnc; auto; try done; try congruence; try lia.
Qed.

Lemma WriteLine_kept G0 live0 line l s R k : kept G0 live0 l s R k → (keep = 0 → G0 = []) →
  let r := WriteLine fault line l s in ∃ R' k', kept G0 live0 r.1.2 r.2 R' k'.
Proof.
  intros HK H0. cbn zeta. unfold WriteLine. rewrite (k_cfg _ _ _ _ _ _ HK).
  destruct ((log_MaxSize cfg <=? l_size l) && negb (bool_decide (is_Some (l_compressing l))) && negb (l_rotationFailed l)) eqn:E;
    [|exists R, k; by apply write_string_kept]. bool_prop.
  destruct (rotate_kept _ _ _ _ _ _ HK H0) as (R' & k' & HK'); [done|by apply eq_None_not_Some|done|].
  exists R', k'. destruct (rotate fault l s) as [[[] l'] s']; cbn [fst snd] in *; [by apply write_string_kept|done].
Qed.

Lemma kept_aside G0 live0 l s R k g s' : kept G0 live0 l s R k → aside s s' →
  (∀ G, holds keep (slot (files s)) G → holds keep (slot (files s')) G) → packing g (files s') →
  kept G0 live0 (with_guard l g) s' R k.
Proof. intros [H1 H2 H3 H4 H5 H6 H7 H8 H9 H10] [Ha Hw] Hh Hp. constructor; cbn; rewrite ?Ha, ?Hw; auto. Qed.

Lemma aside_tmp n s s' c : 0 <= n → wrote s' = wrote s →
  (files s' = <[generationName path n true ++ lit ".tmp" := c]> (files s) ∨ files s' = delete (generationName path n true ++ lit ".tmp") (files s) ∨ files s' = files s) →
  aside s s' ∧ (∀ G, holds keep (slot (files s)) G → holds keep (slot (files s')) G) ∧
  ∀ m g, 0 <= m → files s' !! generationName path m g = files s !! generationName path m g.
Proof.
  unfold aside. intros Hn Hw [->| [->| ->] ]; (split; [split; [|done]|split; [intros G HG; eapply holds_ext; [|exact HG]; intros m g Hm; by rewrite ?(proj1 (slot_tmp _ n m g ltac:(lia) ltac:(lia))), ?(proj2 (slot_tmp _ n m g ltac:(lia) ltac:(lia)))|intros m g Hm]]).
  all: rewrite ?lookup_insert_ne, ?lookup_delete_ne by first [apply tmp_path|by apply tmp_name]; done.
Qed.

Lemma os_remove_spec p s : wrote (os_remove fault p s).2 = wrote s ∧
  (files (os_remove fault p s).2 = delete p (files s) ∨ files (os_remove fault p s).2 = files s).
Proof. unfold os_remove. destruct (_ || _); cbn; auto. Qed.

Lemma compress_step_kept G0 live0 l s R k : kept G0 live0 l s R k →
  let r := compress_step fault gzip l s in kept G0 live0 r.1 r.2 R k.
Proof using All.
  intros HK. pose proof (k_packing _ _ _ _ _ _ HK) as Hp. pose proof (k_path _ _ _ _ _ _ HK) as H1. pose proof (k_cfg _ _ _ _ _ _ HK) as H2.
  set (tmp := fun n => generationName path n true ++ lit ".tmp").
  assert (∀ s0 n, aside s s0 → (∀ G, holds keep (slot (files s)) G → holds keep (slot (files s0)) G) → 1 <= n →
    kept G0 live0 (with_guard l (Some (GzNext (n + 1)))) (os_remove fault (tmp n) s0).2 R k) as Hskip.
  { intros s0 n Ha Hh Hn. destruct (os_remove_spec (tmp n) s0) as [Hw Hf].
    destruct (aside_tmp n s0 (os_remove fault (tmp n) s0).2 [] ltac:(lia) Hw ltac:(tauto)) as (Ha' & Hh' & _).
    eapply kept_aside; [done|by etrans|auto|cbn; lia]. }
  assert (∀ n b, 1 <= n → let s0 := done s (<[tmp n := b]> (files s)) in aside s s0 ∧ (∀ G, holds keep (slot (files s)) G → holds keep (slot (files s0)) G) ∧
    ∀ m g, 0 <= m → files s0 !! generationName path m g = files s !! generationName path m g) as Htmp.
  { intros n b Hn. by apply (aside_tmp n s _ b); [lia|..|left]. }
  cbn zeta. unfold compress_step. destruct (l_compressing l) as [[n|n|n]|] eqn:Ec; [| | |done]; cbn [packing] in Hp; rewrite ?H1, ?H2, ?keep_cfg; fold (tmp n).
  - destruct (Z.ltb_spec keep n) as [En|En]; [by eapply kept_aside|].
    destruct (files s !! generationName path n false) as [c|] eqn:Ep; [|by eapply kept_aside; [..|cbn; lia]].
    destruct (fault (calls s)) as [j|].
    + destruct (Htmp n (take j (gzip c)) Hp) as (Ha & Hh & _). by apply Hskip.
    + destruct (Htmp n (gzip c) Hp) as (Ha & Hh & Hn). eapply kept_aside; [done..|]. cbn. split; [lia|]. exists c.
      rewrite lookup_insert_eq. split; [|done]. rewrite <- Ep. apply (Hn n false). lia.
  - destruct Hp as (Hn & c & Hc & Ht). unfold os_rename. fold (tmp n) in Ht. rewrite Ht. destruct (fails fault s); cbn [fst snd].
    + apply Hskip; [done|done|lia].
    + eapply kept_aside; [done|split|..].
      * cbn. rewrite lookup_insert_ne, lookup_delete_ne by first [apply generationName_path|apply tmp_path]. done.
      * done.
      * intros G HG. eapply holds_ext; [|apply (holds_copy keep (slot (files s)) n c G); [lia| |exact HG]].
        -- intros m g Hm. cbn. rewrite slot_insert by lia. cbn. rewrite gunzip_gzip. unfold upd. case_decide; [done|]. symmetry. apply slot_tmp; lia.
        -- unfold slot. by rewrite Hc.
      * cbn. split; [done|]. exists c, (gzip c). rewrite lookup_insert_eq. split; [|done].
        rewrite lookup_insert_ne by (intros [_ ?]%generationName_inj; [done|lia..]). by rewrite lookup_delete_ne by (apply tmp_name; lia).
  - destruct Hp as (Hn & c & z & Hc & Hz). destruct (os_remove_spec (generationName path n false) s) as [Hw Hf].
    eapply kept_aside; [done|split; [|exact Hw]| |cbn; lia]; cbn [snd]; (destruct Hf as [->| ->]; [|done]).
    + by rewrite lookup_delete_ne by apply generationName_path.
    + intros G HG. eapply holds_ext; [|apply (holds_drop_copy keep (slot (files s)) n false c (text_of true z) G); [lia| | |exact HG]].
      * intros m g Hm. by rewrite slot_delete by lia.
      * unfold slot. by rewrite Hc.
      * unfold slot. cbn. by rewrite Hz.
Qed.

Lemma log_run_kept G0 live0 es l s R k : kept G0 live0 l s R k → (keep = 0 → G0 = []) →
  ∃ R' k', kept G0 live0 (log_run fault gzip es (l, s)).1 (log_run fault gzip es (l, s)).2 R' k'.
Proof using All.
  intros HK H0. revert l s R k HK. induction es as [|e es IH]; intros l s R k HK; [by exists R, k|].
  change (log_run fault gzip (e :: es) (l, s)) with (log_run fault gzip es (log_turn fault gzip (l, s) e)).
  destruct e as [b|]; unfold log_turn; cbn [fst snd].
  - destruct (WriteLine_kept G0 live0 b l s R k HK H0) as (R' & k' & HK'). destruct (WriteLine fault b l s) as [[ok l'] s']. by eapply IH.
  - pose proof (compress_step_kept G0 live0 l s R k HK) as HK'. destruct (compress_step fault gzip l s) as [l' s']. by eapply IH.
Qed.

Lemma open_kept s0 l s1 G0 : wrote s0 = [] → holds keep (slot (files s0)) G0 → OpenFileLogger fault path cfg s0 = (Some l, s1) →
  kept G0 (default [] (files s0 !! path)) l s1 [] 0.
Proof using All.
  intros Hw HG. unfold OpenFileLogger. pose proof (openAppend_spec path s0) as (Ow & Od & Os).
  destruct (openAppend fault path s0) as [[size|] s2]; cbn [fst snd fmap option_fmap option_map] in *; [|done].
  intros [= <- <-]. destruct Os as (-> & c & Hc). constructor; cbn; auto; try done; try lia.
  - rewrite app_nil_r. eapply holds_ext; [|exact HG]. intros n g Hn. rewrite Hc. symmetry. apply slot_path; lia.
  - by rewrite Ow, Hw, app_nil_r, Od.
Qed.
End Kept.

(** * A batch is its lines *)

Section Batch.
Let fault : nat → option nat := fun _ => None.

(** Two disks that differ in the number of calls so far. *)
Definition same_fs (s s' : fs) : Prop := files s = files s' ∧ wrote s = wrote s'.
Definition same_out {A} (r r' : A * fs) : Prop := r.1 = r'.1 ∧ same_fs r.2 r'.2.
#[local] Instance same_fs_equiv : Equivalence same_fs.
Proof. split; [done|intros x y [H1 H2]|intros x y z [H1 H2] [H3 H4]]; split; congruence. Qed.
#[local] Instance same_out_equiv {A} : Equivalence (@same_out A).
Proof.
  split; [done|intros x y [H1 H2]; split; [done|by symmetry]|intros x y z [H1 H2] [H3 H4]; split; [congruence|by etrans]].
Qed.

Lemma remove_same p s s' : same_fs s s' → same_out (os_remove fault p s) (os_remove fault p s').
Proof. intros [Hf Hw]. unfold os_remove, exists_, fails. cbn. rewrite Hf. by destruct (negb _ || _). Qed.
Lemma rename_same a b s s' : same_fs s s' → same_out (os_rename fault a b s) (os_rename fault a b s').
Proof. intros [Hf Hw]. unfold os_rename, fails. cbn. rewrite Hf. by destruct (files s' !! a). Qed.
Lemma open_same p s s' : same_fs s s' → same_out (openAppend fault p s) (openAppend fault p s').
Proof. intros [Hf Hw]. unfold openAppend, fails. cbn. by rewrite Hf. Qed.

Lemma shift_same path keep l s s' : same_fs s s' → same_out (shift_all fault path keep l s) (shift_all fault path keep l s').
Proof.
  revert s s'. induction l as [|g l IH]; intros s s' Hs; [done|]. cbn [shift_all].
  assert (same_out (shift_one fault path keep g s) (shift_one fault path keep g s')) as [H1 H2].
  { unfold shift_one, exists_. rewrite (proj1 Hs). destruct (bool_decide _); [|done]. destruct (_ <=? _); [by apply remove_same|by apply rename_same]. }
  destruct (shift_one fault path keep g s) as [ok s1], (shift_one fault path keep g s') as [ok' s1']. cbn in H1, H2. subst ok'.
  destruct ok; [by apply IH|done].
Qed.

Ltac same_call L := let H1 := fresh in let H2 := fresh in
  destruct L as [H1 H2];
  match type of H1 with ?a.1 = ?b.1 => destruct a, b end; cbn [fst snd] in H1, H2; subst.

Lemma rotate_same l s s' : same_fs s s' → same_out (rotate fault l s) (rotate fault l s').
Proof.
  intros Hs. unfold rotate. same_call (shift_same (l_path l) (log_MaxKeep (l_cfg l)) (oldest_first (Z.to_nat (Z.max (log_MaxKeep (l_cfg l)) 1))) s s' Hs).
  destruct b0; cbn [negb]; [|done]. destruct (_ =? 0).
  - same_call (remove_same (l_path (with_file l false (l_size l))) f f0 H0). destruct b0; cbn [negb].
    + same_call (open_same (l_path (with_file l false (l_size l))) f1 f2 H1). destruct o0; [|done]. by destruct (_ <=? _).
    + same_call (open_same (l_path (with_file l false (l_size l))) f1 f2 H1). by destruct o0.
  - same_call (rename_same (l_path (with_file l false (l_size l))) (generationName (l_path (with_file l false (l_size l))) 1 false) f f0 H0). destruct b0; cbn [negb].
    + same_call (open_same (l_path (with_file l false (l_size l))) f1 f2 H1). destruct o0; [|done]. by destruct (_ <=? _).
    + same_call (open_same (l_path (with_file l false (l_size l))) f1 f2 H1). by destruct o0.
Qed.

Lemma write_same b l s s' : same_fs s s' → same_out (write_string fault b l s) (write_string fault b l s').
Proof. intros [Hf Hw]. unfold write_string, fails. cbn. rewrite Hf, Hw. by destruct (negb _). Qed.

Lemma WriteLine_same b l s s' : same_fs s s' → same_out (WriteLine fault b l s) (WriteLine fault b l s').
Proof.
  intros Hs. unfold WriteLine. destruct (_ && _); [|by apply write_same].
  same_call (rotate_same l s s' Hs). destruct p0 as [[] l']; [by apply write_same|done].
Qed.

Lemma write_each_same ls l s s' : same_fs s s' → same_out (write_each fault ls l s) (write_each fault ls l s').
Proof.
  revert l s s'. induction ls as [|b ls IH]; intros l s s' Hs; [done|]. cbn [write_each].
  same_call (WriteLine_same b l s s' Hs). destruct p0 as [[] l']; [by apply IH|done].
Qed.

(** ** Lines *)

Lemma lines_concat t : concat (lines t) = t.
Proof.
  induction t as [|b t IH]; [done|]. cbn [lines]. destruct (b =? newline); cbn; [by rewrite IH|].
  destruct (lines t) as [|w ws]; cbn in *; by rewrite <- IH.
Qed.

Lemma lines_nil t : lines t = [] → t = [].
Proof. intros H. by rewrite <- (lines_concat t), H. Qed.

Lemma lines_app a b : last a = Some newline → lines (a ++ b) = lines a ++ lines b.
Proof.
  induction a as [|x a IH]; [done|]. intros Hl. cbn [app lines]. destruct a as [|y a].
  - cbn in Hl. injection Hl as ->. done.
  - rewrite last_cons_cons in Hl. rewrite (IH Hl). destruct (x =? newline); [done|].
    destruct (lines (y :: a)) as [|w ws] eqn:E; [by apply lines_nil in E|done].
Qed.

Lemma lines_one a : a ≠ [] → Forall (fun b => b ≠ newline) a → lines a = [a].
Proof.
  intros Hne Ha. induction Ha as [|b a Hb Ha IH]; [done|]. cbn [lines]. destruct (Z.eqb_spec b newline); [done|].
  destruct a; [done|]. by rewrite IH.
Qed.
Lemma lines_line a : Forall (fun b => b ≠ newline) a → lines (a ++ [newline]) = [a ++ [newline]].
Proof.
  induction 1 as [|b a Hb Ha IH]; [done|]. cbn [app lines]. destruct (Z.eqb_spec b newline); [done|]. by rewrite IH.
Qed.

(** A newline ends its line. *)
Lemma lines_whole t : Forall (fun line => newline ∉ removelast line) (lines t).
Proof.
  induction t as [|b t IH]; [constructor|]. cbn [lines]. destruct (Z.eqb_spec b newline) as [->|Hb]; [constructor; [set_solver|done]|].
  destruct (lines t) as [|w ws]; [repeat constructor; set_solver|]. inversion IH as [|? ? Hw Hws]; subst. constructor; [|done].
  destruct w as [|c w]; [set_solver|]. change (removelast (b :: c :: w)) with (b :: removelast (c :: w)). set_solver.
Qed.

(** Where lines follow, there is a newline before them. *)
Lemma lines_cut t pre post : lines t = pre ++ post → pre ≠ [] → post ≠ [] →
  ∃ j : nat, len (concat pre) = Z.of_nat j + 1 ∧ t !! j = Some newline ∧ (S j < length t)%nat.
Proof.
  revert pre post. induction t as [|b t IH]; intros pre post He Hpre Hpost; [by destruct pre|].
  cbn [lines] in He. destruct pre as [|w pre]; [done|]. destruct (Z.eqb_spec b newline) as [->|Hb].
  - injection He as <- He. destruct pre as [|w pre].
    + exists 0%nat. cbn. split; [done|]. split; [done|]. destruct t; [by destruct post|cbn; lia].
    + destruct (IH (w :: pre) post He) as (j & Hj & Hn & Hl); [done..|]. exists (S j). cbn [concat] in *. rewrite len_app, len_cons, len_nil, Hj. cbn. split; [lia|]. split; [done|lia].
  - destruct (lines t) as [|w' ws] eqn:E; [injection He as <- He; by destruct pre, post|]. injection He as <- ->.
    destruct (IH (w' :: pre) post eq_refl) as (j & Hj & Hn & Hl); [done..|]. exists (S j). cbn [concat app] in *. rewrite len_cons, Hj. cbn. split; [lia|]. split; [done|lia].
Qed.

Lemma take_newline t e : index_byte t newline = Some e → take (e + 1) t = take e t ++ [newline] ∧ Forall (fun b => b ≠ newline) (take e t).
Proof.
  intros Hi. apply index_by_spec in Hi as [(b & Hb & Hn) Hf]. apply Z.eqb_eq in Hn as <-.
  split; [by rewrite Nat.add_1_r, (take_S_r _ _ newline)|]. eapply Forall_impl; [exact Hf|]. intros x Hx ->. done.
Qed.

(** The chunk is some whole lines of the text; it is one line, or a rotation
    comes before none but its first. *)
Lemma next_chunk_spec max size t : t ≠ [] →
  let c := next_chunk max size t in
  c ≠ [] ∧ t = c ++ drop (length c) t ∧ lines t = lines c ++ lines (drop (length c) t) ∧
  (lines c = [c] ∨ ∀ pre post, lines c = pre ++ post → post ≠ [] → size + len (concat pre) < max).
Proof.
  intros Ht. cbn zeta. unfold next_chunk.
  assert (∀ P : Prop, P → t ≠ [] ∧ t = t ++ drop (length t) t ∧ lines t = lines t ++ lines (drop (length t) t) ∧ P) as Hwhole.
  { intros P HP. rewrite drop_all. cbn. rewrite !app_nil_r. done. }
  assert (∀ e, t !! e = Some newline → ∀ P : Prop, P → take (e + 1) t ≠ [] ∧ t = take (e + 1) t ++ drop (length (take (e + 1) t)) t ∧
    lines t = lines (take (e + 1) t) ++ lines (drop (length (take (e + 1) t)) t) ∧ P) as Hpart.
  { intros e He P HP. pose proof (lookup_lt_Some _ _ _ He). rewrite length_take_le by lia. split; [destruct t; [done|by rewrite Nat.add_1_r]|].
    split; [by rewrite take_drop|]. split; [|done]. rewrite <- lines_app; [by rewrite take_drop|]. by rewrite Nat.add_1_r, (take_S_r _ _ newline), last_snoc. }
  destruct (Z.ltb_spec 0 (max - size)) as [Hr|Hr]; cbn [andb].
  - assert (∀ c n, prefix c t → (∀ j : nat, c !! j = Some newline → (S j < length c)%nat → Z.of_nat j < n) → n <= max - size - 1 →
      ∀ pre post, lines c = pre ++ post → post ≠ [] → size + len (concat pre) < max) as Hfit.
    { intros c n _ Hj Hn pre post Hl Hpost. destruct (decide (pre = [])) as [->|Hpre]; [cbn; rewrite len_nil; lia|].
      destruct (lines_cut c pre post Hl Hpre Hpost) as (j & -> & Hnl & Hlt). pose proof (Hj j Hnl Hlt). lia. }
    destruct (Z.ltb_spec (max - size) (len t)) as [Hl|Hl].
    + destruct (index_byte (drop (Z.to_nat (max - size - 1)) t) newline) as [e|] eqn:Ee.
      * unfold index_byte in Ee. apply index_by_spec in Ee as [(b & Hb & Hn) Hf]. apply Z.eqb_eq in Hn as <-. rewrite lookup_drop in Hb.
        replace (Z.to_nat (max - size) - 1 + e + 1)%nat with (Z.to_nat (max - size - 1) + e + 1)%nat by lia. apply Hpart; [done|]. right.
        apply (Hfit _ (max - size - 1)); [apply prefix_take|..|lia]. intros j Hj Hlt. rewrite length_take in Hlt.
        rewrite lookup_take_lt in Hj by lia. destruct (decide (Z.of_nat j < max - size - 1)); [done|]. exfalso.
        rewrite Forall_lookup in Hf. specialize (Hf (j - Z.to_nat (max - size - 1))%nat newline).
        rewrite lookup_take_lt, lookup_drop in Hf by lia. replace (Z.to_nat (max - size - 1) + (j - Z.to_nat (max - size - 1)))%nat with j in Hf by lia.
        by specialize (Hf Hj).
      * apply Hwhole. right. unfold index_byte in Ee. apply index_by_None in Ee. apply (Hfit _ (max - size - 1)); [done| |lia]. intros j Hj _.
        destruct (decide (Z.of_nat j < max - size - 1)); [done|]. exfalso. rewrite Forall_lookup in Ee.
        specialize (Ee (j - Z.to_nat (max - size - 1))%nat newline). rewrite lookup_drop in Ee.
        replace (Z.to_nat (max - size - 1) + (j - Z.to_nat (max - size - 1)))%nat with j in Ee by lia. by specialize (Ee Hj).
    + rewrite (proj2 (Z.leb_gt (max - size) 0)) by lia. apply Hwhole. right. apply (Hfit _ (len t - 1)); [done| |lia]. intros j _ Hlt. unfold len. lia.
  - rewrite (proj2 (Z.leb_le (max - size) 0)) by lia. destruct (index_byte t newline) as [e|] eqn:Ee.
    + pose proof (take_newline t e Ee) as [Et Hne]. unfold index_byte in Ee. apply index_by_spec in Ee as [(b & Hb & Hn) _]. apply Z.eqb_eq in Hn as <-.
      apply Hpart; [done|]. left. rewrite Et. by apply lines_line.
    + apply Hwhole. left. apply lines_one; [done|]. unfold index_byte in Ee. apply index_by_None in Ee. eapply Forall_impl; [exact Ee|]. intros x Hx ->. done.
Qed.

(** Lines without a rotation between them. *)
Lemma write_each_one ls l s : ls ≠ [] → (∀ pre post, ls = pre ++ post → post ≠ [] → l_size l + len (concat pre) < log_MaxSize (l_cfg l)) →
  same_out (WriteLine fault (concat ls) l s) (write_each fault ls l s).
Proof.
  revert l s. induction ls as [|b ls IH]; intros l s Hne Hfit; [done|]. cbn [write_each concat].
  assert (∀ b, WriteLine fault b l s = write_string fault b l s) as Hw.
  { intros b'. unfold WriteLine. specialize (Hfit [] (b :: ls) eq_refl ltac:(done)). cbn in Hfit. rewrite len_nil in Hfit.
    by rewrite (proj2 (Z.leb_gt (log_MaxSize (l_cfg l)) (l_size l))) by lia. }
  rewrite !Hw. destruct (decide (ls = [])) as [->|Hls].
  { cbn [write_each concat]. rewrite app_nil_r. destruct (write_string fault b l s) as [[[] ?] ?]; done. }
  unfold write_string at 2. destruct (l_file l) eqn:Ef; cbn [negb]; [|unfold write_string; by rewrite Ef].
  change (fails fault s) with false. cbn [negb fault].
  match goal with |- same_out _ (write_each _ ls ?l1 ?s1) => pose proof (IH l1 s1 Hls) as IH1; set (l2 := l1) in *; set (s2 := s1) in * end.
  rewrite <- IH1.
  2: { intros pre post -> Hpost. specialize (Hfit (b :: pre) post eq_refl Hpost). cbn in *. rewrite len_app in Hfit. lia. }
  unfold WriteLine. specialize (Hfit [b] ls eq_refl Hls). cbn [concat] in Hfit. rewrite app_nil_r in Hfit.
  change (log_MaxSize (l_cfg l2)) with (log_MaxSize (l_cfg l)). change (l_size l2) with (l_size l + len b).
  rewrite (proj2 (Z.leb_gt (log_MaxSize (l_cfg l)) (l_size l + len b))) by lia. cbn [andb].
  unfold write_string. rewrite Ef. change (l_file l2) with true. cbn [negb]. change (fails fault s) with false. change (fails fault s2) with false. cbn [negb fault].
  split; cbn [fst snd].
  - unfold l2, with_file. cbn. by rewrite len_app, Z.add_assoc.
  - split; cbn; [|by rewrite app_assoc]. rewrite lookup_insert_eq. cbn. by rewrite insert_insert_eq, app_assoc.
Qed.

Lemma WriteLines_go_each n t l s : (length t <= n)%nat → same_out (WriteLines_go fault n t l s) (write_each fault (lines t) l s).
Proof.
  revert t l s. induction n as [|n IH]; intros [|b t] l s Hn; [done|cbn in Hn; lia|done|].
  destruct (next_chunk_spec (log_MaxSize (l_cfg l)) (l_size l) (b :: t) ltac:(done)) as (Hne & Ht & Hl & Hone).
  rewrite Hl. cbn [WriteLines_go]. set (c := next_chunk (log_MaxSize (l_cfg l)) (l_size l) (b :: t)) in *.
  assert (same_out (WriteLine fault c l s) (write_each fault (lines c) l s)) as [H1 H2].
  { destruct Hone as [->|Hfit]; [cbn [write_each]; by destruct (WriteLine fault c l s) as [[[] ?] ?]|].
    rewrite <- (lines_concat c) at 1. apply write_each_one; [|done]. by intros ?%lines_nil. }
  assert (∀ ls1 ls2 l s, write_each fault (ls1 ++ ls2) l s = let '(ok, l, s) := write_each fault ls1 l s in if ok then write_each fault ls2 l s else (false, l, s)) as Happ.
  { clear. intros ls1 ls2. induction ls1 as [|b ls1 IH]; intros l s; [done|]. cbn [app write_each]. by destruct (WriteLine fault b l s) as [[[] ?] ?]. }
  rewrite Happ. destruct (WriteLine fault c l s) as [[ok l1] s1], (write_each fault (lines c) l s) as [[ok' l1'] s1'].
  cbn [fst snd] in H1, H2. injection H1 as -> ->. destruct ok'; [|done].
  rewrite <- (write_each_same _ _ s1 s1' H2). apply IH. rewrite length_drop. cbn in Hn |- *. destruct c; [done|cbn; lia].
Qed.
End Batch.

(** * Properties *)

(** C18: whatever lines a logger writes, wherever it rotates and compresses
    between them and whichever system calls fail, its files hold what it
    wrote, in order: what was in its file and what it wrote since is what was
    rotated away, each piece of at least [max_size] bytes, and then what is in
    the file now; and its generations hold the newest of those before and
    those rotated away, all of them but at most one for each rotation (and
    one more once a rotation has failed, after which there is none). *)
Theorem log_kept (fault : nat → option nat) (gzip gunzip : bytes → bytes) (path : bytes) (cfg : LogConfig)
    (s0 s1 : fs) (l : FileLogger) (G0 : list bytes) (es : list log_event) :
  (∀ c, gunzip (gzip c) = c) → 0 <= log_MaxKeep cfg → 0 <= log_CompressAfter cfg →
  wrote s0 = [] → holds (log_MaxKeep cfg) (slot gunzip path (files s0)) G0 →
  OpenFileLogger fault path cfg s0 = (Some l, s1) →
  let '(l', s') := log_run fault gzip es (l, s1) in
  ∃ (R : list bytes) (k : nat),
    default [] (files s0 !! path) ++ wrote s' = concat R ++ default [] (files s' !! path) ∧
    holds (log_MaxKeep cfg) (slot gunzip path (files s')) (drop k (G0 ++ R)) ∧
    Forall (fun r => log_MaxSize cfg <= len r) R ∧
    (k <= length R + if l_rotationFailed l' then 1 else 0)%nat.
Proof.
  intros Hz Hk Ha Hw HG Ho.
  assert (log_MaxKeep cfg = 0 → G0 = []) as H0.
  { intros E. rewrite E in HG. destruct HG as [tag Ht]. destruct G0 as [|x G0]; [done|]. destruct (t_all _ _ _ _ Ht 0%nat ltac:(cbn; lia)) as (? & ? & ? & ? & _). lia. }
  pose proof (open_kept fault gzip gunzip Hz path _ cfg eq_refl Hk Ha s0 l s1 G0 Hw HG Ho) as HK.
  destruct (log_run_kept fault gzip gunzip Hz path _ cfg eq_refl Hk Ha _ _ es _ _ _ _ HK H0) as (R & k & HK').
  destruct (log_run fault gzip es (l, s1)) as [l' s']. cbn [fst snd] in HK'. exists R, k.
  split_and!; [apply HK'..].
Qed.

(** A batch of lines written at once leaves the logger and the files as
    writing its lines one by one would have: it rotates exactly where they
    would, and cuts no line in two. *)
Theorem batch_is_its_lines (text : bytes) (l : FileLogger) (s : fs) :
  let batch := WriteLines (fun _ => None) text l s in
  let each := write_each (fun _ => None) (lines text) l s in
  concat (lines text) = text ∧ Forall (fun line => newline ∉ removelast line) (lines text) ∧
  batch.1 = each.1 ∧ files batch.2 = files each.2 ∧ wrote batch.2 = wrote each.2.
Proof.
  cbn zeta. destruct (WriteLines_go_each (length text) text l s ltac:(lia)) as [H1 [H2 H3]].
  split; [apply lines_concat|]. split; [apply lines_whole|done].
Qed.

(** ** Witness: a generation packed whose plain file cannot be removed. *)

Definition demo_cfg : LogConfig := mkLogConfig [] [] 5 2 1.
Definition demo_path : bytes := lit "f".
Definition demo_events : list log_event :=
  [Line (lit "hello" ++ [10]); Line (lit "a" ++ [10]); Compressing; Compressing; Compressing; Line (lit "world" ++ [10]); Line (lit "b" ++ [10]);
   Compressing; Compressing; Compressing; Compressing].
Definition demo_fault : nat → option nat := fun n => if Nat.eqb n 12 then Some 0%nat else None.
Definition demo_start : FileLogger * fs := (mkFileLogger demo_cfg demo_path true 0 None false, mkFS {[demo_path := []]} 1 []).
Definition demo_run : FileLogger * fs := log_run demo_fault (cons 31) demo_events demo_start.

Example log_kept_witness :
  map_to_list (files demo_run.2) ≡ₚ [(lit "f", lit "b" ++ [10]); (lit "f.1", lit "a" ++ [10] ++ lit "world" ++ [10]);
    (lit "f.2", lit "hello" ++ [10]); (lit "f.2.gz", 31 :: lit "hello" ++ [10])] ∧
  let '(l', s') := log_run demo_fault (cons 31) demo_events demo_start in
  ∃ (R : list bytes) (k : nat),
    default [] (files (mkFS ∅ 0 []) !! demo_path) ++ wrote s' = concat R ++ default [] (files s' !! demo_path) ∧
    holds (log_MaxKeep demo_cfg) (slot tail demo_path (files s')) (drop k ([] ++ R)) ∧
    Forall (fun r => log_MaxSize demo_cfg <= len r) R ∧ (k <= length R + if l_rotationFailed l' then 1 else 0)%nat.
Proof.
  split; [apply (bool_decide_eq_true_1 _); vm_compute; reflexivity|].
  assert (holds (log_MaxKeep demo_cfg) (slot tail demo_path (files (mkFS ∅ 0 []))) []) as H0.
  { exists (fun _ _ => 0%nat). split; cbn; intros; try lia; by rewrite ?lookup_empty in *. }
  exact (log_kept demo_fault (cons 31) tail demo_path demo_cfg (mkFS ∅ 0 []) demo_start.2 demo_start.1 [] demo_events
    (fun c => eq_refl) ltac:(cbn; lia) ltac:(cbn; lia) eq_refl H0 eq_refl).
Defined.
