(* ===== verification/Logs.v ===== *)
(** Logs: the log lines' way to their destinations ([logx.go]): any number of
    callers queue their lines while the writer empties the queue and a reload
    changes the destinations; and the console's view of the newest lines. *)

From S2P Require Import Prelude GoStr Rules Config Prog.

(** * The state *)

Record queuedLine := mkLine { ql_text : bytes; ql_problem : bool }.

Definition maxPendingLog : Z := Z.shiftl 4 20.
Definition maxPendingLines : Z := Z.shiftl 1 15.
Definition recentLogSize : nat := Z.to_nat 2000.
Definition largeWrite : Z := Z.shiftl 1 20.

(** [sinkCfg], [sinkOut], [sinkErr]; a [FileLogger] by its number. Where
    there is none, a stream goes to the process's own. *)
Record sinks := mkSinks { sk_cfg : option LogConfig; sk_out : option nat; sk_err : option nat }.
#[export] Instance logConfig_eq_dec : EqDecision LogConfig.
Proof. solve_decision. Defined.

(** One [writeLog]: to which file, on which stream, what. The notice of lines
    dropped goes the way of problems. *)
Inductive output := Wrote (file : option nat) (problem : bool) (text : bytes) | Notice (file : option nat) (n : Z).

(** Where a call of [emit] is, or how it ended. *)
Inductive emitting :=
| ENumber | EStore (n : nat) | EAdd | EOver | EPush | EFull | EDrop | EFill (pos : nat) | EWake | ESend
| EQueued | EDropped | EWritten.

(** Where the holder of [flushMu] is; [fl_ls] are the destinations read at
    the start, [fl_buf] the lines of [fl_problem] put together so far. *)
Inductive flush_pc := FReset | FSinks | FPop | FPopped (l : queuedLine) | FSwap | FEnd.
(** Who flushes: the writer, a caller of [FlushLogs], or [ConfigureLogging],
    with what opening each file gives. *)
Inductive flusher := Writer | Caller | Reload (cfg : LogConfig) (open : bytes → option nat).
Record flushing := mkFlushing { fl_who : flusher; fl_pc : flush_pc; fl_sinks : sinks; fl_buf : bytes; fl_problem : bool }.

(** The queue holds, oldest first, the cells claimed; a cell is empty until
    its pusher has stored its line ([Ring]). [lg_numbered] and [lg_pushed] are
    the calls that have taken a number, and claimed a cell, in that order:
    [recentNext] is the length of the first; [lg_direct] are those that wrote
    their line themselves, before [StartAsyncLogging]. *)
Record logs := mkLogs {
  lg_async : bool; lg_direct : list nat;
  lg_queue : list (option queuedLine); lg_popped : nat; lg_pushed : list nat;
  lg_pending : Z; lg_dropped : Z; lg_problem : bool; lg_wake : bool; lg_writing : bool;
  lg_numbered : list nat; lg_recent : gmap nat (nat * bytes);
  lg_sinks : sinks; lg_flush : option flushing;
  lg_emits : list (queuedLine * emitting);
  lg_out : list output;
}.

Definition file_of (sk : sinks) (problem : bool) : option nat := if problem then sk_err sk else sk_out sk.
Definition recent_text (text : bytes) : bytes := if bool_decide (last text = Some 10) then take (length text - 1) text else text.

(** What a call logs: the time, the message, a newline. *)
Definition log_line (stamp text : bytes) (problem : bool) : queuedLine := mkLine (stamp ++ lit " " ++ text ++ [10]) problem.

(** * emit

    One atomic step of call [i]; [busy]: the queue has no cell for it. *)
Definition emit_step (i : nat) (busy : bool) (s : logs) : option logs :=
  let 'mkLogs as_ di qu po pu pe dr pr wa wr nu re sk fl em out := s in
  match em !! i with
  | None => None
  | Some (l, pc) =>
      let at_ := fun pc => <[i := (l, pc)]> em in
      match pc with
      | ENumber => Some (mkLogs as_ di qu po pu pe dr pr wa wr (nu ++ [i]) re sk fl (at_ (EStore (length nu))) out)
      | EStore n =>
          Some (mkLogs as_ di qu po pu pe dr pr wa wr nu (<[(n mod recentLogSize)%nat := (n, recent_text (ql_text l))]> re) sk fl (at_ EAdd) out)
      | EAdd =>
          if as_ then
            let pe := pe + len (ql_text l) in
            Some (mkLogs as_ di qu po pu pe dr pr wa wr nu re sk fl (at_ (if maxPendingLog <? pe then EOver else EPush)) out)
          else Some (mkLogs as_ (di ++ [i]) qu po pu pe dr pr wa wr nu re sk fl (at_ EWritten) (out ++ [Wrote (file_of sk (ql_problem l)) (ql_problem l) (ql_text l)]))
      | EOver | EFull => Some (mkLogs as_ di qu po pu (pe - len (ql_text l)) dr pr wa wr nu re sk fl (at_ EDrop) out)
      | EDrop => Some (mkLogs as_ di qu po pu pe (dr + 1) pr wa wr nu re sk fl (at_ EDropped) out)
      | EPush =>
          if busy || (maxPendingLines <=? len qu) then Some (mkLogs as_ di qu po pu pe dr pr wa wr nu re sk fl (at_ EFull) out)
          else Some (mkLogs as_ di (qu ++ [None]) po (pu ++ [i]) pe dr pr wa wr nu re sk fl (at_ (EFill (po + length qu))) out)
      | EFill pos => Some (mkLogs as_ di (<[(pos - po)%nat := Some l]> qu) po pu pe dr pr wa wr nu re sk fl (at_ (if ql_problem l then EWake else EQueued)) out)
      | EWake => Some (mkLogs as_ di qu po pu pe dr true wa wr nu re sk fl (at_ (if pr then EQueued else ESend)) out)
      | ESend => Some (mkLogs as_ di qu po pu pe dr pr true wr nu re sk fl (at_ EQueued) out)
      | EQueued | EDropped | EWritten => None
      end
  end.

(** * flushLocked and ConfigureLogging *)

(** The destinations [ConfigureLogging] changes to; [None] when one cannot be
    opened. *)
Definition configure (cfg : LogConfig) (open : bytes → option nat) (sk : sinks) : option sinks :=
  if bool_decide (sk_cfg sk = Some cfg) then Some sk else
  match (if bool_decide (log_Stdout cfg = []) then Some None else Some <$> open (log_Stdout cfg)) with
  | None => None
  | Some out =>
      match (if bool_decide (log_Stderr cfg = []) then Some None
             else if bool_decide (log_Stderr cfg = log_Stdout cfg) then Some out
             else Some <$> open (log_Stderr cfg)) with
      | None => None
      | Some errl => Some (mkSinks (Some cfg) out errl)
      end
  end.

(** The buffer written out, unless it is empty. *)
Definition write_out (f : flushing) : list output :=
  if bool_decide (fl_buf f = []) then [] else [Wrote (file_of (fl_sinks f) (fl_problem f)) (fl_problem f) (fl_buf f)].

Definition flush_step (s : logs) : option logs :=
  let 'mkLogs as_ di qu po pu pe dr pr wa wr nu re sk fl em out := s in
  match fl with
  | None => None
  | Some f =>
      let 'mkFlushing who pc fs buf problem := f in
      match pc with
      | FReset => Some (mkLogs as_ di qu po pu pe dr false wa wr nu re sk (Some (mkFlushing who FSinks fs buf problem)) em out)
      | FSinks => Some (mkLogs as_ di qu po pu pe dr pr wa wr nu re sk (Some (mkFlushing who FPop sk [] false)) em out)
      | FPop =>
          match qu with
          | Some l :: qu => Some (mkLogs as_ di qu (S po) pu pe dr pr wa wr nu re sk (Some (mkFlushing who (FPopped l) fs buf problem)) em out)
          | _ => Some (mkLogs as_ di qu po pu pe dr pr wa wr nu re sk (Some (mkFlushing who FSwap fs [] problem)) em (out ++ write_out f))
          end
      | FPopped l =>
          let pe := pe - len (ql_text l) in
          if negb (Bool.eqb (ql_problem l) problem) || (largeWrite <? len buf) then
            Some (mkLogs as_ di qu po pu pe dr pr wa wr nu re sk (Some (mkFlushing who FPop fs (ql_text l) (ql_problem l))) em (out ++ write_out f))
          else Some (mkLogs as_ di qu po pu pe dr pr wa wr nu re sk (Some (mkFlushing who FPop fs (buf ++ ql_text l) problem)) em out)
      | FSwap =>
          Some (mkLogs as_ di qu po pu pe 0 pr wa wr nu re sk (Some (mkFlushing who FEnd fs buf problem)) em
            (out ++ if 0 <? dr then [Notice (sk_err fs) dr] else []))
      | FEnd =>
          let sk := match who with Reload cfg open => default sk (configure cfg open sk) | _ => sk end in
          let wr := match who with Writer => false | _ => wr end in
          Some (mkLogs as_ di qu po pu pe dr pr wa wr nu re sk None em out)
      end
  end.

(** * Everybody at once

    [lg_writing]: the writer has been woken, or its tick has come, and is
    waiting for [flushMu] or flushing. *)
Definition begin_flush (who : flusher) (s : logs) : option logs :=
  let 'mkLogs as_ di qu po pu pe dr pr wa wr nu re sk fl em out := s in
  match fl with
  | Some _ => None
  | None => Some (mkLogs as_ di qu po pu pe dr pr wa wr nu re sk (Some (mkFlushing who FReset sk [] false)) em out)
  end.

Inductive log_step : logs → logs → Prop :=
| Calls as_ di qu po pu pe dr pr wa wr nu re sk fl em out stamp text problem :
    log_step (mkLogs as_ di qu po pu pe dr pr wa wr nu re sk fl em out) (mkLogs as_ di qu po pu pe dr pr wa wr nu re sk fl (em ++ [(log_line stamp text problem, ENumber)]) out)
| Emits s s' i busy : emit_step i busy s = Some s' → log_step s s'
| Starts as_ di qu po pu pe dr pr wa wr nu re sk fl em out :
    log_step (mkLogs as_ di qu po pu pe dr pr wa wr nu re sk fl em out) (mkLogs true di qu po pu pe dr pr wa wr nu re sk fl em out)
| Ticks di qu po pu pe dr pr wa nu re sk fl em out (woken : bool) :
    (woken = true → wa = true) →
    log_step (mkLogs true di qu po pu pe dr pr wa false nu re sk fl em out)
         (mkLogs true di qu po pu pe dr pr (if woken then false else wa) true nu re sk fl em out)
| Flushes s s' who : (who = Writer → lg_writing s = true) → begin_flush who s = Some s' → log_step s s'
| Flushing_ s s' : flush_step s = Some s' → log_step s s'.

Definition quiet_logs (async : bool) (sk : sinks) : logs :=
  mkLogs async [] [] 0 [] 0 0 false false false [] ∅ sk None [] [].

(** * The console's view *)

(** [RecentLog]: [load i] is what the slot of line i held when it was read. *)
Fixpoint recent_go (load : nat → option (nat * bytes)) (start i : nat) (n : nat) (filter : bytes) : list bytes :=
  match i, n with
  | S k, S m =>
      if (k <? start)%nat then []
      else match load k with
           | Some (num, text) =>
               if (num =? k)%nat && (bool_decide (filter = []) || contains_str text filter) then recent_go load start k m filter ++ [text]
               else recent_go load start k n filter
           | None => recent_go load start k n filter
           end
  | _, _ => []
  end.
Definition RecentLog (next : nat) (load : nat → option (nat * bytes)) (n : nat) (filter : bytes) : list bytes :=
  recent_go load (next - recentLogSize) next n filter.

(** * The lines, in order *)

Definition line_of (em : list (queuedLine * emitting)) (i : nat) : queuedLine := from_option fst (mkLine [] false) (em !! i).
Definition pc_of (em : list (queuedLine * emitting)) (i : nat) : option emitting := snd <$> em !! i.
Definition texts (em : list (queuedLine * emitting)) (calls : list nat) : bytes := concat ((fun i => ql_text (line_of em i)) <$> calls).
Definition of_stream (em : list (queuedLine * emitting)) (problem : bool) (i : nat) : Prop := ql_problem (line_of em i) = problem.

(** The chunks written, notices apart. *)
Definition written (out : list output) : list (bool * bytes) :=
  omap (fun o => match o with Wrote _ p t => Some (p, t) | Notice _ _ => None end) out.
#[local] Arguments written : simpl never.
#[local] Arguments texts : simpl never.
Definition noticed (out : list output) : Z := sum_of (fun o => match o with Notice _ n => n | _ => 0 end) out.

(** In the queue, or out of it. *)
Definition queued (pc : emitting) : bool := match pc with EFill _ | EWake | ESend | EQueued => true | _ => false end.

(** What the flusher has of it: [cur] is put together, [hand] just popped. *)
Definition in_hand (em : list (queuedLine * emitting)) (fl : option flushing) (cur hand : list nat) : Prop :=
  match fl with
  | None => cur = [] ∧ hand = []
  | Some f => fl_buf f = texts em cur ∧ Forall (of_stream em (fl_problem f)) cur ∧
      match fl_pc f with FPopped l => ∃ i, hand = [i] ∧ line_of em i = l | _ => hand = [] end
  end.

Record order (s : logs) : Prop := {
  o_lines : Forall (fun e => ql_text e.1 ≠ []) (lg_emits s);
  o_out : ∃ chunks cur hand,
    written (lg_out s) = (fun c : bool * list nat => (c.1, texts (lg_emits s) c.2)) <$> chunks ∧
    Forall (fun c => Forall (of_stream (lg_emits s) c.1) c.2) chunks ∧
    concat (snd <$> chunks) ++ cur ++ hand = lg_direct s ++ take (lg_popped s) (lg_pushed s) ∧
    in_hand (lg_emits s) (lg_flush s) cur hand;
  o_len : length (lg_pushed s) = (lg_popped s + length (lg_queue s))%nat;
  o_cell : ∀ k i, lg_pushed s !! (lg_popped s + k)%nat = Some i →
    lg_queue s !! k = Some (Some (line_of (lg_emits s) i)) ∨
    lg_queue s !! k = Some None ∧ pc_of (lg_emits s) i = Some (EFill (lg_popped s + k));
  o_fill : ∀ i pos, pc_of (lg_emits s) i = Some (EFill pos) →
    lg_pushed s !! pos = Some i ∧ (lg_popped s <= pos)%nat ∧ lg_queue s !! (pos - lg_popped s)%nat = Some None;
  o_pushed : ∀ i, i ∈ lg_pushed s ↔ ∃ pc, pc_of (lg_emits s) i = Some pc ∧ queued pc = true;
  o_direct : ∀ i, i ∈ lg_direct s ↔ pc_of (lg_emits s) i = Some EWritten;
  o_nodup : NoDup (lg_direct s) ∧ NoDup (lg_pushed s);
  o_sync : lg_async s = false → lg_pushed s = [] ∧ match lg_flush s with Some f => fl_buf f = [] ∧ ∀ l, fl_pc f ≠ FPopped l | None => True end;
  o_push : ∀ i, pc_of (lg_emits s) i = Some EPush → lg_async s = true;
  o_empty : match lg_flush s with Some f => match fl_pc f with FPop | FPopped _ => True | _ => fl_buf f = [] end | None => True end;
}.

Lemma pc_insert em i l pc pc' j : em !! i = Some (l, pc) → pc_of (<[i := (l, pc')]> em) j = if decide (j = i) then Some pc' else pc_of em j.
Proof.
  intros Hi. unfold pc_of. destruct (decide (j = i)) as [->|]; [|by rewrite list_lookup_insert_ne].
  rewrite list_lookup_insert_eq; [done|]. by eapply lookup_lt_Some.
Qed.
Lemma line_insert em i l pc pc' j : em !! i = Some (l, pc) → line_of (<[i := (l, pc')]> em) j = line_of em j.
Proof.
  intros Hi. unfold line_of. destruct (decide (j = i)) as [->|]; [|by rewrite list_lookup_insert_ne].
  rewrite list_lookup_insert_eq, Hi; [done|]. by eapply lookup_lt_Some.
Qed.
Lemma texts_same em em' calls : (∀ i, i ∈ calls → line_of em' i = line_of em i) → texts em' calls = texts em calls.
Proof. intros H. unfold texts. f_equal. apply list_fmap_ext. intros k i Hk. by rewrite H by (by eapply list_elem_of_lookup_2). Qed.
Lemma texts_app em l k : texts em (l ++ k) = texts em l ++ texts em k.
Proof. unfold texts. by rewrite fmap_app, concat_app. Qed.
Lemma written_app out out' : written (out ++ out') = written out ++ written out'.
Proof. apply omap_app. Qed.

(** Changing where a call is, or adding one, changes no line. *)
Definition same_lines (em em' : list (queuedLine * emitting)) (calls : list nat) : Prop := ∀ i, i ∈ calls → line_of em' i = line_of em i.

Lemma of_stream_same em em' p calls : same_lines em em' calls → Forall (of_stream em p) calls → Forall (of_stream em' p) calls.
Proof. intros Hs Hf. apply Forall_forall. intros i Hi. unfold of_stream. rewrite Hs by done. by apply (proj1 (Forall_forall _ _) Hf). Qed.

Lemma in_hand_same em em' fl cur hand : same_lines em em' (cur ++ hand) → in_hand em fl cur hand → in_hand em' fl cur hand.
Proof.
  unfold in_hand. intros Hs. destruct fl as [f|]; [|done]. intros (Hb & Hc & Hp). split_and!.
  - rewrite Hb. symmetry. apply texts_same. intros i Hi. apply Hs. set_solver.
  - eapply of_stream_same; [|done]. intros i Hi. apply Hs. set_solver.
  - destruct (fl_pc f); try done. destruct Hp as (i & -> & <-). exists i. split; [done|]. apply Hs. set_solver.
Qed.

Lemma out_same em em' chunks cur hand fl order_ :
  same_lines em em' order_ → concat (snd <$> chunks) ++ cur ++ hand = order_ →
  Forall (fun c => Forall (of_stream em c.1) c.2) chunks → in_hand em fl cur hand →
  (fun c : bool * list nat => (c.1, texts em' c.2)) <$> chunks = (fun c => (c.1, texts em c.2)) <$> chunks ∧
  Forall (fun c => Forall (of_stream em' c.1) c.2) chunks ∧ in_hand em' fl cur hand.
Proof.
  intros Hs <- Hf Hh.
  assert (∀ c, c ∈ chunks → same_lines em em' c.2) as Hc.
  { intros c Hin i Hi. apply Hs. apply elem_of_app. left. apply list_elem_of_In, in_concat. exists c.2. split; [|by apply list_elem_of_In].
    apply list_elem_of_In, list_elem_of_fmap_2, Hin. }
  split_and!.
  - apply list_fmap_ext. intros k c Hk. f_equal. apply texts_same. apply Hc. by eapply list_elem_of_lookup_2.
  - apply Forall_forall. intros c Hin. eapply of_stream_same; [by apply Hc|]. by apply (proj1 (Forall_forall _ _) Hf).
  - eapply in_hand_same; [|done]. intros i Hi. apply Hs. set_solver.
Qed.

(** Another place of the same kind: not in the queue yet, or in it. *)
Definition place (pc : emitting) : option bool :=
  match pc with EFill _ => None | EWritten => Some true | _ => if queued pc then None else Some false end.

Lemma order_move as_ di qu po pu pe dr pr wa wr nu re sk fl em out i l pc pc' pe' dr' pr' wa' nu' re' :
  order (mkLogs as_ di qu po pu pe dr pr wa wr nu re sk fl em out) → em !! i = Some (l, pc) →
  queued pc' = queued pc → (∀ k, pc ≠ EFill k ∧ pc' ≠ EFill k) → pc ≠ EWritten → pc' ≠ EWritten → (pc' = EPush → as_ = true) →
  order (mkLogs as_ di qu po pu pe' dr' pr' wa' wr nu' re' sk fl (<[i := (l, pc')]> em) out).
Proof.
  intros [H1 H2 H3 H4 H5 H6 H7 H8 H9 Hpush H10] Hi Hq Hf Hw Hw' Hp'. cbn in *.
  assert (∀ calls, same_lines em (<[i := (l, pc')]> em) calls) as Hs by (intros calls j _; by eapply line_insert).
  split; cbn; try done.
  - apply Forall_insert; [done|]. cbn. by apply (proj1 (Forall_lookup _ _) H1 i (l, pc)).
  - destruct H2 as (chunks & cur & hand & E & Hc & Ho & Hh). exists chunks, cur, hand.
    destruct (out_same _ _ _ _ _ _ _ (Hs _) Ho Hc Hh) as (-> & ? & ?). done.
  - intros k j Hk. rewrite (line_insert _ _ _ _ _ _ Hi), (pc_insert _ _ _ _ _ _ Hi). destruct (H4 k j Hk) as [|[Hn Hp]]; [by left|].
    case_decide as Hji; [|by right]. subst j. exfalso. unfold pc_of in Hp. rewrite Hi in Hp. injection Hp as ->. by destruct (Hf (po + k)%nat).
  - intros j pos. rewrite (pc_insert _ _ _ _ _ _ Hi). case_decide; [|apply H5]. intros [= ->]. by destruct (Hf pos).
  - intros j. rewrite H6, (pc_insert _ _ _ _ _ _ Hi). case_decide as Hji; [|done]. subst j. unfold pc_of. rewrite Hi. cbn. split.
    + intros (p & [= <-] & Hp). exists pc'. by rewrite Hq.
    + intros (p & [= <-] & Hp). exists pc. by rewrite <- Hq.
  - intros j. rewrite H7, (pc_insert _ _ _ _ _ _ Hi). case_decide as Hji; [|done]. subst j. unfold pc_of. rewrite Hi. cbn. naive_solver.
  - intros j. rewrite (pc_insert _ _ _ _ _ _ Hi). case_decide; [|apply Hpush]. intros [= ->]. by apply Hp'.
Qed.

Lemma not_pushed s i l pc : order s → lg_emits s !! i = Some (l, pc) → queued pc = false → i ∉ lg_pushed s.
Proof. intros Ho Hi Hq Hin. apply (o_pushed s Ho) in Hin as (p & Hp & ?). unfold pc_of in Hp. rewrite Hi in Hp. injection Hp as <-. congruence. Qed.

(** A call that writes by itself. *)
Lemma order_direct di qu po pu pe dr pr wa wr nu re sk fl em out i l :
  order (mkLogs false di qu po pu pe dr pr wa wr nu re sk fl em out) → em !! i = Some (l, EAdd) →
  order (mkLogs false (di ++ [i]) qu po pu pe dr pr wa wr nu re sk fl (<[i := (l, EWritten)]> em)
           (out ++ [Wrote (file_of sk (ql_problem l)) (ql_problem l) (ql_text l)])).
Proof.
  intros Ho Hi. pose proof (not_pushed _ _ _ _ Ho Hi eq_refl) as Hnp. cbn in Hnp. destruct Ho as [H1 H2 H3 H4 H5 H6 H7 [H8 H8'] H9 Hpush H10]. cbn in *.
  destruct (H9 eq_refl) as [Hpu Hbuf]. subst pu. assert (po = 0%nat) as -> by (cbn in H3; lia). assert (qu = []) as -> by (apply nil_length_inv; cbn in H3; lia).
  assert (∀ calls, same_lines em (<[i := (l, EWritten)]> em) calls) as Hs by (intros calls j _; by eapply line_insert).
  assert (line_of em i = l) as Hl by (unfold line_of; by rewrite Hi).
  assert (ql_text l ≠ []) as Hne by (by apply (proj1 (Forall_lookup _ _) H1 i (l, EAdd))).
  split; cbn; try done.
  - apply Forall_insert; [done|]. done.
  - destruct H2 as (chunks & cur & hand & E & Hc & Ho & Hh). rewrite app_nil_r in Ho.
    assert (cur = [] ∧ hand = []) as [-> ->].
    { assert (Forall (fun j => ql_text (line_of em j) ≠ []) cur) as Hcur.
      { apply Forall_forall. intros j Hj. assert (j ∈ di) as Hd by (rewrite <- Ho; set_solver). apply H7 in Hd.
        unfold pc_of in Hd. unfold line_of. destruct (em !! j) as [[lj pj]|] eqn:Ej; [|done]. by apply (proj1 (Forall_lookup _ _) H1 j (lj, pj)). }
      unfold in_hand in Hh. destruct fl as [f|]; [|tauto]. destruct Hh as (Hb & _ & Hp), Hbuf as [Hbuf Hpc]. split.
      - rewrite Hbuf in Hb. destruct cur as [|j cur]; [done|]. inversion_clear Hcur as [|? ? Hj _]. unfold texts in Hb. cbn in Hb. by destruct (ql_text (line_of em j)).
      - destruct (fl_pc f) eqn:Ep; try done. by destruct (Hpc l0). }
    destruct (out_same _ _ _ _ _ _ _ (Hs _) Ho Hc Hh) as (He & Hc' & Hh').
    exists (chunks ++ [(ql_problem l, [i])]), [], []. split_and!.
    + rewrite written_app, E, <- He, fmap_app. cbn. do 3 f_equal. unfold texts. cbn. by rewrite (line_insert _ _ _ _ _ _ Hi), Hl, app_nil_r.
    + apply Forall_app. split; [done|]. constructor; [|constructor]. constructor; [|constructor]. unfold of_stream. cbn. by rewrite (line_insert _ _ _ _ _ _ Hi), Hl.
    + rewrite fmap_app, concat_app. cbn. rewrite !app_nil_r in *. by rewrite Ho.
    + done.
  - intros j pos. rewrite (pc_insert _ _ _ _ _ _ Hi). case_decide; [done|]. apply H5.
  - intros j. split; [by intros ?%elem_of_nil|]. rewrite (pc_insert _ _ _ _ _ _ Hi). case_decide; [naive_solver|]. intros Hp. by apply H6.
  - intros j. rewrite elem_of_app, list_elem_of_singleton, H7, (pc_insert _ _ _ _ _ _ Hi). case_decide; [subst; naive_solver|]. naive_solver.
  - split; [|done]. apply NoDup_app. split_and!; [done| |apply NoDup_singleton]. intros j Hj ->%list_elem_of_singleton. apply H7 in Hj. unfold pc_of in Hj. by rewrite Hi in Hj.
  - intros j. rewrite (pc_insert _ _ _ _ _ _ Hi). case_decide; [done|apply Hpush].
Qed.

(** A call that claims a cell, and one that fills it. *)
Lemma order_claim di qu po pu pe dr pr wa wr nu re sk fl em out i l :
  order (mkLogs true di qu po pu pe dr pr wa wr nu re sk fl em out) → em !! i = Some (l, EPush) →
  order (mkLogs true di (qu ++ [None]) po (pu ++ [i]) pe dr pr wa wr nu re sk fl (<[i := (l, EFill (po + length qu))]> em) out).
Proof.
  intros Ho Hi. pose proof (not_pushed _ _ _ _ Ho Hi eq_refl) as Hnp. cbn in Hnp. destruct Ho as [H1 H2 H3 H4 H5 H6 H7 [H8 H8'] H9 Hpush H10]. cbn in *.
  set (pc' := EFill (po + length qu)).
  assert (∀ calls, same_lines em (<[i := (l, pc')]> em) calls) as Hs by (intros calls j _; by eapply line_insert).
  split; cbn; try done.
  - apply Forall_insert; [done|]. cbn. by apply (proj1 (Forall_lookup _ _) H1 i (l, EPush)).
  - destruct H2 as (chunks & cur & hand & E & Hc & Ho & Hh). exists chunks, cur, hand.
    destruct (out_same _ _ _ _ _ _ _ (Hs _) Ho Hc Hh) as (-> & ? & ?). split_and!; try done. rewrite take_app_le by lia. done.
  - rewrite !length_app. cbn. lia.
  - intros k j Hk. rewrite (line_insert _ _ _ _ _ _ Hi), (pc_insert _ _ _ _ _ _ Hi). apply lookup_app_Some in Hk as [Hk|[Hle Hk]].
    + pose proof (lookup_lt_Some _ _ _ Hk). rewrite lookup_app_l by lia. rewrite decide_False; [by apply H4|]. intros ->. apply Hnp. by eapply list_elem_of_lookup_2.
    + apply list_lookup_singleton_Some in Hk as [Hk ->]. right. rewrite decide_True by done. replace k with (length qu) by lia.
      split; [|done]. by rewrite lookup_app_r, Nat.sub_diag.
  - intros j pos. rewrite (pc_insert _ _ _ _ _ _ Hi). case_decide as Hji.
    + subst j. intros [= <-]. split_and!; [|lia|]; rewrite lookup_app_r by lia.
      * replace (po + length qu - length pu)%nat with 0%nat by lia. done.
      * replace (po + length qu - po - length qu)%nat with 0%nat by lia. done.
    + intros Hp. destruct (H5 _ _ Hp) as (Ha & Hb & Hc). split_and!; [|done|]; apply lookup_app_l_Some; done.
  - intros j. rewrite elem_of_app, list_elem_of_singleton, H6, (pc_insert _ _ _ _ _ _ Hi). case_decide as Hji; [|naive_solver].
    subst j. split; [|by right]. intros _. by exists pc'.
  - intros j. rewrite H7, (pc_insert _ _ _ _ _ _ Hi). case_decide as Hji; [|done]. subst j. unfold pc_of. rewrite Hi. cbn. naive_solver.
  - split; [done|]. apply NoDup_app. split_and!; [done| |apply NoDup_singleton]. by intros j Hj ->%list_elem_of_singleton.
Qed.

Lemma order_fill as_ di qu po pu pe dr pr wa wr nu re sk fl em out i l pos pc' :
  order (mkLogs as_ di qu po pu pe dr pr wa wr nu re sk fl em out) → em !! i = Some (l, EFill pos) →
  queued pc' = true → (∀ k, pc' ≠ EFill k) →
  order (mkLogs as_ di (<[(pos - po)%nat := Some l]> qu) po pu pe dr pr wa wr nu re sk fl (<[i := (l, pc')]> em) out).
Proof.
  intros Ho Hi Hq Hf. destruct Ho as [H1 H2 H3 H4 H5 H6 H7 [H8 H8'] H9 Hpush H10]. cbn in *.
  assert (∀ calls, same_lines em (<[i := (l, pc')]> em) calls) as Hs by (intros calls j _; by eapply line_insert).
  assert (pc_of em i = Some (EFill pos)) as Hpc by (unfold pc_of; by rewrite Hi).
  destruct (H5 _ _ Hpc) as (Ha & Hb & Hcell). pose proof (lookup_lt_Some _ _ _ Hcell) as Hlt.
  split; cbn; try done.
  - apply Forall_insert; [done|]. cbn. by apply (proj1 (Forall_lookup _ _) H1 i (l, EFill pos)).
  - destruct H2 as (chunks & cur & hand & E & Hc & Ho & Hh). exists chunks, cur, hand.
    destruct (out_same _ _ _ _ _ _ _ (Hs _) Ho Hc Hh) as (-> & ? & ?). done.
  - by rewrite length_insert.
  - intros k j Hk. rewrite (line_insert _ _ _ _ _ _ Hi), (pc_insert _ _ _ _ _ _ Hi). destruct (decide (k = (pos - po)%nat)) as [->|Hne].
    + rewrite list_lookup_insert_eq by done. left. replace (po + (pos - po))%nat with pos in Hk by lia. rewrite Hk in Ha. injection Ha as ->.
      unfold line_of. by rewrite Hi.
    + rewrite list_lookup_insert_ne by done. rewrite decide_False; [by apply H4|]. intros ->. apply Hne.
      pose proof (NoDup_lookup _ _ _ _ H8' Hk Ha). lia.
  - intros j p. rewrite (pc_insert _ _ _ _ _ _ Hi). case_decide as Hji; [intros [= ->]; by destruct (Hf p)|]. intros Hp.
    destruct (H5 _ _ Hp) as (Ha' & Hb' & Hc'). split_and!; [done..|]. rewrite list_lookup_insert_ne; [done|].
    intros He. apply Hji. replace p with pos in Ha' by lia. rewrite Ha in Ha'. by injection Ha'.
  - intros j. rewrite H6, (pc_insert _ _ _ _ _ _ Hi). case_decide as Hji; [|done]. subst j. rewrite Hpc. split; intros _; [by exists pc'|by exists (EFill pos)].
  - intros j. rewrite H7, (pc_insert _ _ _ _ _ _ Hi). case_decide as Hji; [|done]. subst j. rewrite Hpc. split; [done|]. intros [= ->]. done.
  - intros j. rewrite (pc_insert _ _ _ _ _ _ Hi). case_decide; [|apply Hpush]. intros [= ->]. done.
Qed.

(** A new call. *)
Lemma order_call as_ di qu po pu pe dr pr wa wr nu re sk fl em out l :
  order (mkLogs as_ di qu po pu pe dr pr wa wr nu re sk fl em out) → ql_text l ≠ [] →
  order (mkLogs as_ di qu po pu pe dr pr wa wr nu re sk fl (em ++ [(l, ENumber)]) out).
Proof.
  intros [H1 H2 H3 H4 H5 H6 H7 H8 H9 Hpush H10] Hl. cbn in *.
  assert (∀ j, is_Some (pc_of em j) → (j < length em)%nat) as Hin by (intros j [p Hp]; apply fmap_Some in Hp as (x & Hp & _); by eapply lookup_lt_Some).
  assert (∀ j, (j < length em)%nat → line_of (em ++ [(l, ENumber)]) j = line_of em j ∧ pc_of (em ++ [(l, ENumber)]) j = pc_of em j) as Hold.
  { intros j Hj. unfold line_of, pc_of. by rewrite lookup_app_l. }
  assert (∀ j, j ∈ di ++ pu → (j < length em)%nat) as Hdom.
  { intros j [Hj|Hj]%elem_of_app; apply Hin; [apply H7 in Hj|apply H6 in Hj as (p & Hj & _)]; by rewrite Hj. }
  assert (∀ j p, p ≠ ENumber → pc_of (em ++ [(l, ENumber)]) j = Some p ↔ pc_of em j = Some p) as Hpc.
  { intros j p Hp. destruct (decide (j < length em)%nat) as [Hj|Hj]; [by rewrite (proj2 (Hold j Hj))|]. unfold pc_of.
    rewrite lookup_app_r by lia. rewrite (lookup_ge_None_2 em) by lia. destruct (j - length em)%nat as [|k]; cbn; [naive_solver|done]. }
  split; cbn; try done.
  - apply Forall_app. split; [done|]. by constructor.
  - destruct H2 as (chunks & cur & hand & E & Hc & Ho & Hh). exists chunks, cur, hand.
    assert (same_lines em (em ++ [(l, ENumber)]) (di ++ take po pu)) as Hs.
    { intros j Hj. apply Hold, Hdom. apply elem_of_app in Hj as [|H]; apply elem_of_app; [by left|right]. apply elem_of_take in H as (? & ? & _). by eapply list_elem_of_lookup_2. }
    destruct (out_same _ _ _ _ _ _ _ Hs Ho Hc Hh) as (-> & ? & ?). done.
  - intros k j Hk. assert (j < length em)%nat as Hj by (apply Hdom, elem_of_app; right; by eapply list_elem_of_lookup_2).
    destruct (Hold j Hj) as [-> ->]. by apply H4.
  - intros j p. rewrite Hpc by done. apply H5.
  - intros j. rewrite H6. split; intros (p & Hp & Hq); exists p; (split; [|done]); apply Hpc; done || (by intros ->).
  - intros j. rewrite H7. symmetry. by apply Hpc.
  - intros j. rewrite Hpc by done. apply Hpush.
Qed.

(** ** The flusher *)

Lemma no_lines s cur hand order_ : order s → cur ++ hand `suffix_of` order_ → order_ = lg_direct s ++ take (lg_popped s) (lg_pushed s) →
  texts (lg_emits s) cur = [] → cur = [].
Proof.
  intros Ho [k Hk] -> Ht. destruct cur as [|i cur]; [done|]. exfalso. unfold texts in Ht. cbn in Ht. apply app_eq_nil in Ht as [Ht _].
  assert (i ∈ lg_direct s ++ lg_pushed s) as Hi.
  { assert (i ∈ lg_direct s ++ take (lg_popped s) (lg_pushed s)) as Hi by (rewrite Hk; set_solver).
    apply elem_of_app in Hi as [|(? & ? & _)%elem_of_take]; apply elem_of_app; [by left|right]. by eapply list_elem_of_lookup_2. }
  assert (is_Some (pc_of (lg_emits s) i)) as [p Hp].
  { apply elem_of_app in Hi as [Hi|Hi]; [apply (o_direct s Ho) in Hi|apply (o_pushed s Ho) in Hi as (p & Hi & _)]; eauto. }
  unfold pc_of in Hp. unfold line_of in Ht. destruct (lg_emits s !! i) as [[l q]|] eqn:E; [|done].
  by apply (proj1 (Forall_lookup _ _) (o_lines s Ho) i (l, q) E).
Qed.

Lemma wrote_cur em f out chunks cur hand :
  written out = (fun c : bool * list nat => (c.1, texts em c.2)) <$> chunks → Forall (fun c => Forall (of_stream em c.1) c.2) chunks →
  in_hand em (Some f) cur hand → (texts em cur = [] → cur = []) →
  ∃ chunks', written (out ++ write_out f) = (fun c : bool * list nat => (c.1, texts em c.2)) <$> chunks' ∧
    Forall (fun c => Forall (of_stream em c.1) c.2) chunks' ∧ concat (snd <$> chunks') = concat (snd <$> chunks) ++ cur.
Proof.
  intros E Hc (Hb & Hf & _) Hno. unfold write_out. rewrite Hb. case_bool_decide as Hd.
  - exists chunks. by rewrite !app_nil_r, (Hno Hd), app_nil_r.
  - exists (chunks ++ [(fl_problem f, cur)]). rewrite written_app, E, !fmap_app, concat_app. cbn. split_and!; [done| |by rewrite app_nil_r].
    apply Forall_app. split; [done|]. by repeat constructor.
Qed.

Lemma order_flush s s' : order s → flush_step s = Some s' → order s'.
Proof.
  intros Ho. pose proof (no_lines s) as Hno. destruct s as [as_ di qu po pu pe dr pr wa wr nu re sk fl em out]. cbn [flush_step].
  destruct fl as [[who pc fs buf problem]|]; [|done]. pose proof Ho as [H1 (chunks & cur & hand & E & Hc & Heq & Hh) H3 H4 H5 H6 H7 H8 H9 Hpush H10].
  cbn [lg_emits lg_direct lg_popped lg_pushed lg_queue lg_async lg_flush lg_out fl_buf fl_pc fl_problem fl_sinks in_hand] in *.
  assert (texts em cur = [] → cur = []) as Hcur.
  { eapply (Hno cur hand); [done|by eexists|by rewrite <- Heq]. }
  pose proof Hh as (Hb & Hf & Hp). cbn [fl_buf fl_problem fl_pc] in Hb, Hf, Hp.
  destruct pc; cbn [lg_emits lg_direct lg_popped lg_pushed lg_queue lg_async lg_flush lg_out fl_buf fl_pc fl_problem fl_sinks] in *.
  - (* FReset *) injection 1 as <-. split; cbn; try done; [by exists chunks, cur, hand|]. intros Ha. destruct (H9 Ha) as (? & ? & _). done.
  - (* FSinks *) injection 1 as <-. rewrite H10 in Hb. specialize (Hcur (eq_sym Hb)). subst cur hand.
    split; cbn; try done; [by exists chunks, [], []|]. intros Ha. by destruct (H9 Ha).
  - (* FPop *) subst hand. destruct qu as [|[l|] qu].
    1, 3: injection 1 as <-; destruct (wrote_cur em (mkFlushing who FPop fs buf problem) out chunks cur [] E Hc Hh Hcur) as (chunks' & E' & Hc' & Hcat);
      (split; cbn; try done; [exists chunks', [], []; rewrite app_nil_r in Heq; by rewrite Hcat, !app_nil_r|]); intros Ha; by destruct (H9 Ha).
    injection 1 as <-. destruct (lookup_lt_is_Some_2 pu po) as [i Hi]; [cbn in H3; lia|].
    assert (line_of em i = l) as Hl.
    { destruct (H4 0%nat i) as [Hx|[Hx _]]; [by rewrite Nat.add_0_r|..]; cbn in Hx; by injection Hx. }
    split; cbn; try done.
    + exists chunks, cur, [i]. split_and!; try done; [|by exists i].
      rewrite (take_S_r _ _ _ Hi), !app_assoc. f_equal. rewrite <- Heq, app_nil_r. done.
    + cbn in H3. lia.
    + intros k j Hk. replace (S (po + k))%nat with (po + S k)%nat in * by lia. apply (H4 (S k) j Hk).
    + intros j pos Hj. destruct (H5 j pos Hj) as (Ha & Hb' & Hc'). destruct (decide (pos = po)) as [->|]; [rewrite Nat.sub_diag in Hc'; done|].
      split_and!; [done|lia|]. replace (pos - po)%nat with (S (pos - S po)) in Hc' by lia. done.
    + intros Ha. destruct (H9 Ha) as [Hx _]. exfalso. rewrite Hx, lookup_nil in Hi. discriminate Hi.
  - (* FPopped *) destruct Hp as (i & -> & Hl).
    assert (as_ = false → False) as Hs by (intros Ha; destruct (H9 Ha) as (_ & _ & Hx); by destruct (Hx l)).
    destruct (_ || _) eqn:Ec; injection 1 as <-.
    + destruct (wrote_cur em (mkFlushing who (FPopped l) fs buf problem) out chunks cur [i] E Hc (conj Hb (conj Hf (ex_intro _ i (conj eq_refl Hl)))) Hcur) as (chunks' & E' & Hc' & Hcat).
      split; cbn; try done.
      exists chunks', [i], []. rewrite Hcat. split_and!; try done; [by rewrite <- Heq, app_nil_r, app_assoc| |by repeat constructor; unfold of_stream; rewrite Hl]. unfold texts. cbn. by rewrite Hl, app_nil_r.
    + apply orb_false_iff in Ec as [Ec _]. apply negb_false_iff in Ec. apply eqb_prop in Ec.
      split; cbn; try done.
      exists chunks, (cur ++ [i]), []. split_and!; try done; [by rewrite app_nil_r| |apply Forall_app; split; [done|]].
      * rewrite texts_app, Hb. f_equal. unfold texts. cbn. by rewrite Hl, app_nil_r.
      * repeat constructor. unfold of_stream. by rewrite Hl.
  - (* FSwap *) injection 1 as <-. split; cbn; try done; [|intros Ha; by destruct (H9 Ha) as (? & ? & _)].
    exists chunks, cur, hand. split_and!; try done. rewrite written_app. destruct (0 <? dr); cbn; by rewrite app_nil_r.
  - (* FEnd *) injection 1 as <-. rewrite H10 in Hb. specialize (Hcur (eq_sym Hb)). subst cur hand.
    split; cbn; try done; [by exists chunks, [], []|]. intros Ha. by destruct (H9 Ha).
Qed.

Lemma order_emit s s' i busy : order s → emit_step i busy s = Some s' → order s'.
Proof.
  intros Ho. destruct s as [as_ di qu po pu pe dr pr wa wr nu re sk fl em out]. cbn [emit_step].
  destruct (em !! i) as [[l pc]|] eqn:Hi; [|done]. destruct pc; try done.
  1, 2, 4, 6, 7, 9, 10: injection 1 as <-; eapply order_move; [exact Ho|exact Hi|..]; try (destruct pr; done); intros k; destruct pr; done.
  - (* EAdd *) destruct as_; injection 1 as <-; [|by apply order_direct].
    eapply order_move; [exact Ho|exact Hi|..]; try done; intros; by destruct (maxPendingLog <? _).
  - (* EPush *) destruct (busy || _); injection 1 as <-; [eapply order_move; [exact Ho|exact Hi|done..]|].
    destruct as_; [by apply order_claim|]. pose proof (o_push _ Ho i) as Hp. cbn in Hp. unfold pc_of in Hp. rewrite Hi in Hp. by specialize (Hp eq_refl).
  - (* EFill *) injection 1 as <-. eapply order_fill; [exact Ho|exact Hi|by destruct (ql_problem l)..].
Qed.

Lemma order_quiet_step as_ di qu po pu pe dr pr wa wr nu re sk fl em out pe' dr' pr' wa' wr' nu' re' sk' :
  order (mkLogs as_ di qu po pu pe dr pr wa wr nu re sk fl em out) →
  order (mkLogs as_ di qu po pu pe' dr' pr' wa' wr' nu' re' sk' fl em out).
Proof. intros [H1 H2 H3 H4 H5 H6 H7 H8 H9 Hpush H10]. by split. Qed.

Lemma order_step s s' : order s → log_step s s' → order s'.
Proof.
  intros Ho Hs. destruct Hs as [as_ di qu po pu pe dr pr wa wr nu re sk fl em out stamp text problem|s s' i busy He|as_ di qu po pu pe dr pr wa wr nu re sk fl em out
    |di qu po pu pe dr pr wa nu re sk fl em out woken Hw|s s' who Hw Hb|s s' Hf].
  - apply order_call; [done|]. cbn. by destruct stamp.
  - by eapply order_emit.
  - destruct Ho as [H1 H2 H3 H4 H5 H6 H7 H8 H9 Hpush H10]. by split.
  - by eapply order_quiet_step.
  - destruct s as [as_ di qu po pu pe dr pr wa wr nu re sk fl em out]. cbn in Hb. destruct fl; [done|]. injection Hb as <-.
    destruct Ho as [H1 (chunks & cur & hand & E & Hc & Heq & [-> ->]) H3 H4 H5 H6 H7 H8 H9 Hpush H10]. split; cbn; try done.
    + by exists chunks, [], [].
    + intros Ha. by destruct (H9 Ha).
  - by eapply order_flush.
Qed.

Lemma order_reached async sk s : rtc log_step (quiet_logs async sk) s → order s.
Proof.
  intros Hs. eapply (rtc_invariant log_step order); [intros x y; apply order_step|exact Hs|].
  split; cbn; try done.
  - by exists [], [], [].
  - intros i. split; [by intros ?%elem_of_nil|]. by intros (p & Hp & _).
  - intros i. split; [by intros ?%elem_of_nil|done].
  - split; apply NoDup_nil_2.
Qed.

(** * The accounts *)

Definition size_of (l : queuedLine) : Z := len (ql_text l).
Definition cell_size (c : option queuedLine) : Z := from_option size_of 0 c.
Definition hand_size (fl : option flushing) : Z := match fl with Some (mkFlushing _ (FPopped l) _ _ _) => size_of l | _ => 0 end.
(** Counted in [pendingBytes], and those of them the queue will hold. *)
Definition held (e : queuedLine * emitting) : Z := match e.2 with EOver | EPush | EFull | EFill _ => size_of e.1 | _ => 0 end.
Definition admitted (e : queuedLine * emitting) : Z := match e.2 with EPush | EFill _ => size_of e.1 | _ => 0 end.
Definition is_dropped (e : queuedLine * emitting) : Z := match e.2 with EDropped => 1 | _ => 0 end.

Record accounts (s : logs) : Prop := {
  a_pending : lg_pending s = sum_of cell_size (lg_queue s) + hand_size (lg_flush s) + sum_of held (lg_emits s);
  a_bound : sum_of cell_size (lg_queue s) + sum_of admitted (lg_emits s) <= maxPendingLog;
  a_cells : len (lg_queue s) <= maxPendingLines;
  a_dropped : lg_dropped s + noticed (lg_out s) = sum_of is_dropped (lg_emits s);
  a_positive : 0 <= lg_dropped s;
}.

#[local] Arguments sum_of : simpl never.
#[local] Arguments noticed : simpl never.
Lemma sum_of_cons {A} (f : A → Z) x l : sum_of f (x :: l) = f x + sum_of f l.
Proof. done. Qed.
Lemma sum_of_nil {A} (f : A → Z) : sum_of f [] = 0.
Proof. done. Qed.
Lemma size_pos l : 0 <= size_of l.
Proof. apply len_nonneg. Qed.
Lemma sum_le {A} (f g : A → Z) l : (∀ x, f x <= g x) → sum_of f l <= sum_of g l.
Proof. intros H. unfold sum_of. induction l as [|x l IH]; cbn; [lia|]. pose proof (H x). lia. Qed.
Lemma hand_pos fl : 0 <= hand_size fl.
Proof. destruct fl as [[? [] ? ? ?]|]; cbn; try lia. apply size_pos. Qed.
Lemma noticed_app out out' : noticed (out ++ out') = noticed out + noticed out'.
Proof. apply sum_of_app. Qed.

Lemma noticed_wrote out p t d : noticed (out ++ [Wrote d p t]) = noticed out.
Proof. rewrite noticed_app. change (noticed [Wrote d p t]) with 0. lia. Qed.
(** The sums after a change of call [Hi] (cell [Hi]). *)
Ltac sums Hi := cbn; rewrite ?(sum_of_insert _ _ _ _ _ Hi), ?sum_of_app, ?sum_of_cons, ?sum_of_nil, ?len_app; cbn; unfold size_of in *; try lia.

Lemma accounts_emit s s' i busy : order s → accounts s → emit_step i busy s = Some s' → accounts s'.
Proof.
  intros Ho [A1 A2 A3 A4 A5]. pose proof (o_fill s Ho i) as Hfill. destruct s as [as_ di qu po pu pe dr pr wa wr nu re sk fl em out]. cbn [emit_step].
  destruct (em !! i) as [[l pc]|] eqn:Hi; [|done]. cbn in *.
  assert (sum_of admitted em <= sum_of held em) as Hle by (apply sum_le; intros [x []]; cbn; pose proof (size_pos x); lia).
  pose proof (hand_pos fl). pose proof (size_pos l).
  destruct pc; try done.
  3:{ destruct as_; injection 1 as <-.
      - destruct (Z.ltb_spec maxPendingLog (pe + len (ql_text l))); split; sums Hi.
      - split; sums Hi. rewrite noticed_wrote. lia. }
  4:{ destruct (busy || _) eqn:Eb; injection 1 as <-; [split; sums Hi|].
      apply orb_false_iff in Eb as [_ Eb%Z.leb_gt]. split; sums Hi. unfold len in *. cbn. lia. }
  6:{ injection 1 as <-. destruct (Hfill pos) as (_ & _ & Hc); [unfold pc_of; by rewrite Hi|].
      split; sums Hi; rewrite ?(sum_of_insert _ _ _ _ _ Hc); cbn; try (destruct (ql_problem l); cbn; unfold size_of in *; lia).
      unfold len in *. by rewrite length_insert. }
  all: injection 1 as <-; split; sums Hi; destruct pr; cbn; lia.
Qed.

Lemma write_out_quiet f : noticed (write_out f) = 0.
Proof. unfold write_out. by case_bool_decide. Qed.

Lemma accounts_flush s s' : accounts s → flush_step s = Some s' → accounts s'.
Proof.
  intros [A1 A2 A3 A4 A5]. destruct s as [as_ di qu po pu pe dr pr wa wr nu re sk fl em out]. cbn [flush_step].
  destruct fl as [[who pc fs buf problem]|]; [|done]. cbn in *.
  destruct pc.
  - injection 1 as <-. by split.
  - injection 1 as <-. by split.
  - destruct qu as [|[l|] qu]; injection 1 as <-; split; cbn in *; rewrite ?noticed_app, ?write_out_quiet, ?len_cons, ?sum_of_cons in *; cbn in *; try lia.
    all: try (pose proof (size_pos l)); try lia.
  - unfold size_of in *. destruct (_ || _); injection 1 as <-; split; cbn; rewrite ?noticed_app, ?write_out_quiet; lia.
  - injection 1 as <-. split; cbn; rewrite ?noticed_app; try lia. destruct (Z.ltb_spec 0 dr); [change (noticed [Notice (sk_err fs) dr]) with (dr + 0)|change (noticed []) with 0]; lia.
  - injection 1 as <-. by split.
Qed.

Lemma accounts_step s s' : order s → accounts s → log_step s s' → accounts s'.
Proof.
  intros Ho Ha Hs. destruct Hs as [as_ di qu po pu pe dr pr wa wr nu re sk fl em out stamp text problem|s s' i busy He|as_ di qu po pu pe dr pr wa wr nu re sk fl em out
    |di qu po pu pe dr pr wa nu re sk fl em out woken Hw|s s' who Hw Hb|s s' Hf].
  - destruct Ha as [A1 A2 A3 A4 A5]. split; cbn in *; rewrite ?sum_of_app, ?sum_of_cons, ?sum_of_nil; cbn; lia.
  - by eapply accounts_emit.
  - destruct Ha. by split.
  - destruct Ha. by split.
  - destruct s as [as_ di qu po pu pe dr pr wa wr nu re sk fl em out]. cbn in Hb. destruct fl; [done|]. injection Hb as <-. destruct Ha. by split.
  - by eapply accounts_flush.
Qed.

(** ** Waking the writer *)

(** The writer is to flush, and has not begun to. *)
Definition to_flush (s : logs) : Prop :=
  lg_writing s = true ∧ match lg_flush s with Some (mkFlushing Writer pc _ _ _) => pc = FReset | _ => True end.

Record wakes (s : logs) : Prop := {
  w_problem : lg_problem s = true → lg_wake s = true ∨ to_flush s ∨ ∃ i l, lg_emits s !! i = Some (l, ESend);
  w_writer : match lg_flush s with Some (mkFlushing Writer _ _ _ _) => lg_writing s = true | _ => True end;
}.

Lemma wakes_emit s s' i busy : wakes s → emit_step i busy s = Some s' → wakes s'.
Proof.
  intros [W1 W2]. destruct s as [as_ di qu po pu pe dr pr wa wr nu re sk fl em out]. cbn [emit_step].
  destruct (em !! i) as [[l pc]|] eqn:Hi; [|done]. unfold to_flush in *. cbn in *.
  assert (∀ pc', pc ≠ ESend → (∃ j k, em !! j = Some (k, ESend)) → ∃ j k, <[i := (l, pc')]> em !! j = Some (k, ESend)) as Hkeep.
  { intros pc' Hp (j & k & Hj). exists j, k. rewrite list_lookup_insert_ne; [done|]. intros ->. rewrite Hi in Hj. by injection Hj as _ ->. }
  destruct pc; try done.
  9:{ injection 1 as <-. split; [|done]. intros _. destruct pr.
      - destruct (W1 eq_refl) as [?|[?|?]]; [by left|right; by left|right; right; by apply Hkeep].
      - right; right. exists i, l. apply list_lookup_insert_eq. by eapply lookup_lt_Some. }
  9:{ injection 1 as <-. split; [|done]. intros _. by left. }
  all: repeat (match goal with |- context [if ?b then Some _ else _] => destruct b end); injection 1 as <-; (split; [|done]);
    intros Hp; (destruct (W1 Hp) as [?|[?|?]]; [by left|right; by left|right; right; by apply Hkeep]).
Qed.

Lemma wakes_step s s' : wakes s → log_step s s' → wakes s'.
Proof.
  intros Hw Hs. destruct Hs as [as_ di qu po pu pe dr pr wa wr nu re sk fl em out stamp text problem|s s' i busy He|as_ di qu po pu pe dr pr wa wr nu re sk fl em out
    |di qu po pu pe dr pr wa nu re sk fl em out woken Hk|s s' who Hk Hb|s s' Hf].
  - destruct Hw as [W1 W2]. split; [|done]. cbn in *. intros Hp. destruct (W1 Hp) as [?|[?|(i & l & Hi)]]; [by left|right; by left|right; right].
    exists i, l. by apply lookup_app_l_Some.
  - by eapply wakes_emit.
  - destruct Hw as [W1 W2]. by split.
  - destruct Hw as [W1 W2]. unfold to_flush in *. cbn in *. split; cbn.
    + intros Hp. right; left. split; [done|]. destruct fl as [[[] pc ? ? ?]|]; done.
    + by destruct fl as [[[] ? ? ? ?]|].
  - destruct s as [as_ di qu po pu pe dr pr wa wr nu re sk fl em out]. cbn in Hb, Hk. destruct fl; [done|]. injection Hb as <-.
    destruct Hw as [W1 W2]. unfold to_flush in *. cbn in *. split; cbn; [|destruct who; auto].
    intros Hp. destruct (W1 Hp) as [?|[[? _]|?]]; [by left|right; left; split; [done|by destruct who]|right; by right].
  - destruct s as [as_ di qu po pu pe dr pr wa wr nu re sk fl em out]. destruct Hw as [W1 W2]. unfold to_flush in *. cbn in Hf.
    destruct fl as [[wh pc fs buf problem]|]; [|done]. cbn in *.
    destruct pc, wh; simplify_eq/=; repeat (case_match; simplify_eq/=); (split; cbn; [|done]); try done; unfold to_flush; cbn; intros Hp; (destruct (W1 Hp) as [?|[[Hr Hfl]|?]]; [by left| |by right; right]);
      try discriminate Hfl; right; left; by split.
Qed.

(** * The newest lines *)

Definition numbered_text (s : logs) (n : nat) : option bytes :=
  (fun i => recent_text (ql_text (line_of (lg_emits s) i))) <$> lg_numbered s !! n.

Record recents (s : logs) : Prop := {
  r_known : ∀ i, i ∈ lg_numbered s → (i < length (lg_emits s))%nat;
  r_store : ∀ i l n, lg_emits s !! i = Some (l, EStore n) → lg_numbered s !! n = Some i;
  r_slot : ∀ k n t, lg_recent s !! k = Some (n, t) → k = (n mod recentLogSize)%nat ∧ numbered_text s n = Some t;
}.
#[local] Opaque recentLogSize.

(** Lines never change, and keep their number. *)
Definition grows (s s' : logs) : Prop :=
  lg_numbered s `prefix_of` lg_numbered s' ∧ (length (lg_emits s) <= length (lg_emits s'))%nat ∧
  ∀ i, (i < length (lg_emits s))%nat → line_of (lg_emits s') i = line_of (lg_emits s) i.

Lemma grows_text s s' n t : recents s → grows s s' → numbered_text s n = Some t → numbered_text s' n = Some t.
Proof.
  intros Hr (Hp & _ & Hl). unfold numbered_text. intros (i & Hi & ->)%fmap_Some. rewrite (prefix_lookup_Some _ _ _ _ Hi Hp). cbn. rewrite Hl; [done|].
  apply (r_known s Hr). by eapply list_elem_of_lookup_2.
Qed.

Lemma logs_grow_refl s : grows s s. Proof. by split_and!. Qed.
Lemma grows_trans s1 s2 s3 : grows s1 s2 → grows s2 s3 → grows s1 s3.
Proof.
  intros (H1 & H2 & H3) (K1 & K2 & K3). split_and!; [by etransitivity|lia|]. intros i Hi. rewrite K3 by lia. by apply H3.
Qed.

Lemma emit_step_emits s s' i busy : emit_step i busy s = Some s' → ∃ l pc pc', lg_emits s !! i = Some (l, pc) ∧ lg_emits s' = <[i := (l, pc')]> (lg_emits s) ∧
  (pc = ENumber ∧ pc' = EStore (length (lg_numbered s)) ∧ lg_numbered s' = lg_numbered s ++ [i] ∧ lg_recent s' = lg_recent s ∨
   lg_numbered s' = lg_numbered s ∧ (∀ n, pc' ≠ EStore n) ∧
     (lg_recent s' = lg_recent s ∨ ∃ n, pc = EStore n ∧ lg_recent s' = <[(n mod recentLogSize)%nat := (n, recent_text (ql_text l))]> (lg_recent s))).
Proof.
  destruct s as [as_ di qu po pu pe dr pr wa wr nu re sk fl em out]. cbn [emit_step].
  destruct (em !! i) as [[l pc]|] eqn:Hi; [|done]. intros H. exists l, pc.
  destruct pc; try done; repeat (match type of H with (if ?b then _ else _) = _ => destruct b end);
    injection H as <-; eexists; cbn; (split; [done|]; split; [done|]); try (by left); right; (split; [done|]); split; try (by left); try (by right; eexists);
    intros n'; repeat case_match; done.
Qed.

Lemma step_grows s s' : log_step s s' → grows s s'.
Proof.
  intros Hs. destruct Hs as [as_ di qu po pu pe dr pr wa wr nu re sk fl em out stamp text problem|s s' i busy He|as_ di qu po pu pe dr pr wa wr nu re sk fl em out
    |di qu po pu pe dr pr wa nu re sk fl em out woken Hk|s s' who Hk Hb|s s' Hf]; try by split_and!.
  - split_and!; cbn; [done|rewrite length_app; lia|]. intros i Hi. unfold line_of. by rewrite lookup_app_l.
  - destruct (emit_step_emits _ _ _ _ He) as (l & pc & pc' & Hi & Hem & Hc). split_and!.
    + destruct Hc as [(_ & _ & -> & _)|(-> & _)]; [by eexists|done].
    + by rewrite Hem, length_insert.
    + intros j _. rewrite Hem. by eapply line_insert.
  - destruct s. cbn in Hb. destruct lg_flush0; [done|]. injection Hb as <-. by split_and!.
  - destruct s. cbn in Hf. repeat case_match; simplify_eq/=; by split_and!.
Qed.

Lemma recents_step s s' : recents s → log_step s s' → recents s'.
Proof.
  intros Hr Hs. pose proof (step_grows _ _ Hs) as Hg. pose proof Hr as [R1 R2 R3].
  assert (lg_numbered s' = lg_numbered s → (∀ i l n, lg_emits s' !! i = Some (l, EStore n) → ∃ l, lg_emits s !! i = Some (l, EStore n)) →
    lg_recent s' = lg_recent s → recents s') as Hquiet.
  { intros En Est Ere. split.
    - intros i Hi. rewrite En in Hi. destruct Hg as (_ & Hle & _). specialize (R1 i Hi). lia.
    - intros i l n Hi. destruct (Est _ _ _ Hi) as [l' Hi']. rewrite En. by eapply R2.
    - intros k n t Hk. rewrite Ere in Hk. destruct (R3 _ _ _ Hk). split; [done|]. by eapply grows_text. }
  destruct Hs as [as_ di qu po pu pe dr pr wa wr nu re sk fl em out stamp text problem|s s' i busy He|as_ di qu po pu pe dr pr wa wr nu re sk fl em out
    |di qu po pu pe dr pr wa nu re sk fl em out woken Hk|s s' who Hk Hb|s s' Hf].
  - apply Hquiet; [done| |done]. cbn. intros i l n [Hi|[_ Hi]]%lookup_app_Some; [eauto|]. apply list_lookup_singleton_Some in Hi as [_ Hi]. done.
  - destruct (emit_step_emits _ _ _ _ He) as (l & pc & pc' & Hi & Hem & [(-> & -> & En & Ere)|(En & Hpc & Hre)]).
    + split.
      * intros j. rewrite En, Hem, length_insert, elem_of_app, list_elem_of_singleton. intros [Hj| ->]; [by apply R1|by eapply lookup_lt_Some].
      * intros j l' n. rewrite Hem, En. destruct (decide (j = i)) as [->|]; [|rewrite list_lookup_insert_ne by done; intros Hj; apply lookup_app_l_Some; by eapply R2].
        rewrite list_lookup_insert_eq by (by eapply lookup_lt_Some). intros [= _ <-]. by rewrite lookup_app_r, Nat.sub_diag by lia.
      * intros k n t Hk. rewrite Ere in Hk. destruct (R3 _ _ _ Hk). split; [done|]. by eapply grows_text.
    + assert (∀ j l' n, lg_emits s' !! j = Some (l', EStore n) → lg_emits s !! j = Some (l', EStore n)) as Hst.
      { intros j l' n. rewrite Hem. destruct (decide (j = i)) as [->|]; [|by rewrite list_lookup_insert_ne].
        rewrite list_lookup_insert_eq by (by eapply lookup_lt_Some). intros [= _ Hx]. by destruct (Hpc n). }
      destruct Hre as [Ere|(n & -> & Ere)]; [apply Hquiet; eauto|].
      assert (recents (mkLogs true [] [] 0 [] 0 0 false false false (lg_numbered s') (lg_recent s) (mkSinks None None None) None (lg_emits s') [])) as [R1' R2' R3'].
      { split; cbn.
        - rewrite En. intros j Hj. rewrite Hem, length_insert. by apply R1.
        - intros j l' m Hj. rewrite En. eapply R2. by eapply Hst.
        - intros k m t Hk. destruct (R3 _ _ _ Hk) as [-> Ht]. split; [done|]. exact (grows_text _ s' _ _ Hr Hg Ht). }
      cbn in *. split; [exact R1'|exact R2'|]. intros k m t. rewrite Ere. rewrite lookup_insert_Some. intros [[<- [= <- <-]]|[_ Hk]]; [|by apply R3'].
      split; [done|]. unfold numbered_text. rewrite En, (R2 _ _ _ Hi), Hem. cbn. do 3 f_equal. rewrite (line_insert _ _ _ _ _ _ Hi). unfold line_of. by rewrite Hi.
  - apply Hquiet; [done| |done]; cbn; eauto.
  - apply Hquiet; [done| |done]; cbn; eauto.
  - destruct s. cbn in Hb. destruct lg_flush0; [done|]. injection Hb as <-. apply Hquiet; [done| |done]; cbn; eauto.
  - destruct s. cbn in Hf. repeat case_match; simplify_eq/=; (apply Hquiet; [done|cbn; eauto|done]).
Qed.

Lemma steps_grow s s' : rtc log_step s s' → grows s s'.
Proof. induction 1; [apply logs_grow_refl|]. eapply grows_trans; [by apply step_grows|done]. Qed.
Lemma recents_reached async sk s : rtc log_step (quiet_logs async sk) s → recents s.
Proof.
  intros Hs. eapply (rtc_invariant log_step recents); [intros x y; apply recents_step|exact Hs|].
  split; cbn; [by intros i ?%elem_of_nil|done|]. intros k n t. by rewrite lookup_empty.
Qed.

(** What a reader takes from the slots. *)
Definition matches (filter text : bytes) : bool := bool_decide (filter = []) || contains_str text filter.

Lemma recent_go_sound load text start i n filter :
  (∀ k t, load k = Some (k, t) → (k < i)%nat → text k = t) →
  ∃ ns, recent_go load start i n filter = text <$> ns ∧ ns `sublist_of` seq start (i - start) ∧ (length ns <= n)%nat ∧
    Forall (fun k => matches filter (text k) = true) ns.
Proof.
  revert n. induction i as [|k IH]; intros n Hl; [by exists []; destruct n; split_and!; [..|cbn; lia|]|].
  destruct n as [|m]; [exists []; split_and!; [done|apply sublist_nil_l|done|done]|]. cbn [recent_go].
  destruct (Nat.ltb_spec k start) as [|Hge]; [exists []; split_and!; [done|apply sublist_nil_l|cbn; lia|done]|].
  assert (seq start (S k - start) = seq start (k - start) ++ [k]) as Hseq.
  { replace (S k - start)%nat with (S (k - start)) by lia. rewrite seq_S. do 2 f_equal. lia. }
  assert (∀ k' t, load k' = Some (k', t) → (k' < k)%nat → text k' = t) as Hl' by (intros; apply Hl; [done|lia]).
  assert (∃ ns, recent_go load start k (S m) filter = text <$> ns ∧ ns `sublist_of` seq start (S k - start) ∧ (length ns <= S m)%nat ∧
    Forall (fun k => matches filter (text k) = true) ns) as Hskip.
  { destruct (IH (S m) Hl') as (ns & E & Hs & Hn & Hf). exists ns. split_and!; [done| |done|done]. rewrite Hseq. by apply sublist_inserts_r. }
  destruct (load k) as [[num t]|] eqn:Ek; [|exact Hskip].
  destruct ((num =? k)%nat && _) eqn:Em; [|exact Hskip]. apply andb_true_iff in Em as [->%Nat.eqb_eq Em].
  destruct (IH m Hl') as (ns & E & Hs & Hn & Hf). exists (ns ++ [k]). rewrite E, fmap_app. cbn. split_and!.
  - by rewrite (Hl _ _ Ek) by lia.
  - rewrite Hseq. by apply sublist_app.
  - rewrite length_app. cbn. lia.
  - apply Forall_app. split; [done|]. constructor; [|constructor]. by rewrite (Hl _ _ Ek) by lia.
Qed.

Lemma recent_go_all load text start i n filter : (∀ k, (start <= k < i)%nat → load k = Some (k, text k)) →
  recent_go load start i n filter = reverse (take n (reverse (base.filter (fun t => matches filter t = true) (text <$> seq start (i - start))))).
Proof.
  revert n. induction i as [|k IH]; intros n Hl; [by destruct n|].
  destruct n as [|m]; [done|]. cbn [recent_go]. destruct (Nat.ltb_spec k start) as [|Hge].
  { by replace (S k - start)%nat with 0%nat by lia. }
  assert (seq start (S k - start) = seq start (k - start) ++ [k]) as ->.
  { replace (S k - start)%nat with (S (k - start)) by lia. rewrite seq_S. do 2 f_equal. lia. }
  rewrite Hl, Nat.eqb_refl by lia. cbn [andb]. rewrite fmap_app, filter_app. cbn [fmap list_fmap]. rewrite filter_cons, filter_nil. fold (matches filter (text k)).
  rewrite !(IH _) by (intros; apply Hl; lia). destruct (matches filter (text k)).
  - by rewrite decide_True, reverse_snoc, firstn_cons, reverse_cons by done.
  - rewrite decide_False by done. by rewrite app_nil_r.
Qed.

(** The console's view is true, whatever is logged while it reads the slots:
    it shows, oldest first, at most [n] of the newest [recentLogSize] lines,
    each as it was logged and with the text looked for; and when none of their
    slots is behind, exactly the last [n] of them that have it. *)
Theorem recent_log_true (async : bool) (sk : sinks) (s : logs) (load : nat → option (nat * bytes)) (n : nat) (filter : bytes) :
  rtc log_step (quiet_logs async sk) s →
  (∀ k, ∃ s', rtc log_step s s' ∧ load k = lg_recent s' !! (k mod recentLogSize)%nat) →
  let next := length (lg_numbered s) in
  let text := fun k => default [] (numbered_text s k) in
  (∃ ns, RecentLog next load n filter = text <$> ns ∧ ns `sublist_of` seq (next - recentLogSize) (next - (next - recentLogSize)) ∧ (length ns <= n)%nat ∧
     Forall (fun k => matches filter (text k) = true) ns) ∧
  ((∀ k, (next - recentLogSize <= k < next)%nat → ∃ t, load k = Some (k, t)) →
   RecentLog next load n filter =
     reverse (take n (reverse (base.filter (fun t => matches filter t = true) (text <$> seq (next - recentLogSize) (next - (next - recentLogSize))))))).
Proof.
  intros Hs Hload next text.
  assert (∀ k t, load k = Some (k, t) → (k < next)%nat → text k = t) as Htrue.
  { intros k t Hk Hlt. destruct (Hload k) as (s' & Hs' & Hl). rewrite Hl in Hk.
    destruct (r_slot s' (recents_reached async sk s' ltac:(by etransitivity)) _ _ _ Hk) as [_ Ht].
    destruct (lookup_lt_is_Some_2 (lg_numbered s) k) as [i Hi]; [done|].
    assert (numbered_text s k = Some (recent_text (ql_text (line_of (lg_emits s) i)))) as Hn by (unfold numbered_text; by rewrite Hi).
    pose proof (grows_text _ _ _ _ (recents_reached _ _ _ Hs) (steps_grow _ _ Hs') Hn) as Hn'. rewrite Ht in Hn'. injection Hn' as ->.
    unfold text. by rewrite Hn. }
  split; [by apply recent_go_sound|]. intros Hall. apply recent_go_all. intros k Hk. destruct (Hall k Hk) as [t Ht]. by rewrite (Htrue k t Ht), Ht by lia.
Qed.

(** ** Properties *)


(** Whoever finds [problemQueued] already set leaves the writer to the one who
    set it: it is woken, or about to flush, or that one is about to wake it. *)
Theorem problem_wakes (async : bool) (sk : sinks) (s : logs) : rtc log_step (quiet_logs async sk) s → lg_problem s = true →
  lg_wake s = true ∨ to_flush s ∨ ∃ i l, lg_emits s !! i = Some (l, ESend).
Proof. intros Hs. apply w_problem. eapply (rtc_invariant log_step wakes); [intros x y; apply wakes_step|exact Hs|by split]. Qed.

(** ** Witnesses: three lines, one of them a problem, and a flush. *)

Inductive move := MCall (stamp text : bytes) (problem : bool) | MEmit (i : nat) | MBegin (who : flusher) | MFlush.
Definition play_one (s : logs) (m : move) : option logs :=
  match m with
  | MCall stamp text problem =>
      let 'mkLogs as_ di qu po pu pe dr pr wa wr nu re sk fl em out := s in
      Some (mkLogs as_ di qu po pu pe dr pr wa wr nu re sk fl (em ++ [(log_line stamp text problem, ENumber)]) out)
  | MEmit i => emit_step i false s
  | MBegin who => begin_flush who s
  | MFlush => flush_step s
  end.
Fixpoint play (ms : list move) (s : logs) : option logs :=
  match ms with [] => Some s | m :: ms => play_one s m ≫= play ms end.

Lemma play_steps ms s s' : Forall (fun m => m ≠ MBegin Writer) ms → play ms s = Some s' → rtc log_step s s'.
Proof.
  intros Hf. revert s. induction Hf as [|m ms Hm Hf IH]; intros s; [intros [= ->]; apply rtc_refl|]. cbn.
  destruct (play_one s m) as [s1|] eqn:E; [|done]. intros Hp. eapply rtc_l; [|by apply IH].
  destruct m; cbn in E.
  - destruct s. injection E as <-. apply Calls.
  - by eapply Emits.
  - eapply Flushes; [|done]. by intros ->.
  - by apply Flushing_.
Qed.

Definition demo_moves : list move :=
  [MCall (lit "T1") (lit "a") false; MCall (lit "T2") (lit "b") true; MCall (lit "T3") (lit "c") false]
  ++ [MEmit 0; MEmit 0; MEmit 0; MEmit 1; MEmit 1; MEmit 1; MEmit 1; MEmit 0; MEmit 1; MEmit 0; MEmit 1; MEmit 1]
  ++ [MEmit 2; MEmit 2; MEmit 2; MEmit 2; MEmit 2; MBegin Caller] ++ repeat MFlush 11.
Definition demo_quiet : logs := quiet_logs true (mkSinks None (Some 1%nat) (Some 2%nat)).
Definition demo_logs : logs := default demo_quiet (play demo_moves demo_quiet).

Lemma demo_logged : rtc log_step demo_quiet demo_logs.
Proof.
  apply (play_steps demo_moves); [|vm_compute; reflexivity]. apply Forall_forall. intros m Hm ->.
  assert (forallb (fun m => match m with MBegin Writer => false | _ => true end) demo_moves = true) as Hb by (vm_compute; reflexivity).
  eapply forallb_forall in Hb; [|by apply list_elem_of_In]. done.
Qed.


Lemma recent_log_true_witness :
  RecentLog 3 (fun k => lg_recent demo_logs !! (k mod recentLogSize)%nat) 2 [] = [lit "T2 b"; lit "T3 c"].
Proof.
  destruct (recent_log_true true (mkSinks None (Some 1%nat) (Some 2%nat)) demo_logs (fun k => lg_recent demo_logs !! (k mod recentLogSize)%nat) 2 [] demo_logged) as [_ H].
  { intros k. exists demo_logs. split; [apply rtc_refl|done]. }
  assert (length (lg_numbered demo_logs) = 3%nat) as E by (vm_compute; reflexivity).
  rewrite E in H. etransitivity; [apply H|].
  - intros k [_ Hk]. destruct k as [|[|[|k]]]; [eexists; vm_compute; reflexivity..|lia].
  - vm_compute. reflexivity.
Defined.

Lemma problem_wakes_witness :
  let s := default demo_quiet (play (take 14 demo_moves) demo_quiet) in
  lg_problem s = true ∧ (lg_wake s = true ∨ to_flush s ∨ ∃ i l, lg_emits s !! i = Some (l, ESend)).
Proof.
  cbn zeta. assert (lg_problem (default demo_quiet (play (take 14 demo_moves) demo_quiet)) = true) as E by (vm_compute; reflexivity).
  split; [exact E|]. apply (problem_wakes true (mkSinks None (Some 1%nat) (Some 2%nat))); [|exact E].
  apply (play_steps (take 14 demo_moves)); [|vm_compute; reflexivity]. apply Forall_forall. intros m Hm ->.
  assert (forallb (fun m => match m with MBegin Writer => false | _ => true end) (take 14 demo_moves) = true) as Hb by (vm_compute; reflexivity).
  eapply forallb_forall in Hb; [|by apply list_elem_of_In]. done.
Defined.
