(* ===== verification/CAConfig.v ===== *)
(** CAConfig: a local CA's own settings ([caconfig.go]): what [config.yaml] in
    its folder may say, which of it the CA's certificate fixes, and which
    settings are in use while the file changes. YAML text, the disk and
    certificates' fields are parameters. *)

From S2P Require Import Prelude GoStr NetIP Rules Limit Config Yaml.

Definition hour : Z := 3600 * second.
Definition day : Z := 24 * hour.

(** * Settings ([caConfig]) *)

Record certSettings := mkCertSettings {
  cs_KeyAlgorithm : bytes; cs_KeyBits : Z; cs_HashAlgorithm : bytes; cs_ValidityDays : Z; cs_RenewBeforeDays : Z;
  cs_KeyUsage : list bytes; cs_ExtKeyUsage : list bytes;
  cs_Organization : bytes; cs_OrganizationalUnit : bytes; cs_Country : bytes; cs_Province : bytes; cs_Locality : bytes;
}.
Record caConfig := mkCAConfig {
  ca_CommonName : bytes; ca_Organization : bytes; ca_KeyAlgorithm : bytes; ca_KeyBits : Z;
  ca_HashAlgorithm : bytes; ca_ValidityDays : Z; ca_Cert : certSettings;
}.

(** [defaultCAConfig] *)
Definition defaultCAConfig (id : bytes) : caConfig :=
  mkCAConfig (lit "tlsproxy CA " ++ id) (lit "tlsproxy") (lit "ecdsa") 256 (lit "sha256") 3650
    (mkCertSettings (lit "ecdsa") 256 (lit "sha256") 90 0 [lit "digitalSignature"] [lit "serverAuth"] [] [] [] [] []).

(** [keyUsages] and [extKeyUsages]: the values of [crypto/x509]. *)
Definition keyUsages : list (bytes * Z) :=
  [(lit "digitalSignature", 1); (lit "contentCommitment", 2); (lit "keyEncipherment", 4); (lit "dataEncipherment", 8); (lit "keyAgreement", 16)].
Definition extKeyUsages : list (bytes * Z) := [(lit "serverAuth", 1); (lit "clientAuth", 2)].
Definition usage (table : list (bytes * Z)) (u : bytes) : option Z := snd <$> find (fun e => bool_decide (e.1 = u)) table.

Definition checkKey (alg : bytes) (bits : Z) : res err unit :=
  if says alg "ecdsa" then guard! contains [256; 384; 521] bits else "ecdsa key_bits must be 256, 384 or 521"%string in Ok tt
  else if says alg "rsa" then guard! contains [2048; 3072; 4096] bits else "rsa key_bits must be 2048, 3072 or 4096"%string in Ok tt
  else if says alg "ed25519" then Ok tt
  else Err "key_algorithm must be ecdsa, rsa or ed25519"%string.

Definition checkHash (h : bytes) : res err unit :=
  guard! says h "sha256" || says h "sha384" || says h "sha512" else "hash_algorithm must be sha256, sha384 or sha512"%string in Ok tt.

(** [check] *)
Definition check (c : caConfig) : res err unit :=
  guard! negb (bool_decide (ca_CommonName c = [])) else "ca: common_name must not be empty"%string in
  let! _ := checkKey (ca_KeyAlgorithm c) (ca_KeyBits c) in
  let! _ := checkHash (ca_HashAlgorithm c) in
  guard! negb ((ca_ValidityDays c <? 1) || (36500 <? ca_ValidityDays c)) else "ca: validity_days must be 1..36500"%string in
  let k := ca_Cert c in
  let! _ := checkKey (cs_KeyAlgorithm k) (cs_KeyBits k) in
  let! _ := checkHash (cs_HashAlgorithm k) in
  guard! negb ((cs_ValidityDays k <? 1) || (3650 <? cs_ValidityDays k)) else "certificates: validity_days must be 1..3650"%string in
  guard! negb ((cs_RenewBeforeDays k <? 0) || (cs_ValidityDays k <=? cs_RenewBeforeDays k))
    else "certificates: renew_before_days must be 0 or less than validity_days"%string in
  guard! forallb (fun u => bool_decide (is_Some (usage keyUsages u))) (cs_KeyUsage k) else "certificates: key_usage: unknown"%string in
  guard! negb (bool_decide (cs_ExtKeyUsage k = [])) else "certificates: ext_key_usage must not be empty"%string in
  guard! forallb (fun u => bool_decide (is_Some (usage extKeyUsages u))) (cs_ExtKeyUsage k) else "certificates: ext_key_usage: unknown"%string in
  guard! negb (2 <? len (cs_Country k)) else "certificates: country is a two-letter code"%string in
  Ok tt.

(** * Reading the file *)

Section Parse.
Context (json_strings : list bytes → bytes).                 (* json.Marshal of a []string *)

Definition int (value : bytes) : res err Z := match atoi value with Some n => Ok n | None => Err "expected a number"%string end.

(** One key of one section. *)
Definition apply_ca_key (c : caConfig) (section key value : bytes) : res err caConfig :=
  let l := to_lower value in
  let cert := fun f => Ok (c {{ ca_Cert ::= f }}) in
  if says section "ca" then
    if says key "common_name" then Ok (c {{ ca_CommonName := value }})
    else if says key "organization" then Ok (c {{ ca_Organization := value }})
    else if says key "key_algorithm" then Ok (c {{ ca_KeyAlgorithm := l }})
    else if says key "key_bits" then let! n := int value in Ok (c {{ ca_KeyBits := n }})
    else if says key "hash_algorithm" then Ok (c {{ ca_HashAlgorithm := l }})
    else if says key "validity_days" then let! n := int value in Ok (c {{ ca_ValidityDays := n }})
    else Err "unknown key"%string
  else
    if says key "key_algorithm" then cert (fun k => k {{ cs_KeyAlgorithm := l }})
    else if says key "key_bits" then let! n := int value in cert (fun k => k {{ cs_KeyBits := n }})
    else if says key "hash_algorithm" then cert (fun k => k {{ cs_HashAlgorithm := l }})
    else if says key "validity_days" then let! n := int value in cert (fun k => k {{ cs_ValidityDays := n }})
    else if says key "renew_before_days" then let! n := int value in cert (fun k => k {{ cs_RenewBeforeDays := n }})
    else if says key "key_usage" then cert (fun k => k {{ cs_KeyUsage := splitList value }})
    else if says key "ext_key_usage" then cert (fun k => k {{ cs_ExtKeyUsage := splitList value }})
    else if says key "organization" then cert (fun k => k {{ cs_Organization := value }})
    else if says key "organizational_unit" then cert (fun k => k {{ cs_OrganizationalUnit := value }})
    else if says key "country" then cert (fun k => k {{ cs_Country := to_upper value }})
    else if says key "province" then cert (fun k => k {{ cs_Province := value }})
    else if says key "locality" then cert (fun k => k {{ cs_Locality := value }})
    else Err "unknown key"%string.

(** One section of the file. *)
Definition ca_section (c : caConfig) (sec : node * node) : res err caConfig :=
  let section := n_Value sec.1 in
  guard! says section "ca" || says section "certificates" else "unknown section: use ca or certificates"%string in
  if is_null sec.2 then Ok c
  else
    let! items := pairs sec.2 in
    fold_res (fun c it => let! value := yamlValue json_strings (n_Value it.1) it.2 in apply_ca_key c section (n_Value it.1) value) c items.

(** [parseCAConfig], of the file's root node. *)
Definition parseCAConfig (id : bytes) (root : res err node) : res err caConfig :=
  let! root := root in
  let! sections := pairs root in
  let! c := fold_res ca_section (defaultCAConfig id) sections in
  let! _ := check c in
  Ok c.

(** * What the certificate fixes *)

(** The fields of a CA certificate the settings are compared with. *)
Inductive public_key := RSA (bits : Z) | ECDSA (bits : Z) | Ed25519 | OtherKey.
Record ca_fields := mkFields {
  f_CommonName : bytes; f_Organization : list bytes; f_PublicKey : public_key;
  f_Signature : bytes;         (* the hash of its SignatureAlgorithm, where that is one of the names below *)
  f_NotBefore : Z; f_NotAfter : Z;
}.

(** [describeKey] *)
Definition describeKey (c : caConfig) (pub : public_key) : caConfig :=
  match pub with
  | RSA n => c {{ ca_KeyAlgorithm := lit "rsa"; ca_KeyBits := n }}
  | ECDSA n => c {{ ca_KeyAlgorithm := lit "ecdsa"; ca_KeyBits := n }}
  | Ed25519 => c {{ ca_KeyAlgorithm := lit "ed25519"; ca_KeyBits := 0 }}
  | OtherKey => c
  end.

(** [setCAFromCert]: days to the nearest. *)
Definition days_of (notBefore notAfter : Z) : Z := Z.quot (i64 (time_sub notAfter notBefore + 12 * hour)) day.
Definition setCAFromCert (c : caConfig) (f : ca_fields) : caConfig :=
  let c := c {{ ca_CommonName := f_CommonName f; ca_Organization := default [] (head (f_Organization f)) }} in
  let c := describeKey c (f_PublicKey f) in
  let c := c {{ ca_ValidityDays := days_of (f_NotBefore f) (f_NotAfter f) }} in
  c {{ ca_HashAlgorithm := if says (f_Signature f) "sha384" || says (f_Signature f) "sha512" then f_Signature f else lit "sha256" }}.

(** [parseConfig]: of a CA that is loaded. *)
Definition parseConfig (id : bytes) (ca : option ca_fields) (root : res err node) : res err caConfig :=
  let! c := parseCAConfig id root in
  match ca with
  | None => Ok c
  | Some f =>
      let made := setCAFromCert c f in
      let ed := says (ca_KeyAlgorithm made) "ed25519" in
      guard! bool_decide (ca_CommonName c = ca_CommonName made) && bool_decide (ca_Organization c = ca_Organization made) &&
             bool_decide (ca_KeyAlgorithm c = ca_KeyAlgorithm made) && (ed || (ca_KeyBits c =? ca_KeyBits made)) &&
             (ed || bool_decide (ca_HashAlgorithm c = ca_HashAlgorithm made)) && (ca_ValidityDays c =? ca_ValidityDays made)
        else "the ca section describes the CA and can't change it"%string in
      Ok c
  end.

(** * The settings in use *)

(** [caConfigState]; no text for no problem. *)
Record caConfigState := mkState { st_c : caConfig; st_err : option err; st_mtime : option Z }.

(** [setConfig] *)
Definition setConfig (id : bytes) (conf : option caConfigState) (c : option caConfig) (problem : option err) (mtime : option Z) : caConfigState :=
  mkState match c, conf with Some c, _ => c | None, Some old => st_c old | None, None => defaultCAConfig id end problem mtime.

(** [config] *)
Definition config (id : bytes) (conf : option caConfigState) : caConfig :=
  match conf with Some s => st_c s | None => defaultCAConfig id end.

(** What [loadConfig] finds: no file (and whether the one of old versions is
    there, and what writing the defaults comes to), an error, or a file with
    its time and what reading it gives. *)
Inductive on_disk :=
| NoFile (old : bool) (written : res err Z)
| StatFailed (e : err)
| File (mtime : Z) (data : res err (res err node)).

(** [loadConfig] *)
Definition loadConfig (id : bytes) (ca : option ca_fields) (conf : option caConfigState) (d : on_disk) : caConfigState :=
  let made := fun c => match ca with Some f => setCAFromCert c f | None => c end in
  match d with
  | NoFile true _ => setConfig id conf (Some (made (defaultCAConfig id))) (Some "config.toml is no longer read"%string) None
  | NoFile false (Err e) => setConfig id conf (Some (made (defaultCAConfig id))) (Some e) None
  | NoFile false (Ok mtime) => setConfig id conf (Some (made (defaultCAConfig id))) None (Some mtime)
  | StatFailed e => setConfig id conf None (Some e) None
  | File mtime data =>
      let changed :=
        match data with
        | Err e => setConfig id conf None (Some e) (Some mtime)
        | Ok root => match parseConfig id ca root with
                     | Ok c => setConfig id conf (Some c) None (Some mtime)
                     | Err e => setConfig id conf None (Some e) (Some mtime)
                     end
        end in
      match conf with
      | Some cur => if bool_decide (st_mtime cur = Some mtime) then cur else changed
      | None => changed
      end
  end.
End Parse.

(** * What is in use is sane *)

(** The part of [check] about the certificates a CA issues. *)
Record cert_ok (k : certSettings) : Prop := mkCertOk {
  co_key : checkKey (cs_KeyAlgorithm k) (cs_KeyBits k) = Ok tt;
  co_hash : checkHash (cs_HashAlgorithm k) = Ok tt;
  co_days : 1 <= cs_ValidityDays k <= 3650;
  co_renew : 0 <= cs_RenewBeforeDays k < cs_ValidityDays k;
  co_usage : Forall (fun u => is_Some (usage keyUsages u)) (cs_KeyUsage k);
  co_ext : cs_ExtKeyUsage k ≠ [] ∧ Forall (fun u => is_Some (usage extKeyUsages u)) (cs_ExtKeyUsage k);
  co_country : len (cs_Country k) <= 2;
}.

Lemma check_spec c : check c = Ok tt →
  ca_CommonName c ≠ [] ∧ checkKey (ca_KeyAlgorithm c) (ca_KeyBits c) = Ok tt ∧ 1 <= ca_ValidityDays c <= 36500 ∧ cert_ok (ca_Cert c).
Proof.
  unfold check. intros H.
  destruct (bool_decide (ca_CommonName c = [])) eqn:E0; [done|]. cbn [negb] in H.
  destruct (checkKey (ca_KeyAlgorithm c) (ca_KeyBits c)) as [[]|] eqn:E1; [|done]. destruct (checkHash (ca_HashAlgorithm c)) as [[]|]; [|done].
  destruct ((ca_ValidityDays c <? 1) || _) eqn:E2; [done|]. cbn [negb] in H.
  destruct (checkKey (cs_KeyAlgorithm (ca_Cert c)) _) as [[]|] eqn:E3; [|done]. destruct (checkHash (cs_HashAlgorithm (ca_Cert c))) as [[]|] eqn:E4; [|done].
  destruct ((cs_ValidityDays (ca_Cert c) <? 1) || _) eqn:E5; [done|]. cbn [negb] in H.
  destruct ((cs_RenewBeforeDays (ca_Cert c) <? 0) || _) eqn:E6; [done|]. cbn [negb] in H.
  destruct (forallb _ (cs_KeyUsage (ca_Cert c))) eqn:E7; [|done].
  destruct (bool_decide (cs_ExtKeyUsage (ca_Cert c) = [])) eqn:E8; [done|]. cbn [negb] in H.
  destruct (forallb _ (cs_ExtKeyUsage (ca_Cert c))) eqn:E9; [|done].
  destruct (2 <? len (cs_Country (ca_Cert c))) eqn:E10; [done|]. bool_prop.
  assert (∀ t l, forallb (fun u => bool_decide (is_Some (usage t u))) l = true → Forall (fun u => is_Some (usage t u)) l) as Hall.
  { intros t l Hl. apply Forall_forall. intros u Hu. eapply forallb_forall in Hl; [|by apply list_elem_of_In]. by apply bool_decide_eq_true in Hl. }
  split_and!; try done; try lia. constructor; auto; lia.
Qed.

Lemma defaults_ok id : cert_ok (ca_Cert (defaultCAConfig id)).
Proof.
  constructor; cbn; try done; try lia.
  - repeat constructor. by eexists.
  - split; [done|]. repeat constructor. by eexists.
Qed.

Lemma setCAFromCert_cert c f : ca_Cert (setCAFromCert c f) = ca_Cert c.
Proof. unfold setCAFromCert, describeKey. by destruct (f_PublicKey f). Qed.

Lemma setCAFromCert_fields c f :
  ca_CommonName (setCAFromCert c f) = f_CommonName f ∧ ca_ValidityDays (setCAFromCert c f) = days_of (f_NotBefore f) (f_NotAfter f) ∧
  ∀ n, f_PublicKey f = RSA n → ca_KeyAlgorithm (setCAFromCert c f) = lit "rsa" ∧ ca_KeyBits (setCAFromCert c f) = n.
Proof.
  unfold setCAFromCert, describeKey. split_and!; [by destruct (f_PublicKey f)..|]. by intros n ->.
Qed.

Section Facts.
Context (json_strings : list bytes → bytes).

Lemma parseConfig_check id ca root c : parseConfig json_strings id ca root = Ok c → check c = Ok tt.
Proof.
  unfold parseConfig, parseCAConfig. destruct root as [root|]; [|done]. destruct (pairs root) as [secs|]; [|done].
  destruct (fold_res _ _ _) as [c0|]; [|done]. destruct (check c0) as [[]|] eqn:E; [|done].
  destruct ca as [f|]; [|by intros [= <-]]. destruct (_ && _); [|done]. by intros [= <-].
Qed.

Lemma loadConfig_ok id ca conf d : cert_ok (ca_Cert (config id conf)) → cert_ok (ca_Cert (st_c (loadConfig json_strings id ca conf d))).
Proof.
  intros Hok.
  assert (∀ p t, cert_ok (ca_Cert (st_c (setConfig id conf None p t)))) as Hkeep.
  { intros p t. unfold setConfig, config in *. by destruct conf. }
  assert (∀ p t, cert_ok (ca_Cert (st_c (setConfig id conf (Some match ca with Some f => setCAFromCert (defaultCAConfig id) f | None => defaultCAConfig id end) p t)))) as Hmade.
  { intros p t. unfold setConfig. cbn [st_c]. destruct ca; rewrite ?setCAFromCert_cert; apply defaults_ok. }
  unfold loadConfig. destruct d as [[] w|e|mtime data]; [apply Hmade| |apply Hkeep|].
  - destruct w; apply Hmade.
  - assert (cert_ok (ca_Cert (st_c (match data with Err e => setConfig id conf None (Some e) (Some mtime)
      | Ok root => match parseConfig json_strings id ca root with Ok c => setConfig id conf (Some c) None (Some mtime) | Err e => setConfig id conf None (Some e) (Some mtime) end end)))) as Hread.
    { destruct data as [root|e]; [|apply Hkeep]. destruct (parseConfig json_strings id ca root) as [c|e] eqn:E; [|apply Hkeep].
      apply check_spec, (parseConfig_check id ca root), E. }
    destruct conf as [cur|]; [|done]. cbn [config] in Hok. by destruct (bool_decide _).
Qed.

(** A CA's own settings, where they are valid, are what its certificate says:
    so a CA whose certificate says something else has none that are. *)
Lemma parseConfig_fixed id f root c : parseConfig json_strings id (Some f) root = Ok c →
  ca_CommonName c = f_CommonName f ∧ ca_ValidityDays c = days_of (f_NotBefore f) (f_NotAfter f) ∧
  ∀ n, f_PublicKey f = RSA n → ca_KeyAlgorithm c = lit "rsa" ∧ ca_KeyBits c = n.
Proof.
  unfold parseConfig. destruct (parseCAConfig json_strings id root) as [c0|]; [|done].
  destruct (setCAFromCert_fields c0 f) as (En & Ed & Ek). rewrite En, Ed.
  destruct (_ && _) eqn:E; [|done]. intros [= ->]. bool_prop. split; [done|]. split; [done|].
  intros n Hf. destruct (Ek n Hf) as [Ea Eb]. rewrite Ea, Eb in *. split; [done|].
  match goal with H : _ ∨ (ca_KeyBits c =? _) = true |- _ => destruct H as [H|H%Z.eqb_eq]; [vm_compute in H; discriminate|exact H] end.
Qed.

Lemma imported_unsettable id f root c : parseConfig json_strings id (Some f) root = Ok c →
  f_CommonName f ≠ [] ∧ days_of (f_NotBefore f) (f_NotAfter f) <= 36500 ∧ (∀ n, f_PublicKey f = RSA n → n ∈ [2048; 3072; 4096]).
Proof.
  intros H. pose proof (parseConfig_check _ _ _ _ H) as (Hn & Hk & Hd & _)%check_spec.
  destruct (parseConfig_fixed _ _ _ _ H) as (En & Ed & Ek). rewrite En, Ed in *. split_and!; [done|lia|].
  intros n Hf. destruct (Ek n Hf) as [Ea Eb]. rewrite Ea, Eb in Hk. unfold checkKey in Hk. cbn in Hk.
  destruct (contains [2048; 3072; 4096] n) eqn:E; [|done]. by apply bool_decide_eq_true in E.
Qed.

(** A certificate without a well-defined end (RFC 5280: the last second of
    the year 9999) lasts longer than a duration can say. *)
Example no_end : days_of 0 (253402300799 * second) = -106751.
Proof. vm_compute. reflexivity. Qed.
End Facts.
