(* ===== verification/LocalCA.v ===== *)
(** LocalCA: the certificates of local CAs ([localca.go]): the table they are
    found in, what a handshake is served, when one is issued, renewed, taken
    from disk or put aside, and the CA's own renewal. Signatures, keys, PEM
    and the calendar are parameters; the folders on disk are state that
    anybody may change. *)

From S2P Require Import Prelude GoStr NetIP NetIPText Rules CertNames Limit Config Yaml CAConfig.
From S2P Require Prog.

(** * Certificates *)

(** An [x509.Certificate], as far as it is read here. *)
Record x509 := mkX509 {
  x_Raw : bytes; x_Fields : ca_fields; x_DNSNames : list bytes; x_IPAddresses : list bytes;
  x_IsCA : bool; x_KeyUsage : Z; x_SubjectKeyId : bytes; x_AuthorityKeyId : bytes;
}.
Definition x_NotBefore (c : x509) : Z := f_NotBefore (x_Fields c).
Definition x_NotAfter (c : x509) : Z := f_NotAfter (x_Fields c).

(** A [tls.Certificate]: its leaf, what is sent after it, its key. *)
Record tlsCert := mkTLS { tc_Leaf : x509; tc_Chain : list bytes; tc_Key : Z }.

(** [caState]; [ca_id] is its address. *)
Record caState := mkCA { ca_id : nat; ca_cert : x509; ca_chain : list bytes; ca_key : Z }.
(** [leafState] *)
Record leafState := mkLeaf { ls_cert : tlsCert; ls_ca : caState }.

(** [leafKey] *)
Definition leafKey (c : x509) : bytes :=
  sanKey (omap (fun ip => unmap <$> addr_from_slice ip) (x_IPAddresses c)) (x_DNSNames c).

(** [renewDue] *)
Definition renewDue (c : x509) : Z := x_NotAfter c + Z.quot (i64 (- time_sub (x_NotAfter c) (x_NotBefore c))) 3.

(** [leafRenewDue] *)
Definition leafRenewDue (conf : caConfig) (c : x509) : Z :=
  let d := cs_RenewBeforeDays (ca_Cert conf) in
  if 0 <? d then x_NotAfter c - i64 (d * day) else renewDue c.

(** The template of [issue]. *)
Record template := mkTemplate {
  t_CommonName : bytes; t_Organization : list bytes; t_OrganizationalUnit : list bytes; t_Country : list bytes; t_Province : list bytes; t_Locality : list bytes;
  t_DNSNames : list bytes; t_IPAddresses : list bytes; t_Hash : bytes; t_NotBefore : Z; t_NotAfter : Z;
  t_KeyUsage : Z; t_ExtKeyUsage : list Z; t_AuthorityKeyId : bytes; t_SubjectKeyId : bytes; t_IsCA : bool;
}.

Definition one (v : bytes) : list bytes := if bool_decide (v = []) then [] else [v].
Definition issue_template (conf : caConfig) (ca : caState) (name : bytes) (now : Z) : template :=
  let k := ca_Cert conf in
  let '(ips, hosts) := sanSplit name in
  mkTemplate name (one (cs_Organization k)) (one (cs_OrganizationalUnit k)) (one (cs_Country k)) (one (cs_Province k)) (one (cs_Locality k))
    hosts ips (cs_HashAlgorithm k) (now - hour) (now + i64 (cs_ValidityDays k * day))
    (foldr (fun u z => Z.lor (default 0 (usage keyUsages u)) z) 0 (cs_KeyUsage k)) ((fun u => default 0 (usage extKeyUsages u)) <$> cs_ExtKeyUsage k)
    (x_SubjectKeyId (ca_cert ca)) [] false.

(** * The table of names

    [entry] and [find] walk the slots from a name's hash on; a slot is taken
    once, by compare-and-swap, and never given back. [At i h] is a walk about
    to load slot [h + i]; [Claim i h], about to swap it. *)

Definition maxLocalCerts : Z := 10000.
Definition localTableSize : nat := Z.to_nat 16384.

Module Names.
Section Table.
Context (size : nat) (max : Z) (hash : bytes → nat).

Inductive entry_pc := At (i : nat) | Claim (i : nat) | Counting | Reload (i : nat) | Found | Full.
Record table := mkTable { t_slots : gmap nat bytes; t_n : Z }.

Definition slot_at (name : bytes) (i : nat) : nat := ((hash name + i) mod size)%nat.

(** One action of [entry] for [name]. *)
Definition entry_step (name : bytes) (t : table) (p : entry_pc) : table * entry_pc :=
  let next := fun i => if (S i <? size)%nat then At (S i) else Full in
  match p with
  | At i =>
      match t_slots t !! slot_at name i with
      | None => (t, if max <=? t_n t then Full else Claim i)
      | Some e => (t, if bool_decide (e = name) then Found else next i)
      end
  | Claim i =>
      match t_slots t !! slot_at name i with
      | None => (mkTable (<[slot_at name i := name]> (t_slots t)) (t_n t), Counting)
      | Some _ => (t, Reload i)
      end
  | Counting => (mkTable (t_slots t) (t_n t + 1), Found)
  | Reload i => (t, if bool_decide (t_slots t !! slot_at name i = Some name) then Found else next i)
  | Found | Full => (t, p)
  end.

(** [find] *)
Fixpoint find_go (fuel i : nat) (name : bytes) (t : table) : bool :=
  match fuel with
  | O => false
  | S fuel => match t_slots t !! slot_at name i with
              | None => false
              | Some e => if bool_decide (e = name) then true else find_go fuel (S i) name t
              end
  end.
Definition find (name : bytes) (t : table) : bool := find_go size 0 name t.
End Table.
End Names.

(** * What a name is served *)

Section LocalCA.
Context (signed_by : x509 → x509 → bool).                    (* c.CheckSignatureFrom(parent) == nil *)
Context (key_matches : x509 → Z → bool).                     (* publicKeyMatches *)
Context (create : Z → template → caState → option (x509 * Z)). (* newKey, CreateCertificate and ParseCertificate *)

(** [withChain] *)
Definition withChain (c : tlsCert) (ca : caState) : option tlsCert :=
  if signed_by (tc_Leaf c) (ca_cert ca) then Some (mkTLS (tc_Leaf c) (ca_chain ca) (tc_Key c)) else None.

(** ** Folders

    The folders of a CA: what [tls.LoadX509KeyPair] reads in each, where it
    can; and the archive's. *)
Record folders := mkFolders { d_folder : gmap bytes (option tlsCert); d_archive : gmap bytes (option tlsCert) }.

Inductive move_err := NotExist | MoveFailed.
Context (stamp : Z → bytes).                                 (* time.Format("20060102150405") *)

(** [moveToArchive]: the archive's folder is there or can be made. *)
Definition moveToArchive (can : bool) (now : Z) (name : bytes) (d : folders) : res move_err bytes * folders :=
  if negb can then (Err MoveFailed, d)
  else
    let names := (fun i => name ++ lit "-" ++ stamp (now + i * second)) <$> seqZ 0 60 in
    match List.find (fun to => bool_decide (d_archive d !! to = None)) names with
    | None => (Err MoveFailed, d)
    | Some to =>
        match d_folder d !! name with
        | None => (Err NotExist, d)
        | Some c => (Ok to, mkFolders (delete name (d_folder d)) (<[to := c]> (d_archive d)))
        end
    end.

(** ** One certificate

    What the outside answers in a critical section: the clock, randomness,
    whether things can be moved and written, and what a write that fails
    leaves in the folder. *)
Record answers := mkAnswers { a_now : Z; a_rand : Z; a_can_move : bool; a_left : option (option (option tlsCert)) }.

(** [fromDisk]; [archive] as its last step. *)
Definition fromDisk (conf : caConfig) (name : bytes) (ca : caState) (a : answers) (d : folders) : option tlsCert * folders :=
  let aside := (None, (moveToArchive (a_can_move a) (a_now a) (localCAFolder name) d).2) in
  match d_folder d !! localCAFolder name with
  | None => (None, d)
  | Some None => aside
  | Some (Some c) =>
      if negb (signed_by (tc_Leaf c) (ca_cert ca)) then aside
      else if negb (bool_decide (leafKey (tc_Leaf c) = name)) then aside
      else if leafRenewDue conf (tc_Leaf c) <=? a_now a then (None, d)
      else (withChain c ca, d)
  end.

(** [issue] *)
Definition issue (conf : caConfig) (name : bytes) (ca : caState) (a : answers) : option tlsCert :=
  (fun c : x509 * Z => mkTLS c.1 (ca_chain ca) c.2) <$> create (a_rand a) (issue_template conf ca name (a_now a)) ca.

(** [save]: the folder then holds the certificate, unless a write failed. *)
Definition save (name : bytes) (c : tlsCert) (a : answers) (d : folders) : folders :=
  match a_left a with
  | None => mkFolders (<[localCAFolder name := Some c]> (d_folder d)) (d_archive d)
  | Some junk => mkFolders (partial_alter (fun _ => junk) (localCAFolder name) (d_folder d)) (d_archive d)
  end.

(** [certificate] without the lock: the CA's state loaded first. *)
Definition certificate_fast (conf : caConfig) (now : Z) (ca : caState) (cur : option leafState) : option tlsCert :=
  match cur with
  | Some st => if bool_decide (ca_id (ls_ca st) = ca_id ca) && (now <? leafRenewDue conf (tc_Leaf (ls_cert st))) then Some (ls_cert st) else None
  | None => None
  end.

(** [certificate] with it: the certificate in memory and the folders before
    and after, and what is served. *)
Definition certificate_locked (conf : caConfig) (name : bytes) (ca : caState) (a : answers) (cur : option leafState) (d : folders)
    : option tlsCert * option leafState * folders :=
  let '(cur, c, d) :=
    match cur with
    | None => (None, None, d)
    | Some st =>
        if bool_decide (ca_id (ls_ca st) = ca_id ca) then (Some st, Some (ls_cert st), d)
        else match withChain (ls_cert st) ca with
             | None => (None, None, (moveToArchive (a_can_move a) (a_now a) (localCAFolder name) d).2)
             | Some c => (Some (mkLeaf c ca), Some c, d)
             end
    end in
  match c with
  | Some c =>
      if a_now a <? leafRenewDue conf (tc_Leaf c) then (Some c, cur, d)
      else match issue conf name ca a with
           | None => (Some c, cur, d)
           | Some new => (Some new, Some (mkLeaf new ca), save name new a d)
           end
  | None =>
      match fromDisk conf name ca a d with
      | (Some c, d) => (Some c, Some (mkLeaf c ca), d)
      | (None, d) =>
          match issue conf name ca a with
          | None => (None, cur, d)
          | Some new => (Some new, Some (mkLeaf new ca), save name new a d)
          end
      end
  end.

(** [remove]: [find] knows the name, and there is a certificate. *)
Definition remove (name : bytes) (a : answers) (cur : option leafState) (d : folders) : bool * option leafState * folders :=
  match cur with
  | None => (false, cur, d)
  | Some _ =>
      match moveToArchive (a_can_move a) (a_now a) (localCAFolder name) d with
      | (Err MoveFailed, d) => (false, cur, d)
      | (_, d) => (true, None, d)
      end
  end.

(** ** The CA itself *)

Context (sign_ca : Z → ca_fields → Z → bytes → Z → Z → option x509). (* CreateCertificate of a CA: subject, key, hash, from, until *)
Context (keyID : Z → bytes).                                 (* SHA-1 of the public key *)

(** [renewCA], of the files as read: the key, the certificate and its
    issuers; whether the new certificate can be written. The state in use
    after it, if it is another. *)
Definition renewCA (id : bytes) (key : res err Z) (certs : res err (list x509)) (now rand : Z) (can_write : bool)
    (cur : option caState) (fresh : nat) : res err (option caState) :=
  let! key := key in
  let! certs := certs in
  match certs with
  | [] => Err "no certificate in the PEM data"%string
  | ca :: _ =>
      guard! key_matches ca key else "the key does not belong to the certificate"%string in
      let! (ca, certs) :=
        if signed_by ca ca && (renewDue ca <=? now) then
          let fixed := setCAFromCert (defaultCAConfig id) (x_Fields ca) in
          match sign_ca rand (x_Fields ca) key (ca_HashAlgorithm fixed) (now - hour) (now + i64 (ca_ValidityDays fixed * day)) with
          | None => Err "cannot sign"%string
          | Some new => if can_write then Ok (new, [new]) else Err "cannot write"%string
          end
        else Ok (ca, certs) in
      let chain := x_Raw <$> filter (fun c => signed_by c c = false) certs in
      let same := match cur with
                  | Some cur => bool_decide (x_Raw (ca_cert cur) = x_Raw ca) && bool_decide (ca_chain cur = chain) && key_matches (ca_cert cur) key
                  | None => false
                  end in
      Ok (if same then None else Some (mkCA fresh ca chain key))
  end.

(** [importCA]: of what was pasted in, whether a key is there already, and
    whether the files can be written. *)
Definition keyCertSign : Z := 32.
Fixpoint chain_signed (c : x509) (rest : list x509) : bool :=
  match rest with [] => true | d :: rest => signed_by c d && chain_signed d rest end.
Definition importCA (certs : res err (list x509)) (key : res err Z) (now : Z) (occupied can_write : bool) : res err (x509 * list x509 * Z) :=
  let! certs := certs in
  let! key := key in
  match certs with
  | [] => Err "no certificate in the PEM data"%string
  | ca :: rest =>
      guard! x_IsCA ca else "is not a CA certificate"%string in
      guard! (x_KeyUsage ca =? 0) || negb (Z.land (x_KeyUsage ca) keyCertSign =? 0) else "may not sign certificates"%string in
      guard! key_matches ca key else "the private key does not belong to the certificate"%string in
      guard! now <? x_NotAfter ca else "has expired"%string in
      guard! chain_signed ca rest else "is not signed by the next one"%string in
      guard! negb occupied else "there is a key already"%string in
      guard! can_write else "cannot write"%string in
      Ok (ca, rest, key)
  end.
End LocalCA.

(** * Everybody at once

    Handshakes for any names, the CA renewed or replaced, its settings read
    again, certificates removed from the console, and the folders changed by
    anybody. A critical section under a name's lock is one step, which reads
    the clock and the settings once; so is loading the CA's state, which a
    handshake does before it looks at the certificate in memory. *)

(** The names certificates are made for. *)
Definition proper_name (name : bytes) : Prop :=
  isHostName name = true ∨
  ∃ ips hosts, ips ≠ [] ∧ Forall (fun a => addr_ok a ∧ is_valid a = true ∧ zone a = []) ips ∧
    Forall (fun h => isHostName h = true) hosts ∧ name = sanKey ips hosts.

(** A handshake: the CA states there had been when it began, and where it is.
    [Served]: the certificate, the CA state it goes with, when and under
    which settings, and whether it is served past its renewal because none
    could be issued. *)
Inductive hs_pc :=
| Begin | Loaded (ca : caState) | Waiting
| Served (c : tlsCert) (by_ca : caState) (now : Z) (conf : caConfig) (stale : bool)
| Refused.
Record handshake := mkHs { hs_name : bytes; hs_since : nat; hs_at : hs_pc }.

(** [w_seen]: every CA state that was ever current, in order. *)
Record world := mkWorld {
  w_ca : caState; w_seen : list caState; w_conf : option caConfigState;
  w_cur : gmap bytes leafState; w_disk : folders; w_hs : list handshake;
}.

Definition set_hs (w : world) (i : nat) (p : hs_pc) : list handshake :=
  alter (fun h => mkHs (hs_name h) (hs_since h) p) i (w_hs w).

Section System.
Context (signed_by : x509 → x509 → bool) (key_matches : x509 → Z → bool) (create : Z → template → caState → option (x509 * Z)).
Context (stamp : Z → bytes) (sign_ca : Z → ca_fields → Z → bytes → Z → Z → option x509) (json_strings : list bytes → bytes).
Context (id : bytes).

(** What may sign: a CA certificate and its own key. *)
Definition can_sign (c : x509) (key : Z) : Prop :=
  x_IsCA c = true ∧ (x_KeyUsage c = 0 ∨ Z.land (x_KeyUsage c) keyCertSign ≠ 0) ∧ key_matches c key = true.

(** Wherever a key pair loads, it fits together. *)
Definition pairs_fit (d : folders) : Prop :=
  ∀ name c, d_folder d !! name = Some (Some c) → key_matches (tc_Leaf c) (tc_Key c) = true.

Definition conf_of (w : world) : caConfig := config id (w_conf w).

Inductive step : relation world :=
| HsNew w name : proper_name name →
    step w (mkWorld (w_ca w) (w_seen w) (w_conf w) (w_cur w) (w_disk w) (w_hs w ++ [mkHs name (pred (length (w_seen w))) Begin]))
| HsLoad w i h : w_hs w !! i = Some h → hs_at h = Begin →
    step w (mkWorld (w_ca w) (w_seen w) (w_conf w) (w_cur w) (w_disk w) (set_hs w i (Loaded (w_ca w))))
| HsFast w i h ca now : w_hs w !! i = Some h → hs_at h = Loaded ca →
    step w (mkWorld (w_ca w) (w_seen w) (w_conf w) (w_cur w) (w_disk w)
      (set_hs w i match certificate_fast (conf_of w) now ca (w_cur w !! hs_name h) with
                  | Some c => Served c ca now (conf_of w) false | None => Waiting end))
| HsLocked w i h a c cur d : w_hs w !! i = Some h → hs_at h = Waiting →
    certificate_locked signed_by create stamp (conf_of w) (hs_name h) (w_ca w) a (w_cur w !! hs_name h) (w_disk w) = (c, cur, d) → pairs_fit d →
    step w (mkWorld (w_ca w) (w_seen w) (w_conf w) (partial_alter (fun _ => cur) (hs_name h) (w_cur w)) d
      (set_hs w i match c with
                  | Some c => Served c (w_ca w) (a_now a) (conf_of w) (leafRenewDue (conf_of w) (tc_Leaf c) <=? a_now a)
                  | None => Refused end))
| CaRenew w key certs now rand can_write st :
    renewCA signed_by key_matches sign_ca id key certs now rand can_write (Some (w_ca w)) (length (w_seen w)) = Ok (Some st) →
    can_sign (ca_cert st) (ca_key st) →
    step w (mkWorld st (w_seen w ++ [st]) (w_conf w) (w_cur w) (w_disk w) (w_hs w))
| ConfLoad w d :
    step w (mkWorld (w_ca w) (w_seen w) (Some (loadConfig json_strings id (Some (x_Fields (ca_cert (w_ca w)))) (w_conf w) d)) (w_cur w) (w_disk w) (w_hs w))
| ConsoleRemove w name a ok cur d : remove stamp name a (w_cur w !! name) (w_disk w) = (ok, cur, d) → pairs_fit d →
    step w (mkWorld (w_ca w) (w_seen w) (w_conf w) (partial_alter (fun _ => cur) name (w_cur w)) d (w_hs w))
| DiskChange w d : pairs_fit d →
    step w (mkWorld (w_ca w) (w_seen w) (w_conf w) (w_cur w) d (w_hs w)).

(** As the CA is opened: nothing in memory, anything on disk. *)
Definition opened (w : world) : Prop :=
  w_seen w = [w_ca w] ∧ ca_id (w_ca w) = 0%nat ∧ can_sign (ca_cert (w_ca w)) (ca_key (w_ca w)) ∧
  cert_ok (ca_Cert (conf_of w)) ∧ w_cur w = ∅ ∧ pairs_fit (w_disk w) ∧ w_hs w = [].

End System.

(** * Names *)

Lemma sanSplit_parts ips hosts acc : Forall key_addr ips → Forall (fun h => isHostName h = true) hosts →
  foldl (fun '(ips, hosts) part => match parse_addr part with
    | Some ip => (ips ++ [as_slice ip], hosts) | None => (ips, hosts ++ [part]) end) acc ((addr_string <$> ips) ++ hosts) =
  (acc.1 ++ (as_slice <$> ips), acc.2 ++ hosts).
Proof.
  intros Hi Hh. revert acc. induction Hi as [|a ips (Hok & Hv & Hz & _) _ IH]; intros [l k]; cbn [fmap list_fmap app foldl fst snd].
  - revert l k. induction Hh as [|h hs Hx _ IH]; intros l k; cbn [foldl]; [by rewrite !app_nil_r|].
    destruct (isHostName_spec h Hx) as (-> & _). rewrite IH, <- app_assoc. by rewrite app_nil_r.
  - destruct (addr_text a Hok Hv Hz) as (-> & _). rewrite IH. cbn [fst snd]. by rewrite <- app_assoc.
Qed.

Lemma key_addr_slice ips : Forall key_addr ips → omap (fun ip => unmap <$> addr_from_slice ip) (as_slice <$> ips) = ips.
Proof.
  induction 1 as [|a ips (Hok & Hv & Hz & Hu) _ IH]; [done|]. cbn [fmap list_fmap omap list_omap].
  assert (addr_from_slice (as_slice a) = Some a) as E.
  { unfold addr_from_slice. destruct a as [|b|b z]; cbn [as_slice addr_ok zone] in *; [done|by destruct Hok as [-> _]|]. subst z. by destruct Hok as [-> _]. }
  rewrite E. cbn. by rewrite Hu, IH.
Qed.

(** A certificate made for a name covers it, and nothing else. *)
Lemma issued_key name c : proper_name name →
  x_IPAddresses c = (sanSplit name).1 → x_DNSNames c = (sanSplit name).2 → leafKey c = name.
Proof.
  intros Hp Ei Eh. unfold leafKey. rewrite Ei, Eh. clear Ei Eh. destruct Hp as [Hh|(ips & hosts & Hne & Hi & Hh & ->)].
  - destruct (host_part name Hh) as (_ & _ & Hc & _). destruct (isHostName_spec name Hh) as (Hn & _).
    unfold sanSplit. rewrite split_byte_none by done. cbn. by rewrite Hn.
  - pose proof (key_addrs ips Hi) as Hka.
    set (ci := compact (stable_sort addr_less (unmap <$> ips))) in *. set (ch' := compact (stable_sort str_less hosts)).
    destruct (key_ordered addr_less (unmap <$> ips)) as [Eci Hin]. destruct (key_ordered str_less hosts) as [Ech Hhn]. fold ci in Eci, Hin. fold ch' in Ech, Hhn.
    assert (Forall (fun h => isHostName h = true) ch') as Hhc.
    { rewrite Forall_forall in Hh |- *. intros h H%Hhn. by apply Hh. }
    assert (ci ≠ []) as Hcne.
    { destruct ips as [|a ips]; [done|]. intros E. assert (unmap a ∈ ci) as H by (apply Hin; left). rewrite E in H. by apply not_elem_of_nil in H. }
    assert (sanKey ips hosts = join (lit ",") ((addr_string <$> ci) ++ ch')) as Ek by (by destruct ips).
    rewrite Ek. unfold sanSplit. change (lit ",") with [44]. change (ch ",") with 44.
    rewrite split_join; [|by destruct ci|by apply parts_text]. rewrite sanSplit_parts by done. cbn [fst snd app].
    rewrite key_addr_slice by done.
    assert (unmap <$> ci = ci) as Eu.
    { clear -Hka. induction Hka as [|a l Ha _ IH]; [done|]. cbn. rewrite IH. f_equal. apply Ha. }
    unfold sanKey. rewrite Eu, Eci, Ech. by destruct ci.
Qed.

(** The names rules hand out are proper. *)
Lemma LocalCAName_proper r sni sniIP dialed name : Forall (fun h => isHostName h = true) (r_certHosts r) →
  (r_certKey r = [] ∨ proper_name (r_certKey r)) → addr_ok dialed → LocalCAName r sni sniIP dialed = Ok name → proper_name name.
Proof.
  intros Hh Hk Hd. unfold LocalCAName. destruct (bool_decide_reflect (sni = [])) as [_|_]; cbn [negb].
  - destruct (_ && _); [done|]. cbn [negb]. destruct (bool_decide_reflect (r_certKey r = [])) as [E|E]; cbn [negb]; [|intros [= <-]; naive_solver].
    destruct (is_valid dialed) eqn:Ev; [|done]. intros [= <-]. right. exists [unmap (with_zone dialed [])], (r_certHosts r).
    split; [done|]. split; [|done]. constructor; [|done].
    assert (addr_ok (with_zone dialed [])) as Hz by (by destruct dialed).
    split; [by apply unmap_addr_ok|]. destruct dialed as [|b|b z]; [done|done|]. unfold with_zone, unmap. by destruct (is4in6 (Addr6 b [])).
  - destruct (isHostName sni) eqn:E; [|done]. destruct (LocalCAIssues r sni); [|done]. intros [= <-]. by left.
Qed.

(** * When a certificate is renewed *)

Definition to_second (t : Z) : Z := t / second * second.
Lemma to_second_range t : t - second < to_second t <= t.
Proof. unfold to_second, second. pose proof (Z.div_mod t 1000000000). pose proof (Z.mod_pos_bound t 1000000000). lia. Qed.

(** What was made for some days is not due yet, and is before it expires:
    by the third of its lifetime, *)
Lemma renewDue_window now d c : 1 <= d <= 36500 →
  x_NotBefore c = to_second (now - hour) → x_NotAfter c = to_second (now + i64 (d * day)) →
  now + day / 2 < renewDue c < x_NotAfter c.
Proof.
  intros Hd Eb Ea. assert (day = 86400000000000) as Eday by reflexivity. assert (hour = 3600000000000) as Eh by reflexivity. assert (second = 1000000000) as Es by reflexivity.
  rewrite (i64_id (d * day)) in Ea by (rewrite Eday; lia).
  pose proof (to_second_range (now - hour)) as Hb'. pose proof (to_second_range (now + d * day)) as Ha'. rewrite <- Eb in Hb'. rewrite <- Ea in Ha'.
  change (day / 2) with 43200000000000. rewrite Eday, Eh, Es in *.
  unfold renewDue. set (life := x_NotAfter c - x_NotBefore c). assert (0 < life < 2 ^ 62) as Hl by (unfold life; lia).
  assert (time_sub (x_NotAfter c) (x_NotBefore c) = life) as -> by (unfold time_sub; fold life; lia).
  rewrite i64_id by lia. rewrite Z.quot_opp_l by lia. rewrite Z.quot_div_nonneg by lia.
  pose proof (Z.div_mod life 3). pose proof (Z.mod_pos_bound life 3). unfold life in *. lia.
Qed.

(** and by whatever settings are valid. *)
Lemma issued_window conf now c : cert_ok (ca_Cert conf) →
  x_NotBefore c = to_second (now - hour) → x_NotAfter c = to_second (now + i64 (cs_ValidityDays (ca_Cert conf) * day)) →
  now + day / 2 < leafRenewDue conf c < x_NotAfter c.
Proof.
  intros Hok Eb Ea. pose proof (co_days _ Hok) as Hd. pose proof (co_renew _ Hok) as Hr. unfold leafRenewDue.
  destruct (Z.ltb_spec 0 (cs_RenewBeforeDays (ca_Cert conf))); [|by apply (renewDue_window now (cs_ValidityDays (ca_Cert conf))); [lia|..]].
  set (d := cs_ValidityDays (ca_Cert conf)) in *. set (r := cs_RenewBeforeDays (ca_Cert conf)) in *.
  assert (day = 86400000000000) as Eday by reflexivity. assert (second = 1000000000) as Es by reflexivity.
  rewrite (i64_id (d * day)) in Ea by (rewrite Eday; lia). pose proof (to_second_range (now + d * day)) as Ha'. rewrite <- Ea in Ha'.
  change (day / 2) with 43200000000000. rewrite Eday, Es in *. rewrite i64_id by lia. lia.
Qed.

(** * What is served *)

Section Facts.
Context (signed_by : x509 → x509 → bool) (key_matches : x509 → Z → bool) (create : Z → template → caState → option (x509 * Z)).
Context (stamp : Z → bytes) (sign_ca : Z → ca_fields → Z → bytes → Z → Z → option x509) (json_strings : list bytes → bytes).
Context (id : bytes).

(* x509.CreateCertificate makes what the template says, to the second, signed
   by the parent it is given. *)
Hypothesis create_ok : ∀ rand t ca c key, can_sign key_matches (ca_cert ca) (ca_key ca) → create rand t ca = Some (c, key) →
  x_DNSNames c = t_DNSNames t ∧ x_IPAddresses c = t_IPAddresses t ∧
  x_NotBefore c = to_second (t_NotBefore t) ∧ x_NotAfter c = to_second (t_NotAfter t) ∧
  signed_by c (ca_cert ca) = true ∧ key_matches c key = true.

(** A certificate for exactly this name, with its key, signed by this CA and
    sent with its chain. *)
Record good (name : bytes) (c : tlsCert) (ca : caState) : Prop := mkGood {
  g_name : leafKey (tc_Leaf c) = name;
  g_signed : signed_by (tc_Leaf c) (ca_cert ca) = true;
  g_chain : tc_Chain c = ca_chain ca;
  g_key : key_matches (tc_Leaf c) (tc_Key c) = true;
}.

Lemma issue_good conf name ca a c : proper_name name → can_sign key_matches (ca_cert ca) (ca_key ca) → cert_ok (ca_Cert conf) →
  issue create conf name ca a = Some c → good name c ca ∧ a_now a < leafRenewDue conf (tc_Leaf c).
Proof using create_ok.
  intros Hp Hs Hok. unfold issue. destruct (create _ _ ca) as [[x key]|] eqn:E; [|done]. intros [= <-].
  destruct (create_ok _ _ _ _ _ Hs E) as (H1 & H2 & H3 & H4 & H5 & H6). unfold issue_template in *.
  destruct (sanSplit name) as [ips hosts] eqn:Es. cbn in *. split.
  - split; cbn; [|done..]. apply issued_key; [done|..]; by rewrite Es.
  - destruct (issued_window conf (a_now a) x Hok H3 H4) as [H _]. change (day / 2) with 43200000000000 in H. lia.
Qed.

Lemma withChain_good name c ca0 ca c' : good name c ca0 → withChain signed_by c ca = Some c' → good name c' ca.
Proof. intros [H1 H2 H3 H4]. unfold withChain. destruct (signed_by (tc_Leaf c) (ca_cert ca)) eqn:E; [|done]. intros H; injection H as <-. by split. Qed.

Lemma fromDisk_good conf name ca a d c d' : pairs_fit key_matches d → fromDisk signed_by stamp conf name ca a d = (Some c, d') →
  good name c ca ∧ a_now a < leafRenewDue conf (tc_Leaf c).
Proof.
  intros Hd. unfold fromDisk. destruct (d_folder d !! localCAFolder name) as [[c0|]|] eqn:E; [|done..].
  destruct (signed_by (tc_Leaf c0) (ca_cert ca)) eqn:Es; [|done]. cbn [negb].
  destruct (bool_decide_reflect (leafKey (tc_Leaf c0) = name)) as [Hn|]; [|done]. cbn [negb].
  destruct (Z.leb_spec (leafRenewDue conf (tc_Leaf c0)) (a_now a)); [done|]. unfold withChain. rewrite Es. intros [= <- <-].
  split; [|done]. split; cbn; [done..|]. by eapply Hd.
Qed.

(** The critical section: what it serves, and what it leaves in memory. *)
Lemma locked_good conf name ca a cur d c cur' d' :
  proper_name name → can_sign key_matches (ca_cert ca) (ca_key ca) → cert_ok (ca_Cert conf) → pairs_fit key_matches d →
  (∀ st, cur = Some st → good name (ls_cert st) (ls_ca st) ∧ (ca_id (ls_ca st) = ca_id ca → ls_ca st = ca)) →
  certificate_locked signed_by create stamp conf name ca a cur d = (c, cur', d') →
  (∀ st, cur' = Some st → good name (ls_cert st) (ls_ca st) ∧ ls_ca st = ca) ∧
  (∀ c0, c = Some c0 → good name c0 ca ∧
    (a_now a < leafRenewDue conf (tc_Leaf c0) ∨ create (a_rand a) (issue_template conf ca name (a_now a)) ca = None)).
Proof using create_ok.
  intros Hp Hs Hok Hd Hcur. unfold certificate_locked.
  assert (∀ c cur', (∀ st, cur' = Some st → good name (ls_cert st) (ls_ca st) ∧ ls_ca st = ca) → good name c ca → ∀ d c0 cur0 d0,
    (if a_now a <? leafRenewDue conf (tc_Leaf c) then (Some c, cur', d)
     else match issue create conf name ca a with None => (Some c, cur', d) | Some new => (Some new, Some (mkLeaf new ca), save name new a d) end) = (c0, cur0, d0) →
    (∀ st, cur0 = Some st → good name (ls_cert st) (ls_ca st) ∧ ls_ca st = ca) ∧
    (∀ c1, c0 = Some c1 → good name c1 ca ∧ (a_now a < leafRenewDue conf (tc_Leaf c1) ∨ create (a_rand a) (issue_template conf ca name (a_now a)) ca = None))) as Hhave.
  { intros c1 cur1 Hcur1 Hc1 d1 c0 cur0 d0. destruct (Z.ltb_spec (a_now a) (leafRenewDue conf (tc_Leaf c1))) as [Hlt|_].
    - intros [= <- <- <-]. split; [done|]. intros ? [= <-]. tauto.
    - destruct (issue create conf name ca a) as [new|] eqn:E; intros [= <- <- <-].
      + destruct (issue_good _ _ _ _ _ Hp Hs Hok E) as [Hg Hw]. split; [by intros ? [= <-]|]. intros ? [= <-]. tauto.
      + split; [done|]. intros ? [= <-]. split; [done|]. right. unfold issue in E. by destruct (create _ _ ca). }
  assert (∀ d0, pairs_fit key_matches d0 → ∀ c0 cur0 d1,
    match fromDisk signed_by stamp conf name ca a d0 with
    | (Some c, d) => (Some c, Some (mkLeaf c ca), d)
    | (None, d) => match issue create conf name ca a with None => (None, None, d) | Some new => (Some new, Some (mkLeaf new ca), save name new a d) end
    end = (c0, cur0, d1) →
    (∀ st, cur0 = Some st → good name (ls_cert st) (ls_ca st) ∧ ls_ca st = ca) ∧
    (∀ c1, c0 = Some c1 → good name c1 ca ∧ (a_now a < leafRenewDue conf (tc_Leaf c1) ∨ create (a_rand a) (issue_template conf ca name (a_now a)) ca = None))) as Hnone.
  { intros d0 Hd0 c0 cur0 d1. destruct (fromDisk signed_by stamp conf name ca a d0) as [[c1|] d2] eqn:Ef.
    - intros [= <- <- <-]. destruct (fromDisk_good _ _ _ _ _ _ _ Hd0 Ef) as [Hg Hw]. split; [by intros ? [= <-]|]. intros ? [= <-]. tauto.
    - destruct (issue create conf name ca a) as [new|] eqn:E; intros [= <- <- <-]; [|done].
      destruct (issue_good _ _ _ _ _ Hp Hs Hok E) as [Hg Hw]. split; [by intros ? [= <-]|]. intros ? [= <-]. tauto. }
  destruct cur as [st|]; [|by apply Hnone]. destruct (Hcur st eq_refl) as [Hg Hid].
  destruct (bool_decide_reflect (ca_id (ls_ca st) = ca_id ca)) as [E|_].
  - apply Hhave; [|by rewrite <- (Hid E)]. intros st' [= <-]. auto.
  - destruct (withChain signed_by (ls_cert st) ca) as [c1|] eqn:Ew.
    + pose proof (withChain_good _ _ _ _ _ Hg Ew). apply Hhave; [by intros ? [= <-]|done].
    + apply Hnone. intros n x Hx. apply (Hd n x). revert Hx. unfold moveToArchive. destruct (negb _); [done|].
      destruct (List.find _ _); [|done]. destruct (d_folder d !! localCAFolder name) eqn:El; [|done]. cbn.
      rewrite lookup_delete_Some. tauto.
Qed.

(** * What is kept *)

Definition hs_ok (seen : list caState) (h : handshake) : Prop :=
  proper_name (hs_name h) ∧ (hs_since h < length seen)%nat ∧
  match hs_at h with
  | Loaded ca => ca ∈ drop (hs_since h) seen
  | Served c ca now conf stale =>
      good (hs_name h) c ca ∧ ca ∈ drop (hs_since h) seen ∧
      if stale then ∃ rand, create rand (issue_template conf ca (hs_name h) now) ca = None else now < leafRenewDue conf (tc_Leaf c)
  | _ => True
  end.

Record inv (w : world) : Prop := mkInv {
  i_ids : ∀ i ca, w_seen w !! i = Some ca → ca_id ca = i;
  i_last : last (w_seen w) = Some (w_ca w);
  i_sign : ∀ ca, ca ∈ w_seen w → can_sign key_matches (ca_cert ca) (ca_key ca);
  i_conf : cert_ok (ca_Cert (conf_of id w));
  i_cur : ∀ n st, w_cur w !! n = Some st → good n (ls_cert st) (ls_ca st) ∧ ls_ca st ∈ w_seen w;
  i_disk : pairs_fit key_matches (w_disk w);
  i_hs : Forall (hs_ok (w_seen w)) (w_hs w);
}.

Lemma same_ca w ca ca' : inv w → ca ∈ w_seen w → ca' ∈ w_seen w → ca_id ca = ca_id ca' → ca = ca'.
Proof.
  intros Hi [i H]%list_elem_of_lookup [j H']%list_elem_of_lookup He.
  pose proof (i_ids w Hi _ _ H). pose proof (i_ids w Hi _ _ H'). assert (i = j) as -> by lia. congruence.
Qed.

Lemma last_since w h : inv w → (hs_since h < length (w_seen w))%nat → w_ca w ∈ drop (hs_since h) (w_seen w).
Proof.
  intros Hi Hl. pose proof (i_last w Hi) as H. rewrite last_lookup in H. apply list_elem_of_lookup.
  exists (pred (length (w_seen w)) - hs_since h)%nat. rewrite lookup_drop. replace (hs_since h + _)%nat with (pred (length (w_seen w))) by lia. done.
Qed.

Lemma since_all w h ca : ca ∈ drop (hs_since h) (w_seen w) → ca ∈ w_seen w.
Proof. intros H. rewrite <- (take_drop (hs_since h) (w_seen w)). apply elem_of_app. by right. Qed.

(** A handshake goes on to where it may be. *)
Lemma set_hs_ok w i h p : Forall (hs_ok (w_seen w)) (w_hs w) → w_hs w !! i = Some h →
  (hs_ok (w_seen w) h → hs_ok (w_seen w) (mkHs (hs_name h) (hs_since h) p)) → Forall (hs_ok (w_seen w)) (set_hs w i p).
Proof.
  intros HF Hi Hp. unfold set_hs. rewrite Forall_lookup in HF |- *. intros j x.
  destruct (decide (j = i)) as [->|Hne].
  - rewrite list_lookup_alter_eq, Hi. cbn. intros [= <-]. by apply Hp, (HF i).
  - rewrite list_lookup_alter_ne by done. apply HF.
Qed.

Lemma current_seen w : inv w → w_ca w ∈ w_seen w.
Proof. intros Hi. apply list_elem_of_lookup. eexists. rewrite <- last_lookup. apply (i_last w Hi). Qed.

Lemma at_lock w name a c cur d : inv w → proper_name name →
  certificate_locked signed_by create stamp (conf_of id w) name (w_ca w) a (w_cur w !! name) (w_disk w) = (c, cur, d) →
  (∀ st, cur = Some st → good name (ls_cert st) (ls_ca st) ∧ ls_ca st = w_ca w) ∧
  (∀ c0, c = Some c0 → good name c0 (w_ca w) ∧
    (a_now a < leafRenewDue (conf_of id w) (tc_Leaf c0) ∨ create (a_rand a) (issue_template (conf_of id w) (w_ca w) name (a_now a)) (w_ca w) = None)).
Proof using create_ok.
  intros Hi Hp El. pose proof (current_seen w Hi) as Hca.
  eapply (locked_good _ _ _ _ _ _ _ _ _ Hp (i_sign w Hi _ Hca) (i_conf w Hi) (i_disk w Hi)); [|exact El].
  intros st Hst. destruct (i_cur w Hi _ _ Hst) as [Hg Hin]. split; [done|]. by apply (same_ca w).
Qed.

Lemma inv_step w w' : inv w → step signed_by key_matches create stamp sign_ca json_strings id w w' → inv w'.
Proof using create_ok.
  intros Hi Hs. pose proof Hi as [H1 H2 H3 H4 H5 H6 H7].
  assert (length (w_seen w) ≠ 0%nat) as Hlen by (intros E; destruct (w_seen w); done).
  destruct Hs as [w name Hp|w i h Hh Hpc|w i h ca now Hh Hpc|w i h a c cur d Hh Hpc El Hd|w key certs now rand cw st Hr Hcs|w d|w name a ok cur d Er Hd|w d Hd];
    (split; cbn [w_ca w_seen w_conf w_cur w_disk w_hs]; try done).
  - apply Forall_app. split; [done|]. constructor; [|done]. split; [done|]. cbn. split; [lia|done].
  - apply (set_hs_ok w i h); [done..|]. intros (Hp & Hl & _). split; [done|]. split; [done|]. cbn. by apply last_since.
  - apply (set_hs_ok w i h); [done..|]. intros (Hp & Hl & Hca). rewrite Hpc in Hca. split; [done|]. split; [done|]. cbn.
    unfold certificate_fast. destruct (w_cur w !! hs_name h) as [st|] eqn:Ec; [|done]. destruct (H5 _ _ Ec) as [Hg Hin].
    destruct (bool_decide_reflect (ca_id (ls_ca st) = ca_id ca)) as [E|]; [|done]. cbn [andb].
    destruct (Z.ltb_spec now (leafRenewDue (conf_of id w) (tc_Leaf (ls_cert st)))); [|done].
    assert (ls_ca st = ca) as <- by (eapply same_ca; [done..|by eapply since_all|done]). done.
  - pose proof (proj1 (Forall_lookup _ _) H7 _ _ Hh) as (Hp & _).
    destruct (at_lock w _ _ _ _ _ Hi Hp El) as [Hc _].
    intros n st. destruct (decide (n = hs_name h)) as [->|Hne].
    + rewrite lookup_partial_alter_eq. intros Hst. destruct (Hc st Hst) as [Hg E]. split; [done|rewrite E; by apply current_seen].
    + rewrite lookup_partial_alter_ne by congruence. apply H5.
  - apply (set_hs_ok w i h); [done..|]. intros (Hp & Hl & _). split; [done|]. split; [done|]. cbn.
    destruct (at_lock w _ _ _ _ _ Hi Hp El) as [_ Hc].
    destruct c as [c|]; [|done]. destruct (Hc c eq_refl) as [Hg Hdue]. split; [done|]. split; [by apply last_since|].
    destruct (Z.leb_spec (leafRenewDue (conf_of id w) (tc_Leaf c)) (a_now a)); [|done].
    destruct Hdue; [lia|by eexists].
  - intros i ca [Hl|[Hge Hl]]%lookup_app_Some; [by apply H1|]. destruct (i - length (w_seen w))%nat as [|k] eqn:Ek; [|done]. cbn in Hl. injection Hl as <-.
    assert (ca_id st = length (w_seen w)) as ->.
    { revert Hr. unfold renewCA. destruct key as [key|]; [|done]. destruct certs as [[|ca0 certs]|]; [done| |done].
      destruct (key_matches ca0 key); [|done]. destruct (signed_by ca0 ca0 && _).
      - destruct (sign_ca _ _ _ _ _ _); [|done]. destruct cw; [|done]. destruct (_ && _); [done|]. by intros [= <-].
      - destruct (_ && _); [done|]. by intros [= <-]. }
    lia.
  - by rewrite last_snoc.
  - intros ca [Hin| ->%list_elem_of_singleton]%elem_of_app; [by apply H3|done].
  - intros n st' Hst. destruct (H5 _ _ Hst). split; [done|]. apply elem_of_app. by left.
  - eapply Forall_impl; [exact H7|]. intros h (Hp & Hl & Hat). split; [done|]. rewrite length_app. split; [lia|].
    assert (∀ ca, ca ∈ drop (hs_since h) (w_seen w) → ca ∈ drop (hs_since h) (w_seen w ++ [st])) as Hmono.
    { intros ca Hin. rewrite drop_app_le by lia. apply elem_of_app. by left. }
    destruct (hs_at h); [done|by apply Hmono|done| |done]. destruct Hat as (? & ? & ?). split; [done|]. split; [by apply Hmono|done].
  - by apply loadConfig_ok.
  - intros n st. destruct (decide (n = name)) as [->|Hne]; [rewrite lookup_partial_alter_eq|by rewrite lookup_partial_alter_ne by congruence; apply H5].
    unfold remove in Er. destruct (w_cur w !! name) as [st0|] eqn:Ec; [|by injection Er as _ <- _].
    destruct (moveToArchive _ _ _ _ _) as [[to|[]] d']; injection Er as _ <- _; [done|done|]. intros [= <-]. by apply H5.
Qed.
End Facts.

(** * The CA's renewal *)

Section Renewal.
Context (signed_by : x509 → x509 → bool) (key_matches : x509 → Z → bool).
Context (sign_ca : Z → ca_fields → Z → bytes → Z → Z → option x509) (keyID : Z → bytes).

(* What signCA gets: a CA certificate for the same key, as long as it says. *)
Hypothesis sign_ok : ∀ rand f key hash from until c, sign_ca rand f key hash from until = Some c →
  can_sign key_matches c key ∧ x_NotBefore c = to_second from ∧ x_NotAfter c = to_second until ∧ x_SubjectKeyId c = keyID key.
(* A signature is checked with the parent's key. *)
Hypothesis signed_by_key : ∀ c p q key, can_sign key_matches p key → can_sign key_matches q key → signed_by c p = signed_by c q.

Lemma renewCA_spec id key ca issuers now rand can_write cur fresh r :
  renewCA signed_by key_matches sign_ca id (Ok key) (Ok (ca :: issuers)) now rand can_write (Some cur) fresh = Ok r →
  can_sign key_matches ca key → can_sign key_matches (ca_cert cur) (ca_key cur) →
  ∃ new, can_sign key_matches new key ∧
    (if signed_by ca ca && (renewDue ca <=? now)
     then sign_ca rand (x_Fields ca) key (ca_HashAlgorithm (setCAFromCert (defaultCAConfig id) (x_Fields ca))) (now - hour)
            (now + i64 (days_of (x_NotBefore ca) (x_NotAfter ca) * day)) = Some new
     else new = ca) ∧
    match r with
    | Some st => ca_cert st = new ∧ ca_key st = key ∧ ca_id st = fresh
    | None => x_Raw (ca_cert cur) = x_Raw new ∧ key_matches (ca_cert cur) key = true
    end.
Proof using sign_ok.
  unfold renewCA. intros H Hca Hcur. destruct (key_matches ca key); [|done].
  destruct (signed_by ca ca && (renewDue ca <=? now)) eqn:E.
  - destruct (setCAFromCert_fields (defaultCAConfig id) (x_Fields ca)) as (_ & Ed & _). rewrite Ed in H.
    destruct (sign_ca rand _ _ _ _ _) as [new|] eqn:Es; [|done]. destruct can_write; [|done].
    exists new. split; [by eapply sign_ok|]. split; [done|].
    destruct (bool_decide_reflect (x_Raw (ca_cert cur) = x_Raw new)) as [Er|]; cbn [andb] in H; [|injection H as <-; done].
    destruct (bool_decide _); cbn [andb] in H; [|injection H as <-; done].
    destruct (key_matches (ca_cert cur) key) eqn:Ek; injection H as <-; done.
  - exists ca. split; [done|]. split; [done|].
    destruct (bool_decide_reflect (x_Raw (ca_cert cur) = x_Raw ca)) as [Er|]; cbn [andb] in H; [|injection H as <-; done].
    destruct (bool_decide _); cbn [andb] in H; [|injection H as <-; done].
    destruct (key_matches (ca_cert cur) key) eqn:Ek; injection H as <-; done.
Qed.
End Renewal.

(** * The table of names, whatever interleaves *)

Module NamesFacts.
Import Names.
Section Facts.
Context (size : nat) (max : Z) (hash : bytes → nat).
Hypothesis size_pos : (0 < size)%nat.
Abbreviation slot_at := (slot_at size hash).

(** Walks for any names, each where it is. *)
Record walks := mkWalks { ws_table : table; ws_at : list (bytes * entry_pc) }.
Inductive walk_step : relation walks :=
| WalkNew s name : walk_step s (mkWalks (ws_table s) (ws_at s ++ [(name, At 0)]))
| WalkOn s i name p : ws_at s !! i = Some (name, p) →
    walk_step s (mkWalks (entry_step size max hash name (ws_table s) p).1
                   (<[i := (name, (entry_step size max hash name (ws_table s) p).2)]> (ws_at s))).

(** The first [i] slots of a name's walk are other names'. *)
Definition passed (t : table) (name : bytes) (i : nat) : Prop :=
  (i < size)%nat ∧ ∀ j, (j < i)%nat → ∃ e, t_slots t !! slot_at name j = Some e ∧ e ≠ name.
Definition listed (t : table) (name : bytes) : Prop := ∃ i, passed t name i ∧ t_slots t !! slot_at name i = Some name.

Definition walk_ok (t : table) (w : bytes * entry_pc) : Prop :=
  match w.2 with
  | At i | Claim i => passed t w.1 i
  | Reload i => passed t w.1 i ∧ is_Some (t_slots t !! slot_at w.1 i)
  | Counting | Found => listed t w.1
  | Full => True
  end.
Definition counting (w : bytes * entry_pc) : Z := match w.2 with Counting => 1 | _ => 0 end.

Record walks_inv (s : walks) : Prop := mkWalksInv {
  wi_slot : ∀ k name, t_slots (ws_table s) !! k = Some name → ∃ i, passed (ws_table s) name i ∧ k = slot_at name i;
  wi_walks : Forall (walk_ok (ws_table s)) (ws_at s);
  wi_count : t_n (ws_table s) + Prog.sum_of counting (ws_at s) = Z.of_nat (base.size (t_slots (ws_table s)));
}.

Lemma passed_next t name i e : passed t name i → t_slots t !! slot_at name i = Some e → e ≠ name → (S i < size)%nat → passed t name (S i).
Proof.
  intros [Hi Hj] He Hne Hs. split; [done|]. intros j Hlt. destruct (decide (j = i)) as [->|]; [by exists e|]. apply Hj. lia.
Qed.

(** A slot that is taken stays as it is. *)
Lemma passed_taken t name k v i : t_slots t !! k = None → passed t name i → passed (mkTable (<[k := v]> (t_slots t)) (t_n t)) name i.
Proof.
  intros Hk [Hi Hj]. split; [done|]. intros j Hlt. destruct (Hj j Hlt) as (e & He & Hne). exists e. cbn.
  rewrite lookup_insert_ne by congruence. done.
Qed.

Lemma walk_ok_taken t w k v : t_slots t !! k = None → walk_ok t w → walk_ok (mkTable (<[k := v]> (t_slots t)) (t_n t)) w.
Proof.
  intros Hk. destruct w as [name []]; unfold walk_ok, listed; cbn; try done; try by apply passed_taken.
  - intros (i & Hp & Hs). exists i. split; [by apply passed_taken|]. by rewrite lookup_insert_ne by congruence.
  - intros [Hp [e He]]. split; [by apply passed_taken|]. exists e. by rewrite lookup_insert_ne by congruence.
  - intros (i & Hp & Hs). exists i. split; [by apply passed_taken|]. by rewrite lookup_insert_ne by congruence.
Qed.

(** Two slots of one name are one. *)
Lemma listed_once s k k' name : walks_inv s → t_slots (ws_table s) !! k = Some name → t_slots (ws_table s) !! k' = Some name → k = k'.
Proof.
  intros Hi Hk Hk'. destruct (wi_slot s Hi _ _ Hk) as (i & [_ Hp] & ->), (wi_slot s Hi _ _ Hk') as (i' & [_ Hp'] & ->).
  destruct (lt_eq_lt_dec i i') as [[Hlt| ->]|Hlt]; [|done|].
  - destruct (Hp' i Hlt) as (e & He & Hne). congruence.
  - destruct (Hp i' Hlt) as (e & He & Hne). congruence.
Qed.

Lemma walks_step s s' : walks_inv s → walk_step s s' → walks_inv s'.
Proof using size_pos.
  intros Hi Hs. destruct Hs as [s0 name|s0 i name p Hp]; pose proof Hi as [H1 H2 H3].
  - split; cbn [ws_table ws_at]; [done| |by rewrite Prog.sum_of_snoc; cbn; rewrite Z.add_0_r].
    apply Forall_app. split; [done|]. constructor; [|done]. split; [done|]. cbn. lia.
  - pose proof (proj1 (Forall_lookup _ _) H2 _ _ Hp) as Hw.
    assert (∀ p', counting (name, p') = counting (name, p) → walk_ok (ws_table s0) (name, p') →
      walks_inv (mkWalks (ws_table s0) (<[i := (name, p')]> (ws_at s0)))) as Hon.
    { intros p' Hc Hok. split; cbn [ws_table ws_at]; [done|by apply Forall_insert|].
      rewrite (Prog.sum_of_insert _ _ _ _ _ Hp), Hc. lia. }
    assert (∀ j, passed (ws_table s0) name j → (∃ e, t_slots (ws_table s0) !! slot_at name j = Some e ∧ e ≠ name) →
      walk_ok (ws_table s0) (name, if (S j <? size)%nat then At (S j) else Full)) as Hnext.
    { intros j Hj (e & He & Hne). destruct (Nat.ltb_spec (S j) size); [by eapply passed_next|done]. }
    destruct p as [j|j| |j| |]; cbn [entry_step] in *.
    + destruct (t_slots (ws_table s0) !! slot_at name j) as [e|] eqn:Ee; cbn [fst snd].
      * destruct (bool_decide_reflect (e = name)) as [->|Hne]; (apply Hon; [by repeat case_match|]); [by exists j|by apply Hnext; [|exists e]].
      * apply Hon; [by case_match|]. by destruct (max <=? t_n (ws_table s0)).
    + destruct (t_slots (ws_table s0) !! slot_at name j) as [e|] eqn:Ee; cbn [fst snd]; [apply Hon; [done|]; split; [done|by eexists]|].
      assert (∀ t, t_slots t = <[slot_at name j := name]> (t_slots (ws_table s0)) → ∀ n i, passed (ws_table s0) n i → passed t n i) as Hpt.
      { intros t Et n k Hpk. destruct t as [sl tn]. cbn in Et. subst sl. apply (passed_taken _ _ _ name _ Ee) in Hpk. done. }
      split; cbn [ws_table ws_at t_n t_slots].
      * intros k v [[<- <-]|[Hne Hk]]%lookup_insert_Some; [exists j; split; [by apply Hpt|done]|].
        destruct (H1 k v Hk) as (i' & Hpi & ->). exists i'. split; [by apply Hpt|done].
      * apply Forall_insert; [eapply Forall_impl; [exact H2|]; intros w Hw'; by apply walk_ok_taken|].
        exists j. split; [by apply Hpt|]. cbn. by rewrite lookup_insert_eq.
      * rewrite (Prog.sum_of_insert _ _ _ _ _ Hp), map_size_insert_None by done. cbn [counting snd]. lia.
    + split; cbn [ws_table ws_at t_n t_slots fst snd]; [done| |rewrite (Prog.sum_of_insert _ _ _ _ _ Hp); cbn [counting snd]; lia].
      apply Forall_insert; [exact H2|]. exact Hw.
    + destruct Hw as [Hpj [e He]]. cbn [fst snd] in *. rewrite He. destruct (bool_decide_reflect (Some e = Some name)) as [[= ->]|Hne];
        (apply Hon; [by repeat case_match|]); [by exists j|by apply Hnext; [|exists e; split; [|congruence]]].
    + by apply Hon.
    + by apply Hon.
Qed.

(** [find] goes where [entry] went. *)
Lemma find_go_listed t name i fuel j : passed t name i → t_slots t !! slot_at name i = Some name → (j <= i)%nat → (i - j < fuel)%nat →
  find_go size hash fuel j name t = true.
Proof.
  intros [Hi Hp] Hs. revert j. induction fuel as [|fuel IH]; intros j Hj Hf; [lia|]. cbn [find_go].
  destruct (decide (j = i)) as [->|].
  - rewrite Hs. by rewrite bool_decide_true.
  - destruct (Hp j ltac:(lia)) as (e & -> & Hne). rewrite bool_decide_false by done. apply IH; lia.
Qed.

Lemma find_go_true t name fuel j : find_go size hash fuel j name t = true → ∃ k, t_slots t !! k = Some name.
Proof.
  revert j. induction fuel as [|fuel IH]; intros j; [done|]. cbn [find_go].
  destruct (t_slots t !! slot_at name j) as [e|] eqn:E; [|done]. destruct (bool_decide_reflect (e = name)) as [->|]; [eauto|apply IH].
Qed.

(** However walks interleave, a name has one slot, is found where it was
    entered, and the count is that of the names once nobody is counting. *)
Theorem names_exact s : rtc walk_step (mkWalks (mkTable ∅ 0) []) s →
  (∀ k k' name, t_slots (ws_table s) !! k = Some name → t_slots (ws_table s) !! k' = Some name → k = k') ∧
  (∀ i name, ws_at s !! i = Some (name, Found) → find size hash name (ws_table s) = true) ∧
  (∀ name, find size hash name (ws_table s) = true ↔ ∃ k, t_slots (ws_table s) !! k = Some name) ∧
  t_n (ws_table s) + Prog.sum_of counting (ws_at s) = Z.of_nat (base.size (t_slots (ws_table s))).
Proof using size_pos.
  intros Hs. assert (walks_inv s) as Hi.
  { eapply (rtc_invariant walk_step walks_inv); [apply walks_step|exact Hs|]. split; cbn; [intros ? ?; by rewrite lookup_empty|constructor|done]. }
  assert (∀ name k, t_slots (ws_table s) !! k = Some name → find size hash name (ws_table s) = true) as Hfind.
  { intros name k Hk. destruct (wi_slot s Hi _ _ Hk) as (j & Hp & ->). unfold find. pose proof (proj1 Hp). eapply find_go_listed; [done|done|lia|lia]. }
  split; [intros; by eapply listed_once|]. split; [|split; [|apply Hi]].
  - intros i name Hw. pose proof (proj1 (Forall_lookup _ _) (wi_walks s Hi) _ _ Hw) as (j & Hp & Hsl). by eapply Hfind.
  - intros name. split; [apply find_go_true|]. intros [k Hk]. by eapply Hfind.
Qed.
End Facts.
End NamesFacts.

(** * Properties *)

(** C3: However handshakes for any names, renewals and changes of the CA,
    of its settings and of its folders, and removals from the console
    interleave, whatever the folders hold: a handshake is served a
    certificate that covers its name and nothing else, with its own key,
    signed by a CA state that was current during the handshake and sent with
    that state's chain; and one that is not due for renewal, unless issuing
    another has just failed. *)
Theorem local_certificates (signed_by : x509 → x509 → bool) (key_matches : x509 → Z → bool)
    (create : Z → template → caState → option (x509 * Z)) (stamp : Z → bytes)
    (sign_ca : Z → ca_fields → Z → bytes → Z → Z → option x509) (json_strings : list bytes → bytes) (id : bytes) (w w' : world) :
  (∀ (rand : Z) (t : template) (ca : caState) (c : x509) (key : Z),
    can_sign key_matches (ca_cert ca) (ca_key ca) → create rand t ca = Some (c, key) →
    x_DNSNames c = t_DNSNames t ∧ x_IPAddresses c = t_IPAddresses t ∧
    x_NotBefore c = to_second (t_NotBefore t) ∧ x_NotAfter c = to_second (t_NotAfter t) ∧
    signed_by c (ca_cert ca) = true ∧ key_matches c key = true) →
  opened key_matches id w → rtc (step signed_by key_matches create stamp sign_ca json_strings id) w w' →
  ∀ (h : handshake) (c : tlsCert) (ca : caState) (now : Z) (conf : caConfig) (stale : bool),
    h ∈ w_hs w' → hs_at h = Served c ca now conf stale →
    leafKey (tc_Leaf c) = hs_name h ∧ key_matches (tc_Leaf c) (tc_Key c) = true ∧
    signed_by (tc_Leaf c) (ca_cert ca) = true ∧ tc_Chain c = ca_chain ca ∧ ca ∈ drop (hs_since h) (w_seen w') ∧
    if stale then ∃ rand, create rand (issue_template conf ca (hs_name h) now) ca = None else now < leafRenewDue conf (tc_Leaf c).
Proof.
  intros Hc (H1 & H2 & H3 & H4 & H5 & H6 & H7) Hs h c ca now conf stale Hh Hat.
  assert (inv signed_by key_matches create id w') as Hi.
  { eapply (rtc_invariant _ (inv signed_by key_matches create id)); [intros a b Ha Hab; by eapply inv_step|exact Hs|].
    split; rewrite ?H1, ?H5, ?H7; try done.
    - intros [|i] ca' Hl; [|done]. injection Hl as <-. done.
    - by intros ca' ->%list_elem_of_singleton. }
  destruct (proj1 (Forall_forall _ _) (i_hs _ _ _ _ _ Hi) h Hh) as (_ & _ & Ho). rewrite Hat in Ho. destruct Ho as ([? ? ? ?] & ? & ?). done.
Qed.


(** The key identifier of a CA signed again is the one this program computes,
    whatever it was before: what an imported CA issued names the one before. *)
Lemma renewed_key_id (signed_by : x509 → x509 → bool) (key_matches : x509 → Z → bool)
    (sign_ca : Z → ca_fields → Z → bytes → Z → Z → option x509) (keyID : Z → bytes) id key ca issuers now rand can_write cur fresh st conf name :
  (∀ rand f key hash from until c, sign_ca rand f key hash from until = Some c →
    can_sign key_matches c key ∧ x_NotBefore c = to_second from ∧ x_NotAfter c = to_second until ∧ x_SubjectKeyId c = keyID key) →
  can_sign key_matches ca key → can_sign key_matches (ca_cert cur) (ca_key cur) →
  ca_cert cur = ca → signed_by ca ca = true → renewDue ca <= now → x_SubjectKeyId ca ≠ keyID key →
  renewCA signed_by key_matches sign_ca id (Ok key) (Ok (ca :: issuers)) now rand can_write (Some cur) fresh = Ok (Some st) →
  t_AuthorityKeyId (issue_template conf cur name now) ≠ x_SubjectKeyId (ca_cert st).
Proof.
  intros Hsign Hca Hcur Hc Hs Hdue Hne Hr.
  destruct (renewCA_spec _ _ _ _ Hsign _ _ _ _ _ _ _ _ _ _ Hr Hca Hcur) as (new & _ & Hwhat & -> & _ & _).
  rewrite Hs, (proj2 (Z.leb_le _ _) Hdue) in Hwhat. destruct (Hsign _ _ _ _ _ _ _ Hwhat) as (_ & _ & _ & ->).
  unfold issue_template. destruct (sanSplit name). cbn. by rewrite Hc.
Qed.

(** ** Witnesses: a CA of 90 days, a name asked for twice, the CA renewed. *)

Definition demo_signed (c p : x509) : bool := x_IsCA p && bool_decide (x_AuthorityKeyId c = x_SubjectKeyId p).
Definition demo_matches (c : x509) (key : Z) : bool := bool_decide (x_SubjectKeyId c = [key]).
Definition demo_fields (from until : Z) : ca_fields := mkFields (lit "demo") [] (ECDSA 256) (lit "sha256") from until.
Definition demo_create (rand : Z) (t : template) (ca : caState) : option (x509 * Z) :=
  Some (mkX509 (7 :: [rand]) (demo_fields (to_second (t_NotBefore t)) (to_second (t_NotAfter t))) (t_DNSNames t) (t_IPAddresses t) false (t_KeyUsage t) [rand]
    (x_SubjectKeyId (ca_cert ca)), rand).
Definition demo_sign (rand : Z) (f : ca_fields) (key : Z) (hash : bytes) (from until : Z) : option x509 :=
  Some (mkX509 (9 :: [rand]) (demo_fields (to_second from) (to_second until)) [] [] true 0 [key] [key]).
Definition demo_ca : x509 := mkX509 [9] (demo_fields 0 (90 * day)) [] [] true 0 [5] [5].
Definition demo_state : caState := mkCA 0 demo_ca [] 5.
Definition demo_answers : answers := mkAnswers (2 * day) 11 true None.
Definition demo_disk : folders := mkFolders ∅ ∅.
Definition demo_world : world := mkWorld demo_state [demo_state] None ∅ demo_disk [].
Definition demo_name : bytes := lit "box.lan".
Definition demo_served : tlsCert := default (mkTLS demo_ca [] 0) (issue demo_create (defaultCAConfig []) demo_name demo_state demo_answers).

Lemma demo_create_ok : ∀ (rand : Z) (t : template) (ca : caState) (c : x509) (key : Z),
  can_sign demo_matches (ca_cert ca) (ca_key ca) → demo_create rand t ca = Some (c, key) →
  x_DNSNames c = t_DNSNames t ∧ x_IPAddresses c = t_IPAddresses t ∧
  x_NotBefore c = to_second (t_NotBefore t) ∧ x_NotAfter c = to_second (t_NotAfter t) ∧
  demo_signed c (ca_cert ca) = true ∧ demo_matches c key = true.
Proof.
  intros rand t ca c key (Hca & _) H. unfold demo_create in H. injection H as <- <-. unfold demo_signed, demo_matches. rewrite Hca. cbn.
  by rewrite !bool_decide_true.
Qed.

Lemma demo_opened : opened demo_matches [] demo_world.
Proof.
  split_and!; try done.
  - split_and!; [done|by left|done].
  - apply defaults_ok.
Qed.

(** Two handshakes for the name: the first issues its certificate. *)
Definition demo_hs : list handshake :=
  [mkHs demo_name 0 (Served demo_served demo_state (2 * day) (defaultCAConfig []) false);
   mkHs demo_name 0 (Served demo_served demo_state (3 * day) (defaultCAConfig []) false)].

Definition demo_after : folders := mkFolders {[demo_name := Some demo_served]} ∅.
Definition demo_end : world :=
  mkWorld demo_state [demo_state] None {[demo_name := mkLeaf demo_served demo_state]} demo_after demo_hs.
Abbreviation demo_step := (step demo_signed demo_matches demo_create (fun _ => []) demo_sign (fun _ => []) []).
Definition demo_at (p1 p2 : hs_pc) : list handshake := [mkHs demo_name 0 p1; mkHs demo_name 0 p2].

Lemma demo_runs : rtc demo_step demo_world demo_end.
Proof.
  eapply rtc_l; [apply (HsNew _ _ _ _ _ _ _ demo_world demo_name); left; vm_compute; reflexivity|].
  eapply rtc_l; [eapply (HsNew _ _ _ _ _ _ _ (mkWorld demo_state [demo_state] None ∅ demo_disk [mkHs demo_name 0 Begin]) demo_name); left; vm_compute; reflexivity|].
  eapply rtc_l; [eapply (HsLoad _ _ _ _ _ _ _ (mkWorld demo_state [demo_state] None ∅ demo_disk (demo_at Begin Begin)) 0 _ eq_refl eq_refl)|].
  eapply rtc_l; [eapply (HsFast _ _ _ _ _ _ _ (mkWorld demo_state [demo_state] None ∅ demo_disk (demo_at (Loaded demo_state) Begin)) 0 _ demo_state 0 eq_refl eq_refl)|].
  eapply rtc_l; [eapply (HsLocked _ _ _ _ _ _ _ (mkWorld demo_state [demo_state] None ∅ demo_disk (demo_at Waiting Begin)) 0 _ demo_answers
    (Some demo_served) (Some (mkLeaf demo_served demo_state)) demo_after eq_refl eq_refl)|].
  - vm_compute. reflexivity.
  - intros name c. cbn. rewrite lookup_insert_Some, lookup_empty. intros [[_ [= <-]]|[_ ?]]; [vm_compute; reflexivity|done].
  - match goal with |- rtc _ ?w _ => replace w with (mkWorld demo_state [demo_state] None {[demo_name := mkLeaf demo_served demo_state]} demo_after
      (demo_at (Served demo_served demo_state (2 * day) (defaultCAConfig []) false) Begin)) by (vm_compute; reflexivity) end.
    eapply rtc_l; [eapply (HsLoad _ _ _ _ _ _ _ _ 1); reflexivity|].
    eapply rtc_l; [eapply (HsFast _ _ _ _ _ _ _ (mkWorld demo_state [demo_state] None {[demo_name := mkLeaf demo_served demo_state]} demo_after
      (demo_at (Served demo_served demo_state (2 * day) (defaultCAConfig []) false) (Loaded demo_state))) 1 _ demo_state (3 * day) eq_refl eq_refl)|].
    match goal with |- rtc _ ?w _ => replace w with demo_end by (vm_compute; reflexivity) end. apply rtc_refl.
Qed.

Example local_certificates_witness :
  rtc demo_step demo_world demo_end ∧
  ∀ (h : handshake) (c : tlsCert) (ca : caState) (now : Z) (conf : caConfig) (stale : bool),
    h ∈ w_hs demo_end → hs_at h = Served c ca now conf stale →
    leafKey (tc_Leaf c) = hs_name h ∧ demo_matches (tc_Leaf c) (tc_Key c) = true ∧
    demo_signed (tc_Leaf c) (ca_cert ca) = true ∧ tc_Chain c = ca_chain ca ∧ ca ∈ drop (hs_since h) (w_seen demo_end) ∧
    if stale then ∃ rand, demo_create rand (issue_template conf ca (hs_name h) now) ca = None else now < leafRenewDue conf (tc_Leaf c).
Proof.
  split; [apply demo_runs|].
  exact (local_certificates demo_signed demo_matches demo_create (fun _ => []) demo_sign (fun _ => []) [] demo_world demo_end demo_create_ok demo_opened demo_runs).
Defined.

(** The same CA on its day 61 is signed again, and what it issued is served. *)
Definition demo_renewed : caState := mkCA 1 (default demo_ca (demo_sign 3 (demo_fields 0 (90 * day)) 5 (lit "sha256") (61 * day - hour) (151 * day))) [] 5.

Lemma demo_sign_ok : ∀ rand f key hash from until c, demo_sign rand f key hash from until = Some c →
  can_sign demo_matches c key ∧ x_NotBefore c = to_second from ∧ x_NotAfter c = to_second until ∧ x_SubjectKeyId c = [key].
Proof.
  intros rand f key hash from until c H. unfold demo_sign in H. injection H as <-. split; [|done]. split; [done|]. split; [by left|].
  unfold demo_matches. cbn. by rewrite bool_decide_true.
Qed.

Lemma demo_same_key : ∀ c p q key, can_sign demo_matches p key → can_sign demo_matches q key → demo_signed c p = demo_signed c q.
Proof.
  intros c p q key (Hp & _ & Kp) (Hq & _ & Kq). unfold demo_signed, demo_matches in *. rewrite Hp, Hq.
  apply bool_decide_eq_true in Kp, Kq. by rewrite Kp, Kq.
Qed.

Lemma demo_can_sign : can_sign demo_matches demo_ca 5.
Proof. split; [done|]. split; [by left|vm_compute; reflexivity]. Qed.

Lemma demo_days : 1 <= days_of (x_NotBefore demo_ca) (x_NotAfter demo_ca) <= 36500.
Proof. vm_compute. split; intros [=]. Qed.

Lemma demo_renews :
  renewCA demo_signed demo_matches demo_sign (lit "ca001") (Ok 5) (Ok [demo_ca]) (61 * day) 3 true (Some demo_state) 1 = Ok (Some demo_renewed).
Proof. vm_compute. reflexivity. Qed.

